(* ===== verification/_CoqProject ===== *)
-Q . S2P
Prelude.v
Endian.v
Rand.v
Intset.v
Lzf.v
Dict.v
DictScan.v
Adlist.v
Util.v
Glob.v
Sds.v
SdsText.v
Object.v
Double.v
Skiplist.v
Ziplist.v
Request.v
Crc64.v
Rio.v
Rdb.v
Reply.v
Replication.v
Multi.v
Commands.v
Server.v
Bitops.v
Keyspace.v
