(* ===== verification/Prelude.v ===== *)
(** * A verified model of the data-structure core of the Redis server

    The repository holds a .NET web application and, under src/redis-2.8, the
    Redis 2.8 server it uses as its cache. This library models the C code of
    the server from the bottom up: the self-contained data structures that
    every command of the server is built from, and the conversions and codecs
    they rely on. Each file models one component, function by function, and
    proves that the operations implement the abstract object they stand for.

    ** The parts of the program and their models

    All sources are under src/redis-2.8/src.

    - [Prelude] (this file): machine integers, blocks of memory with bounds
      checks, bytes of integers, the option monad of the models.
    - [Endian] (endianconv.c): byte reversal in memory and in words.
    - [Rand] (rand.c): the 48-bit generator of scripts, in 16-bit limbs.
    - [Intset] (intset.c): sorted packed arrays of integers.
    - [Lzf] (lzf_c.c, lzf_d.c): the compressor and the decompressor of RDB
      strings.
    - [Dict] and [DictScan] (dict.c): chained hash tables that are rehashed
      step by step, and the stateless cursor iteration over them.
    - [Adlist] (adlist.c): doubly linked lists on a heap of nodes.
    - [Util] and [Glob] (util.c): decimal numbers and glob patterns.
    - [Sds] and [SdsText] (sds.c): dynamic strings; formatting, splitting,
      quoting and parsing of argument lines.
    - [Object] (object.c): string objects, raw or encoded as integers.
    - [Double] and [Skiplist] (t_zset.c): scores and the skip lists of sorted
      sets.
    - [Ziplist] (ziplist.c): lists of strings and integers in one block.
    - [Request] (networking.c): the bytes of a client, cut into requests and
      their arguments.
    - [Crc64] (crc64.c): the checksum of dumps.
    - [Rio] (rio.h, rio.c): streams with a checksum, over any backend, and
      the backend in memory.
    - [Rdb] (rdb.c, migrate.c): the encoding of lengths, integers and strings
      in dumps, and the payloads of DUMP and RESTORE.
    - [Reply] (networking.c, redis.c): the output of a client, a buffer and a
      list of shared objects, the functions that add replies to it and the
      handler that writes it to the socket.
    - [Replication] (replication.c): the master's stream of commands, the
      circular backlog that keeps its end, the replicas it is fed to and the
      partial resynchronisation of a replica that lost its connection.
    - [Multi] (multi.c, redis.c, and the arguments of clients in networking.c):
      the way of a request through processCommand and call, the queue of a
      transaction, watched keys, and the propagation of what changed.
    - [Commands] (redis.c): the table of commands, and a server with this
      table on which the theorems of [Multi] are applied.
    - [Server] (networking.c, redis.c): the loop of [Request] with the
      processCommand of [Multi], from the bytes of a client to the state of the
      server.
    - [Bitops] (bitops.c): strings as arrays of bits: counting and finding bits
      by words, SETBIT, GETBIT, BITCOUNT, BITPOS and BITOP.
    - [Keyspace] (db.c, t_string.c): the databases, keys that expire, the
      commands on keys and on strings, and what a master sends its slaves.

    [Util] serves [Sds], [Object] and [Ziplist]; [Sds] serves [Object];
    [Skiplist] is proved against the interface [StringObjects], which [Object]
    implements. [Request] keeps the bytes of a client in the strings of [Sds],
    splits lines with [SdsText] and stores arguments as objects of [Object];
    the function that runs a command is a parameter of its loop, for which
    [Server] takes the one of [Multi]. [Rio] is
    proved against the interfaces [Backend] and [Stream]; [Rdb] writes through
    it with [Lzf], [Object] and [Crc64]. [Reply] builds its texts with [Sds],
    [SdsText] and [Util]; [Replication] feeds the clients of [Reply] and
    writes commands in the form that [Request] reads. [Multi] starts where
    [Request] ends, with the arguments of a request, and takes lists as [Adlist]
    and dictionaries as [Dict] show that they behave; the commands of the data
    types are any sequences of its steps [act] (change the keyspace, reply,
    touch a key, rewrite or keep an argument, propagate a command, and so on),
    so that its theorems hold for every set of such commands. [Keyspace] is the
    other side: the commands on keys and strings themselves, with the part of
    call that propagates them; its strings are read and encoded as those of
    [Object] ([Keyspace.number_total], [Keyspace.encode_object]).

    ** How code corresponds to definitions

    A C function is a definition of the same name. State is passed and
    returned: a structure is a record, a buffer the list of its bytes, a
    linked structure a finite map from locations to nodes, a pointer into a
    buffer an offset. What the language leaves undefined, an access outside
    a block or through a null or dangling pointer, and a failed assertion, is
    [None]; a theorem that an operation returns [Some] therefore includes that
    it stays inside its memory. Integers are [Z] with the wrap-around of their
    width written out ([CInt.wrap], [CInt.swrap] and the casts of
    [redis_scope]) wherever the code can reach it. Fresh memory has arbitrary
    contents, a parameter [uninit] of the operations that allocate.

    Loops are fixpoints on fuel. The fuel is computed from the state (the
    length of the block, of the list or of the string plus one) and the
    theorems are about the operations with that fuel: they return, so it is
    enough. Only [dictRehashMilliseconds] and the probability loop of
    [zslRandomLevel] depend on an outside source, the clock or the random
    numbers, which is a parameter. Integers of the file formats are those of a
    little-endian host.

    ** What the theorems show

    Refinement: each data structure has a representation relation to a plain
    object, a finite map ([Dict]), a set of integers ([Intset]), a list of
    values ([Adlist]), of bytes ([Sds]), of ordered elements ([Skiplist]), of
    strings ([Ziplist]); an operation that starts in a represented state ends
    in one that represents the result of the abstract operation. The invariants
    (sorted arrays, spans of a skip list, length fields and tail offset of a
    ziplist, the counts of a table under rehashing) are parts of these
    relations, so their preservation is part of the same theorems.
    Equivalence: the glob matcher decides the language of its pattern; the
    checksum by tables is division by its polynomial; counting bits, finding a
    bit and combining strings by whole words is the same bit by bit.
    Round trips: LZF, decimal numbers, quoted argument lines, object encodings,
    strings of dumps over any stream, payloads of DUMP; a payload with a short
    burst of errors is refused.
    State machines: the request parser is a machine that is fed by reads; every
    sequence of reads of pipelined requests runs them in order until a command
    blocks the client or is to close it ([Request.requests_any_reads]), and on
    arbitrary bytes it stays in a known state ([Request.serve_safe]). With the
    server of [Multi] behind it the bytes of a client take the server from one
    state of its specification to another ([Server.reads_drive_server]). The output of a client is a queue: in every
    order of replies and of writes of any size, the bytes sent and the bytes
    kept are the replies in order, with the lengths that were set later in
    their places ([Reply.connection_sends_replies]), and writes that make
    progress empty it. A master appends every command to one stream: after any
    sequence of commands and writes the backlog holds the end of the stream,
    every online replica has received or will receive it
    ([Replication.replicas_follow]), and a replica that asks for an offset
    within the backlog gets exactly the bytes it misses. Clients that connect,
    send requests and disconnect in any order keep the server of [Multi] in
    step with a specification without objects, counts and tables
    ([Multi.server_refines]): no argument is used after it was freed and every
    count is exact. A client in a transaction is marked when, and only when, a
    key that it watches is touched ([Multi.watched_keys_are_guarded]); EXEC then
    runs nothing, and otherwise the whole queue
    ([Multi.exec_all_or_nothing]).
    A master that runs commands and lets keys expire, in any order and with any
    clock, and a slave with another clock that is fed what the master sends end
    with the same keys and values ([Keyspace.replicas_converge]): every command
    is shown to do what a function without time does to the keys that are left
    ([Keyspace.proc_applied]). A lookup on a master never shows an expired value
    ([Keyspace.lookup_hides_expired]).
    Safety, bounds and termination: memory safety of the decompressor on any
    input, the buffer bounds of the compressor, deletion during iteration,
    completeness and termination of the cursor scan.
    Errors: inputs on which the code does not do what it means to do are
    theorems too (the scan of a shrinking table, the compressor's write past
    its output, the ziplist insertion that reads outside its block, the
    transaction with SAVE that is propagated without its end, the SET with XX
    that a slave refuses, and others).

    ** Not modelled

    Out of memory, which aborts the process. The event loop and sockets, the
    creation and freeing of clients beyond their arguments and transactions,
    persistence to files, full resynchronisation (it forks a child that saves),
    the replica's side of replication and Sentinel, the Lua bridge (also call
    inside EVAL) and configuration: they are dominated by system calls and by
    global state shared with the operating system. The bodies of the commands
    of the data types
    (t_hash.c, t_list.c, t_set.c, the commands of t_zset.c), which combine the
    structures modelled here with the client protocol; INCRBYFLOAT, whose
    arithmetic is that of long double, KEYS, SCAN and the key lists of the
    command table. hyperloglog.c, sort.c and zipmap.c are not modelled. The
    vendored libraries under deps and the Windows layer Win32_Interop are
    third-party code, and the .NET projects are not part of the server. *)
From stdpp Require Import base tactics list numbers option sorting.
From Stdlib Require Import ZArith Lia.

#[export] Set Default Goal Selector "!".
#[export] Set Warnings "-clear-no-such-hyp".
Open Scope Z_scope.

(** ** The option monad of the models

    [bind_eq] runs the first step of a computation, [bind_inv] splits a
    computation that returned. *)
Lemma bind_eq {A B} (e : option A) (x : A) (k : A -> option B) r :
  e = Some x -> k x = r -> e ≫= k = r.
Proof. by intros ->. Qed.

Lemma bind_inv {A B} (e : option A) (k : A -> option B) y :
  e ≫= k = Some y -> exists x, e = Some x /\ k x = Some y.
Proof. destruct e; [eauto|done]. Qed.

Ltac osimpl := cbn [mbind option_bind fmap option_fmap option_map].

(** Decides the tests whose outcome is a computation on constants. *)
Ltac ctests :=
  repeat match goal with
    | |- context [if ?b then _ else _] =>
        first [change b with true | change b with false]; cbv iota
    | |- context [negb ?b] => first [change (negb b) with true | change (negb b) with false]
    end.

(** Equal results, component by component. *)
Ltac result_eq :=
  repeat lazymatch goal with
    | |- Some _ = Some _ => f_equal
    | |- (_, _) = (_, _) => f_equal
    end; try done; try lia.

Tactic Notation "ostep" uconstr(t) := eapply bind_eq; [eapply t|cbn beta].

Tactic Notation "ostep" uconstr(t) "by" tactic3(tac) :=
  eapply bind_eq; [eapply t; tac|cbn beta].

(** ** Machine integers

    An unsigned [w]-bit C integer is a [Z] reduced modulo [2^w]; a signed one
    is the two's complement reading of the same residue. *)
Module CInt.

Definition wrap (w z : Z) : Z := z mod 2 ^ w.

Definition swrap (w z : Z) : Z := (z + 2 ^ (w - 1)) mod 2 ^ w - 2 ^ (w - 1).

Definition in_u (w z : Z) : Prop := 0 <= z < 2 ^ w.

Definition in_s (w z : Z) : Prop := - 2 ^ (w - 1) <= z < 2 ^ (w - 1).

Lemma wrap_range w z : 0 <= w -> in_u w (wrap w z).
Proof. intros. unfold in_u, wrap. apply Z.mod_pos_bound. lia. Qed.

Lemma wrap_small w z : in_u w z -> wrap w z = z.
Proof. apply Z.mod_small. Qed.

Lemma swrap_small w z : 0 < w -> in_s w z -> swrap w z = z.
Proof.
  unfold in_s, swrap. intros Hw Hz.
  assert (2 ^ w = 2 * 2 ^ (w - 1)) as Hp.
  { rewrite <- Z.pow_succ_r by lia. f_equal. lia. }
  rewrite Z.mod_small; lia.
Qed.

Lemma swrap_range w z : 0 < w -> in_s w (swrap w z).
Proof.
  unfold in_s, swrap. intros Hw.
  assert (2 ^ w = 2 * 2 ^ (w - 1)) as Hp.
  { rewrite <- Z.pow_succ_r by lia. f_equal. lia. }
  pose proof (Z.mod_pos_bound (z + 2 ^ (w - 1)) (2 ^ w) ltac:(lia)). lia.
Qed.

Lemma swrap_wrap w z : 0 < w -> swrap w (wrap w z) = swrap w z.
Proof.
  intros. unfold swrap, wrap. by rewrite Zplus_mod_idemp_l.
Qed.

Lemma wrap_add_l w a b : wrap w (wrap w a + b) = wrap w (a + b).
Proof. apply Zplus_mod_idemp_l. Qed.

Lemma wrap_add_r w a b : wrap w (a + wrap w b) = wrap w (a + b).
Proof. apply Zplus_mod_idemp_r. Qed.

Lemma land_ones_wrap w z : 0 <= w -> Z.land z (2 ^ w - 1) = wrap w z.
Proof.
  intros. rewrite Z.sub_1_r, <- Z.ones_equiv, Z.land_ones by lia. done.
Qed.

(** A field beside another: the two halves do not overlap. *)
Lemma lor_shiftl a b n : 0 <= n -> 0 <= b < 2 ^ n -> Z.lor (Z.shiftl a n) b = a * 2 ^ n + b.
Proof.
  intros Hn Hb.
  assert (Z.land (Z.shiftl a n) b = 0) as H0.
  { apply Z.bits_inj'. intros i Hi. rewrite Z.land_spec, Z.bits_0, Z.shiftl_spec by done.
    destruct (Z.lt_ge_cases i n); [by rewrite Z.testbit_neg_r by lia|].
    rewrite <- (Z.mod_small b (2 ^ n)) by done.
    rewrite Z.mod_pow2_bits_high by lia. apply andb_false_r. }
  rewrite <- Z.lxor_lor, <- Z.add_nocarry_lxor, Z.shiftl_mul_pow2 by done. done.
Qed.

Lemma land_63 z : Z.land z 63 = z mod 64.
Proof. apply (Z.land_ones z 6). lia. Qed.

Lemma land_255 z : Z.land z 255 = z mod 256.
Proof. apply (Z.land_ones z 8). lia. Qed.

End CInt.

(** ** Blocks of memory

    A block is the list of its cells; an access outside it has no defined
    behaviour in C and is [None] here, so a theorem that an operation returns
    [Some] includes that it stays inside its block. *)
Abbreviation zlen l := (Z.of_nat (length l)).

Module CMem.
Section Cells.
Context {A : Type}.
Implicit Types (m bs : list A) (i n : Z).

Definition rd m i : option A :=
  if i <? 0 then None else m !! Z.to_nat i.

Definition wr m i (v : A) : option (list A) :=
  if (0 <=? i) && (i <? zlen m) then Some (<[Z.to_nat i := v]> m) else None.

Definition rdn m i n : option (list A) :=
  if (0 <=? i) && (0 <=? n) && (i + n <=? zlen m)
  then Some (take (Z.to_nat n) (drop (Z.to_nat i) m)) else None.

Definition wrn m i bs : option (list A) :=
  if (0 <=? i) && (i + zlen bs <=? zlen m)
  then Some (take (Z.to_nat i) m ++ bs ++ drop (Z.to_nat i + length bs) m)
  else None.

(** [memmove]: the source is read before the destination is written, so the
    two ranges may overlap. *)
Definition memmove m dst src n : option (list A) :=
  bs ← rdn m src n; wrn m dst bs.

(** [realloc] to [n] cells: a prefix of the old block is kept and the cells
    beyond it are unspecified, [uninit k] being what cell [k] holds. *)
Definition realloc (uninit : nat -> A) n m : list A :=
  take (Z.to_nat n) m ++
  (uninit <$> seq (length m) (Z.to_nat n - length m)).

(** Accesses described by the shape of the block, which is how the proofs of
    the components use them. *)
Lemma rd_app a (x : A) b i : i = zlen a -> rd (a ++ x :: b) i = Some x.
Proof.
  intros ->. unfold rd. destruct (Z.ltb_spec (zlen a) 0); [lia|].
  rewrite Nat2Z.id. by apply list_lookup_middle.
Qed.

Lemma rd_nat m (k : nat) : rd m (Z.of_nat k) = m !! k.
Proof. unfold rd. destruct (Z.ltb_spec (Z.of_nat k) 0); [lia|]. by rewrite Nat2Z.id. Qed.

Lemma rd_Some m i x :
  rd m i = Some x <-> 0 <= i /\ m !! Z.to_nat i = Some x.
Proof. unfold rd. destruct (Z.ltb_spec i 0); intuition (congruence || lia). Qed.

Lemma rd_is_Some m i : 0 <= i < zlen m -> is_Some (rd m i).
Proof.
  intros ?. unfold rd. destruct (Z.ltb_spec i 0); [lia|].
  apply lookup_lt_is_Some. lia.
Qed.

Lemma wr_app a (x : A) b i v : i = zlen a -> wr (a ++ x :: b) i v = Some (a ++ v :: b).
Proof.
  intros ->. unfold wr. rewrite length_app. cbn [length].
  destruct (Z.leb_spec 0 (zlen a)); [|lia].
  destruct (Z.ltb_spec (zlen a) (Z.of_nat (length a + S (length b)))); [|lia].
  cbn. rewrite Nat2Z.id. f_equal.
  rewrite insert_app_r_alt by lia. by rewrite Nat.sub_diag.
Qed.

Lemma wr_in m i v :
  0 <= i < zlen m -> exists m', wr m i v = Some m' /\ length m' = length m.
Proof.
  intros. unfold wr. rewrite (proj2 (Z.leb_le _ _)), (proj2 (Z.ltb_lt _ _)) by lia.
  eexists. split; [done|]. apply length_insert.
Qed.

Lemma rd_in m i : 0 <= i < zlen m -> exists x, rd m i = Some x.
Proof. apply rd_is_Some. Qed.

Lemma rdn_app a b c i n :
  i = zlen a -> n = zlen b -> rdn (a ++ b ++ c) i n = Some b.
Proof.
  intros -> ->. unfold rdn. rewrite !length_app.
  destruct (Z.leb_spec 0 (zlen a)); [|lia].
  destruct (Z.leb_spec 0 (zlen b)); [|lia].
  destruct (Z.leb_spec (zlen a + zlen b)
              (Z.of_nat (length a + (length b + length c)))); [|lia].
  cbn. rewrite !Nat2Z.id, drop_app_length, take_app_length. done.
Qed.

Lemma wrn_app a b c i b' :
  i = zlen a -> length b = length b' -> wrn (a ++ b ++ c) i b' = Some (a ++ b' ++ c).
Proof.
  intros -> Hl. unfold wrn. rewrite !length_app.
  destruct (Z.leb_spec 0 (zlen a)); [|lia].
  destruct (Z.leb_spec (zlen a + zlen b')
              (Z.of_nat (length a + (length b + length c)))); [|lia].
  cbn. rewrite !Nat2Z.id, take_app_length. do 3 f_equal.
  rewrite <- drop_drop, drop_app_length, <- Hl, drop_app_length. done.
Qed.

Lemma wrn_length m i bs m' : wrn m i bs = Some m' -> length m' = length m.
Proof.
  unfold wrn. intros H.
  destruct (Z.leb_spec 0 i); [|done].
  destruct (Z.leb_spec (i + zlen bs) (zlen m)); [|done]. simpl in H.
  injection H as <-. rewrite !length_app, length_take, length_drop. lia.
Qed.

Lemma wrn_nil m i : 0 <= i <= zlen m -> wrn m i [] = Some m.
Proof.
  intros. unfold wrn. cbn [length app].
  rewrite (proj2 (Z.leb_le 0 i)), (proj2 (Z.leb_le (i + Z.of_nat 0) _)) by lia. cbn [andb].
  by rewrite Nat.add_0_r, take_drop.
Qed.

Lemma wr_wrn m i v : wr m i v = wrn m i [v].
Proof.
  unfold wr, wrn. cbn [length app].
  destruct (Z.leb_spec 0 i); [|done].
  destruct (Z.ltb_spec i (zlen m)), (Z.leb_spec (i + Z.of_nat 1) (zlen m)); try lia; [|done].
  cbn [andb]. f_equal. rewrite insert_take_drop by lia.
  by rewrite Nat.add_1_r.
Qed.

Lemma realloc_length u n m : 0 <= n -> zlen (realloc u n m) = n.
Proof.
  intros. unfold realloc. rewrite length_app, length_take, length_fmap, length_seq. lia.
Qed.

Lemma realloc_shrink u n m : 0 <= n <= zlen m -> realloc u n m = take (Z.to_nat n) m.
Proof.
  intros. unfold realloc.
  replace (Z.to_nat n - length m)%nat with 0%nat by lia. by rewrite app_nil_r.
Qed.

Lemma realloc_grow u n m :
  zlen m <= n -> exists t, realloc u n m = m ++ t /\ zlen t = n - zlen m.
Proof.
  intros. eexists. unfold realloc. rewrite take_ge by lia. split; [done|].
  rewrite length_fmap, length_seq. lia.
Qed.

(** Opening a gap of [k] cells after [a], and closing the gap [x]. *)
Lemma memmove_up_in a b t c k dst src n :
  zlen t = k -> src = zlen a -> dst = zlen a + k -> n = zlen b ->
  exists x, zlen x = k /\ memmove (a ++ b ++ t ++ c) dst src n = Some (a ++ x ++ b ++ c).
Proof.
  intros Ht -> -> ->. exists (take (length t) (b ++ t)).
  rewrite length_take, length_app. split; [lia|].
  unfold memmove. rewrite rdn_app by done. simpl.
  rewrite (app_assoc b), <- (take_drop (length t) (b ++ t)) at 1.
  rewrite <- (app_assoc (take _ _)), app_assoc, wrn_app.
  - by rewrite <- app_assoc.
  - rewrite length_app, length_take, length_app. lia.
  - rewrite length_drop, length_app. lia.
Qed.

Lemma memmove_up a b t k dst src n :
  zlen t = k -> src = zlen a -> dst = zlen a + k -> n = zlen b ->
  exists x, zlen x = k /\ memmove (a ++ b ++ t) dst src n = Some (a ++ x ++ b).
Proof.
  intros Ht Hs Hd Hn. destruct (memmove_up_in a b t [] k dst src n Ht Hs Hd Hn) as (x & Hx & E).
  rewrite !app_nil_r in E. eauto.
Qed.

Lemma memmove_down_in a x b c dst src n :
  dst = zlen a -> src = zlen a + zlen x -> n = zlen b ->
  exists t, zlen t = zlen x /\ memmove (a ++ x ++ b ++ c) dst src n = Some (a ++ b ++ t ++ c).
Proof.
  intros -> -> ->. exists (drop (length b) (x ++ b)).
  rewrite length_drop, length_app. split; [lia|].
  unfold memmove.
  replace (a ++ x ++ b ++ c) with ((a ++ x) ++ b ++ c) by (by rewrite <- app_assoc).
  rewrite rdn_app by (rewrite ?length_app; lia). simpl.
  rewrite <- app_assoc, (app_assoc x), <- (take_drop (length b) (x ++ b)) at 1.
  rewrite <- app_assoc. apply wrn_app; [done|]. rewrite length_take, length_app. lia.
Qed.

Lemma memmove_down a x b dst src n :
  dst = zlen a -> src = zlen a + zlen x -> n = zlen b ->
  exists t, zlen t = zlen x /\ memmove (a ++ x ++ b) dst src n = Some (a ++ b ++ t).
Proof.
  intros Hd Hs Hn. destruct (memmove_down_in a x b [] dst src n Hd Hs Hn) as (t & Ht & E).
  rewrite !app_nil_r in E. eauto.
Qed.

(** Accesses behind a prefix. *)
Lemma rd_shift a m i : 0 <= i -> rd (a ++ m) (zlen a + i) = rd m i.
Proof.
  intros. unfold rd. rewrite !(proj2 (Z.ltb_ge _ _)) by lia.
  rewrite lookup_app_r by lia. f_equal. lia.
Qed.

Lemma rdn_shift a m i n : 0 <= i -> rdn (a ++ m) (zlen a + i) n = rdn m i n.
Proof.
  intros. unfold rdn. rewrite length_app.
  replace (zlen a + i + n <=? Z.of_nat (length a + length m)) with (i + n <=? zlen m)
    by (destruct (Z.leb_spec (i + n) (zlen m)), (Z.leb_spec (zlen a + i + n)
          (Z.of_nat (length a + length m))); lia).
  rewrite !(proj2 (Z.leb_le 0 i)), (proj2 (Z.leb_le 0 (zlen a + i))) by lia. rewrite drop_app_ge by lia.
  replace (Z.to_nat (zlen a + i) - length a)%nat with (Z.to_nat i) by lia. done.
Qed.

Lemma wr_shift a m i v : 0 <= i -> wr (a ++ m) (zlen a + i) v = (a ++.) <$> wr m i v.
Proof.
  intros. unfold wr. rewrite length_app.
  replace (zlen a + i <? Z.of_nat (length a + length m)) with (i <? zlen m)
    by (destruct (Z.ltb_spec i (zlen m)), (Z.ltb_spec (zlen a + i)
          (Z.of_nat (length a + length m))); lia).
  rewrite !(proj2 (Z.leb_le 0 i)), (proj2 (Z.leb_le 0 (zlen a + i))) by lia. destruct (_ <? _); [|done]. cbn. f_equal.
  rewrite insert_app_r_alt by lia. do 2 f_equal. lia.
Qed.

Lemma wrn_shift a m i bs : 0 <= i -> wrn (a ++ m) (zlen a + i) bs = (a ++.) <$> wrn m i bs.
Proof.
  intros. unfold wrn. rewrite length_app.
  replace (zlen a + i + zlen bs <=? Z.of_nat (length a + length m)) with (i + zlen bs <=? zlen m)
    by (destruct (Z.leb_spec (i + zlen bs) (zlen m)), (Z.leb_spec (zlen a + i + zlen bs)
          (Z.of_nat (length a + length m))); lia).
  rewrite !(proj2 (Z.leb_le 0 i)), (proj2 (Z.leb_le 0 (zlen a + i))) by lia. destruct (_ <=? _); [|done]. cbn. f_equal.
  rewrite take_app_ge, drop_app_ge by lia. rewrite <- app_assoc.
  replace (Z.to_nat (zlen a + i) - length a)%nat with (Z.to_nat i) by lia.
  replace (Z.to_nat (zlen a + i) + length bs - length a)%nat with (Z.to_nat i + length bs)%nat by lia.
  done.
Qed.

Lemma rd_0 (x : A) m : rd (x :: m) 0 = Some x.
Proof. done. Qed.

Lemma rd_1 (x y : A) m : rd (x :: y :: m) 1 = Some y.
Proof. done. Qed.

Lemma wr_0 (x v : A) m : wr (x :: m) 0 v = Some (v :: m).
Proof. by apply (wr_app []). Qed.
End Cells.

(** [memcmp]: the sign of the first difference, bytes being unsigned. *)
Fixpoint memcmp (a b : list Z) : Z :=
  match a, b with
  | x :: a, y :: b => if x =? y then memcmp a b else if x <? y then -1 else 1
  | _, _ => 0
  end.

Lemma memcmp_eq a : forall b, length a = length b -> (memcmp a b =? 0) = bool_decide (a = b).
Proof.
  induction a as [|x a IH]; intros [|y b] Hl; try done. cbn [memcmp].
  destruct (Z.eqb_spec x y) as [->|Hne].
  - rewrite IH by (simpl in Hl; lia). apply bool_decide_ext. naive_solver.
  - rewrite bool_decide_eq_false_2 by naive_solver. by destruct (x <? y).
Qed.

End CMem.

(** ** Integers as bytes, least significant first *)
Module Bytes.

Definition is_byte (b : Z) : Prop := 0 <= b < 256.

Fixpoint le (n : nat) (z : Z) : list Z :=
  match n with
  | O => []
  | S n => z mod 256 :: le n (z / 256)
  end.

Fixpoint unle (bs : list Z) : Z :=
  match bs with
  | [] => 0
  | b :: bs => b + 256 * unle bs
  end.

Lemma le_length n z : length (le n z) = n.
Proof. revert z. induction n; intros; simpl; auto. Qed.

Lemma le_bytes n z : Forall is_byte (le n z).
Proof.
  revert z. induction n as [|n IH]; intros z; simpl; constructor; [|done].
  unfold is_byte. apply Z.mod_pos_bound. lia.
Qed.

Lemma unle_le n z : unle (le n z) = z mod 256 ^ Z.of_nat n.
Proof.
  revert z. induction n as [|n IH]; intros z; cbn [le unle].
  - by rewrite Z.mod_1_r.
  - rewrite IH, Nat2Z.inj_succ, Z.pow_succ_r by lia.
    rewrite (Z.rem_mul_r z 256) by lia. lia.
Qed.

Lemma unle_bound bs : Forall is_byte bs -> 0 <= unle bs < 256 ^ zlen bs.
Proof.
  induction 1 as [|b bs Hb _ IH]; cbn [unle length]; [lia|].
  unfold is_byte in Hb. rewrite Nat2Z.inj_succ, Z.pow_succ_r by lia. lia.
Qed.

Lemma le_unle bs : Forall is_byte bs -> le (length bs) (unle bs) = bs.
Proof.
  induction 1 as [|b bs Hb Hbs IH]; [done|]. cbn [length unle le].
  unfold is_byte in Hb.
  rewrite (Z.mul_comm 256), Z.mod_add, Z.mod_small by lia.
  rewrite Z.div_add, Z.div_small, Z.add_0_l by lia. by rewrite IH.
Qed.

Lemma pow256 (n : Z) : 0 <= n -> 256 ^ n = 2 ^ (8 * n).
Proof. intros. rewrite Z.pow_mul_r by lia. done. Qed.

Lemma unle_le_small n z : 0 <= z < 256 ^ Z.of_nat n -> unle (le n z) = z.
Proof. intros. rewrite unle_le. by apply Z.mod_small. Qed.

(** The bytes of a signed integer and the sign-extending read. *)
Lemma swrap_unle_le n z :
  (0 < n)%nat -> CInt.in_s (8 * Z.of_nat n) z ->
  CInt.swrap (8 * Z.of_nat n) (unle (le n z)) = z.
Proof.
  intros Hn Hz. rewrite unle_le, pow256 by lia.
  change (z mod 2 ^ (8 * Z.of_nat n)) with (CInt.wrap (8 * Z.of_nat n) z).
  rewrite CInt.swrap_wrap, CInt.swrap_small by (done || lia). done.
Qed.

End Bytes.

(** ** Notation scope of the development: C casts *)
Declare Scope redis_scope.
Delimit Scope redis_scope with redis.

Notation "'uint16' z" := (CInt.wrap 16 z) (at level 10, z at level 9) : redis_scope.
Notation "'uint32' z" := (CInt.wrap 32 z) (at level 10, z at level 9) : redis_scope.
Notation "'uint64' z" := (CInt.wrap 64 z) (at level 10, z at level 9) : redis_scope.
Notation "'int32' z" := (CInt.swrap 32 z) (at level 10, z at level 9) : redis_scope.
Notation "'int64' z" := (CInt.swrap 64 z) (at level 10, z at level 9) : redis_scope.

(** ** Sizes of blocks

    [zsize] solves the side conditions of the block lemmas above: the lengths
    of blocks built from appends, bytes of integers and sub-blocks. *)
Create Rewrite HintDb size.
#[export] Hint Rewrite @length_app @length_take @length_drop @length_replicate
  @length_fmap @length_seq @length_insert Bytes.le_length : size.

Ltac zsize :=
  try done; cbn [length] in *; autorewrite with size; cbn [length];
  autorewrite with size; try lia.

Lemma app_cons_mid {A} (a : list A) x b : a ++ x :: b = (a ++ [x]) ++ b.
Proof. by rewrite <- app_assoc. Qed.

(** ** Strictly sorted lists of integers *)
Lemma sorted_lookup_lt (l : list Z) (i j : nat) x y :
  StronglySorted Z.lt l -> l !! i = Some x -> l !! j = Some y -> (i < j)%nat -> x < y.
Proof.
  intros Hs Hx Hy Hij.
  rewrite <- (take_drop j l) in Hs.
  eapply StronglySorted_app_1_elem_of; [exact Hs| |].
  - apply list_elem_of_lookup. exists i. by rewrite lookup_take_lt.
  - apply list_elem_of_lookup. exists 0%nat. by rewrite lookup_drop, Nat.add_0_r.
Qed.

Lemma take_S_lookup {A} (l : list A) k x :
  l !! k = Some x -> take (S k) l = take k l ++ [x] /\ drop k l = x :: drop (S k) l.
Proof. intros H. split; [by apply take_S_r|by apply drop_S]. Qed.

(** ** Computations with a state that may fail *)
Module StateM.

Definition M (S A : Type) : Type := S -> option (A * S).

#[export] Instance M_ret {S} : MRet (M S) := fun A x s => Some (x, s).
#[export] Instance M_bind {S} : MBind (M S) := fun A B k m s => '(x, s) ← m s; k x s.

Definition lift {S A} (o : option A) : M S A := fun s => x ← o; Some (x, s).
Definition fail {S A} : M S A := fun _ => None.

Section Run.
Context {S A B C : Type}.
Implicit Types (s : S).

Lemma bind_run (m : M S A) (k : A -> M S B) s x s' : m s = Some (x, s') -> (m ≫= k) s = k x s'.
Proof. intros E. unfold mbind, M_bind. by rewrite E. Qed.

Lemma ret_run (x : A) (k : A -> M S B) s : (mret x ≫= k) s = k x s.
Proof. done. Qed.

Lemma lift_run (o : option A) x (k : A -> M S B) s : o = Some x -> (lift o ≫= k) s = k x s.
Proof. by intros ->. Qed.

Lemma bind_ext (m : M S A) (f g : A -> M S B) s :
  (forall x s', f x s' = g x s') -> (m ≫= f) s = (m ≫= g) s.
Proof. intros H. unfold mbind, M_bind. destruct (m s) as [[x s']|]; [apply H|done]. Qed.

Lemma bind_assoc (m : M S A) (f : A -> M S B) (g : B -> M S C) s :
  ((m ≫= f) ≫= g) s = (m ≫= (fun x => f x ≫= g)) s.
Proof. unfold mbind, M_bind. by destruct (m s) as [[x s']|]. Qed.
End Run.

End StateM.
