(* ===== verification/Endian.v ===== *)
(** * Byte order conversion (src/redis-2.8/src/endianconv.c)

    [memrev16], [memrev32] and [memrev64] reverse 2, 4 and 8 bytes of a block
    in place; [intrev16], [intrev32] and [intrev64] do it to an integer. *)
From stdpp Require Import base tactics list numbers option.
From Stdlib Require Import ZArith Lia.
From S2P Require Import Prelude.
Import CMem Bytes.
Open Scope Z_scope.

Module Endian.

(** One exchange [t = x[i]; x[i] = x[j]; x[j] = t]. *)
Definition exchange (m : list Z) (i j : Z) : option (list Z) :=
  t ← rd m i;
  xj ← rd m j;
  m ← wr m i xj;
  wr m j t.

Definition memrev16 (m : list Z) (p : Z) : option (list Z) :=
  exchange m p (p + 1).

Definition memrev32 (m : list Z) (p : Z) : option (list Z) :=
  m ← exchange m p (p + 3);
  exchange m (p + 1) (p + 2).

Definition memrev64 (m : list Z) (p : Z) : option (list Z) :=
  m ← exchange m p (p + 7);
  m ← exchange m (p + 1) (p + 6);
  m ← exchange m (p + 2) (p + 5);
  exchange m (p + 3) (p + 4).

(** [&v] is the block of the object representation of [v]. *)
Definition intrev16 (v : Z) : option Z := unle <$> memrev16 (le 2 v) 0.
Definition intrev32 (v : Z) : option Z := unle <$> memrev32 (le 4 v) 0.
Definition intrev64 (v : Z) : option Z := unle <$> memrev64 (le 8 v) 0.

Lemma exchange_app a x b y c i j :
  i = zlen a -> j = zlen a + 1 + zlen b ->
  exchange (a ++ x :: b ++ y :: c) i j = Some (a ++ y :: b ++ x :: c).
Proof.
  intros Hi Hj. unfold exchange.
  assert (forall z, a ++ z :: b ++ y :: c = (a ++ z :: b) ++ y :: c) as E
    by (intros; by rewrite <- app_assoc).
  assert (j = zlen (a ++ x :: b) /\ j = zlen (a ++ y :: b)) as [Hx Hy]
    by (rewrite !length_app; simpl; lia).
  ostep rd_app by done. rewrite E. ostep rd_app by done.
  rewrite <- E. ostep wr_app by done. rewrite E.
  erewrite wr_app by done. by rewrite <- app_assoc.
Qed.

Lemma exchange_app' a p x b y c i j :
  i = zlen a + zlen p -> j = zlen a + zlen p + 1 + zlen b ->
  exchange (a ++ p ++ x :: b ++ y :: c) i j = Some (a ++ p ++ y :: b ++ x :: c).
Proof.
  intros. rewrite !(app_assoc a p).
  apply exchange_app; rewrite length_app; lia.
Qed.

(** Each [memrevN] reverses the [N/8] bytes at its pointer and touches no
    other byte of the block, for every block that holds those bytes. *)
Theorem memrev_reverses (a c : list Z) (x0 x1 x2 x3 x4 x5 x6 x7 : Z) :
  memrev16 (a ++ [x0; x1] ++ c) (zlen a) = Some (a ++ [x1; x0] ++ c) /\
  memrev32 (a ++ [x0; x1; x2; x3] ++ c) (zlen a) = Some (a ++ [x3; x2; x1; x0] ++ c) /\
  memrev64 (a ++ [x0; x1; x2; x3; x4; x5; x6; x7] ++ c) (zlen a)
  = Some (a ++ [x7; x6; x5; x4; x3; x2; x1; x0] ++ c).
Proof.
  split; [|split].
  - apply (exchange_app a x0 [] x1 c); simpl; lia.
  - unfold memrev32. simpl app.
    rewrite (exchange_app a x0 [x1; x2] x3 c) by (simpl; lia). simpl.
    apply (exchange_app' a [x3] x1 [] x2 (x0 :: c)); simpl; lia.
  - unfold memrev64. simpl app.
    rewrite (exchange_app a x0 [x1; x2; x3; x4; x5; x6] x7 c) by (simpl; lia). simpl.
    rewrite (exchange_app' a [x7] x1 [x2; x3; x4; x5] x6 (x0 :: c)) by (simpl; lia). simpl.
    rewrite (exchange_app' a [x7; x6] x2 [x3; x4] x5 (x1 :: x0 :: c)) by (simpl; lia). simpl.
    apply (exchange_app' a [x7; x6; x5] x3 [] x4 (x2 :: x1 :: x0 :: c)); simpl; lia.
Qed.

End Endian.
