(* ===== verification/Rand.v ===== *)
(** * Pseudo random numbers (src/redis-2.8/src/rand.c)

    [next] advances a 48-bit linear congruential generator whose state is kept
    in three 16-bit limbs; [redisLrand48] and [redisSrand48] are the API. *)
From stdpp Require Import base tactics list numbers.
From Stdlib Require Import ZArith Lia.
From S2P Require Import Prelude.
Import CInt.
Open Scope Z_scope.

Module Rand.

(** The macros of the file. [LOW] casts to [unsigned] and masks 16 bits;
    [MUL] truncates the product to [int32_t] before it is split, and [HIGH]
    shifts that signed value arithmetically. *)
Definition MASK : Z := 65535.
Definition LOW (x : Z) : Z := Z.land (wrap 32 x) MASK.
Definition HIGH (x : Z) : Z := LOW (Z.shiftr x 16).
Definition MUL (x y : Z) : Z * Z :=
  let l := swrap 32 (x * y) in (LOW l, HIGH l).
Definition CARRY (x y : Z) : Z := if MASK <? swrap 32 x + y then 1 else 0.

Definition X0 := 0x330E.
Definition X1 := 0xABCD.
Definition X2 := 0x1234.
Definition A0 := 0xE66D.
Definition A1 := 0xDEEC.
Definition A2 := 0x5.
Definition C := 0xB.

(** The static state: [x[3]], [a[3]] and [c]. *)
Record state := State {
  x0 : Z; x1 : Z; x2 : Z;
  a0 : Z; a1 : Z; a2 : Z;
  c : Z
}.

Definition initial : state := State X0 X1 X2 A0 A1 A2 C.

Definition next (s : state) : state :=
  let '(p0, p1) := MUL (a0 s) (x0 s) in
  let carry0 := CARRY p0 (c s) in
  let p0 := LOW (p0 + c s) in
  let carry1 := CARRY p1 carry0 in
  let p1 := LOW (p1 + carry0) in
  let '(q0, q1) := MUL (a0 s) (x1 s) in
  let carry0 := CARRY p1 q0 in
  let p1 := LOW (p1 + q0) in
  let '(r0, r1) := MUL (a1 s) (x0 s) in
  State (LOW p0) (LOW (p1 + r0))
    (LOW (carry0 + carry1 + CARRY p1 r0 + q1 + r1 +
          a0 s * x2 s + a1 s * x1 s + a2 s * x0 s))
    (a0 s) (a1 s) (a2 s) (c s).

(** [((int32_t)x[2] << 15) + (x[1] >> 1)], added as [uint32_t] and returned as
    [int32_t]. *)
Definition redisLrand48 (s : state) : state * Z :=
  let s := next s in
  (s, swrap 32 (wrap 32 (swrap 32 (Z.shiftl (swrap 32 (x2 s)) 15)) + Z.shiftr (x1 s) 1)).

Definition redisSrand48 (seedval : Z) : state :=
  State X0 (LOW seedval) (HIGH seedval) A0 A1 A2 C.

(** The abstract generator: the limbs as one 48-bit number. *)
Definition seed (s : state) : Z := x0 s + 2 ^ 16 * x1 s + 2 ^ 32 * x2 s.

Definition wf (s : state) : Prop :=
  in_u 16 (x0 s) /\ in_u 16 (x1 s) /\ in_u 16 (x2 s) /\
  a0 s = A0 /\ a1 s = A1 /\ a2 s = A2 /\ c s = C.

Lemma LOW_mod z : LOW z = z mod 65536.
Proof.
  unfold LOW, MASK. change 65535 with (2 ^ 16 - 1).
  rewrite land_ones_wrap by lia. unfold wrap.
  change (2 ^ 32) with (65536 * 65536). change (2 ^ 16) with 65536.
  rewrite Z.rem_mul_r by lia. rewrite Z.mul_comm, Z.mod_add by lia. apply Z.mod_mod. lia.
Qed.

Lemma HIGH_div z : HIGH z = (z / 65536) mod 65536.
Proof. unfold HIGH. rewrite LOW_mod, Z.shiftr_div_pow2 by lia. done. Qed.

Lemma LOW_range z : 0 <= LOW z < 65536.
Proof. rewrite LOW_mod. apply Z.mod_pos_bound. lia. Qed.

(** The two halves of a product of 16-bit numbers, the truncation to a signed
    32-bit integer in between notwithstanding. *)
Lemma MUL_spec x y :
  0 <= x < 65536 -> 0 <= y < 65536 ->
  exists l h, MUL x y = (l, h) /\ x * y = l + 65536 * h /\
              0 <= l < 65536 /\ 0 <= h < 65536.
Proof.
  intros Hx Hy. exists (LOW (swrap 32 (x * y))), (HIGH (swrap 32 (x * y))).
  split; [done|].
  assert (0 <= x * y < 2 ^ 32) as Hp by (change (2 ^ 32) with (65536 * 65536); nia).
  rewrite HIGH_div, LOW_mod. unfold swrap.
  set (v := x * y) in *. clearbody v. clear Hx Hy.
  change (2 ^ (32 - 1)) with 2147483648. change (2 ^ 32) with 4294967296 in *.
  Z.div_mod_to_equations. lia.
Qed.

Lemma CARRY_spec x y :
  0 <= x < 65536 -> 0 <= y < 65536 -> x + y = LOW (x + y) + 65536 * CARRY x y /\
  0 <= CARRY x y <= 1.
Proof.
  intros Hx Hy. unfold CARRY. rewrite swrap_small; [|lia|unfold in_s; simpl; lia].
  rewrite LOW_mod. unfold MASK.
  destruct (Z.ltb_spec 65535 (x + y)); Z.div_mod_to_equations; lia.
Qed.

(** The limb arithmetic of [next], with every carry accounted for. *)
Lemma next_limbs s :
  wf s ->
  exists k, A0 * x0 s + C + 65536 * (A0 * x1 s + A1 * x0 s)
            + 4294967296 * (A0 * x2 s + A1 * x1 s + A2 * x0 s)
            = seed (next s) + 281474976710656 * k.
Proof.
  intros (H0 & H1 & H2 & Ha0 & Ha1 & Ha2 & Hc).
  unfold in_u in *. change (2 ^ 16) with 65536 in *.
  unfold next, seed. rewrite Ha0, Ha1, Ha2, Hc.
  destruct (MUL_spec A0 (x0 s)) as (p0 & p1 & -> & Ep & Hp0 & Hp1); [done..|].
  destruct (MUL_spec A0 (x1 s)) as (q0 & q1 & -> & Eq & Hq0 & Hq1); [done..|].
  destruct (MUL_spec A1 (x0 s)) as (r0 & r1 & -> & Er & Hr0 & Hr1); [done..|].
  cbn [Rand.x0 Rand.x1 Rand.x2].
  destruct (CARRY_spec p0 C) as [E1 B1]; [lia|done|].
  destruct (CARRY_spec p1 (CARRY p0 C)) as [E2 B2]; [lia|lia|].
  pose proof (LOW_range (p1 + CARRY p0 C)) as B3.
  destruct (CARRY_spec (LOW (p1 + CARRY p0 C)) q0) as [E4 B4]; [lia|lia|].
  pose proof (LOW_range (LOW (p1 + CARRY p0 C) + q0)) as B5.
  destruct (CARRY_spec (LOW (LOW (p1 + CARRY p0 C) + q0)) r0) as [E6 B6]; [lia|lia|].
  set (t := CARRY (LOW (p1 + CARRY p0 C)) q0 + CARRY p1 (CARRY p0 C) + _ + _ + _ + _ + _ + _).
  exists (t / 65536).
  pose proof (LOW_range (p0 + C)) as B7.
  rewrite (LOW_mod (LOW (p0 + C))), (Z.mod_small (LOW (p0 + C))) by lia.
  rewrite (LOW_mod t). pose proof (Z.div_mod t 65536 ltac:(lia)) as Et.
  change (2 ^ 32) with 4294967296. unfold t in *. lia.
Qed.

Lemma next_wf s : wf s -> wf (next s).
Proof.
  intros (H0 & H1 & H2 & Ha0 & Ha1 & Ha2 & Hc). unfold next.
  destruct (MUL _ _), (MUL _ _), (MUL _ _). unfold wf, in_u. cbn.
  repeat split; try apply LOW_range; try done.
Qed.

Lemma seed_range s : wf s -> 0 <= seed s < 2 ^ 48.
Proof. unfold wf, in_u, seed. simpl. lia. Qed.

(** [next] is one step of the 48-bit linear congruential generator
    [X := (0x5DEECE66D * X + 0xB) mod 2^48], although it works on 16-bit limbs
    with 32-bit intermediate results, and it keeps the limbs in range. *)
Theorem next_is_lcg (s : state) (Hwf : wf s) :
  wf (next s) /\ seed (next s) = (0x5DEECE66D * seed s + 0xB) mod 2 ^ 48.
Proof.
  split; [by apply next_wf|].
  pose proof (seed_range _ (next_wf _ Hwf)) as Hr.
  destruct (next_limbs s Hwf) as [k Hk].
  assert (0x5DEECE66D * seed s + 0xB
          = seed (next s) + (k + A1 * x2 s + A2 * x1 s + 65536 * A2 * x2 s) * 2 ^ 48) as E.
  { unfold seed at 1. unfold A0, A1, A2, C in *.
    change (2 ^ 16) with 65536. change (2 ^ 32) with 4294967296.
    change (2 ^ 48) with 281474976710656. lia. }
  rewrite E, Z.mod_add by lia. symmetry. by apply Z.mod_small.
Qed.

(** [redisLrand48] returns the top 31 bits of the new 48-bit state, a
    non-negative 31-bit integer. *)
Theorem lrand48_top_bits (s : state) (Hwf : wf s) :
  let '(s', r) := redisLrand48 s in
  s' = next s /\ r = seed s' / 2 ^ 17 /\ 0 <= r < 2 ^ 31.
Proof.
  unfold redisLrand48. apply next_wf in Hwf. set (t := next s) in *. clearbody t.
  destruct Hwf as (H0 & H1 & H2 & _). unfold in_u in *. split; [done|].
  change (2 ^ 16) with 65536 in *.
  rewrite (swrap_small 32 (x2 t)) by (unfold in_s; simpl; lia).
  rewrite Z.shiftl_mul_pow2, Z.shiftr_div_pow2 by lia.
  change (2 ^ 15) with 32768. change (2 ^ 1) with 2. change (2 ^ 17) with 131072.
  assert (0 <= x1 t / 2 < 32768) by (Z.div_mod_to_equations; lia).
  rewrite (swrap_small 32 (x2 t * 32768)) by (unfold in_s; simpl; lia).
  rewrite (wrap_small 32 (x2 t * 32768)) by (unfold in_u; lia).
  rewrite swrap_small by (unfold in_s; simpl; lia).
  unfold seed. change (2 ^ 16) with 65536. change (2 ^ 32) with 4294967296.
  split; [|lia]. Z.div_mod_to_equations. lia.
Qed.

Lemma initial_wf : wf initial.
Proof. unfold wf, in_u, initial, X0, X1, X2. cbn. lia. Qed.

Lemma next_is_lcg_witness :
  seed (next initial) = (0x5DEECE66D * seed initial + 0xB) mod 2 ^ 48.
Proof. apply (next_is_lcg initial). apply initial_wf. Defined.

Lemma lrand48_top_bits_witness :
  let '(s', r) := redisLrand48 initial in
  s' = next initial /\ r = seed s' / 2 ^ 17 /\ 0 <= r < 2 ^ 31.
Proof. apply (lrand48_top_bits initial). apply initial_wf. Defined.

End Rand.
