(* ===== verification/Intset.v ===== *)
(** * Integer sets (src/redis-2.8/src/intset.c)

    An intset is a sorted array of distinct integers, all stored with the
    width (2, 4 or 8 bytes) that the widest of them needs. [is_contents] is the
    byte block of the flexible array member; [uninit] is what freshly
    allocated bytes hold. The target is little endian, so the [*ifbe] macros
    of endianconv.h are the identity. *)
From stdpp Require Import base tactics list numbers option gmap sorting.
From Stdlib Require Import ZArith Lia.
From S2P Require Import Prelude.
Import CInt CMem Bytes.
Open Scope Z_scope.

Module Intset.

Record intset := Intset { is_encoding : Z; is_length : Z; is_contents : list Z }.

Definition INTSET_ENC_INT16 := 2.
Definition INTSET_ENC_INT32 := 4.
Definition INTSET_ENC_INT64 := 8.

Definition _intsetValueEncoding (v : Z) : Z :=
  if (v <? - 2 ^ 31) || (2 ^ 31 - 1 <? v) then INTSET_ENC_INT64
  else if (v <? - 2 ^ 15) || (2 ^ 15 - 1 <? v) then INTSET_ENC_INT32
  else INTSET_ENC_INT16.

Definition _intsetGetEncoded (iset : intset) (pos enc : Z) : option Z :=
  if enc =? INTSET_ENC_INT64 then
    bs ← rdn (is_contents iset) (8 * pos) 8; Some (swrap 64 (unle bs))
  else if enc =? INTSET_ENC_INT32 then
    bs ← rdn (is_contents iset) (4 * pos) 4; Some (swrap 32 (unle bs))
  else
    bs ← rdn (is_contents iset) (2 * pos) 2; Some (swrap 16 (unle bs)).

Definition _intsetGet (iset : intset) (pos : Z) : option Z :=
  _intsetGetEncoded iset pos (is_encoding iset).

Definition _intsetSet (iset : intset) (pos value : Z) : option intset :=
  c ← (if is_encoding iset =? INTSET_ENC_INT64 then
         wrn (is_contents iset) (8 * pos) (le 8 value)
       else if is_encoding iset =? INTSET_ENC_INT32 then
         wrn (is_contents iset) (4 * pos) (le 4 value)
       else
         wrn (is_contents iset) (2 * pos) (le 2 value));
  Some (Intset (is_encoding iset) (is_length iset) c).

Definition intsetNew : intset := Intset INTSET_ENC_INT16 0 [].

(** The bisection of [intsetSearch]; it returns the final [min], [mid] and
    [cur], and [None] when the fuel runs out. *)
Fixpoint search_loop (fuel : nat) (iset : intset) (value min max mid cur : Z)
  : option (Z * Z * Z) :=
  match fuel with
  | O => None
  | S fuel =>
      if min <=? max then
        let mid := Z.shiftr (wrap 32 (wrap 32 min + wrap 32 max)) 1 in
        cur ← _intsetGet iset mid;
        if cur <? value then search_loop fuel iset value (mid + 1) max mid cur
        else if value <? cur then search_loop fuel iset value min (mid - 1) mid cur
        else Some (min, mid, cur)
      else Some (min, mid, cur)
  end.

(** Returns whether [value] was found and the position stored through [pos]. *)
Definition intsetSearch (iset : intset) (value : Z) : option (bool * Z) :=
  if is_length iset =? 0 then Some (false, 0)
  else
    last ← _intsetGet iset (is_length iset - 1);
    if last <? value then Some (false, is_length iset)
    else
      first ← _intsetGet iset 0;
      if value <? first then Some (false, 0)
      else
        '(min, mid, cur) ←
          search_loop (S (Z.to_nat (is_length iset))) iset value 0 (is_length iset - 1) (-1) (-1);
        Some (if value =? cur then (true, mid) else (false, min)).

Definition intsetMoveTail (iset : intset) (from to : Z) : option intset :=
  let bytes := wrap 32 (is_length iset - from) in
  c ← (if is_encoding iset =? INTSET_ENC_INT64 then
         memmove (is_contents iset) (8 * to) (8 * from) (wrap 32 (bytes * 8))
       else if is_encoding iset =? INTSET_ENC_INT32 then
         memmove (is_contents iset) (4 * to) (4 * from) (wrap 32 (bytes * 4))
       else
         memmove (is_contents iset) (2 * to) (2 * from) (wrap 32 (bytes * 2)));
  Some (Intset (is_encoding iset) (is_length iset) c).

(** [while(length--) _intsetSet(is,length+prepend,_intsetGetEncoded(...))] *)
Fixpoint upgrade_loop (n : nat) (iset : intset) (curenc prepend : Z)
  : option intset :=
  match n with
  | O => Some iset
  | S n =>
      v ← _intsetGetEncoded iset (Z.of_nat n) curenc;
      iset ← _intsetSet iset (Z.of_nat n + prepend) v;
      upgrade_loop n iset curenc prepend
  end.

Section Alloc.
Context (uninit : nat -> Z).

Definition intsetResize (iset : intset) (len : Z) : intset :=
  let size := wrap 32 (len * is_encoding iset) in
  Intset (is_encoding iset) (is_length iset) (realloc uninit size (is_contents iset)).

Definition intsetUpgradeAndAdd (iset : intset) (value : Z) : option intset :=
  let curenc := is_encoding iset in
  let newenc := _intsetValueEncoding value in
  let prepend := if value <? 0 then 1 else 0 in
  let len := is_length iset in
  let iset := Intset newenc len (is_contents iset) in
  let iset := intsetResize iset (wrap 32 (len + 1)) in
  iset ← upgrade_loop (Z.to_nat len) iset curenc prepend;
  iset ← (if prepend =? 1 then _intsetSet iset 0 value
        else _intsetSet iset (is_length iset) value);
  Some (Intset (is_encoding iset) (wrap 32 (is_length iset + 1)) (is_contents iset)).

(** The result and the value stored through [success]. *)
Definition intsetAdd (iset : intset) (value : Z) : option (intset * bool) :=
  let valenc := _intsetValueEncoding value in
  if is_encoding iset <? valenc then
    iset ← intsetUpgradeAndAdd iset value; Some (iset, true)
  else
    '(found, pos) ← intsetSearch iset value;
    if found : bool then Some (iset, false)
    else
      let iset := intsetResize iset (wrap 32 (is_length iset + 1)) in
      iset ← (if pos <? is_length iset then intsetMoveTail iset pos (wrap 32 (pos + 1))
            else Some iset);
      iset ← _intsetSet iset pos value;
      Some (Intset (is_encoding iset) (wrap 32 (is_length iset + 1)) (is_contents iset), true).

Definition intsetRemove (iset : intset) (value : Z) : option (intset * bool) :=
  let valenc := _intsetValueEncoding value in
  if valenc <=? is_encoding iset then
    '(found, pos) ← intsetSearch iset value;
    if found : bool then
      let len := is_length iset in
      iset ← (if pos <? len - 1 then intsetMoveTail iset (wrap 32 (pos + 1)) pos
            else Some iset);
      let iset := intsetResize iset (len - 1) in
      Some (Intset (is_encoding iset) (len - 1) (is_contents iset), true)
    else Some (iset, false)
  else Some (iset, false).
End Alloc.

Definition intsetFind (iset : intset) (value : Z) : option bool :=
  let valenc := _intsetValueEncoding value in
  if valenc <=? is_encoding iset then fst <$> intsetSearch iset value else Some false.

(** [rnd] is what [rand()] returned. *)
Definition intsetRandom (iset : intset) (rnd : Z) : option Z :=
  if is_length iset =? 0 then None else _intsetGet iset (rnd mod is_length iset).

(** [None] inside is the return value 0. *)
Definition intsetGet (iset : intset) (pos : Z) : option (option Z) :=
  if pos <? is_length iset then v ← _intsetGet iset pos; Some (Some v) else Some None.

Definition intsetLen (iset : intset) : Z := is_length iset.

(** [sizeof(intset)] is 8; the product is a [uint32_t] product. *)
Definition intsetBlobLen (iset : intset) : Z := 8 + wrap 32 (is_length iset * is_encoding iset).


(** ** Representation

    [repr iset l]: the block is the image, at the set's width, of the strictly
    increasing list [l]. The bound keeps the byte sizes below [2^32], which is
    the width the code computes them in. *)
Definition enc_ok (e : Z) : Prop := e = 2 \/ e = 4 \/ e = 8.

Definition image (e : Z) (l : list Z) : list Z := l ≫= le (Z.to_nat e).

Definition max_len : Z := 2 ^ 29 - 1.

Record repr (iset : intset) (l : list Z) : Prop := Repr {
  repr_enc : enc_ok (is_encoding iset);
  repr_len : is_length iset = zlen l;
  repr_img : is_contents iset = image (is_encoding iset) l;
  repr_rng : Forall (in_s (8 * is_encoding iset)) l;
  repr_srt : StronglySorted Z.lt l;
  repr_max : zlen l <= max_len
}.

(** The abstract value: a finite set of integers. *)
Definition models (iset : intset) (S : gset Z) : Prop :=
  exists l, repr iset l /\ S = list_to_set l.

Lemma image_app e l1 l2 : image e (l1 ++ l2) = image e l1 ++ image e l2.
Proof. apply bind_app. Qed.

Lemma image_cons e v l : image e (v :: l) = le (Z.to_nat e) v ++ image e l.
Proof. done. Qed.

Lemma image_length e l : 0 <= e -> zlen (image e l) = e * zlen l.
Proof.
  intros He. induction l as [|v l IH]; [cbn; lia|].
  rewrite image_cons, length_app, Nat2Z.inj_add, IH, le_length. cbn [length]. lia.
Qed.

Lemma enc_ok_nonneg e : enc_ok e -> 0 < e.
Proof. unfold enc_ok. lia. Qed.

Lemma get_block iset pos e v a b :
  enc_ok e -> in_s (8 * e) v ->
  is_contents iset = a ++ le (Z.to_nat e) v ++ b -> zlen a = e * pos ->
  _intsetGetEncoded iset pos e = Some v.
Proof.
  intros He Hv Hc Ha. unfold _intsetGetEncoded. rewrite Hc.
  destruct He as [-> | [-> | ->]]; cbn [Z.eqb Pos.eqb INTSET_ENC_INT64 INTSET_ENC_INT32];
    (ostep rdn_app by (rewrite ?le_length; lia)); f_equal.
  - by apply (swrap_unle_le 2); [lia|].
  - by apply (swrap_unle_le 4); [lia|].
  - by apply (swrap_unle_le 8); [lia|].
Qed.

Lemma set_block iset pos v a old b :
  enc_ok (is_encoding iset) -> is_contents iset = a ++ old ++ b ->
  zlen a = is_encoding iset * pos -> zlen old = is_encoding iset ->
  _intsetSet iset pos v =
  Some (Intset (is_encoding iset) (is_length iset)
          (a ++ le (Z.to_nat (is_encoding iset)) v ++ b)).
Proof.
  intros He Hc Ha Ho. unfold _intsetSet. rewrite Hc.
  destruct iset as [e n c]. cbn [is_encoding is_length is_contents] in *.
  destruct He as [-> | [-> | ->]]; cbn [Z.eqb Pos.eqb INTSET_ENC_INT64 INTSET_ENC_INT32];
    (ostep wrn_app by (rewrite ?le_length; lia)); done.
Qed.

Lemma repr_get iset l k v :
  repr iset l -> l !! k = Some v -> _intsetGet iset (Z.of_nat k) = Some v.
Proof.
  intros [He _ Hi Hr _ _] Hk.
  pose proof (enc_ok_nonneg _ He) as Hp.
  assert (k < length l)%nat by (by eapply lookup_lt_Some).
  apply (get_block _ _ _ v (image (is_encoding iset) (take k l))
           (image (is_encoding iset) (drop (S k) l))); [done| | |].
  - by eapply Forall_lookup_1.
  - rewrite Hi, <- image_cons, <- image_app. f_equal.
    destruct (take_S_lookup l k v Hk) as [_ <-]. by rewrite take_drop.
  - rewrite image_length, length_take by lia. lia.
Qed.

(** ** Search *)
Definition found_at (l : list Z) (v : Z) (found : bool) (pos : Z) : Prop :=
  exists l1 l2, zlen l1 = pos /\ Forall (fun x => x < v) l1 /\
    Forall (fun x => v < x) l2 /\ l = l1 ++ (if found then [v] else []) ++ l2.

Lemma found_at_intro l v (k : nat) (b : bool) :
  StronglySorted Z.lt l ->
  (forall i x, l !! i = Some x -> (i < k)%nat -> x < v) ->
  (forall i x, l !! i = Some x -> (k + (if b then 1 else 0) <= i)%nat -> v < x) ->
  (if b then l !! k = Some v else (k <= length l)%nat) ->
  found_at l v b (Z.of_nat k).
Proof.
  intros Hs Hlt Hgt Hk.
  exists (take k l), (drop (k + (if b then 1 else 0)) l).
  assert (k <= length l)%nat.
  { destruct b; [|done]. apply lookup_lt_Some in Hk. lia. }
  split_and!.
  - rewrite length_take. lia.
  - apply Forall_lookup. intros i x [? ?]%lookup_take_Some. eauto.
  - apply Forall_lookup. intros i x Hx. rewrite lookup_drop in Hx.
    eapply Hgt; [exact Hx|lia].
  - destruct b.
    + destruct (take_S_lookup l k v Hk) as [_ Hd].
      rewrite Nat.add_1_r. simpl. rewrite <- Hd. by rewrite take_drop.
    + rewrite Nat.add_0_r. simpl. by rewrite take_drop.
Qed.

Lemma search_mid min max :
  0 <= min -> min <= max -> max < 2 ^ 30 ->
  Z.shiftr (wrap 32 (wrap 32 min + wrap 32 max)) 1 = (min + max) / 2.
Proof.
  intros. rewrite !(wrap_small 32) by (unfold in_u; try rewrite !(wrap_small 32) by (unfold in_u; lia); lia).
  by rewrite Z.shiftr_div_pow2 by lia.
Qed.

(** The loop invariant of the bisection: everything left of [min] is smaller
    and everything right of [max] is greater. The fuel never runs out. *)
Lemma search_loop_spec fuel iset l v min max mid0 cur0 :
  repr iset l ->
  0 <= min -> max < zlen l -> min <= max + 1 ->
  (forall i x, l !! i = Some x -> Z.of_nat i < min -> x < v) ->
  (forall i x, l !! i = Some x -> max < Z.of_nat i -> v < x) ->
  max - min + 1 < Z.of_nat fuel ->
  (min <= max \/ cur0 <> v) ->
  exists min' mid' cur', search_loop fuel iset v min max mid0 cur0 = Some (min', mid', cur') /\
    found_at l v (v =? cur') (if v =? cur' then mid' else min').
Proof.
  intros Hrep. pose proof (repr_max _ _ Hrep) as Hmx. unfold max_len in Hmx.
  pose proof (repr_srt _ _ Hrep) as Hs.
  revert min max mid0 cur0.
  induction fuel as [|fuel IH]; intros min max mid0 cur0 Hmin Hmax Hmm Hlt Hgt Hf Hc; [lia|].
  cbn [search_loop]. destruct (Z.leb_spec min max) as [Hle|Hle].
  - rewrite search_mid by lia.
    set (mid := (min + max) / 2).
    assert (min <= mid <= max) as Hmid by (unfold mid; Z.div_mod_to_equations; lia).
    destruct (lookup_lt_is_Some_2 l (Z.to_nat mid)) as [x Hx]; [lia|].
    assert (_intsetGet iset mid = Some x) as Hg
      by (rewrite <- (Z2Nat.id mid) by lia; by apply (repr_get _ _ _ _ Hrep)).
    clearbody mid. rewrite Hg. osimpl.
    destruct (Z.ltb_spec x v); [|destruct (Z.ltb_spec v x)].
    + apply IH; try lia; [|done].
      intros i y Hy Hi. destruct (decide (Z.of_nat i = mid)) as [E|].
      * replace (Z.to_nat mid) with i in Hx by lia. congruence.
      * enough (y < x) by lia. eapply sorted_lookup_lt; eauto. lia.
    + apply IH; try lia; [done|].
      intros i y Hy Hi. destruct (decide (Z.of_nat i = mid)) as [E|].
      * replace (Z.to_nat mid) with i in Hx by lia. congruence.
      * enough (x < y) by lia. eapply sorted_lookup_lt; eauto. lia.
    + assert (x = v) as -> by lia. eexists _, _, _. split; [done|].
      rewrite Z.eqb_refl. rewrite <- (Z2Nat.id mid) by lia.
      apply found_at_intro; [done| | |done].
      * intros i y Hy Hi. eapply sorted_lookup_lt; eauto.
      * intros i y Hy Hi. eapply (sorted_lookup_lt l (Z.to_nat mid) i); eauto. lia.
  - eexists _, _, _. split; [done|].
    destruct (Z.eqb_spec v cur0); [lia|].
    rewrite <- (Z2Nat.id min) by lia. apply found_at_intro; [done| | |lia].
    + intros. eapply Hlt; eauto. lia.
    + intros. eapply Hgt; eauto. lia.
Qed.

Lemma intsetSearch_spec iset l v :
  repr iset l ->
  exists b pos, intsetSearch iset v = Some (b, pos) /\ found_at l v b pos.
Proof.
  intros Hrep. unfold intsetSearch. rewrite (repr_len _ _ Hrep).
  pose proof (repr_srt _ _ Hrep) as Hs.
  destruct (Z.eqb_spec (zlen l) 0) as [H0|H0].
  { exists false, 0. split; [done|]. destruct l; [|simpl in H0; lia]. by exists [], []. }
  destruct (lookup_lt_is_Some_2 l (length l - 1)) as [x Hx]; [lia|].
  replace (zlen l - 1) with (Z.of_nat (length l - 1)) by lia.
  rewrite (repr_get _ _ _ _ Hrep Hx). osimpl.
  destruct (Z.ltb_spec x v) as [Hxv|Hxv].
  { exists false, (zlen l). split; [done|]. apply found_at_intro; [done| | |done].
    - intros i y Hy Hi. destruct (decide (i = length l - 1)%nat) as [->|]; [congruence|].
      enough (y < x) by lia. eapply sorted_lookup_lt; eauto. lia.
    - intros i y Hy%lookup_lt_Some Hi. lia. }
  destruct (lookup_lt_is_Some_2 l 0) as [z Hz]; [lia|].
  pose proof (repr_get _ _ _ _ Hrep Hz) as Hg. change (Z.of_nat 0) with 0 in Hg. rewrite Hg. osimpl.
  destruct (Z.ltb_spec v z) as [Hvz|Hvz].
  { exists false, 0. split; [done|]. apply (found_at_intro l v 0 false); [done| | |lia].
    - lia.
    - intros [|i] y Hy Hi; [congruence|].
      enough (z < y) by lia. eapply sorted_lookup_lt; eauto. lia. }
  edestruct (search_loop_spec (S (Z.to_nat (zlen l))) iset l v 0 (Z.of_nat (length l - 1)) (-1) (-1))
    as (mn & md & cr & -> & Hfa); try done; try lia.
  { intros i y Hy%lookup_lt_Some Hi. lia. }
  simpl. destruct (Z.eqb_spec v cr); eauto.
Qed.

(** ** Insertion and removal *)
Lemma pow_s : 2 ^ (8 * 2 - 1) = 32768 /\ 2 ^ (8 * 4 - 1) = 2147483648 /\
  2 ^ (8 * 8 - 1) = 9223372036854775808.
Proof. done. Qed.

Lemma value_encoding v :
  in_s 64 v ->
  let e := _intsetValueEncoding v in
  enc_ok e /\ in_s (8 * e) v /\
  (forall e', enc_ok e' -> e <= e' -> in_s (8 * e') v) /\
  (forall e' x, enc_ok e' -> e' < e -> in_s (8 * e') x ->
     if v <? 0 then v < x else x < v).
Proof.
  unfold _intsetValueEncoding, enc_ok, in_s, INTSET_ENC_INT16, INTSET_ENC_INT32, INTSET_ENC_INT64.
  intros Hv. destruct pow_s as (P2 & P4 & P8).
  change (2 ^ 31) with 2147483648. change (2 ^ 15) with 32768.
  change (2 ^ (64 - 1)) with 9223372036854775808 in Hv.
  cbv zeta. split_and!;
    repeat match goal with |- context [?a <? ?b] => destruct (Z.ltb_spec a b) end;
    cbn [orb]; intros; destruct_or?; subst; rewrite ?P2, ?P4, ?P8 in *; try lia.
Qed.

Lemma found_at_models l v b pos :
  found_at l v b pos -> (b = true <-> v ∈ l) /\ 0 <= pos <= zlen l.
Proof.
  intros (l1 & l2 & Hp & H1 & H2 & ->). rewrite !length_app.
  split; [|lia]. destruct b; [set_solver|]. split; [done|].
  simpl. intros [H|H]%elem_of_app; rewrite Forall_forall in H1, H2.
  - apply H1 in H. lia.
  - apply H2 in H. lia.
Qed.

Section Alloc.
Context (uninit : nat -> Z).

Lemma resize_grow iset l :
  repr iset l -> zlen l < max_len ->
  exists t, zlen t = is_encoding iset /\
    intsetResize uninit iset (wrap 32 (is_length iset + 1)) =
    Intset (is_encoding iset) (is_length iset) (image (is_encoding iset) l ++ t).
Proof.
  intros [He Hl Hi _ _ _] Hm. unfold intsetResize. rewrite Hi, Hl.
  pose proof (enc_ok_nonneg _ He) as Hp. unfold enc_ok, max_len in *.
  rewrite !(wrap_small 32) by (unfold in_u; rewrite ?(wrap_small 32) by (unfold in_u; lia); lia).
  destruct (realloc_grow uninit ((zlen l + 1) * is_encoding iset) (image (is_encoding iset) l))
    as (t & -> & Ht); rewrite image_length in * by lia; [lia|].
  exists t. split; [lia|done].
Qed.

(** [intsetMoveTail] moves the elements from [from] on to [to]. *)
Lemma moveTail_up e a b t :
  enc_ok e -> zlen a + zlen b <= max_len -> zlen t = e -> b <> [] ->
  exists x, zlen x = e /\
    intsetMoveTail (Intset e (zlen a + zlen b) (image e a ++ image e b ++ t))
      (zlen a) (wrap 32 (zlen a + 1)) =
    Some (Intset e (zlen a + zlen b) (image e a ++ x ++ image e b)).
Proof.
  intros He Hm Ht _. unfold max_len in Hm. unfold intsetMoveTail.
  cbn [is_encoding is_length is_contents].
  pose proof (enc_ok_nonneg _ He).
  destruct (memmove_up (image e a) (image e b) t e (e * (zlen a + 1)) (e * zlen a)
              (e * zlen b)) as (x & Hx & Hmv); rewrite ?image_length by lia; try lia.
  exists x. split; [done|].
  rewrite !(wrap_small 32 (zlen a + _)) by (unfold in_u; lia).
  replace (zlen a + zlen b - zlen a) with (zlen b) by lia.
  rewrite (wrap_small 32 (zlen b)) by (unfold in_u; lia).
  destruct He as [-> | [-> | ->]];
    cbn [Z.eqb Pos.eqb INTSET_ENC_INT64 INTSET_ENC_INT32];
    rewrite (wrap_small 32), (Z.mul_comm (zlen b)), Hmv by (unfold in_u; lia); done.
Qed.

Lemma moveTail_down e a v b :
  enc_ok e -> zlen a + 1 + zlen b <= max_len ->
  exists t, zlen t = e /\
    intsetMoveTail (Intset e (zlen a + 1 + zlen b) (image e a ++ le (Z.to_nat e) v ++ image e b))
      (wrap 32 (zlen a + 1)) (zlen a) =
    Some (Intset e (zlen a + 1 + zlen b) (image e a ++ image e b ++ t)).
Proof.
  intros He Hm. unfold max_len in Hm. unfold intsetMoveTail.
  cbn [is_encoding is_length is_contents].
  pose proof (enc_ok_nonneg _ He).
  destruct (memmove_down (image e a) (le (Z.to_nat e) v) (image e b) (e * zlen a)
              (e * (zlen a + 1)) (e * zlen b)) as (t & Ht & Hmv);
    rewrite ?image_length, ?le_length in * by lia; try lia.
  exists t. split; [lia|].
  rewrite !(wrap_small 32 (zlen a + 1)) by (unfold in_u; lia).
  replace (zlen a + 1 + zlen b - (zlen a + 1)) with (zlen b) by lia.
  rewrite (wrap_small 32 (zlen b)) by (unfold in_u; lia).
  destruct He as [-> | [-> | ->]];
    cbn [Z.eqb Pos.eqb INTSET_ENC_INT64 INTSET_ENC_INT32];
    rewrite (wrap_small 32), (Z.mul_comm (zlen b)), Hmv by (unfold in_u; lia); done.
Qed.

Lemma sorted_insert (l1 l2 : list Z) v :
  StronglySorted Z.lt (l1 ++ l2) ->
  Forall (fun x => x < v) l1 -> Forall (fun x => v < x) l2 ->
  StronglySorted Z.lt (l1 ++ v :: l2).
Proof.
  rewrite !StronglySorted_app, !Forall_forall. intros (H & Hs1 & Hs2) H1 H2.
  split_and!; [|done|].
  - intros x y Hx [->|Hy]%elem_of_cons; auto.
  - constructor; [done|]. by apply Forall_forall.
Qed.

Lemma insert_spec iset l1 l2 v :
  repr iset (l1 ++ l2) -> in_s (8 * is_encoding iset) v ->
  zlen (l1 ++ l2) < max_len ->
  Forall (fun x => x < v) l1 -> Forall (fun x => v < x) l2 ->
  exists iset',
    (let i := intsetResize uninit iset (wrap 32 (is_length iset + 1)) in
     i ← (if zlen l1 <? is_length i then intsetMoveTail i (zlen l1) (wrap 32 (zlen l1 + 1))
          else Some i);
     i ← _intsetSet i (zlen l1) v;
     Some (Intset (is_encoding i) (wrap 32 (is_length i + 1)) (is_contents i), true))
    = Some (iset', true) /\ repr iset' (l1 ++ v :: l2).
Proof.
  intros Hrep Hv Hm H1 H2.
  destruct (resize_grow _ _ Hrep Hm) as (t & Ht & ->). cbv zeta.
  destruct Hrep as [He Hl Hi Hr Hs _]. destruct iset as [e n c].
  cbn [is_encoding is_length is_contents] in *.
  pose proof (enc_ok_nonneg _ He).
  rewrite image_app, <- app_assoc, Hl, length_app, Nat2Z.inj_add in *.
  assert (exists x, zlen x = e /\
    (if zlen l1 <? zlen l1 + zlen l2
     then intsetMoveTail (Intset e (zlen l1 + zlen l2) (image e l1 ++ image e l2 ++ t))
            (zlen l1) (wrap 32 (zlen l1 + 1))
     else Some (Intset e (zlen l1 + zlen l2) (image e l1 ++ image e l2 ++ t)))
    = Some (Intset e (zlen l1 + zlen l2) (image e l1 ++ x ++ image e l2)))
    as (x & Hx & ->).
  { destruct (Z.ltb_spec (zlen l1) (zlen l1 + zlen l2)).
    - apply moveTail_up; [done|lia|done|]. intros ->. simpl in *. lia.
    - destruct l2; [|simpl in *; lia]. exists t. split; [done|]. by rewrite app_nil_r. }
  osimpl.
  erewrite set_block; [|done|done| |done]; [|rewrite image_length; cbn; lia].
  osimpl. cbn [is_encoding is_length is_contents].
  eexists. split; [done|].
  unfold max_len in *. rewrite wrap_small by (unfold in_u; lia).
  constructor; cbn [is_encoding is_length is_contents].
  - done.
  - rewrite length_app. simpl. lia.
  - by rewrite image_app, image_cons.
  - apply Forall_app in Hr as [? ?]. apply Forall_app. split; [done|]. by constructor.
  - by apply sorted_insert.
  - rewrite length_app. unfold max_len. simpl. lia.
Qed.
(** The upgrade runs back to front: when [k] elements are left to move they
    still sit at the old width at the front of the block, and the others are at
    their final place, with the free slot before or after all of them. *)
Lemma upgrade_loop_spec cur new p n l tail :
  enc_ok cur -> enc_ok new -> cur < new -> (p = 0 \/ p = 1) ->
  Forall (in_s (8 * cur)) l ->
  forall k junk, (k <= length l)%nat ->
  zlen junk = (Z.of_nat k + p) * new - Z.of_nat k * cur ->
  exists junk', zlen junk' = p * new /\
    upgrade_loop k (Intset new n (image cur (take k l) ++ junk ++ image new (drop k l) ++ tail))
      cur p = Some (Intset new n (junk' ++ image new l ++ tail)).
Proof.
  intros Hc Hn Hlt Hp Hr. pose proof (enc_ok_nonneg _ Hc). pose proof (enc_ok_nonneg _ Hn).
  induction k as [|k IH]; intros junk Hk Hj.
  - exists junk. split; [lia|]. done.
  - destruct (lookup_lt_is_Some_2 l k) as [v Hv]; [lia|].
    destruct (take_S_lookup l k v Hv) as [Ht Hd]. rewrite Ht, image_app, image_cons.
    cbn [upgrade_loop]. rewrite app_nil_r, <- app_assoc.
    assert (zlen (image cur (take k l)) = cur * Z.of_nat k) as Hlk.
    { rewrite image_length, length_take by lia. f_equal. lia. }
    set (J := le (Z.to_nat cur) v ++ junk).
    assert (zlen J = (Z.of_nat k + 1 + p) * new - Z.of_nat k * cur) as HJ.
    { unfold J. rewrite length_app, le_length. lia. }
    set (o := (Z.of_nat k + p) * new - Z.of_nat k * cur).
    assert (0 <= o) by (unfold o; nia).
    assert (o <= zlen J) by (unfold o; nia).
    pose proof (Forall_lookup_1 _ _ _ _ Hr Hv) as Hvr.
    erewrite get_block; [|done|exact Hvr|cbn; reflexivity|lia].
    osimpl.
    erewrite (set_block _ _ _ (image cur (take k l) ++ take (Z.to_nat o) J) (drop (Z.to_nat o) J));
      cbn [is_encoding is_length is_contents]; [|done| | |].
    + osimpl.
      destruct (IH (take (Z.to_nat o) J)) as (j' & Hj' & E); [lia| |].
      { rewrite length_take. unfold o in *. lia. }
      exists j'. split; [done|]. rewrite <- E, Hd, image_cons. by rewrite <- !app_assoc.
    + rewrite <- app_assoc, (app_assoc (take _ _)), take_drop. unfold J. by rewrite <- !app_assoc.
    + rewrite length_app, length_take. unfold o in *. lia.
    + rewrite length_drop. unfold o in *. lia.
Qed.

Lemma upgrade_spec iset l v :
  repr iset l -> in_s 64 v -> is_encoding iset < _intsetValueEncoding v -> zlen l < max_len ->
  exists iset', intsetUpgradeAndAdd uninit iset v = Some iset' /\
    repr iset' (if v <? 0 then v :: l else l ++ [v]).
Proof.
  intros [He Hl Hi Hr Hs _] Hv Hlt Hm.
  destruct (value_encoding v Hv) as (Hne & Hnv & _ & Hout).
  set (new := _intsetValueEncoding v) in *. pose proof (enc_ok_nonneg _ He).
  specialize (fun x => Hout _ x He Hlt).
  unfold intsetUpgradeAndAdd, intsetResize. fold new.
  cbn [is_encoding is_length is_contents]. rewrite Hl, Hi.
  set (cur := is_encoding iset) in *. set (p := if v <? 0 then 1 else 0).
  assert (p = 0 \/ p = 1) as Hp by (unfold p; destruct (v <? 0); auto).
  assert (cur <= 8 /\ new <= 8) by (unfold enc_ok in *; lia). unfold max_len in Hm.
  rewrite !(wrap_small 32 (zlen l + 1)) by (unfold in_u; lia).
  rewrite (wrap_small 32 (_ * new)) by (unfold in_u; nia).
  destruct (realloc_grow uninit ((zlen l + 1) * new) (image cur l)) as (t & -> & Ht);
    rewrite image_length in * by lia; [nia|].
  set (cut := Z.to_nat ((zlen l + p) * new - zlen l * cur)).
  assert (cut <= length t)%nat by (unfold cut; destruct Hp as [-> | ->]; nia).
  destruct (upgrade_loop_spec cur new p (zlen l) l (drop cut t) He Hne Hlt Hp Hr (length l)
              (take cut t)) as (j & Hj & E); [done| |].
  { rewrite length_take, Nat.min_l by done. unfold cut. destruct Hp as [-> | ->]; nia. }
  rewrite take_ge, drop_ge in E by done. simpl in E. rewrite take_drop in E.
  rewrite Nat2Z.id, E. osimpl.
  assert (Forall (in_s (8 * new)) (if v <? 0 then v :: l else l ++ [v])) as Hr'.
  { assert (Forall (in_s (8 * new)) l).
    { eapply Forall_impl; [exact Hr|]. intros x. unfold in_s. simpl. intros Hx.
      assert (2 ^ (8 * cur - 1) <= 2 ^ (8 * new - 1)) by (apply Z.pow_le_mono_r; lia). lia. }
    destruct (v <? 0); [by constructor|]. apply Forall_app.
    split; [done|]. by apply Forall_singleton. }
  assert (StronglySorted Z.lt (if v <? 0 then v :: l else l ++ [v])) as Hs'.
  { assert (Forall (fun x => if v <? 0 then v < x else x < v) l)
      by (eapply Forall_impl; [exact Hr|]; auto).
    destruct (v <? 0).
    - by constructor.
    - apply sorted_insert; [by rewrite app_nil_r|done|done]. }
  subst p. destruct (v <? 0); cbn [Z.eqb Pos.eqb].
  - rewrite <- (app_nil_l (j ++ _)).
    erewrite set_block; cbn [is_encoding is_length is_contents]; [|done|done|cbn; lia|lia].
    osimpl. cbn [is_encoding is_length is_contents].
    eexists. split; [done|].
    rewrite wrap_small by (unfold in_u; lia).
    assert (drop cut t = []) as ->.
    { apply length_zero_iff_nil. rewrite length_drop. unfold cut. nia. }
    constructor; cbn [is_encoding is_length is_contents]; try done.
    + simpl length. lia.
    + by rewrite app_nil_r, image_cons.
    + unfold max_len. simpl length. lia.
  - destruct j; [|simpl in Hj; lia]. simpl app.
    rewrite <- (app_nil_r (drop cut t)).
    erewrite set_block; cbn [is_encoding is_length is_contents];
      [|done|done|rewrite image_length; lia| rewrite length_drop; unfold cut; nia].
    osimpl. cbn [is_encoding is_length is_contents].
    eexists. split; [done|].
    rewrite wrap_small by (unfold in_u; lia).
    constructor; cbn [is_encoding is_length is_contents]; try done.
    + rewrite length_app. simpl length. lia.
    + by rewrite image_app, image_cons.
    + unfold max_len. rewrite length_app. simpl length. lia.
Qed.
Lemma remove_spec iset l1 l2 v :
  repr iset (l1 ++ v :: l2) ->
  exists iset',
    (i ← (if zlen l1 <? is_length iset - 1
          then intsetMoveTail iset (wrap 32 (zlen l1 + 1)) (zlen l1) else Some iset);
     let i := intsetResize uninit i (is_length iset - 1) in
     Some (Intset (is_encoding i) (is_length iset - 1) (is_contents i), true))
    = Some (iset', true) /\ repr iset' (l1 ++ l2).
Proof.
  intros [He Hl Hi Hr Hs Hm]. destruct iset as [e n c].
  cbn [is_encoding is_length is_contents] in *. pose proof (enc_ok_nonneg _ He) as Hpos.
  rewrite image_app, image_cons in Hi. rewrite length_app in Hl, Hm. simpl length in Hl, Hm.
  assert (n = zlen l1 + 1 + zlen l2) as -> by lia. subst c. clear Hl.
  assert (exists t, zlen t = e /\
    (if zlen l1 <? zlen l1 + 1 + zlen l2 - 1
     then intsetMoveTail
            (Intset e (zlen l1 + 1 + zlen l2) (image e l1 ++ le (Z.to_nat e) v ++ image e l2))
            (wrap 32 (zlen l1 + 1)) (zlen l1)
     else Some (Intset e (zlen l1 + 1 + zlen l2)
                  (image e l1 ++ le (Z.to_nat e) v ++ image e l2)))
    = Some (Intset e (zlen l1 + 1 + zlen l2) (image e (l1 ++ l2) ++ t)))
    as (t & Ht & ->).
  { destruct (Z.ltb_spec (zlen l1) (zlen l1 + 1 + zlen l2 - 1)).
    - destruct (moveTail_down e l1 v l2) as (t & Ht & ->); [done|lia|].
      exists t. by rewrite image_app, <- app_assoc.
    - destruct l2; [|simpl in *; lia]. exists (le (Z.to_nat e) v).
      rewrite le_length, !app_nil_r. split; [lia|done]. }
  osimpl. unfold intsetResize. cbn [is_encoding is_length is_contents].
  unfold max_len in Hm. assert (e <= 8) by (unfold enc_ok in He; lia).
  rewrite wrap_small by (unfold in_u; nia).
  assert (zlen (image e (l1 ++ l2)) = e * (zlen l1 + zlen l2)) as Hil
    by (rewrite image_length, length_app by lia; lia).
  rewrite realloc_shrink by (rewrite length_app; nia).
  rewrite take_app_le by nia. rewrite take_ge by nia.
  eexists. split; [done|].
  constructor; cbn [is_encoding is_length is_contents]; try done.
  - rewrite length_app. lia.
  - apply Forall_app in Hr as [? [? ?]%Forall_cons]. by apply Forall_app.
  - rewrite StronglySorted_app, StronglySorted_cons in Hs.
    apply StronglySorted_app. set_solver.
  - rewrite length_app. unfold max_len. lia.
Qed.
End Alloc.

Lemma sorted_NoDup (l : list Z) : StronglySorted Z.lt l -> NoDup l.
Proof.
  induction 1 as [|x l Hs IH Hx]; constructor; [|done].
  intros Hin. rewrite Forall_forall in Hx. apply Hx in Hin. lia.
Qed.

Lemma models_size iset l : repr iset l -> size (list_to_set l : gset Z) = length l.
Proof. intros H. apply size_list_to_set, sorted_NoDup, (repr_srt _ _ H). Qed.

(** A value wider than the encoding of a set is not a member of it. *)
Lemma repr_narrow iset l v :
  repr iset l -> in_s 64 v -> is_encoding iset < _intsetValueEncoding v -> v ∉ l.
Proof.
  intros [He _ _ Hr _ _] Hv Hlt Hin. rewrite Forall_forall in Hr. apply Hr in Hin.
  destruct (value_encoding v Hv) as (_ & _ & _ & Hout).
  specialize (Hout _ _ He Hlt Hin). destruct (v <? 0); lia.
Qed.

(** ** The intset refines a finite set of 64-bit integers *)

(** C4: Adding a 64-bit integer to an intset that holds the set [S] never
    accesses memory out of bounds, reports success exactly when the integer was
    not a member, and leaves an intset (sorted, duplicate free, wide enough)
    that holds [S] with the integer. This covers the insertion in place and the
    upgrade to a wider encoding, whatever fresh memory holds. *)
Theorem intsetAdd_refines (uninit : nat -> Z) (iset : intset) (S : gset Z) (v : Z)
    (Hmod : models iset S) (Hv : in_s 64 v) (Hroom : Z.of_nat (size S) < max_len) :
  exists iset', intsetAdd uninit iset v = Some (iset', bool_decide (v ∉ S)) /\
                models iset' ({[v]} ∪ S).
Proof.
  destruct Hmod as (l & Hrep & ->). rewrite (models_size _ _ Hrep) in Hroom.
  unfold intsetAdd. destruct (Z.ltb_spec (is_encoding iset) (_intsetValueEncoding v)) as [Hlt|Hle].
  - destruct (upgrade_spec uninit _ _ _ Hrep Hv Hlt Hroom) as (i' & -> & Hrep').
    exists i'. rewrite bool_decide_eq_true_2
      by (rewrite elem_of_list_to_set; eapply repr_narrow; eauto).
    split; [done|]. eexists. split; [exact Hrep'|]. destruct (v <? 0); set_solver.
  - destruct (intsetSearch_spec _ _ v Hrep) as (b & pos & -> & Hfa). osimpl.
    destruct (found_at_models _ _ _ _ Hfa) as [Hin _].
    destruct Hfa as (l1 & l2 & <- & H1 & H2 & ->). destruct b; simpl app in *.
    + exists iset. rewrite bool_decide_eq_false_2 by set_solver.
      split; [done|]. eexists. split; [exact Hrep|]. set_solver.
    + destruct (value_encoding v Hv) as (_ & _ & Hwide & _).
      destruct (insert_spec uninit iset l1 l2 v) as (i' & E & Hrep'); eauto using repr_enc.
      exists i'. rewrite bool_decide_eq_true_2 by (rewrite elem_of_list_to_set; naive_solver).
      split; [exact E|]. eexists. split; [exact Hrep'|]. set_solver.
Qed.

(** Removing a 64-bit integer stays in bounds, reports success exactly when
    it was a member, and leaves an intset that holds the set without it. *)
Theorem intsetRemove_refines (uninit : nat -> Z) (iset : intset) (S : gset Z) (v : Z)
    (Hmod : models iset S) (Hv : in_s 64 v) :
  exists iset', intsetRemove uninit iset v = Some (iset', bool_decide (v ∈ S)) /\
                models iset' (S ∖ {[v]}).
Proof.
  destruct Hmod as (l & Hrep & ->). unfold intsetRemove.
  destruct (Z.leb_spec (_intsetValueEncoding v) (is_encoding iset)) as [Hle|Hlt].
  - destruct (intsetSearch_spec _ _ v Hrep) as (b & pos & -> & Hfa). osimpl.
    destruct (found_at_models _ _ _ _ Hfa) as [Hin _].
    destruct Hfa as (l1 & l2 & <- & H1 & H2 & ->). destruct b; simpl app in *.
    + destruct (remove_spec uninit iset l1 l2 v Hrep) as (i' & E & Hrep').
      exists i'. rewrite bool_decide_eq_true_2 by set_solver.
      split; [exact E|]. eexists. split; [exact Hrep'|].
      pose proof (sorted_NoDup _ (repr_srt _ _ Hrep)) as Hnd.
      apply NoDup_app in Hnd as (_ & Hd & [Hv2 _]%NoDup_cons). set_solver.
    + exists iset. rewrite bool_decide_eq_false_2 by (rewrite elem_of_list_to_set; naive_solver).
      split; [done|]. eexists. split; [exact Hrep|].
      assert (v ∉ l1 ++ l2) by naive_solver. set_solver.
  - exists iset. pose proof (repr_narrow _ _ _ Hrep Hv Hlt) as Hni.
    rewrite bool_decide_eq_false_2 by set_solver.
    split; [done|]. eexists. split; [exact Hrep|]. set_solver.
Qed.

(** [intsetFind] decides membership for every 64-bit integer, including the
    short cut for integers wider than the encoding of the set. *)
Theorem intsetFind_refines (iset : intset) (S : gset Z) (v : Z)
    (Hmod : models iset S) (Hv : in_s 64 v) :
  intsetFind iset v = Some (bool_decide (v ∈ S)).
Proof.
  destruct Hmod as (l & Hrep & ->). unfold intsetFind.
  destruct (Z.leb_spec (_intsetValueEncoding v) (is_encoding iset)) as [Hle|Hlt].
  - destruct (intsetSearch_spec _ _ v Hrep) as (b & pos & -> & Hfa). osimpl.
    destruct (found_at_models _ _ _ _ Hfa) as [Hin _]. simpl. f_equal.
    symmetry. destruct b; [apply bool_decide_eq_true_2|apply bool_decide_eq_false_2]; set_solver.
  - rewrite bool_decide_eq_false_2; [done|].
    rewrite elem_of_list_to_set. eapply repr_narrow; eauto.
Qed.

(** [intsetGet] enumerates the set in increasing order, each member once:
    position [k] holds the [k]-th smallest member and positions from the length
    on are reported out of range; [intsetLen] is the number of members. *)
Theorem intsetGet_enumerates (iset : intset) (S : gset Z) (Hmod : models iset S) :
  exists l, StronglySorted Z.lt l /\ S = list_to_set l /\
    intsetLen iset = Z.of_nat (size S) /\ Z.of_nat (size S) = zlen l /\
    forall k : nat, intsetGet iset (Z.of_nat k) = Some (l !! k).
Proof.
  destruct Hmod as (l & Hrep & ->). exists l.
  pose proof (models_size _ _ Hrep) as Hsz. destruct (Hrep) as [_ Hl _ _ Hs _].
  split_and!; [done..|unfold intsetLen; lia|lia|].
  intros k. unfold intsetGet. rewrite Hl. destruct (Z.ltb_spec (Z.of_nat k) (zlen l)).
  - destruct (lookup_lt_is_Some_2 l k) as [x Hx]; [lia|].
    rewrite (repr_get _ _ _ _ Hrep Hx), Hx. done.
  - rewrite lookup_ge_None_2 by lia. done.
Qed.

(** ** Concrete sets *)
Definition adds (vs : list Z) : option intset :=
  foldl (fun r v => r ≫= fun i => fst <$> intsetAdd (fun _ => 170) i v) (Some intsetNew) vs.

Example adds_sorted : adds [5; 6; 4; 4] = Some (Intset 2 3 [4; 0; 5; 0; 6; 0]).
Proof. vm_compute. reflexivity. Qed.

Example adds_upgrade :
  (i ← adds [5; 6; -70000]; mapM (_intsetGet i) [0; 1; 2]) = Some [-70000; 5; 6].
Proof. vm_compute. reflexivity. Qed.

Definition sample : intset := Intset 2 2 [4; 0; 5; 0].

Definition sample_set : gset Z := {[4; 5]}.

Lemma sample_models : models sample sample_set.
Proof.
  exists [4; 5]. split; [|by vm_compute].
  constructor; cbn.
  - unfold enc_ok. lia.
  - done.
  - by vm_compute.
  - repeat constructor; cbn; lia.
  - repeat constructor; lia.
  - unfold max_len. lia.
Qed.

Lemma intsetAdd_refines_witness :
  exists iset', intsetAdd (fun _ => 170) sample 70000 =
                  Some (iset', bool_decide (70000 ∉ sample_set)) /\
                models iset' ({[70000]} ∪ sample_set).
Proof.
  apply (intsetAdd_refines (fun _ => 170) sample sample_set 70000).
  - apply sample_models.
  - unfold in_s. cbn. lia.
  - vm_compute. done.
Defined.

Lemma intsetRemove_refines_witness :
  exists iset', intsetRemove (fun _ => 170) sample 4 =
                  Some (iset', bool_decide (4 ∈ sample_set)) /\
                models iset' (sample_set ∖ {[4]}).
Proof.
  apply (intsetRemove_refines (fun _ => 170) sample sample_set 4).
  - apply sample_models.
  - unfold in_s. cbn. lia.
Defined.

Lemma intsetFind_refines_witness :
  intsetFind sample 5 = Some (bool_decide (5 ∈ sample_set)).
Proof.
  apply (intsetFind_refines sample sample_set 5).
  - apply sample_models.
  - unfold in_s. cbn. lia.
Defined.

Lemma intsetGet_enumerates_witness :
  exists l, StronglySorted Z.lt l /\ sample_set = list_to_set l /\
    intsetLen sample = Z.of_nat (size sample_set) /\
    Z.of_nat (size sample_set) = zlen l /\
    forall k : nat, intsetGet sample (Z.of_nat k) = Some (l !! k).
Proof. apply (intsetGet_enumerates sample sample_set). apply sample_models. Defined.

End Intset.
