(* ===== verification/Lzf.v ===== *)
(** * LZF compression (src/redis-2.8/src/lzf_c.c, lzf_d.c)

    RDB files store strings compressed by [lzf_compress]; [lzf_decompress]
    expands them. Pointers are offsets from the start of their buffer. The
    hash table of the compressor is not initialised ([INIT_HTAB] is 0), so its
    initial contents are a parameter: a function from slots to the offset from
    [in_data] of whatever pointer the slot holds. The other switches of lzfP.h
    are [HLOG = 16], [VERY_FAST = 1], [ULTRA_FAST = 0], [CHECK_INPUT = 1]. *)
From stdpp Require Import base tactics list numbers option.
From Stdlib Require Import ZArith Lia.
From S2P Require Import Prelude.
Import CInt CMem Bytes.
Open Scope Z_scope.

Module Lzf.

Definition HLOG := 16.
Definition MAX_LIT := 32.
Definition MAX_OFF := 8192.
Definition MAX_REF := 264.

(** ** Decompression *)

(** [lzf_decompress] returns the number of bytes written, or 0 with [errno]. *)
Inductive dresult :=
| DOut (out : list Z) (n : Z)
| DE2BIG
| DEINVAL.

(** [do *op++ = *ip++; while (--ctrl)]: [n] bytes from the input. *)
Fixpoint copy_in (n : nat) (inp : list Z) (ip : Z) (out : list Z) (op : Z)
  : option (list Z * Z * Z) :=
  match n with
  | O => Some (out, ip, op)
  | S n =>
      b ← rd inp ip;
      out ← wr out op b;
      copy_in n inp (ip + 1) out (op + 1)
  end.

(** [*op++ = *ref++], [n] times; the two ranges may overlap. *)
Fixpoint copy_ref (n : nat) (out : list Z) (ref op : Z) : option (list Z * Z) :=
  match n with
  | O => Some (out, op)
  | S n =>
      b ← rd out ref;
      out ← wr out op b;
      copy_ref n out (ref + 1) (op + 1)
  end.

(** One round of the do-while loop: the two pointers and the buffer it leaves,
    or the error it returns. *)
Inductive dstep :=
| DNext (out : list Z) (ip op : Z)
| DErr (r : dresult).

Definition decompress_literal (inp : list Z) (in_len : Z) (out : list Z) (out_len : Z)
    (ctrl ip op : Z) : option dstep :=
  let ctrl := ctrl + 1 in
  if out_len <? op + ctrl then Some (DErr DE2BIG)
  else if in_len <? ip + ctrl then Some (DErr DEINVAL)
  else
    '(out, ip, op) ← copy_in (Z.to_nat ctrl) inp ip out op;
    Some (DNext out ip op).

Definition decompress_backref (inp : list Z) (in_len : Z) (out : list Z) (out_len : Z)
    (ctrl ip op : Z) : option dstep :=
  let len := Z.shiftr ctrl 5 in
  let ref := op - Z.shiftl (Z.land ctrl 31) 8 - 1 in
  if in_len <=? ip then Some (DErr DEINVAL)
  else
    '(len, ip, bad) ←
      (if len =? 7 then
         b ← rd inp ip;
         Some (len + b, ip + 1, in_len <=? ip + 1)
       else Some (len, ip, false));
    if bad : bool then Some (DErr DEINVAL)
    else
      b ← rd inp ip;
      let ref := ref - b in
      let ip := ip + 1 in
      if out_len <? op + len + 2 then Some (DErr DE2BIG)
      else if ref <? 0 then Some (DErr DEINVAL)
      else
        '(out, op) ← copy_ref (Z.to_nat (len + 2)) out ref op;
        Some (DNext out ip op).

Definition decompress_step (inp : list Z) (in_len : Z) (out : list Z) (out_len : Z)
    (ip op : Z) : option dstep :=
  ctrl ← rd inp ip;
  if ctrl <? 32 then decompress_literal inp in_len out out_len ctrl (ip + 1) op
  else decompress_backref inp in_len out out_len ctrl (ip + 1) op.

Fixpoint decompress_loop (fuel : nat) (inp : list Z) (in_len : Z) (out : list Z) (out_len : Z)
    (ip op : Z) : option dresult :=
  match fuel with
  | O => None
  | S fuel =>
      r ← decompress_step inp in_len out out_len ip op;
      match r with
      | DErr e => Some e
      | DNext out ip op =>
          if ip <? in_len then decompress_loop fuel inp in_len out out_len ip op
          else Some (DOut out op)
      end
  end.

Definition lzf_decompress (inp : list Z) (in_len : Z) (out : list Z) (out_len : Z)
  : option dresult :=
  decompress_loop (S (Z.to_nat in_len)) inp in_len out out_len 0 0.

(** ** Compression *)

Definition FRST (inp : list Z) (p : Z) : option Z :=
  b0 ← rd inp p;
  b1 ← rd inp (p + 1);
  Some (Z.lor (Z.shiftl b0 8) b1).

Definition NEXT (inp : list Z) (v p : Z) : option Z :=
  b2 ← rd inp (p + 2);
  Some (Z.lor (wrap 32 (Z.shiftl v 8)) b2).

Definition IDX (h : Z) : Z :=
  Z.land (wrap 32 (Z.shiftr h (3 * 8 - HLOG) - wrap 32 (h * 5))) (2 ^ HLOG - 1).

Definition set_slot (htab : Z -> Z) (k v : Z) : Z -> Z :=
  fun k' => if k' =? k then v else htab k'.

Record state := State {
  ip : Z; op : Z; lit : Z; hval : Z; htab : Z -> Z; out : list Z
}.

(** [op [- lit - 1] = lit - 1], stored as an unsigned char. *)
Definition stop_run (out : list Z) (op lit : Z) : option (list Z) :=
  wr out (op - lit - 1) (wrap 8 (lit - 1)).

(** The unrolled comparison: [n] more bytes; the flag tells whether it broke
    out of the enclosing loop. *)
Fixpoint unrolled (n : nat) (inp : list Z) (ref ip len : Z) : option (bool * Z) :=
  match n with
  | O => Some (false, len)
  | S n =>
      let len := len + 1 in
      a ← rd inp (ref + len);
      b ← rd inp (ip + len);
      if a =? b then unrolled n inp ref ip len else Some (true, len)
  end.

(** [do len++; while (len < maxlen && ref[len] == ip[len])] *)
Fixpoint extend (fuel : nat) (inp : list Z) (ref ip len maxlen : Z) : option Z :=
  match fuel with
  | O => None
  | S fuel =>
      let len := len + 1 in
      if len <? maxlen then
        a ← rd inp (ref + len);
        b ← rd inp (ip + len);
        if a =? b then extend fuel inp ref ip len maxlen else Some len
      else Some len
  end.

Definition match_len (inp : list Z) (ref ip maxlen : Z) : option Z :=
  '(broke, len) ← (if 16 <? maxlen then unrolled 16 inp ref ip 2 else Some (false, 2));
  if broke : bool then Some len
  else extend (S (Z.to_nat maxlen)) inp ref ip len maxlen.

Definition bytes_match (inp : list Z) (ref ip : Z) : option bool :=
  r0 ← rd inp ref; p0 ← rd inp ip;
  r1 ← rd inp (ref + 1); p1 ← rd inp (ip + 1);
  if (r0 =? p0) && (r1 =? p1) then
    r2 ← rd inp (ref + 2); p2 ← rd inp (ip + 2);
    Some (r2 =? p2)
  else Some false.

(** The guard of a back reference; [&&] evaluates the reads only when the
    earlier conditions hold. *)
Definition is_match (inp : list Z) (in_len ref ip : Z) : option bool :=
  if (wrap 64 (ip - ref - 1) <? MAX_OFF) && (ip + 4 <? in_len) && (0 <? ref)
  then bytes_match inp ref ip else Some false.

(** The end of the two loops of the function: it returned 0, it left the main
    loop, or it goes on. *)
Inductive outcome :=
| Zero (out : list Z)
| Break (s : state)
| Next (s : state).

Definition emit_backref (out : list Z) (op off len : Z) : option (list Z * Z) :=
  '(out, op) ←
    (if len <? 7 then
       out ← wr out op (wrap 8 (Z.shiftr off 8 + Z.shiftl len 5));
       Some (out, op + 1)
     else
       out ← wr out op (wrap 8 (Z.shiftr off 8 + Z.shiftl 7 5));
       out ← wr out (op + 1) (wrap 8 (len - 7));
       Some (out, op + 2));
  out ← wr out op (wrap 8 off);
  Some (out, op + 1).

Definition match_branch (inp : list Z) (in_len out_len ref : Z) (s : state)
  : option outcome :=
  let off := wrap 64 (ip s - ref - 1) in
  let maxlen := in_len - ip s - 2 in
  let maxlen := if MAX_REF <? maxlen then MAX_REF else maxlen in
  out ← stop_run (out s) (op s) (lit s);
  let op := op s - (if lit s =? 0 then 1 else 0) in
  if out_len <=? op + 3 + 1 then Some (Zero out)
  else
    len ← match_len inp ref (ip s) maxlen;
    let len := len - 2 in
    let ip := ip s + 1 in
    '(out, op) ← emit_backref out op off len;
    let op := op + 1 in
    let ip := ip + (len + 1) in
    if in_len - 2 <=? ip then Some (Break (State ip op 0 (hval s) (htab s) out))
    else
      let ip := ip - 2 in
      hval ← FRST inp ip;
      hval ← NEXT inp hval ip;
      let htab := set_slot (htab s) (IDX hval) ip in
      let ip := ip + 1 in
      hval ← NEXT inp hval ip;
      let htab := set_slot htab (IDX hval) ip in
      let ip := ip + 1 in
      Some (Next (State ip op 0 hval htab out)).

(** [lit++; *op++ = *ip++; if (lit == MAX_LIT) ...] of both loops. *)
Definition put_literal (inp : list Z) (s : state) : option state :=
  b ← rd inp (ip s);
  out ← wr (out s) (op s) b;
  let lit := lit s + 1 in
  let op := op s + 1 in
  if lit =? MAX_LIT then
    out ← stop_run out op lit;
    Some (State (ip s + 1) (op + 1) 0 (hval s) (htab s) out)
  else Some (State (ip s + 1) op lit (hval s) (htab s) out).

Definition main_step (inp : list Z) (in_len out_len : Z) (s : state) : option outcome :=
  hval ← NEXT inp (hval s) (ip s);
  let ref := htab s (IDX hval) in
  let s := State (ip s) (op s) (lit s) hval (set_slot (htab s) (IDX hval) (ip s)) (out s) in
  m ← is_match inp in_len ref (ip s);
  if m : bool then match_branch inp in_len out_len ref s
  else if out_len <=? op s then Some (Zero (out s))
  else s ← put_literal inp s; Some (Next s).

(** [while (ip < in_end - 2)] *)
Fixpoint main_loop (fuel : nat) (inp : list Z) (in_len out_len : Z) (s : state)
  : option outcome :=
  match fuel with
  | O => None
  | S fuel =>
      if ip s <? in_len - 2 then
        r ← main_step inp in_len out_len s;
        match r with
        | Next s => main_loop fuel inp in_len out_len s
        | r => Some r
        end
      else Some (Break s)
  end.

(** [while (ip < in_end)] *)
Fixpoint tail_loop (fuel : nat) (inp : list Z) (in_len : Z) (s : state) : option state :=
  match fuel with
  | O => None
  | S fuel =>
      if ip s <? in_len then
        s ← put_literal inp s;
        tail_loop fuel inp in_len s
      else Some s
  end.

(** The return value and the output block. *)
Definition lzf_compress (htab0 : Z -> Z) (inp : list Z) (in_len : Z) (out : list Z) (out_len : Z)
  : option (Z * list Z) :=
  if (in_len =? 0) || (out_len =? 0) then Some (0, out)
  else
    hval ← FRST inp 0;
    r ← main_loop (S (Z.to_nat in_len)) inp in_len out_len (State 0 1 0 hval htab0 out);
    match r with
    | Zero out => Some (0, out)
    | Next s | Break s =>
        if out_len <? op s + 3 then Some (0, Lzf.out s)
        else
          s ← tail_loop (S (Z.to_nat in_len)) inp in_len s;
          out ← stop_run (Lzf.out s) (op s) (lit s);
          Some (op s - (if lit s =? 0 then 1 else 0), out)
    end.

(** ** The compressed format

    A compressed string is a sequence of tokens, each of which extends the
    output produced so far: a run of literal bytes, or the copy of [len + 2]
    bytes that start [off + 1] bytes before the end, one byte at a time, so that
    a copy may include bytes it has just produced. *)
Inductive token :=
| Lit (bs : list Z)
| Ref (off len : Z).

Definition enc_token (t : token) : list Z :=
  match t with
  | Lit bs => (zlen bs - 1) :: bs
  | Ref off len =>
      if len <? 7 then [off / 256 + len * 32; off mod 256]
      else [off / 256 + 224; len - 7; off mod 256]
  end.

Definition encode (ts : list token) : list Z := ts ≫= enc_token.

Fixpoint replay (n d : nat) (h : list Z) : list Z :=
  match n with
  | O => h
  | S n =>
      match h !! (length h - d)%nat with
      | Some b => replay n d (h ++ [b])
      | None => h
      end
  end.

Definition expand (h : list Z) (t : token) : list Z :=
  match t with
  | Lit bs => h ++ bs
  | Ref off len => replay (Z.to_nat (len + 2)) (S (Z.to_nat off)) h
  end.

Definition token_ok (h : list Z) (t : token) : Prop :=
  match t with
  | Lit bs => 1 <= zlen bs <= MAX_LIT
  | Ref off len => 0 <= off < MAX_OFF /\ off < zlen h /\ 1 <= len <= MAX_REF - 2
  end.

Inductive tokens : list Z -> list token -> list Z -> Prop :=
| tokens_nil h : tokens h [] h
| tokens_cons h t ts h' :
    token_ok h t -> tokens (expand h t) ts h' -> tokens h (t :: ts) h'.

Lemma tokens_snoc h ts h' t :
  tokens h ts h' -> token_ok h' t -> tokens h (ts ++ [t]) (expand h' t).
Proof. induction 1; intros Ht; simpl; econstructor; eauto. constructor. Qed.

Lemma encode_cons t ts : encode (t :: ts) = enc_token t ++ encode ts.
Proof. done. Qed.

Lemma encode_snoc ts t : encode (ts ++ [t]) = encode ts ++ enc_token t.
Proof. unfold encode. rewrite bind_app. simpl. by rewrite app_nil_r. Qed.

Lemma replay_length n d h :
  (1 <= d <= length h)%nat -> length (replay n d h) = (length h + n)%nat.
Proof.
  revert h. induction n as [|n IH]; intros h Hd; simpl; [lia|].
  destruct (lookup_lt_is_Some_2 h (length h - d)) as [b ->]; [lia|].
  rewrite IH; rewrite length_app; simpl; lia.
Qed.

Lemma expand_length h t :
  token_ok h t ->
  zlen (expand h t) = zlen h + match t with Lit bs => zlen bs | Ref _ len => len + 2 end.
Proof.
  destruct t as [bs|off len]; simpl.
  - rewrite length_app. lia.
  - unfold MAX_OFF, MAX_REF. intros. rewrite replay_length; lia.
Qed.

Lemma tokens_length h ts h' : tokens h ts h' -> zlen h <= zlen h'.
Proof.
  induction 1 as [|h t ts h' Ht _ IH]; [lia|].
  rewrite (expand_length _ _ Ht) in IH. destruct t; simpl in *; lia.
Qed.

(** *** The decompressor follows the format *)
Lemma copy_in_spec bs : forall pre post h rest,
  (length bs <= length rest)%nat ->
  copy_in (length bs) (pre ++ bs ++ post) (zlen pre) (h ++ rest) (zlen h) =
  Some (h ++ bs ++ drop (length bs) rest, zlen pre + zlen bs, zlen h + zlen bs).
Proof.
  induction bs as [|b bs IH]; intros pre post h rest Hr; simpl.
  { by rewrite !Z.add_0_r, drop_0. }
  destruct rest as [|r rest]; [simpl in Hr; lia|]. simpl in Hr.
  ostep rd_app by done. ostep wr_app by done.
  specialize (IH (pre ++ [b]) post (h ++ [b]) rest ltac:(lia)).
  rewrite !length_app in IH. simpl in IH. rewrite <- !app_assoc in IH. simpl in IH.
  replace (zlen pre + 1) with (Z.of_nat (length pre + 1)) by lia.
  replace (zlen h + 1) with (Z.of_nat (length h + 1)) by lia.
  rewrite IH. simpl. result_eq.
Qed.

Lemma copy_ref_spec n : forall d h rest,
  (1 <= d <= length h)%nat -> (n <= length rest)%nat ->
  copy_ref n (h ++ rest) (zlen h - Z.of_nat d) (zlen h) =
  Some (replay n d h ++ drop n rest, zlen h + Z.of_nat n).
Proof.
  induction n as [|n IH]; intros d h rest Hd Hr; simpl.
  { by rewrite Z.add_0_r, drop_0. }
  destruct rest as [|r rest]; [simpl in Hr; lia|]. simpl in Hr.
  destruct (lookup_lt_is_Some_2 h (length h - d)) as [b Hb]; [lia|]. rewrite Hb.
  replace (zlen h - Z.of_nat d) with (Z.of_nat (length h - d)) by lia.
  rewrite rd_nat, lookup_app_l, Hb by lia. osimpl.
  ostep wr_app by done.
  specialize (IH d (h ++ [b]) rest ltac:(rewrite length_app; simpl; lia) ltac:(lia)).
  rewrite length_app in IH. simpl in IH. rewrite <- app_assoc in IH. simpl in IH.
  replace (Z.of_nat (length h - d) + 1)
    with (Z.of_nat (length h + 1) - Z.of_nat d) by lia.
  replace (zlen h + 1) with (Z.of_nat (length h + 1)) by lia.
  rewrite IH. simpl. result_eq.
Qed.

Lemma land31 x : Z.land x 31 = x mod 32.
Proof. change 31 with (2 ^ 5 - 1). by rewrite land_ones_wrap by lia. Qed.

Lemma ctrl_fields off len :
  0 <= off < MAX_OFF -> 0 <= len ->
  let c := off / 256 + len * 32 in
  Z.shiftr c 5 = len /\ Z.shiftl (Z.land c 31) 8 = off / 256 * 256.
Proof.
  unfold MAX_OFF. intros Ho Hl. cbv zeta.
  rewrite land31, Z.shiftr_div_pow2, Z.shiftl_mul_pow2 by lia.
  change (2 ^ 5) with 32. change (2 ^ 8) with 256.
  assert (0 <= off / 256 < 32) by (Z.div_mod_to_equations; lia).
  rewrite Z.div_add, Z.div_small, Z.mod_add, Z.mod_small by lia. lia.
Qed.

Lemma decompress_token t pre post h rest out_len :
  token_ok h t -> zlen (expand h t) <= out_len -> out_len <= zlen (h ++ rest) ->
  let inp := pre ++ enc_token t ++ post in
  exists rest',
    decompress_step inp (zlen inp) (h ++ rest) out_len (zlen pre) (zlen h) =
    Some (DNext (expand h t ++ rest') (zlen (pre ++ enc_token t)) (zlen (expand h t))) /\
    length (expand h t ++ rest') = length (h ++ rest).
Proof.
  intros Hok Hfit Hout. pose proof (expand_length _ _ Hok) as Hx. rewrite Hx in Hfit.
  rewrite Hx. rewrite length_app in Hout. cbv zeta.
  unfold decompress_step.
  destruct t as [bs|off len]; cbn [enc_token expand token_ok] in *.
  - exists (drop (length bs) rest). unfold MAX_LIT in Hok.
    split; [|rewrite !length_app, length_drop; lia].
    cbn [app]. ostep rd_app by done.
    rewrite (proj2 (Z.ltb_lt _ _)) by lia. unfold decompress_literal.
    rewrite !length_app. cbn [length]. rewrite length_app.
    rewrite (proj2 (Z.ltb_ge _ _)) by lia. rewrite (proj2 (Z.ltb_ge _ _)) by lia.
    pose proof (copy_in_spec bs (pre ++ [zlen bs - 1]) post h rest ltac:(lia)) as E.
    rewrite length_app in E. rewrite <- app_assoc in E. cbn [length app] in E.
    replace (Z.to_nat (zlen bs - 1 + 1)) with (length bs) by lia.
    replace (zlen pre + 1) with (Z.of_nat (length pre + 1)) by lia.
    rewrite E. osimpl. rewrite app_assoc. f_equal. f_equal; lia.
  - exists (drop (Z.to_nat (len + 2)) rest).
    destruct Hok as (Ho & Hoh & Hl). unfold MAX_REF, MAX_OFF in *.
    assert (off / 256 * 256 + off mod 256 = off) as Hdm by (Z.div_mod_to_equations; lia).
    assert (0 <= off / 256 < 32) by (Z.div_mod_to_equations; lia).
    pose proof (copy_ref_spec (Z.to_nat (len + 2)) (S (Z.to_nat off)) h rest
                  ltac:(lia) ltac:(lia)) as E.
    split; [|rewrite !length_app, length_drop, replay_length; lia].
    destruct (Z.ltb_spec len 7).
    + destruct (ctrl_fields off len) as [Hs Hm]; [done|lia|].
      cbn [app]. ostep rd_app by done.
      rewrite (proj2 (Z.ltb_ge _ _)) by lia. unfold decompress_backref.
      rewrite Hs, Hm, !length_app. cbn [length].
      rewrite (proj2 (Z.leb_gt _ _)) by lia.
      rewrite (proj2 (Z.eqb_neq _ _)) by lia. osimpl.
      rewrite (app_cons_mid pre).
      ostep rd_app by (rewrite length_app; simpl; lia).
      rewrite (proj2 (Z.ltb_ge _ _)) by lia. rewrite (proj2 (Z.ltb_ge _ _)) by lia.
      replace (zlen h - off / 256 * 256 - 1 - off mod 256)
        with (zlen h - Z.of_nat (S (Z.to_nat off))) by lia.
      rewrite E. osimpl. f_equal. f_equal; lia.
    + destruct (ctrl_fields off 7) as [Hs Hm]; [done|lia|].
      cbn [app]. ostep rd_app by done. change (7 * 32) with 224 in *.
      rewrite (proj2 (Z.ltb_ge _ _)) by lia. unfold decompress_backref.
      rewrite Hs, Hm, !length_app. cbn [length].
      rewrite (proj2 (Z.leb_gt _ _)) by lia. cbn [Z.eqb Pos.eqb].
      rewrite (app_cons_mid pre).
      ostep bind_eq; [apply rd_app; rewrite length_app; simpl; lia|done|].
      rewrite (proj2 (Z.leb_gt _ _)) by lia.
      rewrite (app_cons_mid (pre ++ _)).
      ostep rd_app by (rewrite !length_app; simpl; lia).
      rewrite (proj2 (Z.ltb_ge _ _)) by lia. rewrite (proj2 (Z.ltb_ge _ _)) by lia.
      replace (zlen h - off / 256 * 256 - 1 - off mod 256)
        with (zlen h - Z.of_nat (S (Z.to_nat off))) by lia.
      replace (7 + (len - 7)) with len by lia.
      rewrite E. osimpl. f_equal. f_equal; lia.
Qed.

Lemma enc_token_pos t : 1 <= zlen (enc_token t).
Proof. destruct t; simpl; [lia|]. destruct (_ <? _); simpl; lia. Qed.

Lemma encode_length ts : zlen ts <= zlen (encode ts).
Proof.
  induction ts as [|t ts IH]; [done|]. rewrite encode_cons, length_app.
  pose proof (enc_token_pos t). simpl length. lia.
Qed.

Lemma decompress_tokens h ts h' :
  tokens h ts h' -> ts <> [] ->
  forall pre rest out_len fuel,
  zlen h' <= out_len -> out_len <= zlen (h ++ rest) -> (length ts <= fuel)%nat ->
  let inp := pre ++ encode ts in
  exists rest',
    decompress_loop fuel inp (zlen inp) (h ++ rest) out_len (zlen pre) (zlen h) =
    Some (DOut (h' ++ rest') (zlen h')) /\ length (h' ++ rest') = length (h ++ rest).
Proof.
  induction 1 as [|h t ts h' Ht Hts IH]; intros Hne pre rest out_len fuel Hf1 Hf2 Hfuel; [done|].
  cbv zeta. destruct fuel as [|fuel]; [simpl in Hfuel; lia|]. cbn [decompress_loop].
  pose proof (tokens_length _ _ _ Hts) as Hlen.
  destruct (decompress_token t pre (encode ts) h rest out_len Ht) as (rest1 & E & El); [lia..|].
  cbv zeta in E. rewrite encode_cons, E. osimpl.
  destruct ts as [|t' ts].
  - inversion Hts; subst. rewrite app_nil_r, Z.ltb_irrefl. eauto.
  - rewrite (proj2 (Z.ltb_lt _ _)).
    2:{ rewrite encode_cons, !length_app. pose proof (enc_token_pos t'). lia. }
    destruct (IH ltac:(done) (pre ++ enc_token t) rest1 out_len fuel) as (rest2 & E2 & El2);
      [lia|rewrite El; lia|simpl in *; lia|].
    rewrite <- app_assoc in E2. exists rest2. split; [exact E2|]. by rewrite El2.
Qed.

(** *** The compressor produces the format *)
Definition agree (inp : list Z) (ref ip n : Z) : Prop :=
  forall i, 0 <= i < n -> rd inp (ref + i) = rd inp (ip + i).

Lemma agree_step inp ref ip n a :
  agree inp ref ip n -> rd inp (ref + n) = Some a -> rd inp (ip + n) = Some a ->
  agree inp ref ip (n + 1).
Proof.
  intros H Ha Hb i Hi. destruct (decide (i = n)) as [->|]; [congruence|]. apply H. lia.
Qed.

Lemma unrolled_spec n : forall inp ref ip len,
  0 <= ref < ip -> 0 <= len -> ip + len + Z.of_nat n < zlen inp -> agree inp ref ip (len + 1) ->
  exists broke len', unrolled n inp ref ip len = Some (broke, len') /\
    len <= len' <= len + Z.of_nat n /\
    (if broke : bool then len < len' /\ agree inp ref ip len'
     else len' = len + Z.of_nat n /\ agree inp ref ip (len' + 1)).
Proof.
  induction n as [|n IH]; intros inp ref ip len Hr Hl Hb Ha; cbn [unrolled].
  { exists false, len. split; [done|]. split; [lia|]. split; [lia|done]. }
  destruct (rd_in inp (ref + (len + 1))) as [a Ea]; [lia|].
  destruct (rd_in inp (ip + (len + 1))) as [b Eb]; [lia|].
  rewrite Ea, Eb. osimpl. destruct (Z.eqb_spec a b) as [->|].
  - destruct (IH inp ref ip (len + 1)) as (br & len' & E & Hl' & Hbr); [lia..| |].
    { by eapply agree_step. }
    exists br, len'. split; [done|]. split; [lia|]. destruct br; [|split; [lia|apply Hbr]].
    split; [lia|apply Hbr].
  - exists true, (len + 1). split; [done|]. split; [lia|]. split; [lia|done].
Qed.

Lemma extend_spec fuel : forall inp ref ip len maxlen,
  0 <= ref < ip -> 0 <= len -> ip + maxlen <= zlen inp -> agree inp ref ip (len + 1) ->
  maxlen - len < Z.of_nat fuel -> (0 < fuel)%nat ->
  exists len', extend fuel inp ref ip len maxlen = Some len' /\
    len + 1 <= len' <= Z.max (len + 1) maxlen /\ agree inp ref ip len'.
Proof.
  induction fuel as [|fuel IH]; intros inp ref ip len maxlen Hr Hl Hb Ha Hf Hf0; [lia|].
  cbn [extend]. destruct (Z.ltb_spec (len + 1) maxlen).
  - destruct (rd_in inp (ref + (len + 1))) as [a Ea]; [lia|].
    destruct (rd_in inp (ip + (len + 1))) as [b Eb]; [lia|].
    rewrite Ea, Eb. osimpl. destruct (Z.eqb_spec a b) as [->|].
    + destruct (IH inp ref ip (len + 1) maxlen) as (len' & E & Hl' & Ha'); [lia..| |lia|lia|].
      { by eapply agree_step. }
      exists len'. split; [done|]. split; [lia|done].
    + exists (len + 1). split; [done|]. split; [lia|done].
  - exists (len + 1). split; [done|]. split; [lia|done].
Qed.

Lemma match_len_spec inp ref ip :
  0 <= ref < ip -> ip + 4 < zlen inp -> agree inp ref ip 3 ->
  let m := zlen inp - ip - 2 in
  exists len, match_len inp ref ip (if MAX_REF <? m then MAX_REF else m) = Some len /\
    3 <= len <= MAX_REF /\ ip + len <= zlen inp /\ agree inp ref ip len.
Proof.
  intros Hr Hip Ha m. unfold MAX_REF, match_len.
  set (maxlen := if 264 <? m then 264 else m).
  assert (3 <= maxlen <= 264 /\ ip + maxlen + 2 <= zlen inp) as [Hm Hb]
    by (unfold maxlen, m; destruct (Z.ltb_spec 264 (zlen inp - ip - 2)); lia).
  clearbody maxlen. clear m.
  destruct (Z.ltb_spec 16 maxlen).
  - destruct (unrolled_spec 16 inp ref ip 2) as (br & len & E & Hl & Hbr); [lia..|done|].
    rewrite E. osimpl. destruct br.
    + exists len. split; [done|]. destruct Hbr. split_and!; [lia..|done].
    + destruct Hbr as [-> Ha'].
      destruct (extend_spec (S (Z.to_nat maxlen)) inp ref ip (2 + Z.of_nat 16) maxlen)
        as (len & E' & Hl' & Ha''); [lia..|done|lia|lia|].
      exists len. split; [exact E'|]. split_and!; [lia..|done].
  - osimpl. destruct (extend_spec (S (Z.to_nat maxlen)) inp ref ip 2 maxlen)
        as (len & E' & Hl' & Ha''); [lia..|done|lia|lia|].
    exists len. split; [exact E'|]. split_and!; [lia..|done].
Qed.

(** A slot never makes the guard accept a pointer that is not inside the part
    of the input already read, even when the slot was never written. *)
Definition slot_ok (r : Z) : Prop := r < 2 ^ 64 - MAX_OFF.

Lemma guard_in_range ip ref :
  slot_ok ref -> 0 <= ip < 2 ^ 32 -> 0 < ref ->
  wrap 64 (ip - ref - 1) < MAX_OFF ->
  wrap 64 (ip - ref - 1) = ip - ref - 1 /\ ref < ip /\ ip - ref - 1 < MAX_OFF.
Proof.
  unfold slot_ok, MAX_OFF. intros Hs Hip Hr Hw.
  destruct (Z.le_gt_cases ip ref) as [Hge|Hlt].
  - unfold wrap in Hw.
    rewrite <- (Z.mod_add _ 1), Z.mod_small in Hw by lia. lia.
  - rewrite wrap_small in * by (unfold in_u; lia). lia.
Qed.

Lemma is_match_spec inp ref ip :
  slot_ok ref -> 0 <= ip -> ip < zlen inp - 2 -> zlen inp < 2 ^ 32 ->
  exists m, is_match inp (zlen inp) ref ip = Some m /\
    (m = true -> wrap 64 (ip - ref - 1) = ip - ref - 1 /\ 0 < ref < ip /\
       ip - ref - 1 < MAX_OFF /\ ip + 4 < zlen inp /\ agree inp ref ip 3).
Proof.
  intros Hs Hip Hl Hn. unfold is_match.
  destruct (Z.ltb_spec (wrap 64 (ip - ref - 1)) MAX_OFF) as [Hw|]; [|by exists false].
  destruct (Z.ltb_spec (ip + 4) (zlen inp)) as [H4|]; [|by exists false].
  destruct (Z.ltb_spec 0 ref) as [Hr|]; [|by exists false].
  destruct (guard_in_range ip ref) as (Ho & Hlt & Hoff); [done|lia|done|done|].
  cbn [andb]. unfold bytes_match.
  destruct (rd_in inp ref) as [r0 E0]; [lia|]. destruct (rd_in inp ip) as [p0 F0]; [lia|].
  destruct (rd_in inp (ref + 1)) as [r1 E1]; [lia|]. destruct (rd_in inp (ip + 1)) as [p1 F1]; [lia|].
  destruct (rd_in inp (ref + 2)) as [r2 E2]; [lia|]. destruct (rd_in inp (ip + 2)) as [p2 F2]; [lia|].
  rewrite E0, F0, E1, F1. osimpl.
  destruct (Z.eqb_spec r0 p0) as [->|]; [|by exists false].
  destruct (Z.eqb_spec r1 p1) as [->|]; [|by exists false].
  cbn [andb]. rewrite E2, F2. osimpl. exists (r2 =? p2). split; [done|].
  intros ->%Z.eqb_eq. split_and!; try done.
  intros k Hk. assert (k = 0 \/ k = 1 \/ k = 2) as [-> | [-> | ->]] by lia;
    rewrite ?Z.add_0_r; congruence.
Qed.

Lemma replay_agree n : forall inp ref ip,
  0 <= ref < ip -> ip + Z.of_nat n <= zlen inp -> agree inp ref ip (Z.of_nat n) ->
  replay n (Z.to_nat (ip - ref)) (take (Z.to_nat ip) inp) = take (Z.to_nat ip + n) inp.
Proof.
  induction n as [|n IH]; intros inp ref ip Hr Hl Ha; cbn [replay].
  { by rewrite Nat.add_0_r. }
  rewrite length_take, Nat.min_l by lia.
  replace (Z.to_nat ip - Z.to_nat (ip - ref))%nat with (Z.to_nat ref) by lia.
  rewrite lookup_take_lt by lia.
  specialize (Ha 0 ltac:(lia)) as H0. rewrite !Z.add_0_r in H0.
  destruct (rd_in inp ip) as [b Hb]; [lia|]. rewrite Hb in H0.
  apply rd_Some in H0 as [_ ->]. apply rd_Some in Hb as [_ Hb].
  destruct (take_S_lookup _ _ _ Hb) as [<- _].
  specialize (IH inp (ref + 1) (ip + 1)).
  replace (ip + 1 - (ref + 1)) with (ip - ref) in IH by lia.
  replace (Z.to_nat (ip + 1)) with (S (Z.to_nat ip)) in IH by lia.
  rewrite IH; [f_equal; lia|lia|lia|].
  intros k Hk. specialize (Ha (k + 1) ltac:(lia)).
  replace (ref + 1 + k) with (ref + (k + 1)) by lia.
  by replace (ip + 1 + k) with (ip + (k + 1)) by lia.
Qed.

Lemma emit_backref_spec E rest op off len :
  0 <= off < MAX_OFF -> 1 <= len <= MAX_REF - 2 -> op = zlen E -> 3 <= zlen rest ->
  exists rest',
    emit_backref (E ++ rest) op off len =
    Some (E ++ enc_token (Ref off len) ++ rest', zlen (E ++ enc_token (Ref off len))) /\
    length (enc_token (Ref off len) ++ rest') = length rest.
Proof.
  unfold MAX_OFF, MAX_REF. intros Ho Hl -> Hr.
  destruct rest as [|x0 [|x1 [|x2 rest]]]; try (simpl in Hr; lia).
  assert (0 <= off / 256 < 32) by (Z.div_mod_to_equations; lia).
  unfold emit_backref. cbn [enc_token].
  rewrite Z.shiftr_div_pow2, !Z.shiftl_mul_pow2 by lia.
  change (2 ^ 8) with 256. change (2 ^ 5) with 32. change (7 * 32) with 224.
  change (wrap 8 off) with (off mod 256).
  destruct (Z.ltb_spec len 7).
  - exists (x2 :: rest). rewrite wrap_small by (unfold in_u; lia). split; [|done].
    ostep bind_eq; [by apply wr_app|done|].
    rewrite (app_cons_mid E). ostep wr_app by (rewrite length_app; simpl; lia).
    rewrite <- app_assoc, length_app. cbn [length app]. result_eq.
  - exists rest. rewrite !wrap_small by (unfold in_u; lia). split; [|done].
    ostep bind_eq; [by apply wr_app| |].
    { cbn beta. rewrite (app_cons_mid E).
      ostep wr_app by (rewrite length_app; simpl; lia). done. }
    rewrite (app_cons_mid (E ++ _)).
    ostep wr_app by (rewrite !length_app; simpl; lia).
    rewrite <- !app_assoc, length_app. cbn [length app]. result_eq.
Qed.

(** The invariant of the compressor: the bytes before the current run encode
    tokens that expand to the input before it; the run itself sits behind the
    slot of its header. *)
Record inv (inp : list Z) (out_len : Z) (s : state) (ts : list token) : Prop := Inv {
  inv_lit : 0 <= lit s < MAX_LIT;
  inv_ip : lit s <= ip s <= zlen inp;
  inv_tok : tokens [] ts (take (Z.to_nat (ip s - lit s)) inp);
  inv_op : op s = zlen (encode ts) + 1 + lit s;
  inv_len : zlen (out s) = out_len + 1;
  inv_out : exists h rest, out s = encode ts ++ h ::
              take (Z.to_nat (lit s)) (drop (Z.to_nat (ip s - lit s)) inp) ++ rest;
  inv_htab : forall k, slot_ok (htab s k)
}.

(** Ending the current run of [n] literals, [pos] being the input position
    behind it: a run of length zero is dropped, any other becomes a token. *)
Lemma stop_run_spec inp ts pos n h rest op :
  0 <= n <= MAX_LIT -> n <= pos <= zlen inp ->
  tokens [] ts (take (Z.to_nat (pos - n)) inp) ->
  op = zlen (encode ts) + 1 + n ->
  exists ts' rest',
    stop_run (encode ts ++ h :: take (Z.to_nat n) (drop (Z.to_nat (pos - n)) inp) ++ rest) op n =
    Some (encode ts' ++ rest') /\
    tokens [] ts' (take (Z.to_nat pos) inp) /\
    zlen (encode ts') = op - (if n =? 0 then 1 else 0) /\
    zlen (encode ts' ++ rest') = op + zlen rest.
Proof.
  unfold MAX_LIT. intros Hn Hpos Hts ->.
  set (L := take (Z.to_nat n) (drop (Z.to_nat (pos - n)) inp)).
  assert (zlen L = n) as HL by (unfold L; rewrite length_take, length_drop; lia).
  unfold stop_run. rewrite wr_app by lia.
  destruct (Z.eqb_spec n 0) as [->|Hn0].
  - exists ts, (wrap 8 (-1) :: L ++ rest). rewrite Z.sub_0_r in Hts.
    rewrite !length_app. simpl length. rewrite ?length_app. split_and!; [done..|lia|lia].
  - exists (ts ++ [Lit L]), rest. rewrite encode_snoc. cbn [enc_token].
    rewrite HL, wrap_small by (unfold in_u; lia).
    rewrite !length_app. simpl length. split_and!; [by rewrite <- app_assoc| |lia|lia].
    eapply tokens_snoc in Hts; [|instantiate (1 := Lit L); simpl; unfold MAX_LIT; lia].
    cbn [expand] in Hts. replace (take (Z.to_nat pos) inp) with
      (take (Z.to_nat (pos - n)) inp ++ L); [done|].
    unfold L. rewrite take_take_drop. f_equal. lia.
Qed.

(** Starting a run: the byte at [op] becomes the slot of its header. *)
Lemma start_run inp out_len ts pos hv ht rest :
  0 <= pos <= zlen inp -> tokens [] ts (take (Z.to_nat pos) inp) ->
  zlen (encode ts ++ rest) = out_len + 1 -> zlen (encode ts) <= out_len ->
  (forall k, slot_ok (ht k)) ->
  inv inp out_len (State pos (zlen (encode ts) + 1) 0 hv ht (encode ts ++ rest)) ts.
Proof.
  intros Hp Hts Hl Hle Hht. rewrite length_app in Hl.
  destruct rest as [|h rest]; [simpl in Hl; lia|].
  constructor; cbn [lit ip op out htab]; rewrite ?Z.sub_0_r; try done; try (unfold MAX_LIT; lia).
  - rewrite length_app. lia.
  - by exists h, rest.
Qed.

Lemma put_literal_spec inp out_len s ts :
  inv inp out_len s ts -> ip s < zlen inp -> op s < out_len ->
  exists s' ts', put_literal inp s = Some s' /\ inv inp out_len s' ts' /\
    ip s' = ip s + 1 /\ op s' = op s + 1 + (if lit s' =? 0 then 1 else 0).
Proof.
  intros [Hlit Hip Htok Hop Hlen (h & rest & Hout) Hht] Hi Ho. unfold MAX_LIT in Hlit.
  unfold put_literal.
  destruct (rd_in inp (ip s)) as [b Hb]; [lia|]. rewrite Hb. osimpl.
  apply rd_Some in Hb as [_ Hb].
  set (L := take (Z.to_nat (lit s)) (drop (Z.to_nat (ip s - lit s)) inp)) in *.
  assert (zlen L = lit s) as HL by (unfold L; rewrite length_take, length_drop; lia).
  assert (take (Z.to_nat (lit s + 1)) (drop (Z.to_nat (ip s - lit s)) inp) = L ++ [b]) as HL'.
  { replace (Z.to_nat (lit s + 1)) with (S (Z.to_nat (lit s))) by lia.
    apply take_S_r. rewrite lookup_drop. rewrite <- Hb. f_equal. lia. }
  rewrite Hout in Hlen |- *. rewrite length_app in Hlen. simpl in Hlen. rewrite length_app in Hlen.
  destruct rest as [|r rest]; [simpl in *; lia|].
  rewrite (app_cons_mid (encode ts) h), !(app_assoc _ L) , wr_app
    by (rewrite !length_app; simpl; lia).
  osimpl. rewrite <- (app_assoc (encode ts)), <- !app_assoc. cbn [app].
  rewrite (app_cons_mid L b), <- HL'.
  unfold MAX_LIT. destruct (Z.eqb_spec (lit s + 1) 32) as [E32|].
  - replace (ip s - lit s) with (ip s + 1 - (lit s + 1)) in * by lia.
    destruct (stop_run_spec inp ts (ip s + 1) (lit s + 1) h rest (op s + 1))
      as (ts' & rest' & Es & Htok' & Hl' & Hlen'); try done; try (unfold MAX_LIT; lia).
    rewrite Es. osimpl. rewrite E32 in Hl'. cbn [Z.eqb] in Hl'.
    eexists _, ts'. split; [done|]. cbn [ip op lit Z.eqb]. split; [|lia].
    replace (op s + 1 + 1) with (zlen (encode ts') + 1) by lia.
    apply start_run; [lia|done|rewrite Hlen'; simpl in *; lia|lia|done].
  - eexists _, ts. split; [done|]. cbn [ip op lit].
    rewrite (proj2 (Z.eqb_neq (lit s + 1) 0)) by lia. split; [|lia].
    constructor; cbn [lit ip op out htab]; try done; try (unfold MAX_LIT; lia).
    + by replace (ip s + 1 - (lit s + 1)) with (ip s - lit s) by lia.
    + rewrite length_app. simpl. rewrite length_app, HL', length_app. simpl in *. lia.
    + exists h, rest. by replace (ip s + 1 - (lit s + 1)) with (ip s - lit s) by lia.
Qed.

Lemma FRST_spec inp p : 0 <= p -> p + 1 < zlen inp -> exists v, FRST inp p = Some v.
Proof.
  intros. unfold FRST.
  destruct (rd_in inp p) as [a ->]; [lia|]. destruct (rd_in inp (p + 1)) as [b ->]; [lia|].
  osimpl. eauto.
Qed.

Lemma NEXT_spec inp v p : 0 <= p -> p + 2 < zlen inp -> exists v', NEXT inp v p = Some v'.
Proof.
  intros. unfold NEXT. destruct (rd_in inp (p + 2)) as [a ->]; [lia|]. osimpl. eauto.
Qed.

Lemma set_slot_ok ht k v :
  (forall k, slot_ok (ht k)) -> 0 <= v < 2 ^ 32 -> forall k', slot_ok (set_slot ht k v k').
Proof.
  intros Hht Hv k'. unfold set_slot. destruct (k' =? k); [|done].
  unfold slot_ok, MAX_OFF. lia.
Qed.

(** What a round of the main loop, or the loop itself, leaves behind. *)
Definition progress (inp : list Z) (out_len from : Z) (r : outcome) : Prop :=
  match r with
  | Zero out => zlen out = out_len + 1
  | Break s => zlen inp - 2 <= ip s /\ exists ts, inv inp out_len s ts
  | Next s => from < ip s /\ exists ts, inv inp out_len s ts
  end.

Lemma match_branch_spec inp out_len s ts ref :
  inv inp out_len s ts -> zlen inp < 2 ^ 32 ->
  wrap 64 (ip s - ref - 1) = ip s - ref - 1 -> 0 < ref < ip s ->
  ip s - ref - 1 < MAX_OFF -> ip s + 4 < zlen inp -> agree inp ref (ip s) 3 ->
  exists r, match_branch inp (zlen inp) out_len ref s = Some r /\
            progress inp out_len (ip s) r.
Proof.
  intros [Hlit Hip Htok Hop Hlen (h & rest & Hout) Hht] Hn Hw Hr Hoff H4 Ha.
  unfold match_branch. rewrite Hw, Hout.
  destruct (stop_run_spec inp ts (ip s) (lit s) h rest (op s))
    as (ts1 & rest1 & Es & Htok1 & Hl1 & Hlen1); [lia..|done|done|].
  rewrite Es. osimpl. set (op1 := op s - _) in *.
  assert (zlen (encode ts1 ++ rest1) = out_len + 1) as Hz.
  { rewrite Hlen1, <- Hlen, Hout, length_app. simpl length.
    rewrite length_app, length_take, length_drop. lia. }
  destruct (Z.leb_spec out_len (op1 + 3 + 1)) as [|Hroom].
  { eexists. split; [done|]. exact Hz. }
  destruct (match_len_spec inp ref (ip s)) as (len & Em & Hlen3 & Hfit & Hag); [lia..|done|].
  cbv zeta in Em. rewrite Em. osimpl. unfold MAX_REF in *.
  rewrite length_app in Hz.
  destruct (emit_backref_spec (encode ts1) rest1 op1 (ip s - ref - 1) (len - 2))
    as (rest2 & Eb & Hl2); [lia|unfold MAX_REF; lia|lia|lia|].
  rewrite Eb. osimpl. rewrite app_assoc, <- encode_snoc.
  set (ts2 := ts1 ++ [_]) in *.
  assert (tokens [] ts2 (take (Z.to_nat (ip s + len)) inp)) as Htok2.
  { eapply tokens_snoc in Htok1;
      [|instantiate (1 := Ref (ip s - ref - 1) (len - 2)); simpl;
        rewrite length_take; unfold MAX_REF; lia].
    unfold ts2. cbn [expand] in Htok1. revert Htok1.
    replace (Z.to_nat (len - 2 + 2)) with (Z.to_nat len) by lia.
    replace (S (Z.to_nat (ip s - ref - 1))) with (Z.to_nat (ip s - ref)) by lia.
    rewrite replay_agree by (lia || (rewrite Z2Nat.id by lia; done)).
    by replace (Z.to_nat (ip s) + Z.to_nat len)%nat with (Z.to_nat (ip s + len)) by lia. }
  assert (zlen (encode ts2) <= out_len /\ zlen (encode ts2 ++ rest2) = out_len + 1) as [Hb1 Hb2].
  { unfold ts2. rewrite encode_snoc. rewrite !length_app in *. 
    assert (zlen (enc_token (Ref (ip s - ref - 1) (len - 2))) <= 3)
      by (simpl; destruct (_ <? 7); simpl; lia). lia. }
  replace (ip s + 1 + (len - 2 + 1)) with (ip s + len) by lia.
  destruct (Z.leb_spec (zlen inp - 2) (ip s + len)).
  - eexists. split; [done|]. cbn [progress ip]. split; [done|]. exists ts2.
    by apply start_run; [lia|..].
  - destruct (FRST_spec inp (ip s + len - 2)) as [v1 ->]; [lia..|]. osimpl.
    destruct (NEXT_spec inp v1 (ip s + len - 2)) as [v2 ->]; [lia..|]. osimpl.
    destruct (NEXT_spec inp v2 (ip s + len - 2 + 1)) as [v3 ->]; [lia..|]. osimpl.
    eexists. split; [done|]. cbn [progress ip]. split; [lia|]. exists ts2.
    replace (ip s + len - 2 + 1 + 1) with (ip s + len) by lia.
    apply start_run; [lia|done|done|done|].
    apply set_slot_ok; [apply set_slot_ok; [done|lia]|lia].
Qed.

Lemma main_step_spec inp out_len s ts :
  inv inp out_len s ts -> zlen inp < 2 ^ 32 -> ip s < zlen inp - 2 ->
  exists r, main_step inp (zlen inp) out_len s = Some r /\ progress inp out_len (ip s) r.
Proof.
  intros Hinv Hn Hi. pose proof Hinv as [Hlit Hip Htok Hop Hlen Hout Hht].
  unfold main_step. destruct (NEXT_spec inp (hval s) (ip s)) as [v ->]; [lia..|]. osimpl.
  set (s1 := State _ _ _ _ _ _).
  assert (inv inp out_len s1 ts) as Hinv1.
  { constructor; try done. apply set_slot_ok; [done|]. lia. }
  destruct (is_match_spec inp (htab s (IDX v)) (ip s)) as (m & Em & Hm); [done|lia..|].
  cbn [ip s1]. rewrite Em. osimpl. destruct m.
  - destruct (Hm eq_refl) as (Hw & Hr & Hoff & H4 & Ha).
    by apply (match_branch_spec inp out_len s1 ts).
  - destruct (Z.leb_spec out_len (op s1)).
    + eexists. split; [done|]. exact Hlen.
    + destruct (put_literal_spec inp out_len s1 ts) as (s' & ts' & -> & Hinv' & Hip' & _);
        [done|cbn; lia|done|].
      osimpl. eexists. split; [done|]. cbn [progress]. cbn [ip s1] in Hip'. eauto with lia.
Qed.

Lemma main_loop_spec fuel : forall inp out_len s ts,
  inv inp out_len s ts -> zlen inp < 2 ^ 32 -> zlen inp - ip s < Z.of_nat fuel ->
  exists r, main_loop fuel inp (zlen inp) out_len s = Some r /\
    match r with Next _ => False | _ => progress inp out_len 0 r end.
Proof.
  induction fuel as [|fuel IH]; intros inp out_len s ts Hinv Hn Hf.
  { pose proof (inv_ip _ _ _ _ Hinv). lia. }
  cbn [main_loop]. destruct (Z.ltb_spec (ip s) (zlen inp - 2)).
  - destruct (main_step_spec inp out_len s ts) as (r & -> & Hp); [done..|].
    osimpl. destruct r as [o|s'|s'].
    + by eexists.
    + by eexists.
    + destruct Hp as (Hlt & ts' & Hinv'). apply (IH _ _ _ ts'); [done|done|lia].
  - eexists. split; [done|]. cbn. eauto.
Qed.

Lemma tail_loop_spec fuel : forall inp out_len s ts,
  inv inp out_len s ts -> zlen inp - ip s < Z.of_nat fuel ->
  op s + 2 * (zlen inp - ip s) <= out_len + 1 ->
  op s - (if lit s =? 0 then 1 else 0) <= out_len ->
  exists s' ts', tail_loop fuel inp (zlen inp) s = Some s' /\ inv inp out_len s' ts' /\
    ip s' = zlen inp /\ op s' - (if lit s' =? 0 then 1 else 0) <= out_len.
Proof.
  induction fuel as [|fuel IH]; intros inp out_len s ts Hinv Hf Ho Hb.
  { pose proof (inv_ip _ _ _ _ Hinv). lia. }
  cbn [tail_loop]. pose proof (inv_ip _ _ _ _ Hinv).
  destruct (Z.ltb_spec (ip s) (zlen inp)).
  - destruct (put_literal_spec inp out_len s ts) as (s' & ts' & -> & Hinv' & Hip' & Hop');
      [done|lia|lia|].
    osimpl. apply (IH _ _ _ ts'); [done|lia|destruct (lit s' =? 0); lia|lia].
  - exists s, ts. split; [done|]. split; [done|]. split; [lia|done].
Qed.

(** The compressor on a block that has one byte more than [out_len]. *)
Lemma lzf_compress_spec htab0 inp out out_len :
  2 <= zlen inp < 2 ^ 32 -> 0 < out_len -> zlen out = out_len + 1 ->
  (forall k, slot_ok (htab0 k)) ->
  exists n out', lzf_compress htab0 inp (zlen inp) out out_len = Some (n, out') /\
    zlen out' = out_len + 1 /\ 0 <= n <= out_len /\
    (n <> 0 -> exists ts, tokens [] ts inp /\ take (Z.to_nat n) out' = encode ts /\
               zlen (encode ts) = n).
Proof.
  intros Hin Hol Hout Hht. unfold lzf_compress.
  rewrite (proj2 (Z.eqb_neq (zlen inp) 0)), (proj2 (Z.eqb_neq out_len 0)) by lia. cbn [orb].
  destruct (FRST_spec inp 0) as [v ->]; [lia..|]. osimpl.
  assert (inv inp out_len (State 0 1 0 v htab0 out) []) as Hinv0.
  { apply (start_run inp out_len [] 0); [lia|constructor|done|simpl; lia|done]. }
  destruct (main_loop_spec (S (Z.to_nat (zlen inp))) inp out_len _ _ Hinv0)
    as (r & -> & Hr); [lia|cbn [ip]; lia|].
  osimpl. destruct r as [o|s|s]; [|destruct Hr as (Hip & ts & Hinv)|done].
  { exists 0, o. split; [done|]. split; [done|]. split; [lia|done]. }
  pose proof (inv_ip _ _ _ _ Hinv).
  destruct (Z.ltb_spec out_len (op s + 3)).
  { exists 0, (Lzf.out s). split; [done|]. split; [by eapply inv_len|]. split; [lia|done]. }
  destruct (tail_loop_spec (S (Z.to_nat (zlen inp))) inp out_len s ts)
    as (s' & ts' & -> & Hinv' & Hip' & Hfin); [done|lia|lia|destruct (lit s =? 0); lia|].
  osimpl. destruct Hinv' as [Hlit Hip2 Htok Hop Hlen (h & rest & Ho) _]. rewrite Ho.
  destruct (stop_run_spec inp ts' (ip s') (lit s') h rest (op s'))
    as (ts2 & rest2 & -> & Htok2 & Hl2 & Hlen2); [lia..|done|done|].
  osimpl. eexists _, _. split; [done|].
  assert (zlen (encode ts2 ++ rest2) = out_len + 1) as Hz.
  { rewrite Hlen2, <- Hlen, Ho, length_app. simpl length.
    rewrite length_app, length_take, length_drop. lia. }
  split; [done|]. rewrite <- Hl2.
  rewrite Hip', take_ge in Htok2 by lia.
  split; [lia|]. intros _. exists ts2. split; [done|]. rewrite Nat2Z.id. split; [|done].
  by rewrite take_app_length.
Qed.

(** *** The decompressor on arbitrary input *)
Lemma copy_in_safe n : forall inp ip out op,
  0 <= ip -> ip + Z.of_nat n <= zlen inp -> 0 <= op -> op + Z.of_nat n <= zlen out ->
  exists out', copy_in n inp ip out op = Some (out', ip + Z.of_nat n, op + Z.of_nat n) /\
               length out' = length out.
Proof.
  induction n as [|n IH]; intros inp ip out op H1 H2 H3 H4; cbn [copy_in].
  { exists out. rewrite !Z.add_0_r. done. }
  destruct (rd_in inp ip) as [b ->]; [lia|]. osimpl.
  destruct (wr_in out op b) as (o1 & -> & El); [lia|]. osimpl.
  destruct (IH inp (ip + 1) o1 (op + 1)) as (o2 & -> & El2); [lia..|].
  exists o2. split; [result_eq|lia].
Qed.

Lemma copy_ref_safe n : forall out ref op,
  0 <= ref <= op -> op + Z.of_nat n <= zlen out ->
  exists out', copy_ref n out ref op = Some (out', op + Z.of_nat n) /\ length out' = length out.
Proof.
  induction n as [|n IH]; intros out ref op H1 H2; cbn [copy_ref].
  { exists out. rewrite !Z.add_0_r. done. }
  destruct (rd_in out ref) as [b ->]; [lia|]. osimpl.
  destruct (wr_in out op b) as (o1 & -> & El); [lia|]. osimpl.
  destruct (IH o1 (ref + 1) (op + 1)) as (o2 & -> & El2); [lia..|].
  exists o2. split; [result_eq|lia].
Qed.

(** A round either reports an error or consumes input, and stays in bounds. *)
Definition dstep_ok (inp out : list Z) (out_len ip : Z) (r : dstep) : Prop :=
  match r with
  | DErr e => e = DE2BIG \/ e = DEINVAL
  | DNext out' ip' op' => ip < ip' /\ 0 <= op' <= out_len /\ length out' = length out
  end.

Lemma rd_byte inp i :
  Forall is_byte inp -> 0 <= i < zlen inp -> exists b, rd inp i = Some b /\ 0 <= b < 256.
Proof.
  intros Hb Hi. destruct (rd_in inp i Hi) as [b E]. exists b. split; [done|].
  apply rd_Some in E as [_ E]. by apply (Forall_lookup_1 _ _ _ _ Hb) in E.
Qed.

Lemma decompress_step_safe inp out out_len ip op :
  Forall is_byte inp -> 0 <= ip < zlen inp -> 0 <= op <= out_len -> out_len <= zlen out ->
  exists r, decompress_step inp (zlen inp) out out_len ip op = Some r /\
            dstep_ok inp out out_len ip r.
Proof.
  intros Hby Hip Hop Hol. unfold decompress_step.
  destruct (rd_byte inp ip) as (c & -> & Hc); [done..|]. osimpl.
  destruct (Z.ltb_spec c 32).
  - unfold decompress_literal.
    destruct (Z.ltb_spec out_len (op + (c + 1))); [eexists; split; [done|by left]|].
    destruct (Z.ltb_spec (zlen inp) (ip + 1 + (c + 1))); [eexists; split; [done|by right]|].
    destruct (copy_in_safe (Z.to_nat (c + 1)) inp (ip + 1) out op) as (o & -> & El); [lia..|].
    osimpl. eexists. split; [done|]. cbn. lia.
  - unfold decompress_backref.
    destruct (Z.leb_spec (zlen inp) (ip + 1)); [eexists; split; [done|by right]|].
    rewrite land31, Z.shiftr_div_pow2, Z.shiftl_mul_pow2 by lia.
    change (2 ^ 5) with 32. change (2 ^ 8) with 256.
    assert (0 <= c mod 32 < 32) by (apply Z.mod_pos_bound; lia).
    assert (1 <= c / 32) by (Z.div_mod_to_equations; lia).
    assert (exists len ip1 bad,
      (if c / 32 =? 7 then b ← rd inp (ip + 1);
         Some (c / 32 + b, ip + 1 + 1, zlen inp <=? ip + 1 + 1)
       else Some (c / 32, ip + 1, false)) = Some (len, ip1, bad) /\
      1 <= len /\ ip < ip1 /\ (bad = false -> ip1 < zlen inp)) as (len & ip1 & bad & -> & Hl & Hi1 & Hb).
    { destruct (c / 32 =? 7).
      - destruct (rd_byte inp (ip + 1)) as (b & -> & Hb); [done|lia|]. osimpl.
        eexists _, _, _. split; [done|]. split; [lia|]. split; [lia|].
        intros ?%Z.leb_gt. lia.
      - eexists _, _, _. split; [done|]. lia. }
    osimpl. destruct bad; [eexists; split; [done|by right]|]. specialize (Hb eq_refl).
    destruct (rd_byte inp ip1) as (b & -> & Hb'); [done|lia|]. osimpl.
    destruct (Z.ltb_spec out_len (op + len + 2)); [eexists; split; [done|by left]|].
    destruct (Z.ltb_spec (op - c mod 32 * 256 - 1 - b) 0); [eexists; split; [done|by right]|].
    destruct (copy_ref_safe (Z.to_nat (len + 2)) out (op - c mod 32 * 256 - 1 - b) op)
      as (o & -> & El); [lia..|].
    osimpl. eexists. split; [done|]. cbn. lia.
Qed.

Lemma decompress_loop_safe fuel : forall inp out out_len ip op,
  Forall is_byte inp -> 0 <= ip < zlen inp -> 0 <= op <= out_len -> out_len <= zlen out ->
  zlen inp - ip < Z.of_nat fuel ->
  exists r, decompress_loop fuel inp (zlen inp) out out_len ip op = Some r /\
    match r with
    | DOut out' n => length out' = length out /\ 0 <= n <= out_len
    | _ => True
    end.
Proof.
  induction fuel as [|fuel IH]; intros inp out out_len ip op Hby Hip Hop Hol Hf; [lia|].
  cbn [decompress_loop].
  destruct (decompress_step_safe inp out out_len ip op) as (r & -> & Hr); [done..|].
  osimpl. destruct r as [o ip' op'|e].
  - destruct Hr as (Hlt & Hop' & El). destruct (Z.ltb_spec ip' (zlen inp)).
    + destruct (IH inp o out_len ip' op') as (r & -> & Hr); [done|lia|lia|lia|lia|].
      exists r. split; [done|]. destruct r; [|done..]. lia.
    + eexists. split; [done|]. cbn. lia.
  - eexists. split; [done|]. destruct Hr as [-> | ->]; done.
Qed.

(** ** Bytes behind the output are left alone *)
Lemma rd_frame (m t : list Z) i x : rd m i = Some x -> rd (m ++ t) i = Some x.
Proof. rewrite !rd_Some. intros [H0 Hi]. split; [done|]. by apply lookup_app_l_Some. Qed.

Lemma wr_frame (m m' t : list Z) i x : wr m i x = Some m' -> wr (m ++ t) i x = Some (m' ++ t).
Proof.
  unfold wr. rewrite length_app. destruct ((0 <=? i) && (i <? zlen m)) eqn:E; [|done]. intros [= <-].
  apply andb_true_iff in E as [E1%Z.leb_le E2%Z.ltb_lt].
  rewrite (proj2 (Z.leb_le _ _)), (proj2 (Z.ltb_lt _ _)) by lia. cbn [andb]. f_equal. apply insert_app_l. lia.
Qed.

Lemma copy_in_frame n inp t : forall ip out op out' ip' op',
  copy_in n inp ip out op = Some (out', ip', op') -> copy_in n inp ip (out ++ t) op = Some (out' ++ t, ip', op').
Proof.
  induction n as [|n IH]; intros ip out op out' ip' op' E; cbn [copy_in] in *; [by injection E as <- <- <-|].
  apply bind_inv in E as (b & -> & E). apply bind_inv in E as (o & Ew & E). osimpl.
  rewrite (wr_frame _ _ _ _ _ Ew). osimpl. by apply IH.
Qed.

Lemma copy_ref_frame n t : forall out ref op out' op',
  copy_ref n out ref op = Some (out', op') -> copy_ref n (out ++ t) ref op = Some (out' ++ t, op').
Proof.
  induction n as [|n IH]; intros out ref op out' op' E; cbn [copy_ref] in *; [by injection E as <- <-|].
  apply bind_inv in E as (b & Er & E). apply bind_inv in E as (o & Ew & E).
  rewrite (rd_frame _ _ _ _ Er). osimpl. rewrite (wr_frame _ _ _ _ _ Ew). osimpl. by apply IH.
Qed.

Definition result_frame (t : list Z) (r : dresult) : dresult :=
  match r with DOut out n => DOut (out ++ t) n | e => e end.

Definition step_frame (t : list Z) (s : dstep) : dstep :=
  match s with DNext out ip op => DNext (out ++ t) ip op | DErr e => DErr (result_frame t e) end.

Lemma decompress_step_frame inp in_len out out_len ip op t s :
  decompress_step inp in_len out out_len ip op = Some s ->
  decompress_step inp in_len (out ++ t) out_len ip op = Some (step_frame t s).
Proof.
  unfold decompress_step. intros E. apply bind_inv in E as (ctrl & -> & E). osimpl.
  destruct (ctrl <? 32).
  - unfold decompress_literal in *. destruct (out_len <? _); [by injection E as <-|].
    destruct (in_len <? _); [by injection E as <-|]. apply bind_inv in E as ([[o i] p] & Ec & E).
    rewrite (copy_in_frame _ _ _ _ _ _ _ _ _ Ec). osimpl. by injection E as <-.
  - unfold decompress_backref in *. destruct (in_len <=? _); [by injection E as <-|].
    apply bind_inv in E as ([[len i] bad] & -> & E). osimpl. destruct bad; [by injection E as <-|].
    apply bind_inv in E as (b & -> & E). osimpl. destruct (out_len <? _); [by injection E as <-|].
    destruct (_ <? 0); [by injection E as <-|]. apply bind_inv in E as ([o p] & Ec & E).
    rewrite (copy_ref_frame _ _ _ _ _ _ _ Ec). osimpl. by injection E as <-.
Qed.

Lemma decompress_frame fuel inp in_len out_len t : forall out ip op r,
  decompress_loop fuel inp in_len out out_len ip op = Some r ->
  decompress_loop fuel inp in_len (out ++ t) out_len ip op = Some (result_frame t r).
Proof.
  induction fuel as [|fuel IH]; intros out ip op r E; [done|]. cbn [decompress_loop] in *.
  apply bind_inv in E as (s & Es & E). rewrite (decompress_step_frame _ _ _ _ _ _ t _ Es). osimpl.
  destruct s as [o i p|e]; cbn [step_frame].
  - destruct (i <? in_len); [by apply IH|by injection E as <-].
  - by injection E as <-.
Qed.

(** The input from its tokens, in a block with a byte to spare. *)
Lemma decompress_exact ts inp x b :
  tokens [] ts inp -> inp <> [] -> zlen b = zlen inp ->
  lzf_decompress (encode ts) (zlen (encode ts)) (b ++ x) (zlen inp) = Some (DOut (inp ++ x) (zlen inp)).
Proof.
  intros Hts Hne Hb. assert (ts <> []) as Hnt by (intros ->; inversion Hts; congruence).
  pose proof (encode_length ts) as Hel.
  destruct (decompress_tokens [] ts inp Hts Hnt [] b (zlen inp) (S (Z.to_nat (zlen (encode ts)))))
    as (rest & Ed & El); [lia|rewrite app_nil_l; lia|lia|].
  rewrite length_app in El. cbn [app] in El, Ed. destruct rest; [|cbn in El; lia]. rewrite app_nil_r in Ed.
  unfold lzf_decompress. apply (decompress_frame _ _ _ _ x) in Ed. exact Ed.
Qed.

(** ** Properties *)

(** C5: Decompressing what [lzf_compress] produced gives the input back: for
    every input of at least two bytes and every contents of the uninitialised
    hash table, the compressor terminates, and when it does not give up (return
    0) the decompressor turns its output into the original bytes, filling a
    buffer of exactly the original length. *)
Theorem lzf_roundtrip (htab0 : Z -> Z) (inp out : list Z) (out_len : Z)
    (Hin : 2 <= zlen inp < 2 ^ 32) (Hpos : 0 < out_len) (Hout : zlen out = out_len + 1)
    (Hht : forall k, slot_ok (htab0 k)) :
  exists n out', lzf_compress htab0 inp (zlen inp) out out_len = Some (n, out') /\
    (n <> 0 -> forall buf, zlen buf = zlen inp ->
       lzf_decompress (take (Z.to_nat n) out') n buf (zlen inp) = Some (DOut inp (zlen inp))).
Proof.
  destruct (lzf_compress_spec htab0 inp out out_len) as (n & out' & E & _ & Hn & Hdec);
    [done..|].
  exists n, out'. split; [done|]. intros Hn0 buf Hbuf.
  destruct (Hdec Hn0) as (ts & Hts & Ht & Hl). rewrite Ht, <- Hl.
  pose proof (decompress_exact ts inp [] buf Hts) as Ed. rewrite !app_nil_r in Ed.
  apply Ed; [|done]. intros ->. simpl in Hin. lia.
Qed.

(** The compressor stays inside an output block that has one byte more than
    the [out_len] it is told, the size the caller in rdb.c allocates, and what
    it returns is 0 or a length of at most [out_len]. *)
Theorem lzf_compress_in_bounds (htab0 : Z -> Z) (inp out : list Z) (out_len : Z)
    (Hin : 2 <= zlen inp < 2 ^ 32) (Hpos : 0 < out_len) (Hout : zlen out = out_len + 1)
    (Hht : forall k, slot_ok (htab0 k)) :
  exists n out', lzf_compress htab0 inp (zlen inp) out out_len = Some (n, out') /\
    zlen out' = zlen out /\ 0 <= n <= out_len.
Proof.
  destruct (lzf_compress_spec htab0 inp out out_len) as (n & out' & E & El & Hn & _);
    [done..|].
  exists n, out'. split; [done|]. split; [lia|done].
Qed.

(** An input of 32 distinct bytes followed by a match. *)
Definition run_then_match : list Z := (Z.of_nat <$> seq 0 32) ++ [1; 2; 3; 4; 5; 6].

(** The byte more is needed: on a run of 32 literals that fills the output
    exactly, followed by a match, the compressor writes the cell behind
    [out_len], before it checks for room. *)
Theorem lzf_compress_writes_past_out_len :
  lzf_compress (fun _ => 0) run_then_match (zlen run_then_match) (replicate 33 0) 33 = None /\
  exists out', lzf_compress (fun _ => 0) run_then_match (zlen run_then_match)
                 (replicate 34 0) 33 = Some (0, out') /\ out' !! 33%nat = Some 255.
Proof. split; [by vm_compute|]. eexists. split; by vm_compute. Qed.

(** C29: The decompressor is safe on every input: whatever bytes it is given, it
    terminates, reads only the input, writes only the output buffer, and
    returns a length within the buffer or one of its two errors. *)
Theorem lzf_decompress_safe (inp out : list Z) (out_len : Z)
    (Hby : Forall is_byte inp) (Hin : 0 < zlen inp) (Hout : 0 <= out_len <= zlen out) :
  exists r, lzf_decompress inp (zlen inp) out out_len = Some r /\
    match r with
    | DOut out' n => length out' = length out /\ 0 <= n <= out_len
    | DE2BIG | DEINVAL => True
    end.
Proof.
  destruct (decompress_loop_safe (S (Z.to_nat (zlen inp))) inp out out_len 0 0)
    as (r & E & Hr); [done|lia..|].
  exists r. split; [exact E|]. by destruct r.
Qed.

(** ** Concrete runs *)
Definition sample : list Z :=
  [97; 98; 99; 97; 98; 99; 97; 98; 99; 97; 98; 99; 97; 98; 99; 100; 101; 102; 103; 104].

Example sample_compressed :
  lzf_compress (fun _ => 0) sample 20 (replicate 21 0) 20 =
  Some (14, [3; 97; 98; 99; 97; 224; 2; 2; 4; 100; 101; 102; 103; 104] ++ replicate 7 0).
Proof. vm_compute. reflexivity. Qed.

Lemma lzf_roundtrip_witness :
  exists n out', lzf_compress (fun _ => 0) sample (zlen sample) (replicate 21 0) 20 = Some (n, out') /\
    (n <> 0 -> forall buf, zlen buf = zlen sample ->
       lzf_decompress (take (Z.to_nat n) out') n buf (zlen sample)
       = Some (DOut sample (zlen sample))).
Proof.
  apply (lzf_roundtrip (fun _ => 0) sample (replicate 21 0) 20).
  - vm_compute. split; [discriminate|reflexivity].
  - lia.
  - reflexivity.
  - intros _. unfold slot_ok. vm_compute. reflexivity.
Defined.

Lemma lzf_compress_in_bounds_witness :
  exists n out', lzf_compress (fun _ => 0) sample (zlen sample) (replicate 21 0) 20 = Some (n, out') /\
    zlen out' = zlen (replicate 21 0) /\ 0 <= n <= 20.
Proof.
  apply (lzf_compress_in_bounds (fun _ => 0) sample (replicate 21 0) 20).
  - vm_compute. split; [discriminate|reflexivity].
  - lia.
  - reflexivity.
  - intros _. unfold slot_ok. vm_compute. reflexivity.
Defined.

(** A back reference before the start of the output is refused. *)
Lemma lzf_decompress_safe_witness :
  exists r, lzf_decompress [32; 5] (zlen [32; 5]) (replicate 8 0) 8 = Some r /\
    match r with
    | DOut out' n => length out' = length (replicate 8 0) /\ 0 <= n <= 8
    | DE2BIG | DEINVAL => True
    end.
Proof.
  apply (lzf_decompress_safe [32; 5] (replicate 8 0) 8).
  - repeat constructor; unfold is_byte; lia.
  - reflexivity.
  - vm_compute. split; discriminate.
Defined.

End Lzf.
