(* ===== verification/Dict.v ===== *)
(** * Hash tables with incremental rehashing (src/redis-2.8/src/dict.c, dict.h)

    A dictionary has two tables; while it is being rehashed the entries move
    from the first to the second, one bucket at a time, as a side effect of
    lookups and updates. A chain of [dictEntry]s is the list of its entries; a
    pointer to an entry is its table, bucket and position in the chain. The
    value of an entry that [dictAddRaw] returned is not set yet. *)
From stdpp Require Import base tactics list numbers option gmap fin_maps.
From Stdlib Require Import ZArith Lia.
From S2P Require Import Prelude.
Import CInt CMem.
Open Scope Z_scope.

Module Dict.

(** ** The interface to the users of a dictionary

    [dictType] holds the functions a user supplies; [DictTypeOk] is what the
    dictionary relies on: keys stand for their contents, so the comparison
    decides equality and copying a key changes nothing, and hashes are
    [unsigned int]s. *)
Record dictType (K V : Type) := DictType {
  hashFunction : K -> Z;
  keyDup : option (K -> K);
  valDup : option (V -> V);
  keyCompare : option (K -> K -> bool);
  keyDestructor : bool;
  valDestructor : bool
}.
Arguments DictType {K V}.
Arguments hashFunction {K V}.
Arguments keyDup {K V}.
Arguments valDup {K V}.
Arguments keyCompare {K V}.
Arguments keyDestructor {K V}.
Arguments valDestructor {K V}.

Class DictTypeOk {K V} (ty : dictType K V) : Prop := {
  hash_range k : in_u 32 (hashFunction ty k);
  keyDup_id f k : keyDup ty = Some f -> f k = k;
  keyCompare_eq f k1 k2 : keyCompare ty = Some f -> f k1 k2 = true <-> k1 = k2
}.

Record dictEntry (K V : Type) := DictEntry { key : K; val : option V }.
Arguments DictEntry {K V}.
Arguments key {K V}.
Arguments val {K V}.

(** [table] is [None] for the null pointer. *)
Record dictht (K V : Type) := DictHt {
  table : option (list (list (dictEntry K V)));
  size : Z;
  sizemask : Z;
  used : Z
}.
Arguments DictHt {K V}.
Arguments table {K V}.
Arguments size {K V}.
Arguments sizemask {K V}.
Arguments used {K V}.

Record dict (K V : Type) := MkDict {
  ht0 : dictht K V;
  ht1 : dictht K V;
  rehashidx : Z;
  iterators : Z
}.
Arguments MkDict {K V}.
Arguments ht0 {K V}.
Arguments ht1 {K V}.
Arguments rehashidx {K V}.
Arguments iterators {K V}.

Inductive status := DICT_OK | DICT_ERR.

(** A pointer to an entry, and the calls of the destructors. *)
Record entryp := EntryP { p_table : bool; p_idx : Z; p_pos : nat }.

Inductive event (K V : Type) := FreeKey (k : K) | FreeVal (v : option V).
Arguments FreeKey {K V}.
Arguments FreeVal {K V}.

Definition DICT_HT_INITIAL_SIZE : Z := 4.
Definition dict_force_resize_ratio : Z := 5.

Section Ops.
Context {K V : Type} `{EqDecision K} (ty : dictType K V).
(** The width of [long], 32 on Windows and 64 elsewhere, and the static
    [dict_can_resize]. *)
Context (long_bits : Z) (dict_can_resize : bool).

Implicit Types (d : dict K V) (ht : dictht K V) (e : dictEntry K V).

Definition LONG_MAX : Z := 2 ^ (long_bits - 1) - 1.

Definition dictIsRehashing d : bool := negb (rehashidx d =? -1).
Definition dictSize d : Z := used (ht0 d) + used (ht1 d).
Definition dictSlots d : Z := size (ht0 d) + size (ht1 d).
Definition dictHashKey (k : K) : Z := hashFunction ty k.

Definition dictCompareKeys (k1 k2 : K) : bool :=
  match keyCompare ty with
  | Some f => f k1 k2
  | None => bool_decide (k1 = k2)
  end.

Definition dup_key (k : K) : K := match keyDup ty with Some f => f k | None => k end.
Definition dup_val (v : V) : V := match valDup ty with Some f => f v | None => v end.

Definition _dictReset : dictht K V := DictHt None 0 0 0.

Definition _dictInit : dict K V := MkDict _dictReset _dictReset (-1) 0.

Definition dictCreate : dict K V := _dictInit.

(** The bucket a key belongs to, [h & ht.sizemask], read from the table. *)
Definition bucket ht (idx : Z) : option (list (dictEntry K V)) :=
  t ← table ht; rd t idx.

Definition set_bucket ht (idx : Z) (chain : list (dictEntry K V)) (u : Z)
  : option (dictht K V) :=
  t ← table ht; t ← wr t idx chain;
  Some (DictHt (Some t) (size ht) (sizemask ht) u).

Definition set_ht d (t : bool) ht : dict K V :=
  if t then MkDict (ht0 d) ht (rehashidx d) (iterators d)
  else MkDict ht (ht1 d) (rehashidx d) (iterators d).

Definition get_ht d (t : bool) : dictht K V := if t then ht1 d else ht0 d.

(** [_dictNextPower]; doubling from 4 below a [long] ends within 64 rounds. *)
Fixpoint next_power (fuel : nat) (i sz : Z) : option Z :=
  match fuel with
  | O => None
  | S fuel => if sz <=? i then Some i else next_power fuel (i * 2) sz
  end.

Definition _dictNextPower (sz : Z) : option Z :=
  if LONG_MAX <=? sz then Some LONG_MAX
  else next_power 64 DICT_HT_INITIAL_SIZE sz.

Definition dictExpand d (sz : Z) : option (dict K V * status) :=
  realsize ← _dictNextPower sz;
  if dictIsRehashing d || (sz <? used (ht0 d)) then Some (d, DICT_ERR)
  else
    let n := DictHt (Some (replicate (Z.to_nat realsize) [])) realsize (realsize - 1) 0 in
    match table (ht0 d) with
    | None => Some (MkDict n (ht1 d) (rehashidx d) (iterators d), DICT_OK)
    | Some _ => Some (MkDict (ht0 d) n 0 (iterators d), DICT_OK)
    end.

Definition dictResize d : option (dict K V * status) :=
  if negb dict_can_resize || dictIsRehashing d then Some (d, DICT_ERR)
  else
    let minimal := swrap 32 (used (ht0 d)) in
    let minimal := if minimal <? DICT_HT_INITIAL_SIZE then DICT_HT_INITIAL_SIZE else minimal in
    dictExpand d minimal.

(** [while(d->ht[0].table[d->rehashidx] == NULL) d->rehashidx++] *)
Fixpoint skip_empty (fuel : nat) ht (idx : Z) : option Z :=
  match fuel with
  | O => None
  | S fuel =>
      chain ← bucket ht idx;
      match chain with
      | [] => skip_empty fuel ht (idx + 1)
      | _ => Some idx
      end
  end.

(** Moving the entries of a chain to the second table, first entry first; the
    two [used] counters change with every entry. *)
Fixpoint move_chain (chain : list (dictEntry K V)) (u0 : Z) (h1 : dictht K V)
  : option (Z * dictht K V) :=
  match chain with
  | [] => Some (u0, h1)
  | de :: nextde =>
      let h := Z.land (dictHashKey (key de)) (sizemask h1) in
      c ← bucket h1 h;
      h1 ← set_bucket h1 h (de :: c) (used h1 + 1);
      move_chain nextde (u0 - 1) h1
  end.

(** The body of [while(n--)]; [inl] is the early return when the first table
    is empty. The [assert] fails when the index is out of range. *)
Definition rehash_step d : option (dict K V + dict K V) :=
  if used (ht0 d) =? 0 then
    Some (inl (MkDict (ht1 d) _dictReset (-1) (iterators d)))
  else if size (ht0 d) <=? rehashidx d then None
  else
    idx ← skip_empty (S (Z.to_nat (size (ht0 d)))) (ht0 d) (rehashidx d);
    chain ← bucket (ht0 d) idx;
    '(u0, h1) ← move_chain chain (used (ht0 d)) (ht1 d);
    h0 ← set_bucket (ht0 d) idx [] u0;
    Some (inr (MkDict h0 h1 (idx + 1) (iterators d))).

Fixpoint rehash_loop (n : nat) d : option (dict K V * bool) :=
  match n with
  | O => Some (d, true)
  | S n =>
      r ← rehash_step d;
      match r with
      | inl d => Some (d, false)
      | inr d => rehash_loop n d
      end
  end.

(** The flag is the return value: keys are left to move. *)
Definition dictRehash d (n : nat) : option (dict K V * bool) :=
  if dictIsRehashing d then rehash_loop n d else Some (d, false).

(** [dictRehashMilliseconds]: batches of 100 steps until [clock i], the time
    that has passed after batch [i], exceeds [ms]. *)
Fixpoint rehash_ms (fuel : nat) (clock : nat -> Z) (i : nat) d (ms rehashes : Z)
  : option (dict K V * Z) :=
  match fuel with
  | O => None
  | S fuel =>
      '(d, more) ← dictRehash d 100;
      if more : bool then
        if ms <? clock i then Some (d, rehashes + 100)
        else rehash_ms fuel clock (S i) d ms (rehashes + 100)
      else Some (d, rehashes)
  end.

Definition dictRehashMilliseconds (clock : nat -> Z) d (ms : Z) : option (dict K V * Z) :=
  rehash_ms (S (Z.to_nat (used (ht0 d)))) clock 0 d ms 0.

Definition _dictRehashStep d : option (dict K V) :=
  if iterators d =? 0 then fst <$> dictRehash d 1 else Some d.

Definition maybe_rehash_step d : option (dict K V) :=
  if dictIsRehashing d then _dictRehashStep d else Some d.

Definition _dictExpandIfNeeded d : option (dict K V * status) :=
  if dictIsRehashing d then Some (d, DICT_OK)
  else if size (ht0 d) =? 0 then dictExpand d DICT_HT_INITIAL_SIZE
  else if (size (ht0 d) <=? used (ht0 d)) &&
          (dict_can_resize || (dict_force_resize_ratio <? used (ht0 d) / size (ht0 d)))
  then dictExpand d (used (ht0 d) * 2)
  else Some (d, DICT_OK).

(** Walking a chain until the key compares equal. *)
Fixpoint find_chain (k : K) (chain : list (dictEntry K V)) : option nat :=
  match chain with
  | [] => None
  | he :: next => if dictCompareKeys k (key he) then Some O else S <$> find_chain k next
  end.

(** One round of the loops over the two tables. *)
Definition search_table d (t : bool) (k : K) : option (Z * option nat) :=
  let idx := Z.land (dictHashKey k) (sizemask (get_ht d t)) in
  chain ← bucket (get_ht d t) idx;
  Some (idx, find_chain k chain).

(** The slot as an [int], -1 when the key exists. *)
Definition _dictKeyIndex d (k : K) : option (dict K V * Z) :=
  '(d, st) ← _dictExpandIfNeeded d;
  match st with
  | DICT_ERR => Some (d, -1)
  | DICT_OK =>
      '(idx, found) ← search_table d false k;
      match found with
      | Some _ => Some (d, -1)
      | None =>
          if dictIsRehashing d then
            '(idx, found) ← search_table d true k;
            match found with
            | Some _ => Some (d, -1)
            | None => Some (d, swrap 32 idx)
            end
          else Some (d, swrap 32 idx)
      end
  end.

Definition dictAddRaw d (k : K) : option (dict K V * option entryp) :=
  d ← maybe_rehash_step d;
  '(d, index) ← _dictKeyIndex d k;
  if index =? -1 then Some (d, None)
  else
    let t := dictIsRehashing d in
    let ht := get_ht d t in
    chain ← bucket ht index;
    ht ← set_bucket ht index (DictEntry (dup_key k) None :: chain) (used ht + 1);
    Some (set_ht d t ht, Some (EntryP t index 0)).

Definition entry_at d (p : entryp) : option (dictEntry K V) :=
  chain ← bucket (get_ht d (p_table p)) (p_idx p);
  chain !! p_pos p.

Definition dictSetVal d (p : entryp) (v : V) : option (dict K V) :=
  let ht := get_ht d (p_table p) in
  chain ← bucket ht (p_idx p);
  e ← chain !! p_pos p;
  ht ← set_bucket ht (p_idx p) (<[p_pos p := DictEntry (key e) (Some (dup_val v))]> chain) (used ht);
  Some (set_ht d (p_table p) ht).

Definition dictAdd d (k : K) (v : V) : option (dict K V * status) :=
  '(d, entry) ← dictAddRaw d k;
  match entry with
  | None => Some (d, DICT_ERR)
  | Some p => d ← dictSetVal d p v; Some (d, DICT_OK)
  end.

Definition dictFind d (k : K) : option (dict K V * option entryp) :=
  if size (ht0 d) =? 0 then Some (d, None)
  else
    d ← maybe_rehash_step d;
    '(idx, found) ← search_table d false k;
    match found with
    | Some pos => Some (d, Some (EntryP false idx pos))
    | None =>
        if dictIsRehashing d then
          '(idx, found) ← search_table d true k;
          match found with
          | Some pos => Some (d, Some (EntryP true idx pos))
          | None => Some (d, None)
          end
        else Some (d, None)
    end.

(** The value is [None] for the null pointer. *)
Definition dictFetchValue d (k : K) : option (dict K V * option (option V)) :=
  '(d, he) ← dictFind d k;
  match he with
  | Some p => e ← entry_at d p; Some (d, Some (val e))
  | None => Some (d, None)
  end.

Definition free_val (v : option V) : list (event K V) :=
  if valDestructor ty then [FreeVal v] else [].
Definition free_key (k : K) : list (event K V) :=
  if keyDestructor ty then [FreeKey k] else [].

(** 1 when the key was added, 0 when its value was replaced, and the calls of
    the value destructor. *)
Definition dictReplace d (k : K) (v : V) : option (dict K V * Z * list (event K V)) :=
  '(d, st) ← dictAdd d k v;
  match st with
  | DICT_OK => Some (d, 1, [])
  | DICT_ERR =>
      '(d, he) ← dictFind d k;
      p ← he;
      auxentry ← entry_at d p;
      d ← dictSetVal d p v;
      Some (d, 0, free_val (val auxentry))
  end.

Definition dictReplaceRaw d (k : K) : option (dict K V * option entryp) :=
  '(d, entry) ← dictFind d k;
  match entry with
  | Some p => Some (d, Some p)
  | None => dictAddRaw d k
  end.

(** Unlinking the entry at position [pos] of the bucket the key hashes to. *)
Definition unlink d (t : bool) (idx : Z) (pos : nat) (nofree : bool)
  : option (dict K V * list (event K V)) :=
  let ht := get_ht d t in
  chain ← bucket ht idx;
  he ← chain !! pos;
  ht ← set_bucket ht idx (delete pos chain) (used ht - 1);
  Some (set_ht d t ht, if nofree then [] else free_key (key he) ++ free_val (val he)).

Definition dictGenericDelete d (k : K) (nofree : bool)
  : option (dict K V * status * list (event K V)) :=
  if size (ht0 d) =? 0 then Some (d, DICT_ERR, [])
  else
    d ← maybe_rehash_step d;
    '(idx, found) ← search_table d false k;
    match found with
    | Some pos => '(d, ev) ← unlink d false idx pos nofree; Some (d, DICT_OK, ev)
    | None =>
        if dictIsRehashing d then
          '(idx, found) ← search_table d true k;
          match found with
          | Some pos => '(d, ev) ← unlink d true idx pos nofree; Some (d, DICT_OK, ev)
          | None => Some (d, DICT_ERR, [])
          end
        else Some (d, DICT_ERR, [])
    end.

Definition dictDelete d (k : K) := dictGenericDelete d k false.
Definition dictDeleteNoFree d (k : K) := dictGenericDelete d k true.

(** [_dictClear] walks the buckets until [used] is 0. *)
Fixpoint clear_buckets (bs : list (list (dictEntry K V))) (u : Z) : list (event K V) :=
  match bs with
  | [] => []
  | c :: bs =>
      if 0 <? u then
        (c ≫= fun e => free_key (key e) ++ free_val (val e)) ++ clear_buckets bs (u - zlen c)
      else []
  end.

Definition _dictClear ht : dictht K V * list (event K V) :=
  (_dictReset,
   match table ht with
   | Some t => clear_buckets (take (Z.to_nat (size ht)) t) (used ht)
   | None => []
   end).

Definition dictEmpty d : dict K V * list (event K V) :=
  let '(h0, ev0) := _dictClear (ht0 d) in
  let '(h1, ev1) := _dictClear (ht1 d) in
  (MkDict h0 h1 (-1) 0, ev0 ++ ev1).

Definition dictRelease d : list (event K V) :=
  snd (_dictClear (ht0 d)) ++ snd (_dictClear (ht1 d)).

End Ops.

Arguments _dictReset {K V}.

(** ** Well-formed dictionaries *)
Section Invariant.
Context {K V : Type} `{Countable K} (ty : dictType K V) `{!DictTypeOk ty}.
Implicit Types (d : dict K V) (ht : dictht K V) (e : dictEntry K V).

Definition ht_entries ht : list (dictEntry K V) :=
  match table ht with Some t => concat t | None => [] end.

Definition entries d : list (dictEntry K V) := ht_entries (ht0 d) ++ ht_entries (ht1 d).

(** The finite map a dictionary stands for. *)
Definition to_map d : gmap K (option V) :=
  list_to_map ((fun e => (key e, val e)) <$> entries d).

Definition max_slots : Z := 2 ^ 30.

(** A table is the null pointer, or has a power of two of buckets and every
    entry sits in the bucket its hash selects. *)
Definition wf_ht ht : Prop :=
  match table ht with
  | None => ht = _dictReset
  | Some t =>
      (exists k, 0 <= k /\ size ht = 2 ^ k) /\ size ht <= max_slots /\
      zlen t = size ht /\ sizemask ht = size ht - 1 /\ used ht = zlen (concat t) /\
      (forall i c e, t !! i = Some c -> e ∈ c ->
         Z.land (hashFunction ty (key e)) (sizemask ht) = Z.of_nat i)
  end.

Record wf d : Prop := Wf {
  wf_ht0 : wf_ht (ht0 d);
  wf_ht1 : wf_ht (ht1 d);
  wf_keys : NoDup (key <$> entries d);
  wf_state :
    (rehashidx d = -1 /\ ht1 d = _dictReset) \/
    (0 <= rehashidx d <= size (ht0 d) /\ is_Some (table (ht0 d)) /\ is_Some (table (ht1 d)) /\
     forall i, 0 <= i < rehashidx d -> bucket (ht0 d) i = Some [])
}.

Lemma bucket_split ht i c :
  bucket ht i = Some c ->
  exists a b, table ht = Some (a ++ c :: b) /\ i = zlen a.
Proof.
  unfold bucket. intros (t & -> & [Hi Ht]%rd_Some)%bind_inv.
  apply list_elem_of_split_length in Ht as (a & b & -> & Hl). exists a, b. split; [done|lia].
Qed.

Lemma bucket_app a c b sz m u i :
  i = zlen a -> bucket (DictHt (Some (a ++ c :: b)) sz m u) i = Some (c : list (dictEntry K V)).
Proof. intros. unfold bucket. cbn. by apply rd_app. Qed.

(** Replacing one chain of a table. *)
Lemma set_bucket_spec ht i c c' u :
  wf_ht ht -> bucket ht i = Some c ->
  (forall e, e ∈ c' -> Z.land (hashFunction ty (key e)) (sizemask ht) = i) ->
  u = used ht - zlen c + zlen c' ->
  exists ht' l, set_bucket ht i c' u = Some ht' /\ wf_ht ht' /\
    size ht' = size ht /\ sizemask ht' = sizemask ht /\ used ht' = u /\
    is_Some (table ht') /\
    ht_entries ht ≡ₚ c ++ l /\ ht_entries ht' ≡ₚ c' ++ l /\
    bucket ht' i = Some c' /\ (forall j, j <> i -> bucket ht' j = bucket ht j).
Proof.
  intros Hwf Hb Hc' ->. destruct (bucket_split _ _ _ Hb) as (a & b & Ht & ->).
  unfold set_bucket. rewrite Ht. osimpl. rewrite wr_app by done. osimpl.
  unfold wf_ht in Hwf. rewrite Ht in Hwf. destruct Hwf as (Hp & Hm & Hl & Hmask & Hu & Hloc).
  rewrite concat_app, concat_cons, !length_app in Hu. rewrite length_app in Hl. simpl in Hl.
  eexists _, (concat a ++ concat b). split; [done|]. cbn [size sizemask used table].
  unfold ht_entries, wf_ht. cbn [size sizemask used table]. rewrite Ht.
  rewrite !concat_app, !concat_cons, !length_app. cbn [length].
  split_and!; try done; try lia.
  - intros j x e Hj He. destruct (decide (j = length a)) as [->|Hne].
    + rewrite list_lookup_middle in Hj by done. injection Hj as <-. by apply Hc'.
    + apply (Hloc j x e); [|done]. destruct (decide (j < length a)%nat).
      * by rewrite lookup_app_l in Hj |- * by done.
      * rewrite lookup_app_r in Hj |- * by lia.
        by replace (j - length a)%nat with (S (j - length a - 1)) in Hj |- * by lia.
  - solve_Permutation.
  - solve_Permutation.
  - by apply bucket_app.
  - intros j Hj. unfold bucket. cbn [table]. rewrite Ht. osimpl. unfold rd.
    destruct (Z.ltb_spec j 0); [done|].
    destruct (decide (Z.to_nat j < length a)%nat).
    + by rewrite !lookup_app_l by done.
    + rewrite !lookup_app_r by lia.
      by replace (Z.to_nat j - length a)%nat with (S (Z.to_nat j - length a - 1)) by lia.
Qed.

(** The index of a key is a slot of the table. *)
Lemma hash_slot ht t k :
  wf_ht ht -> table ht = Some t ->
  0 <= Z.land (hashFunction ty k) (sizemask ht) < size ht.
Proof.
  unfold wf_ht. intros Hwf Ht. rewrite Ht in Hwf.
  destruct Hwf as ((p & Hp & Hs) & _ & _ & -> & _). rewrite Hs, land_ones_wrap by done.
  by apply wrap_range.
Qed.

Lemma bucket_slot ht t i :
  wf_ht ht -> table ht = Some t -> 0 <= i < size ht -> exists c, bucket ht i = Some c.
Proof.
  unfold wf_ht. intros Hwf Ht Hi. unfold bucket. rewrite Ht in *.
  destruct Hwf as (_ & _ & Hl & _). osimpl. apply rd_in. lia.
Qed.

Lemma bucket_entries ht i c e : bucket ht i = Some c -> e ∈ c -> e ∈ ht_entries ht.
Proof.
  intros (a & b & Ht & _)%bucket_split He. unfold ht_entries.
  rewrite Ht, concat_app, concat_cons. set_solver.
Qed.

Lemma entry_bucket ht c e :
  wf_ht ht -> e ∈ ht_entries ht ->
  bucket ht (Z.land (hashFunction ty (key e)) (sizemask ht)) = Some c -> e ∈ c.
Proof.
  unfold wf_ht, ht_entries, bucket. destruct (table ht) as [t|]; [|set_solver].
  intros (_ & _ & _ & _ & _ & Hloc) He. osimpl.
  rewrite list_elem_of_In, in_concat in He. destruct He as (c0 & Hc0 & He).
  apply list_elem_of_In in He, Hc0.
  apply list_elem_of_lookup in Hc0 as [i Hi].
  rewrite (Hloc _ _ _ Hi He), rd_nat, Hi. congruence.
Qed.

Lemma compare_eq k1 k2 : dictCompareKeys ty k1 k2 = true <-> k1 = k2.
Proof.
  unfold dictCompareKeys. destruct (keyCompare ty) as [f|] eqn:E.
  - by apply keyCompare_eq.
  - by rewrite bool_decide_eq_true.
Qed.

Lemma find_chain_Some k c pos :
  find_chain ty k c = Some pos -> exists e, c !! pos = Some e /\ key e = k.
Proof.
  revert pos. induction c as [|e c IH]; intros pos; simpl; [done|].
  destruct (dictCompareKeys ty k (key e)) eqn:Hk.
  - intros [= <-]. apply compare_eq in Hk. eauto.
  - destruct (find_chain ty k c) as [p|]; [|done]. intros [= <-]. by apply IH.
Qed.

Lemma find_chain_None k c e : find_chain ty k c = None -> e ∈ c -> key e <> k.
Proof.
  induction c as [|e' c IH]; simpl; [set_solver|].
  destruct (dictCompareKeys ty k (key e')) eqn:Hk; [done|].
  destruct (find_chain ty k c) eqn:Hf; [done|].
  intros _ [->|He]%elem_of_cons; [|by apply IH].
  intros E. symmetry in E. apply compare_eq in E. congruence.
Qed.

(** Searching one table: it finds the entry with the key or shows that the
    table has none. *)
Lemma search_table_spec d t k :
  wf_ht (get_ht d t) -> is_Some (table (get_ht d t)) ->
  exists idx found c, search_table ty d t k = Some (idx, found) /\
    idx = Z.land (hashFunction ty k) (sizemask (get_ht d t)) /\
    0 <= idx < size (get_ht d t) /\
    bucket (get_ht d t) idx = Some c /\
    match found with
    | Some pos => exists e, c !! pos = Some e /\ key e = k
    | None => k ∉ (key <$> ht_entries (get_ht d t))
    end.
Proof.
  intros Hwf [tb Ht]. pose proof (hash_slot _ _ k Hwf Ht) as Hs.
  destruct (bucket_slot _ _ _ Hwf Ht Hs) as [c Hc].
  unfold search_table, dictHashKey. rewrite Hc. osimpl.
  eexists _, _, c. split; [done|]. split_and!; [done|lia|lia|done|].
  destruct (find_chain ty k c) eqn:Hf; [by apply find_chain_Some|].
  intros (e & -> & He)%list_elem_of_fmap. by eapply find_chain_None; [exact Hf|eapply entry_bucket|].
Qed.

(** ** Rehashing *)
Lemma move_chain_spec c : forall u0 h1,
  wf_ht h1 -> is_Some (table h1) ->
  exists h1', move_chain ty c u0 h1 = Some (u0 - zlen c, h1') /\ wf_ht h1' /\
    is_Some (table h1') /\ size h1' = size h1 /\ used h1' = used h1 + zlen c /\
    ht_entries h1' ≡ₚ c ++ ht_entries h1.
Proof.
  induction c as [|e c IH]; intros u0 h1 Hwf Ht; cbn [move_chain].
  { exists h1. cbn [length app]. rewrite Z.sub_0_r, Z.add_0_r. done. }
  unfold dictHashKey. set (i := Z.land _ _). destruct (Ht) as [tb Htb].
  destruct (bucket_slot h1 tb i) as [c0 Hc0]; [done|done|by eapply hash_slot|].
  rewrite Hc0. osimpl.
  destruct (set_bucket_spec h1 i c0 (e :: c0) (used h1 + 1))
    as (h2 & l & -> & Hwf2 & Hs2 & _ & Hu2 & Ht2 & Hp1 & Hp2 & _); try done.
  { intros e' [->|He']%elem_of_cons; [done|].
    unfold wf_ht in Hwf. rewrite Htb in Hwf. destruct Hwf as (_ & _ & _ & _ & _ & Hloc).
    unfold bucket in Hc0. rewrite Htb in Hc0. simpl in Hc0.
    apply rd_Some in Hc0 as [Hi Hc0]. rewrite (Hloc _ _ _ Hc0 He'). lia. }
  { simpl. lia. }
  osimpl. destruct (IH (u0 - 1) h2 Hwf2 Ht2) as (h3 & -> & Hwf3 & Ht3 & Hs3 & Hu3 & Hp3).
  exists h3. split_and!; try done.
  - simpl length. result_eq.
  - congruence.
  - simpl length. lia.
  - rewrite Hp3, Hp2, Hp1. simpl. solve_Permutation.
Qed.

Lemma used_entries ht : wf_ht ht -> used ht = zlen (ht_entries ht).
Proof.
  unfold wf_ht, ht_entries. destruct (table ht); [naive_solver|]. by intros ->.
Qed.

(** With entries left there is a bucket to move at or after [idx]. *)
Lemma bucket_left ht idx :
  wf_ht ht -> ht_entries ht <> [] -> (forall i, 0 <= i < idx -> bucket ht i = Some []) ->
  idx < size ht.
Proof.
  intros Hwf Hne He. destruct (ht_entries ht) as [|e l] eqn:El; [done|].
  assert (e ∈ ht_entries ht) as Hin by (rewrite El; set_solver).
  destruct (table ht) as [tb|] eqn:Htb.
  2:{ unfold ht_entries in Hin. rewrite Htb in Hin. set_solver. }
  pose proof (hash_slot ht tb (key e) Hwf Htb) as Hslot.
  destruct (bucket_slot _ _ _ Hwf Htb Hslot) as [c Hc].
  pose proof (entry_bucket _ _ _ Hwf Hin Hc) as Hec.
  destruct (Z.lt_ge_cases idx (size ht)) as [|Hge]; [done|].
  rewrite He in Hc by lia. injection Hc as <-. set_solver.
Qed.

Lemma skip_empty_spec fuel : forall ht idx,
  wf_ht ht -> is_Some (table ht) -> ht_entries ht <> [] ->
  0 <= idx -> (forall i, 0 <= i < idx -> bucket ht i = Some []) ->
  size ht - idx < Z.of_nat fuel ->
  exists idx' c, skip_empty fuel ht idx = Some idx' /\ idx <= idx' < size ht /\
    bucket ht idx' = Some c /\ c <> [] /\
    (forall i, 0 <= i < idx' -> bucket ht i = Some []).
Proof.
  induction fuel as [|fuel IH]; intros ht idx Hwf Ht Hne Hi He Hf.
  { pose proof (bucket_left _ _ Hwf Hne He). lia. }
  pose proof (bucket_left _ _ Hwf Hne He). cbn [skip_empty]. destruct (Ht) as [tb Htb].
  destruct (bucket_slot ht tb idx) as [c' Hc']; [done..|]. rewrite Hc'. osimpl.
  destruct c' as [|e' c'].
  - destruct (IH ht (idx + 1)) as (i' & c & E & Hi' & Hrest); try done; try lia.
    + intros i Hii. destruct (decide (i = idx)) as [->|]; [done|]. apply He. lia.
    + exists i', c. split; [done|]. split; [lia|done].
  - exists idx, (e' :: c'). split_and!; try done; lia.
Qed.

Lemma wf_rehashing d :
  wf d -> dictIsRehashing d = true ->
  0 <= rehashidx d <= size (ht0 d) /\ is_Some (table (ht0 d)) /\ is_Some (table (ht1 d)) /\
  (forall i, 0 <= i < rehashidx d -> bucket (ht0 d) i = Some []).
Proof.
  unfold dictIsRehashing. intros [_ _ _ [[-> _]|Hs]] Hr; [done|]. done.
Qed.

Lemma wf_not_rehashing d :
  wf d -> dictIsRehashing d = false -> rehashidx d = -1 /\ ht1 d = _dictReset.
Proof.
  unfold dictIsRehashing. intros [_ _ _ [Hs|[Hi _]]] Hr; [done|].
  apply negb_false_iff, Z.eqb_eq in Hr. lia.
Qed.

Lemma keys_perm d d' :
  entries d ≡ₚ entries d' -> NoDup (key <$> entries d) -> NoDup (key <$> entries d').
Proof. intros Hp Hn. by rewrite <- Hp. Qed.

(** One step keeps every entry. It either finishes, the first table being
    empty, or moves at least one entry. *)
Lemma rehash_step_spec d :
  wf d -> dictIsRehashing d = true ->
  exists r, rehash_step ty d = Some r /\
  match r with
  | inl d' => wf d' /\ entries d' ≡ₚ entries d /\ iterators d' = iterators d /\
              dictIsRehashing d' = false /\ ht0 d' = ht1 d /\ used (ht0 d) = 0
  | inr d' => wf d' /\ entries d' ≡ₚ entries d /\ iterators d' = iterators d /\
              dictIsRehashing d' = true /\ size (ht0 d') = size (ht0 d) /\
              size (ht1 d') = size (ht1 d) /\
              0 <= used (ht0 d') < used (ht0 d) /\ rehashidx d < rehashidx d'
  end.
Proof.
  intros Hwf Hr. destruct (wf_rehashing _ Hwf Hr) as (Hidx & Ht0 & Ht1 & He).
  destruct Hwf as [Hw0 Hw1 Hk _]. pose proof (used_entries _ Hw0) as Hu0.
  unfold rehash_step. destruct (Z.eqb_spec (used (ht0 d)) 0) as [Hz|Hz].
  - assert (ht_entries (ht0 d) = []) as E0.
    { destruct (ht_entries (ht0 d)); [done|]. simpl in Hu0. lia. }
    eexists. split; [done|]. cbn [ht0 ht1 rehashidx iterators].
    assert (entries (MkDict (ht1 d) _dictReset (-1) (iterators d)) = entries d) as Ee.
    { unfold entries. cbn [ht0 ht1]. rewrite E0. by rewrite app_nil_r. }
    rewrite Ee. split_and!; try done. constructor; cbn [ht0 ht1 rehashidx]; try done.
    + by rewrite Ee.
    + by left.
  - assert (ht_entries (ht0 d) <> []) as Hne by (intros E; rewrite E in Hu0; simpl in Hu0; lia).
    pose proof (bucket_left _ _ Hw0 Hne He) as Hlt.
    rewrite (proj2 (Z.leb_gt _ _)) by lia.
    destruct (skip_empty_spec (S (Z.to_nat (size (ht0 d)))) (ht0 d) (rehashidx d))
      as (i & c & -> & Hi & Hc & Hcne & Hbelow); try done; try lia.
    osimpl. rewrite Hc. osimpl.
    destruct (move_chain_spec c (used (ht0 d)) (ht1 d)) as (h1 & -> & Hwh1 & Hth1 & Hsz1 & _ & Hp1);
      [done..|].
    osimpl.
    destruct (set_bucket_spec (ht0 d) i c [] (used (ht0 d) - zlen c))
      as (h0 & l & -> & Hwh0 & Hsz0 & _ & Hu & Hth0 & Hpa & Hpb & Hbi & Hbo); try done.
    { set_solver. }
    { simpl. lia. }
    osimpl. eexists. split; [done|]. cbn [ht0 ht1 rehashidx iterators].
    set (d' := MkDict h0 h1 (i + 1) (iterators d)).
    assert (entries d' ≡ₚ entries d) as Hp.
    { unfold entries, d'. cbn [ht0 ht1]. rewrite Hp1, Hpa, Hpb. solve_Permutation. }
    assert (0 < zlen c) by (destruct c; [done|simpl; lia]).
    rewrite Hu. split_and!; try done; try lia.
    + constructor; cbn [ht0 ht1 rehashidx d']; try done.
      * by rewrite Hp.
      * right. split_and!; try done; try lia.
        intros j Hj. destruct (decide (j = i)) as [->|Hne']; [done|].
        rewrite Hbo by done. apply Hbelow. lia.
    + unfold dictIsRehashing. cbn. rewrite (proj2 (Z.eqb_neq _ _)) by lia. done.
    + rewrite Hpa in Hu0. rewrite length_app in Hu0. lia.
Qed.

Lemma rehash_loop_spec n : forall d,
  wf d -> dictIsRehashing d = true ->
  exists d' more, rehash_loop ty n d = Some (d', more) /\ wf d' /\
    entries d' ≡ₚ entries d /\ iterators d' = iterators d /\ is_Some (table (ht0 d')) /\
    more = dictIsRehashing d' /\ (used (ht0 d) < Z.of_nat n -> more = false) /\
    (more = true -> used (ht0 d') + Z.of_nat n <= used (ht0 d)).
Proof.
  induction n as [|n IH]; intros d Hwf Hr; cbn [rehash_loop];
    destruct (wf_rehashing d Hwf Hr) as (_ & Ht0 & Ht1 & _).
  { exists d, true. pose proof (used_entries _ (wf_ht0 _ Hwf)). split_and!; try done; lia. }
  destruct (rehash_step_spec d Hwf Hr) as ([d1|d1] & -> & Hd1); osimpl.
  - destruct Hd1 as (? & ? & ? & ? & E & _). exists d1, false. rewrite E. done.
  - destruct Hd1 as (Hwf1 & Hp1 & Hit1 & Hr1 & _ & _ & Hu & _).
    destruct (IH d1 Hwf1 Hr1) as (d2 & more & -> & Hwf2 & Hp2 & Hit2 & Ht2 & Hm & Hfin & Hdec).
    exists d2, more. split_and!; try done.
    + by rewrite Hp2.
    + congruence.
    + intros. apply Hfin. lia.
    + intros Hmore. specialize (Hdec Hmore). lia.
Qed.

Lemma dictRehash_spec d n :
  wf d ->
  exists d' more, dictRehash ty d n = Some (d', more) /\ wf d' /\
    entries d' ≡ₚ entries d /\ iterators d' = iterators d /\
    (is_Some (table (ht0 d)) -> is_Some (table (ht0 d'))) /\
    more = dictIsRehashing d' /\ (used (ht0 d) < Z.of_nat n -> more = false) /\
    (more = true -> used (ht0 d') + Z.of_nat n <= used (ht0 d)).
Proof.
  intros Hwf. unfold dictRehash. destruct (dictIsRehashing d) eqn:Hr.
  - destruct (rehash_loop_spec n d Hwf Hr) as (d' & more & ?). exists d', more. naive_solver.
  - exists d, false. done.
Qed.

Lemma maybe_rehash_step_spec d :
  wf d ->
  exists d', maybe_rehash_step ty d = Some d' /\ wf d' /\ entries d' ≡ₚ entries d /\
    iterators d' = iterators d /\ (is_Some (table (ht0 d)) -> is_Some (table (ht0 d'))).
Proof.
  intros Hwf. unfold maybe_rehash_step, _dictRehashStep.
  destruct (dictIsRehashing d); [|by eexists].
  destruct (iterators d =? 0); [|by eexists].
  destruct (dictRehash_spec d 1 Hwf) as (d' & more & -> & Hd). osimpl. cbn. naive_solver.
Qed.

(** ** The map of a dictionary *)
Lemma to_map_lookup d k o :
  NoDup (key <$> entries d) ->
  to_map d !! k = Some o <-> DictEntry k o ∈ entries d.
Proof.
  intros Hn. unfold to_map. rewrite <- elem_of_list_to_map.
  - rewrite list_elem_of_fmap. split.
    + intros ([k' o'] & [= -> ->] & He). done.
    + intros He. by exists (DictEntry k o).
  - rewrite <- list_fmap_compose. exact Hn.
Qed.

Lemma to_map_perm d d' :
  NoDup (key <$> entries d) -> entries d' ≡ₚ entries d -> to_map d' = to_map d.
Proof.
  intros Hn Hp. unfold to_map. symmetry. apply list_to_map_proper.
  - by rewrite <- list_fmap_compose.
  - by rewrite Hp.
Qed.

Lemma to_map_None d k : to_map d !! k = None <-> k ∉ (key <$> entries d).
Proof.
  unfold to_map. rewrite <- not_elem_of_list_to_map, <- list_fmap_compose. done.
Qed.

Lemma to_map_cons d d' k o :
  NoDup (key <$> entries d') -> entries d' ≡ₚ DictEntry k o :: entries d ->
  to_map d' = <[k := o]> (to_map d).
Proof.
  intros Hn Hp. unfold to_map.
  rewrite <- (list_to_map_proper ((fun e => (key e, val e)) <$> DictEntry k o :: entries d)).
  - done.
  - rewrite <- list_fmap_compose. by rewrite <- Hp.
  - by rewrite Hp.
Qed.

Lemma chain_loc ht i c e :
  wf_ht ht -> bucket ht i = Some c -> e ∈ c ->
  Z.land (hashFunction ty (key e)) (sizemask ht) = i.
Proof.
  intros Hwf Hb He. destruct (bucket_split _ _ _ Hb) as (a & b & Ht & ->).
  unfold wf_ht in Hwf. rewrite Ht in Hwf. destruct Hwf as (_ & _ & _ & _ & _ & Hloc).
  by apply (Hloc (length a) c e); [apply list_lookup_middle|].
Qed.

(** Replacing a chain of one of the two tables of a dictionary. *)
Lemma update_chain d t i c c' u :
  wf d -> (t = true -> dictIsRehashing d = true) -> bucket (get_ht d t) i = Some c ->
  (forall e, e ∈ c' -> Z.land (hashFunction ty (key e)) (sizemask (get_ht d t)) = i) ->
  (t = false -> dictIsRehashing d = true -> c = [] -> c' = []) ->
  u = used (get_ht d t) - zlen c + zlen c' ->
  exists ht' l, set_bucket (get_ht d t) i c' u = Some ht' /\
    entries d ≡ₚ c ++ l /\ entries (set_ht d t ht') ≡ₚ c' ++ l /\
    (NoDup (key <$> c' ++ l) -> wf (set_ht d t ht')) /\
    bucket (get_ht (set_ht d t ht') t) i = Some c'.
Proof.
  intros Hwf Htr Hb Hc' Hemp Hu.
  assert (wf_ht (get_ht d t)) as Hwht by (destruct t; [apply wf_ht1|apply wf_ht0]; done).
  destruct (set_bucket_spec _ i c c' u Hwht Hb Hc' Hu)
    as (ht' & l & E & Hw' & Hsz & _ & _ & Ht' & Hp & Hp' & Hbi & Hbo).
  exists ht', (l ++ ht_entries (get_ht d (negb t))). split; [done|].
  assert (entries (set_ht d t ht') ≡ₚ c' ++ l ++ ht_entries (get_ht d (negb t))) as Hpe'.
  { unfold entries. destruct t; cbn [set_ht get_ht ht0 ht1 negb] in *; rewrite Hp';
      solve_Permutation. }
  split_and!.
  - unfold entries. destruct t; cbn [get_ht negb] in *; rewrite Hp; solve_Permutation.
  - done.
  - intros Hn. destruct (Hwf) as [Hw0 Hw1 _ Hst].
    constructor.
    + by destruct t.
    + by destruct t.
    + by rewrite Hpe'.
    + destruct t; cbn [set_ht get_ht ht0 ht1 rehashidx] in *.
      * right. destruct (wf_rehashing d Hwf (Htr eq_refl)) as (? & ? & ? & ?). done.
      * destruct Hst as [Hst|(Hi & _ & Ht1 & Hbelow)]; [by left|]. right.
        rewrite Hsz. split_and!; try done; try lia.
        intros j Hj. destruct (decide (j = i)) as [->|]; [|rewrite Hbo by done; auto].
        rewrite Hbi. f_equal. apply Hemp; [done| |].
        -- unfold dictIsRehashing. rewrite (proj2 (Z.eqb_neq _ _)) by lia. done.
        -- rewrite Hbelow in Hb by done. congruence.
  - by destruct t.
Qed.

(** ** Growing *)
Lemma next_power_spec fuel : forall a sz,
  0 <= a <= 30 -> sz <= 2 ^ 30 -> 30 - a < Z.of_nat fuel ->
  exists b, next_power fuel (2 ^ a) sz = Some (2 ^ b) /\ 0 <= b <= 30 /\ sz <= 2 ^ b.
Proof.
  induction fuel as [|fuel IH]; intros a sz Ha Hs Hf; [lia|]. cbn [next_power].
  destruct (Z.leb_spec sz (2 ^ a)); [by exists a|].
  replace (2 ^ a * 2) with (2 ^ (a + 1)) by (rewrite Z.pow_add_r by lia; lia).
  destruct (decide (a = 30)) as [->|]; [lia|]. apply IH; lia.
Qed.


Lemma concat_replicate_nil {A} n : concat (replicate n ([] : list A)) = [].
Proof. induction n; done. Qed.

Lemma wf_ht_fresh b :
  0 <= b <= 30 ->
  wf_ht (DictHt (Some (replicate (Z.to_nat (2 ^ b)) [])) (2 ^ b) (2 ^ b - 1) 0).
Proof.
  intros Hb. assert (0 < 2 ^ b) by lia.
  assert (2 ^ b <= 2 ^ 30) by (apply Z.pow_le_mono_r; lia).
  unfold wf_ht. cbn [table size sizemask used].
  rewrite concat_replicate_nil, length_replicate. split_and!; try done; try lia.
  - exists b. split; [lia|done].
  - intros i c e [-> _]%lookup_replicate. set_solver.
Qed.

Lemma wf_slots ht : wf_ht ht -> size ht = 0 <-> table ht = None.
Proof.
  unfold wf_ht. destruct (table ht) as [t|]; [|by intros ->].
  intros ((k & Hk & ->) & _). split; [|done]. lia.
Qed.

(** ** Lookups and updates *)
Lemma entries_keys d : key <$> entries d = (key <$> ht_entries (ht0 d)) ++ (key <$> ht_entries (ht1 d)).
Proof. unfold entries. by rewrite fmap_app. Qed.

Lemma not_rehashing_entries d :
  wf d -> dictIsRehashing d = false -> ht_entries (ht1 d) = [].
Proof. intros Hwf Hr. destruct (wf_not_rehashing _ Hwf Hr) as [_ ->]. done. Qed.

Lemma bucket_key ht i c pos k :
  bucket ht i = Some c -> (exists e, c !! pos = Some e /\ key e = k) ->
  k ∈ key <$> ht_entries ht.
Proof.
  intros Hb (e & Hce & <-). apply list_elem_of_fmap. exists e. split; [done|].
  eapply bucket_entries; [done|]. by eapply list_elem_of_lookup_2.
Qed.

Lemma dup_key_id k : dup_key ty k = k.
Proof. unfold dup_key. destruct (keyDup ty) eqn:E; [|done]. by eapply keyDup_id. Qed.

Definition small d : Prop := dictSize d <= 2 ^ 29.

Lemma used_size d : wf d -> dictSize d = zlen (entries d).
Proof.
  intros [H0 H1 _ _]. unfold dictSize, entries.
  rewrite (used_entries _ H0), (used_entries _ H1), length_app. lia.
Qed.

Lemma small_used0 d d' : wf d -> wf d' -> small d -> entries d' ≡ₚ entries d -> used (ht0 d') <= 2 ^ 29.
Proof.
  intros Hw Hw' Hs Hp. unfold small in Hs. rewrite used_size in Hs by done.
  rewrite <- Hp in Hs. rewrite (used_entries _ (wf_ht0 _ Hw')).
  unfold entries in Hs. rewrite length_app in Hs. lia.
Qed.

Lemma wf_get_ht d t : wf d -> wf_ht (get_ht d t).
Proof. intros Hwf. destruct t; [by apply wf_ht1|by apply wf_ht0]. Qed.

(** Setting the value of an entry. *)
Lemma dictSetVal_spec d p k o v :
  wf d -> (p_table p = true -> dictIsRehashing d = true) ->
  entry_at d p = Some (DictEntry k o) ->
  exists d' l, dictSetVal ty d p v = Some d' /\ wf d' /\ iterators d' = iterators d /\
    entries d ≡ₚ DictEntry k o :: l /\
    entries d' ≡ₚ DictEntry k (Some (dup_val ty v)) :: l.
Proof.
  unfold entry_at, dictSetVal. intros Hwf Htr (c & Hc & Hce)%bind_inv.
  rewrite Hc. osimpl. rewrite Hce. osimpl. cbn [key].
  set (e' := DictEntry k (Some (dup_val ty v))).
  assert (wf_ht (get_ht d (p_table p))) as Hwh by (by apply wf_get_ht).
  assert (p_pos p < length c)%nat as Hlt by (by eapply lookup_lt_Some).
  destruct (update_chain d (p_table p) (p_idx p) c (<[p_pos p := e']> c)
              (used (get_ht d (p_table p))))
    as (ht' & l & -> & Hpa & Hpb & Hwf' & _); try done.
  { intros e [j Hj]%list_elem_of_lookup.
    apply list_lookup_insert_Some in Hj as [(_ & <- & _)|[_ He%list_elem_of_lookup_2]].
    - apply (chain_loc _ _ c (DictEntry k o)); [done..|]. by eapply list_elem_of_lookup_2.
    - by eapply chain_loc. }
  { intros _ _ ->. done. }
  { rewrite length_insert. lia. }
  osimpl.
  assert (c ≡ₚ DictEntry k o :: delete (p_pos p) c) as Hd by (by apply delete_Permutation).
  assert (<[p_pos p := e']> c ≡ₚ e' :: delete (p_pos p) c) as Hi.
  { rewrite (delete_Permutation _ (p_pos p) e') by (by apply list_lookup_insert_eq).
    f_equiv. rewrite !delete_take_drop, take_insert_ge, drop_insert_lt by lia. done. }
  eexists _, (delete (p_pos p) c ++ l). split; [done|].
  split_and!.
  - apply Hwf'. rewrite Hi, fmap_app, fmap_cons. pose proof (wf_keys _ Hwf) as Hn.
    rewrite Hpa, Hd, fmap_app, fmap_cons in Hn. done.
  - by destruct (p_table p).
  - rewrite Hpa. exact (Permutation_app_tail l Hd).
  - rewrite Hpb. exact (Permutation_app_tail l Hi).
Qed.

(** ** Finding an entry *)
Definition holds d (p : entryp) k o : Prop :=
  entry_at d p = Some (DictEntry k o) /\ (p_table p = true -> dictIsRehashing d = true).

(** The search through both tables that [dictFind] and [dictGenericDelete]
    make, and what it finds. *)
Definition locate d k : option (option entryp) :=
  '(idx, found) ← search_table ty d false k;
  match found with
  | Some pos => Some (Some (EntryP false idx pos))
  | None =>
      if dictIsRehashing d then
        '(idx, found) ← search_table ty d true k;
        Some (fmap (M:=option) (EntryP true idx) found)
      else Some None
  end.

Lemma search_holds d t k i c pos :
  bucket (get_ht d t) i = Some c -> (exists e, c !! pos = Some e /\ key e = k) ->
  (t = true -> dictIsRehashing d = true) -> exists o, holds d (EntryP t i pos) k o.
Proof.
  intros Hc ([k' o] & He & <-) Ht. exists o. split; [|done].
  unfold entry_at. cbn [p_table p_idx p_pos]. rewrite Hc. done.
Qed.

Lemma locate_spec d k :
  wf d -> is_Some (table (ht0 d)) ->
  exists r, locate d k = Some r /\
    match r with
    | Some p => exists o, holds d p k o
    | None => k ∉ (key <$> entries d)
    end.
Proof.
  intros Hwf Ht0. unfold locate.
  destruct (search_table_spec d false k) as (i & f & c & -> & _ & _ & Hc & Hf);
    [by apply wf_get_ht|done|]. osimpl.
  destruct f as [pos|]; [eexists; split; [done|]; by eapply search_holds|].
  destruct (dictIsRehashing d) eqn:Hr.
  - destruct (wf_rehashing _ Hwf Hr) as (_ & _ & Ht1 & _).
    destruct (search_table_spec d true k) as (i' & f' & c' & -> & _ & _ & Hc' & Hf');
      [by apply wf_get_ht|done|]. osimpl. eexists. split; [done|].
    destruct f' as [pos|]; [by eapply search_holds|].
    cbn. rewrite entries_keys, elem_of_app. cbn [get_ht] in *. naive_solver.
  - eexists. split; [done|]. rewrite entries_keys, elem_of_app.
    rewrite (not_rehashing_entries _ Hwf Hr). cbn [get_ht] in *. set_solver.
Qed.

Lemma wf_empty d : wf d -> size (ht0 d) = 0 -> entries d = [].
Proof.
  intros Hwf Hz. assert (table (ht0 d) = None) as Ht by (by apply wf_slots; [apply wf_ht0|]).
  unfold entries, ht_entries. rewrite Ht.
  destruct (wf_state _ Hwf) as [[_ ->]|(_ & [? E] & _)]; [done|congruence].
Qed.

Lemma wf_table0 d : wf d -> size (ht0 d) <> 0 -> is_Some (table (ht0 d)).
Proof.
  intros Hwf Hz. destruct (table (ht0 d)) eqn:Ht; [done|].
  apply wf_slots in Ht; [done|]. by apply wf_ht0.
Qed.

Lemma dictFind_spec d k :
  wf d ->
  exists d' p, dictFind ty d k = Some (d', p) /\ wf d' /\ entries d' ≡ₚ entries d /\
    iterators d' = iterators d /\
    match p with
    | None => k ∉ (key <$> entries d)
    | Some p => exists o, holds d' p k o
    end.
Proof.
  intros Hwf. unfold dictFind. destruct (Z.eqb_spec (size (ht0 d)) 0) as [Hz|Hz].
  { exists d, None. split_and!; try done. rewrite wf_empty by done. set_solver. }
  destruct (maybe_rehash_step_spec d Hwf) as (d1 & -> & Hwf1 & Hp1 & Hit1 & Ht1). osimpl.
  destruct (locate_spec d1 k Hwf1) as (r & E & Hr); [by apply Ht1, wf_table0|].
  exists d1, r. split_and!; try done; [|destruct r; [done|by rewrite <- Hp1]].
  unfold locate in E. destruct (search_table ty d1 false k) as [[i [pos|]]|]; simpl in *;
    [congruence| |done].
  destruct (dictIsRehashing d1); [|congruence].
  destruct (search_table ty d1 true k) as [[i' [pos|]]|]; simpl in *; congruence.
Qed.

(** ** Removing an entry *)
Lemma unlink_spec d p k o nofree :
  wf d -> holds d p k o ->
  exists d' l, unlink ty d (p_table p) (p_idx p) (p_pos p) nofree =
      Some (d', if nofree then [] else free_key ty k ++ free_val ty o) /\
    wf d' /\ iterators d' = iterators d /\
    entries d ≡ₚ DictEntry k o :: l /\ entries d' ≡ₚ l.
Proof.
  unfold holds, entry_at, unlink. intros Hwf [(c & Hc & Hce)%bind_inv Htr].
  rewrite Hc. osimpl. rewrite Hce. osimpl. cbn [key val].
  assert (c ≡ₚ DictEntry k o :: delete (p_pos p) c) as Hd by (by apply delete_Permutation).
  destruct (update_chain d (p_table p) (p_idx p) c (delete (p_pos p) c)
              (used (get_ht d (p_table p)) - 1))
    as (ht' & l & -> & Hpa & Hpb & Hwf' & _); try done.
  { intros e He. eapply chain_loc; [by apply wf_get_ht|done|].
    rewrite Hd. apply elem_of_cons. by right. }
  { intros _ _ ->. done. }
  { apply Permutation_length in Hd. simpl in Hd. lia. }
  osimpl. assert (entries d ≡ₚ DictEntry k o :: delete (p_pos p) c ++ l) as Hpe.
  { rewrite Hpa. exact (Permutation_app_tail l Hd). }
  eexists _, (delete (p_pos p) c ++ l). split; [done|]. split_and!; try done.
  - apply Hwf'. pose proof (wf_keys _ Hwf) as Hn. rewrite Hpe, fmap_cons in Hn.
    by apply NoDup_cons in Hn as [_ Hn].
  - by destruct (p_table p).
Qed.

Lemma dictGenericDelete_spec d k nofree :
  wf d ->
  exists d' st ev, dictGenericDelete ty d k nofree = Some (d', st, ev) /\ wf d' /\
    iterators d' = iterators d /\
    match st with
    | DICT_ERR => (k ∉ (key <$> entries d)) /\ entries d' ≡ₚ entries d /\ ev = []
    | DICT_OK => exists o, entries d ≡ₚ DictEntry k o :: entries d' /\
                  ev = if nofree then [] else free_key ty k ++ free_val ty o
    end.
Proof.
  intros Hwf. unfold dictGenericDelete. destruct (Z.eqb_spec (size (ht0 d)) 0) as [Hz|Hz].
  { exists d, DICT_ERR, []. split_and!; try done. rewrite wf_empty by done. set_solver. }
  destruct (maybe_rehash_step_spec d Hwf) as (d1 & -> & Hwf1 & Hp1 & Hit1 & Ht1). osimpl.
  destruct (locate_spec d1 k Hwf1) as (r & E & Hr); [by apply Ht1, wf_table0|].
  destruct r as [p|].
  - destruct Hr as [o Hh].
    destruct (unlink_spec d1 p k o nofree Hwf1 Hh) as (d2 & l & Eu & Hwf2 & Hit2 & Hpa & Hpb).
    exists d2, DICT_OK, (if nofree then [] else free_key ty k ++ free_val ty o).
    split_and!; try done; [|congruence|exists o; split; [by rewrite <- Hp1, Hpa, Hpb|done]].
    unfold locate in E.
    destruct (search_table ty d1 false k) as [[i [pos|]]|]; simpl in *; [| |done].
    + injection E as <-. cbn [p_table p_idx p_pos] in Eu. by rewrite Eu.
    + destruct (dictIsRehashing d1); [|done].
      destruct (search_table ty d1 true k) as [[i' [pos|]]|]; simpl in *; [|done..].
      injection E as <-. cbn [p_table p_idx p_pos] in Eu. by rewrite Eu.
  - exists d1, DICT_ERR, []. rewrite Hp1 in Hr. split_and!; try done. unfold locate in E.
    destruct (search_table ty d1 false k) as [[i [pos|]]|]; simpl in *; [done| |done].
    destruct (dictIsRehashing d1); [|done].
    destruct (search_table ty d1 true k) as [[i' [pos|]]|]; simpl in *; done.
Qed.

Lemma to_map_Some_key d k : is_Some (to_map d !! k) <-> k ∈ (key <$> entries d).
Proof.
  rewrite <- not_eq_None_Some, to_map_None. destruct (decide (k ∈ (key <$> entries d))); tauto.
Qed.

Lemma to_map_remove d d' k o :
  wf d -> entries d ≡ₚ DictEntry k o :: entries d' ->
  to_map d !! k = Some o /\ to_map d' = delete k (to_map d).
Proof.
  intros Hwf Hp. pose proof (wf_keys _ Hwf) as Hn. split.
  - apply to_map_lookup; [done|]. rewrite Hp. set_solver.
  - rewrite (to_map_cons d' d k o) by done. rewrite delete_insert_id; [done|].
    apply to_map_None. rewrite Hp, fmap_cons in Hn. by apply NoDup_cons in Hn as [? _].
Qed.

Lemma to_map_update d d' k o o' l :
  wf d -> wf d' -> entries d ≡ₚ DictEntry k o :: l -> entries d' ≡ₚ DictEntry k o' :: l ->
  to_map d' = <[k := o']> (to_map d).
Proof.
  intros Hwf Hwf' Hp Hp'. pose proof (wf_keys _ Hwf) as Hn. pose proof (wf_keys _ Hwf') as Hn'.
  unfold to_map.
  rewrite <- (list_to_map_proper ((fun e => (key e, val e)) <$> DictEntry k o' :: l)).
  - rewrite <- (list_to_map_proper ((fun e => (key e, val e)) <$> DictEntry k o :: l)
                  ((fun e => (key e, val e)) <$> entries d)).
    + cbn. by rewrite insert_insert_eq.
    + rewrite <- list_fmap_compose. by rewrite <- Hp.
    + by rewrite Hp.
  - rewrite <- list_fmap_compose. by rewrite <- Hp'.
  - by rewrite Hp'.
Qed.

(** C27: [dictRehash] never loses, duplicates or changes an entry; its result
    says whether keys are left to move, and a number of steps above the number
    of entries of the old table always completes the move. *)
Theorem dictRehash_preserves d n :
  wf d ->
  exists d' more, dictRehash ty d n = Some (d', more) /\ wf d' /\ to_map d' = to_map d /\
    dictSize d' = dictSize d /\ more = dictIsRehashing d' /\
    (used (ht0 d) < Z.of_nat n -> more = false).
Proof.
  intros Hwf. destruct (dictRehash_spec d n Hwf) as (d' & more & E & Hwf' & Hp & _ & _ & Hm & Hf & _).
  exists d', more. split_and!; try done.
  - apply to_map_perm; [by apply wf_keys|done].
  - by rewrite !used_size, Hp by done.
Qed.

(** [dictFetchValue] returns the value the map has for the key, or null;
    the rehashing step it performs does not change the map. *)
Theorem dictFetchValue_refines d k :
  wf d ->
  exists d', dictFetchValue ty d k = Some (d', to_map d !! k) /\ wf d' /\
    to_map d' = to_map d.
Proof.
  intros Hwf. unfold dictFetchValue.
  destruct (dictFind_spec d k Hwf) as (d' & p & -> & Hwf' & Hp & _ & Hf).
  exists d'. osimpl.
  assert (to_map d' = to_map d) as Em by (apply to_map_perm; [by apply wf_keys|done]).
  destruct p as [p|].
  - destruct Hf as [o [He _]]. rewrite He. osimpl. cbn [val]. rewrite <- Em.
    rewrite (proj2 (to_map_lookup d' k o (wf_keys _ Hwf'))); [done|].
    unfold entry_at in He. apply bind_inv in He as (c & Hc & He).
    apply list_elem_of_lookup_2 in He. unfold entries.
    apply elem_of_app. destruct (p_table p); [right|left]; by eapply bucket_entries.
  - apply to_map_None in Hf. by rewrite Hf.
Qed.

(** C2: [dictDelete] and [dictDeleteNoFree] remove the key, or report an error
    when it is absent; the first hands the key and the value of the removed
    entry, and nothing else, to the destructors. *)
Theorem dictGenericDelete_refines d k nofree :
  wf d ->
  exists d' st ev, dictGenericDelete ty d k nofree = Some (d', st, ev) /\ wf d' /\
    to_map d' = delete k (to_map d) /\
    match to_map d !! k with
    | None => st = DICT_ERR /\ ev = []
    | Some o => st = DICT_OK /\
                ev = if nofree then [] else free_key ty k ++ free_val ty o
    end.
Proof.
  intros Hwf. destruct (dictGenericDelete_spec d k nofree Hwf)
    as (d' & st & ev & E & Hwf' & _ & Hst).
  exists d', st, ev. split; [done|]. split; [done|]. destruct st.
  - destruct Hst as (o & Hp & ->). destruct (to_map_remove d d' k o Hwf Hp) as [-> ->]. done.
  - destruct Hst as (Hk & Hp & ->). apply to_map_None in Hk. rewrite Hk.
    split; [|done]. rewrite delete_id by done. apply to_map_perm; [by apply wf_keys|done].
Qed.

(** ** Emptying and resizing *)
Lemma clear_buckets_spec bs : forall u,
  u = zlen (concat bs) ->
  clear_buckets ty bs u = concat bs ≫= fun e => free_key ty (key e) ++ free_val ty (val e).
Proof.
  induction bs as [|c bs IH]; intros u Hu; [done|]. cbn [clear_buckets concat].
  cbn [concat] in Hu. rewrite length_app in Hu. destruct (Z.ltb_spec 0 u).
  - rewrite bind_app, (IH (u - zlen c)) by lia. done.
  - destruct c; [|simpl in Hu; lia]. destruct (concat bs); [done|simpl in Hu; lia].
Qed.

Lemma dictClear_spec ht :
  wf_ht ht ->
  _dictClear ty ht =
    (_dictReset, ht_entries ht ≫= fun e => free_key ty (key e) ++ free_val ty (val e)).
Proof.
  unfold _dictClear, wf_ht, ht_entries. destruct (table ht) as [t|]; [|done].
  intros (_ & _ & Hl & _ & Hu & _). rewrite take_ge by lia. by rewrite clear_buckets_spec.
Qed.

(** [dictEmpty] calls the destructors once for the key and the value of
    every entry, although it stops walking a table when its [used] counter
    reaches 0, and leaves a well-formed empty dictionary. *)
Theorem dictEmpty_frees_all d :
  wf d ->
  dictEmpty ty d = (dictCreate, entries d ≫= fun e => free_key ty (key e) ++ free_val ty (val e))
  /\ wf dictCreate /\ to_map dictCreate = ∅.
Proof.
  intros [H0 H1 _ _]. unfold dictEmpty, entries.
  rewrite !dictClear_spec, bind_app by done. split_and!; try done.
  constructor; try done; [constructor|by left].
Qed.

Lemma rehash_ms_spec clock ms fuel : forall i d n,
  wf d -> used (ht0 d) < Z.of_nat fuel ->
  exists d' n', rehash_ms ty fuel clock i d ms n = Some (d', n') /\ wf d' /\
    entries d' ≡ₚ entries d.
Proof.
  induction fuel as [|fuel IH]; intros i d n Hwf Hf; cbn [rehash_ms].
  { pose proof (used_entries _ (wf_ht0 _ Hwf)). lia. }
  destruct (dictRehash_spec d 100 Hwf) as (d1 & more & -> & Hwf1 & Hp1 & _ & _ & _ & _ & Hdec).
  osimpl. destruct more; [|by eexists _, _]. specialize (Hdec eq_refl).
  destruct (ms <? clock i); [by eexists _, _|].
  destruct (IH (S i) d1 (n + 100) Hwf1) as (d2 & n2 & -> & Hwf2 & Hp2); [lia|].
  exists d2, n2. by rewrite Hp2.
Qed.

(** [dictRehashMilliseconds] returns whatever the clock does, and keeps the
    map. *)
Theorem dictRehashMilliseconds_terminates clock d ms :
  wf d ->
  exists d' n, dictRehashMilliseconds ty clock d ms = Some (d', n) /\ wf d' /\
    to_map d' = to_map d.
Proof.
  intros Hwf. unfold dictRehashMilliseconds.
  destruct (rehash_ms_spec clock ms (S (Z.to_nat (used (ht0 d)))) 0 d 0 Hwf)
    as (d' & n & -> & Hwf' & Hp); [lia|].
  exists d', n. split_and!; try done. apply to_map_perm; [by apply wf_keys|done].
Qed.

Section Grow.
Context (long_bits : Z) (can_resize : bool).
Hypothesis long_ok : 32 <= long_bits.

Lemma dictNextPower_spec sz :
  sz <= 2 ^ 30 ->
  exists b, _dictNextPower long_bits sz = Some (2 ^ b) /\ 0 <= b <= 30 /\ sz <= 2 ^ b.
Proof.
  intros Hs. unfold _dictNextPower, LONG_MAX.
  assert (2 ^ 31 <= 2 ^ (long_bits - 1)) by (apply Z.pow_le_mono_r; lia).
  rewrite (proj2 (Z.leb_gt _ _)) by lia.
  change DICT_HT_INITIAL_SIZE with (2 ^ 2). apply next_power_spec; lia.
Qed.

Lemma dictExpand_spec d sz :
  wf d -> dictIsRehashing d = false -> used (ht0 d) <= sz -> sz <= 2 ^ 30 ->
  exists d', dictExpand long_bits d sz = Some (d', DICT_OK) /\ wf d' /\
    entries d' = entries d /\ iterators d' = iterators d /\ is_Some (table (ht0 d')).
Proof.
  intros Hwf Hr Hu Hs. destruct (wf_not_rehashing _ Hwf Hr) as [Hi H1].
  destruct Hwf as [Hw0 Hw1 Hk _]. unfold dictExpand.
  destruct (dictNextPower_spec sz Hs) as (b & -> & Hb & Hsb). osimpl.
  rewrite Hr, (proj2 (Z.ltb_ge _ _)) by lia. cbn [orb].
  pose proof (wf_ht_fresh b Hb) as Hfr.
  assert (ht_entries (DictHt (Some (replicate (Z.to_nat (2 ^ b)) [])) (2 ^ b) (2 ^ b - 1) 0)
          = ([] : list (dictEntry K V))) as Hfe.
  { unfold ht_entries. cbn [table]. apply concat_replicate_nil. }
  destruct (table (ht0 d)) as [t|] eqn:Ht.
  - eexists. split; [done|].
    assert (forall h, ht_entries h = [] -> entries (MkDict (ht0 d) h 0 (iterators d)) = entries d) as Ee.
    { intros h Eh. unfold entries. cbn [ht0 ht1]. rewrite H1, Eh. done. }
    specialize (Ee _ Hfe). split_and!; try done.
    constructor; cbn [ht0 ht1 rehashidx]; try done.
    + by rewrite Ee.
    + right. split_and!; try done; try lia.
      unfold wf_ht in Hw0. rewrite Ht in Hw0. destruct Hw0 as ((k & Hk' & ->) & _). lia.
  - eexists. split; [done|].
    assert (forall h, ht_entries h = [] ->
      entries (MkDict h (ht1 d) (rehashidx d) (iterators d)) = entries d) as Ee.
    { intros h Eh. unfold entries. cbn [ht0 ht1]. rewrite Eh.
      unfold ht_entries. by rewrite Ht. }
    specialize (Ee _ Hfe). split_and!; try done.
    constructor; cbn [ht0 ht1 rehashidx]; try done.
    + by rewrite Ee.
    + by left.
Qed.

Lemma dictExpandIfNeeded_spec d :
  wf d -> used (ht0 d) <= 2 ^ 29 ->
  exists d', _dictExpandIfNeeded long_bits can_resize d = Some (d', DICT_OK) /\ wf d' /\
    entries d' = entries d /\ iterators d' = iterators d /\ is_Some (table (ht0 d')).
Proof.
  intros Hwf Hu. unfold _dictExpandIfNeeded. destruct (dictIsRehashing d) eqn:Hr.
  { exists d. destruct (wf_rehashing _ Hwf Hr) as (_ & ? & _). done. }
  pose proof (used_entries _ (wf_ht0 _ Hwf)) as Hue.
  destruct (Z.eqb_spec (size (ht0 d)) 0) as [Hz|Hz].
  { apply dictExpand_spec; [done..| |done].
    apply wf_slots in Hz; [|by apply wf_ht0]. unfold ht_entries in Hue. rewrite Hz in Hue.
    rewrite Hue. done. }
  destruct (_ && _).
  - apply dictExpand_spec; try done; lia.
  - exists d. split_and!; try done. destruct (table (ht0 d)) eqn:Ht; [by eexists|].
    apply wf_slots in Ht; [done|]. by apply wf_ht0.
Qed.

Lemma dictKeyIndex_spec d k :
  wf d -> used (ht0 d) <= 2 ^ 29 ->
  exists d' index, _dictKeyIndex ty long_bits can_resize d k = Some (d', index) /\ wf d' /\
    entries d' = entries d /\ iterators d' = iterators d /\
    (k ∈ (key <$> entries d) -> index = -1) /\
    (k ∉ (key <$> entries d) ->
       let ht := get_ht d' (dictIsRehashing d') in
       index = Z.land (hashFunction ty k) (sizemask ht) /\ 0 <= index < size ht /\
       exists c, bucket ht index = Some c).
Proof.
  intros Hwf Hu. unfold _dictKeyIndex.
  destruct (dictExpandIfNeeded_spec d Hwf Hu) as (d1 & -> & Hwf1 & He1 & Hit1 & Ht0).
  osimpl. rewrite <- He1.
  assert (k ∈ key <$> entries d1 <-> k ∈ key <$> ht_entries (ht0 d1) \/ k ∈ key <$> ht_entries (ht1 d1))
    as Hiff by (by rewrite entries_keys, elem_of_app).
  assert (forall t, wf_ht (get_ht d1 t)) as Hwt by (intros []; [by apply wf_ht1|by apply wf_ht0]).
  assert (forall t i, 0 <= i < size (get_ht d1 t) -> is_Some (table (get_ht d1 t)) -> swrap 32 i = i) as Hsw.
  { intros t i Hi [tb Htb]. apply swrap_small; [lia|]. specialize (Hwt t).
    unfold wf_ht in Hwt. rewrite Htb in Hwt. destruct Hwt as (_ & Hm & _).
    unfold max_slots, in_s in *. change (2 ^ (32 - 1)) with (2 * 2 ^ 30). lia. }
  destruct (search_table_spec d1 false k) as (i & f & c & -> & Hi & Hir & Hc & Hf); [done..|].
  osimpl. destruct f as [pos|].
  { exists d1, (-1). split_and!; try done. intros []. apply Hiff. left.
    by eapply bucket_key. }
  destruct (dictIsRehashing d1) eqn:Hr.
  - destruct (wf_rehashing _ Hwf1 Hr) as (_ & _ & Ht1 & _).
    destruct (search_table_spec d1 true k) as (i' & f' & c' & -> & Hi' & Hir' & Hc' & Hf'); [done..|].
    osimpl. destruct f' as [pos|].
    { exists d1, (-1). split_and!; try done. intros []. apply Hiff. right.
      by eapply bucket_key. }
    rewrite (Hsw true i') by done. cbn [get_ht] in *.
    exists d1, i'. split_and!; try done; [naive_solver|].
    intros _. rewrite Hr. cbn [get_ht]. eauto.
  - rewrite (Hsw false i) by done. cbn [get_ht] in *.
    pose proof (not_rehashing_entries _ Hwf1 Hr) as H1e. rewrite H1e in Hiff.
    exists d1, i. split_and!; try done; [set_solver|].
    intros _. rewrite Hr. cbn [get_ht]. eauto.
Qed.

Lemma dictAddRaw_spec d k :
  wf d -> small d ->
  exists d' p, dictAddRaw ty long_bits can_resize d k = Some (d', p) /\ wf d' /\
    iterators d' = iterators d /\
    match p with
    | None => k ∈ (key <$> entries d) /\ entries d' ≡ₚ entries d
    | Some p => (k ∉ (key <$> entries d)) /\ entries d' ≡ₚ DictEntry k None :: entries d /\
                entry_at d' p = Some (DictEntry k None) /\
                (p_table p = true -> dictIsRehashing d' = true)
    end.
Proof.
  intros Hwf Hsm. unfold dictAddRaw.
  destruct (maybe_rehash_step_spec d Hwf) as (d1 & -> & Hwf1 & Hp1 & Hit1 & Ht1). osimpl.
  destruct (dictKeyIndex_spec d1 k Hwf1) as (d2 & i & -> & Hwf2 & He2 & Hit2 & Hin & Hnin);
    [by eapply (small_used0 d)|].
  osimpl. rewrite Hp1 in Hin, Hnin.
  destruct (decide (k ∈ (key <$> entries d))) as [Hk|Hk].
  { rewrite (Hin Hk). cbn [Z.eqb Pos.eqb]. exists d2, None.
    split_and!; try done; [congruence|]. by rewrite He2. }
  destruct (Hnin Hk) as (Hi & Hir & c & Hc). rewrite (proj2 (Z.eqb_neq _ _)) by lia.
  set (t := dictIsRehashing d2) in *. rewrite Hc, dup_key_id. osimpl.
  destruct (update_chain d2 t i c (DictEntry k None :: c) (used (get_ht d2 t) + 1))
    as (ht' & l & -> & Hpa & Hpb & Hwf' & Hb'); try done.
  { intros e [->|He]%elem_of_cons; [done|]. eapply chain_loc; [|done|done].
    destruct t; [by apply wf_ht1|by apply wf_ht0]. }
  { intros Ht Hrr. subst t. congruence. }
  { simpl. lia. }
  osimpl. eexists _, _. split; [done|].
  assert (entries (set_ht d2 t ht') ≡ₚ DictEntry k None :: entries d) as Hpe.
  { rewrite Hpb, <- Hp1, <- He2, Hpa. done. }
  split_and!.
  - apply Hwf'. rewrite <- Hpb, Hpe, fmap_cons. constructor; [done|]. by apply wf_keys.
  - destruct t; simpl; congruence.
  - done.
  - done.
  - unfold entry_at. cbn [p_table p_idx p_pos]. by rewrite Hb'.
  - cbn [p_table]. intros Ht. unfold set_ht. rewrite Ht. unfold dictIsRehashing in *. cbn.
    by rewrite <- Ht.
Qed.

(** ** The operations against the map *)
Lemma dictAdd_spec d k v :
  wf d -> small d ->
  exists d' st, dictAdd ty long_bits can_resize d k v = Some (d', st) /\ wf d' /\
    iterators d' = iterators d /\
    match st with
    | DICT_ERR => k ∈ (key <$> entries d) /\ entries d' ≡ₚ entries d
    | DICT_OK => (k ∉ (key <$> entries d)) /\
                 entries d' ≡ₚ DictEntry k (Some (dup_val ty v)) :: entries d
    end.
Proof.
  intros Hwf Hsm. unfold dictAdd.
  destruct (dictAddRaw_spec d k Hwf Hsm) as (d1 & [p|] & -> & Hwf1 & Hit1 & Hp); osimpl.
  - destruct Hp as (Hk & Hpe & Hat & Htr).
    destruct (dictSetVal_spec d1 p k None v Hwf1 Htr Hat)
      as (d2 & l & -> & Hwf2 & Hit2 & Hpa & Hpb).
    osimpl. exists d2, DICT_OK. split_and!; try done; [congruence|].
    rewrite Hpb. f_equiv. rewrite Hpe in Hpa. by apply Permutation_cons_inv in Hpa.
  - destruct Hp as (Hk & Hpe). by exists d1, DICT_ERR.
Qed.

(** C1: [dictAdd] inserts a key that is absent and reports an error, leaving the
    map alone, when the key is there; growing the table and the incremental
    rehashing it performs on the way are invisible. *)
Theorem dictAdd_refines d k v :
  wf d -> small d ->
  exists d' st, dictAdd ty long_bits can_resize d k v = Some (d', st) /\ wf d' /\
    match to_map d !! k with
    | None => st = DICT_OK /\ to_map d' = <[k := Some (dup_val ty v)]> (to_map d) /\
              dictSize d' = dictSize d + 1
    | Some _ => st = DICT_ERR /\ to_map d' = to_map d /\ dictSize d' = dictSize d
    end.
Proof.
  intros Hwf Hsm. destruct (dictAdd_spec d k v Hwf Hsm) as (d' & st & E & Hwf' & _ & Hst).
  exists d', st. split_and!; try done. rewrite !used_size by done.
  destruct st; destruct Hst as [Hk Hp].
  - rewrite (proj2 (to_map_None d k) Hk). split_and!; [done| |rewrite Hp; simpl; lia].
    apply to_map_cons; [by apply wf_keys|done].
  - apply to_map_Some_key in Hk as [o ->]. split_and!; [done| |by rewrite Hp].
    apply to_map_perm; [by apply wf_keys|done].
Qed.

(** [dictReplace] makes the key map to the value whether or not it was
    there, tells the two cases apart, and hands exactly the old value to the
    value destructor. *)
Theorem dictReplace_refines d k v :
  wf d -> small d ->
  exists d' r ev, dictReplace ty long_bits can_resize d k v = Some (d', r, ev) /\ wf d' /\
    to_map d' = <[k := Some (dup_val ty v)]> (to_map d) /\
    match to_map d !! k with
    | None => r = 1 /\ ev = []
    | Some o => r = 0 /\ ev = free_val ty o
    end.
Proof.
  intros Hwf Hsm. unfold dictReplace.
  destruct (dictAdd_spec d k v Hwf Hsm) as (d1 & st & -> & Hwf1 & _ & Hst). osimpl.
  destruct st; destruct Hst as [Hk Hp].
  { exists d1, 1, []. rewrite (proj2 (to_map_None d k) Hk). split_and!; try done.
    apply to_map_cons; [by apply wf_keys|done]. }
  destruct (dictFind_spec d1 k Hwf1) as (d2 & p & -> & Hwf2 & Hp2 & _ & Hf). osimpl.
  destruct p as [p|]; [|by rewrite Hp in Hf]. destruct Hf as (o & He & Ht). osimpl.
  rewrite He. osimpl. cbn [val].
  destruct (dictSetVal_spec d2 p k o v Hwf2 Ht He) as (d3 & l & -> & Hwf3 & _ & Hpa & Hpb).
  osimpl. exists d3, 0, (free_val ty o). split_and!; try done.
  - rewrite <- (to_map_perm d d2) by (by rewrite ?Hp2; try apply wf_keys).
    by eapply to_map_update.
  - assert (to_map d !! k = Some o) as ->; [|done].
    apply to_map_lookup; [by apply wf_keys|]. rewrite <- Hp, <- Hp2, Hpa. set_solver.
Qed.

(** [dictResize] starts moving the entries to a table that fits them. *)
Lemma dictResize_spec d :
  wf d -> small d ->
  exists d' st, dictResize long_bits can_resize d = Some (d', st) /\ wf d' /\
    to_map d' = to_map d /\
    (st = DICT_ERR -> d' = d /\ (can_resize = false \/ dictIsRehashing d = true)).
Proof.
  intros Hwf Hsm. unfold dictResize.
  destruct (can_resize) eqn:Hc; cbn [negb orb]; [|exists d, DICT_ERR; split_and!; auto].
  destruct (dictIsRehashing d) eqn:Hr; [exists d, DICT_ERR; split_and!; auto|].
  pose proof (used_entries _ (wf_ht0 _ Hwf)). pose proof (small_used0 d d Hwf Hwf Hsm (reflexivity _)).
  rewrite swrap_small by (unfold in_s; lia).
  destruct (dictExpand_spec d (if used (ht0 d) <? DICT_HT_INITIAL_SIZE then DICT_HT_INITIAL_SIZE
                               else used (ht0 d)) Hwf Hr) as (d' & -> & Hwf' & He & _).
  1,2: unfold DICT_HT_INITIAL_SIZE; destruct (Z.ltb_spec (used (ht0 d)) 4); lia.
  exists d', DICT_OK. split_and!; try done. apply to_map_perm; [by apply wf_keys|by rewrite He].
Qed.

End Grow.

End Invariant.

(** ** A dictionary of integers *)
Definition zty : dictType Z Z := DictType (wrap 32) None None None true true.

#[export] Instance zty_ok : DictTypeOk zty.
Proof. constructor; [intros; by apply wrap_range|done..]. Qed.

Fixpoint dictAdds (d : dict Z Z) (kvs : list (Z * Z)) : option (dict Z Z) :=
  match kvs with
  | [] => Some d
  | (k, v) :: kvs => '(d, _) ← dictAdd zty 32 true d k v; dictAdds d kvs
  end.

Lemma dictAdds_wf kvs : forall d d',
  wf zty d -> dictSize d + zlen kvs <= 2 ^ 29 -> dictAdds d kvs = Some d' -> wf zty d'.
Proof.
  induction kvs as [|[k v] kvs IH]; intros d d' Hwf Hs; cbn [dictAdds].
  { by intros [= <-]. }
  cbn [length] in Hs. assert (small d) by (unfold small; lia).
  destruct (dictAdd_spec zty 32 true ltac:(done) d k v) as (d1 & st & -> & Hwf1 & _ & Hst); [done..|].
  osimpl. apply IH; [done|]. erewrite used_size in Hs |- * by done.
  destruct st; destruct Hst as [_ ->]; cbn [length]; lia.
Qed.

Definition five : list (Z * Z) := [(1, 10); (2, 20); (5, 50); (3, 30); (9, 90)].

(** Five entries in four buckets: the table is being rehashed into one of
    eight. *)
Definition d5 : dict Z Z := default dictCreate (dictAdds dictCreate five).

Lemma d5_rehashing : dictIsRehashing d5 = true.
Proof. vm_compute. reflexivity. Qed.

Lemma d5_wf : wf zty d5.
Proof.
  apply (dictAdds_wf five dictCreate).
  - constructor; try done; [constructor|by left].
  - done.
  - vm_compute. reflexivity.
Qed.

Lemma d5_small : small d5.
Proof. vm_compute. discriminate. Qed.

Lemma dictRehash_preserves_witness :
  wf zty d5 /\
  exists d' more, dictRehash zty d5 2 = Some (d', more) /\ to_map d' = to_map d5 /\ more = dictIsRehashing d'.
Proof.
  split; [apply d5_wf|].
  destruct (dictRehash_preserves zty d5 2 d5_wf) as (d' & more & E & _ & Em & _ & Hm & _).
  exists d', more. split_and!; [exact E|exact Em|exact Hm].
Defined.

Lemma dictAdd_refines_witness :
  wf zty d5 /\
  exists d', dictAdd zty 32 true d5 17 170 = Some (d', DICT_OK) /\
             to_map d' !! 17 = Some (Some 170).
Proof.
  split; [apply d5_wf|].
  destruct (dictAdd_refines zty 32 true ltac:(done) d5 17 170 d5_wf d5_small)
    as (d' & st & E & _ & Hst).
  change (to_map d5 !! 17) with (None (A:=option Z)) in Hst.
  destruct Hst as (-> & Em & _). exists d'. split; [exact E|].
  rewrite Em. apply lookup_insert_eq.
Defined.

Lemma dictFetchValue_refines_witness :
  wf zty d5 /\ exists d', dictFetchValue zty d5 9 = Some (d', Some (Some 90)).
Proof.
  split; [apply d5_wf|].
  destruct (dictFetchValue_refines zty d5 9 d5_wf) as (d' & E & _).
  exists d'. rewrite E. reflexivity.
Defined.

Lemma dictReplace_refines_witness :
  wf zty d5 /\ exists d', dictReplace zty 32 true d5 9 91 = Some (d', 0, [FreeVal (Some 90)]).
Proof.
  split; [apply d5_wf|].
  destruct (dictReplace_refines zty 32 true ltac:(done) d5 9 91 d5_wf d5_small)
    as (d' & r & ev & E & _ & _ & Hr).
  change (to_map d5 !! 9) with (Some (Some 90)) in Hr. destruct Hr as [-> ->].
  exists d'. exact E.
Defined.

Lemma dictGenericDelete_refines_witness :
  wf zty d5 /\
  exists d', dictGenericDelete zty d5 5 false = Some (d', DICT_OK, [FreeKey 5; FreeVal (Some 50)]).
Proof.
  split; [apply d5_wf|].
  destruct (dictGenericDelete_refines zty d5 5 false d5_wf) as (d' & st & ev & E & _ & _ & Hr).
  change (to_map d5 !! 5) with (Some (Some 50)) in Hr. destruct Hr as [-> ->].
  exists d'. exact E.
Defined.

Lemma dictEmpty_frees_all_witness :
  wf zty d5 /\ length (snd (dictEmpty zty d5)) = 10%nat.
Proof.
  split; [apply d5_wf|].
  destruct (dictEmpty_frees_all zty d5 d5_wf) as (-> & _). vm_compute. reflexivity.
Defined.

Lemma dictRehashMilliseconds_terminates_witness :
  wf zty d5 /\
  exists d' n, dictRehashMilliseconds zty (fun i => Z.of_nat i) d5 1 = Some (d', n) /\
               to_map d' = to_map d5.
Proof.
  split; [apply d5_wf|].
  destruct (dictRehashMilliseconds_terminates zty (fun i => Z.of_nat i) d5 1 d5_wf)
    as (d' & n & E & _ & Em).
  exists d', n. split; [exact E|exact Em].
Defined.

End Dict.
