(* ===== verification/DictScan.v ===== *)
(** * Stateless iteration over a dictionary ([dictScan], [rev] of
    src/redis-2.8/src/dict.c)

    One call of [dictScan] emits the entries of some buckets and returns the
    next cursor. [w] is the width of [unsigned long], 32 or 64. *)
From stdpp Require Import base tactics list numbers option gmap fin_maps sorting.
From Stdlib Require Import ZArith Lia.
From S2P Require Import Prelude Dict.
Import CInt CMem Dict.
Open Scope Z_scope.

Module DictScan.

(** ** Reversing the bits of a word *)
Definition lnot_w (w v : Z) : Z := wrap w (Z.lnot v).

(** One round of the loop of [rev], for the shift [s]. *)
Definition rev_swap (w s mask v : Z) : Z :=
  Z.lor (Z.land (Z.shiftr v s) mask) (Z.land (wrap w (Z.shiftl v s)) (lnot_w w mask)).

Fixpoint rev_loop (fuel : nat) (w s mask v : Z) : Z :=
  match fuel with
  | O => v
  | S fuel =>
      let s := Z.shiftr s 1 in
      if 0 <? s then
        let mask := Z.lxor mask (wrap w (Z.shiftl mask s)) in
        rev_loop fuel w s mask (rev_swap w s mask v)
      else v
  end.

(** Halving a width of at most 64 bits reaches 0 within 7 rounds. *)
Definition rev (w v : Z) : Z := rev_loop 7 w w (2 ^ w - 1) v.

Section Scan.
Context {K V : Type}.
Context (w : Z).
Implicit Types (d : dict K V) (ht : dictht K V) (e : dictEntry K V).

(** The [do] loop over the expansions of the cursor in the larger table. *)
Fixpoint scan_expansions (fuel : nat) (t1 : dictht K V) (m0 v : Z)
  : option (list (dictEntry K V) * Z) :=
  match fuel with
  | O => None
  | S fuel =>
      de ← bucket t1 (Z.land v (sizemask t1));
      let v := Z.lor (Z.land (wrap w (Z.lor v m0 + 1)) (lnot_w w m0)) (Z.land v m0) in
      if negb (Z.land v (Z.lxor m0 (sizemask t1)) =? 0) then
        '(es, v) ← scan_expansions fuel t1 m0 v;
        Some (de ++ es, v)
      else Some (de, v)
  end.

Definition next_cursor (m0 v : Z) : Z :=
  rev w (wrap w (rev w (Z.lor v (lnot_w w m0)) + 1)).

(** The entries passed to the callback, in order, and the next cursor. *)
Definition dictScan d (v : Z) : option (list (dictEntry K V) * Z) :=
  if dictSize d =? 0 then Some ([], 0)
  else if negb (dictIsRehashing d) then
    de ← bucket (ht0 d) (Z.land v (sizemask (ht0 d)));
    Some (de, next_cursor (sizemask (ht0 d)) v)
  else
    let '(t0, t1) := if size (ht1 d) <? size (ht0 d) then (ht1 d, ht0 d) else (ht0 d, ht1 d) in
    de ← bucket t0 (Z.land v (sizemask t0));
    '(es, v) ← scan_expansions (S (Z.to_nat (size t1))) t1 (sizemask t0) v;
    Some (de ++ es, next_cursor (sizemask t0) v).

(** A whole iteration: the dictionary may be another one at every call. *)
Fixpoint scan_run (v : Z) (ds : list (dict K V)) : option (list (dictEntry K V) * Z) :=
  match ds with
  | [] => Some ([], v)
  | d :: ds =>
      '(es, v) ← dictScan d v;
      '(es', v) ← scan_run v ds;
      Some (es ++ es', v)
  end.

End Scan.

(** ** [rev] reverses the bits *)
Definition swap_index (s mask i : Z) : Z := if Z.testbit mask i then i + s else i - s.

(** The bit of the argument that bit [i] of the result comes from, if every
    round stays inside the word. *)
Fixpoint rev_index (fuel : nat) (w s mask i : Z) : option Z :=
  match fuel with
  | O => Some i
  | S fuel =>
      let s := Z.shiftr s 1 in
      if 0 <? s then
        let mask := Z.lxor mask (wrap w (Z.shiftl mask s)) in
        j ← rev_index fuel w s mask i;
        if (0 <=? j) && (j <? w) then Some (swap_index s mask j) else None
      else Some i
  end.

Section Rev.
Context (w : Z).
Hypothesis w_ok : w = 32 \/ w = 64.

Lemma wrap_testbit z i : 0 <= i < w -> Z.testbit (wrap w z) i = Z.testbit z i.
Proof. intros. unfold wrap. apply Z.mod_pow2_bits_low. lia. Qed.

Lemma lnot_w_testbit m i : 0 <= i < w -> Z.testbit (lnot_w w m) i = negb (Z.testbit m i).
Proof. intros. unfold lnot_w. rewrite wrap_testbit by done. apply Z.lnot_spec. lia. Qed.

Lemma rev_swap_testbit s mask v i :
  0 < s -> 0 <= i < w -> Z.testbit (rev_swap w s mask v) i = Z.testbit v (swap_index s mask i).
Proof.
  intros Hs Hi. unfold rev_swap, swap_index.
  rewrite Z.lor_spec, !Z.land_spec, lnot_w_testbit, wrap_testbit, Z.shiftl_spec by lia.
  rewrite Z.shiftr_spec by lia.
  destruct (Z.testbit mask i); cbn; by rewrite ?andb_true_r, ?andb_false_r, ?orb_false_r.
Qed.

Lemma rev_loop_testbit fuel : forall s mask v i j,
  rev_index fuel w s mask i = Some j ->
  Z.testbit (rev_loop fuel w s mask v) i = Z.testbit v j.
Proof.
  induction fuel as [|fuel IH]; intros s mask v i j; cbn [rev_index rev_loop].
  { by intros [= ->]. }
  destruct (Z.ltb_spec 0 (Z.shiftr s 1)); [|by intros [= ->]].
  intros (j' & E & Hj)%bind_inv. rewrite (IH _ _ _ _ _ E).
  destruct (Z.leb_spec 0 j'); [|done]. destruct (Z.ltb_spec j' w); [|done].
  injection Hj as <-. by apply rev_swap_testbit.
Qed.

Lemma rev_index_all i : 0 <= i < w -> rev_index 7 w w (2 ^ w - 1) i = Some (w - 1 - i).
Proof.
  intros Hi.
  assert (forallb (fun n =>
            match rev_index 7 w w (2 ^ w - 1) (Z.of_nat n) with
            | Some j => j =? w - 1 - Z.of_nat n
            | None => false
            end) (seq 0 (Z.to_nat w)) = true) as Hall.
  { destruct w_ok as [-> | ->]; vm_compute; reflexivity. }
  rewrite forallb_forall in Hall. specialize (Hall (Z.to_nat i)).
  rewrite in_seq, Z2Nat.id in Hall by lia.
  destruct (rev_index 7 w w (2 ^ w - 1) i); [|by discriminate Hall; lia].
  f_equal. apply Z.eqb_eq, Hall. lia.
Qed.

Lemma rev_testbit v i : 0 <= i < w -> Z.testbit (rev w v) i = Z.testbit v (w - 1 - i).
Proof. intros. unfold rev. by apply rev_loop_testbit, rev_index_all. Qed.

Lemma w_pos : 0 < w.
Proof. lia. Qed.

Lemma in_u_bits v : 0 <= v -> (forall i, w <= i -> Z.testbit v i = false) -> in_u w v.
Proof.
  intros Hv Hb. assert (v = wrap w v) as ->; [|apply wrap_range; lia].
  apply Z.bits_inj'. intros i Hi. destruct (Z.lt_ge_cases i w).
  - by rewrite wrap_testbit.
  - unfold wrap. rewrite Z.mod_pow2_bits_high by lia. auto.
Qed.

Lemma in_u_high v i : in_u w v -> w <= i -> Z.testbit v i = false.
Proof.
  intros Hv Hi. rewrite <- (wrap_small w v) by done. unfold wrap.
  apply Z.mod_pow2_bits_high. pose proof w_pos. lia.
Qed.

Lemma in_u_eq x y :
  in_u w x -> in_u w y -> (forall i, 0 <= i < w -> Z.testbit x i = Z.testbit y i) -> x = y.
Proof.
  intros Hx Hy Hb. apply Z.bits_inj'. intros i Hi.
  destruct (Z.lt_ge_cases i w); [by apply Hb|]. by rewrite !in_u_high.
Qed.

Lemma rev_swap_range s mask v : 0 < s -> in_u w v -> in_u w (rev_swap w s mask v).
Proof.
  intros Hs Hv. pose proof w_pos. unfold rev_swap. apply in_u_bits.
  - apply Z.lor_nonneg. rewrite !Z.land_nonneg, Z.shiftr_nonneg. unfold in_u in Hv.
    split; left; [lia|]. apply wrap_range. lia.
  - intros i Hi. rewrite Z.lor_spec, !Z.land_spec, Z.shiftr_spec by lia.
    rewrite (in_u_high v) by (done || lia).
    by rewrite (in_u_high (wrap w _)) by (apply wrap_range || idtac; lia).
Qed.

Lemma rev_loop_range fuel : forall s mask v, in_u w v -> in_u w (rev_loop fuel w s mask v).
Proof.
  induction fuel as [|fuel IH]; intros s mask v Hv; cbn [rev_loop]; [done|].
  destruct (Z.ltb_spec 0 (Z.shiftr s 1)); [|done]. by apply IH, rev_swap_range.
Qed.

Lemma rev_range v : in_u w v -> in_u w (rev w v).
Proof. apply rev_loop_range. Qed.

Lemma rev_rev v : in_u w v -> rev w (rev w v) = v.
Proof.
  intros Hv. apply in_u_eq; [by do 2 apply rev_range|done|].
  intros i Hi. rewrite !rev_testbit by lia. f_equal. lia.
Qed.

(** Agreeing on the [k] low bits is agreeing on the [k] high bits of the
    reversed words. *)
Lemma rev_prefix x y k :
  0 <= k <= w -> in_u w x -> in_u w y ->
  x mod 2 ^ k = y mod 2 ^ k <-> rev w x / 2 ^ (w - k) = rev w y / 2 ^ (w - k).
Proof.
  intros Hk Hx Hy. pose proof (rev_range x Hx) as Hrx. pose proof (rev_range y Hy) as Hry.
  rewrite <- !Z.shiftr_div_pow2 by lia. split; intros E; apply Z.bits_inj'; intros i Hi.
  - rewrite !Z.shiftr_spec by done. destruct (Z.lt_ge_cases i k).
    + rewrite !rev_testbit by lia. apply (f_equal (fun z => Z.testbit z (k - 1 - i))) in E.
      rewrite !Z.mod_pow2_bits_low in E by lia.
      by replace (w - 1 - (i + (w - k))) with (k - 1 - i) by lia.
    + by rewrite !in_u_high by (done || lia).
  - destruct (Z.lt_ge_cases i k).
    + rewrite !Z.mod_pow2_bits_low by lia.
      apply (f_equal (fun z => Z.testbit z (k - 1 - i))) in E.
      rewrite !Z.shiftr_spec, !rev_testbit in E by lia.
      by replace (w - 1 - (k - 1 - i + (w - k))) with i in E by lia.
    + by rewrite !Z.mod_pow2_bits_high by lia.
Qed.

Lemma lor_ones x n : 0 <= n -> 0 <= x -> Z.lor x (Z.ones n) = x / 2 ^ n * 2 ^ n + (2 ^ n - 1).
Proof.
  intros Hn Hx. rewrite Z.sub_1_r, <- Z.ones_equiv, <- Z.shiftr_div_pow2 by done.
  rewrite <- Z.shiftl_mul_pow2 by done.
  assert (Z.land (Z.shiftl (Z.shiftr x n) n) (Z.ones n) = 0) as Hl.
  { rewrite Z.land_ones, Z.shiftl_mul_pow2 by done. apply Z.mod_mul. lia. }
  rewrite (Z.add_nocarry_lxor _ _ Hl). apply Z.bits_inj'. intros i Hi.
  rewrite Z.lor_spec, Z.lxor_spec, Z.shiftl_spec by done. destruct (Z.lt_ge_cases i n).
  - rewrite Z.ones_spec_low, (Z.testbit_neg_r _ (i - n)) by lia. by rewrite orb_true_r.
  - rewrite Z.ones_spec_high, Z.shiftr_spec, orb_false_r, xorb_false_r by lia. f_equal. lia.
Qed.

(** The next cursor is the successor of the cursor in the order of the
    reversed words, at the granularity of the smaller table. *)
Lemma next_cursor_spec k v :
  0 <= k <= w -> in_u w v ->
  in_u w (next_cursor w (2 ^ k - 1) v) /\
  rev w (next_cursor w (2 ^ k - 1) v) =
    wrap w ((rev w v / 2 ^ (w - k) + 1) * 2 ^ (w - k)).
Proof.
  intros Hk Hv. pose proof w_pos. unfold next_cursor.
  assert (forall z, in_u w (wrap w z)) as Hwr by (intros; apply wrap_range; lia).
  split; [by apply rev_range|]. rewrite rev_rev by done.
  assert (rev w (Z.lor v (lnot_w w (2 ^ k - 1))) = Z.lor (rev w v) (Z.ones (w - k))) as ->.
  { apply in_u_eq.
    - apply rev_range, in_u_bits.
      + apply Z.lor_nonneg. split; [apply Hv|apply Hwr].
      + intros i Hi. unfold lnot_w. by rewrite Z.lor_spec, !in_u_high.
    - apply in_u_bits.
      + apply Z.lor_nonneg. split; [apply rev_range; done|]. rewrite Z.ones_equiv. lia.
      + intros i Hi. rewrite Z.lor_spec, in_u_high by (done || by apply rev_range).
        apply Z.ones_spec_high. lia.
    - intros i Hi. rewrite rev_testbit, !Z.lor_spec, rev_testbit, lnot_w_testbit by lia. f_equal.
      rewrite Z.sub_1_r, <- Z.ones_equiv. destruct (Z.lt_ge_cases i (w - k)).
      + by rewrite Z.ones_spec_high, Z.ones_spec_low by lia.
      + by rewrite Z.ones_spec_low, Z.ones_spec_high by lia. }
  rewrite lor_ones by (lia || apply rev_range; done). f_equal. lia.
Qed.
(** The cursor of the loop over the larger table: the bits above the smaller
    mask count up, those it covers stay. *)
Definition step_cursor (m0 v : Z) : Z :=
  Z.lor (Z.land (wrap w (Z.lor v m0 + 1)) (lnot_w w m0)) (Z.land v m0).

Lemma step_cursor_spec k v :
  0 <= k <= w -> in_u w v ->
  step_cursor (2 ^ k - 1) v = v mod 2 ^ k + 2 ^ k * ((v / 2 ^ k + 1) mod 2 ^ (w - k)).
Proof.
  intros Hk Hv. unfold step_cursor. rewrite land_ones_wrap by lia. change (wrap k v) with (v mod 2 ^ k).
  rewrite Z.sub_1_r at 1. rewrite <- Z.ones_equiv, lor_ones by (lia || apply Hv).
  replace (v / 2 ^ k * 2 ^ k + (2 ^ k - 1) + 1) with (2 ^ k * (v / 2 ^ k + 1)) by lia.
  unfold wrap. replace (2 ^ w) with (2 ^ k * 2 ^ (w - k)) by (rewrite <- Z.pow_add_r by lia; f_equal; lia).
  rewrite Z.mul_mod_distr_l by lia. set (q := (v / 2 ^ k + 1) mod 2 ^ (w - k)).
  assert (0 <= q < 2 ^ (w - k)) as Hq by (apply Z.mod_pos_bound; lia).
  assert (in_u w (2 ^ k * q)) as Hr.
  { unfold in_u. replace (2 ^ w) with (2 ^ k * 2 ^ (w - k)) by (rewrite <- Z.pow_add_r by lia; f_equal; lia). nia. }
  assert (Z.land (2 ^ k * q) (lnot_w w (2 ^ k - 1)) = 2 ^ k * q) as ->.
  { apply Z.bits_inj'. intros i Hi. rewrite Z.land_spec. destruct (Z.lt_ge_cases i w).
    - rewrite lnot_w_testbit by lia. rewrite Z.mul_comm, <- Z.shiftl_mul_pow2, Z.shiftl_spec by lia.
      rewrite Z.sub_1_r, <- Z.ones_equiv. destruct (Z.lt_ge_cases i k).
      + by rewrite (Z.testbit_neg_r q) by lia.
      + rewrite Z.ones_spec_high by lia. apply andb_true_r.
    - by rewrite in_u_high by done. }
  assert (Z.land (2 ^ k * q) (v mod 2 ^ k) = 0) as Hl.
  { rewrite <- Z.land_ones, (Z.land_comm v), Z.land_assoc by lia.
    rewrite Z.land_ones, Z.mul_comm, Z.mod_mul by lia. done. }
  rewrite <- Z.lxor_lor, <- Z.add_nocarry_lxor by done. lia.
Qed.

Lemma mask_difference k0 k1 v :
  0 <= k0 <= k1 -> 0 <= v ->
  Z.land v (Z.lxor (2 ^ k0 - 1) (2 ^ k1 - 1)) = 2 ^ k0 * ((v / 2 ^ k0) mod 2 ^ (k1 - k0)).
Proof.
  intros Hk Hv. rewrite !Z.sub_1_r, <- !Z.ones_equiv.
  rewrite <- Z.land_ones, <- Z.shiftr_div_pow2, Z.mul_comm, <- Z.shiftl_mul_pow2 by lia.
  apply Z.bits_inj'. intros i Hi.
  rewrite Z.land_spec, Z.lxor_spec, Z.shiftl_spec by done.
  destruct (Z.lt_ge_cases i k0).
  - rewrite !Z.ones_spec_low, (Z.testbit_neg_r _ (i - k0)) by lia. apply andb_false_r.
  - rewrite Z.land_spec, Z.shiftr_spec, (Z.ones_spec_high k0) by lia.
    replace (i - k0 + k0) with i by lia. f_equal. destruct (Z.lt_ge_cases i k1).
    + by rewrite !Z.ones_spec_low by lia.
    + by rewrite !Z.ones_spec_high by lia.
Qed.

(** ** One call *)
Section Call.
Context {K V : Type} `{Countable K} (ty : dictType K V) `{!DictTypeOk ty}.
Implicit Types (d : dict K V) (ht : dictht K V) (e : dictEntry K V).

Definition hash_of e : Z := hashFunction ty (key e).

Lemma wf_ht_size ht :
  wf_ht ty ht -> is_Some (table ht) ->
  exists k, 0 <= k <= 30 /\ size ht = 2 ^ k /\ sizemask ht = 2 ^ k - 1.
Proof.
  unfold wf_ht. intros Hwf [t Ht]. rewrite Ht in Hwf.
  destruct Hwf as ((k & Hk & Hs) & Hm & _ & Hmask & _). exists k. rewrite Hmask, Hs in *.
  split_and!; try done. apply (Z.pow_le_mono_r_iff 2); [lia..|]. exact Hm.
Qed.

(** The bucket at an index masked by the table holds the entries whose hash
    agrees with the index on the masked bits. *)
Lemma bucket_mask ht k v :
  wf_ht ty ht -> is_Some (table ht) -> 0 <= k -> size ht = 2 ^ k -> sizemask ht = 2 ^ k - 1 -> 
  exists c, bucket ht (Z.land v (sizemask ht)) = Some c /\
    (forall e, e ∈ c -> e ∈ ht_entries ht) /\
    (forall e, e ∈ ht_entries ht -> hash_of e mod 2 ^ k = v mod 2 ^ k -> e ∈ c).
Proof.
  intros Hwf [t Ht] Hk Hs Hm.
  assert (forall z, Z.land z (sizemask ht) = z mod 2 ^ k) as Hland
    by (intros; rewrite Hm; by apply land_ones_wrap).
  destruct (bucket_slot ty ht t (Z.land v (sizemask ht))) as [c Hc]; [done..| |].
  { rewrite Hland, Hs. apply Z.mod_pos_bound. lia. }
  exists c. split_and!; [done|by intros; eapply bucket_entries|].
  intros e He Hh. eapply entry_bucket; [done|done|].
  rewrite Hland in Hc |- *. unfold hash_of in Hh. by rewrite Hh.
Qed.

Lemma scan_expansions_spec t1 k0 k1 fuel : forall v,
  wf_ht ty t1 -> is_Some (table t1) -> 0 <= k0 <= k1 -> k1 <= 30 -> size t1 = 2 ^ k1 ->
  sizemask t1 = 2 ^ k1 - 1 -> in_u w v ->
  2 ^ (k1 - k0) - (v / 2 ^ k0) mod 2 ^ (k1 - k0) <= Z.of_nat fuel ->
  exists es v', scan_expansions w fuel t1 (2 ^ k0 - 1) v = Some (es, v') /\ in_u w v' /\
    v' mod 2 ^ k0 = v mod 2 ^ k0 /\
    (forall e, e ∈ es -> e ∈ ht_entries t1) /\
    (forall e, e ∈ ht_entries t1 -> hash_of e mod 2 ^ k0 = v mod 2 ^ k0 ->
       (v / 2 ^ k0) mod 2 ^ (k1 - k0) <= (hash_of e / 2 ^ k0) mod 2 ^ (k1 - k0) -> e ∈ es).
Proof.
  induction fuel as [|fuel IH]; intros v Hwf Ht Hk Hk1 Hs Hm Hv Hf.
  { pose proof (Z.mod_pos_bound (v / 2 ^ k0) (2 ^ (k1 - k0)) ltac:(lia)). lia. }
  cbn [scan_expansions]. fold (step_cursor (2 ^ k0 - 1) v).
  destruct (bucket_mask t1 k1 v) as (c & -> & Hsub & Hc); [done..|lia|done|done|]. osimpl.
  pose proof (step_cursor_spec k0 v ltac:(lia) Hv) as Ev. set (v1 := step_cursor _ v) in *.
  set (q := v / 2 ^ k0) in *. set (n := 2 ^ (k1 - k0)) in *.
  assert (0 <= q) by (apply Z.div_pos; [apply Hv|lia]).
  pose proof (Z.mod_pos_bound q n ltac:(lia)) as Hqn.
  pose proof (Z.mod_pos_bound v (2 ^ k0) ltac:(lia)) as Ha.
  pose proof (Z.mod_pos_bound (q + 1) (2 ^ (w - k0)) ltac:(lia)) as Hq1.
  assert (2 ^ w = 2 ^ k0 * 2 ^ (w - k0)) as Hpw by (rewrite <- Z.pow_add_r by lia; f_equal; lia).
  assert (in_u w v1) as Hv1 by (unfold in_u; nia).
  assert (v1 mod 2 ^ k0 = v mod 2 ^ k0) as Hlow.
  { rewrite Ev, (Z.mul_comm (2 ^ k0)), Z.mod_add, Z.mod_mod by lia. done. }
  assert (v1 / 2 ^ k0 = (q + 1) mod 2 ^ (w - k0)) as Hhigh.
  { rewrite Ev, (Z.mul_comm (2 ^ k0)), Z.div_add, Z.div_small by lia. done. }
  assert ((v1 / 2 ^ k0) mod n = (q mod n + 1) mod n) as Hmid.
  { rewrite Hhigh, Zplus_mod_idemp_l. unfold n.
    replace (2 ^ (w - k0)) with (2 ^ (k1 - k0) * 2 ^ (w - k1))
      by (rewrite <- Z.pow_add_r by lia; f_equal; lia).
    apply Z.mod_mod_divide. by exists (2 ^ (w - k1)); rewrite Z.mul_comm. }
  assert (forall e, hash_of e mod 2 ^ k0 = v mod 2 ^ k0 ->
            (hash_of e / 2 ^ k0) mod n = q mod n -> hash_of e mod 2 ^ k1 = v mod 2 ^ k1) as Hsplit.
  { intros e E1 E2. replace (2 ^ k1) with (2 ^ k0 * n)
      by (unfold n; rewrite <- Z.pow_add_r by lia; f_equal; lia).
    rewrite !Z.rem_mul_r by lia. by rewrite E1, E2. }
  rewrite Hm, mask_difference by (lia || apply Hv1). fold n. rewrite Hmid.
  destruct (Z.lt_ge_cases (q mod n + 1) n) as [Hlt|Hge].
  - rewrite (Z.mod_small (q mod n + 1)) in * by lia.
    rewrite (proj2 (Z.eqb_neq _ _)) by nia. cbn [negb].
    destruct (IH v1 Hwf Ht Hk Hk1 Hs Hm Hv1) as (es & v' & -> & Hv' & Hlow' & Hes & Hall).
    { unfold n in *. lia. }
    osimpl. exists (c ++ es), v'. split_and!; try done.
    + congruence.
    + intros e [He|He]%elem_of_app; auto.
    + intros e He E1 E2. apply elem_of_app.
      destruct (decide ((hash_of e / 2 ^ k0) mod n = q mod n)); [left; auto|right].
      apply Hall; [done|congruence|]. fold n. lia.
  - replace (q mod n + 1) with n by lia. rewrite Z.mod_same, Z.mul_0_r by lia. cbn [negb Z.eqb].
    exists c, v1. split_and!; try done. intros e He E1 E2.
    pose proof (Z.mod_pos_bound (hash_of e / 2 ^ k0) n ltac:(lia)).
    apply Hc; [done|]. apply Hsplit; [done|]. lia.
Qed.

(** The number of buckets of the table the cursor moves through. *)
Definition scan_size d : Z :=
  if dictIsRehashing d then Z.min (size (ht0 d)) (size (ht1 d)) else size (ht0 d).

(** While rehashing: the smaller and the larger table. *)
Lemma scan_two_tables t0 t1 v :
  wf_ht ty t0 -> wf_ht ty t1 -> is_Some (table t0) -> is_Some (table t1) ->
  size t0 <= size t1 -> in_u w v ->
  exists k es v', 0 <= k <= 30 /\ size t0 = 2 ^ k /\
    (de ← bucket t0 (Z.land v (sizemask t0));
     '(es, v) ← scan_expansions w (S (Z.to_nat (size t1))) t1 (sizemask t0) v;
     Some (de ++ es, next_cursor w (sizemask t0) v)) = Some (es, v') /\ in_u w v' /\
    rev w v' = wrap w ((rev w v / 2 ^ (w - k) + 1) * 2 ^ (w - k)) /\
    (forall e, e ∈ es -> e ∈ ht_entries t0 ++ ht_entries t1) /\
    (v < size t0 -> forall e, e ∈ ht_entries t0 ++ ht_entries t1 ->
       hash_of e mod 2 ^ k = v mod 2 ^ k -> e ∈ es).
Proof.
  intros Hw0 Hw1 Ht0 Ht1 Hle Hv.
  destruct (wf_ht_size _ Hw0 Ht0) as (k0 & Hk0 & Hs0 & Hm0).
  destruct (wf_ht_size _ Hw1 Ht1) as (k1 & Hk1 & Hs1 & Hm1).
  assert (k0 <= k1) by (apply (Z.pow_le_mono_r_iff 2); lia).
  destruct (bucket_mask t0 k0 v Hw0 Ht0) as (c & -> & Hsub & Hc); [lia|done..|]. osimpl.
  destruct (scan_expansions_spec t1 k0 k1 (S (Z.to_nat (size t1))) v)
    as (es & v1 & E & Hv1 & Hlow & Hes & Hall); try done; try lia.
  { pose proof (Z.mod_pos_bound (v / 2 ^ k0) (2 ^ (k1 - k0)) ltac:(lia)).
    assert (2 ^ (k1 - k0) <= 2 ^ k1) by (apply Z.pow_le_mono_r; lia). lia. }
  rewrite Hm0, E. osimpl.
  destruct (next_cursor_spec k0 v1) as [Hn1 Hn2]; [lia|done|].
  eexists k0, _, _. split_and!; [lia|lia|done|done|done| |..].
  - rewrite Hn2. do 3 f_equal. apply rev_prefix; [lia|done..].
  - intros e [He|He]%elem_of_app; apply elem_of_app; auto.
  - intros Hlt e [He|He]%elem_of_app Hh; apply elem_of_app; [left; auto|right].
    apply Hall; [done..|]. rewrite (Z.div_small v) by (unfold in_u in Hv; lia).
    rewrite Z.mod_0_l by lia. apply Z.mod_pos_bound. lia.
Qed.

Lemma dictScan_spec d v :
  wf ty d -> dictSize d <> 0 -> in_u w v ->
  exists k es v', 0 <= k <= 30 /\ scan_size d = 2 ^ k /\
    dictScan w d v = Some (es, v') /\ in_u w v' /\
    rev w v' = wrap w ((rev w v / 2 ^ (w - k) + 1) * 2 ^ (w - k)) /\
    (forall e, e ∈ es -> e ∈ entries d) /\
    ((dictIsRehashing d = true -> v < scan_size d) ->
     forall e, e ∈ entries d -> hash_of e mod 2 ^ k = v mod 2 ^ k -> e ∈ es).
Proof.
  intros Hwf Hne Hv. unfold dictScan, scan_size.
  rewrite (proj2 (Z.eqb_neq _ _)) by done.
  destruct (dictIsRehashing d) eqn:Hr; cbn [negb].
  - destruct (wf_rehashing _ _ Hwf Hr) as (_ & Ht0 & Ht1 & _).
    destruct (Z.ltb_spec (size (ht1 d)) (size (ht0 d))).
    + destruct (scan_two_tables (ht1 d) (ht0 d) v) as (k & es & v' & Hk & Hs & E & Hv' & Hrev & Hes & Hall);
        try done; try lia; [by apply wf_ht1|by apply wf_ht0|].
      exists k, es, v'. rewrite E, Z.min_r by lia. unfold entries.
      split_and!; try done; try lia; setoid_rewrite elem_of_app; setoid_rewrite elem_of_app in Hes;
        setoid_rewrite elem_of_app in Hall; naive_solver.
    + destruct (scan_two_tables (ht0 d) (ht1 d) v) as (k & es & v' & Hk & Hs & E & Hv' & Hrev & Hes & Hall);
        try done; try lia; [by apply wf_ht0|by apply wf_ht1|].
      exists k, es, v'. rewrite E, Z.min_l by lia. unfold entries.
      split_and!; try done; try lia. naive_solver.
  - assert (is_Some (table (ht0 d))) as Ht.
    { destruct (table (ht0 d)) eqn:Ht; [done|]. destruct Hne. rewrite (used_size ty) by done.
      rewrite (wf_empty ty) by (done || by apply (wf_slots ty); [apply wf_ht0|]). done. }
    destruct (wf_ht_size _ (wf_ht0 _ _ Hwf) Ht) as (k & Hk & Hs & Hm).
    destruct (bucket_mask _ k v (wf_ht0 _ _ Hwf) Ht) as (c & -> & Hsub & Hc); [lia|done..|].
    osimpl. destruct (next_cursor_spec k v) as [Hn1 Hn2]; [lia|done|].
    rewrite Hm. eexists k, _, _. split_and!; try done; try lia.
    + intros e He. apply elem_of_app. auto.
    + intros _ e [He|He]%elem_of_app; [auto|].
      rewrite (not_rehashing_entries ty) in He by done. set_solver.
Qed.
(** ** A whole iteration *)
Lemma rev_low v k : 0 <= k <= w -> in_u w v -> rev w v mod 2 ^ (w - k) = 0 -> v < 2 ^ k.
Proof.
  intros Hk Hv Hr. assert (v = v mod 2 ^ k) as ->; [|apply Z.mod_pos_bound; lia].
  apply Z.bits_inj'. intros i Hi. destruct (Z.lt_ge_cases i k).
  - by rewrite Z.mod_pow2_bits_low by lia.
  - rewrite Z.mod_pow2_bits_high by lia. destruct (Z.lt_ge_cases i w); [|by apply in_u_high].
    rewrite <- (rev_rev v Hv), rev_testbit by lia.
    apply (f_equal (fun z => Z.testbit z (w - 1 - i))) in Hr.
    rewrite Z.mod_pow2_bits_low, Z.bits_0 in Hr by lia. done.
Qed.

Lemma rev_0 : rev w 0 = 0.
Proof. destruct w_ok as [-> | ->]; vm_compute; reflexivity. Qed.

Lemma rev_inj_0 v : in_u w v -> rev w v = 0 -> v = 0.
Proof. intros Hv E. by rewrite <- (rev_rev v Hv), E, rev_0. Qed.

(** What one call does to the position in the reversed order: it moves past
    exactly the keys it has to emit. *)
Lemma cursor_advance k v v' :
  0 <= k <= w -> in_u w v -> in_u w v' ->
  rev w v' = wrap w ((rev w v / 2 ^ (w - k) + 1) * 2 ^ (w - k)) ->
  v' < 2 ^ k /\ (v' = 0 \/ rev w v < rev w v') /\
  (forall h, in_u w h -> rev w v <= rev w h -> v' = 0 \/ rev w h < rev w v' ->
     h mod 2 ^ k = v mod 2 ^ k).
Proof.
  intros Hk Hv Hv' E. set (B := 2 ^ (w - k)) in *. assert (0 < B) by (unfold B; lia).
  pose proof (rev_range v Hv) as Hrv. set (r := rev w v) in *.
  assert (2 ^ w = 2 ^ k * B) as Hpw by (unfold B; rewrite <- Z.pow_add_r by lia; f_equal; lia).
  assert (0 <= r / B < 2 ^ k) as Hq.
  { split; [apply Z.div_pos; [apply Hrv|lia]|]. apply Z.div_lt_upper_bound; [lia|].
    unfold in_u in Hrv. lia. }
  pose proof (Z.div_mod r B ltac:(lia)) as Hdm. pose proof (Z.mod_pos_bound r B ltac:(lia)).
  assert (rev w v' = if r / B + 1 =? 2 ^ k then 0 else (r / B + 1) * B) as E'.
  { rewrite E. unfold wrap. rewrite Hpw. destruct (Z.eqb_spec (r / B + 1) (2 ^ k)) as [->|].
    - apply Z.mod_same. lia.
    - apply Z.mod_small. nia. }
  split_and!.
  - apply rev_low; [done..|]. fold B. rewrite E'. destruct (_ =? _); [by apply Z.mod_0_l; lia|].
    apply Z.mod_mul. lia.
  - destruct (Z.eqb_spec (r / B + 1) (2 ^ k)); [left; by apply rev_inj_0|right]. rewrite E'. nia.
  - intros h Hh Hle Hor. apply rev_prefix; [done..|]. fold B r.
    pose proof (rev_range h Hh) as Hrh. unfold in_u in Hrh. rewrite Hpw in Hrh.
    apply Z.le_antisymm; [|by apply Z.div_le_mono; lia].
    enough (rev w h / B < r / B + 1) by lia. apply Z.div_lt_upper_bound; [lia|].
    destruct (Z.eqb_spec (r / B + 1) (2 ^ k)) as [Eq|Hne]; [nia|].
    destruct Hor as [->|Hlt]; [|lia]. rewrite rev_0 in E'. nia.
Qed.

(** The tables may grow and shrink between the calls, but a call during a
    rehashing does not find a table smaller than those of the calls before. *)
Definition may_follow d d' : Prop :=
  dictIsRehashing d' = true -> scan_size d <= scan_size d'.

Definition has_key k d : Prop := is_Some (to_map d !! k).

Lemma has_key_entry k d : has_key k d <-> exists e, e ∈ entries d /\ key e = k.
Proof. unfold has_key. rewrite to_map_Some_key, list_elem_of_fmap. naive_solver. Qed.

Lemma hash_in_u e : in_u w (hash_of e).
Proof.
  destruct (hash_range (ty:=ty) (key e)) as [Hl Hh]. unfold in_u, hash_of. split; [done|].
  destruct w_ok as [-> | ->]; lia.
Qed.

Lemma scan_run_covers ds : forall v es k,
  in_u w v -> Forall (wf ty) ds -> StronglySorted may_follow ds ->
  Forall (fun d => dictIsRehashing d = true -> v < scan_size d) ds ->
  ds <> [] -> scan_run w v ds = Some (es, 0) -> Forall (has_key k) ds ->
  rev w v <= rev w (hashFunction ty k) -> k ∈ (key <$> es).
Proof.
  induction ds as [|d ds IH]; intros v es k Hv Hwf Hss Hsafe Hne Hrun Hk Hle; [done|].
  apply Forall_cons in Hwf as [Hwf Hwfs]. apply Forall_cons in Hsafe as [Hsafe _].
  apply Forall_cons in Hk as [Hk Hks]. apply StronglySorted_cons in Hss as [Hf Hss].
  apply has_key_entry in Hk as (e & He & <-). cbn [scan_run] in Hrun.
  assert (dictSize d <> 0) as Hsz.
  { rewrite (used_size ty) by done. destruct (entries d); [set_solver|done]. }
  destruct (dictScan_spec d v Hwf Hsz Hv) as (kk & es1 & v1 & Hkk & Hsc & E & Hv1 & Hrev & _ & Hall).
  rewrite E in Hrun. osimpl. cbn [mbind option_bind] in Hrun.
  apply bind_inv in Hrun as ([es2 v2] & Hrun & [= <- ->]).
  destruct (cursor_advance kk v v1) as (Hsmall & _ & Hblock); [lia|done..|].
  rewrite fmap_app. apply elem_of_app.
  destruct (decide (v1 = 0 \/ rev w (hash_of e) < rev w v1)) as [Hd|Hd].
  - left. apply list_elem_of_fmap. exists e. split; [done|]. apply Hall; [done..|].
    apply Hblock; [apply hash_in_u|done|done].
  - right. apply (IH v1); try done.
    + eapply Forall_impl; [exact Hf|]. intros d' Hd' Hr. specialize (Hd' Hr). lia.
    + intros ->. injection Hrun as _ ->. tauto.
    + unfold hash_of in Hd. lia.
Qed.

(** C3: what [dictScan] promises: the keys that are in the dictionary from the
    first call to the last are returned, although the dictionary may change
    between the calls and its tables may be resized and rehashed, as long as no
    call meets a rehashing into or from a table smaller than one an earlier
    call went through. *)
Theorem dictScan_complete ds es k :
  ds <> [] -> Forall (wf ty) ds -> StronglySorted may_follow ds ->
  scan_run w 0 ds = Some (es, 0) -> Forall (has_key k) ds -> k ∈ (key <$> es).
Proof.
  intros Hne Hwf Hss Hrun Hk. pose proof w_pos.
  apply (scan_run_covers ds 0); try done.
  - unfold in_u. lia.
  - rewrite Forall_forall in Hwf, Hk |- *. intros d Hd Hr.
    destruct (wf_rehashing _ _ (Hwf d Hd) Hr) as (_ & Ht0 & Ht1 & _).
    destruct (wf_ht_size _ (wf_ht0 _ _ (Hwf d Hd)) Ht0) as (? & ? & ? & _).
    destruct (wf_ht_size _ (wf_ht1 _ _ (Hwf d Hd)) Ht1) as (? & ? & ? & _).
    unfold scan_size. rewrite Hr. lia.
  - rewrite rev_0. apply rev_range. exact (hash_in_u (DictEntry k None)).
Qed.

Lemma may_follow_replicate n d : StronglySorted may_follow (replicate n d).
Proof.
  induction n; cbn; constructor; [done|]. apply Forall_replicate. unfold may_follow. lia.
Qed.

(** The calls on a dictionary that does not change. *)
Lemma scan_static d k n : forall v j,
  wf ty d -> dictSize d <> 0 -> 0 <= k -> scan_size d = 2 ^ k -> in_u w v ->
  rev w v = j * 2 ^ (w - k) -> 0 <= j -> j + Z.of_nat n = 2 ^ k -> (0 < n)%nat ->
  exists es, scan_run w v (replicate n d) = Some (es, 0) /\ (forall e, e ∈ es -> e ∈ entries d).
Proof.
  induction n as [|n IH]; intros v j Hwf Hsz Hk0 Hk Hv Hr Hj Hn Hpos; [lia|].
  cbn [replicate scan_run].
  destruct (dictScan_spec d v Hwf Hsz Hv) as (k' & es & v' & Hkr & Hk' & -> & Hv' & Hr' & Hsub & _).
  rewrite Hk in Hk'. apply Z.pow_inj_r in Hk' as <-; [|lia..].
  rewrite Hr, Z.div_mul in Hr' by lia. osimpl.
  assert (2 ^ w = 2 ^ k * 2 ^ (w - k)) as Hpw by (rewrite <- Z.pow_add_r by lia; f_equal; lia).
  destruct n as [|n].
  - exists es. cbn [replicate scan_run]. osimpl. rewrite app_nil_r. split; [|done].
    do 2 f_equal. apply rev_inj_0; [done|]. rewrite Hr'. unfold wrap.
    replace (j + 1) with (2 ^ k) by lia. rewrite Hpw. apply Z.mod_same. lia.
  - destruct (IH v' (j + 1)) as (es' & -> & Hsub'); try done; try lia.
    + rewrite Hr'. apply wrap_small. unfold in_u. nia.
    + osimpl. exists (es ++ es'). split; [done|]. intros e [He|He]%elem_of_app; auto.
Qed.

(** on a dictionary that does not change, the iteration ends after as many
    calls as the smaller of its tables has buckets, having returned every
    entry and nothing else. *)
Theorem dictScan_terminates d :
  wf ty d -> dictSize d <> 0 ->
  exists es, scan_run w 0 (replicate (Z.to_nat (scan_size d)) d) = Some (es, 0) /\
    (forall e, e ∈ es -> e ∈ entries d) /\
    (forall k, has_key k d -> k ∈ (key <$> es)).
Proof.
  intros Hwf Hsz. pose proof w_pos. assert (in_u w 0) as Hz by (unfold in_u; lia).
  destruct (dictScan_spec d 0 Hwf Hsz Hz) as (k & _ & _ & Hk & Hs & _).
  destruct (scan_static d k (Z.to_nat (scan_size d)) 0 0) as (es & E & Hsub); try done; try lia.
  { by rewrite rev_0. }
  exists es. split_and!; [done|done|]. intros k' Hk'.
  apply (scan_run_covers (replicate (Z.to_nat (scan_size d)) d) 0); try done.
  - by apply Forall_replicate.
  - apply may_follow_replicate.
  - apply Forall_replicate. lia.
  - destruct (Z.to_nat (scan_size d)) eqn:En; [lia|done].
  - by apply Forall_replicate.
  - rewrite rev_0. apply rev_range. exact (hash_in_u (DictEntry k' None)).
Qed.

End Call.
End Rev.
(** ** Examples *)
Definition delete_all (d : dict Z Z) (ks : list Z) : option (dict Z Z) :=
  foldr (fun k r => d ← r; '(d, _, _) ← dictDelete zty d k; Some d) (Some d) ks.

Definition ten : list (Z * Z) := (fun k => (k, 0)) <$> [0; 1; 2; 3; 4; 5; 6; 7; 8; 9].

(** Three keys left in thirty-two buckets, and the same dictionary after
    [dictResize] has started to shrink it to four. *)
Definition wide : dict Z Z :=
  default dictCreate (
    d ← dictAdds dictCreate ten;
    '(d, _) ← dictRehash zty d 100;
    delete_all d [1; 2; 3; 5; 6; 7; 9]).

Definition narrow : dict Z Z :=
  default dictCreate ('(d, _) ← dictResize 32 true wide; Some d).

Lemma delete_all_wf ks : forall d d', wf zty d -> delete_all d ks = Some d' -> wf zty d'.
Proof.
  induction ks as [|k ks IH]; intros d d' Hwf; cbn; [by intros [= <-]|].
  intros (d1 & H1 & H2)%bind_inv. specialize (IH _ _ Hwf H1).
  destruct (dictGenericDelete_spec zty d1 k false IH) as (d2 & st & ev & E & Hwf2 & _).
  unfold dictDelete in H2. rewrite E in H2. by injection H2 as <-.
Qed.

Lemma create_wf : wf zty dictCreate.
Proof. constructor; try done; [constructor|by left]. Qed.

Lemma wide_wf : wf zty wide.
Proof.
  assert (exists d, (d ← dictAdds dictCreate ten; '(d, _) ← dictRehash zty d 100;
                     delete_all d [1; 2; 3; 5; 6; 7; 9]) = Some d /\ wide = d) as (d & E & ->).
  { eexists. split; [vm_compute; reflexivity|vm_compute; reflexivity]. }
  apply bind_inv in E as (d1 & E1 & E). apply bind_inv in E as ([d2 m] & E2 & E).
  assert (wf zty d1) as Hwf1 by (eapply dictAdds_wf; [apply create_wf| |exact E1]; vm_compute; discriminate).
  destruct (dictRehash_spec zty d1 100 Hwf1) as (d3 & m3 & E3 & Hwf3 & _).
  rewrite E3 in E2. injection E2 as -> ->. by eapply delete_all_wf.
Qed.

Lemma narrow_wf : wf zty narrow.
Proof.
  destruct (dictResize_spec zty 32 true ltac:(done) wide wide_wf) as (d & st & E & Hwf & _).
  { vm_compute. discriminate. }
  unfold narrow. rewrite E. exact Hwf.
Qed.

(** C28: the promise of [dictScan] does not extend to tables that shrink: keys 0,
    4 and 8 are in the dictionary at every call, [dictResize] starts shrinking
    it after the first call, and the completed iteration has returned neither 4
    nor 8. The cursor 16 of the second call has a bit between the two masks, and
    the loop over the larger table counts upwards from it in the order of the
    numbers, which skips buckets 4 and 8. *)
Theorem dictScan_misses_when_shrinking :
  exists es, scan_run 32 0 [wide; narrow; narrow; narrow; narrow] = Some (es, 0) /\
    Forall (wf zty) [wide; narrow] /\ Forall (has_key 4) [wide; narrow] /\
    (4 ∉ (key <$> es)).
Proof.
  exists [DictEntry 0 (Some 0)]. split_and!.
  - vm_compute. reflexivity.
  - by apply Forall_cons_2; [apply wide_wf|apply Forall_singleton, narrow_wf].
  - apply Forall_cons_2; [|apply Forall_singleton]; exists (Some 0); vm_compute; reflexivity.
  - cbn. set_solver.
Qed.

Lemma dictScan_complete_witness :
  exists es, scan_run 64 0 (replicate 4 d5) = Some (es, 0) /\ (9 ∈ (key <$> es)).
Proof.
  eexists. split; [vm_compute; reflexivity|].
  apply (dictScan_complete 64 (or_intror eq_refl) zty (replicate 4 d5)).
  - discriminate.
  - apply Forall_replicate, d5_wf.
  - apply may_follow_replicate.
  - vm_compute. reflexivity.
  - apply Forall_replicate. exists (Some 90). vm_compute. reflexivity.
Defined.

Lemma dictScan_terminates_witness :
  dictSize d5 <> 0 /\
  exists es, scan_run 32 0 (replicate (Z.to_nat (scan_size d5)) d5) = Some (es, 0).
Proof.
  assert (dictSize d5 <> 0) as Hsz by (vm_compute; discriminate). split; [exact Hsz|].
  destruct (dictScan_terminates 32 (or_introl eq_refl) zty d5 d5_wf Hsz) as (es & E & _).
  exists es. exact E.
Defined.

End DictScan.
