(* ===== verification/Adlist.v ===== *)
(** * Doubly linked lists (src/redis-2.8/src/adlist.c, adlist.h)

    The nodes live in a heap, a finite map from locations to nodes; reading or
    writing through a pointer that is null or dangling is [None]. The list
    header is a record. [zmalloc] is the allocator. *)
From stdpp Require Import base tactics list numbers option gmap fin_maps fin_map_dom.
From Stdlib Require Import ZArith Lia.
From S2P Require Import Prelude.
Open Scope Z_scope.

Module Adlist.

Definition loc : Type := positive.
Definition ptr : Type := option loc.

Record listNode (V : Type) := Node { prev : ptr; next : ptr; value : V }.
Arguments Node {V}.
Arguments prev {V}.
Arguments next {V}.
Arguments value {V}.

(** [match] is a keyword, so the comparison function is called [matchf]. *)
Record list_t (V : Type) := List {
  head : ptr;
  tail : ptr;
  dup : option (V -> option V);
  free : bool;
  matchf : option (V -> V -> bool);
  len : Z
}.
Arguments List {V}.
Arguments head {V}.
Arguments tail {V}.
Arguments dup {V}.
Arguments free {V}.
Arguments matchf {V}.
Arguments len {V}.

Inductive direction_t := AL_START_HEAD | AL_START_TAIL.
Record listIter := Iter { it_next : ptr; direction : direction_t }.

Section Ops.
Context {V : Type} `{EqDecision V}.
Abbreviation heap := (gmap loc (listNode V)).
Context (zmalloc : heap -> ptr).
Implicit Types (h : heap) (l : list_t V) (p : ptr) (a : loc) (v : V).

(** ** Reading and writing through a pointer *)
Definition deref h p : option (listNode V) := a ← p; h !! a.

Definition set_next h p (x : ptr) : option heap :=
  a ← p; n ← h !! a; Some (<[a := Node (prev n) x (value n)]> h).

Definition set_prev h p (x : ptr) : option heap :=
  a ← p; n ← h !! a; Some (<[a := Node x (next n) (value n)]> h).

Definition with_ends l (hd tl : ptr) (n : Z) : list_t V :=
  List hd tl (dup l) (free l) (matchf l) n.

Definition free_value l v : list V := if free l then [v] else [].

(** ** The operations

    [Some None] is a null result: the allocator failed. *)
Definition listCreate : list_t V := List None None None false None 0.

Definition listAddNodeHead h l v : option (option (heap * list_t V)) :=
  match zmalloc h with
  | None => Some None
  | Some node =>
      if len l =? 0 then
        Some (Some (<[node := Node None None v]> h,
                    with_ends l (Some node) (Some node) (len l + 1)))
      else
        let h := <[node := Node None (head l) v]> h in
        h ← set_prev h (head l) (Some node);
        Some (Some (h, with_ends l (Some node) (tail l) (len l + 1)))
  end.

Definition listAddNodeTail h l v : option (option (heap * list_t V)) :=
  match zmalloc h with
  | None => Some None
  | Some node =>
      if len l =? 0 then
        Some (Some (<[node := Node None None v]> h,
                    with_ends l (Some node) (Some node) (len l + 1)))
      else
        let h := <[node := Node (tail l) None v]> h in
        h ← set_next h (tail l) (Some node);
        Some (Some (h, with_ends l (head l) (Some node) (len l + 1)))
  end.

Definition listInsertNode h l (old_node : ptr) v (after : bool)
  : option (option (heap * list_t V)) :=
  match zmalloc h with
  | None => Some None
  | Some node =>
      o ← deref h old_node;
      let nprev := if after then old_node else prev o in
      let nnext := if after then next o else old_node in
      let tl := if after && bool_decide (tail l = old_node) then Some node else tail l in
      let hd := if negb after && bool_decide (head l = old_node) then Some node else head l in
      let h := <[node := Node nprev nnext v]> h in
      h ← (match nprev with Some _ => set_next h nprev (Some node) | None => Some h end);
      h ← (match nnext with Some _ => set_prev h nnext (Some node) | None => Some h end);
      Some (Some (h, with_ends l hd tl (len l + 1)))
  end.

(** The last component is the call of the list's [free] function. *)
Definition listDelNode h l (node : ptr) : option (heap * list_t V * list V) :=
  n ← deref h node;
  '(h, hd) ← (match prev n with
              | Some _ => h ← set_next h (prev n) (next n); Some (h, head l)
              | None => Some (h, next n)
              end);
  '(h, tl) ← (match next n with
              | Some _ => h ← set_prev h (next n) (prev n); Some (h, tail l)
              | None => Some (h, prev n)
              end);
  n ← deref h node;
  a ← node;
  Some (delete a h, with_ends l hd tl (len l - 1), free_value l (value n)).

(** [while(len--)] *)
Fixpoint release_loop (n : nat) h l (current : ptr) : option (heap * list V) :=
  match n with
  | O => Some (h, [])
  | S n =>
      c ← deref h current;
      a ← current;
      '(h, fs) ← release_loop n (delete a h) l (next c);
      Some (h, free_value l (value c) ++ fs)
  end.

Definition listRelease h l : option (heap * list V) :=
  release_loop (Z.to_nat (len l)) h l (head l).

Definition listGetIterator l (d : direction_t) : listIter :=
  match d with
  | AL_START_HEAD => Iter (head l) d
  | AL_START_TAIL => Iter (tail l) d
  end.

Definition listRewind l : listIter := Iter (head l) AL_START_HEAD.
Definition listRewindTail l : listIter := Iter (tail l) AL_START_TAIL.

Definition listNext h (it : listIter) : option (listIter * ptr) :=
  let current := it_next it in
  match current with
  | None => Some (it, current)
  | Some _ =>
      c ← deref h current;
      Some (Iter (match direction it with AL_START_HEAD => next c | AL_START_TAIL => prev c end)
                 (direction it), current)
  end.

(** The copying loop; [None] inside is the null result, after the partial copy
    was released. The fuel is the number of nodes left. *)
Fixpoint dup_loop (fuel : nat) h (copy : list_t V) (it : listIter)
  : option (heap * option (list_t V)) :=
  '(it, node) ← listNext h it;
  match node with
  | None => Some (h, Some copy)
  | Some a =>
      match fuel with
      | O => None
      | S fuel =>
          n ← h !! a;
          match (match dup copy with Some f => f (value n) | None => Some (value n) end) with
          | None => '(h, _) ← listRelease h copy; Some (h, None)
          | Some v =>
              r ← listAddNodeTail h copy v;
              match r with
              | None => '(h, _) ← listRelease h copy; Some (h, None)
              | Some (h, copy) => dup_loop fuel h copy it
              end
          end
      end
  end.

Definition listDup h (orig : list_t V) : option (heap * option (list_t V)) :=
  let copy := List None None (dup orig) (free orig) (matchf orig) 0 in
  dup_loop (Z.to_nat (len orig)) h copy (listGetIterator orig AL_START_HEAD).

Fixpoint search_loop (fuel : nat) h l (it : listIter) (k : V) : option ptr :=
  '(it, node) ← listNext h it;
  match node with
  | None => Some None
  | Some a =>
      match fuel with
      | O => None
      | S fuel =>
          n ← h !! a;
          if (match matchf l with Some f => f (value n) k | None => bool_decide (k = value n) end)
          then Some (Some a) else search_loop fuel h l it k
      end
  end.

Definition listSearchKey h l (k : V) : option ptr :=
  search_loop (Z.to_nat (len l)) h l (listGetIterator l AL_START_HEAD) k.

(** [while(index-- && n) n = n->next], and the same towards the head. *)
Fixpoint index_loop (i : nat) h (n : ptr) (d : direction_t) : option ptr :=
  match i, n with
  | S i, Some _ =>
      x ← deref h n;
      index_loop i h (match d with AL_START_HEAD => next x | AL_START_TAIL => prev x end) d
  | _, _ => Some n
  end.

Definition listIndex h l (index : Z) : option ptr :=
  if index <? 0 then index_loop (Z.to_nat (- index - 1)) h (tail l) AL_START_TAIL
  else index_loop (Z.to_nat index) h (head l) AL_START_HEAD.

Definition listRotate h l : option (heap * list_t V) :=
  let tl := tail l in
  if len l <=? 1 then Some (h, l)
  else
    t ← deref h tl;
    let ltail := prev t in
    h ← set_next h ltail None;
    h ← set_prev h (head l) tl;
    h ← set_prev h tl None;
    h ← set_next h tl (head l);
    Some (h, with_ends l tl ltail (len l)).

End Ops.

(** ** The nodes of a list

    [dseg h p ns n]: the nodes [ns], locations with their values, are linked in
    the heap, between the pointers [p] and [n]. *)
Section Repr.
Context {V : Type} `{EqDecision V}.
Abbreviation heap := (gmap loc (listNode V)).
Implicit Types (h : heap) (l : list_t V) (p n : ptr) (a : loc) (v : V) (ns : list (loc * V)).

Definition first ns n : ptr := match ns with [] => n | (a, _) :: _ => Some a end.

Fixpoint final p ns : ptr := match ns with [] => p | (a, _) :: ns => final (Some a) ns end.

Fixpoint dseg h p ns n : Prop :=
  match ns with
  | [] => True
  | (a, v) :: ns => h !! a = Some (Node p (first ns n) v) /\ dseg h (Some a) ns n
  end.

Record repr h l ns : Prop := Repr {
  repr_head : head l = first ns None;
  repr_tail : tail l = final None ns;
  repr_len : len l = zlen ns;
  repr_nodup : NoDup ns.*1;
  repr_seg : dseg h None ns None
}.

(** [h'] differs from [h] at the locations [X] only. *)
Definition frame (X : list loc) h h' : Prop := forall b, b ∉ X -> h' !! b = h !! b.

Definition same_methods l l' : Prop :=
  dup l' = dup l /\ free l' = free l /\ matchf l' = matchf l.

Lemma first_app ns1 ns2 n : first (ns1 ++ ns2) n = first ns1 (first ns2 n).
Proof. by destruct ns1 as [|[]]. Qed.

Lemma final_app ns1 : forall p ns2, final p (ns1 ++ ns2) = final (final p ns1) ns2.
Proof. induction ns1 as [|[a v] ns1 IH]; intros; simpl; auto. Qed.

Lemma dseg_app ns1 : forall h p ns2 n,
  dseg h p (ns1 ++ ns2) n <-> dseg h p ns1 (first ns2 n) /\ dseg h (final p ns1) ns2 n.
Proof.
  induction ns1 as [|[a v] ns1 IH]; intros; simpl; [tauto|].
  rewrite IH, first_app. tauto.
Qed.

Lemma dseg_frame ns : forall h h' p n,
  dseg h p ns n -> (forall b, b ∈ ns.*1 -> h' !! b = h !! b) -> dseg h' p ns n.
Proof.
  induction ns as [|[a v] ns IH]; intros h h' p n; simpl; [done|].
  intros [Ha Hs] Hf. split; [rewrite Hf by set_solver; done|].
  eapply IH; [done|]. intros b Hb. apply Hf. set_solver.
Qed.

Lemma dseg_lookup ns1 h p a v ns2 n :
  dseg h p (ns1 ++ (a, v) :: ns2) n -> h !! a = Some (Node (final p ns1) (first ns2 n) v).
Proof. rewrite dseg_app. simpl. tauto. Qed.

Lemma final_None ns : final None ns = None <-> ns = [].
Proof.
  destruct ns as [|[a v] ns]; simpl; [done|]. split; [|done].
  revert a v. induction ns as [|[b w] ns IH]; intros a v; simpl; [done|].
  intros H. by specialize (IH b w H).
Qed.

Lemma final_in ns : forall p a, final p ns = Some a -> ns <> [] -> a ∈ ns.*1.
Proof.
  induction ns as [|[b w] ns IH]; intros p a; simpl; [done|]. intros Hf _.
  destruct ns; [simpl in Hf; injection Hf as <-; set_solver|].
  apply elem_of_cons. right. by eapply IH.
Qed.

(** Redirecting the pointer that leaves a segment at its end, and the one that
    leaves it at its start. *)
Lemma link_next ns h n n' b :
  dseg h None ns n -> NoDup ns.*1 -> final None ns = Some b ->
  exists h', set_next h (Some b) n' = Some h' /\ dseg h' None ns n' /\ frame [b] h h'.
Proof.
  destruct ns as [|[a v] ns _] using rev_ind; [done|].
  rewrite final_app, fmap_app. simpl. intros Hs Hn [= <-].
  pose proof (dseg_lookup ns h None a v [] n Hs) as Ha. cbn [set_next].
  unfold set_next. osimpl. rewrite Ha. osimpl. cbn [prev value]. eexists. split; [done|].
  split; [|intros c Hc; apply lookup_insert_ne; set_solver].
  rewrite dseg_app in Hs |- *. simpl in *. destruct Hs as [Hs _].
  split; [|by rewrite lookup_insert_eq]. eapply dseg_frame; [done|].
  intros c Hc. apply lookup_insert_ne. intros <-.
  apply NoDup_app in Hn as (_ & Hn & _). apply (Hn a); [done|set_solver].
Qed.

Lemma link_prev ns h p p' b :
  dseg h p ns None -> NoDup ns.*1 -> first ns None = Some b ->
  exists h', set_prev h (Some b) p' = Some h' /\ dseg h' p' ns None /\ frame [b] h h'.
Proof.
  destruct ns as [|[a v] ns]; [done|]. simpl. intros [Ha Hs] Hn [= <-].
  unfold set_prev. osimpl. rewrite Ha. osimpl. cbn [next value]. eexists. split; [done|].
  split; [|intros c Hc; apply lookup_insert_ne; set_solver].
  apply NoDup_cons in Hn as [Hn _]. split; [by rewrite lookup_insert_eq|].
  eapply dseg_frame; [done|]. intros c Hc. apply lookup_insert_ne. set_solver.
Qed.

(** ** The operations on the sequence of nodes *)
Lemma dseg_in ns : forall h p n a, dseg h p ns n -> a ∈ ns.*1 -> is_Some (h !! a).
Proof.
  induction ns as [|[b v] ns IH]; intros h p n a; simpl; [set_solver|].
  intros [Hb Hs] [->|Ha]%elem_of_cons; [by eexists|by eapply IH].
Qed.

Lemma dseg_insert_fresh h a x p ns n :
  a ∉ ns.*1 -> dseg h p ns n -> dseg (<[a := x]> h) p ns n.
Proof.
  intros Ha Hs. eapply dseg_frame; [done|]. intros b Hb. apply lookup_insert_ne. set_solver.
Qed.

Lemma frame_insert X a x h h' :
  frame X (<[a := x]> h) h' -> frame (a :: X) h h'.
Proof. intros Hf b Hb. rewrite Hf by set_solver. apply lookup_insert_ne. set_solver. Qed.

Lemma frame_weaken X Y h h' : frame X h h' -> (forall b, b ∈ X -> b ∈ Y) -> frame Y h h'.
Proof. intros Hf Hs b Hb. apply Hf. auto. Qed.

Lemma frame_trans X Y h1 h2 h3 : frame X h1 h2 -> frame Y h2 h3 -> frame (X ++ Y) h1 h3.
Proof. intros H1 H2 b Hb. rewrite H2, H1 by set_solver. done. Qed.

Lemma frame_node h h' b a x : frame [b] (<[a := x]> h) h' -> a <> b -> h' !! a = Some x.
Proof. intros Hf Hne. rewrite Hf by set_solver. apply lookup_insert_eq. Qed.

(** Putting a new node between two segments of a list: what [listInsertNode],
    [listAddNodeHead] and [listAddNodeTail] have in common. *)
Lemma insert_between h ns1 ns2 a v :
  a ∉ (ns1 ++ ns2).*1 -> NoDup (ns1 ++ ns2).*1 -> dseg h None (ns1 ++ ns2) None ->
  let h0 := <[a := Node (final None ns1) (first ns2 None) v]> h in
  exists h1 h2,
    (match final None ns1 with Some _ => set_next h0 (final None ns1) (Some a) | None => Some h0 end)
      = Some h1 /\
    (match first ns2 None with Some _ => set_prev h1 (first ns2 None) (Some a) | None => Some h1 end)
      = Some h2 /\
    dseg h2 None (ns1 ++ (a, v) :: ns2) None /\ frame (a :: (ns1 ++ ns2).*1) h h2.
Proof.
  rewrite fmap_app. intros Ha Hn Hs h0. apply dseg_app in Hs as [Hs1 Hs2].
  apply NoDup_app in Hn as (Hn1 & Hdisj & Hn2).
  assert (dseg h0 None ns1 (first ns2 None)) as H1 by (apply dseg_insert_fresh; set_solver).
  assert (dseg h0 (final None ns1) ns2 None) as H2 by (apply dseg_insert_fresh; set_solver).
  assert (exists h1, (match final None ns1 with
                      | Some _ => set_next h0 (final None ns1) (Some a) | None => Some h0 end) = Some h1 /\
            dseg h1 None ns1 (Some a) /\ frame ns1.*1 h0 h1) as (h1 & E1 & Hs1' & Hf1).
  { destruct (final None ns1) as [b|] eqn:Hb.
    - destruct (link_next ns1 h0 _ (Some a) b H1 Hn1 Hb) as (h1 & E & Hs' & Hf).
      exists h1. split_and!; try done. eapply frame_weaken; [done|].
      intros c ->%list_elem_of_singleton. eapply final_in; [done|]. by intros ->.
    - apply final_None in Hb as ->. by exists h0. }
  assert (dseg h1 (final None ns1) ns2 None) as H2'.
  { eapply dseg_frame; [exact H2|]. intros b Hb. apply Hf1. intros Hb1. by apply (Hdisj b). }
  assert (exists h2, (match first ns2 None with
                      | Some _ => set_prev h1 (first ns2 None) (Some a) | None => Some h1 end) = Some h2 /\
            dseg h2 (Some a) ns2 None /\ frame ns2.*1 h1 h2) as (h2 & E2 & Hs2' & Hf2).
  { destruct (first ns2 None) as [b|] eqn:Hb.
    - destruct (link_prev ns2 h1 _ (Some a) b H2' Hn2 Hb) as (h2 & E & Hs' & Hf).
      exists h2. split_and!; try done. eapply frame_weaken; [done|].
      intros c ->%list_elem_of_singleton. destruct ns2 as [|[]]; [done|]. simpl in *. set_solver.
    - destruct ns2 as [|[]]; [|done]. by exists h1. }
  exists h1, h2. split_and!; try done.
  - apply dseg_app. split; [|simpl; split].
    + eapply dseg_frame; [exact Hs1'|]. intros b Hb. apply Hf2. intros Hb2. by apply (Hdisj b).
    + rewrite Hf2, Hf1 by set_solver. apply lookup_insert_eq.
    + done.
  - eapply frame_insert, frame_trans; [exact Hf1|exact Hf2].
Qed.

Lemma repr_insert h h2 l ns1 ns2 a v :
  repr h l (ns1 ++ ns2) -> a ∉ (ns1 ++ ns2).*1 -> dseg h2 None (ns1 ++ (a, v) :: ns2) None ->
  forall hd tl, hd = first (ns1 ++ (a, v) :: ns2) None -> tl = final None (ns1 ++ (a, v) :: ns2) ->
  repr h2 (with_ends l hd tl (len l + 1)) (ns1 ++ (a, v) :: ns2).
Proof.
  intros [Hh Ht Hl Hn Hs] Ha Hs2 hd tl -> ->. constructor; simpl; try done.
  - rewrite Hl, !length_app. simpl. lia.
  - rewrite fmap_app, fmap_cons. rewrite fmap_app in Hn, Ha.
    apply NoDup_app in Hn as (Hn1 & Hd & Hn2). apply NoDup_app. split_and!; [done| |].
    + intros b Hb. simpl. apply not_elem_of_cons. split; [intros ->; set_solver|]. auto.
    + simpl. constructor; [set_solver|done].
Qed.

Lemma first_notin ns1 o w ns2 :
  NoDup (ns1 ++ (o, w) :: ns2).*1 ->
  first (ns1 ++ (o, w) :: ns2) None = Some o <-> ns1 = [].
Proof.
  destruct ns1 as [|[b x] ns1]; simpl; [done|]. intros [Hb _]%NoDup_cons.
  split; [|done]. intros [= ->]. destruct Hb. rewrite fmap_app. set_solver.
Qed.

Lemma final_notin ns1 o w ns2 :
  NoDup (ns1 ++ (o, w) :: ns2).*1 ->
  final None (ns1 ++ (o, w) :: ns2) = Some o <-> ns2 = [].
Proof.
  rewrite final_app. simpl. rewrite fmap_app, fmap_cons. intros (_ & _ & Hn)%NoDup_app.
  simpl in Hn. apply NoDup_cons in Hn as [Hn _]. split; [|by intros ->].
  intros Hf. destruct ns2; [done|]. destruct Hn. by eapply final_in.
Qed.

(** [listDelNode] removes the node and frees it, passes its value to the
    free method when there is one, and links its neighbours to each other. *)
Lemma listDelNode_refines h l ns1 a v ns2 :
  repr h l (ns1 ++ (a, v) :: ns2) ->
  exists h' l', listDelNode h l (Some a) = Some (h', l', free_value l v) /\
    repr h' l' (ns1 ++ ns2) /\ same_methods l l' /\ h' !! a = None /\
    frame (ns1 ++ (a, v) :: ns2).*1 h h'.
Proof.
  intros [Hh Ht Hl Hn Hs]. pose proof (dseg_lookup _ _ _ _ _ _ _ Hs) as Ha.
  unfold listDelNode, deref. osimpl. rewrite Ha. osimpl. cbn [prev next].
  apply dseg_app in Hs as [Hs1 [_ Hs2]]. rewrite fmap_app, fmap_cons in Hn |- *. simpl in *.
  apply NoDup_app in Hn as (Hn1 & Hd & Hn2). apply NoDup_cons in Hn2 as [Ha2 Hn2].
  assert (a ∉ ns1.*1) as Ha1 by (intros H1; apply (Hd a H1); set_solver).
  assert (exists h1, (match final None ns1 with
            | Some _ => h ← set_next h (final None ns1) (first ns2 None); Some (h, head l)
            | None => Some (h, first ns2 None) end) = Some (h1, first (ns1 ++ ns2) None) /\
          dseg h1 None ns1 (first ns2 None) /\ frame ns1.*1 h h1) as (h1 & -> & Hs1' & Hf1).
  { destruct (final None ns1) as [b|] eqn:Hb.
    - destruct (link_next ns1 h _ (first ns2 None) b Hs1 Hn1 Hb) as (h1 & -> & Hs' & Hf).
      osimpl. exists h1. split_and!; try done.
      + rewrite Hh. by destruct ns1 as [|[]].
      + eapply frame_weaken; [done|]. intros c ->%list_elem_of_singleton.
        eapply final_in; [done|]. by intros ->.
    - apply final_None in Hb as ->. by exists h. }
  osimpl.
  assert (dseg h1 (Some a) ns2 None) as Hs2'.
  { eapply dseg_frame; [exact Hs2|]. intros b Hb. apply Hf1. intros Hb1. apply (Hd b Hb1). set_solver. }
  assert (exists h2, (match first ns2 None with
            | Some _ => h ← set_prev h1 (first ns2 None) (final None ns1); Some (h, tail l)
            | None => Some (h1, final None ns1) end) = Some (h2, final None (ns1 ++ ns2)) /\
          dseg h2 (final None ns1) ns2 None /\ frame ns2.*1 h1 h2) as (h2 & -> & Hs2'' & Hf2).
  { destruct (first ns2 None) as [b|] eqn:Hb.
    - destruct (link_prev ns2 h1 _ (final None ns1) b Hs2' Hn2 Hb) as (h2 & -> & Hs' & Hf).
      osimpl. exists h2. split_and!; try done.
      + rewrite Ht, !final_app. by destruct ns2 as [|[]].
      + eapply frame_weaken; [done|]. intros c ->%list_elem_of_singleton.
        destruct ns2 as [|[]]; [done|]. simpl in *. set_solver.
    - destruct ns2 as [|[]]; [|done]. exists h1. by rewrite app_nil_r. }
  osimpl. rewrite Hf2, Hf1, Ha by done. osimpl. cbn [value].
  eexists _, _. split; [done|]. split_and!; try done.
  - constructor; simpl; try done.
    + rewrite Hl, !length_app. simpl. lia.
    + rewrite fmap_app. apply NoDup_app. split_and!; [done| |done]. intros b Hb. set_solver.
    + apply dseg_app. split.
      * eapply dseg_frame; [exact Hs1'|]. intros b Hb. rewrite lookup_delete_ne by set_solver.
        apply Hf2. intros Hb2. apply (Hd b Hb). set_solver.
      * eapply dseg_frame; [exact Hs2''|]. intros b Hb. apply lookup_delete_ne. set_solver.
  - apply lookup_delete_eq.
  - intros b Hb. rewrite lookup_delete_ne by set_solver. rewrite Hf2, Hf1; set_solver.
Qed.

(** ** Releasing, searching, indexing *)
Lemma release_loop_spec ns : forall h l,
  NoDup ns.*1 -> forall p, dseg h p ns None ->
  exists h', release_loop (length ns) h l (first ns None) = Some (h', ns.*2 ≫= free_value l) /\
    (forall b, b ∈ ns.*1 -> h' !! b = None) /\ frame ns.*1 h h'.
Proof.
  induction ns as [|[a v] ns IH]; intros h l Hn p Hs; simpl.
  { exists h. split_and!; try done. set_solver. }
  destruct Hs as [Ha Hs]. simpl in Hn. apply NoDup_cons in Hn as [Hna Hn].
  unfold deref. osimpl. rewrite Ha. osimpl. cbn [next value].
  destruct (IH (delete a h) l Hn (Some a)) as (h' & -> & Hgone & Hf).
  { eapply dseg_frame; [done|]. intros b Hb. apply lookup_delete_ne. set_solver. }
  osimpl. exists h'. split_and!; try done.
  - intros b [->|Hb]%elem_of_cons; [|auto]. rewrite Hf by done. apply lookup_delete_eq.
  - intros b Hb. rewrite Hf by set_solver. apply lookup_delete_ne. set_solver.
Qed.

(** [listRelease] frees every node of the list, and no other block, and
    passes every value once to the free method when there is one. *)
Lemma listRelease_frees_all h l ns :
  repr h l ns ->
  exists h', listRelease h l = Some (h', ns.*2 ≫= free_value l) /\
    (forall b, b ∈ ns.*1 -> h' !! b = None) /\ frame ns.*1 h h'.
Proof.
  intros [Hh _ Hl Hn Hs]. unfold listRelease. rewrite Hl, Hh, Nat2Z.id.
  by eapply release_loop_spec.
Qed.

Lemma index_head ns : forall h p i,
  dseg h p ns None -> index_loop i h (first ns None) AL_START_HEAD = Some (fst <$> ns !! i).
Proof.
  induction ns as [|[a v] ns IH]; intros h p i Hs; [by destruct i|].
  destruct Hs as [Ha Hs]. destruct i as [|i]; cbn [index_loop first]; [done|].
  unfold deref. osimpl. rewrite Ha. osimpl. cbn [next]. by eapply IH.
Qed.

Lemma index_tail ns : forall h n i,
  dseg h None ns n -> index_loop i h (final None ns) AL_START_TAIL = Some (fst <$> reverse ns !! i).
Proof.
  induction ns as [|[a v] ns IH] using rev_ind; intros h n i Hs; [by destruct i|].
  rewrite final_app, reverse_snoc. cbn [final]. pose proof (dseg_lookup _ _ _ _ _ _ _ Hs) as Ha.
  apply dseg_app in Hs as [Hs _]. destruct i as [|i]; cbn [index_loop]; [done|].
  unfold deref. osimpl. rewrite Ha. osimpl. cbn [prev]. by eapply IH.
Qed.

(** [listIndex] counts from the head for an index that is not negative, from
    the tail otherwise, and is null outside the list. *)
Lemma listIndex_refines h l ns i :
  repr h l ns ->
  listIndex h l i =
    Some (fst <$> if i <? 0 then reverse ns !! Z.to_nat (- i - 1) else ns !! Z.to_nat i).
Proof.
  intros [Hh Ht _ _ Hs]. unfold listIndex. destruct (i <? 0).
  - rewrite Ht. by eapply index_tail.
  - rewrite Hh. by eapply index_head.
Qed.

Definition matches l (k v : V) : bool :=
  match matchf l with Some f => f v k | None => bool_decide (k = v) end.

Lemma search_nodes_spec ns : forall h l p k,
  dseg h p ns None ->
  exists r, search_loop (length ns) h l (Iter (first ns None) AL_START_HEAD) k = Some r /\
    match r with
    | None => Forall (fun x => matches l k x.2 = false) ns
    | Some a => exists ns1 v ns2, ns = ns1 ++ (a, v) :: ns2 /\ matches l k v = true /\
                  Forall (fun x => matches l k x.2 = false) ns1
    end.
Proof.
  induction ns as [|[a v] ns IH]; intros h l p k Hs; cbn [search_loop length].
  { unfold listNext. cbn. exists None. by split. }
  destruct Hs as [Ha Hs]. unfold listNext, deref. cbn [it_next first]. osimpl. rewrite Ha. osimpl.
  rewrite ?Ha. osimpl. cbn [direction next value]. fold (matches l k v). destruct (matches l k v) eqn:Hm.
  { eexists. split; [done|]. by exists [], v, ns. }
  destruct (IH h l (Some a) k Hs) as (r & -> & Hr). exists r. split; [done|]. destruct r as [b|].
  - destruct Hr as (ns1 & w & ns2 & -> & Hw & Hall). exists ((a, v) :: ns1), w, ns2.
    split_and!; try done. by constructor.
  - by constructor.
Qed.

(** [listSearchKey] returns the first node that matches, or null when none
    does. *)
Lemma listSearchKey_first h l ns k :
  repr h l ns ->
  exists r, listSearchKey h l k = Some r /\
    match r with
    | None => Forall (fun x => matches l k x.2 = false) ns
    | Some a => exists ns1 v ns2, ns = ns1 ++ (a, v) :: ns2 /\ matches l k v = true /\
                  Forall (fun x => matches l k x.2 = false) ns1
    end.
Proof.
  intros [Hh _ Hl _ Hs]. unfold listSearchKey. rewrite Hl, Nat2Z.id. cbn [listGetIterator].
  rewrite Hh. by eapply search_nodes_spec.
Qed.

(** ** Iterating while deleting

    The loop the comment of [listNext] allows: the node that was just returned
    may be deleted. *)
Fixpoint sweep (fuel : nat) h l (it : listIter) (del : V -> bool)
  : option (heap * list_t V * list loc) :=
  '(it, node) ← listNext h it;
  match node with
  | None => Some (h, l, [])
  | Some a =>
      match fuel with
      | O => None
      | S fuel =>
          n ← h !! a;
          '(h, l, _) ← (if del (value n) then listDelNode h l node else Some (h, l, []));
          '(h, l, seen) ← sweep fuel h l it del;
          Some (h, l, a :: seen)
      end
  end.

Lemma sweep_spec del ns2 : forall h l ns1,
  repr h l (ns1 ++ ns2) ->
  exists h' l', sweep (length ns2) h l (Iter (first ns2 None) AL_START_HEAD) del =
      Some (h', l', ns2.*1) /\
    repr h' l' (ns1 ++ filter (fun x => del x.2 = false) ns2).
Proof.
  induction ns2 as [|[a v] ns2 IH]; intros h l ns1 Hr; cbn [sweep length].
  { exists h, l. done. }
  pose proof (dseg_lookup _ _ _ _ _ _ _ (repr_seg _ _ _ Hr)) as Ha.
  unfold listNext, deref. cbn [it_next first]. osimpl. rewrite Ha. osimpl.
  rewrite ?Ha. osimpl. cbn [direction next value]. rewrite filter_cons. cbn [snd]. destruct (del v) eqn:Hd.
  - destruct (listDelNode_refines h l ns1 a v ns2 Hr) as (h1 & l1 & -> & Hr1 & _). osimpl.
    destruct (IH h1 l1 ns1 Hr1) as (h2 & l2 & -> & Hr2). osimpl. by exists h2, l2.
  - osimpl. rewrite app_cons_mid in Hr.
    destruct (IH h l (ns1 ++ [(a, v)]) Hr) as (h2 & l2 & -> & Hr2). osimpl.
    exists h2, l2. split; [done|]. rewrite <- app_assoc in Hr2. done.
Qed.

(** an iteration from the head that deletes some of the nodes it is given
    meets every node of the list once, in order, and leaves the others. *)
Theorem iterate_and_delete h l ns del :
  repr h l ns ->
  exists h' l', sweep (length ns) h l (listGetIterator l AL_START_HEAD) del = Some (h', l', ns.*1) /\
    repr h' l' (filter (fun x => del x.2 = false) ns).
Proof.
  intros Hr. cbn [listGetIterator]. rewrite (repr_head _ _ _ Hr).
  exact (sweep_spec del ns h l [] Hr).
Qed.

(** [listRotate] moves the last node to the front and is the identity on
    lists of fewer than two nodes. *)
Lemma listRotate_refines h l ns :
  repr h l ns ->
  exists h' l', listRotate h l = Some (h', l') /\ same_methods l l' /\ frame ns.*1 h h' /\
    (length ns <= 1 -> h' = h /\ l' = l)%nat /\
    (forall ns' x, ns = ns' ++ [x] -> repr h' l' (x :: ns')).
Proof.
  intros Hr. destruct (Hr) as [Hh Ht Hl Hn Hs]. unfold listRotate. rewrite Hl.
  destruct (Z.leb_spec (zlen ns) 1) as [Hle|Hgt].
  { exists h, l. split_and!; try done. intros ns' x ->. rewrite length_app in Hle. simpl in Hle.
    destruct ns'; [done|simpl in Hle; lia]. }
  destruct ns as [|[a v] ns _] using rev_ind; [simpl in Hgt; lia|].
  rewrite length_app in Hgt. simpl in Hgt. pose proof (dseg_lookup _ _ _ _ _ _ _ Hs) as Ha.
  rewrite Ht, Hh, final_app, first_app. cbn [final first]. unfold deref. osimpl. rewrite Ha. osimpl.
  cbn [prev]. apply dseg_app in Hs as [Hs _]. rewrite fmap_app in Hn |- *. simpl in Hn |- *.
  apply NoDup_app in Hn as (Hn1 & Hd & _).
  destruct (final None ns) as [c|] eqn:Hc; [|apply final_None in Hc as ->; simpl in Hgt; lia].
  assert (c ∈ ns.*1) as Hcin by (eapply final_in; [done|]; intros ->; done).
  destruct (link_next ns h _ None c Hs Hn1 Hc) as (h1 & -> & Hs1 & Hf1). osimpl.
  destruct ns as [|[b w] ns]; [simpl in Hgt; lia|]. cbn [first].
  destruct (link_prev ((b, w) :: ns) h1 _ (Some a) b Hs1 Hn1) as (h2 & -> & Hs2 & Hf2); [done|]. osimpl.
  assert (a ∉ ((b, w) :: ns).*1) as Hna by (intros Hin; apply (Hd a Hin); set_solver).
  assert (h2 !! a = Some (Node (Some c) None v)) as Ha2.
  { rewrite Hf2, Hf1, Ha; [done|set_solver|]. simpl in *. set_solver. }
  unfold set_prev, set_next. osimpl. rewrite Ha2. osimpl. cbn [next value].
  rewrite lookup_insert_eq. osimpl. cbn [prev value]. rewrite insert_insert_eq.
  eexists _, _. split; [done|]. split_and!; try done.
  - intros x Hx. rewrite lookup_insert_ne by set_solver. rewrite Hf2, Hf1; [done| |]; set_solver.
  - rewrite length_app. simpl. lia.
  - intros ns' x [<- [= <-]]%app_inj_tail. constructor; simpl.
    + done.
    + rewrite <- Hc. done.
    + rewrite length_app. simpl. lia.
    + constructor; [set_solver|done].
    + split; [apply lookup_insert_eq|]. simpl in Hs2. destruct Hs2 as [Hb Hs2].
      split; [rewrite lookup_insert_ne by set_solver; done|].
      eapply dseg_frame; [done|]. intros x Hx. apply lookup_insert_ne. set_solver.
Qed.

(** ** Copying a list *)
Definition copy_value l v : option V := match dup l with Some f => f v | None => Some v end.

Lemma repr_frame h h' l ns X :
  repr h l ns -> frame X h h' -> (forall b, b ∈ X -> b ∉ ns.*1) -> repr h' l ns.
Proof.
  intros [? ? ? ? Hs] Hf Hd. constructor; try done. eapply dseg_frame; [done|].
  intros b Hb. apply Hf. intros Hx. by apply (Hd b).
Qed.

Lemma release_spec h l ns :
  repr h l ns ->
  exists h' fs, listRelease h l = Some (h', fs) /\
    (forall b, b ∈ ns.*1 -> h' !! b = None) /\ frame ns.*1 h h'.
Proof. intros Hr. destruct (listRelease_frees_all h l ns Hr) as (h' & ?). eauto. Qed.

Section Specs.
Context (zmalloc : heap -> ptr).
(** An allocated block is not in use. *)
Hypothesis zmalloc_fresh : forall h a, zmalloc h = Some a -> h !! a = None.
Lemma fresh_notin h l ns a : repr h l ns -> zmalloc h = Some a -> a ∉ ns.*1.
Proof.
  intros Hr Hz Ha. apply zmalloc_fresh in Hz.
  destruct (dseg_in ns h None None a (repr_seg _ _ _ Hr) Ha). congruence.
Qed.

Lemma listAddNodeTail_spec h l ns v a :
  repr h l ns -> zmalloc h = Some a ->
  exists h' l', listAddNodeTail zmalloc h l v = Some (Some (h', l')) /\
    repr h' l' (ns ++ [(a, v)]) /\ same_methods l l' /\ frame (a :: ns.*1) h h'.
Proof.
  intros Hr Hz. unfold listAddNodeTail. rewrite Hz.
  pose proof (fresh_notin h l ns a Hr Hz) as Ha. destruct (Hr) as [Hh Ht Hl Hn Hs].
  destruct (insert_between h ns [] a v) as (h3 & h4 & E3 & E4 & Hs4 & Hf4);
    [by rewrite app_nil_r..|].
  rewrite app_nil_r in Hf4. cbn [first] in *. injection E4 as <-.
  assert (repr h l (ns ++ [])) as Hr' by (by rewrite app_nil_r).
  pose proof (repr_insert h h3 l ns [] a v Hr' ltac:(by rewrite app_nil_r) Hs4) as Hrt.
  destruct (Z.eqb_spec (len l) 0) as [Hz0|Hz0].
  - destruct ns; [|simpl in Hl; lia]. simpl in *. injection E3 as <-.
    eexists _, _. split; [done|]. split_and!; try done. by apply Hrt.
  - rewrite Ht. destruct ns as [|[b w] ns]; [simpl in Hl; lia|].
    destruct (final None ((b, w) :: ns)) as [c|] eqn:Hc; [|by apply final_None in Hc].
    rewrite E3. osimpl. eexists _, _. split; [done|]. split_and!; try done.
    apply Hrt; [by rewrite Hh|]. by rewrite final_app.
Qed.

(** [listAddNodeHead] and [listAddNodeTail] put the new node before the
    first and after the last one, and write to no location outside the list;
    when the allocator fails they return null. *)
Theorem listAddNode_refines h l ns v :
  repr h l ns ->
  match zmalloc h with
  | None => listAddNodeHead zmalloc h l v = Some None /\ listAddNodeTail zmalloc h l v = Some None
  | Some a =>
      (exists h' l', listAddNodeHead zmalloc h l v = Some (Some (h', l')) /\
         repr h' l' ((a, v) :: ns) /\ same_methods l l' /\ frame (a :: ns.*1) h h') /\
      (exists h' l', listAddNodeTail zmalloc h l v = Some (Some (h', l')) /\
         repr h' l' (ns ++ [(a, v)]) /\ same_methods l l' /\ frame (a :: ns.*1) h h')
  end.
Proof.
  intros Hr. destruct (zmalloc h) as [a|] eqn:Hz.
  2:{ unfold listAddNodeHead, listAddNodeTail. by rewrite Hz. }
  split; [|by apply listAddNodeTail_spec]. unfold listAddNodeHead. rewrite Hz.
  pose proof (fresh_notin h l ns a Hr Hz) as Ha. destruct (Hr) as [Hh Ht Hl Hn Hs].
  destruct (insert_between h [] ns a v) as (h1 & h2 & E1 & E2 & Hs2 & Hf2); [done..|].
  cbn [first final app] in *. injection E1 as <-.
  pose proof (repr_insert h h2 l [] ns a v Hr Ha Hs2) as Hrh.
  destruct (Z.eqb_spec (len l) 0) as [Hz0|Hz0].
  - destruct ns; [|simpl in Hl; lia]. simpl in *. injection E2 as <-.
    eexists _, _. split; [done|]. split_and!; try done. by apply Hrh.
  - rewrite Hh. destruct ns as [|[b w] ns]; [simpl in Hl; lia|].
    cbn [first] in *. rewrite E2. osimpl. eexists _, _. split; [done|]. split_and!; try done.
    by apply Hrh.
Qed.

(** [listInsertNode] puts the new node right after or right before the given
    one. *)
Theorem listInsertNode_refines h l ns1 o w ns2 v after a :
  repr h l (ns1 ++ (o, w) :: ns2) -> zmalloc h = Some a ->
  exists h' l', listInsertNode zmalloc h l (Some o) v after = Some (Some (h', l')) /\
    repr h' l' (if after then ns1 ++ (o, w) :: (a, v) :: ns2 else ns1 ++ (a, v) :: (o, w) :: ns2) /\
    same_methods l l' /\ frame (a :: (ns1 ++ (o, w) :: ns2).*1) h h'.
Proof.
  intros Hr Hz. pose proof (fresh_notin h l _ a Hr Hz) as Ha. destruct (Hr) as [Hh Ht Hl Hn Hs].
  unfold listInsertNode, deref. rewrite Hz. osimpl.
  rewrite (dseg_lookup _ _ _ _ _ _ _ Hs). osimpl. cbn [prev next].
  destruct after; cbn [andb negb].
  - assert (ns1 ++ (o, w) :: ns2 = (ns1 ++ [(o, w)]) ++ ns2) as En by apply app_cons_mid.
    rewrite En in Hs, Hn, Ha, Hr |- *.
    destruct (insert_between h (ns1 ++ [(o, w)]) ns2 a v) as (h1 & h2 & E1 & E2 & Hs2 & Hf2); [done..|].
    rewrite final_app in E1. cbn [final] in E1. rewrite E1. osimpl. rewrite E2. osimpl.
    eexists _, _. split; [done|]. rewrite <- app_assoc in Hs2. cbn [app] in Hs2.
    split_and!; try done. rewrite app_cons_mid. apply (repr_insert h); try done.
    + by rewrite app_cons_mid in Hs2.
    + rewrite Hh, En, !first_app. destruct ns1 as [|[]]; done.
    + rewrite Ht. rewrite <- En in Hn. pose proof (final_notin _ _ _ _ Hn) as Hiff.
      case_bool_decide as Hd.
      * apply Hiff in Hd as ->. by rewrite final_app.
      * destruct ns2 as [|[b x] ns2]; [by destruct Hd; apply Hiff|]. by rewrite !final_app.
  - destruct (insert_between h ns1 ((o, w) :: ns2) a v) as (h1 & h2 & E1 & E2 & Hs2 & Hf2); [done..|].
    cbn [first] in *. rewrite E1. osimpl. rewrite E2. osimpl.
    eexists _, _. split; [done|]. split_and!; try done. apply (repr_insert h); try done.
    + rewrite Hh. pose proof (first_notin _ _ _ _ Hn) as Hiff. case_bool_decide as Hd.
      * by apply Hiff in Hd as ->.
      * rewrite !first_app. destruct ns1 as [|[]]; [by destruct Hd|done].
    + by rewrite Ht, !final_app.
Qed.

(** The state of the copying loop: the rest [ns] of the original, the copy so
    far [cs]. *)
Lemma dup_loop_spec ns : forall h copy cs p,
  dseg h p ns None -> repr h copy cs -> (forall b, b ∈ cs.*1 -> b ∉ ns.*1) ->
  exists h' r, dup_loop zmalloc (length ns) h copy (Iter (first ns None) AL_START_HEAD) = Some (h', r) /\
    match r with
    | Some copy' => exists new, repr h' copy' (cs ++ new) /\ same_methods copy copy' /\
        mapM (copy_value copy) ns.*2 = Some new.*2 /\
        frame (cs ++ new).*1 h h' /\ (forall b, b ∈ new.*1 -> h !! b = None)
    | None => frame cs.*1 h h' /\ (forall b, b ∈ cs.*1 -> h' !! b = None)
    end.
Proof.
  induction ns as [|[a v] ns IH]; intros h copy cs p Hs Hr Hd; cbn [dup_loop length].
  { unfold listNext. cbn. eexists _, _. split; [done|]. exists []. rewrite app_nil_r.
    split_and!; try done. set_solver. }
  destruct Hs as [Ha Hs]. unfold listNext, deref. cbn [it_next first]. osimpl. rewrite Ha. osimpl.
  rewrite Ha. osimpl. cbn [direction next value]. fold (copy_value copy v).
  destruct (copy_value copy v) as [x|] eqn:Hx.
  2:{ destruct (release_spec h copy cs Hr) as (h' & fs & -> & Hgone & Hf). osimpl. by exists h', None. }
  destruct (zmalloc h) as [b|] eqn:Hz.
  2:{ unfold listAddNodeTail. rewrite Hz. osimpl.
      destruct (release_spec h copy cs Hr) as (h' & fs & -> & Hgone & Hf). osimpl. by exists h', None. }
  destruct (listAddNodeTail_spec h copy cs x b Hr Hz) as (h1 & copy1 & -> & Hr1 & Hm1 & Hf1). osimpl.
  pose proof (zmalloc_fresh h b Hz) as Hb.
  assert (forall c, c ∈ ns.*1 -> is_Some (h !! c)) as Hin by (intros; by eapply dseg_in).
  assert (b ∉ ns.*1) as Hbn by (intros Hbb; destruct (Hin b Hbb); congruence).
  assert (dseg h1 (Some a) ns None) as Hs1.
  { eapply dseg_frame; [exact Hs|]. intros c Hc. apply Hf1. apply not_elem_of_cons.
    split; [by intros ->|]. intros Hcc. apply (Hd c Hcc). simpl. set_solver. }
  assert ((cs ++ [(b, x)]).*1 = cs.*1 ++ [b]) as Ecs by (by rewrite fmap_app).
  destruct (IH h1 copy1 (cs ++ [(b, x)]) (Some a) Hs1 Hr1) as (h2 & r & -> & Hres).
  { intros c. rewrite Ecs. intros [Hc| ->%list_elem_of_singleton]%elem_of_app Hcn; [|done].
    apply (Hd c Hc). simpl. set_solver. }
  exists h2, r. split; [done|]. rewrite Ecs in Hres.
  destruct r as [copy2|].
  - destruct Hres as (new & Hr2 & Hm2 & Evs & Hf2 & Hnew).
    destruct Hm1 as (Hm1a & Hm1b & Hm1c). destruct Hm2 as (Hm2a & Hm2b & Hm2c).
    rewrite <- app_assoc in Hr2, Hf2. cbn [app] in Hr2, Hf2.
    exists ((b, x) :: new). split_and!; try done; [split_and!; congruence| | |].
    + assert (copy_value copy1 = copy_value copy) as Ecv by (unfold copy_value; by rewrite Hm1a).
      rewrite Ecv in Evs. apply mapM_Some in Evs. apply mapM_Some. by constructor.
    + intros c Hc. rewrite Hf2 by done. apply Hf1. rewrite fmap_app in Hc. simpl in Hc. set_solver.
    + pose proof (repr_nodup _ _ _ Hr2) as Hn. rewrite fmap_app in Hn. simpl in Hn.
      apply NoDup_app in Hn as (_ & Hdc & Hn). apply NoDup_cons in Hn as [Hbnew _].
      intros c. simpl. intros [->|Hc]%elem_of_cons; [done|]. rewrite <- Hf1; [auto|].
      apply not_elem_of_cons. split; [by intros ->|]. intros Hcc. apply (Hdc c Hcc). set_solver.
  - destruct Hres as [Hf2 Hgone]. split.
    + intros c Hc. destruct (decide (c = b)) as [->|Hne].
      * rewrite Hgone by set_solver. done.
      * rewrite Hf2 by set_solver. apply Hf1. set_solver.
    + intros c Hc. apply Hgone. set_solver.
Qed.

(** [listDup] returns a list of fresh nodes that holds the copies of the
    values in order, or null after releasing what it had built; the original
    list, and every other block, is as before. *)
Theorem listDup_refines h orig ns :
  repr h orig ns ->
  exists h' r, listDup zmalloc h orig = Some (h', r) /\ repr h' orig ns /\
    match r with
    | Some copy => exists cs, repr h' copy cs /\ same_methods orig copy /\
        mapM (copy_value orig) ns.*2 = Some cs.*2 /\ frame cs.*1 h h' /\
        (forall b, b ∈ cs.*1 -> h !! b = None)
    | None => h' = h
    end.
Proof.
  intros Hr. destruct (Hr) as [Hh _ Hl _ Hs]. unfold listDup. rewrite Hl, Nat2Z.id.
  cbn [listGetIterator]. rewrite Hh.
  set (copy0 := List None None (dup orig) (free orig) (matchf orig) 0).
  assert (repr h copy0 []) as Hr0 by (constructor; try done; constructor).
  destruct (dup_loop_spec ns h copy0 [] None Hs Hr0) as (h' & r & -> & Hres); [set_solver|].
  exists h', r. split; [done|]. cbn [app] in Hres. destruct r as [copy|].
  - destruct Hres as (cs & Hrc & Hm & Hv & Hf & Hnew). split; [|by exists cs].
    eapply repr_frame; [exact Hr|exact Hf|]. intros b Hb Hbn.
    destruct (dseg_in ns h None None b Hs Hbn) as [? Hbs]. rewrite Hnew in Hbs by done. done.
  - destruct Hres as [Hf _]. assert (h' = h) as ->; [|done].
    apply map_eq. intros b. apply Hf. set_solver.
Qed.

End Specs.
End Repr.

(** ** Examples *)
Definition znext (h : gmap loc (listNode Z)) : ptr := Some (fresh (dom h)).

Lemma znext_fresh h a : znext h = Some a -> h !! a = None.
Proof. intros [= <-]. apply not_elem_of_dom. apply is_fresh. Qed.

(** Three nodes; the free method is set and values are copied unless they are
    negative. *)
Definition h3 : gmap loc (listNode Z) :=
  list_to_map [(1%positive, Node None (Some 2%positive) 10);
               (2%positive, Node (Some 1%positive) (Some 3%positive) 20);
               (3%positive, Node (Some 2%positive) None 30)].
Definition l3 : list_t Z :=
  List (Some 1%positive) (Some 3%positive) (Some (fun v => if v <? 0 then None else Some v)) true None 3.
Definition ns3 : list (loc * Z) := [(1%positive, 10); (2%positive, 20); (3%positive, 30)].

Lemma repr3 : repr h3 l3 ns3.
Proof. constructor; try done. apply (bool_decide_unpack _). vm_compute. exact I. Qed.

Lemma listAddNode_refines_witness :
  repr h3 l3 ns3 /\
  exists h' l', listAddNodeHead znext h3 l3 5 = Some (Some (h', l')) /\
    exists a, repr h' l' ((a, 5) :: ns3).
Proof.
  split; [exact repr3|].
  destruct (listAddNode_refines znext znext_fresh h3 l3 ns3 5 repr3) as [(h' & l' & E & Hr & _) _].
  exists h', l'. split; [exact E|eexists; exact Hr].
Defined.

Lemma listInsertNode_refines_witness :
  exists h' l', listInsertNode znext h3 l3 (Some 2%positive) 25 true = Some (Some (h', l')) /\
    exists a, repr h' l' [(1%positive, 10); (2%positive, 20); (a, 25); (3%positive, 30)].
Proof.
  destruct (listInsertNode_refines znext znext_fresh h3 l3 [(1%positive, 10)] 2%positive 20
              [(3%positive, 30)] 25 true (fresh (dom h3)) repr3 eq_refl) as (h' & l' & E & Hr & _).
  exists h', l'. split; [exact E|eexists; exact Hr].
Defined.

Lemma iterate_and_delete_witness :
  exists h' l', sweep 3 h3 l3 (listGetIterator l3 AL_START_HEAD) (fun v => v =? 20) =
      Some (h', l', [1%positive; 2%positive; 3%positive]) /\
    repr h' l' [(1%positive, 10); (3%positive, 30)].
Proof.
  destruct (iterate_and_delete h3 l3 ns3 (fun v => v =? 20) repr3) as (h' & l' & E & Hr).
  exists h', l'. split; [exact E|exact Hr].
Defined.

Lemma listDup_refines_witness :
  exists h' r, listDup znext h3 l3 = Some (h', r) /\ repr h' l3 ns3 /\ is_Some r.
Proof.
  destruct (listDup_refines znext znext_fresh h3 l3 ns3 repr3) as (h' & r & E & Hr & _).
  exists h', r. split; [exact E|]. split; [exact Hr|].
  assert (is_Some (listDup znext h3 l3 ≫= snd)) as Hs by (vm_compute; eexists; reflexivity).
  rewrite E in Hs. exact Hs.
Defined.

End Adlist.
