(* ===== verification/Util.v ===== *)
(** * Numbers and strings (src/redis-2.8/src/util.c)

    [digits10], [ll2string], [string2ll], [string2l] and [memtoll]. Characters
    are bytes; a buffer is a list of them. *)
From stdpp Require Import base tactics list numbers option.
From Stdlib Require Import ZArith Lia.
From S2P Require Import Prelude.
Import CInt CMem.
Open Scope Z_scope.

Module Util.

Definition LLONG_MAX : Z := 2 ^ 63 - 1.
Definition LLONG_MIN : Z := - 2 ^ 63.
Definition ULLONG_MAX : Z := 2 ^ 64 - 1.

Definition c_minus : Z := 45.
Definition c_0 : Z := 48.
Definition c_1 : Z := 49.
Definition c_9 : Z := 57.

Definition b2z (b : bool) : Z := if b then 1 else 0.

(** ** Printing

    The body of [digits10] for values below 10^12; a 64-bit value needs one
    recursive call. *)
Fixpoint digits10_rec (fuel : nat) (v : Z) : option Z :=
  if v <? 10 then Some 1
  else if v <? 100 then Some 2
  else if v <? 1000 then Some 3
  else if v <? 1000000000000 then
    if v <? 100000000 then
      if v <? 1000000 then
        if v <? 10000 then Some 4 else Some (5 + b2z (100000 <=? v))
      else Some (7 + b2z (10000000 <=? v))
    else if v <? 10000000000 then Some (9 + b2z (1000000000 <=? v))
    else Some (11 + b2z (100000000000 <=? v))
  else
    match fuel with
    | O => None
    | S fuel => n ← digits10_rec fuel (v / 1000000000000); Some (12 + n)
    end.

Definition digits10 (v : Z) : option Z := digits10_rec 1 v.

(** The table of the pairs 00 to 99. *)
Definition digits : list Z :=
  seq 0 100 ≫= fun k => [c_0 + Z.of_nat k / 10; c_0 + Z.of_nat k mod 10].

(** [while (value >= 100)]; [next] is unsigned, and 64 bits hold at most nine
    pairs above the last one. *)
Fixpoint ll2string_loop (fuel : nat) (dst : list Z) (next value : Z)
  : option (list Z * Z * Z) :=
  if 100 <=? value then
    match fuel with
    | O => None
    | S fuel =>
        let i := value mod 100 * 2 in
        let value := value / 100 in
        d1 ← rd digits (i + 1);
        dst ← wr dst next d1;
        d0 ← rd digits i;
        dst ← wr dst (next - 1) d0;
        ll2string_loop fuel dst (next - 2) value
    end
  else Some (dst, next, value).

Definition ll2string (dst : list Z) (dstlen svalue : Z) : option (list Z * Z) :=
  let negative := svalue <? 0 in
  let value :=
    if negative then
      if negb (svalue =? LLONG_MIN) then wrap 64 (- svalue) else LLONG_MAX + 1
    else svalue in
  n ← digits10 value;
  let length := n + b2z negative in
  if dstlen <=? length then Some (dst, 0)
  else
    dst ← wr dst length 0;
    '(dst, next, value) ← ll2string_loop 9 dst (length - 1) value;
    dst ← (if value <? 10 then wr dst next (c_0 + value)
           else
             let i := value * 2 in
             d1 ← rd digits (i + 1);
             dst ← wr dst next d1;
             d0 ← rd digits i;
             wr dst (next - 1) d0);
    dst ← (if negative then wr dst 0 c_minus else Some dst);
    Some (dst, length).

(** ** Parsing

    The loop over the digits: [Some None] is the return on overflow. *)
Fixpoint string2ll_loop (fuel : nat) (s : list Z) (slen plen v : Z) : option (option (Z * Z)) :=
  if plen <? slen then
    c ← rd s plen;
    if (c_0 <=? c) && (c <=? c_9) then
      match fuel with
      | O => None
      | S fuel =>
          if ULLONG_MAX / 10 <? v then Some None
          else
            let v := wrap 64 (v * 10) in
            if ULLONG_MAX - (c - c_0) <? v then Some None
            else string2ll_loop fuel s slen (plen + 1) (wrap 64 (v + (c - c_0)))
      end
    else Some (Some (plen, v))
  else Some (Some (plen, v)).

(** [Some None] is the return value 0. *)
Definition string2ll (s : list Z) (slen : Z) : option (option Z) :=
  if slen =? 0 then Some None
  else
    c ← rd s 0;
    if (slen =? 1) && (c =? c_0) then Some (Some 0)
    else
      let negative := c =? c_minus in
      let plen := b2z negative in
      if negative && (plen =? slen) then Some None
      else
        c ← rd s plen;
        if (c_1 <=? c) && (c <=? c_9) then
          r ← string2ll_loop (Z.to_nat slen) s slen (plen + 1) (c - c_0);
          match r with
          | None => Some None
          | Some (plen, v) =>
              if plen <? slen then Some None
              else if negative then
                if wrap 64 (- (LLONG_MIN + 1)) + 1 <? v then Some None
                else Some (Some (swrap 64 (wrap 64 (- v))))
              else if LLONG_MAX <? v then Some None
              else Some (Some v)
          end
        else if (c =? c_0) && (slen =? 1) then Some (Some 0)
        else Some None.

Definition string2l (long_bits : Z) (s : list Z) (slen : Z) : option (option Z) :=
  r ← string2ll s slen;
  match r with
  | None => Some None
  | Some llval =>
      if (llval <? - 2 ^ (long_bits - 1)) || (2 ^ (long_bits - 1) - 1 <? llval) then Some None
      else Some (Some llval)
  end.

(** ** Decimal notation *)
Fixpoint udec (fuel : nat) (v : Z) : list Z :=
  match fuel with
  | O => []
  | S fuel => if v <? 10 then [c_0 + v] else udec fuel (v / 10) ++ [c_0 + v mod 10]
  end.

(** The shortest decimal notation of a 64-bit integer; its magnitude has at
    most 20 digits. *)
Definition dec (v : Z) : list Z :=
  if v <? 0 then c_minus :: udec 20 (- v) else udec 20 v.

(** ** Properties of decimal notation *)
Definition is_digit (c : Z) : bool := (c_0 <=? c) && (c <=? c_9).

Definition dvalue (acc : Z) (ds : list Z) : Z := foldl (fun a c => a * 10 + (c - c_0)) acc ds.

Definition digit (c : Z) : Prop := 48 <= c <= 57.

#[export] Instance digit_dec c : Decision (digit c).
Proof. unfold digit. apply _. Defined.

Lemma is_digit_spec c : is_digit c = true <-> digit c.
Proof. unfold is_digit, c_0, c_9. rewrite andb_true_iff, !Z.leb_le. done. Qed.

Lemma dvalue_app acc ds c : dvalue acc (ds ++ [c]) = dvalue acc ds * 10 + (c - c_0).
Proof. unfold dvalue. by rewrite foldl_app. Qed.

Lemma pow10_S (n : nat) : 10 ^ Z.of_nat (S n) = 10 * 10 ^ Z.of_nat n.
Proof. rewrite Nat2Z.inj_succ, Z.pow_succ_r by lia. done. Qed.

Lemma pow10_pos (n : nat) : 0 < 10 ^ Z.of_nat n.
Proof. lia. Qed.

Lemma udec_step fuel v :
  10 <= v -> udec (S fuel) v = udec fuel (v / 10) ++ [c_0 + v mod 10].
Proof. intros. cbn [udec]. by rewrite (proj2 (Z.ltb_ge _ _)) by lia. Qed.

Lemma udec_small fuel v : v < 10 -> udec (S fuel) v = [c_0 + v].
Proof. intros. cbn [udec]. by rewrite (proj2 (Z.ltb_lt _ _)) by lia. Qed.

Lemma div10_bound v (n : nat) : 0 <= v < 10 ^ Z.of_nat (S n) -> 0 <= v / 10 < 10 ^ Z.of_nat n.
Proof.
  rewrite pow10_S. intros. split; [apply Z.div_pos; lia|]. apply Z.div_lt_upper_bound; lia.
Qed.

Lemma udec_fuel f : forall g v,
  0 <= v < 10 ^ Z.of_nat (S f) -> v < 10 ^ Z.of_nat (S g) -> udec (S f) v = udec (S g) v.
Proof.
  induction f as [|f IH]; intros g v Hf Hg; destruct (Z.lt_ge_cases v 10);
    [by rewrite !udec_small| |by rewrite !udec_small|].
  - rewrite pow10_S in Hf. simpl in Hf. lia.
  - destruct g as [|g]; [rewrite pow10_S in Hg; simpl in Hg; lia|].
    rewrite !(udec_step _ v) by done. f_equal.
    apply IH; [by apply div10_bound|]. apply div10_bound. lia.
Qed.

Lemma udec_length f : forall n v,
  0 <= v < 10 ^ Z.of_nat (S n) -> (n <= f)%nat -> (n = 0%nat \/ 10 ^ Z.of_nat n <= v) ->
  length (udec (S f) v) = S n.
Proof.
  induction f as [|f IH]; intros n v Hv Hn Hlow.
  - replace n with 0%nat in * by lia. rewrite udec_small; [done|]. lia.
  - destruct (Z.lt_ge_cases v 10).
    + rewrite udec_small by done. destruct n as [|n]; [done|].
      destruct Hlow as [|Hlow]; [done|]. rewrite pow10_S in Hlow. pose proof (pow10_pos n). lia.
    + destruct n as [|n]; [simpl in Hv; lia|].
      rewrite udec_step, length_app by done. cbn [length]. rewrite (IH n).
      * lia.
      * by apply div10_bound.
      * lia.
      * destruct n as [|n]; [by left|]. right. destruct Hlow as [|Hlow]; [done|].
        rewrite pow10_S in Hlow. apply Z.div_le_lower_bound; lia.
Qed.

Lemma udec_digits f : forall v, 0 <= v -> Forall digit (udec f v).
Proof.
  induction f as [|f IH]; intros v Hv; cbn [udec]; [done|].
  destruct (Z.ltb_spec v 10).
  - constructor; [|done]. unfold digit, c_0. lia.
  - apply Forall_app. split; [by apply IH, Z.div_pos|]. constructor; [|done].
    unfold digit, c_0. pose proof (Z.mod_pos_bound v 10). lia.
Qed.

Lemma udec_value f : forall v, 0 <= v < 10 ^ Z.of_nat (S f) -> dvalue 0 (udec (S f) v) = v.
Proof.
  induction f as [|f IH]; intros v Hv; destruct (Z.lt_ge_cases v 10).
  1, 3: rewrite udec_small by done; unfold dvalue; simpl; lia.
  - simpl in Hv. lia.
  - rewrite udec_step by done. rewrite dvalue_app, IH by (by apply div10_bound).
    pose proof (Z.div_mod v 10). lia.
Qed.

Lemma udec_head f : forall v, 0 < v < 10 ^ Z.of_nat (S f) ->
  exists c ds, udec (S f) v = c :: ds /\ 49 <= c <= 57.
Proof.
  induction f as [|f IH]; intros v Hv; destruct (Z.lt_ge_cases v 10).
  1, 3: rewrite udec_small by done; eexists _, _; split; [done|]; unfold c_0; lia.
  - simpl in Hv. lia.
  - rewrite udec_step by done. destruct (IH (v / 10)) as (c & ds & -> & Hc).
    { split; [apply Z.div_str_pos; lia|]. apply div10_bound. lia. }
    eexists _, _. split; [done|]. done.
Qed.

(** A numeral without leading zeros is the notation of its value. *)
Lemma dvalue_lower ds : forall c,
  49 <= c <= 57 -> Forall digit ds ->
  10 ^ zlen ds <= dvalue 0 (c :: ds) < 10 ^ Z.of_nat (S (length ds)).
Proof.
  induction ds as [|d ds IH] using rev_ind; intros c Hc Hds.
  - unfold dvalue, c_0. simpl. lia.
  - rewrite Forall_app, Forall_singleton in Hds. destruct Hds as [Hds Hd]. unfold digit in Hd.
    rewrite app_comm_cons, dvalue_app, length_app. cbn [length].
    specialize (IH c Hc Hds). rewrite Nat.add_1_r, !pow10_S. rewrite pow10_S in IH.
    unfold c_0. lia.
Qed.

Lemma dvalue_udec ds : forall c,
  49 <= c <= 57 -> Forall digit ds ->
  udec (S (length ds)) (dvalue 0 (c :: ds)) = c :: ds.
Proof.
  induction ds as [|d ds IH] using rev_ind; intros c Hc Hds.
  - cbn [length]. unfold dvalue. cbn [foldl]. rewrite udec_small by (unfold c_0; lia).
    f_equal. unfold c_0. lia.
  - rewrite Forall_app, Forall_singleton in Hds. destruct Hds as [Hds Hd]. unfold digit in Hd.
    pose proof (dvalue_lower ds c Hc Hds) as Hb. pose proof (pow10_pos (length ds)).
    rewrite app_comm_cons, dvalue_app, length_app. cbn [length]. rewrite Nat.add_1_r.
    unfold c_0. rewrite udec_step by lia.
    rewrite (Z.div_add_l (dvalue 0 (c :: ds)) 10) by lia.
    rewrite (Z.div_small (d - 48)), Z.add_0_r, IH by (done || lia).
    assert ((dvalue 0 (c :: ds) * 10 + (d - 48)) mod 10 = d - 48) as ->.
    { rewrite Z.add_comm, Z.mod_add, Z.mod_small; lia. }
    do 2 f_equal. unfold c_0. lia.
Qed.

(** ** Printing *)
Ltac decide_digits :=
  match goal with
  | Hl : _ \/ _ <= _, Hu : _ < _ |- _ => cbn in Hl, Hu
  end;
  repeat match goal with
    | |- context [?a <? ?b] => destruct (Z.ltb_spec a b); try lia
    | |- context [?a <=? ?b] => destruct (Z.leb_spec a b); try lia
    end; done.

Lemma digits10_rec_spec fuel v (n : nat) :
  (n = 0%nat \/ 10 ^ Z.of_nat n <= v) -> v < 10 ^ Z.of_nat (S n) ->
  (n < 12)%nat -> digits10_rec fuel v = Some (Z.of_nat (S n)).
Proof.
  intros Hl Hu Hn. destruct fuel; cbn [digits10_rec].
  all: do 12 (destruct n as [|n]; [decide_digits|]); lia.
Qed.

Lemma digits10_rec_step fuel v :
  1000000000000 <= v ->
  digits10_rec (S fuel) v = (n ← digits10_rec fuel (v / 1000000000000); Some (12 + n)).
Proof. intros. cbn [digits10_rec]. by rewrite !(proj2 (Z.ltb_ge v _)) by lia. Qed.

Lemma digits10_small (n : nat) v :
  (n = 0%nat \/ 10 ^ Z.of_nat n <= v) -> 0 <= v < 10 ^ Z.of_nat (S n) -> (n < 24)%nat ->
  digits10 v = Some (Z.of_nat (S n)).
Proof.
  intros Hl Hu Hn. unfold digits10. destruct (decide (n < 12)%nat).
  { apply digits10_rec_spec; lia. }
  destruct Hl as [->|Hl]; [lia|].
  replace n with (12 + (n - 12))%nat in * by lia. set (m := (n - 12)%nat) in *.
  rewrite Nat2Z.inj_add, Z.pow_add_r in Hl by lia.
  replace (S (12 + m)) with (12 + S m)%nat in Hu by lia.
  rewrite (Nat2Z.inj_add 12 (S m)), Z.pow_add_r in Hu by lia.
  change (10 ^ Z.of_nat 12) with 1000000000000 in *. pose proof (pow10_pos m).
  rewrite digits10_rec_step, (digits10_rec_spec 0 _ m); [|..|nia].
  - osimpl. f_equal. lia.
  - right. apply Z.div_le_lower_bound; lia.
  - apply Z.div_lt_upper_bound; lia.
  - lia.
Qed.

(** The number of digits a value needs. *)
Lemma digits_exist v (b : nat) : 0 <= v < 10 ^ Z.of_nat (S b) ->
  exists n, (n <= b)%nat /\ (n = 0%nat \/ 10 ^ Z.of_nat n <= v) /\ v < 10 ^ Z.of_nat (S n).
Proof.
  induction b as [|b IH]; intros Hv.
  - exists 0%nat. split_and!; [lia|by left|lia].
  - destruct (Z.lt_ge_cases v (10 ^ Z.of_nat (S b))).
    + destruct IH as (n & ? & ?); [lia|]. exists n. split; [lia|done].
    + exists (S b). split_and!; [lia|by right|lia].
Qed.

Lemma digits10_udec v :
  0 <= v < 2 ^ 64 -> digits10 v = Some (zlen (udec 20 v)) /\ (1 <= length (udec 20 v))%nat.
Proof.
  intros Hv. destruct (digits_exist v 19) as (n & Hn & Hl & Hu).
  { change (10 ^ Z.of_nat 20) with 100000000000000000000. lia. }
  rewrite (udec_length 19 n) by (done || lia). split; [|lia].
  apply digits10_small; [done|lia|lia].
Qed.

Lemma digits_lookup k :
  0 <= k < 100 -> rd digits (k * 2) = Some (c_0 + k / 10) /\ rd digits (k * 2 + 1) = Some (c_0 + k mod 10).
Proof.
  intros Hk.
  assert (forallb (fun n =>
    match rd digits (Z.of_nat n * 2), rd digits (Z.of_nat n * 2 + 1) with
    | Some x, Some y => (x =? c_0 + Z.of_nat n / 10) && (y =? c_0 + Z.of_nat n mod 10)
    | _, _ => false
    end) (seq 0 100) = true) as Hall by (vm_compute; reflexivity).
  rewrite forallb_forall in Hall. specialize (Hall (Z.to_nat k)).
  rewrite in_seq, Z2Nat.id in Hall by lia. specialize (Hall ltac:(lia)).
  destruct (rd digits (k * 2)), (rd digits (k * 2 + 1)); try done.
  apply andb_true_iff in Hall as [->%Z.eqb_eq ->%Z.eqb_eq]. done.
Qed.

(** The last one or two digits. *)
Definition put_last (dst : list Z) (next value : Z) : option (list Z) :=
  if value <? 10 then wr dst next (c_0 + value)
  else
    d1 ← rd digits (value * 2 + 1); dst ← wr dst next d1;
    d0 ← rd digits (value * 2); wr dst (next - 1) d0.

Lemma put_pair a x y b k next :
  0 <= k < 100 -> next = zlen a + 1 ->
  (d1 ← rd digits (k * 2 + 1); dst ← wr (a ++ x :: y :: b) next d1;
   d0 ← rd digits (k * 2); wr dst (next - 1) d0) =
  Some (a ++ (c_0 + k / 10) :: (c_0 + k mod 10) :: b).
Proof.
  intros Hk ->. destruct (digits_lookup k Hk) as [-> ->]. osimpl.
  rewrite (app_cons_mid a x), wr_app by (rewrite length_app; simpl; lia). osimpl.
  rewrite <- app_assoc. cbn [app]. by rewrite wr_app by lia.
Qed.

Lemma udec_100 f v :
  100 <= v -> udec (S (S f)) v = udec f (v / 100) ++ [c_0 + v mod 100 / 10; c_0 + v mod 100 mod 10].
Proof.
  intros Hv. rewrite udec_step by lia. rewrite udec_step by (apply Z.div_le_lower_bound; lia).
  rewrite Z.div_div by lia. rewrite <- app_assoc. cbn [app].
  assert (v mod 100 mod 10 = v mod 10) as -> by (apply Z.mod_mod_divide; by exists 10).
  assert (v mod 100 / 10 = v / 10 mod 10) as ->; [|done].
  change 100 with (10 * 10). rewrite Z.rem_mul_r by lia.
  rewrite (Z.mul_comm 10 (_ mod _)), Z.div_add, (Z.div_small (v mod 10)); [lia| |lia].
  apply Z.mod_pos_bound. lia.
Qed.

Lemma udec20_100 v :
  100 <= v < 10 ^ 20 ->
  udec 20 v = udec 20 (v / 100) ++ [c_0 + v mod 100 / 10; c_0 + v mod 100 mod 10].
Proof.
  intros Hv. assert (0 <= v / 100 < 10 ^ 18).
  { split; [apply Z.div_pos; lia|]. apply Z.div_lt_upper_bound; lia. }
  rewrite (udec_100 18) by lia. rewrite (udec_fuel 17 19 (v / 100)); [reflexivity|..];
    change (Z.of_nat 18) with 18; change (Z.of_nat 20) with 20; lia.
Qed.

Lemma list_snoc2 {A} (l : list A) n :
  length l = S (S n) -> exists l' x y, l = l' ++ [x; y] /\ length l' = n.
Proof.
  intros Hl. destruct l as [|y l _] using rev_ind; [done|].
  destruct l as [|x l _] using rev_ind; [done|]. exists l, x, y.
  rewrite !length_app in Hl. simpl in Hl. rewrite <- app_assoc. split; [done|lia].
Qed.

Lemma put_last_spec a gap b value :
  0 <= value < 100 -> length gap = length (udec 20 value) ->
  put_last (a ++ gap ++ b) (zlen a + zlen gap - 1) value = Some (a ++ udec 20 value ++ b).
Proof.
  intros Hv Hg. unfold put_last. destruct (Z.ltb_spec value 10).
  - rewrite udec_small in * by done. destruct gap as [|x [|]]; simpl in Hg; try lia.
    cbn [app length]. apply wr_app. lia.
  - rewrite udec_step, udec_small in * by (done || apply Z.div_lt_upper_bound; lia).
    destruct gap as [|x [|y [|]]]; simpl in Hg; try lia. cbn [app length].
    rewrite (put_pair a x y b value) by lia. done.
Qed.

#[local] Opaque udec.

(** The digits fill exactly the gap that was left for them. *)
Lemma ll2string_loop_spec fuel : forall a gap b next value,
  0 <= value < 10 ^ 20 -> value < 100 ^ Z.of_nat (S fuel) ->
  length gap = length (udec 20 value) -> next = zlen a + zlen gap - 1 ->
  ('(dst, next, value) ← ll2string_loop fuel (a ++ gap ++ b) next value; put_last dst next value)
  = Some (a ++ udec 20 value ++ b).
Proof.
  induction fuel as [|fuel IH]; intros a gap b next value Hv Hf Hg ->;
    cbn [ll2string_loop]; destruct (Z.leb_spec 100 value) as [H100|H100].
  - simpl in Hf. lia.
  - osimpl. apply put_last_spec; [lia|done].
  - rewrite udec20_100 in Hg |- * by lia. rewrite length_app in Hg. cbn [length] in Hg.
    destruct (list_snoc2 gap (length (udec 20 (value / 100)))) as (gap' & x & y & -> & Hg'); [lia|].
    replace (a ++ (gap' ++ [x; y]) ++ b) with ((a ++ gap') ++ x :: y :: b)
      by (by rewrite <- !app_assoc).
    assert (0 <= value mod 100 < 100) as Hm by (apply Z.mod_pos_bound; lia).
    pose proof (put_pair (a ++ gap') x y b (value mod 100) (zlen a + zlen (gap' ++ [x; y]) - 1) Hm) as Hpp.
    rewrite !length_app in Hpp. cbn [length] in Hpp. specialize (Hpp ltac:(lia)).
    rewrite length_app. cbn [length].
    apply bind_inv in Hpp as (d1 & -> & Hpp). osimpl. apply bind_inv in Hpp as (dst1 & -> & Hpp). osimpl.
    apply bind_inv in Hpp as (d0 & -> & Hpp). osimpl. rewrite Hpp. osimpl.
    rewrite <- app_assoc.
    rewrite (IH a gap' _ _ (value / 100)).
    + by rewrite <- app_assoc.
    + split; [apply Z.div_pos; lia|]. apply Z.div_lt_upper_bound; lia.
    + rewrite Nat2Z.inj_succ, Z.pow_succ_r in Hf by lia. apply Z.div_lt_upper_bound; lia.
    + done.
    + lia.
  - osimpl. apply put_last_spec; [lia|done].
Qed.

Lemma ll2string_spec dst svalue :
  in_s 64 svalue ->
  ll2string dst (zlen dst) svalue =
    Some (if zlen dst <=? zlen (dec svalue) then (dst, 0)
          else (dec svalue ++ 0 :: drop (S (length (dec svalue))) dst, zlen (dec svalue))).
Proof.
  intros Hs. unfold in_s in Hs. change (2 ^ (64 - 1)) with (2 ^ 63) in Hs. unfold ll2string.
  set (value := if svalue <? 0 then _ else svalue).
  assert (value = Z.abs svalue) as Ev.
  { unfold value, LLONG_MIN, LLONG_MAX. destruct (Z.ltb_spec svalue 0); [|lia].
    destruct (Z.eqb_spec svalue (- 2 ^ 63)) as [->|]; [done|]. cbn [negb].
    rewrite wrap_small; [lia|]. unfold in_u. lia. }
  assert (0 <= value < 2 ^ 64) as Hv by lia. clearbody value.
  destruct (digits10_udec value Hv) as [-> Hl1]. osimpl.
  assert (dec svalue = (if svalue <? 0 then [c_minus] else []) ++ udec 20 value) as Ed.
  { unfold dec. rewrite Ev. destruct (Z.ltb_spec svalue 0).
    - by rewrite Z.abs_neq by lia.
    - by rewrite Z.abs_eq by lia. }
  assert (zlen (udec 20 value) + b2z (svalue <? 0) = zlen (dec svalue)) as ->.
  { rewrite Ed, length_app. destruct (svalue <? 0); simpl; lia. }
  destruct (Z.leb_spec (zlen dst) (zlen (dec svalue))) as [Hle|Hgt]; [done|].
  rewrite <- (take_drop (length (dec svalue)) dst) at 1.
  destruct (drop (length (dec svalue)) dst) as [|x rest] eqn:Hd.
  { apply (f_equal length) in Hd. rewrite length_drop in Hd. simpl in Hd. lia. }
  assert (drop (S (length (dec svalue))) dst = rest) as ->.
  { rewrite <- Nat.add_1_r, <- drop_drop, Hd. done. }
  set (gap0 := take (length (dec svalue)) dst).
  assert (length gap0 = length (dec svalue)) as Hg0 by (unfold gap0; rewrite length_take; lia).
  rewrite wr_app by lia. osimpl.
  assert (exists a gap, gap0 = a ++ gap /\ length a = length (if svalue <? 0 then [c_minus] else []) /\
            length gap = length (udec 20 value)) as (a & gap & Eg & Ha & Hg).
  { exists (take (length (if svalue <? 0 then [c_minus] else [])) gap0),
           (drop (length (if svalue <? 0 then [c_minus] else [])) gap0).
    rewrite take_drop, length_take, length_drop, Hg0, Ed, length_app. split_and!; [done|lia|lia]. }
  pose proof (ll2string_loop_spec 9 a gap (0 :: rest) (zlen (dec svalue) - 1) value) as Hloop.
  rewrite app_assoc, <- Eg in Hloop.
  apply bind_inv in Hloop as ([[d n] v] & El & Ep); [|lia|simpl; lia|done|rewrite <- Hg0, Eg, length_app; lia].
  rewrite El. osimpl. unfold put_last in Ep. rewrite Ep. osimpl. rewrite Ed.
  destruct (svalue <? 0).
  - by destruct a as [|y [|]].
  - by destruct a.
Qed.

(** [ll2string] writes the decimal notation of any 64-bit integer and a
    terminating zero at the start of the buffer and returns its length; when
    the buffer is too small for that it returns 0 and leaves it alone. *)
Theorem ll2string_prints dst svalue :
  in_s 64 svalue ->
  ll2string dst (zlen dst) svalue =
    Some (if zlen dst <=? zlen (dec svalue) then (dst, 0)
          else (dec svalue ++ 0 :: drop (S (length (dec svalue))) dst, zlen (dec svalue))).
Proof. apply ll2string_spec. Qed.

Lemma ll2string_prints_witness :
  in_s 64 (-120) /\ ll2string [1; 2; 3; 4; 5; 6] 6 (-120) = Some ([45; 49; 50; 48; 0; 6], 4).
Proof.
  assert (in_s 64 (-120)) as Hs by (unfold in_s; lia). split; [exact Hs|].
  exact (ll2string_prints [1; 2; 3; 4; 5; 6] (-120) Hs).
Defined.

(** ** Parsing *)
Lemma dvalue_cons acc c ds : dvalue acc (c :: ds) = dvalue (acc * 10 + (c - c_0)) ds.
Proof. done. Qed.

Lemma dvalue_mono ds : forall v, 0 <= v -> Forall digit ds -> v <= dvalue v ds.
Proof.
  induction ds as [|c ds IH]; intros v Hv Hd; [done|]. rewrite Forall_cons_iff in Hd.
  destruct Hd as [Hc Hd]. rewrite dvalue_cons. unfold digit, c_0 in *.
  transitivity (v * 10 + (c - 48)); [lia|]. apply IH; [lia|done].
Qed.

Lemma loop_digits ds : forall pre v fuel,
  Forall digit ds -> 0 <= v <= ULLONG_MAX -> (length ds <= fuel)%nat ->
  string2ll_loop fuel (pre ++ ds) (zlen (pre ++ ds)) (zlen pre) v =
    Some (if dvalue v ds <=? ULLONG_MAX then Some (zlen (pre ++ ds), dvalue v ds) else None).
Proof.
  unfold ULLONG_MAX. induction ds as [|c ds IH]; intros pre v fuel Hd Hv Hf.
  - rewrite app_nil_r. destruct fuel; cbn [string2ll_loop]; rewrite Z.ltb_irrefl;
      rewrite (proj2 (Z.leb_le _ _)) by (unfold dvalue; simpl; lia); done.
  - rewrite Forall_cons_iff in Hd. destruct Hd as [Hc Hd]. destruct fuel as [|fuel]; [simpl in Hf; lia|].
    cbn [string2ll_loop]. rewrite (proj2 (Z.ltb_lt _ _)) by (rewrite length_app; simpl; lia).
    rewrite rd_app by done. osimpl. fold (is_digit c). rewrite (proj2 (is_digit_spec c) Hc).
    rewrite dvalue_cons. unfold digit, c_0 in *. simpl in Hf.
    assert (v * 10 + (c - 48) <= dvalue (v * 10 + (c - 48)) ds) as Hmono by (apply dvalue_mono; [lia|done]).
    destruct (Z.ltb_spec (ULLONG_MAX / 10) v) as [Ho|Ho]; unfold ULLONG_MAX in Ho;
      change ((2 ^ 64 - 1) / 10) with 1844674407370955161 in Ho.
    { rewrite (proj2 (Z.leb_gt _ _)) by lia. done. }
    rewrite wrap_small by (unfold in_u; lia).
    destruct (Z.ltb_spec (ULLONG_MAX - (c - 48)) (v * 10)) as [Ho2|Ho2]; unfold ULLONG_MAX in Ho2.
    { rewrite (proj2 (Z.leb_gt _ _)) by lia. done. }
    rewrite wrap_small by (unfold in_u; lia).
    rewrite app_cons_mid. replace (zlen pre + 1) with (zlen (pre ++ [c])) by (rewrite length_app; simpl; lia).
    apply IH; [done|lia|lia].
Qed.

Lemma loop_other ds : forall pre v fuel,
  ~ Forall digit ds -> (length ds <= fuel)%nat ->
  exists r, string2ll_loop fuel (pre ++ ds) (zlen (pre ++ ds)) (zlen pre) v = Some r /\
    match r with Some (p, _) => p < zlen (pre ++ ds) | None => True end.
Proof.
  induction ds as [|c ds IH]; intros pre v fuel Hd Hf; [by destruct Hd|].
  rewrite Forall_cons_iff in Hd.
  assert (zlen pre < zlen (pre ++ c :: ds)) as Hlt by (rewrite length_app; simpl; lia).
  destruct fuel as [|fuel]; [simpl in Hf; lia|]. cbn [string2ll_loop].
  rewrite (proj2 (Z.ltb_lt _ _)) by done. rewrite rd_app by done. osimpl. fold (is_digit c).
  destruct (is_digit c) eqn:Hc; [|by eexists]. apply is_digit_spec in Hc.
  destruct (_ <? v); [by eexists|]. destruct (_ <? _); [by eexists|].
  rewrite app_cons_mid. replace (zlen pre + 1) with (zlen (pre ++ [c])) by (rewrite length_app; simpl; lia).
  apply IH; [tauto|]. simpl in Hf. lia.
Qed.

Lemma dec_pos v : 0 < v < 10 ^ 20 -> exists c ds, dec v = c :: ds /\ 49 <= c <= 57 /\
  Forall digit ds /\ dvalue (c - c_0) ds = v.
Proof.
  intros Hv. destruct (udec_head 19 v Hv) as (c & ds & E & Hc).
  exists c, ds. unfold dec. rewrite (proj2 (Z.ltb_ge _ _)), E by lia.
  pose proof (udec_digits 20 v ltac:(lia)) as Hd. rewrite E, Forall_cons_iff in Hd.
  split_and!; [done|lia|lia|apply Hd|].
  pose proof (udec_value 19 v ltac:(change (Z.of_nat 20) with 20; lia)) as Hval. rewrite E in Hval. exact Hval.
Qed.

Lemma dec_neg v : - 10 ^ 20 < v < 0 -> exists c ds, dec v = c_minus :: c :: ds /\ 49 <= c <= 57 /\
  Forall digit ds /\ dvalue (c - c_0) ds = - v.
Proof.
  intros Hv. destruct (dec_pos (- v)) as (c & ds & E & ?); [lia|]. exists c, ds.
  split; [|done]. rewrite <- E. unfold dec. by rewrite (proj2 (Z.ltb_lt v _)), (proj2 (Z.ltb_ge (- v) _)) by lia.
Qed.

(** A numeral is the notation of its value. *)
Lemma numeral_dec c ds :
  49 <= c <= 57 -> Forall digit ds -> dvalue (c - c_0) ds <= 2 ^ 63 ->
  0 < dvalue (c - c_0) ds /\ c :: ds = udec 20 (dvalue (c - c_0) ds).
Proof.
  intros Hc Hd Hv. pose proof (dvalue_lower ds c Hc Hd) as Hb.
  change (dvalue 0 (c :: ds)) with (dvalue (c - c_0) ds) in Hb.
  pose proof (pow10_pos (length ds)). split; [lia|].
  rewrite <- (dvalue_udec ds c Hc Hd) at 1. change (dvalue 0 (c :: ds)) with (dvalue (c - c_0) ds).
  apply (udec_fuel (length ds) 19); [lia|]. change (Z.of_nat 20) with 20. lia.
Qed.

(** The digits after the sign: [pre] is the sign, or nothing. *)
Lemma parse_magnitude pre c ds :
  49 <= c <= 57 ->
  exists r, string2ll_loop (Z.to_nat (zlen (pre ++ c :: ds))) (pre ++ c :: ds)
      (zlen (pre ++ c :: ds)) (zlen pre + 1) (c - c_0) = Some r /\
    match r with
    | None => Forall digit ds -> ULLONG_MAX < dvalue (c - c_0) ds
    | Some (p, v) => (p < zlen (pre ++ c :: ds) /\ ~ Forall digit ds) \/
                     (p = zlen (pre ++ c :: ds) /\ Forall digit ds /\ v = dvalue (c - c_0) ds)
    end.
Proof.
  intros Hc. rewrite app_cons_mid.
  replace (zlen pre + 1) with (zlen (pre ++ [c])) by (rewrite length_app; simpl; lia).
  destruct (decide (Forall digit ds)) as [Hd|Hd].
  - rewrite loop_digits; [|done|unfold c_0, ULLONG_MAX; lia|rewrite !length_app; simpl; lia].
    eexists. split; [done|]. destruct (Z.leb_spec (dvalue (c - c_0) ds) ULLONG_MAX); [by right|done].
  - destruct (loop_other ds (pre ++ [c]) (c - c_0) (Z.to_nat (zlen ((pre ++ [c]) ++ ds)))) as (r & -> & Hr);
      [done|rewrite !length_app; simpl; lia|].
    exists r. split; [done|]. destruct r as [[p v]|]; [by left|done].
Qed.

(** What [string2ll] computes after the optional sign. *)
Definition signed (negative : bool) (m : Z) : Z := if negative then - m else m.

Lemma finish_parse (negative : bool) p slen v :
  0 <= v -> p = slen ->
  (if p <? slen then Some None
   else if negative then
     if wrap 64 (- (LLONG_MIN + 1)) + 1 <? v then Some None
     else Some (Some (swrap 64 (wrap 64 (- v))))
   else if LLONG_MAX <? v then Some None else Some (Some v)) =
  Some (if bool_decide (in_s 64 (signed negative v)) then Some (signed negative v) else None).
Proof.
  intros Hv ->. rewrite Z.ltb_irrefl. unfold LLONG_MIN, LLONG_MAX, in_s.
  change (wrap 64 (- (- 2 ^ 63 + 1)) + 1) with (2 ^ 63). change (2 ^ (64 - 1)) with (2 ^ 63).
  destruct negative; unfold signed.
  - destruct (Z.ltb_spec (2 ^ 63) v); [by rewrite bool_decide_eq_false_2 by lia|].
    rewrite bool_decide_eq_true_2, swrap_wrap, swrap_small by (unfold in_s; lia). done.
  - destruct (Z.ltb_spec (2 ^ 63 - 1) v).
    + by rewrite bool_decide_eq_false_2 by lia.
    + by rewrite bool_decide_eq_true_2 by lia.
Qed.

(** The numerals with an optional sign that [string2ll] accepts. *)
Lemma parse_signed (negative : bool) c ds :
  49 <= c <= 57 ->
  let pre := if negative then [c_minus] else [] in
  exists r, string2ll (pre ++ c :: ds) (zlen (pre ++ c :: ds)) = Some r /\
    forall v, r = Some v <->
      Forall digit ds /\ in_s 64 v /\ v = signed negative (dvalue (c - c_0) ds).
Proof.
  intros Hc pre. destruct (parse_magnitude pre c ds Hc) as (r & E & Hr).
  assert (0 < zlen (pre ++ c :: ds)) by (rewrite length_app; simpl; lia).
  assert (string2ll (pre ++ c :: ds) (zlen (pre ++ c :: ds)) =
    (match r with
     | None => Some None
     | Some (plen, v) =>
         if plen <? zlen (pre ++ c :: ds) then Some None
         else if negative then
           if wrap 64 (- (LLONG_MIN + 1)) + 1 <? v then Some None
           else Some (Some (swrap 64 (wrap 64 (- v))))
         else if LLONG_MAX <? v then Some None else Some (Some v)
     end)) as ->.
  { unfold string2ll. rewrite (proj2 (Z.eqb_neq _ _)) by lia. unfold c_0, c_1, c_9, c_minus in *.
    destruct negative; unfold pre in *; cbn [app] in *.
    - rewrite rd_0. osimpl. change (45 =? 48) with false. change (45 =? 45) with true.
      rewrite andb_false_r. cbn [andb b2z]. rewrite (proj2 (Z.eqb_neq 1 _)) by (simpl; lia).
      rewrite rd_1. osimpl.
      rewrite (proj2 (Z.leb_le 49 c)), (proj2 (Z.leb_le c 57)) by lia. cbn [andb].
      change (zlen [45] + 1) with (1 + 1) in E. rewrite E. done.
    - rewrite rd_0. osimpl.
      rewrite (proj2 (Z.eqb_neq c 48)), (proj2 (Z.eqb_neq c 45)) by lia.
      rewrite andb_false_r. cbn [andb b2z]. rewrite rd_0. osimpl.
      rewrite (proj2 (Z.leb_le 49 c)), (proj2 (Z.leb_le c 57)) by lia. cbn [andb].
      change (zlen [] + 1) with (0 + 1) in E. rewrite E. done. }
  destruct r as [[p v]|].
  - destruct Hr as [[Hp Hd]|(Hp & Hd & ->)].
    + rewrite (proj2 (Z.ltb_lt _ _)) by done. exists None. split; [done|]. naive_solver.
    + assert (0 <= dvalue (c - c_0) ds) as Hv.
      { pose proof (dvalue_mono ds (c - c_0) ltac:(unfold c_0; lia) Hd). unfold c_0 in *. lia. }
      rewrite finish_parse by done. eexists. split; [done|]. intros v. case_bool_decide as Hs.
      * split; [intros [= <-]; done|]. by intros (_ & _ & ->).
      * split; [done|]. intros (_ & Hs' & ->). done.
  - exists None. split; [done|]. intros v. split; [done|]. intros (Hd & Hs & ->). specialize (Hr Hd).
    unfold in_s, signed, ULLONG_MAX in *. change (2 ^ (64 - 1)) with (2 ^ 63) in Hs.
    destruct negative; lia.
Qed.

Lemma dec_shape v :
  - 10 ^ 20 < v < 10 ^ 20 -> v = 0 \/ exists (negative : bool) c ds,
    dec v = (if negative then [c_minus] else []) ++ c :: ds /\ 49 <= c <= 57 /\
    Forall digit ds /\ v = signed negative (dvalue (c - c_0) ds).
Proof.
  intros Hv. destruct (Z.lt_total v 0) as [Hn|[->|Hp]]; [right|by left|right].
  - destruct (dec_neg v) as (c & ds & E & Hc & Hd & Hval); [lia|]. exists true, c, ds.
    split_and!; try done; try lia. simpl. lia.
  - destruct (dec_pos v) as (c & ds & E & Hc & Hd & Hval); [lia|]. exists false, c, ds.
    split_and!; try done; lia.
Qed.

Definition numeral (s : list Z) : Prop :=
  exists (negative : bool) c ds, s = (if negative then [c_minus] else []) ++ c :: ds /\ 49 <= c <= 57.

Lemma excluded_numeral s : numeral s \/ ~ numeral s.
Proof.
  destruct s as [|c s]; [right; intros ([] & ? & ? & ? & _); done|].
  destruct (decide (49 <= c <= 57)) as [Hc|Hc]; [left; by exists false, c, s|].
  destruct (decide (c = c_minus)) as [->|Hm].
  - destruct s as [|c s]; [right; intros ([] & ? & ? & ? & ?); unfold c_minus in *; simplify_eq/=; lia|].
    destruct (decide (49 <= c <= 57)) as [Hc'|Hc']; [left; by exists true, c, s|].
    right. intros ([] & ? & ? & ? & ?); unfold c_minus in *; simplify_eq/=; lia.
  - right. intros ([] & ? & ? & ? & ?); simplify_eq/=; lia.
Qed.

Lemma string2ll_other s :
  s <> [c_0] -> ~ numeral s -> string2ll s (zlen s) = Some None.
Proof.
  intros H0 Hn. destruct s as [|c s]; [done|]. unfold string2ll.
  rewrite (proj2 (Z.eqb_neq _ _)) by (simpl; lia). rewrite rd_0. osimpl.
  assert ((zlen (c :: s) =? 1) && (c =? c_0) = false) as ->.
  { destruct s as [|c' s]; [|by rewrite (proj2 (Z.eqb_neq _ 1)) by (simpl; lia)].
    rewrite (proj2 (Z.eqb_neq c c_0)) by (by intros ->). apply andb_false_r. }
  assert (forall x, ~ (49 <= x <= 57) -> (c_1 <=? x) && (x <=? c_9) = false) as Hrej.
  { intros x Hx. unfold c_1, c_9. destruct (Z.leb_spec 49 x), (Z.leb_spec x 57); try done. lia. }
  destruct (Z.eqb_spec c c_minus) as [->|Hm]; cbn [b2z andb].
  - destruct s as [|c s]; [done|]. rewrite (proj2 (Z.eqb_neq _ _)) by (simpl; lia).
    rewrite rd_1. osimpl. rewrite Hrej by (intros Hc; apply Hn; by exists true, c, s).
    rewrite (proj2 (Z.eqb_neq (zlen _) 1)) by (simpl; lia). by rewrite andb_false_r.
  - rewrite rd_0. osimpl. rewrite Hrej by (intros Hc; apply Hn; by exists false, c, s).
    destruct (Z.eqb_spec c c_0) as [->|]; [|done]. destruct s; [done|].
    by rewrite (proj2 (Z.eqb_neq (zlen _) 1)) by (simpl; lia).
Qed.

Lemma signed_numeral (negative : bool) c ds v :
  49 <= c <= 57 ->
  Forall digit ds /\ in_s 64 v /\ v = signed negative (dvalue (c - c_0) ds) <->
  in_s 64 v /\ (if negative then [c_minus] else []) ++ c :: ds = dec v.
Proof.
  intros Hc. unfold in_s. change (2 ^ (64 - 1)) with (2 ^ 63). split.
  - intros (Hd & Hs & ->). split; [done|].
    destruct (numeral_dec c ds Hc Hd) as [Hpos ->]; [destruct negative; unfold signed in *; lia|].
    unfold dec. destruct negative; unfold signed; cbn [app].
    + rewrite (proj2 (Z.ltb_lt _ _)) by lia. by rewrite Z.opp_involutive.
    + by rewrite (proj2 (Z.ltb_ge _ _)) by lia.
  - intros [Hs E]. destruct (dec_shape v) as [->|(n & c' & ds' & E' & Hc' & Hd' & Hv)]; [lia|..].
    + change (dec 0) with [c_0] in E. unfold c_minus, c_0 in *. destruct negative; [done|].
      injection E as -> ->. lia.
    + rewrite E' in E. unfold c_minus in *.
      destruct negative, n; cbn [app] in E; simplify_eq; try lia; done.
Qed.

Lemma string2ll_spec s :
  exists r, string2ll s (zlen s) = Some r /\
    forall v, r = Some v <-> in_s 64 v /\ s = dec v.
Proof.
  destruct (decide (s = [c_0])) as [->|H0].
  { exists (Some 0). split; [done|]. intros v. split; [intros [= <-]; split; [unfold in_s; lia|done]|].
    intros [Hs E]. unfold in_s in Hs. change (2 ^ (64 - 1)) with (2 ^ 63) in Hs.
    destruct (dec_shape v) as [->|(n & c & ds & E' & Hc & _)]; [lia|done|].
    rewrite E' in E. unfold c_0 in *. destruct n; [done|]. injection E as <- _. lia. }
  destruct (excluded_numeral s) as [(n & c & ds & -> & Hc)|Hn].
  - destruct (parse_signed n c ds Hc) as (r & -> & Hr). exists r. split; [done|].
    intros v. rewrite Hr. by apply signed_numeral.
  - rewrite string2ll_other by done. exists None. split; [done|]. intros v. split; [done|].
    intros [Hs ->]. unfold in_s in Hs. change (2 ^ (64 - 1)) with (2 ^ 63) in Hs.
    destruct (dec_shape v) as [->|(n & c & ds & E' & Hc & _)]; [lia|done|].
    destruct Hn. by exists n, c, ds.
Qed.

(** [string2ll] accepts a string exactly when it is the shortest decimal
    notation of a 64-bit integer (no leading zeros, plus sign or spaces, and
    not -0), and returns that integer; overflow is detected, not wrapped. *)
Theorem string2ll_exact s :
  exists r, string2ll s (zlen s) = Some r /\
    forall v, r = Some v <-> in_s 64 v /\ s = dec v.
Proof. apply string2ll_spec. Qed.

Lemma dec_length v : in_s 64 v -> 1 <= zlen (dec v) <= 21.
Proof.
  unfold in_s. change (2 ^ (64 - 1)) with (2 ^ 63). intros Hv. unfold dec.
  destruct (digits_exist (Z.abs v) 19) as (n & Hn & Hl & Hu).
  { change (10 ^ Z.of_nat 20) with 100000000000000000000. lia. }
  destruct (Z.ltb_spec v 0); cbn [length].
  - rewrite Z.abs_neq in * by lia. rewrite (udec_length 19 n) by (done || lia). lia.
  - rewrite Z.abs_eq in * by lia. rewrite (udec_length 19 n) by (done || lia). lia.
Qed.

(** printing and parsing are inverse on all 64-bit integers: what
    [ll2string] stores is read back by [string2ll]. *)
Theorem ll2string_string2ll dst v :
  in_s 64 v -> 21 < zlen dst ->
  exists dst' n, ll2string dst (zlen dst) v = Some (dst', n) /\ 0 < n /\
    string2ll (take (Z.to_nat n) dst') n = Some (Some v).
Proof.
  intros Hs Hl. rewrite ll2string_spec by done. pose proof (dec_length v Hs).
  rewrite (proj2 (Z.leb_gt _ _)) by lia. eexists _, _. split; [done|]. split; [lia|].
  rewrite Nat2Z.id, take_app_length.
  destruct (string2ll_spec (dec v)) as (r & -> & Hr). f_equal. by apply Hr.
Qed.

(** [string2l] accepts the same notations, within the range of [long]. *)
Lemma string2l_exact long_bits s :
  0 < long_bits <= 64 ->
  exists r, string2l long_bits s (zlen s) = Some r /\
    forall v, r = Some v <-> in_s long_bits v /\ s = dec v.
Proof.
  intros Hb. unfold string2l. destruct (string2ll_spec s) as (r & -> & Hr). osimpl.
  assert (2 ^ (long_bits - 1) <= 2 ^ 63) by (apply Z.pow_le_mono_r; lia).
  unfold in_s in *. change (2 ^ (64 - 1)) with (2 ^ 63) in Hr. destruct r as [x|].
  - pose proof (proj1 (Hr x) eq_refl) as [Hx ->].
    destruct (Z.ltb_spec x (- 2 ^ (long_bits - 1))), (Z.ltb_spec (2 ^ (long_bits - 1) - 1) x); cbn [orb];
      eexists; (split; [done|]); intros v; split; try done; intros Hv;
      try (destruct Hv as [Hv Ev]; assert (Some x = Some v) as [= ->] by (apply Hr; split; [lia|done]); lia).
    + injection Hv as <-. split; [lia|done].
    + destruct Hv as [Hv Ev]. apply Hr. split; [lia|done].
  - eexists. split; [done|]. intros v. split; [done|]. intros [Hv ->]. apply Hr. split; [lia|done].
Qed.

Lemma ll2string_string2ll_witness :
  in_s 64 LLONG_MIN /\
  exists dst' n, ll2string (replicate 32 0) 32 LLONG_MIN = Some (dst', n) /\
    string2ll (take (Z.to_nat n) dst') n = Some (Some LLONG_MIN).
Proof.
  assert (in_s 64 LLONG_MIN) as Hs by (unfold in_s, LLONG_MIN; lia). split; [exact Hs|].
  destruct (ll2string_string2ll (replicate 32 0) LLONG_MIN Hs ltac:(done)) as (dst' & n & E & _ & H).
  exists dst', n. split; [exact E|exact H].
Defined.

End Util.
