(* ===== verification/Glob.v ===== *)
(** * Glob-style patterns ([stringmatchlen] of src/redis-2.8/src/util.c)

    The pattern and the string are buffers of [char]s (signed bytes) with a
    position and a length, as in the code, which also looks at the byte after
    the end of either: both are terminated by a zero. *)
From stdpp Require Import base tactics list numbers option sets.
From Stdlib Require Import ZArith Lia.
From S2P Require Import Prelude.
Import CInt CMem.
Open Scope Z_scope.

Module Glob.

Definition c_star : Z := 42.
Definition c_quest : Z := 63.
Definition c_open : Z := 91.
Definition c_close : Z := 93.
Definition c_caret : Z := 94.
Definition c_bslash : Z := 92.
Definition c_dash : Z := 45.

(** [tolower] in the C locale. *)
Definition tolower (c : Z) : Z := if (65 <=? c) && (c <=? 90) then c + 32 else c.

Section Match.
Context (nocase : bool).

Definition char_eq (x y : Z) : bool :=
  if nocase then tolower x =? tolower y else x =? y.

Definition in_range (start fin c : Z) : bool :=
  let '(start, fin) := if fin <? start then (fin, start) else (start, fin) in
  if nocase then (tolower start <=? tolower c) && (tolower c <=? tolower fin)
  else (start <=? c) && (c <=? fin).

Section Buffers.
Context (pb sb : list Z).

(** The two loops that skip stars: [at_] is 1 for the one that looks at
    [pattern[1]] and 0 for the one that looks at the current character. *)
Fixpoint skip_stars (fuel : nat) (at_ pp pl : Z) : option (Z * Z) :=
  match fuel with
  | O => None
  | S fuel =>
      c ← rd pb (pp + at_);
      if c =? c_star then skip_stars fuel at_ (pp + 1) (pl - 1) else Some (pp, pl)
  end.

(** The loop over the items of a class, for the character at [sp]. *)
Fixpoint class_loop (fuel : nat) (pp pl sp : Z) (found : bool) : option (Z * Z * bool) :=
  match fuel with
  | O => None
  | S fuel =>
      p0 ← rd pb pp;
      if p0 =? c_bslash then
        let pp := pp + 1 in let pl := pl - 1 in
        p0 ← rd pb pp; s0 ← rd sb sp;
        class_loop fuel (pp + 1) (pl - 1) sp (found || (p0 =? s0))
      else if p0 =? c_close then Some (pp, pl, found)
      else if pl =? 0 then Some (pp - 1, pl + 1, found)
      else
        p1 ← rd pb (pp + 1);
        if (p1 =? c_dash) && (3 <=? pl) then
          fin ← rd pb (pp + 2); c ← rd sb sp;
          class_loop fuel (pp + 2 + 1) (pl - 2 - 1) sp (found || in_range p0 fin c)
        else
          s0 ← rd sb sp;
          class_loop fuel (pp + 1) (pl - 1) sp (found || char_eq p0 s0)
  end.

(** [while(stringLen)] of the case of a star; [rec] matches the rest. *)
Fixpoint star_loop (n : nat) (rec : Z -> Z -> option bool) (sp sl : Z) : option bool :=
  if sl =? 0 then Some false
  else
    match n with
    | O => None
    | S n =>
        m ← rec sp sl;
        if m : bool then Some true else star_loop n rec (sp + 1) (sl - 1)
    end.

Definition finish (pl sl : Z) : bool := (pl =? 0) && (sl =? 0).

(** One round consumes a character of the pattern at least, so the length of
    its buffer bounds the rounds. *)
Fixpoint match_loop (fuel : nat) (pp pl sp sl : Z) : option bool :=
  match fuel with
  | O => None
  | S fuel =>
      if pl =? 0 then Some (finish pl sl)
      else
        p0 ← rd pb pp;
        let next (pp pl sp sl : Z) : option bool :=
          let pp := pp + 1 in let pl := pl - 1 in
          if sl =? 0 then
            '(_, pl) ← skip_stars (S (length pb)) 0 pp pl;
            Some (finish pl sl)
          else match_loop fuel pp pl sp sl in
        let default (pp pl : Z) : option bool :=
          p0 ← rd pb pp; s0 ← rd sb sp;
          if char_eq p0 s0 then next pp pl (sp + 1) (sl - 1) else Some false in
        if p0 =? c_star then
          '(pp, pl) ← skip_stars (S (length pb)) 1 pp pl;
          if pl =? 1 then Some true
          else star_loop (S (length sb)) (fun sp sl => match_loop fuel (pp + 1) (pl - 1) sp sl) sp sl
        else if p0 =? c_quest then
          if sl =? 0 then Some false else next pp pl (sp + 1) (sl - 1)
        else if p0 =? c_open then
          let pp := pp + 1 in let pl := pl - 1 in
          p0 ← rd pb pp;
          let not := p0 =? c_caret in
          let pp := if not then pp + 1 else pp in
          let pl := if not then pl - 1 else pl in
          '(pp, pl, found) ← class_loop (S (length pb)) pp pl sp false;
          if Bool.eqb found not then Some false else next pp pl (sp + 1) (sl - 1)
        else if p0 =? c_bslash then
          if 2 <=? pl then default (pp + 1) (pl - 1) else default pp pl
        else default pp pl
  end.

End Buffers.

Definition stringmatchlen (pattern : list Z) (patternLen : Z) (string : list Z) (stringLen : Z)
  : option bool :=
  match_loop pattern string (S (length pattern)) 0 patternLen 0 stringLen.

(** ** Patterns as sequences of tokens *)
Inductive item := Esc (c : Z) | Range (a b : Z) | One (c : Z).
Inductive token := Star | Any | Lit (c : Z) | Class (negated : bool) (items : list item).

(** The items of a class, up to the closing bracket or the end of the pattern;
    [None] when the pattern ends after a backslash. *)
Fixpoint parse_items (p : list Z) : option (list item * list Z) :=
  match p with
  | [] => Some ([], [])
  | a :: p1 =>
      if a =? c_bslash then
        match p1 with
        | [] => None
        | c :: p => '(is_, q) ← parse_items p; Some (Esc c :: is_, q)
        end
      else if a =? c_close then Some ([], p1)
      else
        match p1 with
        | b :: c :: p2 =>
            if b =? c_dash then '(is_, q) ← parse_items p2; Some (Range a c :: is_, q)
            else '(is_, q) ← parse_items p1; Some (One a :: is_, q)
        | _ => '(is_, q) ← parse_items p1; Some (One a :: is_, q)
        end
  end.

Fixpoint parse (fuel : nat) (p : list Z) : option (list token) :=
  match fuel with
  | O => None
  | S fuel =>
      match p with
      | [] => Some []
      | a :: p1 =>
          if a =? c_star then cons Star <$> parse fuel p1
          else if a =? c_quest then cons Any <$> parse fuel p1
          else if a =? c_open then
            let '(neg, p2) := match p1 with
                              | b :: p2 => if b =? c_caret then (true, p2) else (false, p1)
                              | [] => (false, p1)
                              end in
            '(is_, q) ← parse_items p2; cons (Class neg is_) <$> parse fuel q
          else if a =? c_bslash then
            match p1 with
            | c :: p2 => cons (Lit c) <$> parse fuel p2
            | [] => Some [Lit a]
            end
          else cons (Lit a) <$> parse fuel p1
      end
  end.

Definition item_matches (c : Z) (i : item) : bool :=
  match i with
  | Esc x => x =? c
  | Range a b => in_range a b c
  | One x => char_eq x c
  end.

Definition class_matches (neg : bool) (is_ : list item) (c : Z) : bool :=
  xorb neg (existsb (item_matches c) is_).

Fixpoint suffixes (s : list Z) : list (list Z) :=
  s :: match s with [] => [] | _ :: s => suffixes s end.

(** What a pattern means. *)
Fixpoint glob (ts : list token) (s : list Z) : bool :=
  match ts with
  | [] => match s with [] => true | _ => false end
  | Star :: ts => existsb (glob ts) (suffixes s)
  | t :: ts =>
      match s with
      | [] => false
      | c :: s =>
          match t with
          | Lit x => char_eq x c
          | Class neg is_ => class_matches neg is_ c
          | _ => true
          end && glob ts s
      end
  end.

Definition starts_class (ts : list token) : bool :=
  match ts with Class _ _ :: _ => true | _ => false end.

(** ** Skipping stars *)
Fixpoint strip (p : list Z) : list Z :=
  match p with
  | a :: p' => if a =? c_star then strip p' else p
  | [] => []
  end.

Lemma strip_split p : exists k, p = replicate k c_star ++ strip p.
Proof.
  induction p as [|a p [k IH]]; [by exists 0%nat|]. cbn [strip].
  destruct (Z.eqb_spec a c_star) as [->|]; [|by exists 0%nat].
  exists (S k). cbn. by rewrite <- IH.
Qed.

Lemma strip_length p : (length (strip p) <= length p)%nat.
Proof. induction p as [|a p IH]; cbn; [done|]. destruct (a =? c_star); cbn; lia. Qed.

Lemma strip_head p a q : strip p = a :: q -> a <> c_star.
Proof.
  induction p as [|b p IH]; cbn; [done|]. destruct (Z.eqb_spec b c_star); [done|]. by intros [= <- _].
Qed.

(** Reading the first character of a terminated string. *)
Lemma rd_hd pre p r i : i = zlen pre -> rd (pre ++ p ++ 0 :: r) i = Some (hd 0 p).
Proof. intros ->. destruct p; cbn [app hd]; by rewrite rd_app. Qed.

Lemma skip_stars_spec p : forall pre r fuel at_ pp pl,
  pp + at_ = zlen pre -> (length p < fuel)%nat ->
  skip_stars (pre ++ p ++ 0 :: r) fuel at_ pp pl =
    Some (pp + (zlen p - zlen (strip p)), pl - (zlen p - zlen (strip p))).
Proof.
  induction p as [|a p IH]; intros pre r fuel at_ pp pl Hpp Hf;
    (destruct fuel as [|fuel]; [simpl in Hf; lia|]); cbn [skip_stars]; rewrite rd_hd by done; osimpl.
  - cbn. result_eq.
  - cbn [hd strip]. destruct (Z.eqb_spec a c_star) as [->|].
    + replace (pre ++ (c_star :: p) ++ 0 :: r) with ((pre ++ [c_star]) ++ p ++ 0 :: r)
        by (by rewrite <- app_assoc).
      simpl in Hf. rewrite IH by (rewrite ?length_app; simpl; lia). cbn [length]. result_eq.
    + result_eq.
Qed.

(** ** The meaning of stars *)
Lemma suffixes_nil_in s : [] ∈ suffixes s.
Proof. induction s; cbn; set_solver. Qed.

Lemma existsb_suffixes f s :
  existsb (fun x => existsb f (suffixes x)) (suffixes s) = existsb f (suffixes s).
Proof.
  induction s as [|c s IH]; cbn; [by rewrite !orb_false_r|].
  cbn in IH. rewrite IH. destruct (f (c :: s)), (existsb f (suffixes s)); done.
Qed.

Lemma glob_stars k ts s : glob (Star :: replicate k Star ++ ts) s = glob (Star :: ts) s.
Proof.
  revert s. induction k as [|k IH]; intros s; [done|]. cbn [replicate app].
  transitivity (existsb (glob (Star :: ts)) (suffixes s)).
  - change (existsb (glob (Star :: replicate k Star ++ ts)) (suffixes s) =
            existsb (glob (Star :: ts)) (suffixes s)).
    induction (suffixes s) as [|x l IHl]; [done|]. cbn [existsb]. by rewrite IH, IHl.
  - apply existsb_suffixes.
Qed.

Lemma glob_all k s : glob (Star :: replicate k Star) s = true.
Proof.
  pose proof (glob_stars k [] s) as H. rewrite app_nil_r in H. rewrite H. cbn [glob].
  apply existsb_exists. exists []. split; [|done]. apply list_elem_of_In, suffixes_nil_in.
Qed.

Lemma parse_mono f : forall g p ts, parse f p = Some ts -> (f <= g)%nat -> parse g p = Some ts.
Proof.
  induction f as [|f IH]; intros g p ts; [done|]. intros H Hg. destruct g as [|g]; [lia|].
  assert (forall (k : list token -> list token) q, k <$> parse f q = Some ts ->
            k <$> parse g q = Some ts) as Hk.
  { intros k q. destruct (parse f q) as [t|] eqn:E; [|done]. rewrite (IH g q t) by (done || lia). done. }
  cbn [parse] in H |- *. destruct p as [|a p1]; [done|].
  destruct (a =? c_star); [by apply Hk|]. destruct (a =? c_quest); [by apply Hk|].
  destruct (a =? c_open).
  - destruct (match p1 with [] => _ | _ => _ end) as [neg p2].
    apply bind_inv in H as ([is_ q] & -> & H). osimpl. by apply Hk.
  - destruct (a =? c_bslash); [|by apply Hk]. destruct p1; [done|by apply Hk].
Qed.

(** Parsing goes through the leading stars. *)
Lemma parse_strip p : forall f ts, parse f p = Some ts ->
  exists k ts', ts = replicate k Star ++ ts' /\ parse f (strip p) = Some ts' /\
    (strip p = [] -> ts' = []) /\ (strip p <> [] -> glob ts' [] = false).
Proof.
  induction p as [|a p IH]; intros f ts H.
  { destruct f; [done|]. injection H as <-. by exists 0%nat, []. }
  cbn [strip]. destruct (Z.eqb_spec a c_star) as [->|Ha].
  - destruct f as [|f]; [done|]. cbn [parse] in H. change (c_star =? c_star) with true in H.
    cbn [negb] in H. destruct (parse f p) as [t|] eqn:E; [|done]. injection H as <-.
    destruct (IH f t E) as (k & ts' & -> & Hp & He & Hne). exists (S k), ts'.
    split_and!; try done. eapply parse_mono; [exact Hp|lia].
  - exists 0%nat, ts. split_and!; try done. intros _.
    destruct f as [|f]; [done|]. cbn [parse] in H. rewrite (proj2 (Z.eqb_neq a c_star)) in H by done.
    destruct (a =? c_quest); [|destruct (a =? c_open); [|destruct (a =? c_bslash)]].
    + destruct (parse f p); [by injection H as <-|done].
    + destruct (match p with [] => _ | _ => _ end) as [neg p2].
      apply bind_inv in H as ([is_ q] & _ & H). destruct (parse f q); [by injection H as <-|done].
    + destruct p as [|c p2]; [by injection H as <-|]. destruct (parse f p2); [by injection H as <-|done].
    + destruct (parse f p); [by injection H as <-|done].
Qed.

Lemma glob_nil f p ts : parse f p = Some ts -> glob ts [] = bool_decide (strip p = []).
Proof.
  intros H. destruct (parse_strip p f ts H) as (k & ts' & -> & _ & He & Hne).
  assert (glob (replicate k Star ++ ts') [] = glob ts' []) as ->.
  { clear H. induction k as [|k IH]; [done|]. cbn [replicate app glob suffixes existsb]. by rewrite IH, orb_false_r. }
  case_bool_decide as Hs; [by rewrite (He Hs)|by apply Hne].
Qed.

(** ** Classes *)
Lemma class_loop_spec n : forall p pre r sb sp c fuel found is_ q,
  (length p <= n)%nat -> parse_items p = Some (is_, q) -> rd sb sp = Some c -> (length p < fuel)%nat ->
  exists m, p = m ++ q /\
    class_loop (pre ++ p ++ 0 :: r) sb fuel (zlen pre) (zlen p) sp found =
      Some (zlen pre + zlen m - 1, zlen q + 1, found || existsb (item_matches c) is_).
Proof.
  induction n as [|n IH]; intros p pre r sb sp c fuel found is_ q Hn Hp Hc Hf;
    (destruct fuel as [|fuel]; [lia|]); cbn [class_loop]; rewrite (rd_hd pre p r (zlen pre)) by done; osimpl.
  { destruct p; [|simpl in Hn; lia]. injection Hp as <- <-. exists []. cbn. rewrite orb_false_r.
    split; [done|]. change (Z.of_nat 0) with 0. rewrite Z.eqb_refl. result_eq. }
  destruct p as [|a p1]; cbn [hd].
  { injection Hp as <- <-. exists []. cbn. rewrite orb_false_r. split; [done|]. change (Z.of_nat 0) with 0. rewrite Z.eqb_refl. result_eq. }
  cbn [length] in Hn, Hf.
  assert (forall mid p' found' is' fuel', parse_items p' = Some (is', q) ->
    a :: p1 = mid ++ p' -> (length mid > 0)%nat -> (length p' < fuel')%nat ->
    exists m, a :: p1 = m ++ q /\
      class_loop (pre ++ (a :: p1) ++ 0 :: r) sb fuel' (zlen pre + zlen mid) (zlen (a :: p1) - zlen mid) sp found' =
        Some (zlen pre + zlen m - 1, zlen q + 1, found' || existsb (item_matches c) is')) as Hrec.
  { intros mid p' found' is' fuel' Hp' E Hm Hf'. rewrite E.
    assert (length p1 + 1 = length mid + length p')%nat as Hl.
    { apply (f_equal length) in E. rewrite length_app in E. simpl in E. lia. }
    destruct (IH p' (pre ++ mid) r sb sp c fuel' found' is' q) as (m & -> & Eq); [lia|done|done|done|].
    exists (mid ++ m). split; [by rewrite <- app_assoc|].
    replace (pre ++ (mid ++ m ++ q) ++ 0 :: r) with ((pre ++ mid) ++ (m ++ q) ++ 0 :: r)
      by (by rewrite <- !app_assoc).
    rewrite !length_app in Eq |- *.
    replace (Z.of_nat (length pre + length mid)) with (zlen pre + zlen mid) in Eq by lia.
    replace (Z.of_nat (length mid + (length m + length q)) - zlen mid) with (Z.of_nat (length m + length q)) by lia.
    rewrite Eq, ?length_app. result_eq. }
  cbn [parse_items] in Hp.
  destruct (Z.eqb_spec a c_bslash) as [->|_].
  { destruct p1 as [|x p2]; [done|]. apply bind_inv in Hp as ([is' q'] & Hp & [= <- <-]).
    replace (pre ++ (c_bslash :: x :: p2) ++ 0 :: r) with ((pre ++ [c_bslash]) ++ (x :: p2) ++ 0 :: r)
      by (by rewrite <- app_assoc).
    rewrite rd_hd by (rewrite length_app; simpl; lia). rewrite Hc. osimpl. cbn [hd].
    destruct (Hrec [c_bslash; x] p2 (found || (x =? c)) is' fuel Hp eq_refl) as (m & Em & Eq); [cbn [length] in *; lia..|].
    exists m. split; [done|]. cbn [existsb item_matches]. rewrite orb_assoc, <- Eq.
    rewrite <- app_assoc. cbn [app length]. f_equal; lia. }
  destruct (Z.eqb_spec a c_close) as [->|_].
  { injection Hp as <- <-. exists [c_close]. split; [done|]. cbn [existsb length]. rewrite orb_false_r. result_eq. }
  rewrite (proj2 (Z.eqb_neq (zlen (a :: p1)) 0)) by (simpl; lia).
  assert (rd (pre ++ (a :: p1) ++ 0 :: r) (zlen pre + 1) = Some (hd 0 p1)) as ->.
  { replace (pre ++ (a :: p1) ++ 0 :: r) with ((pre ++ [a]) ++ p1 ++ 0 :: r) by (by rewrite <- app_assoc).
    apply rd_hd. rewrite length_app. simpl. lia. }
  osimpl. rewrite Hc.
  assert (forall is', parse_items p1 = Some (is', q) -> is_ = One a :: is' ->
    exists m, a :: p1 = m ++ q /\
      (s0 ← Some c; class_loop (pre ++ (a :: p1) ++ 0 :: r) sb fuel (zlen pre + 1) (zlen (a :: p1) - 1)
                      sp (found || char_eq a s0)) =
      Some (zlen pre + zlen m - 1, zlen q + 1, found || existsb (item_matches c) is_)) as Hone.
  { intros is' Hp1 ->. osimpl.
    destruct (Hrec [a] p1 (found || char_eq a c) is' fuel Hp1 eq_refl) as (m & Em & Eq); [cbn [length] in *; lia..|].
    exists m. split; [done|]. cbn [existsb item_matches]. rewrite orb_assoc, <- Eq. done. }
  destruct p1 as [|b [|x p2]]; cbn [hd].
  - apply bind_inv in Hp as ([is' q'] & Hp & [= <- <-]).
    change (0 =? c_dash) with false. by eapply Hone.
  - apply bind_inv in Hp as ([is' q'] & Hp & [= <- <-]).
    rewrite (proj2 (Z.leb_gt 3 _)) by (simpl; lia). rewrite andb_false_r. by eapply Hone.
  - rewrite (proj2 (Z.leb_le 3 _)) by (simpl; lia). rewrite andb_true_r.
    destruct (Z.eqb_spec b c_dash) as [->|]; apply bind_inv in Hp as ([is' q'] & Hp & [= <- <-]);
      [|by eapply Hone].
    replace (pre ++ (a :: c_dash :: x :: p2) ++ 0 :: r) with ((pre ++ [a; c_dash]) ++ (x :: p2) ++ 0 :: r)
      by (by rewrite <- app_assoc).
    rewrite rd_hd by (rewrite length_app; simpl; lia). osimpl. cbn [hd].
    destruct (Hrec [a; c_dash; x] p2 (found || in_range a x c) is' fuel Hp eq_refl) as (m & Em & Eq); [cbn [length] in *; lia..|].
    exists m. split; [done|]. cbn [existsb item_matches]. rewrite orb_assoc, <- Eq.
    rewrite <- app_assoc. cbn [app length]. f_equal; lia.
Qed.

(** ** The matcher *)
Lemma star_loop_spec (rec : Z -> Z -> option bool) ts n : forall s sp,
  (length s <= n)%nat ->
  (forall s1 s2, s = s1 ++ s2 -> s2 <> [] -> rec (sp + zlen s1) (zlen s2) = Some (glob ts s2)) ->
  glob ts [] = false ->
  star_loop n rec sp (zlen s) = Some (existsb (glob ts) (suffixes s)).
Proof.
  induction n as [|n IH]; intros s sp Hn Hrec Hnil;
    (destruct s as [|c s]; [cbn; by rewrite Hnil|]); [simpl in Hn; lia|].
  cbn [star_loop]. rewrite (proj2 (Z.eqb_neq _ _)) by (simpl; lia).
  assert (rec sp (zlen (c :: s)) = Some (glob ts (c :: s))) as ->.
  { rewrite <- (Hrec [] (c :: s)) by done. f_equal. simpl. lia. }
  osimpl.
  cbn [suffixes existsb]. destruct (glob ts (c :: s)); [done|].
  replace (zlen (c :: s) - 1) with (zlen s) by (simpl; lia). cbn [orb]. apply IH; [simpl in Hn; lia| |done].
  intros s1 s2 E Hne. rewrite <- (Hrec (c :: s1) s2); [f_equal; simpl; lia|simpl; congruence|done].
Qed.

(** The round after the current character was matched: [mid] was consumed. *)
Definition after_match (pb sb : list Z) (fuel : nat) (pp pl sp sl : Z) : option bool :=
  if sl =? 0 then
    '(_, pl) ← skip_stars pb (S (length pb)) 0 (pp + 1) (pl - 1);
    Some (finish (pl) sl)
  else match_loop pb sb fuel (pp + 1) (pl - 1) sp sl.

Section Main.
Context (r sr : list Z).

Definition loop_correct (fuel : nat) : Prop := forall pre p spre s ts f,
  Forall (fun c => c <> 0) p -> (length p < fuel)%nat -> parse f p = Some ts ->
  (s <> [] \/ starts_class ts = false) ->
  match_loop (pre ++ p ++ 0 :: r) (spre ++ s ++ 0 :: sr) fuel (zlen pre) (zlen p) (zlen spre) (zlen s)
  = Some (glob ts s).

Lemma after_match_spec fuel pre mid p spre c s ts f pp pl sp sl :
  loop_correct fuel -> Forall (fun c => c <> 0) p -> (length p < fuel)%nat -> parse f p = Some ts ->
  pp + 1 = zlen pre + zlen mid -> pl - 1 = zlen p -> sp = zlen spre + 1 -> sl = zlen s ->
  after_match (pre ++ (mid ++ p) ++ 0 :: r) (spre ++ (c :: s) ++ 0 :: sr) fuel pp pl sp sl =
    Some (glob ts s).
Proof.
  intros Hloop Hp Hf Hts Hpp Hpl -> ->. unfold after_match. rewrite Hpp, Hpl.
  replace (pre ++ (mid ++ p) ++ 0 :: r) with ((pre ++ mid) ++ p ++ 0 :: r) by (by rewrite <- !app_assoc).
  replace (spre ++ (c :: s) ++ 0 :: sr) with ((spre ++ [c]) ++ s ++ 0 :: sr) by (by rewrite <- app_assoc).
  destruct (Z.eqb_spec (zlen s) 0) as [Hz|Hz].
  - destruct s; [|simpl in Hz; lia]. rewrite (skip_stars_spec p (pre ++ mid) r) by (rewrite ?length_app; lia).
    osimpl. rewrite (glob_nil _ _ _ Hts). unfold finish. f_equal.
    replace (zlen p - (zlen p - zlen (strip p))) with (zlen (strip p)) by lia.
    cbn. rewrite andb_true_r. destruct (strip p); [done|]. by rewrite bool_decide_eq_false_2.
  - replace (zlen pre + zlen mid) with (zlen (pre ++ mid)) by (rewrite length_app; lia).
    replace (zlen spre + 1) with (zlen (spre ++ [c])) by (rewrite length_app; simpl; lia).
    eapply Hloop; [done..|]. left. by destruct s.
Qed.

(** A literal character. *)
Lemma literal_spec fuel pre mid x p spre s ts f :
  loop_correct fuel -> Forall (fun c => c <> 0) (x :: p) -> (length p < fuel)%nat ->
  parse f p = Some ts ->
  (p0 ← rd (pre ++ (mid ++ x :: p) ++ 0 :: r) (zlen pre + zlen mid);
   s0 ← rd (spre ++ s ++ 0 :: sr) (zlen spre);
   if char_eq p0 s0
   then after_match (pre ++ (mid ++ x :: p) ++ 0 :: r) (spre ++ s ++ 0 :: sr) fuel
          (zlen pre + zlen mid) (zlen (x :: p)) (zlen spre + 1) (zlen s - 1)
   else Some false) = Some (glob (Lit x :: ts) s).
Proof.
  intros Hloop Hp Hf Hts. apply Forall_cons_iff in Hp as [Hx Hp].
  assert (rd (pre ++ (mid ++ x :: p) ++ 0 :: r) (zlen pre + zlen mid) = Some x) as ->.
  { replace (pre ++ (mid ++ x :: p) ++ 0 :: r) with ((pre ++ mid) ++ x :: p ++ 0 :: r)
      by (by rewrite <- !app_assoc). apply rd_app. rewrite length_app. lia. }
  rewrite rd_hd by done. osimpl. destruct s as [|c s]; cbn [hd glob].
  - assert (char_eq x 0 = false) as ->; [|done].
    unfold char_eq, tolower. destruct nocase; [|by apply Z.eqb_neq]. apply Z.eqb_neq. cbn.
    destruct (Z.leb_spec 65 x), (Z.leb_spec x 90); cbn; lia.
  - destruct (char_eq x c); [|done]. cbn [andb]. rewrite (app_cons_mid mid x p).
    replace (zlen (c :: s) - 1) with (zlen s) by (simpl; lia).
    apply (after_match_spec _ _ (mid ++ [x]) p _ c s ts f); try done; rewrite ?length_app; simpl; lia.
Qed.

(** A class. *)
Lemma class_spec fuel pre p neg p2 is_ q spre c s ts f :
  loop_correct fuel -> Forall (fun c => c <> 0) p -> (S (length p) < S fuel)%nat ->
  match p with
  | [] => (false, p)
  | b :: p2 => if b =? c_caret then (true, p2) else (false, p)
  end = (neg, p2) ->
  parse_items p2 = Some (is_, q) -> parse f q = Some ts ->
  (p0 ← rd (pre ++ (c_open :: p) ++ 0 :: r) (zlen pre + 1);
   '(pp, pl, found) ← class_loop (pre ++ (c_open :: p) ++ 0 :: r) (spre ++ (c :: s) ++ 0 :: sr)
       (S (length (pre ++ (c_open :: p) ++ 0 :: r)))
       (if p0 =? c_caret then zlen pre + 1 + 1 else zlen pre + 1)
       (if p0 =? c_caret then zlen (c_open :: p) - 1 - 1 else zlen (c_open :: p) - 1)
       (zlen spre) false;
   if Bool.eqb found (p0 =? c_caret) then Some false
   else after_match (pre ++ (c_open :: p) ++ 0 :: r) (spre ++ (c :: s) ++ 0 :: sr) fuel pp pl
          (zlen spre + 1) (zlen (c :: s) - 1)) = Some (glob (Class neg is_ :: ts) (c :: s)).
Proof.
  intros Hloop Hp Hf Hneg Hitems Hts.
  assert (exists mid, c_open :: p = mid ++ p2 /\ (hd 0 p =? c_caret) = neg /\
            length mid = if neg then 2%nat else 1%nat) as (mid & Emid & Eneg & Hmid).
  { destruct p as [|b p]; [injection Hneg as <- <-; by exists [c_open]|]. cbn [hd].
    destruct (Z.eqb_spec b c_caret) as [->|]; injection Hneg as <- <-.
    - by exists [c_open; c_caret].
    - by exists [c_open]. }
  assert (rd (pre ++ (c_open :: p) ++ 0 :: r) (zlen pre + 1) = Some (hd 0 p)) as ->.
  { replace (pre ++ (c_open :: p) ++ 0 :: r) with ((pre ++ [c_open]) ++ p ++ 0 :: r)
      by (by rewrite <- app_assoc). apply rd_hd. rewrite length_app. simpl. lia. }
  osimpl. rewrite Eneg, Emid.
  assert (length p + 1 = length mid + length p2)%nat as Hlen.
  { apply (f_equal length) in Emid. rewrite length_app in Emid. simpl in Emid. lia. }
  destruct (class_loop_spec (length p2) p2 (pre ++ mid) r (spre ++ (c :: s) ++ 0 :: sr) (zlen spre) c
              (S (length (pre ++ (mid ++ p2) ++ 0 :: r))) false is_ q) as (m & Em & Eq);
    [lia|done|by apply rd_app|rewrite !length_app; lia|].
  replace ((pre ++ mid) ++ p2 ++ 0 :: r) with (pre ++ (mid ++ p2) ++ 0 :: r) in Eq
    by (by rewrite <- !app_assoc).
  replace (if neg then zlen pre + 1 + 1 else zlen pre + 1) with (zlen (pre ++ mid))
    by (rewrite length_app; destruct neg; lia).
  replace (if neg then zlen (mid ++ p2) - 1 - 1 else zlen (mid ++ p2) - 1) with (zlen p2)
    by (rewrite length_app; destruct neg; lia).
  rewrite Eq. osimpl. cbn [glob orb]. unfold class_matches.
  destruct (Bool.eqb (existsb (item_matches c) is_) neg) eqn:Hb.
  { apply Bool.eqb_prop in Hb as ->. by rewrite xorb_nilpotent. }
  assert (xorb neg (existsb (item_matches c) is_) = true) as ->.
  { destruct neg, (existsb (item_matches c) is_); done. }
  cbn [andb]. subst p2. rewrite (app_assoc mid m q). rewrite length_app in Hlen.
  assert (Forall (fun c => c <> 0) q).
  { assert (Forall (fun c => c <> 0) (c_open :: p)) as Hall by (by constructor).
    rewrite Emid, app_assoc in Hall. apply Forall_app in Hall as [_ Hall]. exact Hall. }
  eapply after_match_spec; try done; rewrite ?length_app; simpl; destruct neg; lia.
Qed.

Lemma match_loop_correct fuel : loop_correct fuel.
Proof.
  induction fuel as [|fuel IH]; intros pre p spre s ts f Hp Hf Hts Hcl; [lia|]. cbn [match_loop].
  destruct p as [|a p].
  { destruct f; [done|]. injection Hts as <-. cbn. unfold finish. destruct s; done. }
  rewrite (proj2 (Z.eqb_neq (zlen (a :: p)) 0)) by (simpl; lia).
  rewrite (rd_hd pre (a :: p) r (zlen pre)) by done. osimpl. cbn [hd].
  fold (after_match (pre ++ (a :: p) ++ 0 :: r) (spre ++ s ++ 0 :: sr) fuel).
  destruct f as [|f]; [done|]. cbn [parse] in Hts. apply Forall_cons_iff in Hp as [Ha Hp].
  cbn [length] in Hf.
  destruct (Z.eqb_spec a c_star) as [->|Hstar].
  { replace (pre ++ (c_star :: p) ++ 0 :: r) with ((pre ++ [c_star]) ++ p ++ 0 :: r)
      by (by rewrite <- app_assoc).
    rewrite skip_stars_spec by (rewrite ?length_app; simpl; lia). osimpl.
    destruct (parse f p) as [t|] eqn:Et; [|done]. injection Hts as <-.
    destruct (parse_strip p f t Et) as (k & ts' & -> & Hps & He & Hne).
    destruct (strip_split p) as [j Ep]. pose proof (strip_length p).
    replace (zlen (c_star :: p) - (zlen p - zlen (strip p))) with (zlen (strip p) + 1) by (simpl; lia).
    destruct (Z.eqb_spec (zlen (strip p) + 1) 1) as [Hz|Hz].
    { destruct (strip p) eqn:Es; [|simpl in Hz; lia]. rewrite He, app_nil_r by done.
      by rewrite glob_all. }
    rewrite glob_stars. cbn [glob]. apply star_loop_spec.
    - rewrite !length_app. lia.
    - intros s1 s2 -> Hs2.
      replace ((pre ++ [c_star]) ++ p ++ 0 :: r)
        with ((pre ++ c_star :: replicate j c_star) ++ strip p ++ 0 :: r)
        by (rewrite Ep at 2; by rewrite <- !app_assoc).
      replace (spre ++ (s1 ++ s2) ++ 0 :: sr) with ((spre ++ s1) ++ s2 ++ 0 :: sr)
        by (by rewrite <- !app_assoc).
      assert (length p = j + length (strip p))%nat as Hj.
      { rewrite Ep at 1. by rewrite length_app, length_replicate. }
      replace (zlen pre + (zlen p - zlen (strip p)) + 1) with (zlen (pre ++ c_star :: replicate j c_star))
        by (rewrite length_app; cbn [length]; rewrite length_replicate; lia).
      replace (zlen (strip p) + 1 - 1) with (zlen (strip p)) by lia.
      replace (zlen spre + zlen s1) with (zlen (spre ++ s1)) by (rewrite length_app; lia).
      eapply IH; [|lia|exact Hps|by left].
      rewrite Ep in Hp. apply Forall_app in Hp as [_ Hp]. exact Hp.
    - apply Hne. intros E. rewrite E in Hz. done. }
  destruct (Z.eqb_spec a c_quest) as [->|Hq].
  { destruct (parse f p) as [t|] eqn:Et; [|done]. injection Hts as <-.
    destruct s as [|c s]; [done|]. rewrite (proj2 (Z.eqb_neq (zlen (c :: s)) 0)) by (simpl; lia).
    cbn [glob andb].
    apply (after_match_spec fuel pre [c_quest] p spre c s t f); try done; simpl; lia. }
  destruct (Z.eqb_spec a c_open) as [->|Ho].
  { destruct (match p with [] => _ | _ => _ end) as [neg p2] eqn:Hneg.
    apply bind_inv in Hts as ([is_ q] & Hitems & Hts).
    destruct (parse f q) as [t|] eqn:Et; [|done]. injection Hts as <-.
    destruct s as [|c s]; [by destruct Hcl|].
    by eapply (class_spec fuel pre p neg p2). }
  destruct (Z.eqb_spec a c_bslash) as [->|Hb].
  { destruct p as [|x p].
    - injection Hts as <-. rewrite (proj2 (Z.leb_gt 2 _)) by (simpl; lia).
      pose proof (literal_spec fuel pre [] c_bslash [] spre s [] 1 IH) as HL.
      change ([] ++ [c_bslash]) with [c_bslash] in HL. change (zlen []) with 0 in HL.
      rewrite Z.add_0_r, (rd_hd pre [c_bslash] r (zlen pre)) in HL by done.
      apply HL; [by constructor|simpl; lia|done].
    - destruct (parse f p) as [t|] eqn:Et; [|done]. injection Hts as <-.
      rewrite (proj2 (Z.leb_le 2 _)) by (simpl; lia).
      pose proof (literal_spec fuel pre [c_bslash] x p spre s t f IH Hp) as HL.
      cbn [length] in Hf.
      replace (zlen (c_bslash :: x :: p) - 1) with (zlen (x :: p)) by (simpl; lia).
      apply HL; [lia|done]. }
  destruct (parse f p) as [t|] eqn:Et; [|done]. injection Hts as <-.
  pose proof (literal_spec fuel pre [] a p spre s t f IH) as HL.
  change ([] ++ a :: p) with (a :: p) in HL. change (zlen []) with 0 in HL.
  rewrite Z.add_0_r, (rd_hd pre (a :: p) r (zlen pre)) in HL by done.
  apply HL; [by constructor|lia|done].
Qed.
End Main.

End Match.

(** C39: [stringmatchlen] decides whether a string matches a glob-style pattern,
    for patterns and strings that are followed by a zero byte, when the pattern
    holds no zero byte and does not end inside an escape of a class; a pattern
    that starts with a class is not covered on the empty string. *)
Theorem stringmatchlen_correct nocase p s ts pr sr :
  Forall (fun c => c <> 0) p -> parse (S (length p)) p = Some ts ->
  (s <> [] \/ starts_class ts = false) ->
  stringmatchlen nocase (p ++ 0 :: pr) (zlen p) (s ++ 0 :: sr) (zlen s) = Some (glob nocase ts s).
Proof.
  intros Hp Hts Hs. unfold stringmatchlen.
  apply (match_loop_correct nocase pr sr _ [] p [] s ts (S (length p))); try done.
  rewrite length_app. cbn [length]. lia.
Qed.

(** The pattern h[a-c]?*o and a string. *)
Definition pattern1 : list Z := [104; 91; 97; 45; 99; 93; 63; 42; 111].
Definition string1 : list Z := [104; 98; 108; 108; 111].

Definition tokens1 : list token := [Lit 104; Class false [Range 97 99]; Any; Star; Lit 111].

Lemma stringmatchlen_correct_witness :
  stringmatchlen false (pattern1 ++ [0]) (zlen pattern1) (string1 ++ [0]) (zlen string1) = Some true.
Proof.
  assert (Forall (fun c => c <> 0) pattern1) as Hp by (repeat constructor; discriminate).
  assert (parse (S (length pattern1)) pattern1 = Some tokens1) as Ht by reflexivity.
  assert (string1 <> [] \/ starts_class tokens1 = false) as Hs by (left; discriminate).
  rewrite (stringmatchlen_correct false pattern1 string1 tokens1 [] [] Hp Ht Hs). reflexivity.
Defined.

(** on the empty string a pattern that starts with a negated class is
    compared with the terminator, which the class accepts: the pattern [^a]*,
    which needs at least one character, matches the empty string. *)
Theorem negated_class_matches_empty :
  let p := [91; 94; 97; 93; 42] in
  stringmatchlen false (p ++ [0]) (zlen p) [0] 0 = Some true /\
  (ts ← parse (S (length p)) p; Some (glob false ts [])) = Some false.
Proof. split; reflexivity. Qed.

End Glob.
