(* ===== verification/Sds.v ===== *)
(** * Dynamic strings (src/redis-2.8/src/sds.c, sds.h)

    An sds is its header and its buffer; the buffer has one byte more than the
    length and the free space recorded in the header, for the terminating
    zero. [uninit] gives the bytes of fresh memory. Out of memory does not
    return: the allocator of the program aborts. *)
From stdpp Require Import base tactics list numbers option sets.
From Stdlib Require Import ZArith Lia.
From S2P Require Import Prelude Util.
Import CInt CMem.
Open Scope Z_scope.

Module Sds.

Record sdshdr := Sdshdr { len : Z; free : Z; buf : list Z }.

Definition SDS_MAX_PREALLOC : Z := 1024 * 1024.

Definition sdslen (s : sdshdr) : Z := len s.
Definition sdsavail (s : sdshdr) : Z := free s.

(** [strlen]: the position of the first zero at or after [i]. *)
Fixpoint strlen_from (n : nat) (b : list Z) (i : Z) : option Z :=
  match n with
  | O => None
  | S n => c ← rd b i; if c =? 0 then Some i else strlen_from n b (i + 1)
  end.

Definition strlen (b : list Z) : option Z := strlen_from (length b) b 0.

Section Ops.
Context (uninit : nat -> Z).
Implicit Types (s : sdshdr) (t : list Z).

(** [init] is [None] for the null pointer. *)
Definition sdsnewlen (init : option (list Z)) (initlen : Z) : option sdshdr :=
  let b := match init with
           | Some _ => realloc uninit (initlen + 1) []
           | None => replicate (Z.to_nat (initlen + 1)) 0
           end in
  b ← match init with
      | Some i => if initlen =? 0 then Some b else x ← rdn i 0 initlen; wrn b 0 x
      | None => Some b
      end;
  b ← wr b initlen 0;
  Some (Sdshdr (wrap 32 initlen) 0 b).

Definition sdsempty : option sdshdr := sdsnewlen (Some [0]) 0.

Definition sdsnew (init : option (list Z)) : option sdshdr :=
  initlen ← match init with None => Some 0 | Some i => strlen i end;
  sdsnewlen init initlen.

Definition sdsdup s : option sdshdr := sdsnewlen (Some (buf s)) (sdslen s).

Definition sdsupdatelen s : option sdshdr :=
  reallen ← strlen (buf s);
  Some (Sdshdr (wrap 32 reallen) (wrap 32 (free s + (len s - reallen))) (buf s)).

Definition sdsclear s : option sdshdr :=
  b ← wr (buf s) 0 0;
  Some (Sdshdr 0 (wrap 32 (free s + len s)) b).

Definition sdsMakeRoomFor s (addlen : Z) : sdshdr :=
  if addlen <=? sdsavail s then s
  else
    let newlen := wrap 64 (sdslen s + addlen) in
    let newlen := if newlen <? SDS_MAX_PREALLOC then wrap 64 (newlen * 2)
                  else wrap 64 (newlen + SDS_MAX_PREALLOC) in
    Sdshdr (len s) (wrap 32 (newlen - sdslen s)) (realloc uninit (newlen + 1) (buf s)).

Definition sdsRemoveFreeSpace s : sdshdr :=
  Sdshdr (len s) 0 (realloc uninit (len s + 1) (buf s)).

(** The header has two [unsigned int]s. *)
Definition sdsAllocSize s : Z := 8 + len s + free s + 1.

(** A failed [assert] is [None]. *)
Definition sdsIncrLen s (incr : Z) : option sdshdr :=
  if (if 0 <=? incr then incr <=? free s else - incr <=? len s) then
    let l := wrap 32 (len s + incr) in
    b ← wr (buf s) l 0;
    Some (Sdshdr l (wrap 32 (free s - incr)) b)
  else None.

Definition sdsgrowzero s (n : Z) : option sdshdr :=
  let curlen := len s in
  if n <=? curlen then Some s
  else
    let s := sdsMakeRoomFor s (n - curlen) in
    b ← wrn (buf s) curlen (replicate (Z.to_nat (n - curlen + 1)) 0);
    let totlen := len s + free s in
    Some (Sdshdr (wrap 32 n) (wrap 32 (totlen - wrap 32 n)) b).

Definition sdscatlen s t (n : Z) : option sdshdr :=
  let curlen := sdslen s in
  let s := sdsMakeRoomFor s n in
  x ← rdn t 0 n;
  b ← wrn (buf s) curlen x;
  b ← wr b (curlen + n) 0;
  Some (Sdshdr (wrap 32 (curlen + n)) (wrap 32 (free s - n)) b).

Definition sdscat s t : option sdshdr := n ← strlen t; sdscatlen s t n.

Definition sdscatsds s (t : sdshdr) : option sdshdr := sdscatlen s (buf t) (sdslen t).

Definition sdscpylen s t (n : Z) : option sdshdr :=
  let totlen := free s + len s in
  let '(s, totlen) :=
    if totlen <? n then
      let s := sdsMakeRoomFor s (wrap 64 (n - len s)) in (s, free s + len s)
    else (s, totlen) in
  x ← rdn t 0 n;
  b ← wrn (buf s) 0 x;
  b ← wr b n 0;
  Some (Sdshdr (wrap 32 n) (wrap 32 (totlen - n)) b).

Definition sdscpy s t : option sdshdr := n ← strlen t; sdscpylen s t n.

(** [strchr(cset, c)] also finds the terminator of [cset]. *)
Definition strchr (cset : list Z) (c : Z) : bool := existsb (Z.eqb c) cset || (c =? 0).

Fixpoint trim_left (n : nat) (b cset : list Z) (sp end_ : Z) : option Z :=
  match n with
  | O => None
  | S n =>
      if sp <=? end_ then
        c ← rd b sp; if strchr cset c then trim_left n b cset (sp + 1) end_ else Some sp
      else Some sp
  end.

Fixpoint trim_right (n : nat) (b cset : list Z) (ep : Z) : option Z :=
  match n with
  | O => None
  | S n =>
      if 0 <? ep then
        c ← rd b ep; if strchr cset c then trim_right n b cset (ep - 1) else Some ep
      else Some ep
  end.

Definition sdstrim s (cset : list Z) : option sdshdr :=
  let end_ := sdslen s - 1 in
  sp ← trim_left (S (length (buf s))) (buf s) cset 0 end_;
  ep ← trim_right (S (length (buf s))) (buf s) cset end_;
  let n := if ep <? sp then 0 else ep - sp + 1 in
  b ← (if negb (sp =? 0) then memmove (buf s) 0 sp n else Some (buf s));
  b ← wr b n 0;
  Some (Sdshdr (wrap 32 n) (wrap 32 (free s + swrap 32 (len s - n))) b).

Definition sdsrange s (start end_ : Z) : option sdshdr :=
  let l := sdslen s in
  if l =? 0 then Some s
  else
    let start := if start <? 0 then Z.max 0 (swrap 32 l + start) else start in
    let end_ := if end_ <? 0 then Z.max 0 (swrap 32 l + end_) else end_ in
    let newlen := if end_ <? start then 0 else end_ - start + 1 in
    let '(start, newlen) :=
      if negb (newlen =? 0) then
        if swrap 32 l <=? start then (start, 0)
        else if swrap 32 l <=? end_ then
          let end_ := swrap 32 l - 1 in
          (start, if end_ <? start then 0 else end_ - start + 1)
        else (start, newlen)
      else (0, newlen) in
    b ← (if negb (start =? 0) && negb (newlen =? 0) then memmove (buf s) 0 start newlen
         else Some (buf s));
    b ← wr b newlen 0;
    Some (Sdshdr (wrap 32 newlen) (wrap 32 (free s + (len s - newlen))) b).

(** The loops of [sdstolower] and [sdstoupper]. *)
Fixpoint map_loop (n : nat) (f : Z -> Z) (b : list Z) (j : Z) : option (list Z) :=
  match n with
  | O => Some b
  | S n => c ← rd b j; b ← wr b j (f c); map_loop n f b (j + 1)
  end.

Definition tolower (c : Z) : Z := if (65 <=? c) && (c <=? 90) then c + 32 else c.
Definition toupper (c : Z) : Z := if (97 <=? c) && (c <=? 122) then c - 32 else c.

Definition sdstolower s : option sdshdr :=
  b ← map_loop (Z.to_nat (sdslen s)) tolower (buf s) 0; Some (Sdshdr (len s) (free s) b).

Definition sdstoupper s : option sdshdr :=
  b ← map_loop (Z.to_nat (sdslen s)) toupper (buf s) 0; Some (Sdshdr (len s) (free s) b).

(** The two loops of [sdsmapchars]: the first of the characters [from] that is
    equal is replaced by the one of [to] at the same place. *)
Fixpoint map_char (from to : list Z) (setlen : nat) (c : Z) : Z :=
  match setlen, from, to with
  | S n, f :: from, t :: to => if c =? f then t else map_char from to n c
  | _, _, _ => c
  end.

Definition sdsmapchars s (from to : list Z) (setlen : Z) : option sdshdr :=
  b ← map_loop (Z.to_nat (sdslen s)) (map_char from to (Z.to_nat setlen)) (buf s) 0;
  Some (Sdshdr (len s) (free s) b).

Definition sdscmp (s1 s2 : sdshdr) : option Z :=
  let l1 := sdslen s1 in
  let l2 := sdslen s2 in
  let minlen := if l1 <? l2 then l1 else l2 in
  a ← rdn (buf s1) 0 minlen;
  b ← rdn (buf s2) 0 minlen;
  let cmp := memcmp a b in
  Some (if cmp =? 0 then swrap 32 (l1 - l2) else cmp).

(** [sdsjoin]: C strings, each terminated by a zero. *)
Fixpoint sdsjoin_loop (s : sdshdr) (argv : list (list Z)) (sep : list Z) : option sdshdr :=
  match argv with
  | [] => Some s
  | a :: argv =>
      s ← sdscat s a;
      match argv with
      | [] => Some s
      | _ => s ← sdscat s sep; sdsjoin_loop s argv sep
      end
  end.

Definition sdsjoin (argv : list (list Z)) (sep : list Z) : option sdshdr :=
  s ← sdsempty; sdsjoin_loop s argv sep.

End Ops.
(** ** The string an sds holds *)
Definition repr (s : sdshdr) (l : list Z) : Prop :=
  exists t, s = Sdshdr (zlen l) (zlen t) (l ++ 0 :: t) /\ zlen l + zlen t < 2 ^ 31.

Section Specs.
Context (uninit : nat -> Z).
Implicit Types (l x : list Z).

Lemma repr_intro l t : zlen l + zlen t < 2 ^ 31 -> repr (Sdshdr (zlen l) (zlen t) (l ++ 0 :: t)) l.
Proof. intros. by exists t. Qed.

Lemma u32 z : 0 <= z < 2 ^ 31 -> wrap 32 z = z.
Proof. intros. apply wrap_small. unfold in_u. lia. Qed.

Lemma s32 z : 0 <= z < 2 ^ 31 -> swrap 32 z = z.
Proof. intros. apply swrap_small; [lia|]. unfold in_s. lia. Qed.

(** Storing bytes and a terminator in a block that is large enough. *)
Lemma store a g x i j :
  (length x < length g)%nat -> i = zlen a -> j = zlen a + zlen x ->
  exists g', (b ← wrn (a ++ g) i x; wr b j 0) = Some (a ++ x ++ 0 :: g') /\
    zlen g' = zlen g - zlen x - 1.
Proof.
  intros Hx -> ->. rewrite <- (take_drop (length x) g).
  set (y := take (length x) g). assert (length y = length x) as Hy by (unfold y; rewrite length_take; lia).
  destruct (drop (length x) g) as [|z g'] eqn:Hg.
  { apply (f_equal length) in Hg. rewrite length_drop in Hg. simpl in Hg. lia. }
  exists g'. rewrite wrn_app by done. osimpl. split.
  - rewrite app_assoc, wr_app by (rewrite length_app; lia). by rewrite <- app_assoc.
  - rewrite length_app. cbn [length]. lia.
Qed.

(** [sdsMakeRoomFor] does not look at the byte after the string. *)
Lemma makeroom_any z t0 l n :
  zlen l + zlen t0 < 2 ^ 31 -> 0 <= n -> zlen l + n < 2 ^ 31 - 2 ^ 20 ->
  exists t, sdsMakeRoomFor uninit (Sdshdr (zlen l) (zlen t0) (l ++ z :: t0)) n = Sdshdr (zlen l) (zlen t) (l ++ z :: t) /\ n <= zlen t /\
    zlen l + zlen t < 2 ^ 31.
Proof.
  rename t0 into t. intros Ht Hn Hl. unfold sdsMakeRoomFor, sdsavail, sdslen. cbn [free len buf].
  destruct (Z.leb_spec n (zlen t)); [by exists t|]. unfold SDS_MAX_PREALLOC.
  assert (forall y, 0 <= y < 2 ^ 32 -> wrap 64 y = y) as Hw by (intros; apply wrap_small; unfold in_u; lia).
  set (m := if wrap 64 (zlen l + n) <? _ then _ else _).
  assert (zlen l + n <= m < 2 ^ 31) as Hm.
  { unfold m. rewrite (Hw (zlen l + n)) by lia. destruct (Z.ltb_spec (zlen l + n) (1024 * 1024)).
    - rewrite Hw by lia. lia.
    - rewrite Hw by lia. lia. }
  clearbody m. destruct (realloc_grow uninit (m + 1) (l ++ z :: t)) as (u & -> & Hu).
  { rewrite length_app. cbn [length]. lia. }
  rewrite length_app in Hu. cbn [length] in Hu.
  exists (t ++ u). rewrite u32 by lia. rewrite <- app_assoc, length_app.
  split; [f_equal; lia|lia].
Qed.

Lemma makeroom_spec s l n :
  repr s l -> 0 <= n -> zlen l + n < 2 ^ 31 - 2 ^ 20 ->
  exists t, sdsMakeRoomFor uninit s n = Sdshdr (zlen l) (zlen t) (l ++ 0 :: t) /\ n <= zlen t /\
    zlen l + zlen t < 2 ^ 31.
Proof. intros (t & -> & Ht). by apply makeroom_any. Qed.

Lemma catlen_spec s l x r n :
  repr s l -> n = zlen x -> zlen l + zlen x < 2 ^ 31 - 2 ^ 20 ->
  exists s', sdscatlen uninit s (x ++ r) n = Some s' /\ repr s' (l ++ x).
Proof.
  intros Hr -> Hb. unfold sdscatlen, sdslen.
  destruct (makeroom_spec s l (zlen x) Hr) as (t & E & Hn & Ht); [lia..|].
  destruct Hr as (t0 & -> & Ht0). cbn [len]. rewrite E. cbn [buf free].
  rewrite (rdn_app [] x r) by done. osimpl.
  destruct (store l (0 :: t) x (zlen l) (zlen l + zlen x)) as (g & Es & Hg); [simpl; lia|done..|].
  apply bind_inv in Es as (b & -> & Es). osimpl. rewrite Es. osimpl.
  cbn [length] in Hg. eexists. split; [done|]. exists g. rewrite !u32 by lia.
  rewrite length_app, <- app_assoc. split; [f_equal; lia|lia].
Qed.
Lemma newlen_spec x r :
  zlen x < 2 ^ 31 ->
  exists s, sdsnewlen uninit (Some (x ++ r)) (zlen x) = Some s /\ repr s x.
Proof.
  intros Hx. unfold sdsnewlen. set (b0 := realloc _ _ _).
  assert (zlen b0 = zlen x + 1) as Hb0 by (unfold b0; rewrite realloc_length; lia).
  destruct (store [] b0 x 0 (zlen x)) as (g & Es & Hg); [lia|done..|]. cbn [app] in Es.
  apply bind_inv in Es as (b & Ew & Es).
  assert ((if zlen x =? 0 then Some b0 else x0 ← rdn (x ++ r) 0 (zlen x); wrn b0 0 x0) = Some b) as ->.
  { destruct (Z.eqb_spec (zlen x) 0) as [Hz|_].
    - destruct x; [|simpl in Hz; lia]. rewrite <- (app_nil_l b0), (wrn_app [] [] b0) in Ew by done. done.
    - rewrite (rdn_app [] x r) by done. done. }
  osimpl. rewrite Es. osimpl. eexists. split; [done|].
  destruct g; [|simpl in Hg; lia]. rewrite u32 by lia. apply (repr_intro x []). simpl. lia.
Qed.

Lemma empty_spec : exists s, sdsempty uninit = Some s /\ repr s [].
Proof. apply (newlen_spec [] [0]). done. Qed.

Lemma dup_spec s l : repr s l -> exists s', sdsdup uninit s = Some s' /\ repr s' l.
Proof. intros (t & -> & Ht). apply newlen_spec. lia. Qed.

Lemma cpylen_spec s l x r :
  repr s l -> zlen x < 2 ^ 30 -> zlen l < 2 ^ 30 ->
  exists s', sdscpylen uninit s (x ++ r) (zlen x) = Some s' /\ repr s' x.
Proof.
  intros Hr Hx Hl.
  assert (forall l' t, zlen x <= zlen l' + zlen t < 2 ^ 31 -> exists s',
    (x0 ← rdn (x ++ r) 0 (zlen x); b ← wrn (l' ++ 0 :: t) 0 x0; b ← wr b (zlen x) 0;
     Some (Sdshdr (wrap 32 (zlen x)) (wrap 32 (zlen t + zlen l' - zlen x)) b)) = Some s' /\
    repr s' x) as Hk.
  { intros l' t Hlt. rewrite (rdn_app [] x r) by done. osimpl.
    destruct (store [] (l' ++ 0 :: t) x 0 (zlen x)) as (g & Es & Hg);
      [rewrite length_app; simpl; lia|done..|]. cbn [app] in Es.
    apply bind_inv in Es as (b & -> & Es). osimpl. rewrite Es. osimpl.
    rewrite length_app in Hg. cbn [length] in Hg. eexists. split; [done|].
    exists g. rewrite !u32 by lia. split; [f_equal; lia|lia]. }
  unfold sdscpylen. destruct (Hr) as (t0 & -> & Ht0). cbn [free len].
  destruct (Z.ltb_spec (zlen t0 + zlen l) (zlen x)).
  - rewrite (wrap_small 64 (zlen x - zlen l)) by (unfold in_u; lia).
    destruct (makeroom_spec _ l (zlen x - zlen l) Hr) as (t & -> & Hn & Ht); [lia..|].
    cbn [free len buf]. apply Hk. lia.
  - cbn [buf]. apply Hk. lia.
Qed.

Lemma growzero_spec s l n :
  repr s l -> n < 2 ^ 30 ->
  exists s', sdsgrowzero uninit s n = Some s' /\
    repr s' (l ++ replicate (Z.to_nat n - length l) 0).
Proof.
  intros Hr Hn. unfold sdsgrowzero. destruct (Hr) as (t0 & -> & Ht0). cbn [len].
  destruct (Z.leb_spec n (zlen l)).
  { replace (Z.to_nat n - length l)%nat with 0%nat by lia. rewrite app_nil_r. eexists. split; [done|].
    by apply repr_intro. }
  destruct (makeroom_spec _ l (n - zlen l) Hr) as (t & -> & Hnt & Ht); [lia..|]. cbn [buf len free].
  set (k := (Z.to_nat n - length l)%nat).
  replace (Z.to_nat (n - zlen l + 1)) with (k + 1)%nat by lia.
  rewrite replicate_add. change (replicate 1 0) with [0].
  rewrite <- (take_drop (k + 1) (0 :: t)).
  rewrite wrn_app by (done || (rewrite length_take, length_app, length_replicate; simpl; lia)).
  osimpl. eexists. split; [done|]. exists (drop (k + 1) (0 :: t)).
  rewrite <- !app_assoc. cbn [app]. rewrite !u32 by lia.
  rewrite length_drop, length_app, length_replicate. cbn [length]. split; [f_equal; lia|lia].
Qed.

(** [sdsIncrLen] after bytes were written to the free space: the [n] bytes
    after the string become part of it. *)
Lemma incrlen_spec l x c t :
  zlen l + zlen x + zlen t < 2 ^ 31 ->
  exists s', sdsIncrLen (Sdshdr (zlen l) (zlen x + zlen t) (l ++ x ++ c :: t)) (zlen x) = Some s' /\
    repr s' (l ++ x).
Proof.
  intros Hb. unfold sdsIncrLen. cbn [len free buf].
  rewrite (proj2 (Z.leb_le 0 _)), (proj2 (Z.leb_le _ _)) by lia. rewrite !u32 by lia.
  rewrite app_assoc, wr_app by (rewrite length_app; lia). osimpl. eexists. split; [done|].
  exists t. rewrite length_app. split; [f_equal; lia|lia].
Qed.

(** A negative increment cuts the string on the right. *)
Lemma incrlen_trim l x t :
  zlen l + zlen x + zlen t < 2 ^ 31 -> x <> [] ->
  exists s', sdsIncrLen (Sdshdr (zlen (l ++ x)) (zlen t) ((l ++ x) ++ 0 :: t)) (- zlen x) = Some s' /\
    repr s' l.
Proof.
  intros Hb Hx. unfold sdsIncrLen. cbn [len free buf]. rewrite length_app.
  assert (0 < zlen x) by (destruct x; [done|simpl; lia]).
  rewrite (proj2 (Z.leb_gt 0 _)), (proj2 (Z.leb_le _ _)) by lia. rewrite !u32 by lia.
  rewrite <- app_assoc. destruct x as [|y x]; [done|]. cbn [app]. rewrite wr_app by lia. osimpl.
  eexists. split; [done|]. exists (x ++ 0 :: t). rewrite length_app. cbn [length] in *.
  split; [f_equal; lia|lia].
Qed.

Lemma remove_free_spec s l : repr s l -> repr (sdsRemoveFreeSpace uninit s) l.
Proof.
  intros (t & -> & Ht). unfold sdsRemoveFreeSpace. cbn [len buf]. exists [].
  rewrite realloc_shrink by (rewrite length_app; simpl; lia).
  replace (Z.to_nat (zlen l + 1)) with (length (l ++ [0])) by (rewrite length_app; simpl; lia).
  replace (l ++ 0 :: t) with ((l ++ [0]) ++ t) by (by rewrite <- app_assoc).
  rewrite take_app_length. split; [done|simpl; lia].
Qed.

Lemma clear_spec s l : repr s l -> exists s', sdsclear s = Some s' /\ repr s' [] /\
  sdsAllocSize s' = sdsAllocSize s.
Proof.
  intros (t & -> & Ht). unfold sdsclear, sdsAllocSize. cbn [len free buf].
  destruct l as [|c l]; cbn [app].
  - rewrite wr_0. osimpl. eexists. split; [done|]. cbn [len free].
    rewrite u32 by (simpl; lia). split; [|simpl; lia]. exists t. split; [f_equal; simpl; lia|simpl; lia].
  - rewrite wr_0. osimpl. eexists. split; [done|]. cbn [len free].
    rewrite u32 by lia. split; [|lia]. exists (l ++ 0 :: t). rewrite length_app. cbn [length app] in *.
    split; [f_equal; lia|lia].
Qed.

Lemma strlen_from_spec l : forall pre t n,
  Forall (fun c => c <> 0) l -> (length l < n)%nat ->
  strlen_from n (pre ++ l ++ 0 :: t) (zlen pre) = Some (zlen pre + zlen l).
Proof.
  induction l as [|c l IH]; intros pre t n Hl Hn; (destruct n as [|n]; [simpl in Hn; lia|]);
    cbn [strlen_from app]; rewrite rd_app by done; osimpl.
  - cbn. result_eq.
  - apply Forall_cons_iff in Hl as [Hc Hl]. rewrite (proj2 (Z.eqb_neq c 0)) by done.
    replace (pre ++ c :: l ++ 0 :: t) with ((pre ++ [c]) ++ l ++ 0 :: t) by (by rewrite <- app_assoc).
    replace (zlen pre + 1) with (zlen (pre ++ [c])) by (rewrite length_app; simpl; lia).
    simpl in Hn. rewrite IH by (done || lia). rewrite length_app. cbn [length]. result_eq.
Qed.

Lemma strlen_spec l t : Forall (fun c => c <> 0) l -> strlen (l ++ 0 :: t) = Some (zlen l).
Proof.
  intros Hl. unfold strlen. rewrite (strlen_from_spec l [] t); [done|done|].
  rewrite length_app. simpl. lia.
Qed.

Lemma cat_spec s l x r :
  repr s l -> Forall (fun c => c <> 0) x -> zlen l + zlen x < 2 ^ 30 ->
  exists s', sdscat uninit s (x ++ 0 :: r) = Some s' /\ repr s' (l ++ x).
Proof.
  intros Hr Hx Hb. unfold sdscat. rewrite strlen_spec by done. osimpl. apply catlen_spec; [done|done|lia].
Qed.

Lemma updatelen_spec s l x :
  repr s l -> l = x ++ 0 :: drop (S (length x)) l -> Forall (fun c => c <> 0) x ->
  exists s', sdsupdatelen s = Some s' /\ repr s' x.
Proof.
  intros (t & -> & Ht) El Hx. set (y := drop (S (length x)) l) in *.
  unfold sdsupdatelen. cbn [buf free len].
  assert (l ++ 0 :: t = x ++ 0 :: y ++ 0 :: t) as Eb by (rewrite El at 1; by rewrite <- app_assoc).
  assert (zlen l = zlen x + 1 + zlen y) as Hl.
  { rewrite El at 1. rewrite length_app. cbn [length]. lia. }
  rewrite Eb, strlen_spec by done. osimpl. eexists. split; [done|]. exists (y ++ 0 :: t).
  rewrite length_app. cbn [length]. rewrite !u32 by lia. split; [f_equal; lia|lia].
Qed.

(** ** Substrings *)
Lemma cut_spec l t (i n : nat) :
  zlen l + zlen t < 2 ^ 31 -> (i + n <= length l)%nat ->
  exists g, (b ← (if negb (Z.of_nat i =? 0) && negb (Z.of_nat n =? 0)
                  then memmove (l ++ 0 :: t) 0 (Z.of_nat i) (Z.of_nat n) else Some (l ++ 0 :: t));
             wr b (Z.of_nat n) 0) = Some (take n (drop i l) ++ 0 :: g) /\
    zlen g = zlen l + zlen t - Z.of_nat n.
Proof.
  intros Hb Hin.
  assert (length (take n (drop i l)) = n) as Hlen by (rewrite length_take, length_drop; lia).
  assert (exists rest, (if negb (Z.of_nat i =? 0) && negb (Z.of_nat n =? 0)
            then memmove (l ++ 0 :: t) 0 (Z.of_nat i) (Z.of_nat n) else Some (l ++ 0 :: t))
          = Some (take n (drop i l) ++ rest) /\ zlen rest = zlen l + 1 + zlen t - Z.of_nat n)
    as (rest & -> & Hrest).
  { exists (drop n (l ++ 0 :: t)). rewrite length_drop, length_app. cbn [length].
    split; [|lia]. destruct (decide (i = 0%nat)) as [->|Hi].
    - cbn [Z.of_nat Z.eqb negb andb]. rewrite drop_0, <- (take_app_le l (0 :: t) n) by lia.
      by rewrite take_drop.
    - rewrite (proj2 (Z.eqb_neq (Z.of_nat i) 0)) by lia. cbn [negb andb].
      destruct (decide (n = 0%nat)) as [->|Hn]; [done|].
      rewrite (proj2 (Z.eqb_neq (Z.of_nat n) 0)) by lia. cbn [negb]. unfold memmove.
      assert (rdn (l ++ 0 :: t) (Z.of_nat i) (Z.of_nat n) = Some (take n (drop i l))) as ->.
      { rewrite <- (take_drop i l) at 1. rewrite <- (take_drop n (drop i l)) at 1.
        rewrite <- !app_assoc. apply rdn_app; [rewrite length_take; lia|lia]. }
      osimpl. rewrite <- (take_drop n (l ++ 0 :: t)) at 1.
      apply (wrn_app [] (take n (l ++ 0 :: t)) _ 0 (take n (drop i l))); [done|].
      rewrite Hlen, length_take, length_app. lia. }
  osimpl. destruct rest as [|c g]; [simpl in Hrest; lia|]. rewrite wr_app by lia.
  exists g. split; [done|]. cbn [length] in Hrest. lia.
Qed.

(** The substring [sdsrange] keeps: negative indices count from the end, and
    the interval is cut to the string. *)
Definition index_of (n i : Z) : Z := if i <? 0 then Z.max 0 (n + i) else i.

Definition slice (l : list Z) (start end_ : Z) : list Z :=
  drop (Z.to_nat (index_of (zlen l) start))
       (take (Z.to_nat (index_of (zlen l) end_ + 1)) l).

Lemma take_drop_slice (l : list Z) (i n : nat) : take n (drop i l) = drop i (take (i + n) l).
Proof. rewrite skipn_firstn_comm. f_equal. lia. Qed.

Lemma range_spec s l start end_ :
  repr s l -> exists s', sdsrange s start end_ = Some s' /\ repr s' (slice l start end_).
Proof.
  intros (t & -> & Ht). unfold sdsrange, sdslen. cbn [len buf free].
  destruct (Z.eqb_spec (zlen l) 0) as [Hz|Hz].
  { destruct l; [|simpl in Hz; lia]. eexists. split; [done|]. unfold slice.
    rewrite take_nil, drop_nil. by apply (repr_intro []). }
  rewrite !s32 by lia. fold (index_of (zlen l) start) (index_of (zlen l) end_).
  assert (0 <= index_of (zlen l) start) as Hst by (unfold index_of; destruct (Z.ltb_spec start 0); lia).
  assert (0 <= index_of (zlen l) end_) as Hen by (unfold index_of; destruct (Z.ltb_spec end_ 0); lia).
  unfold slice. set (a := index_of (zlen l) start) in *. set (e := index_of (zlen l) end_) in *.
  assert (forall (i n : nat), (i + n <= length l)%nat -> take n (drop i l) = drop (Z.to_nat a) (take (Z.to_nat (e + 1)) l) ->
    exists s', (b ← (if negb (Z.of_nat i =? 0) && negb (Z.of_nat n =? 0)
                     then memmove (l ++ 0 :: t) 0 (Z.of_nat i) (Z.of_nat n) else Some (l ++ 0 :: t));
                b ← wr b (Z.of_nat n) 0;
                Some (Sdshdr (wrap 32 (Z.of_nat n)) (wrap 32 (zlen t + (zlen l - Z.of_nat n))) b)) = Some s' /\
               repr s' (drop (Z.to_nat a) (take (Z.to_nat (e + 1)) l))) as Hcut.
  { intros i n Hin <-. destruct (cut_spec l t i n Ht Hin) as (g & Eg & Hg).
    apply bind_inv in Eg as (b & -> & Eg). osimpl. rewrite Eg. osimpl. eexists. split; [done|].
    exists g. rewrite length_take, length_drop, !u32 by lia. split; [f_equal; lia|lia]. }
  clearbody a e. destruct (Z.ltb_spec e a).
  { cbn [Z.eqb negb]. apply (Hcut 0%nat 0%nat); [lia|].
    rewrite (drop_ge (take _ _)); [done|]. rewrite length_take. lia. }
  rewrite (proj2 (Z.eqb_neq _ _)) by lia. cbn [negb].
  destruct (Z.leb_spec (zlen l) a).
  { replace a with (Z.of_nat (Z.to_nat a)) at 1 2 by lia.
    specialize (Hcut 0%nat 0%nat). cbn [Z.of_nat Z.eqb negb andb] in Hcut. rewrite andb_false_r.
    apply Hcut; [lia|]. rewrite (drop_ge (take _ _)); [done|]. rewrite length_take. lia. }
  destruct (Z.leb_spec (zlen l) e).
  - rewrite (proj2 (Z.ltb_ge _ _)) by lia.
    specialize (Hcut (Z.to_nat a) (length l - Z.to_nat a)%nat).
    replace (Z.of_nat (Z.to_nat a)) with a in Hcut by lia.
    replace (Z.of_nat (length l - Z.to_nat a)) with (zlen l - 1 - a + 1) in Hcut by lia.
    apply Hcut; [lia|]. rewrite take_drop_slice. f_equal. by rewrite !take_ge by lia.
  - specialize (Hcut (Z.to_nat a) (Z.to_nat (e - a + 1))).
    replace (Z.of_nat (Z.to_nat a)) with a in Hcut by lia.
    replace (Z.of_nat (Z.to_nat (e - a + 1))) with (e - a + 1) in Hcut by lia.
    apply Hcut; [lia|]. rewrite take_drop_slice. do 2 f_equal. lia.
Qed.

(** ** Trimming *)
Fixpoint ltrim (cset : list Z) (l : list Z) : list Z :=
  match l with
  | c :: l' => if strchr cset c then ltrim cset l' else l
  | [] => []
  end.

Definition trimmed (cset l : list Z) : list Z := reverse (ltrim cset (reverse (ltrim cset l))).

Lemma ltrim_split cset l : exists x, l = x ++ ltrim cset l /\ Forall (fun c => strchr cset c = true) x.
Proof.
  induction l as [|c l (x & E & Hx)]; [by exists []|]. cbn [ltrim].
  destruct (strchr cset c) eqn:Hc; [|by exists []].
  exists (c :: x). split; [cbn; by rewrite <- E|by constructor].
Qed.

Lemma trim_left_spec cset l : forall pre t n,
  (length l < n)%nat ->
  trim_left n (pre ++ l ++ 0 :: t) cset (zlen pre) (zlen pre + zlen l - 1) =
    Some (zlen pre + (zlen l - zlen (ltrim cset l))).
Proof.
  induction l as [|c l IH]; intros pre t n Hn; (destruct n as [|n]; [simpl in Hn; lia|]);
    cbn [trim_left ltrim].
  - rewrite (proj2 (Z.leb_gt _ _)) by (simpl; lia). cbn. result_eq.
  - rewrite (proj2 (Z.leb_le _ _)) by (simpl; lia). cbn [app]. rewrite rd_app by done. osimpl.
    destruct (strchr cset c); [|result_eq].
    replace (pre ++ c :: l ++ 0 :: t) with ((pre ++ [c]) ++ l ++ 0 :: t) by (by rewrite <- app_assoc).
    specialize (IH (pre ++ [c]) t n ltac:(simpl in Hn; lia)). rewrite length_app in IH. cbn [length] in *.
    replace (zlen pre + 1) with (Z.of_nat (length pre + 1)) by lia.
    replace (zlen pre + Z.of_nat (S (length l)) - 1) with (Z.of_nat (length pre + 1) + zlen l - 1) by lia.
    rewrite IH. result_eq.
Qed.

(** The scan from the right stops at the first byte of the string at the
    latest. *)
Lemma trim_right_spec cset l : forall t n,
  (length l < n)%nat ->
  trim_right n (l ++ t) cset (zlen l - 1) =
    Some (Z.max (Z.min 0 (zlen l - 1)) (zlen (reverse (ltrim cset (reverse l))) - 1)).
Proof.
  induction l as [|c l IH] using rev_ind; intros t n Hn; (destruct n as [|n]; [simpl in Hn; lia|]);
    cbn [trim_right].
  - cbn. done.
  - rewrite length_app in Hn |- *. cbn [length] in Hn |- *. rewrite reverse_snoc. cbn [ltrim].
    destruct (Z.ltb_spec 0 (Z.of_nat (length l + 1) - 1)) as [Hlt|Hge].
    + rewrite <- app_assoc. cbn [app]. rewrite rd_app by lia. osimpl.
      destruct (strchr cset c).
      * replace (Z.of_nat (length l + 1) - 1 - 1) with (zlen l - 1) by lia.
        rewrite (IH (c :: t) n) by lia. result_eq.
      * cbn [length]. rewrite reverse_cons, reverse_involutive, length_app. cbn [length]. result_eq.
    + destruct l; [|simpl in Hge; lia]. cbn. destruct (strchr cset c); cbn; result_eq.
Qed.

Lemma ltrim_length cset l : (length (ltrim cset l) <= length l)%nat.
Proof. induction l as [|c l IH]; cbn; [done|]. destruct (strchr cset c); cbn; lia. Qed.

Lemma ltrim_app cset x y : ltrim cset x <> [] -> ltrim cset (x ++ y) = ltrim cset x ++ y.
Proof. induction x as [|c x IH]; cbn; [done|]. destruct (strchr cset c); [auto|done]. Qed.

Lemma ltrim_head cset l c l' : ltrim cset l = c :: l' -> strchr cset c = false.
Proof.
  induction l as [|d l IH]; cbn; [done|]. destruct (strchr cset d) eqn:Hd; [done|].
  by intros [= <- _].
Qed.

(** What remains is the middle part of the string. *)
Lemma trimmed_middle cset l :
  let i := (length l - length (ltrim cset l))%nat in
  let e := length (reverse (ltrim cset (reverse l))) in
  (ltrim cset l = [] -> trimmed cset l = [] /\ i = length l) /\
  (ltrim cset l <> [] -> (i < e <= length l)%nat /\ trimmed cset l = take (e - i) (drop i l)).
Proof.
  intros i e. split.
  - intros E. unfold trimmed, i. rewrite E. cbn. split; [done|lia].
  - intros Hne. destruct (ltrim_split cset l) as (x & El & Hx).
    assert (i = length x) as Hi.
    { unfold i. rewrite El at 1. rewrite length_app. lia. }
    unfold trimmed. destruct (ltrim cset l) as [|c y'] eqn:Ey; [done|]. pose proof (ltrim_head _ _ _ _ Ey) as Hc.
    set (y := c :: y') in *. clear Ey Hne.
    destruct (ltrim_split cset (reverse y)) as (z & Ez & Hz).
    assert (ltrim cset (reverse y) <> []) as Hne.
    { intros E. rewrite E, app_nil_r in Ez. rewrite Forall_forall in Hz.
      assert (strchr cset c = true) as Hc'; [|congruence]. apply Hz. rewrite <- Ez, elem_of_reverse. set_solver. }
    set (u := ltrim cset (reverse y)) in *.
    assert (y = reverse u ++ reverse z) as Eu.
    { rewrite <- reverse_app, <- Ez. by rewrite reverse_involutive. }
    assert (e = (length u + length x)%nat) as He.
    { unfold e. rewrite length_reverse, El, reverse_app, ltrim_app by done. rewrite length_app, length_reverse. done. }
    assert (length y = (length u + length z)%nat) as Hy.
    { rewrite Eu, length_app, !length_reverse. done. }
    assert (length u <> 0%nat) as Hu by (destruct u; done).
    split; [rewrite El, length_app; lia|].
    rewrite Hi, He, El. rewrite drop_app_length, Eu at 1.
    replace (length u + length x - length x)%nat with (length (reverse u)) by (rewrite length_reverse; lia).
    by rewrite take_app_length.
Qed.

Lemma trim_spec s l cset :
  repr s l -> exists s', sdstrim s cset = Some s' /\ repr s' (trimmed cset l).
Proof.
  intros (t & -> & Ht). unfold sdstrim, sdslen. cbn [len buf free].
  pose proof (trim_left_spec cset l [] t (S (length (l ++ 0 :: t)))) as HL. change (zlen []) with 0 in HL.
  cbn [app] in HL. rewrite !Z.add_0_l in HL. rewrite HL by (rewrite length_app; simpl; lia). osimpl.
  rewrite trim_right_spec by (rewrite length_app; simpl; lia). osimpl.
  destruct (trimmed_middle cset l) as [Hempty Hmid]. pose proof (ltrim_length cset l).
  set (i := (length l - length (ltrim cset l))%nat) in *.
  set (e := length (reverse (ltrim cset (reverse l)))) in *.
  assert (exists n, (if Z.max (Z.min 0 (zlen l - 1)) (Z.of_nat e - 1) <? zlen l - zlen (ltrim cset l)
            then 0 else Z.max (Z.min 0 (zlen l - 1)) (Z.of_nat e - 1) - (zlen l - zlen (ltrim cset l)) + 1)
            = Z.of_nat n /\ (i + n <= length l)%nat /\ take n (drop i l) = trimmed cset l) as (n & -> & Hin & En).
  { destruct (decide (ltrim cset l = [])) as [E|E].
    - destruct (Hempty E) as [-> Hi]. exists 0%nat. rewrite E.
      assert (e <= length l)%nat by (unfold e; rewrite length_reverse, <- (length_reverse l); apply ltrim_length).
      rewrite (proj2 (Z.ltb_lt _ _)) by (destruct l; simpl in *; lia). split_and!; [done|lia|done].
    - destruct (Hmid E) as [He ->]. exists (e - i)%nat. rewrite (proj2 (Z.ltb_ge _ _)) by lia.
      split_and!; [lia|lia|done]. }
  assert (zlen l - zlen (ltrim cset l) = Z.of_nat i) as -> by lia.
  destruct (cut_spec l t i n Ht Hin) as (g & Eg & Hg). rewrite <- En.
  assert ((b ← (if negb (Z.of_nat i =? 0) then memmove (l ++ 0 :: t) 0 (Z.of_nat i) (Z.of_nat n) else Some (l ++ 0 :: t));
           wr b (Z.of_nat n) 0) = Some (take n (drop i l) ++ 0 :: g)) as Eg'.
  { destruct (decide (n = 0%nat)) as [->|Hn]; [|by rewrite (proj2 (Z.eqb_neq (Z.of_nat n) 0)), andb_true_r in Eg by lia].
    rewrite andb_false_r in Eg. destruct (negb _); [|done]. unfold memmove, rdn.
    rewrite !(proj2 (Z.leb_le _ _)) by (rewrite ?length_app; lia). cbn [andb]. osimpl.
    pose proof (wrn_app [] [] (l ++ 0 :: t) 0 [] eq_refl eq_refl) as Ew. cbn [app] in Ew.
    change (take (Z.to_nat (Z.of_nat 0)) (drop (Z.to_nat (Z.of_nat i)) (l ++ 0 :: t))) with (@nil Z).
    rewrite Ew. done. }
  apply bind_inv in Eg' as (b & -> & Eg'). osimpl. rewrite Eg'. osimpl. eexists. split; [done|].
  exists g. rewrite length_take, length_drop, s32, !u32 by lia. split; [f_equal; lia|lia].
Qed.

(** ** Mapping, comparing, joining *)
Lemma map_loop_spec f l : forall pre t,
  map_loop (length l) f (pre ++ l ++ t) (zlen pre) = Some (pre ++ (f <$> l) ++ t).
Proof.
  induction l as [|c l IH]; intros pre t; cbn [length map_loop fmap list_fmap app]; [done|].
  rewrite rd_app by done. osimpl. rewrite wr_app by done. osimpl.
  replace (pre ++ f c :: l ++ t) with ((pre ++ [f c]) ++ l ++ t) by (by rewrite <- app_assoc).
  replace (zlen pre + 1) with (zlen (pre ++ [f c])) by (rewrite length_app; simpl; lia).
  rewrite IH, <- app_assoc. done.
Qed.

Lemma map_spec f s l :
  repr s l ->
  exists s', (b ← map_loop (Z.to_nat (sdslen s)) f (buf s) 0; Some (Sdshdr (len s) (free s) b)) = Some s' /\
    repr s' (f <$> l).
Proof.
  intros (t & -> & Ht). unfold sdslen. cbn [len buf free]. rewrite Nat2Z.id.
  pose proof (map_loop_spec f l [] (0 :: t)) as E. change (zlen []) with 0 in E.
  cbn [app] in E. rewrite E. osimpl. eexists. split; [done|].
  exists t. by rewrite length_fmap.
Qed.

(** The order of byte strings in which a proper prefix is smaller. *)
Fixpoint lex (a b : list Z) : comparison :=
  match a, b with
  | [], [] => Eq
  | [], _ => Lt
  | _, [] => Gt
  | x :: a, y :: b => match x ?= y with Eq => lex a b | c => c end
  end.

Lemma memcmp_lex a : forall b,
  let n := Nat.min (length a) (length b) in
  let c := memcmp (take n a) (take n b) in
  lex a b = if c =? 0 then (zlen a ?= zlen b) else (c ?= 0).
Proof.
  induction a as [|x a IH]; intros [|y b]; cbn [length Nat.min take lex memcmp]; try done.
  specialize (IH b). cbn in IH. destruct (Z.eqb_spec x y) as [->|Hne].
  - rewrite Z.compare_refl, IH. destruct (_ =? 0); [|done].
    rewrite !Nat2Z.inj_succ, <- !Z.add_1_l. symmetry. apply Z.add_compare_mono_l.
  - destruct (Z.ltb_spec x y) as [Hlt|Hge]; cbn.
    + by rewrite (proj2 (Z.compare_lt_iff x y)).
    + by rewrite (proj2 (Z.compare_gt_iff x y)) by lia.
Qed.

Lemma rdn_take l t n : (n <= length l)%nat -> rdn (l ++ t) 0 (Z.of_nat n) = Some (take n l).
Proof.
  intros Hn. rewrite <- (take_drop n l) at 1. rewrite <- app_assoc.
  apply (rdn_app []); [done|]. rewrite length_take. lia.
Qed.

Lemma cmp_spec s1 s2 l1 l2 :
  repr s1 l1 -> repr s2 l2 -> exists r, sdscmp s1 s2 = Some r /\ (r ?= 0) = lex l1 l2.
Proof.
  intros (t1 & -> & H1) (t2 & -> & H2). unfold sdscmp, sdslen. cbn [len buf].
  replace (if zlen l1 <? zlen l2 then zlen l1 else zlen l2) with (Z.of_nat (Nat.min (length l1) (length l2)))
    by (destruct (Z.ltb_spec (zlen l1) (zlen l2)); lia).
  rewrite !rdn_take by lia. osimpl. eexists. split; [done|]. rewrite memcmp_lex.
  cbv zeta. set (c := memcmp _ _). destruct (Z.eqb_spec c 0) as [Hc|Hc]; [|done].
  rewrite swrap_small by (unfold in_s; lia).
  symmetry. apply Z.compare_sub.
Qed.

Fixpoint intercalate (sep : list Z) (ls : list (list Z)) : list Z :=
  match ls with
  | [] => []
  | [l] => l
  | l :: ls => l ++ sep ++ intercalate sep ls
  end.

Lemma join_loop_spec argv : forall s l sep,
  repr s l -> Forall (Forall (fun c => c <> 0)) (sep :: argv) ->
  zlen l + zlen (intercalate sep argv) < 2 ^ 30 ->
  exists s', sdsjoin_loop uninit s ((fun a => a ++ [0]) <$> argv) (sep ++ [0]) = Some s' /\
    repr s' (l ++ intercalate sep argv).
Proof.
  induction argv as [|a argv IH]; intros s l sep Hr Hz Hb.
  { exists s. rewrite app_nil_r. done. }
  apply Forall_cons_iff in Hz as [Hsep Hz]. apply Forall_cons_iff in Hz as [Ha Hz].
  cbn [fmap list_fmap sdsjoin_loop].
  assert (zlen l + zlen a < 2 ^ 30).
  { cbn [intercalate] in Hb. destruct argv; [lia|]. rewrite length_app in Hb. lia. }
  destruct (cat_spec s l a [] Hr Ha) as (s1 & -> & Hr1); [lia|]. osimpl.
  destruct argv as [|a2 argv]; [by exists s1|].
  cbn [intercalate] in Hb |- *. rewrite !length_app in Hb.
  change ((fun a => a ++ [0]) <$> a2 :: argv) with ((a2 ++ [0]) :: ((fun a => a ++ [0]) <$> argv)).
  destruct (cat_spec s1 (l ++ a) sep [] Hr1 Hsep) as (s2 & -> & Hr2); [rewrite length_app; lia|]. osimpl.
  destruct (IH s2 ((l ++ a) ++ sep) sep Hr2) as (s3 & E3 & Hr3).
  - by constructor.
  - rewrite !length_app. cbn [intercalate]. lia.
  - exists s3. split; [exact E3|]. by rewrite <- !app_assoc in Hr3.
Qed.

End Specs.

(** ** What the operations do to the string *)

(** appending and copying: [sdscatlen] appends the bytes, [sdscpylen]
    replaces the string by them, and [sdsgrowzero] extends it with zeros to the
    requested length; the length, the free space and the terminator stay
    consistent whether or not the buffer is reallocated. *)
Theorem sds_update_refines uninit s l x r n :
  repr s l -> zlen l + zlen x < 2 ^ 30 -> n < 2 ^ 30 ->
  (exists s', sdscatlen uninit s (x ++ r) (zlen x) = Some s' /\ repr s' (l ++ x)) /\
  (exists s', sdscpylen uninit s (x ++ r) (zlen x) = Some s' /\ repr s' x) /\
  (exists s', sdsgrowzero uninit s n = Some s' /\ repr s' (l ++ replicate (Z.to_nat n - length l) 0)) /\
  (exists s', sdsdup uninit s = Some s' /\ repr s' l).
Proof.
  intros Hr Hx Hn. split_and!.
  - apply catlen_spec; [done|done|lia].
  - apply (cpylen_spec uninit s l x r); [done|lia|lia].
  - by apply growzero_spec.
  - by apply dup_spec.
Qed.

(** [sdsrange] keeps the substring between two inclusive indices, negative
    ones counting from the end, [sdstrim] removes the bytes of the set (and
    zero bytes) from both ends, both in place. *)
Theorem sds_cut_refines s l start end_ cset :
  repr s l ->
  (exists s', sdsrange s start end_ = Some s' /\ repr s' (slice l start end_)) /\
  (exists s', sdstrim s cset = Some s' /\ repr s' (trimmed cset l)).
Proof. intros Hr. split; [by apply range_spec|by apply trim_spec]. Qed.

(** the sign of [sdscmp] is the lexicographic order of the strings as byte
    sequences, a proper prefix being smaller. *)
Theorem sdscmp_lexicographic s1 s2 l1 l2 :
  repr s1 l1 -> repr s2 l2 -> exists r, sdscmp s1 s2 = Some r /\ (r ?= 0) = lex l1 l2.
Proof. apply cmp_spec. Qed.

(** [sdsjoin] puts the separator between the strings. *)
Lemma sdsjoin_spec uninit argv sep :
  Forall (Forall (fun c => c <> 0)) (sep :: argv) -> zlen (intercalate sep argv) < 2 ^ 30 ->
  exists s, sdsjoin uninit ((fun a => a ++ [0]) <$> argv) (sep ++ [0]) = Some s /\
    repr s (intercalate sep argv).
Proof.
  intros Hz Hb. unfold sdsjoin. destruct (empty_spec uninit) as (s0 & -> & Hr). osimpl.
  apply (join_loop_spec uninit argv s0 [] sep); [done..|simpl; lia].
Qed.

(** An sds that holds " ab " with two free bytes. *)
Definition s_ab : sdshdr := Sdshdr 4 2 [32; 97; 98; 32; 0; 7; 7].

Lemma s_ab_repr : repr s_ab [32; 97; 98; 32].
Proof. exists [7; 7]. split; [reflexivity|simpl; lia]. Qed.

Lemma sds_update_refines_witness :
  exists s', sdscatlen (fun _ => 0) s_ab ([99; 100; 101] ++ []) 3 = Some s' /\
    repr s' [32; 97; 98; 32; 99; 100; 101].
Proof.
  exact (proj1 (sds_update_refines (fun _ => 0) s_ab [32; 97; 98; 32] [99; 100; 101] [] 6 s_ab_repr
                  ltac:(simpl; lia) ltac:(lia))).
Defined.

Lemma sds_cut_refines_witness :
  (exists s', sdsrange s_ab 1 (-2) = Some s' /\ repr s' [97; 98]) /\
  (exists s', sdstrim s_ab [32] = Some s' /\ repr s' [97; 98]).
Proof. exact (sds_cut_refines s_ab [32; 97; 98; 32] 1 (-2) [32] s_ab_repr). Defined.

Lemma sdscmp_lexicographic_witness :
  exists r, sdscmp s_ab (Sdshdr 1 0 [97; 0]) = Some r /\ (r ?= 0) = Lt.
Proof.
  assert (repr (Sdshdr 1 0 [97; 0]) [97]) as H2 by (exists []; split; [reflexivity|simpl; lia]).
  exact (sdscmp_lexicographic s_ab (Sdshdr 1 0 [97; 0]) [32; 97; 98; 32] [97] s_ab_repr H2).
Defined.

End Sds.
