(* ===== verification/SdsText.v ===== *)
(** * Text operations on dynamic strings (src/redis-2.8/src/sds.c)

    Number conversion, splitting, the quoted representation and its parser,
    and the small formatter. C strings are lists of bytes that contain a
    terminating zero. *)
From stdpp Require Import base tactics list numbers option sets.
From Stdlib Require Import ZArith Lia.
From S2P Require Import Prelude Util Sds.
Import CInt CMem Util Sds.
Open Scope Z_scope.

Module SdsText.

Definition SDS_LLSTR_SIZE : Z := 21.

(** ** Numbers

    [do *p++ = '0'+(v%10); v /= 10; while(v)]; 64 bits have at most 20
    digits. *)
Fixpoint digits_loop (fuel : nat) (b : list Z) (p v : Z) : option (list Z * Z) :=
  match fuel with
  | O => None
  | S fuel =>
      b ← wr b p (c_0 + v mod 10);
      let v := v / 10 in
      if v =? 0 then Some (b, p + 1) else digits_loop fuel b (p + 1) v
  end.

(** Swapping the ends of the range from [s] to [p]. *)
Fixpoint reverse_loop (fuel : nat) (b : list Z) (s p : Z) : option (list Z) :=
  if s <? p then
    match fuel with
    | O => None
    | S fuel =>
        aux ← rd b s;
        x ← rd b p;
        b ← wr b s x;
        b ← wr b p aux;
        reverse_loop fuel b (s + 1) (p - 1)
    end
  else Some b.

(** The negation of the smallest [long long] is not defined. *)
Definition sdsll2str (b : list Z) (value : Z) : option (list Z * Z) :=
  v ← (if value <? 0 then if value =? LLONG_MIN then None else Some (- value) else Some value);
  '(b, p) ← digits_loop 20 b 0 v;
  '(b, p) ← (if value <? 0 then b ← wr b p c_minus; Some (b, p + 1) else Some (b, p));
  let l := p in
  b ← wr b p 0;
  b ← reverse_loop 21 b 0 (p - 1);
  Some (b, l).

Definition sdsull2str (b : list Z) (v : Z) : option (list Z * Z) :=
  '(b, p) ← digits_loop 20 b 0 v;
  let l := p in
  b ← wr b p 0;
  b ← reverse_loop 21 b 0 (p - 1);
  Some (b, l).

Section Text.
Context (uninit : nat -> Z).

Definition llbuf : list Z := realloc uninit SDS_LLSTR_SIZE [].

Definition sdsfromlonglong (value : Z) : option sdshdr :=
  '(b, n) ← sdsll2str llbuf value;
  sdsnewlen uninit (Some b) n.

(** ** Formatting

    [sdscatfmt]'s variable arguments, by the type [va_arg] reads. *)
Inductive fmt_arg :=
| Arg_str (str : list Z)
| Arg_sds (s : sdshdr)
| Arg_int (num : Z)
| Arg_ll (num : Z)
| Arg_uint (unum : Z)
| Arg_ull (unum : Z).

(** Writing [l] bytes of [x] at position [i]. *)
Definition fmt_put (s : sdshdr) (i : Z) (x : list Z) (l : Z) : option (sdshdr * Z) :=
  let s := if free s <? l then sdsMakeRoomFor uninit s l else s in
  bytes ← rdn x 0 l;
  b ← wrn (buf s) i bytes;
  Some (Sdshdr (wrap 32 (len s + l)) (wrap 32 (free s - l)) b, i + l).

(** [s[i++] = c], after the test that there is room for one byte. *)
Definition fmt_char (s : sdshdr) (i c : Z) : option (sdshdr * Z) :=
  b ← wr (buf s) i c;
  Some (Sdshdr (wrap 32 (len s + 1)) (wrap 32 (free s - 1)) b, i + 1).

(** The inner switch, on the byte after [%]. *)
Definition fmt_conv (s : sdshdr) (i next : Z) (ap : list fmt_arg)
  : option (sdshdr * Z * list fmt_arg) :=
  if next =? 115 then
    match ap with
    | Arg_str str :: ap => l ← strlen str; '(s, i) ← fmt_put s i str l; Some (s, i, ap)
    | _ => None
    end
  else if next =? 83 then
    match ap with
    | Arg_sds str :: ap => '(s, i) ← fmt_put s i (buf str) (sdslen str); Some (s, i, ap)
    | _ => None
    end
  else if (next =? 105) || (next =? 73) then
    '(num, ap) ← match ap with
                 | Arg_int num :: ap => if next =? 105 then Some (num, ap) else None
                 | Arg_ll num :: ap => if next =? 105 then None else Some (num, ap)
                 | _ => None
                 end;
    '(b, l) ← sdsll2str llbuf num;
    '(s, i) ← fmt_put s i b l; Some (s, i, ap)
  else if (next =? 117) || (next =? 85) then
    '(unum, ap) ← match ap with
                  | Arg_uint unum :: ap => if next =? 117 then Some (unum, ap) else None
                  | Arg_ull unum :: ap => if next =? 117 then None else Some (unum, ap)
                  | _ => None
                  end;
    '(b, l) ← sdsull2str llbuf unum;
    '(s, i) ← fmt_put s i b l; Some (s, i, ap)
  else '(s, i) ← fmt_char s i next; Some (s, i, ap).

Fixpoint fmt_loop (fuel : nat) (s : sdshdr) (fmt : list Z) (f i : Z) (ap : list fmt_arg)
  : option (sdshdr * Z) :=
  match fuel with
  | O => None
  | S fuel =>
      c ← rd fmt f;
      if c =? 0 then Some (s, i)
      else
        let s := if free s =? 0 then sdsMakeRoomFor uninit s 1 else s in
        '(s, f, i, ap) ← (if c =? 37 then
                            next ← rd fmt (f + 1);
                            '(s, i, ap) ← fmt_conv s i next ap; Some (s, f + 1, i, ap)
                          else '(s, i) ← fmt_char s i c; Some (s, f, i, ap));
        fmt_loop fuel s fmt (f + 1) i ap
  end.

Definition sdscatfmt (s : sdshdr) (fmt : list Z) (ap : list fmt_arg) : option sdshdr :=
  '(s, i) ← fmt_loop (length fmt) s fmt 0 (sdslen s) ap;
  b ← wr (buf s) i 0;
  Some (Sdshdr (len s) (free s) b).

(** ** Splitting

    The array of tokens has [slots] places. *)
Definition put_token (tokens : list sdshdr) (slots : Z) (s : list Z) (start n : Z)
  : option (list sdshdr) :=
  if zlen tokens <? slots then
    src ← rdn s start n;
    t ← sdsnewlen uninit (Some src) n;
    Some (tokens ++ [t])
  else None.

Fixpoint split_loop (fuel : nat) (s : list Z) (len : Z) (sep : list Z) (seplen j start : Z)
    (tokens : list sdshdr) (slots : Z) : option (list sdshdr * Z * Z) :=
  if j <? len - (seplen - 1) then
    match fuel with
    | O => None
    | S fuel =>
        let slots := if slots <? zlen tokens + 2 then slots * 2 else slots in
        c ← rd s j;
        s0 ← rd sep 0;
        window ← rdn s j seplen;
        sepbytes ← rdn sep 0 seplen;
        if ((seplen =? 1) && (c =? s0)) || (memcmp window sepbytes =? 0) then
          tokens ← put_token tokens slots s start (j - start);
          split_loop fuel s len sep seplen (j + seplen - 1 + 1) (j + seplen) tokens slots
        else split_loop fuel s len sep seplen (j + 1) start tokens slots
    end
  else Some (tokens, slots, start).

(** [Some None] is the null pointer. *)
Definition sdssplitlen (s : list Z) (len : Z) (sep : list Z) (seplen : Z)
  : option (option (list sdshdr)) :=
  if (seplen <? 1) || (len <? 0) then Some None
  else if len =? 0 then Some (Some [])
  else
    '(tokens, slots, start) ← split_loop (Z.to_nat len) s len sep seplen 0 0 [] 5;
    tokens ← put_token tokens slots s start (len - start);
    Some (Some tokens).

(** ** Formatting with the C library

    [out] is what the format prints; [vsnprintf] stores as much of it as fits
    in [n] bytes, with a terminator. *)
Definition vsnprintf (b : list Z) (n : Z) (out : list Z) : option (list Z) :=
  wrn b 0 (take (Z.to_nat (n - 1)) out ++ [0]).

Fixpoint vprintf_loop (fuel : nat) (b : list Z) (buflen : Z) (out : list Z) : option (list Z) :=
  match fuel with
  | O => None
  | S fuel =>
      b ← wr b (buflen - 2) 0;
      b ← vsnprintf b buflen out;
      c ← rd b (buflen - 2);
      if c =? 0 then Some b
      else vprintf_loop fuel (realloc uninit (buflen * 2) []) (buflen * 2) out
  end.

Definition sdscatvprintf (s : sdshdr) (fmt out : list Z) : option sdshdr :=
  n ← strlen fmt;
  let buflen := if 1024 <? n * 2 then n * 2 else 1024 in
  b ← vprintf_loop (S (length out)) (realloc uninit buflen []) buflen out;
  sdscat uninit s b.

Definition sdscatprintf (s : sdshdr) (fmt out : list Z) : option sdshdr :=
  sdscatvprintf s fmt out.

(** ** The quoted representation *)
Definition isprint (c : Z) : bool := (32 <=? c) && (c <=? 126).
Definition isspace (c : Z) : bool := (c =? 32) || ((9 <=? c) && (c <=? 13)).

(** A digit of [%02x]. *)
Definition hexdigit (n : Z) : Z := if n <? 10 then 48 + n else 87 + n.

Definition repr_char (s : sdshdr) (c : Z) : option sdshdr :=
  if (c =? 92) || (c =? 34) then sdscatprintf s [92; 37; 99; 0] [92; c]
  else if c =? 10 then sdscatlen uninit s [92; 110] 2
  else if c =? 13 then sdscatlen uninit s [92; 114] 2
  else if c =? 9 then sdscatlen uninit s [92; 116] 2
  else if c =? 7 then sdscatlen uninit s [92; 97] 2
  else if c =? 8 then sdscatlen uninit s [92; 98] 2
  else if isprint c then sdscatprintf s [37; 99; 0] [c]
  else sdscatprintf s [92; 120; 37; 48; 50; 120; 0]
         [92; 120; hexdigit (c / 16); hexdigit (c mod 16)].

Fixpoint repr_loop (n : nat) (s : sdshdr) (p : list Z) (i : Z) : option sdshdr :=
  match n with
  | O => Some s
  | S n => c ← rd p i; s ← repr_char s c; repr_loop n s p (i + 1)
  end.

Definition sdscatrepr (s : sdshdr) (p : list Z) (len : Z) : option sdshdr :=
  s ← sdscatlen uninit s [34] 1;
  s ← repr_loop (Z.to_nat len) s p 0;
  sdscatlen uninit s [34] 1.

(** ** Splitting a line into arguments *)
Definition is_hex_digit (c : Z) : bool :=
  ((48 <=? c) && (c <=? 57)) || ((97 <=? c) && (c <=? 102)) || ((65 <=? c) && (c <=? 70)).

Definition hex_digit_to_int (c : Z) : Z :=
  if (48 <=? c) && (c <=? 57) then c - 48
  else if (97 <=? c) && (c <=? 102) then c - 87
  else if (65 <=? c) && (c <=? 70) then c - 55
  else 0.

Definition unescape (c : Z) : Z :=
  if c =? 110 then 10
  else if c =? 114 then 13
  else if c =? 116 then 9
  else if c =? 98 then 8
  else if c =? 97 then 7
  else c.

Fixpoint skip_blanks (fuel : nat) (line : list Z) (p : Z) : option Z :=
  match fuel with
  | O => None
  | S fuel =>
      c ← rd line p;
      if negb (c =? 0) && isspace c then skip_blanks fuel line (p + 1) else Some p
  end.

Inductive quoting := Plain | InQ | InSQ.

(** What one round of the token loop does: an error, the end of the token, or
    the next state. The position is that before the final [if (star p) p++]. *)
Inductive round := Err | Done | Go (q : quoting) (p : Z) (cur : sdshdr).

Definition token_round (line : list Z) (q : quoting) (p : Z) (cur : sdshdr) : option round :=
  c ← rd line p;
  match q with
  | InQ =>
      hex ← (if c =? 92 then
               c1 ← rd line (p + 1);
               if c1 =? 120 then
                 c2 ← rd line (p + 2);
                 if is_hex_digit c2 then
                   c3 ← rd line (p + 3);
                   Some (if is_hex_digit c3
                         then Some (hex_digit_to_int c2 * 16 + hex_digit_to_int c3) else None)
                 else Some None
               else Some None
             else Some None);
      match hex with
      | Some byte => cur ← sdscatlen uninit cur [byte] 1; Some (Go InQ (p + 3) cur)
      | None =>
          esc ← (if c =? 92 then c1 ← rd line (p + 1); Some (negb (c1 =? 0)) else Some false);
          if esc : bool then
            c1 ← rd line (p + 1);
            cur ← sdscatlen uninit cur [unescape c1] 1; Some (Go InQ (p + 1) cur)
          else if c =? 34 then
            c1 ← rd line (p + 1);
            Some (if negb (c1 =? 0) && negb (isspace c1) then Err else Done)
          else if c =? 0 then Some Err
          else cur ← sdscatlen uninit cur [c] 1; Some (Go InQ p cur)
      end
  | InSQ =>
      esc ← (if c =? 92 then c1 ← rd line (p + 1); Some (c1 =? 39) else Some false);
      if esc : bool then
        cur ← sdscatlen uninit cur [39] 1; Some (Go InSQ (p + 1) cur)
      else if c =? 39 then
        c1 ← rd line (p + 1);
        Some (if negb (c1 =? 0) && negb (isspace c1) then Err else Done)
      else if c =? 0 then Some Err
      else cur ← sdscatlen uninit cur [c] 1; Some (Go InSQ p cur)
  | Plain =>
      if (c =? 32) || (c =? 10) || (c =? 13) || (c =? 9) || (c =? 0) then Some Done
      else if c =? 34 then Some (Go InQ p cur)
      else if c =? 39 then Some (Go InSQ p cur)
      else cur ← sdscatlen uninit cur [c] 1; Some (Go Plain p cur)
  end.

Definition step_char (line : list Z) (p : Z) : option Z :=
  c ← rd line p; Some (if c =? 0 then p else p + 1).

(** [Some None] is the jump to [err]. *)
Fixpoint token_loop (fuel : nat) (line : list Z) (q : quoting) (p : Z) (cur : sdshdr)
  : option (option (sdshdr * Z)) :=
  match fuel with
  | O => None
  | S fuel =>
      r ← token_round line q p cur;
      match r with
      | Err => Some None
      | Done => p ← step_char line p; Some (Some (cur, p))
      | Go q p cur => p ← step_char line p; token_loop fuel line q p cur
      end
  end.

Fixpoint args_loop (fuel : nat) (line : list Z) (p : Z) (vector : list sdshdr)
  : option (option (list sdshdr)) :=
  match fuel with
  | O => None
  | S fuel =>
      p ← skip_blanks (S (length line)) line p;
      c ← rd line p;
      if negb (c =? 0) then
        current ← sdsempty uninit;
        r ← token_loop (S (length line)) line Plain p current;
        match r with
        | None => Some None
        | Some (current, p) => args_loop fuel line p (vector ++ [current])
        end
      else Some (Some vector)
  end.

Definition sdssplitargs (line : list Z) : option (option (list sdshdr)) :=
  args_loop (S (length line)) line 0 [].

End Text.

(** ** Numbers *)
#[local] Opaque udec.

Lemma digits_loop_spec f : forall fuel pre gap v,
  0 <= v < 10 ^ Z.of_nat (S f) -> (f < fuel)%nat -> (length (udec (S f) v) <= length gap)%nat ->
  exists rest, digits_loop fuel (pre ++ gap) (zlen pre) v =
      Some (pre ++ reverse (udec (S f) v) ++ rest, zlen pre + zlen (udec (S f) v)) /\
    length rest = (length gap - length (udec (S f) v))%nat.
Proof.
  induction f as [|f IH]; intros fuel pre gap v Hv Hf Hg; (destruct fuel as [|fuel]; [lia|]);
    cbn [digits_loop]; (destruct (Z.lt_ge_cases v 10) as [Hlt|Hge]).
  1, 3: rewrite udec_small in * by done; destruct gap as [|x gap]; [simpl in Hg; lia|];
    rewrite wr_app by done; osimpl; rewrite Z.mod_small, Z.div_small by lia; cbn [Z.eqb];
    exists gap; split; [result_eq|simpl; lia].
  - change (Z.of_nat 1) with 1 in Hv. lia.
  - rewrite udec_step in * by done. rewrite length_app in Hg. cbn [length] in Hg.
    destruct gap as [|x gap]; [simpl in Hg; lia|]. rewrite wr_app by done. osimpl.
    rewrite (proj2 (Z.eqb_neq (v / 10) 0)).
    2:{ intros E. pose proof (Z.div_le_lower_bound v 10 1). lia. }
    replace (pre ++ (c_0 + v mod 10) :: gap) with ((pre ++ [c_0 + v mod 10]) ++ gap)
      by (by rewrite <- app_assoc).
    replace (zlen pre + 1) with (zlen (pre ++ [c_0 + v mod 10])) by (rewrite length_app; simpl; lia).
    destruct (IH fuel (pre ++ [c_0 + v mod 10]) gap (v / 10)) as (rest & -> & Hr);
      [by apply div10_bound|lia|simpl in Hg; lia|].
    exists rest. rewrite !length_app, reverse_snoc, <- app_assoc. cbn [length app].
    split; [result_eq|]. simpl in Hg. lia.
Qed.

Lemma reverse_loop_spec n : forall fuel x pre post s p,
  (length x <= n)%nat -> (n <= fuel)%nat -> s = zlen pre -> p = zlen pre + zlen x - 1 ->
  reverse_loop fuel (pre ++ x ++ post) s p = Some (pre ++ reverse x ++ post).
Proof.
  induction n as [|n IH]; intros fuel x pre post s p Hn Hf -> ->.
  { destruct x; [|simpl in Hn; lia]. destruct fuel; cbn [reverse_loop];
      by rewrite (proj2 (Z.ltb_ge _ _)) by (simpl; lia). }
  destruct x as [|a x]; [destruct fuel; cbn [reverse_loop];
      by rewrite (proj2 (Z.ltb_ge _ _)) by (simpl; lia)|].
  destruct x as [|b x _] using rev_ind; [destruct fuel; cbn [reverse_loop];
      by rewrite (proj2 (Z.ltb_ge _ _)) by (simpl; lia)|].
  destruct fuel as [|fuel]; [lia|]. cbn [reverse_loop].
  cbn [length] in Hn. rewrite length_app in Hn. cbn [length] in Hn.
  assert (zlen (a :: x ++ [b]) = zlen x + 2) as Hl by (cbn [length]; rewrite length_app; simpl; lia).
  rewrite Hl, (proj2 (Z.ltb_lt _ _)) by lia. cbn [app]. rewrite <- app_assoc. cbn [app].
  rewrite (rd_app pre a (x ++ b :: post) (zlen pre)) by done. osimpl.
  replace (pre ++ a :: x ++ b :: post) with ((pre ++ a :: x) ++ b :: post) by (by rewrite <- app_assoc).
  rewrite rd_app by (rewrite length_app; simpl; lia). osimpl.
  rewrite <- app_assoc. cbn [app]. rewrite wr_app by done. osimpl.
  replace (pre ++ b :: x ++ b :: post) with ((pre ++ b :: x) ++ b :: post) by (by rewrite <- app_assoc).
  rewrite wr_app by (rewrite length_app; simpl; lia). osimpl.
  replace ((pre ++ b :: x) ++ a :: post) with ((pre ++ [b]) ++ x ++ a :: post) by (by rewrite <- !app_assoc).
  rewrite (IH fuel x (pre ++ [b]) (a :: post)); [|lia|lia|rewrite length_app; simpl; lia..].
  rewrite reverse_cons, reverse_snoc, <- !app_assoc. done.
Qed.

Lemma reverse_from_0 fuel x post p :
  (length x <= fuel)%nat -> p = zlen x - 1 ->
  reverse_loop fuel (x ++ post) 0 p = Some (reverse x ++ post).
Proof. intros Hf ->. apply (reverse_loop_spec fuel fuel x [] post); (done || simpl; lia). Qed.

(** [sdsll2str] prints what [ll2string] prints. *)
Lemma sdsll2str_spec b value :
  LLONG_MIN < value < 2 ^ 63 -> zlen b = SDS_LLSTR_SIZE ->
  exists rest, sdsll2str b value = Some (dec value ++ 0 :: rest, zlen (dec value)).
Proof.
  unfold LLONG_MIN, SDS_LLSTR_SIZE. intros Hv Hb. unfold sdsll2str.
  set (v := Z.abs value).
  assert ((if value <? 0 then if value =? LLONG_MIN then None else Some (- value) else Some value) = Some v) as ->.
  { unfold v, LLONG_MIN. destruct (Z.ltb_spec value 0); [|f_equal; lia].
    rewrite (proj2 (Z.eqb_neq _ _)) by lia. f_equal. lia. }
  osimpl. assert (0 <= v < 10 ^ 20) as Hv20 by lia.
  destruct (digits_exist v 18) as (m & Hm & Hlow & Hup).
  { change (10 ^ Z.of_nat 19) with 10000000000000000000. lia. }
  pose proof (udec_length 19 m v) as Hlen. specialize (Hlen ltac:(lia) ltac:(lia) Hlow).
  destruct (digits_loop_spec 19 20 [] b v) as (rest & E & Hr); [exact Hv20|lia|lia|].
  change (zlen []) with 0 in E. cbn [app] in E. rewrite E. osimpl.
  assert (dec value = (if value <? 0 then [c_minus] else []) ++ udec 20 v) as Ed.
  { unfold dec, v. destruct (Z.ltb_spec value 0); cbn [app].
    - by rewrite Z.abs_neq by lia.
    - by rewrite Z.abs_eq by lia. }
  rewrite Ed, Hlen in *. destruct (value <? 0); osimpl.
  - destruct rest as [|x1 [|x2 rest]]; [simpl in Hr; lia|simpl in Hr; lia|].
    rewrite wr_app by (rewrite length_reverse, Hlen; lia). osimpl.
    replace (reverse (udec 20 v) ++ c_minus :: x2 :: rest) with ((reverse (udec 20 v) ++ [c_minus]) ++ x2 :: rest)
      by (by rewrite <- app_assoc).
    rewrite wr_app by (rewrite length_app, length_reverse, Hlen; simpl; lia). osimpl.
    rewrite reverse_from_0; [|rewrite length_app, length_reverse, Hlen; simpl; lia..].
    osimpl. exists rest. rewrite reverse_app, reverse_involutive. cbn [app].
      change (reverse [c_minus]) with [c_minus]. cbn [app length]. rewrite Hlen. result_eq.
  - destruct rest as [|x1 rest]; [simpl in Hr; lia|].
    rewrite wr_app by (rewrite length_reverse, Hlen; lia). osimpl.
    rewrite reverse_from_0; [|rewrite length_reverse, Hlen; simpl; lia..].
    osimpl. exists rest. rewrite reverse_involutive. cbn [app]. rewrite Hlen. result_eq.
Qed.

Lemma sdsfromlonglong_spec uninit value :
  LLONG_MIN < value < 2 ^ 63 ->
  exists s, sdsfromlonglong uninit value = Some s /\ repr s (dec value).
Proof.
  intros Hv. unfold sdsfromlonglong.
  destruct (sdsll2str_spec (llbuf uninit) value Hv) as (rest & ->).
  { unfold llbuf, SDS_LLSTR_SIZE. apply realloc_length. lia. }
  osimpl. apply newlen_spec.
  assert (in_s 64 value) as Hs.
  { unfold in_s. change (2 ^ (64 - 1)) with (2 ^ 63). unfold LLONG_MIN in Hv. lia. }
  pose proof (dec_length value Hs). lia.
Qed.

Lemma sdsull2str_spec b v :
  0 <= v < 2 ^ 64 -> zlen b = SDS_LLSTR_SIZE ->
  exists rest, sdsull2str b v = Some (udec 20 v ++ 0 :: rest, zlen (udec 20 v)).
Proof.
  unfold SDS_LLSTR_SIZE. intros Hv Hb. unfold sdsull2str.
  assert (0 <= v < 10 ^ Z.of_nat 20) as Hv20 by (change (10 ^ Z.of_nat 20) with 100000000000000000000; lia).
  destruct (digits_exist v 19) as (m & Hm & Hlow & Hup); [lia|].
  pose proof (udec_length 19 m v) as Hlen. specialize (Hlen ltac:(lia) ltac:(lia) Hlow).
  destruct (digits_loop_spec 19 20 [] b v) as (rest & E & Hr); [exact Hv20|lia|lia|].
  change (zlen []) with 0 in E. cbn [app] in E. rewrite E. osimpl.
  rewrite Hlen in *. destruct rest as [|x1 rest]; [simpl in Hr; lia|].
  rewrite wr_app by (rewrite length_reverse, Hlen; lia). osimpl.
  rewrite reverse_from_0; [|rewrite length_reverse, Hlen; simpl; lia..].
  osimpl. exists rest. rewrite reverse_involutive. cbn [app]. result_eq.
Qed.

(** ** Formatting

    A format as a list of pieces, with the bytes each stands for in the
    format, the argument it takes and what it prints. *)
Inductive piece :=
| P_lit (c : Z)
| P_pct (c : Z)
| P_s (x : list Z)
| P_S (s : sdshdr) (x : list Z)
| P_i (num : Z)
| P_I (num : Z)
| P_u (unum : Z)
| P_U (unum : Z).

Definition piece_fmt (p : piece) : list Z :=
  match p with
  | P_lit c => [c]
  | P_pct c => [37; c]
  | P_s _ => [37; 115]
  | P_S _ _ => [37; 83]
  | P_i _ => [37; 105]
  | P_I _ => [37; 73]
  | P_u _ => [37; 117]
  | P_U _ => [37; 85]
  end.

Definition piece_arg (p : piece) : list fmt_arg :=
  match p with
  | P_lit _ | P_pct _ => []
  | P_s x => [Arg_str (x ++ [0])]
  | P_S s _ => [Arg_sds s]
  | P_i num => [Arg_int num]
  | P_I num => [Arg_ll num]
  | P_u unum => [Arg_uint unum]
  | P_U unum => [Arg_ull unum]
  end.

Definition piece_out (p : piece) : list Z :=
  match p with
  | P_lit c | P_pct c => [c]
  | P_s x | P_S _ x => x
  | P_i num | P_I num => dec num
  | P_u unum | P_U unum => udec 20 unum
  end.

Definition piece_ok (p : piece) : Prop :=
  match p with
  | P_lit c => c <> 0 /\ c <> 37
  | P_pct c => c <> 0 /\ Forall (fun k => c <> k) [115; 83; 105; 73; 117; 85]
  | P_s x => Forall (fun c => c <> 0) x
  | P_S s x => repr s x
  | P_i num => in_s 32 num
  | P_I num => LLONG_MIN < num < 2 ^ 63
  | P_u unum => in_u 32 unum
  | P_U unum => in_u 64 unum
  end.

(** An sds under construction: the byte after the string is arbitrary. *)
Definition mid (s : sdshdr) (l : list Z) : Prop :=
  exists z t, s = Sdshdr (zlen l) (zlen t) (l ++ z :: t) /\ zlen l + zlen t < 2 ^ 31.

Section Format.
Context (uninit : nat -> Z).

Lemma mid_write l z t x i :
  i = zlen l -> (length x <= length t)%nat -> zlen l + zlen t < 2 ^ 31 ->
  exists b, wrn (l ++ z :: t) i x = Some b /\
    mid (Sdshdr (wrap 32 (zlen l + zlen x)) (wrap 32 (zlen t - zlen x)) b) (l ++ x).
Proof.
  intros -> Hx Ht. rewrite <- (take_drop (length x) (z :: t)).
  set (y := take (length x) (z :: t)).
  assert (length y = length x) as Hy by (unfold y; rewrite length_take; simpl; lia).
  pose proof (length_drop (z :: t) (length x)) as Hd.
  destruct (drop (length x) (z :: t)) as [|z' t'] eqn:Hg; simpl in Hd; [lia|].
  rewrite wrn_app by done. eexists. split; [done|]. exists z', t'.
  rewrite !u32 by lia. rewrite length_app, <- app_assoc. split; [f_equal; lia|lia].
Qed.

Lemma fmt_put_spec s l x r n :
  mid s l -> n = zlen x -> zlen l + zlen x < 2 ^ 30 ->
  exists s', fmt_put uninit s (zlen l) (x ++ r) n = Some (s', zlen (l ++ x)) /\ mid s' (l ++ x).
Proof.
  intros (z & t & -> & Ht) -> Hb. unfold fmt_put. cbn [free].
  assert (exists t', (if zlen t <? zlen x then sdsMakeRoomFor uninit (Sdshdr (zlen l) (zlen t) (l ++ z :: t)) (zlen x)
            else Sdshdr (zlen l) (zlen t) (l ++ z :: t)) = Sdshdr (zlen l) (zlen t') (l ++ z :: t') /\
            zlen x <= zlen t' /\ zlen l + zlen t' < 2 ^ 31) as (t' & -> & Hx & Ht').
  { destruct (Z.ltb_spec (zlen t) (zlen x)); [apply makeroom_any; [done|lia..]|by exists t]. }
  rewrite (rdn_app [] x r) by done. osimpl. cbn [buf len free].
  destruct (mid_write l z t' x (zlen l)) as (b & -> & Hm); [done|lia|done|].
  osimpl. eexists. split; [|exact Hm]. rewrite length_app. result_eq.
Qed.

Lemma fmt_char_spec s l c :
  mid s l -> 1 <= free s ->
  exists s', fmt_char s (zlen l) c = Some (s', zlen (l ++ [c])) /\ mid s' (l ++ [c]).
Proof.
  intros (z & t & -> & Ht) Hf. cbn [free] in Hf. unfold fmt_char. cbn [buf len free].
  destruct (mid_write l z t [c] (zlen l)) as (b & E & Hm); [done|simpl; lia|done|].
  change (z :: t) with ([z] ++ t) in E. rewrite wrn_app in E by done. injection E as <-.
  rewrite wr_app by done. osimpl. change (zlen [c]) with 1 in Hm. eexists. split; [|exact Hm]. rewrite length_app. cbn [length]. result_eq.
Qed.

Lemma fmt_room s l :
  mid s l -> zlen l + 1 < 2 ^ 30 ->
  mid (if free s =? 0 then sdsMakeRoomFor uninit s 1 else s) l /\
  1 <= free (if free s =? 0 then sdsMakeRoomFor uninit s 1 else s).
Proof.
  intros (z & t & -> & Ht) Hb. cbn [free]. destruct (Z.eqb_spec (zlen t) 0).
  - destruct (makeroom_any uninit z t l 1) as (t' & -> & H1 & Ht'); [done|lia..|].
    split; [by exists z, t'|done].
  - split; [by exists z, t|cbn [free]; lia].
Qed.

Lemma llbuf_length : zlen (llbuf uninit) = SDS_LLSTR_SIZE.
Proof. unfold llbuf, SDS_LLSTR_SIZE. apply realloc_length. lia. Qed.

Lemma fmt_ll s l num :
  mid s l -> LLONG_MIN < num < 2 ^ 63 -> zlen l + zlen (dec num) < 2 ^ 30 ->
  exists s', ('(b, k) ← sdsll2str (llbuf uninit) num; fmt_put uninit s (zlen l) b k) = Some (s', zlen (l ++ dec num)) /\
    mid s' (l ++ dec num).
Proof.
  intros Hm Hn Hb. destruct (sdsll2str_spec (llbuf uninit) num Hn llbuf_length) as (rest & ->).
  osimpl. by apply fmt_put_spec.
Qed.

Lemma fmt_ull s l v :
  mid s l -> 0 <= v < 2 ^ 64 -> zlen l + zlen (udec 20 v) < 2 ^ 30 ->
  exists s', ('(b, k) ← sdsull2str (llbuf uninit) v; fmt_put uninit s (zlen l) b k) = Some (s', zlen (l ++ udec 20 v)) /\
    mid s' (l ++ udec 20 v).
Proof.
  intros Hm Hn Hb. destruct (sdsull2str_spec (llbuf uninit) v Hn llbuf_length) as (rest & ->).
  osimpl. by apply fmt_put_spec.
Qed.

(** A conversion prints its piece. *)
Lemma fmt_conv_spec p c s l ap :
  mid s l -> 1 <= free s -> piece_ok p -> piece_fmt p = [37; c] -> zlen l + zlen (piece_out p) < 2 ^ 30 ->
  exists s', fmt_conv uninit s (zlen l) c (piece_arg p ++ ap) = Some (s', zlen (l ++ piece_out p), ap) /\
    mid s' (l ++ piece_out p).
Proof.
  intros Hm Hf Hok Hc Hb. unfold fmt_conv.
  assert (forall num, LLONG_MIN < num < 2 ^ 63 -> zlen l + zlen (dec num) < 2 ^ 30 ->
    exists s', ('(b, k) ← sdsll2str (llbuf uninit) num; '(s, i) ← fmt_put uninit s (zlen l) b k; Some (s, i, ap)) =
      Some (s', zlen (l ++ dec num), ap) /\ mid s' (l ++ dec num)) as Hll.
  { intros num Hn Hnb. destruct (fmt_ll s l num Hm Hn Hnb) as (s' & E & Hm').
    apply bind_inv in E as ([b k] & -> & E). osimpl. rewrite E. osimpl. eauto. }
  assert (forall v, 0 <= v < 2 ^ 64 -> zlen l + zlen (udec 20 v) < 2 ^ 30 ->
    exists s', ('(b, k) ← sdsull2str (llbuf uninit) v; '(s, i) ← fmt_put uninit s (zlen l) b k; Some (s, i, ap)) =
      Some (s', zlen (l ++ udec 20 v), ap) /\ mid s' (l ++ udec 20 v)) as Hull.
  { intros v Hn Hnb. destruct (fmt_ull s l v Hm Hn Hnb) as (s' & E & Hm').
    apply bind_inv in E as ([b k] & -> & E). osimpl. rewrite E. osimpl. eauto. }
  unfold LLONG_MIN in *.
  destruct p as [c'|c'|x|s0 x|n|n|n|n]; try discriminate Hc; injection Hc as <-;
    cbn [piece_arg piece_out piece_ok app Z.eqb Pos.eqb orb] in *; osimpl.
  - destruct Hok as [_ Hne]. repeat (apply Forall_cons_iff in Hne as [?%Z.eqb_neq Hne]).
    rewrite H, H0, H1, H2, H3, H4. cbn [orb].
    destruct (fmt_char_spec s l c' Hm Hf) as (s' & -> & Hm'). eauto.
  - rewrite (strlen_spec x []) by done. osimpl.
    destruct (fmt_put_spec s l x [0] _ Hm eq_refl Hb) as (s' & -> & Hm'). eauto.
  - destruct Hok as (t & -> & Ht). unfold sdslen. cbn [buf len].
    destruct (fmt_put_spec s l x (0 :: t) _ Hm eq_refl Hb) as (s' & -> & Hm'). eauto.
  - apply Hll; [unfold in_s in Hok; lia|done].
  - apply Hll; [unfold LLONG_MIN in *; lia|done].
  - apply Hull; [unfold in_u in Hok; lia|done].
  - apply Hull; [unfold in_u in Hok; lia|done].
Qed.

Lemma fmt_loop_spec ps : forall fuel pre r s l ap,
  mid s l -> Forall piece_ok ps -> zlen l + zlen (ps ≫= piece_out) + 1 < 2 ^ 30 -> (length ps < fuel)%nat ->
  exists s', fmt_loop uninit fuel s (pre ++ (ps ≫= piece_fmt) ++ 0 :: r) (zlen pre) (zlen l) ((ps ≫= piece_arg) ++ ap) =
      Some (s', zlen (l ++ (ps ≫= piece_out))) /\ mid s' (l ++ (ps ≫= piece_out)).
Proof.
  induction ps as [|p ps IH]; intros fuel pre r s l ap Hm Hok Hb Hfu;
    (destruct fuel as [|fuel]; [simpl in Hfu; lia|]); cbn [fmt_loop].
  { exists s. cbn [mbind list_bind app]. rewrite (rd_app pre 0 r (zlen pre)) by done. osimpl. by rewrite app_nil_r. }
  apply Forall_cons_iff in Hok as [Hp Hok]. rewrite !bind_cons in *. rewrite length_app in Hb.
  cbn [length] in Hfu. rewrite <- !app_assoc.
  destruct (fmt_room s l Hm) as [Hm1 Hf1]; [lia|]. revert Hm1 Hf1.
  generalize (if free s =? 0 then sdsMakeRoomFor uninit s 1 else s). intros s1 Hm1 Hf1.
  set (rest := (ps ≫= piece_fmt) ++ 0 :: r). set (ap' := (ps ≫= piece_arg) ++ ap).
  assert (forall k s2, k = zlen (pre ++ piece_fmt p) -> mid s2 (l ++ piece_out p) ->
    exists s', fmt_loop uninit fuel s2 (pre ++ piece_fmt p ++ rest) k (zlen (l ++ piece_out p)) ap' =
      Some (s', zlen (l ++ piece_out p ++ (ps ≫= piece_out))) /\ mid s' (l ++ piece_out p ++ (ps ≫= piece_out))) as Hnext.
  { intros k s2 -> Hm2. rewrite !(app_assoc l). rewrite (app_assoc pre).
    apply IH; [done..|rewrite length_app; lia|lia]. }
  destruct p as [c| | | | | | |].
  1: { destruct Hp as [Hc0 Hc37]. cbn [piece_fmt piece_arg piece_out app] in *.
    rewrite (rd_app pre c rest (zlen pre)) by done. osimpl. rewrite (proj2 (Z.eqb_neq c 0)), (proj2 (Z.eqb_neq c 37)) by done.
    destruct (fmt_char_spec s1 l c Hm1 Hf1) as (s2 & -> & Hm2). osimpl.
    apply Hnext; [rewrite length_app; simpl; lia|exact Hm2]. }
  all: match goal with |- context [piece_fmt ?p] =>
    destruct (fmt_conv_spec p (nth 1 (piece_fmt p) 0) s1 l ap' Hm1 Hf1 Hp eq_refl) as (s2 & E & Hm2); [lia|];
    cbn [piece_fmt app nth] in Hnext, E |- *;
    let c := eval cbn in (nth 1 (piece_fmt p) 0) in
    rewrite (rd_app pre 37 (c :: rest) (zlen pre)) by done; osimpl; cbn [Z.eqb Pos.eqb];
    rewrite rd_shift, rd_1 by lia; osimpl; rewrite E; osimpl;
    apply Hnext; [rewrite length_app; simpl; lia|exact Hm2] end.
Qed.

End Format.

(** [sdscatfmt] appends what each directive of the format stands for, in
    order, for every directive and through every reallocation. *)
Theorem sdscatfmt_prints uninit ps s l r :
  repr s l -> Forall piece_ok ps -> zlen l + zlen (ps ≫= piece_out) + 1 < 2 ^ 30 ->
  exists s', sdscatfmt uninit s ((ps ≫= piece_fmt) ++ 0 :: r) (ps ≫= piece_arg) = Some s' /\
    repr s' (l ++ (ps ≫= piece_out)).
Proof.
  intros (t & -> & Ht) Hok Hb. unfold sdscatfmt, sdslen. cbn [len].
  assert (length ps <= length (ps ≫= piece_fmt))%nat as Hl.
  { clear. induction ps as [|p ps IH]; [done|]. rewrite bind_cons, length_app. destruct p; simpl; lia. }
  destruct (fmt_loop_spec uninit ps (length ((ps ≫= piece_fmt) ++ 0 :: r)) [] r
              (Sdshdr (zlen l) (zlen t) (l ++ 0 :: t)) l []) as (s1 & E & (z & t1 & -> & Ht1)).
  - by exists 0, t.
  - done.
  - done.
  - rewrite length_app. simpl. lia.
  - rewrite app_nil_r in E. change (zlen []) with 0 in E. cbn [app] in E. rewrite E. osimpl.
    cbn [buf len free]. rewrite wr_app by done. osimpl. eexists. split; [done|]. by exists t1.
Qed.

(** ** Splitting

    [free_of sep x]: the separator does not occur in [x]. *)
Definition free_of (sep x : list Z) : Prop := forall a b, x <> a ++ sep ++ b.

Lemma intercalate_snoc sep toks last :
  intercalate sep (toks ++ [last]) = (toks ≫= fun t => t ++ sep) ++ last.
Proof.
  induction toks as [|t toks IH]; [done|]. cbn [app mbind list_bind].
  rewrite <- !app_assoc. change (list_bind _ _ _ toks) with (toks ≫= fun t => t ++ sep). rewrite <- IH.
  by destruct toks.
Qed.

Section Split.
Context (uninit : nat -> Z) (sep rsep : list Z).
Hypothesis sep_nonempty : sep <> [].

(** The separator does not start in [cur], which [rest] follows. *)
Definition not_yet (cur rest : list Z) : Prop :=
  forall a b, cur = a ++ b -> b <> [] -> ~ sep `prefix_of` (b ++ rest).

Lemma not_yet_free cur rest : not_yet cur rest -> (length rest < length sep)%nat -> free_of sep (cur ++ rest).
Proof.
  intros Hn Hl a b E. assert (length (cur ++ rest) = length (a ++ sep ++ b)) as El by (by rewrite E).
  rewrite !length_app in El.
  assert (cur = a ++ drop (length a) cur) as Ec.
  { rewrite <- (take_drop (length a) cur) at 1. f_equal.
    pose proof (f_equal (take (length a)) E) as Et. rewrite take_app_length, take_app_le in Et by lia. done. }
  apply (Hn a (drop (length a) cur) Ec).
  - intros E0. pose proof (length_drop cur (length a)) as Hd. rewrite E0 in Hd. simpl in Hd. lia.
  - exists b. rewrite Ec, <- app_assoc in E. by apply app_inv_head in E.
Qed.

Lemma not_yet_snoc cur c rest :
  not_yet cur (c :: rest) -> ~ sep `prefix_of` (c :: rest) -> not_yet (cur ++ [c]) rest.
Proof.
  intros Hn Hp a b E Hb. destruct b as [|x b _] using rev_ind; [done|].
  rewrite app_assoc in E. apply app_inj_tail in E as [-> <-]. rewrite <- app_assoc. cbn [app].
  destruct b as [|y b]; [done|]. by apply (Hn a (y :: b)).
Qed.

Lemma not_yet_token cur rest : not_yet cur (sep ++ rest) -> free_of sep cur.
Proof.
  intros Hn a b E. apply (Hn a (sep ++ b) E); [by destruct sep|].
  rewrite <- app_assoc. by exists (b ++ sep ++ rest).
Qed.

Lemma rd_app_2 (a b : list Z) x c i :
  i = zlen a + zlen b -> rd (a ++ b ++ x :: c) i = Some x.
Proof. intros ->. rewrite app_assoc. apply rd_app. rewrite length_app. lia. Qed.

Lemma put_token_spec tokens slots pre cur rest start n :
  zlen tokens + 1 <= slots -> start = zlen pre -> n = zlen cur -> zlen cur < 2 ^ 31 ->
  exists t, put_token uninit tokens slots (pre ++ cur ++ rest) start n = Some (tokens ++ [t]) /\ repr t cur.
Proof.
  intros Hs -> -> Hb. unfold put_token. rewrite (proj2 (Z.ltb_lt _ _)) by lia.
  rewrite rdn_app by done. osimpl. destruct (newlen_spec uninit cur [] Hb) as (t & E & Hr).
  rewrite app_nil_r in E. rewrite E. osimpl. eauto.
Qed.

(** Whether the separator is at position [j]. *)
Lemma at_separator pre c rest r :
  (length sep <= length (c :: rest))%nat ->
  exists s0 w, rd (sep ++ rsep) 0 = Some s0 /\ rdn (pre ++ c :: rest ++ r) (zlen pre) (zlen sep) = Some w /\
    rdn (sep ++ rsep) 0 (zlen sep) = Some sep /\
    if ((zlen sep =? 1) && (c =? s0)) || (memcmp w sep =? 0) then sep `prefix_of` (c :: rest)
    else ~ sep `prefix_of` (c :: rest).
Proof.
  intros Hl. destruct sep as [|s0 sep'] eqn:Es; [done|]. rewrite <- Es in *.
  exists s0, (take (length sep) (c :: rest)).
  assert (length (take (length sep) (c :: rest)) = length sep) as Hw by (rewrite length_take; lia).
  split; [by rewrite Es|]. split_and!.
  - change (c :: rest ++ r) with ((c :: rest) ++ r).
    rewrite <- (take_drop (length sep) (c :: rest)) at 1. rewrite <- app_assoc.
    apply rdn_app; [done|]. by rewrite Hw.
  - rewrite (rdn_take sep rsep) by done. by rewrite take_ge.
  - assert (((zlen sep =? 1) && (c =? s0)) || (memcmp (take (length sep) (c :: rest)) sep =? 0) =
            bool_decide (take (length sep) (c :: rest) = sep)) as ->.
    { rewrite memcmp_eq by done. destruct (Z.eqb_spec (zlen sep) 1) as [E1|]; [|done].
      destruct (Z.eqb_spec c s0) as [->|]; [|done]. rewrite Es in E1 |- *.
      destruct sep' as [|]; [|simpl in E1; lia]. cbn [length take]. by rewrite bool_decide_eq_true_2. }
    case_bool_decide as Ht.
    + exists (drop (length sep) (c :: rest)). rewrite <- Ht at 1. by rewrite take_drop.
    + intros [k Hk]. apply Ht. by rewrite Hk, take_app_length.
Qed.

Lemma split_loop_spec r fuel : forall pre cur rest tokens toks slots,
  pre = (toks ≫= fun t => t ++ sep) -> Forall2 repr tokens toks -> Forall (free_of sep) toks ->
  not_yet cur rest -> zlen tokens + 1 <= slots -> (length rest <= fuel)%nat ->
  zlen (pre ++ cur ++ rest) < 2 ^ 31 ->
  exists tokens' toks' slots' last,
    split_loop uninit fuel (pre ++ cur ++ rest ++ r) (zlen (pre ++ cur ++ rest)) (sep ++ rsep) (zlen sep)
      (zlen pre + zlen cur) (zlen pre) tokens slots =
      Some (tokens', slots', zlen (toks' ≫= fun t => t ++ sep)) /\
    pre ++ cur ++ rest = (toks' ≫= fun t => t ++ sep) ++ last /\
    Forall2 repr tokens' toks' /\ Forall (free_of sep) toks' /\ free_of sep last /\ zlen tokens' + 1 <= slots'.
Proof.
  assert (1 <= length sep)%nat as Hsep by (destruct sep; [done|simpl; lia]).
  induction fuel as [|fuel IH]; intros pre cur rest tokens toks slots Hpre Hr Hf Hn Hs Hfu Hb;
    cbn [split_loop]; rewrite !length_app in Hb |- *;
    (destruct (Z.ltb_spec (zlen pre + zlen cur) (Z.of_nat (length pre + (length cur + length rest)) - (zlen sep - 1)));
      [|exists tokens, toks, slots, (cur ++ rest); subst pre; split_and!; try done;
        apply not_yet_free; [done|lia]]); [lia|].
  destruct rest as [|c rest]; [simpl in *; lia|]. cbn [length] in Hb, Hfu, H |- *.
  set (slots' := if slots <? zlen tokens + 2 then slots * 2 else slots).
  assert (zlen tokens + 2 <= slots') as Hs' by (unfold slots'; destruct (Z.ltb_spec slots (zlen tokens + 2)); lia).
  destruct (at_separator (pre ++ cur) c rest r) as (s0 & w & E1 & E2 & E3 & E4); [simpl; lia|].
  rewrite length_app, <- app_assoc in E2.
  replace (zlen pre + zlen cur) with (Z.of_nat (length pre + length cur)) by lia.
  cbn [app]. rewrite (rd_app_2 pre cur c) by lia. osimpl. rewrite E1. osimpl. rewrite E2. osimpl. rewrite E3. osimpl.
  destruct (_ || _).
  - destruct E4 as [rest' E4]. rewrite E4 in *.
    assert (length (c :: rest) = length (sep ++ rest')) as El by (by rewrite E4).
    rewrite length_app in El. cbn [length] in El.
    destruct (put_token_spec tokens slots' pre cur (c :: rest ++ r) (zlen pre)
                (Z.of_nat (length pre + length cur) - zlen pre)) as (t & -> & Hrt); [lia|done|lia..|].
    osimpl. change (c :: rest ++ r) with ((c :: rest) ++ r). rewrite E4.
    destruct (IH (pre ++ cur ++ sep) [] rest' (tokens ++ [t]) (toks ++ [cur]) slots')
      as (tokens1 & toks1 & slots1 & last & E & El1 & ?); clear IH.
    + rewrite bind_app, Hpre. cbn. by rewrite app_nil_r.
    + by apply Forall2_app; [|constructor].
    + apply Forall_app_2; [done|]. constructor; [|done]. by apply not_yet_token with rest'.
    + intros a b Eab Hb0. by destruct a, b.
    + rewrite length_app. simpl. lia.
    + lia.
    + rewrite !length_app. simpl. lia.
    + exists tokens1, toks1, slots1, last. cbn [app length] in E, El1. rewrite <- !app_assoc in E, El1.
      rewrite !length_app in E. rewrite <- app_assoc. split; [|by rewrite <- El1].
      rewrite <- E. f_equal; lia.
  - change (c :: rest ++ r) with ([c] ++ rest ++ r).
    destruct (IH pre (cur ++ [c]) rest tokens toks slots') as (tokens1 & toks1 & slots1 & last & E & El1 & ?);
      clear IH; [done..|by apply not_yet_snoc|lia|lia|rewrite !length_app; simpl; lia|].
    exists tokens1, toks1, slots1, last. rewrite <- !app_assoc in E, El1.
    rewrite !length_app in E. cbn [length] in E. split; [|by rewrite <- El1]. rewrite <- E. f_equal; lia.
Qed.

End Split.

(** [sdssplitlen] cuts the string at every separator: joining the tokens
    with the separator gives the string back, and no token contains it. *)
Theorem sdssplitlen_splits uninit s r sep rsep :
  s <> [] -> sep <> [] -> zlen s < 2 ^ 31 ->
  exists tokens toks, sdssplitlen uninit (s ++ r) (zlen s) (sep ++ rsep) (zlen sep) = Some (Some tokens) /\
    Forall2 repr tokens toks /\ intercalate sep toks = s /\ Forall (free_of sep) toks.
Proof.
  intros Hs Hsep Hb. unfold sdssplitlen.
  assert (1 <= length sep)%nat by (destruct sep; [done|simpl; lia]).
  assert (1 <= length s)%nat by (destruct s; [done|simpl; lia]).
  rewrite (proj2 (Z.ltb_ge (zlen sep) 1)), (proj2 (Z.ltb_ge (zlen s) 0)), (proj2 (Z.eqb_neq (zlen s) 0)) by lia.
  cbn [orb]. rewrite Nat2Z.id.
  destruct (split_loop_spec uninit sep rsep Hsep r (length s) [] [] s [] [] 5)
    as (tokens & toks & slots & last & E & El & Hr & Hf & Hl & Hsl); try done.
  { intros a b Eab Hb0. by destruct a, b. }
  change (zlen [] + zlen []) with 0 in E. change (zlen []) with 0 in E. cbn [app] in E, El. rewrite E. osimpl.
  set (pre := toks ≫= _) in *.
  destruct (put_token_spec uninit tokens slots pre last r (zlen pre) (zlen s - zlen pre)) as (t & Et & Hrt);
    [done|done|rewrite El, length_app; lia|rewrite El, length_app in Hb; lia|].
  rewrite app_assoc, <- El in Et. rewrite Et. osimpl.
  exists (tokens ++ [t]), (toks ++ [last]). split_and!; [done| | |].
  - by apply Forall2_app; [|constructor].
  - by rewrite intercalate_snoc.
  - by apply Forall_app_2; [|constructor].
Qed.

(** ** The quoted representation and its parser are inverse *)
Definition esc (c : Z) : list Z :=
  if (c =? 92) || (c =? 34) then [92; c]
  else if c =? 10 then [92; 110]
  else if c =? 13 then [92; 114]
  else if c =? 9 then [92; 116]
  else if c =? 7 then [92; 97]
  else if c =? 8 then [92; 98]
  else if isprint c then [c]
  else [92; 120; hexdigit (c / 16); hexdigit (c mod 16)].

Definition quoted (x : list Z) : list Z := [34] ++ (x ≫= esc) ++ [34].

Ltac byte_cases c :=
  repeat match goal with
    | |- context [c =? ?k] => destruct (Z.eqb_spec c k); [subst c; cbn|cbn [orb]]
    end.

Lemma hexdigit_nonzero n : 0 <= n < 16 -> hexdigit n <> 0.
Proof. unfold hexdigit. destruct (Z.ltb_spec n 10); lia. Qed.

Lemma nibbles c : 0 <= c < 256 -> 0 <= c / 16 < 16 /\ 0 <= c mod 16 < 16.
Proof.
  intros. split; [|apply Z.mod_pos_bound; lia].
  split; [apply Z.div_pos; lia|apply Z.div_lt_upper_bound; lia].
Qed.

Lemma esc_length c : (1 <= length (esc c) <= 4)%nat.
Proof. unfold esc. repeat destruct (_ || _) || destruct (_ =? _) || destruct (isprint _); simpl; lia. Qed.

Lemma isprint_nonzero c : isprint c = true -> c <> 0.
Proof. unfold isprint. intros [H _]%andb_true_iff. apply Z.leb_le in H. lia. Qed.

Section Quote.
Context (uninit : nat -> Z).

Lemma vprintf_loop_spec out : forall fuel b buflen,
  Forall (fun c => c <> 0) out -> zlen b = buflen -> 2 <= buflen -> zlen out + 2 < buflen + Z.of_nat fuel ->
  (1 <= fuel)%nat ->
  exists r, vprintf_loop uninit fuel b buflen out = Some (out ++ 0 :: r).
Proof.
  induction fuel as [|fuel IH]; intros b buflen Hz Hb H2 Hf Hf1; [lia|]. cbn [vprintf_loop].
  unfold wr at 1. rewrite (proj2 (Z.leb_le 0 _)), (proj2 (Z.ltb_lt (buflen - 2) _)) by lia. cbn [andb]. osimpl.
  set (b1 := <[_ := 0]> b). assert (zlen b1 = buflen) as Hb1 by (unfold b1; by rewrite length_insert).
  assert (b1 !! Z.to_nat (buflen - 2) = Some 0) as Hl by (apply list_lookup_insert_eq; lia).
  unfold vsnprintf, wrn. rewrite length_app, length_take. cbn [length].
  rewrite (proj2 (Z.leb_le 0 0)), (proj2 (Z.leb_le _ (zlen b1))) by lia. cbn [andb]. osimpl.
  unfold rd. rewrite (proj2 (Z.ltb_ge _ 0)) by lia.
  destruct (Z.le_gt_cases (zlen out) (buflen - 2)).
  - rewrite (take_ge out) by lia. cbn [app]. rewrite <- app_assoc. cbn [app].
    exists (drop (length out + 1) b1).
    change (Z.to_nat 0) with 0%nat. rewrite take_0. cbn [app].
    replace (0 + (Nat.min (Z.to_nat (buflen - 1)) (length out) + 1))%nat with (length out + 1)%nat by lia.
    replace (_ !! Z.to_nat (buflen - 2)) with (Some 0); [done|]. symmetry.
    rewrite lookup_app_r by lia. destruct (Z.to_nat (buflen - 2) - length out)%nat as [|k] eqn:Ek; [done|].
    rewrite lookup_cons_ne_0 by done. cbn [Init.Nat.pred]. rewrite lookup_drop, <- Hl. f_equal. lia.
  - assert (exists c, out !! Z.to_nat (buflen - 2) = Some c /\ c <> 0) as (c & Hc & Hc0).
    { destruct (lookup_lt_is_Some_2 out (Z.to_nat (buflen - 2))) as [c Hc]; [lia|].
      exists c. split; [done|]. by apply (Forall_lookup_1 _ _ _ _ Hz Hc). }
    change (Z.to_nat 0) with 0%nat. rewrite take_0. cbn [app].
    rewrite <- app_assoc, lookup_app_l by (rewrite length_take; lia).
    rewrite lookup_take_lt by lia. rewrite Hc. osimpl. rewrite (proj2 (Z.eqb_neq c 0)) by done.
    apply IH; [done|rewrite realloc_length; lia|lia..].
Qed.

Lemma catprintf_spec s l fmt out r :
  repr s l -> Forall (fun c => c <> 0) fmt -> Forall (fun c => c <> 0) out -> zlen l + zlen out < 2 ^ 30 ->
  exists s', sdscatprintf uninit s (fmt ++ 0 :: r) out = Some s' /\ repr s' (l ++ out).
Proof.
  intros Hr Hfmt Hout Hb. unfold sdscatprintf, sdscatvprintf. rewrite strlen_spec by done. osimpl.
  set (buflen := if _ <? _ then _ else _).
  assert (1024 <= buflen) by (unfold buflen; destruct (Z.ltb_spec 1024 (zlen fmt * 2)); lia).
  destruct (vprintf_loop_spec out (S (length out)) (realloc uninit buflen []) buflen) as (r' & ->);
    [done|rewrite realloc_length; lia|lia..|]. osimpl. by apply cat_spec.
Qed.

Lemma catlen_lit s l x :
  repr s l -> zlen l + zlen x < 2 ^ 31 - 2 ^ 20 ->
  exists s', sdscatlen uninit s x (zlen x) = Some s' /\ repr s' (l ++ x).
Proof.
  intros Hr Hb. destruct (catlen_spec uninit s l x [] (zlen x) Hr eq_refl Hb) as (s' & E & Hr').
  rewrite app_nil_r in E. eauto.
Qed.

Lemma repr_char_spec s l c :
  repr s l -> 0 <= c < 256 -> zlen l + 4 < 2 ^ 30 ->
  exists s', repr_char uninit s c = Some s' /\ repr s' (l ++ esc c).
Proof.
  intros Hr Hc Hb. unfold repr_char, esc. pose proof (nibbles c Hc) as [Hh Hl].
  assert (forall x, (length x <= 4)%nat -> exists s', sdscatlen uninit s x (zlen x) = Some s' /\ repr s' (l ++ x)) as Hlit
    by (intros; apply catlen_lit; [done|lia]).
  assert (forall fmt x, (length x <= 4)%nat -> Forall (fun c => c <> 0) fmt -> Forall (fun c => c <> 0) x ->
            exists s', sdscatprintf uninit s (fmt ++ [0]) x = Some s' /\ repr s' (l ++ x)) as Hpr
    by (intros; apply catprintf_spec; [done..|lia]).
  destruct (Z.eqb_spec c 92) as [->|]; cbn [orb]; [apply (Hpr [92; 37; 99]); [simpl; lia|repeat constructor; lia..]|].
  destruct (Z.eqb_spec c 34) as [->|]; [apply (Hpr [92; 37; 99]); [simpl; lia|repeat constructor; lia..]|].
  destruct (c =? 10); [apply (Hlit [92; 110]); simpl; lia|].
  destruct (c =? 13); [apply (Hlit [92; 114]); simpl; lia|].
  destruct (c =? 9); [apply (Hlit [92; 116]); simpl; lia|].
  destruct (c =? 7); [apply (Hlit [92; 97]); simpl; lia|].
  destruct (c =? 8); [apply (Hlit [92; 98]); simpl; lia|].
  destruct (isprint c) eqn:Hp.
  - apply (Hpr [37; 99]); [simpl; lia|repeat constructor; lia|]. constructor; [by apply isprint_nonzero|done].
  - apply (Hpr [92; 120; 37; 48; 50; 120]); [simpl; lia|repeat constructor; lia|]. repeat constructor; try lia; by apply hexdigit_nonzero.
Qed.

Lemma repr_loop_spec x : forall pre r s l,
  repr s l -> Forall (fun c => 0 <= c < 256) x -> zlen l + 4 * zlen x < 2 ^ 30 ->
  exists s', repr_loop uninit (length x) s (pre ++ x ++ r) (zlen pre) = Some s' /\
    repr s' (l ++ (x ≫= esc)).
Proof.
  induction x as [|c x IH]; intros pre r s l Hr Hx Hb; cbn [length repr_loop].
  { exists s. cbn. by rewrite app_nil_r. }
  apply Forall_cons_iff in Hx as [Hc Hx]. cbn [length] in Hb. pose proof (esc_length c).
  cbn [app]. rewrite rd_app by done. osimpl.
  destruct (repr_char_spec s l c Hr Hc) as (s1 & -> & Hr1); [lia|]. osimpl.
  replace (pre ++ c :: x ++ r) with ((pre ++ [c]) ++ x ++ r) by (by rewrite <- app_assoc).
  replace (zlen pre + 1) with (zlen (pre ++ [c])) by (rewrite length_app; simpl; lia).
  destruct (IH (pre ++ [c]) r s1 (l ++ esc c) Hr1 Hx) as (s2 & -> & Hr2); [rewrite length_app; lia|].
  exists s2. split; [done|]. rewrite bind_cons, app_assoc. done.
Qed.

Lemma catrepr_spec s l x r :
  repr s l -> Forall (fun c => 0 <= c < 256) x -> zlen l + 4 * zlen x + 2 < 2 ^ 30 ->
  exists s', sdscatrepr uninit s (x ++ r) (zlen x) = Some s' /\ repr s' (l ++ quoted x).
Proof.
  intros Hr Hx Hb. unfold sdscatrepr.
  destruct (catlen_lit s l [34] Hr) as (s1 & E1 & Hr1); [simpl; lia|].
  change (zlen [34]) with 1 in E1. rewrite E1. osimpl. rewrite Nat2Z.id.
  destruct (repr_loop_spec x [] r s1 (l ++ [34]) Hr1 Hx) as (s2 & E2 & Hr2); [rewrite length_app; simpl; lia|].
  change (zlen []) with 0 in E2. cbn [app] in E2. rewrite E2. osimpl.
  assert (zlen (x ≫= esc) <= 4 * zlen x).
  { clear. induction x as [|c x IH]; [done|]. rewrite bind_cons, length_app. pose proof (esc_length c).
    cbn [length]. lia. }
  destruct (catlen_lit s2 ((l ++ [34]) ++ (x ≫= esc)) [34] Hr2) as (s3 & E3 & Hr3).
  { rewrite !length_app. simpl. lia. }
  change (zlen [34]) with 1 in E3. rewrite E3. exists s3. split; [done|].
  unfold quoted. by rewrite <- !app_assoc in Hr3.
Qed.

(** *** Parsing *)
Lemma hexdigit_ok n : 0 <= n < 16 -> is_hex_digit (hexdigit n) = true /\ hex_digit_to_int (hexdigit n) = n.
Proof.
  intros Hn.
  assert (forallb (fun k => is_hex_digit (hexdigit (Z.of_nat k)) &&
            (hex_digit_to_int (hexdigit (Z.of_nat k)) =? Z.of_nat k)) (seq 0 16) = true) as Hall by reflexivity.
  rewrite forallb_forall in Hall. specialize (Hall (Z.to_nat n)).
  rewrite in_seq, Z2Nat.id, andb_true_iff, Z.eqb_eq in Hall by lia. apply Hall. lia.
Qed.

(** One round of the token loop reads back one escaped byte. *)
Lemma round_esc pre c rest cur acc :
  repr cur acc -> 0 <= c < 256 -> zlen acc + 1 < 2 ^ 30 ->
  exists p cur', token_round uninit (pre ++ esc c ++ rest) InQ (zlen pre) cur = Some (Go InQ p cur') /\
    repr cur' (acc ++ [c]) /\ step_char (pre ++ esc c ++ rest) p = Some (zlen pre + zlen (esc c)).
Proof.
  intros Hr Hc Hb. pose proof (nibbles c Hc) as [Hh Hl].
  destruct (catlen_lit cur acc [c] Hr) as (cur' & E & Hr'); [simpl; lia|]. change (zlen [c]) with 1 in E.
  assert (forall m, rd (pre ++ m) (zlen pre) = rd m 0) as Hrd0.
  { intros m. rewrite <- (rd_shift pre m 0) by lia. f_equal. lia. }
  assert (forall m k, 0 <= k -> rd (pre ++ m) (zlen pre + k) = rd m k) as Hrdk by (intros; by apply rd_shift).
  assert (forall x, x <> 120 -> x <> 0 -> unescape x = c -> esc c = [92; x] ->
    exists p cur', token_round uninit (pre ++ esc c ++ rest) InQ (zlen pre) cur = Some (Go InQ p cur') /\
      repr cur' (acc ++ [c]) /\ step_char (pre ++ esc c ++ rest) p = Some (zlen pre + zlen (esc c))) as Hesc.
  { intros x Hx1 Hx0 Hu Ee. rewrite Ee. exists (zlen pre + 1), cur'. cbn [app length].
    unfold token_round, step_char. rewrite Hrd0, !Hrdk, rd_0, rd_1 by lia. osimpl. cbn [Z.eqb Pos.eqb].
    rewrite (proj2 (Z.eqb_neq x 120)) by done. osimpl.
    rewrite (proj2 (Z.eqb_neq x 0)) by done. cbn [negb]. rewrite Hu, E. osimpl.
    split_and!; [done|done|]. result_eq. }
  unfold esc in Hesc |- *.
  destruct (Z.eqb_spec c 92) as [->|H92]; cbn [orb] in *; [by apply (Hesc 92)|].
  destruct (Z.eqb_spec c 34) as [->|H34]; [by apply (Hesc 34)|].
  destruct (Z.eqb_spec c 10) as [->|_]; [by apply (Hesc 110)|].
  destruct (Z.eqb_spec c 13) as [->|_]; [by apply (Hesc 114)|].
  destruct (Z.eqb_spec c 9) as [->|_]; [by apply (Hesc 116)|].
  destruct (Z.eqb_spec c 7) as [->|_]; [by apply (Hesc 97)|].
  destruct (Z.eqb_spec c 8) as [->|_]; [by apply (Hesc 98)|]. clear Hesc.
  destruct (isprint c) eqn:Hp.
  - apply isprint_nonzero in Hp. exists (zlen pre), cur'. cbn [app length].
    unfold token_round, step_char. rewrite !Hrd0, rd_0. osimpl.
    rewrite (proj2 (Z.eqb_neq c 92)) by done. osimpl.
    rewrite (proj2 (Z.eqb_neq c 34)), (proj2 (Z.eqb_neq c 0)) by done. rewrite E. done.
  - destruct (hexdigit_ok (c / 16) Hh) as [Hh1 Hh2]. destruct (hexdigit_ok (c mod 16) Hl) as [Hl1 Hl2].
    exists (zlen pre + 3), cur'. cbn [app length].
    unfold token_round, step_char. rewrite Hrd0, !Hrdk, rd_0, rd_1 by lia. osimpl. cbn [Z.eqb Pos.eqb].
    change (rd (92 :: 120 :: hexdigit (c / 16) :: hexdigit (c mod 16) :: rest) 2) with (Some (hexdigit (c / 16))).
    change (rd (92 :: 120 :: hexdigit (c / 16) :: hexdigit (c mod 16) :: rest) 3) with (Some (hexdigit (c mod 16))).
    osimpl. rewrite Hh1, Hl1, Hh2, Hl2. osimpl.
    replace (c / 16 * 16 + c mod 16) with c by (pose proof (Z.div_mod c 16); lia).
    rewrite E. osimpl. split_and!; [done|done|].
    rewrite (proj2 (Z.eqb_neq _ 0)) by (by apply hexdigit_nonzero). result_eq.
Qed.

Lemma token_quoted x : forall pre r cur acc fuel,
  repr cur acc -> Forall (fun c => 0 <= c < 256) x -> zlen acc + zlen x < 2 ^ 30 ->
  (length x < fuel)%nat ->
  exists cur', token_loop uninit fuel (pre ++ (x ≫= esc) ++ 34 :: 0 :: r) InQ (zlen pre) cur =
      Some (Some (cur', zlen pre + zlen (x ≫= esc) + 1)) /\ repr cur' (acc ++ x).
Proof.
  induction x as [|c x IH]; intros pre r cur acc fuel Hr Hx Hb Hf;
    (destruct fuel as [|fuel]; [simpl in Hf; lia|]); cbn [token_loop].
  - exists cur. rewrite app_nil_r. split; [|done]. unfold token_round, step_char. cbn [mbind list_bind app].
    rewrite (rd_app pre 34 (0 :: r) (zlen pre)) by done. rewrite rd_shift, rd_1 by lia. osimpl.
    cbn. result_eq.
  - apply Forall_cons_iff in Hx as [Hc Hx]. cbn [length] in Hb, Hf. rewrite bind_cons, <- app_assoc.
    destruct (round_esc pre c ((x ≫= esc) ++ 34 :: 0 :: r) cur acc Hr Hc) as (p & cur1 & -> & Hr1 & Hst); [lia|].
    osimpl. rewrite Hst. osimpl.
    destruct (IH (pre ++ esc c) r cur1 (acc ++ [c]) fuel Hr1 Hx) as (cur2 & E & Hr2);
      [rewrite length_app; simpl; lia|lia|].
    exists cur2. rewrite <- app_assoc in E, Hr2. rewrite length_app in E. split; [|done].
    rewrite length_app.
    replace (zlen pre + zlen (esc c)) with (Z.of_nat (length pre + length (esc c))) by lia. rewrite E. result_eq.
Qed.

End Quote.

(** ** Splitting any line *)
Section Total.
Context (uninit : nat -> Z) (line : list Z) (n : Z).
Context (Hread : forall i, 0 <= i <= n -> exists c, rd line i = Some c /\ (i < n <-> c <> 0)).

Ltac read_at i c H :=
  let E := fresh "Hrd" in destruct (Hread i ltac:(lia)) as (c & E & H); rewrite E; osimpl.

Definition round_ok (p : Z) (acc : list Z) (r : round) : Prop :=
  match r with
  | Err | Done => True
  | Go _ p' cur' => p <= p' < n /\ exists acc', repr cur' acc' /\ zlen acc' <= zlen acc + 1
  end.

Lemma cat_ok cur acc x q p p' :
  repr cur acc -> zlen acc + 1 < 2 ^ 31 - 2 ^ 20 -> p <= p' < n ->
  exists r, (cur ← sdscatlen uninit cur [x] 1; Some (Go q p' cur)) = Some r /\ round_ok p acc r.
Proof.
  intros Hr Hb Hp. destruct (catlen_lit uninit cur acc [x] Hr) as (cur' & E & Hr'); [cbn; lia|].
  change (zlen [x]) with 1 in E. rewrite E. osimpl. eexists. split; [done|]. split; [done|].
  eexists. split; [done|]. rewrite length_app. cbn. lia.
Qed.

Lemma hex_nonzero c : is_hex_digit c = true -> c <> 0.
Proof. by intros H ->. Qed.

Lemma round_total q p cur acc :
  0 <= p <= n -> repr cur acc -> zlen acc + 1 < 2 ^ 31 - 2 ^ 20 ->
  exists r, token_round uninit line q p cur = Some r /\ round_ok p acc r.
Proof.
  intros Hp Hr Hb. unfold token_round. read_at p c Hc. destruct q.
  - destruct (Z.eqb_spec c 0) as [->|H0]; [rewrite orb_true_r; eexists; by split|]. rewrite orb_false_r.
    apply Hc in H0. destruct (_ || _); [eexists; by split|].
    destruct (c =? 34); [|destruct (c =? 39); [|by apply cat_ok; [| |lia]]];
      (eexists; split; [done|]; split; [lia|]; exists acc; split; [done|lia]).
  - destruct (Z.eqb_spec c 92) as [->|H92]; osimpl.
    2: { destruct (Z.eqb_spec c 34) as [->|H34].
         - destruct Hc as [_ Hc]. specialize (Hc ltac:(done)). read_at (p + 1) c1 Hc1.
           eexists. split; [done|]. by destruct (_ && _).
         - destruct (Z.eqb_spec c 0) as [->|H0]; [eexists; by split|]. apply Hc in H0.
           apply cat_ok; [done|done|lia]. }
    destruct Hc as [_ Hc]. specialize (Hc ltac:(done)). read_at (p + 1) c1 Hc1.
    assert (forall m, exists hex, (if c1 =? 120 then
        c2 ← rd line (p + 2);
        if is_hex_digit c2 then c3 ← rd line (p + 3);
          Some (if is_hex_digit c3 then Some (m c2 c3 : Z) else None)
        else Some None else Some None) = Some hex /\ (hex <> None -> p + 3 < n)) as Hhex.
    { intros m. destruct (Z.eqb_spec c1 120) as [->|]; [|by exists None].
      destruct Hc1 as [_ Hc1]. specialize (Hc1 ltac:(done)). read_at (p + 2) c2 Hc2.
      destruct (is_hex_digit c2) eqn:H2; [|by exists None]. apply hex_nonzero, Hc2 in H2.
      read_at (p + 3) c3 Hc3. eexists. split; [done|].
      destruct (is_hex_digit c3) eqn:H3; [|done]. apply hex_nonzero, Hc3 in H3. lia. }
    destruct (Hhex (fun c2 c3 => hex_digit_to_int c2 * 16 + hex_digit_to_int c3)) as (hex & -> & Hh).
    osimpl. destruct hex as [byte|]; [apply cat_ok; [done|done|specialize (Hh ltac:(done)); lia]|].
    destruct (Z.eqb_spec c1 0) as [->|H0]; cbn [negb]; [|apply Hc1 in H0]; apply cat_ok; try done; lia.
  - assert (exists esc, (if c =? 92 then c1 ← rd line (p + 1); Some (c1 =? 39) else Some false) = Some esc /\
      (esc = true -> p + 1 < n)) as (esc & -> & Hesc).
    { destruct (Z.eqb_spec c 92) as [->|]; [|by exists false]. destruct Hc as [_ Hc]. specialize (Hc ltac:(done)).
      read_at (p + 1) c1 Hc1. eexists. split; [done|]. intros ->%Z.eqb_eq. by apply Hc1. }
    osimpl. destruct esc; [apply cat_ok; [done|done|specialize (Hesc eq_refl); lia]|].
    destruct (Z.eqb_spec c 39) as [->|].
    + destruct Hc as [_ Hc]. specialize (Hc ltac:(done)). read_at (p + 1) c1 Hc1.
      eexists. split; [done|]. by destruct (_ && _).
    + destruct (Z.eqb_spec c 0) as [->|H0]; [eexists; by split|]. apply Hc in H0.
      apply cat_ok; [done|done|lia].
Qed.

Lemma step_total p : 0 <= p <= n ->
  exists p', step_char line p = Some p' /\ p <= p' <= n /\ (p < n -> p' = p + 1).
Proof.
  intros Hp. unfold step_char. read_at p c Hc. eexists. split; [done|].
  destruct (Z.eqb_spec c 0) as [->|H0]; [|apply Hc in H0; lia].
  split; [lia|]. intros H. by apply Hc in H.
Qed.

Lemma token_total fuel : forall q p cur acc,
  0 <= p <= n -> (Z.to_nat (n - p) < fuel)%nat -> repr cur acc -> zlen acc + (n - p) + 1 < 2 ^ 31 - 2 ^ 20 ->
  exists r, token_loop uninit fuel line q p cur = Some r /\
    forall cur' p', r = Some (cur', p') -> p <= p' <= n /\ (p < n -> p < p') /\ exists acc', repr cur' acc'.
Proof.
  induction fuel as [|fuel IH]; intros q p cur acc Hp Hf Hr Hb; [lia|]. cbn [token_loop].
  destruct (round_total q p cur acc Hp Hr) as (r & -> & Hround); [lia|]. osimpl.
  destruct r as [| |q' p1 cur1]; [by eexists|..].
  - destruct (step_total p Hp) as (p' & -> & Hp' & Hs). osimpl. eexists. split; [done|].
    intros ? ? [= <- <-]. split; [done|]. split; [lia|]. by exists acc.
  - destruct Hround as [Hp1 (acc1 & Hr1 & Hl1)].
    destruct (step_total p1) as (p2 & -> & _ & Hs); [lia|]. rewrite Hs by lia. osimpl.
    destruct (IH q' (p1 + 1) cur1 acc1) as (r & -> & Hres); [lia|lia|done|lia|].
    eexists. split; [done|]. intros cur' p' E. destruct (Hres cur' p' E) as (H1 & _ & H2). split; [lia|].
    split; [lia|done].
Qed.

Lemma blanks_total fuel : forall p,
  0 <= p <= n -> (Z.to_nat (n - p) < fuel)%nat ->
  exists p', skip_blanks fuel line p = Some p' /\ p <= p' <= n.
Proof.
  induction fuel as [|fuel IH]; intros p Hp Hf; [lia|]. cbn [skip_blanks]. read_at p c Hc.
  destruct (Z.eqb_spec c 0) as [->|H0]; cbn [negb andb]; [exists p; split; [done|lia]|].
  apply Hc in H0. destruct (isspace c); [|exists p; split; [done|lia]].
  destruct (IH (p + 1)) as (p' & -> & Hp'); [lia|lia|]. exists p'. split; [done|lia].
Qed.

Lemma args_total fuel : forall p v,
  0 <= p <= n -> (Z.to_nat (n - p) < fuel)%nat -> n + 1 < 2 ^ 31 - 2 ^ 20 -> Forall (fun s => exists l, repr s l) v ->
  exists r, args_loop uninit fuel line p v = Some r /\
    forall v', r = Some v' -> Forall (fun s => exists l, repr s l) v'.
Proof.
  assert (n <= zlen line) as Hlen.
  { destruct (Z.le_gt_cases n 0); [lia|]. destruct (Hread n) as (c & E & _); [lia|].
    apply rd_Some in E as [_ E%lookup_lt_Some]. lia. }
  induction fuel as [|fuel IH]; intros p v Hp Hf Hb Hv; [lia|]. cbn [args_loop].
  destruct (blanks_total (S (length line)) p Hp) as (p1 & -> & Hp1); [lia|]. osimpl.
  read_at p1 c Hc. destruct (Z.eqb_spec c 0) as [->|H0]; cbn [negb].
  { eexists. split; [done|]. by intros ? [= <-]. }
  apply Hc in H0. destruct (empty_spec uninit) as (s & -> & Hs). osimpl.
  destruct (token_total (S (length line)) Plain p1 s []) as (r & -> & Hr); [lia|lia|done|cbn; lia|].
  osimpl. destruct r as [[cur p2]|]; [|by eexists].
  destruct (Hr _ _ eq_refl) as (H1 & H2 & Hcur). apply IH; [lia|lia|done|].
  apply Forall_app. by split; [|repeat constructor].
Qed.
End Total.

(** The bytes of a C string: only the last is zero. *)
Lemma cstr_read x t i :
  Forall (fun c => c <> 0) x -> 0 <= i <= zlen x ->
  exists c, rd (x ++ 0 :: t) i = Some c /\ (i < zlen x <-> c <> 0).
Proof.
  intros Hx Hi. destruct (decide (i = zlen x)) as [->|Hne].
  - exists 0. split; [by apply rd_app|lia].
  - destruct (rd_in x i) as (c & E); [lia|]. exists c. apply rd_Some in E as [H0 E].
    split; [apply rd_Some; split; [done|]; apply lookup_app_l_Some; done|].
    split; [intros _; exact (proj1 (Forall_lookup _ _) Hx _ _ E)|lia].
Qed.

(** Any C string is split, or refused, without reading past its end. *)
Lemma splitargs_total uninit x t :
  Forall (fun c => c <> 0) x -> zlen x + 1 < 2 ^ 31 - 2 ^ 20 ->
  exists r, sdssplitargs uninit (x ++ 0 :: t) = Some r /\
    forall v, r = Some v -> Forall (fun s => exists l, repr s l) v.
Proof.
  intros Hx Hb. unfold sdssplitargs.
  apply (args_total uninit (x ++ 0 :: t) (zlen x)); [|lia|rewrite length_app; lia|done|done].
  intros i Hi. by apply cstr_read.
Qed.

(** C40: [sdssplitargs] reads back what [sdscatrepr] wrote: the quoted
    representation of any byte string is one argument, that string. *)
Theorem splitargs_catrepr uninit x :
  Forall (fun c => 0 <= c < 256) x -> 4 * zlen x + 2 < 2 ^ 30 ->
  exists s0 s1 s2, sdsempty uninit = Some s0 /\ sdscatrepr uninit s0 x (zlen x) = Some s1 /\
    sdssplitargs uninit (buf s1) = Some (Some [s2]) /\ repr s2 x.
Proof.
  intros Hx Hb. destruct (empty_spec uninit) as (s0 & E0 & Hr0).
  destruct (catrepr_spec uninit s0 [] x [] Hr0 Hx) as (s1 & E1 & (t & -> & Ht)); [simpl; lia|].
  rewrite app_nil_r in E1.
  exists s0, (Sdshdr (zlen ([] ++ quoted x)) (zlen t) (([] ++ quoted x) ++ 0 :: t)).
  assert (([] ++ quoted x) ++ 0 :: t = [34] ++ (x ≫= esc) ++ 34 :: 0 :: t) as Eline
    by (unfold quoted; cbn [app]; by rewrite <- app_assoc).
  cbn [buf]. rewrite Eline in E1 |- *. set (line := [34] ++ (x ≫= esc) ++ 34 :: 0 :: t) in *.
  assert ((length x + 3 <= length line)%nat) as Hlen.
  { unfold line. rewrite !length_app. cbn [length]. assert (length x <= length (x ≫= esc))%nat; [|lia].
    clear. induction x as [|c x IH]; [done|]. rewrite bind_cons, length_app. pose proof (esc_length c).
    cbn [length]. lia. }
  destruct (token_quoted uninit x [34] t s0 [] (length line) Hr0 Hx) as (s2 & E2 & Hr2);
    [simpl; lia|lia|]. fold line in E2.
  exists s2. split; [done|]. split; [done|]. split; [|done].
  set (q := zlen [34] + zlen (x ≫= esc) + 1) in *.
  assert (rd line q = Some 0) as Hq.
  { unfold line. replace ([34] ++ (x ≫= esc) ++ 34 :: 0 :: t) with (([34] ++ (x ≫= esc) ++ [34]) ++ 0 :: t)
      by (by rewrite <- !app_assoc). apply rd_app. unfold q. rewrite !length_app. simpl. lia. }
  assert (rd line 0 = Some 34) as H0 by done. clearbody line q.
  assert (skip_blanks (S (length line)) line 0 = Some 0) as Hs0
    by (cbn [skip_blanks]; rewrite H0; done).
  assert (skip_blanks (S (length line)) line q = Some q) as Hs1
    by (cbn [skip_blanks]; rewrite Hq; done).
  assert (token_loop uninit (S (length line)) line Plain 0 s0 = Some (Some (s2, q))) as Ht0.
  { cbn [token_loop]. unfold token_round, step_char. rewrite H0. osimpl.
    cbn [Z.eqb Pos.eqb orb]. osimpl. rewrite H0. osimpl. exact E2. }
  unfold sdssplitargs. destruct (length line) as [|m] eqn:Em; [lia|].
  cbn [args_loop]. rewrite Em, Hs0. osimpl. rewrite H0. osimpl. cbn [Z.eqb negb].
  rewrite E0. osimpl. rewrite Ht0. osimpl. rewrite Hs1. osimpl. by rewrite Hq.
Qed.

Lemma splitargs_catrepr_witness :
  exists s0 s1 s2, sdsempty (fun _ => 0) = Some s0 /\
    sdscatrepr (fun _ => 0) s0 [0; 34; 92; 10; 255] 5 = Some s1 /\
    sdssplitargs (fun _ => 0) (buf s1) = Some (Some [s2]) /\ repr s2 [0; 34; 92; 10; 255].
Proof.
  assert (Forall (fun c => 0 <= c < 256) [0; 34; 92; 10; 255]) as Hx by (repeat constructor; lia).
  exact (splitargs_catrepr (fun _ => 0) [0; 34; 92; 10; 255] Hx ltac:(simpl; lia)).
Defined.

(** "a%iS%%%s%U%S" with -12, "xy", the largest 64-bit number and " ab ". *)
Definition pieces0 : list piece :=
  [P_lit 97; P_i (-12); P_lit 83; P_pct 37; P_s [120; 121]; P_U (2 ^ 64 - 1); P_S s_ab [32; 97; 98; 32]].

Lemma sdscatfmt_prints_witness :
  exists s', sdscatfmt (fun _ => 7) s_ab ((pieces0 ≫= piece_fmt) ++ [0]) (pieces0 ≫= piece_arg) = Some s' /\
    repr s' ([32; 97; 98; 32] ++ (pieces0 ≫= piece_out)).
Proof.
  apply (sdscatfmt_prints (fun _ => 7) pieces0 s_ab [32; 97; 98; 32] [] s_ab_repr).
  - repeat apply Forall_cons_2; [..|by apply Forall_nil_2];
      unfold piece_ok, in_s, in_u; try lia; [split; [done|]| |apply s_ab_repr];
      repeat apply Forall_cons_2; try done; by apply Forall_nil_2.
  - vm_compute. reflexivity.
Defined.

(** "a,,bc," at ",": the string goes on after the six bytes. *)
Lemma sdssplitlen_splits_witness :
  exists tokens toks, sdssplitlen (fun _ => 7) ([97; 44; 44; 98; 99; 44] ++ [44; 0]) 6 ([44] ++ [0]) 1 = Some (Some tokens) /\
    Forall2 repr tokens toks /\ intercalate [44] toks = [97; 44; 44; 98; 99; 44] /\ Forall (free_of [44]) toks.
Proof. by apply (sdssplitlen_splits (fun _ => 7) [97; 44; 44; 98; 99; 44] [44; 0] [44] [0]). Defined.

End SdsText.
