(* ===== verification/Object.v ===== *)
(** * String objects (src/redis-2.8/src/object.c)

    A string object holds an sds or, when its text is that of a [long], the
    number itself. The operations here are those that look at the text of an
    object or change its encoding; the text is what every client of objects
    relies on. *)
From stdpp Require Import base tactics list numbers option.
From Stdlib Require Import ZArith Lia.
From S2P Require Import Prelude Util Sds SdsText.
Import CInt CMem Util Sds.
Open Scope Z_scope.

Module Object.

Definition REDIS_SHARED_INTEGERS : Z := 10000.

(** [o->encoding] with [o->ptr]. *)
Inductive encoded := ENC_RAW (s : sdshdr) | ENC_INT (v : Z).

Record robj := Robj { o_ptr : encoded; o_refcount : Z }.

#[export] Instance sdshdr_eq_dec : EqDecision sdshdr.
Proof. solve_decision. Defined.
#[export] Instance encoded_eq_dec : EqDecision encoded.
Proof. solve_decision. Defined.
#[export] Instance robj_eq_dec : EqDecision robj.
Proof. solve_decision. Defined.

Section Objects.
Context (uninit : nat -> Z) (long_bits : Z).

(** The characters of an object and their number: those of the sds, or those
    [ll2string] writes to a buffer of [size] bytes. *)
Definition text_of (size : Z) (o : robj) : option (list Z * Z) :=
  match o_ptr o with
  | ENC_INT v => ll2string (realloc uninit size []) size v
  | ENC_RAW s => Some (buf s, sdslen s)
  end.

(** [compareStringObjectsWithFlags] for [REDIS_COMPARE_BINARY]. Objects are
    values here, so the test for the same pointer is a test for the same
    object. *)
Definition compareStringObjects (a b : robj) : option Z :=
  if decide (a = b) then Some 0
  else
    '(astr, alen) ← text_of 128 a;
    '(bstr, blen) ← text_of 128 b;
    let minlen := if alen <? blen then alen else blen in
    x ← rdn astr 0 minlen;
    y ← rdn bstr 0 minlen;
    let cmp := memcmp x y in
    Some (if cmp =? 0 then swrap 32 (alen - blen) else cmp).

Definition equalStringObjects (a b : robj) : option bool :=
  match o_ptr a, o_ptr b with
  | ENC_INT x, ENC_INT y => Some (x =? y)
  | _, _ => c ← compareStringObjects a b; Some (c =? 0)
  end.

Definition stringObjectLen (o : robj) : option Z :=
  match o_ptr o with
  | ENC_RAW s => Some (sdslen s)
  | ENC_INT v => '(_, n) ← ll2string (realloc uninit 32 []) 32 v; Some n
  end.

(** [Some None] is [REDIS_ERR]. *)
Definition isObjectRepresentableAsLongLong (o : robj) : option (option Z) :=
  match o_ptr o with
  | ENC_INT v => Some (Some v)
  | ENC_RAW s => string2ll (take (Z.to_nat (sdslen s)) (buf s)) (sdslen s)
  end.

Definition createObject (p : encoded) : robj := Robj p 1.

Definition createStringObject (ptr : list Z) (n : Z) : option robj :=
  s ← sdsnewlen uninit (Some ptr) n; Some (createObject (ENC_RAW s)).

Definition incrRefCount (o : robj) : robj := Robj (o_ptr o) (o_refcount o + 1).

(** The object that [tryObjectEncoding] returns: the one it was given, changed
    or not, or an entry of the table of shared integers. *)
Inductive encoded_as := Own (o : robj) | Shared (value : Z).

(** The table of shared integers is part of the state: its entry gets one more
    reference. [lru] says whether the memory limit needs private objects. *)
Definition tryObjectEncoding (lru : bool) (integers : list robj) (o : robj)
  : option (encoded_as * list robj) :=
  match o_ptr o with
  | ENC_INT _ => Some (Own o, integers)
  | ENC_RAW s =>
      if 1 <? o_refcount o then Some (Own o, integers)
      else
        let n := sdslen s in
        value ← (if 21 <? n then Some None
                 else string2l long_bits (take (Z.to_nat n) (buf s)) n);
        match value with
        | None =>
            if (32 <? n) && (n / 10 <? sdsavail s)
            then Some (Own (Robj (ENC_RAW (sdsRemoveFreeSpace uninit s)) (o_refcount o)), integers)
            else Some (Own o, integers)
        | Some value =>
            if negb lru && (0 <=? value) && (value <? REDIS_SHARED_INTEGERS) then
              shared ← rd integers value;
              integers ← wr integers value (incrRefCount shared);
              if o_refcount o =? 1 then Some (Shared value, integers) else None
            else Some (Own (Robj (ENC_INT value) (o_refcount o)), integers)
        end
  end.

Definition createStringObjectFromLongLong (integers : list robj) (value : Z)
  : option (encoded_as * list robj) :=
  if (0 <=? value) && (value <? REDIS_SHARED_INTEGERS) then
    shared ← rd integers value;
    integers ← wr integers value (incrRefCount shared);
    Some (Shared value, integers)
  else if (- 2 ^ (long_bits - 1) <=? value) && (value <=? 2 ^ (long_bits - 1) - 1) then
    Some (Own (createObject (ENC_INT value)), integers)
  else
    s ← SdsText.sdsfromlonglong uninit value;
    Some (Own (createObject (ENC_RAW s)), integers).

(** A raw object gets one more reference, an integer a new object. *)
Definition getDecodedObject (o : robj) : option robj :=
  match o_ptr o with
  | ENC_RAW _ => Some (incrRefCount o)
  | ENC_INT v =>
      '(b, _) ← ll2string (realloc uninit 32 []) 32 v;
      n ← strlen b;
      createStringObject b n
  end.

(** ** Numbers of clients

    [strtoll(b,&end,10)] on a terminated string: the value, the position after
    the number, and whether the number was out of range. *)
Fixpoint skip_space (n : nat) (b : list Z) (i : Z) : option Z :=
  match n with
  | O => None
  | S n => c ← rd b i; if SdsText.isspace c then skip_space n b (i + 1) else Some i
  end.

Fixpoint read_digits (n : nat) (b : list Z) (i acc : Z) : option (Z * Z) :=
  match n with
  | O => None
  | S n => c ← rd b i; if is_digit c then read_digits n b (i + 1) (acc * 10 + (c - c_0)) else Some (acc, i)
  end.

Definition strtoll (b : list Z) : option (Z * Z * bool) :=
  i ← skip_space (length b) b 0;
  c ← rd b i;
  let j := if (c =? 45) || (c =? 43) then i + 1 else i in
  '(n, e) ← read_digits (length b) b j 0;
  if e =? j then Some (0, 0, false)
  else
    let v := if c =? 45 then - n else n in
    Some (if v <? - 2 ^ 63 then (- 2 ^ 63, e, true) else if 2 ^ 63 <=? v then (2 ^ 63 - 1, e, true) else (v, e, false)).

(** [Some None] is [REDIS_ERR]. *)
Definition getLongLongFromObject (o : robj) : option (option Z) :=
  match o_ptr o with
  | ENC_INT v => Some (Some v)
  | ENC_RAW s =>
      '(value, eptr, erange) ← strtoll (buf s);
      c ← rd (buf s) 0;
      e ← rd (buf s) eptr;
      Some (if SdsText.isspace c || negb (e =? 0) || erange then None else Some value)
  end.

(** ** The text of an object *)
Definition has_text (o : robj) (l : list Z) : Prop :=
  match o_ptr o with
  | ENC_RAW s => repr s l
  | ENC_INT v => in_s 64 v /\ l = dec v
  end.

Lemma text_of_spec o l :
  has_text o l -> exists r, text_of 128 o = Some (l ++ 0 :: r, zlen l).
Proof.
  unfold has_text, text_of. destruct (o_ptr o) as [s|v].
  - intros (t & -> & _). by exists t.
  - intros [Hv ->]. set (b := realloc uninit 128 []).
    assert (zlen b = 128) as Hb by (apply realloc_length; lia).
    pose proof (ll2string_spec b v Hv) as E. rewrite Hb in E. rewrite E.
    pose proof (dec_length v Hv). rewrite (proj2 (Z.leb_gt _ _)) by lia. eauto.
Qed.

Lemma text_bound o l : has_text o l -> zlen l < 2 ^ 31.
Proof.
  unfold has_text. destruct (o_ptr o) as [s|v].
  - intros (t & -> & Ht). lia.
  - intros [Hv ->]. pose proof (dec_length v Hv). lia.
Qed.

Lemma has_text_inj o l1 l2 : has_text o l1 -> has_text o l2 -> l1 = l2.
Proof.
  unfold has_text. destruct (o_ptr o) as [s|v].
  - intros (t1 & -> & _) (t2 & E & _). injection E as El _ Eb.
    apply app_inj_1 in Eb; [by destruct Eb|lia].
  - by intros [_ ->] [_ ->].
Qed.

Lemma lex_refl l : lex l l = Eq.
Proof. induction l as [|x l IH]; [done|]. cbn. by rewrite Z.compare_refl. Qed.

Lemma compare_spec a b la lb :
  has_text a la -> has_text b lb ->
  exists r, compareStringObjects a b = Some r /\ (r ?= 0) = lex la lb.
Proof.
  intros Ha Hb. unfold compareStringObjects. destruct (decide (a = b)) as [<-|_].
  { exists 0. split; [done|]. rewrite (has_text_inj a la lb) by done. by rewrite lex_refl. }
  pose proof (text_bound a la Ha). pose proof (text_bound b lb Hb).
  destruct (text_of_spec a la Ha) as (ra & ->). destruct (text_of_spec b lb Hb) as (rb & ->). osimpl.
  replace (if zlen la <? zlen lb then zlen la else zlen lb) with (Z.of_nat (Nat.min (length la) (length lb)))
    by (destruct (Z.ltb_spec (zlen la) (zlen lb)); lia).
  rewrite !rdn_take by lia. osimpl. eexists. split; [done|]. rewrite memcmp_lex.
  cbv zeta. set (c := memcmp _ _). destruct (Z.eqb_spec c 0) as [Hc|Hc]; [|done].
  rewrite swrap_small by (unfold in_s; lia). symmetry. apply Z.compare_sub.
Qed.

Lemma lex_Eq a : forall b, lex a b = Eq <-> a = b.
Proof.
  induction a as [|x a IH]; intros [|y b]; cbn; try done.
  destruct (Z.compare_spec x y) as [->|H|H].
  - rewrite IH. split; [by intros ->|by intros [= ->]].
  - split; [done|]. intros [= -> ->]. lia.
  - split; [done|]. intros [= -> ->]. lia.
Qed.

(** Different numbers have different texts. *)
Lemma dec_inj x y : in_s 64 x -> in_s 64 y -> dec x = dec y -> x = y.
Proof.
  intros Hx Hy E. destruct (string2ll_spec (dec x)) as (r & _ & Hr).
  pose proof (proj2 (Hr x) (conj Hx eq_refl)). pose proof (proj2 (Hr y) (conj Hy E)). congruence.
Qed.

Lemma equal_spec a b la lb :
  has_text a la -> has_text b lb -> equalStringObjects a b = Some (bool_decide (la = lb)).
Proof.
  intros Ha Hb. destruct (compare_spec a b la lb Ha Hb) as (r & E & Hr).
  assert ((c ← compareStringObjects a b; Some (c =? 0)) = Some (bool_decide (la = lb))) as Hc.
  { rewrite E. osimpl. f_equal. apply eq_bool_prop_intro. rewrite Is_true_true, Z.eqb_eq, <- Z.compare_eq_iff, Hr, lex_Eq.
    symmetry. apply bool_decide_spec. }
  unfold equalStringObjects. destruct a as [[sa|x] ra], b as [[sb|y] rb]; cbn [o_ptr] in *; try done.
  unfold has_text in Ha, Hb. cbn in Ha, Hb. destruct Ha as [Hx ->], Hb as [Hy ->]. f_equal.
  destruct (Z.eqb_spec x y) as [->|Hne]; [by rewrite bool_decide_eq_true_2|].
  rewrite bool_decide_eq_false_2; [done|]. intros Exy. by apply Hne, dec_inj.
Qed.

(** ** Changing the encoding *)
Hypothesis long_ok : 0 < long_bits <= 64.

Lemma long_in_64 v : in_s long_bits v -> in_s 64 v.
Proof.
  unfold in_s. intros Hv. assert (2 ^ (long_bits - 1) <= 2 ^ (64 - 1)) by (apply Z.pow_le_mono_r; lia). lia.
Qed.

(** The entries of the table of shared integers. *)
Definition integers_ok (integers : list robj) : Prop :=
  zlen integers = REDIS_SHARED_INTEGERS /\
  forall v o, rd integers v = Some o -> o_ptr o = ENC_INT v.

(** The object a result stands for. *)
Definition result_object (r : encoded_as) (integers : list robj) : option robj :=
  match r with Own o => Some o | Shared v => rd integers v end.

Lemma integers_incr integers v o :
  integers_ok integers -> rd integers v = Some o ->
  exists integers', wr integers v (incrRefCount o) = Some integers' /\ integers_ok integers' /\
    rd integers' v = Some (incrRefCount o).
Proof.
  intros [Hl Hi] Hv. pose proof (Hi _ _ Hv) as Ho.
  unfold rd in Hv. destruct (Z.ltb_spec v 0) as [|Hv0]; [done|].
  pose proof (lookup_lt_Some _ _ _ Hv) as Hlt.
  exists (<[Z.to_nat v := incrRefCount o]> integers).
  unfold wr. rewrite (proj2 (Z.leb_le 0 v)), (proj2 (Z.ltb_lt v _)) by lia.
  assert (rd (<[Z.to_nat v := incrRefCount o]> integers) v = Some (incrRefCount o)) as Hr.
  { unfold rd. rewrite (proj2 (Z.ltb_ge v 0)) by lia. by apply list_lookup_insert_eq. }
  split; [done|]. split; [|done]. split; [by rewrite length_insert|].
  intros u x Hu. destruct (decide (u = v)) as [->|Hne].
  - rewrite Hr in Hu. by injection Hu as <-.
  - apply Hi. revert Hu. unfold rd. destruct (Z.ltb_spec u 0); [done|].
    by rewrite list_lookup_insert_ne by lia.
Qed.

Lemma try_encoding_spec lru integers o l :
  has_text o l -> 1 <= o_refcount o -> integers_ok integers ->
  exists r integers' o', tryObjectEncoding lru integers o = Some (r, integers') /\
    integers_ok integers' /\ result_object r integers' = Some o' /\ has_text o' l /\
    (forall v, in_s long_bits v -> l = dec v -> o_refcount o = 1 -> o_ptr o' = ENC_INT v).
Proof.
  intros Ht Hrc Hi. unfold tryObjectEncoding. pose proof Ht as Ht0. unfold has_text in Ht.
  destruct (o_ptr o) as [s|x] eqn:Eo.
  2:{ exists (Own o), integers, o. split_and!; try done. intros v Hv E _. destruct Ht as [Hx ->].
      rewrite Eo. f_equal. apply dec_inj; [done|by apply long_in_64|done]. }
  destruct (Z.ltb_spec 1 (o_refcount o)) as [|Hrc1]; [exists (Own o), integers, o; split_and!; try done; lia|].
  pose proof Ht as (t & Es & Hb).
  assert (sdslen s = zlen l) as -> by (by rewrite Es).
  assert (take (Z.to_nat (zlen l)) (buf s) = l) as -> by (rewrite Es, Nat2Z.id; cbn; apply take_app_length).
  assert (exists w, (if 21 <? zlen l then Some None else string2l long_bits l (zlen l)) = Some w /\
            forall v, w = Some v <-> in_s long_bits v /\ l = dec v) as (w & -> & Hw).
  { destruct (Z.ltb_spec 21 (zlen l)).
    - exists None. split; [done|]. intros v. split; [done|]. intros [Hv%long_in_64 ->].
      pose proof (dec_length v Hv). lia.
    - by apply string2l_exact. }
  osimpl. destruct w as [v|].
  - pose proof (proj1 (Hw v) eq_refl) as [Hv El].
    assert (forall u, in_s long_bits u -> l = dec u -> u = v) as Huniq.
    { intros u Hu Eu. pose proof (proj2 (Hw u) (conj Hu Eu)) as E. by injection E as ->. }
    destruct (negb lru && (0 <=? v) && (v <? REDIS_SHARED_INTEGERS)) eqn:Hsh.
    + apply andb_true_iff in Hsh as [[_ H0%Z.leb_le]%andb_true_iff H1%Z.ltb_lt].
      destruct (lookup_lt_is_Some_2 integers (Z.to_nat v)) as [sh Hsh]; [destruct Hi; lia|].
      assert (rd integers v = Some sh) as Hrd by (unfold rd; by rewrite (proj2 (Z.ltb_ge v 0)) by lia).
      destruct (integers_incr integers v sh Hi Hrd) as (integers' & E & Hi' & Hrd').
      rewrite Hrd. osimpl. rewrite E. osimpl. rewrite (proj2 (Z.eqb_eq (o_refcount o) 1)) by lia.
      pose proof (proj2 Hi v sh Hrd) as Hp.
      exists (Shared v), integers', (incrRefCount sh). split_and!; try done.
      * unfold has_text. cbn. rewrite Hp. split; [by apply long_in_64|done].
      * intros u Hu Eu _. cbn. rewrite Hp. by rewrite (Huniq u Hu Eu).
    + eexists (Own _), integers, _. split_and!; try done.
      * split; [by apply long_in_64|done].
      * intros u Hu Eu _. cbn. by rewrite (Huniq u Hu Eu).
  - assert (forall v, in_s long_bits v -> l = dec v -> False) as Hno.
    { intros v Hv E. pose proof (proj2 (Hw v) (conj Hv E)). done. }
    destruct (_ && _); eexists (Own _), integers, _; split_and!; try done;
      try (intros v Hv E; by destruct (Hno v Hv E)).
    unfold has_text. cbn. by apply remove_free_spec.
Qed.

Lemma dec_nonzero v : Forall (fun c => c <> 0) (dec v).
Proof.
  unfold dec. assert (forall u, 0 <= u -> Forall (fun c => c <> 0) (udec 20 u)) as Hu.
  { intros u H. eapply Forall_impl; [|by apply udec_digits]. unfold digit, c_0. cbn. intros; lia. }
  destruct (Z.ltb_spec v 0); [constructor; [done|]|]; apply Hu; lia.
Qed.

Lemma decoded_spec o l :
  has_text o l -> exists o' s, getDecodedObject o = Some o' /\ o_ptr o' = ENC_RAW s /\ repr s l.
Proof.
  intros Ht. unfold getDecodedObject, has_text in *. destruct (o_ptr o) as [s|v] eqn:Eo.
  { exists (incrRefCount o), s. split; [done|]. by split. }
  destruct Ht as [Hv ->]. set (b := realloc uninit 32 []).
  assert (zlen b = 32) as Hb by (apply realloc_length; lia).
  pose proof (ll2string_spec b v Hv) as E. rewrite Hb in E. rewrite E.
  pose proof (dec_length v Hv). rewrite (proj2 (Z.leb_gt _ _)) by lia. osimpl.
  rewrite strlen_spec by (apply dec_nonzero). osimpl. unfold createStringObject.
  destruct (newlen_spec uninit (dec v) (0 :: drop (S (length (dec v))) b)) as (s & -> & Hs); [lia|].
  osimpl. by exists (createObject (ENC_RAW s)), s.
Qed.

Lemma from_long_long_spec integers value :
  - 2 ^ 63 < value < 2 ^ 63 -> integers_ok integers ->
  exists r integers' o, createStringObjectFromLongLong integers value = Some (r, integers') /\
    integers_ok integers' /\ result_object r integers' = Some o /\ has_text o (dec value).
Proof.
  intros Hv Hi. assert (in_s 64 value) as Hs by (unfold in_s; change (2 ^ (64 - 1)) with (2 ^ 63); lia).
  unfold createStringObjectFromLongLong. destruct (_ && _) eqn:E.
  - apply andb_true_iff in E as [E1%Z.leb_le E2%Z.ltb_lt].
    destruct (rd_in integers value) as [o Ho]; [destruct Hi as [-> _]; lia|].
    destruct (integers_incr integers value o Hi Ho) as (integers' & Ew & Hi' & Hr).
    rewrite Ho. osimpl. rewrite Ew. osimpl. exists (Shared value), integers', (incrRefCount o).
    split; [done|]. split; [done|]. split; [done|]. unfold has_text. cbn [o_ptr incrRefCount].
    destruct Hi as [_ Hi]. by rewrite (Hi _ _ Ho).
  - clear E. destruct (_ && _).
    + exists (Own (createObject (ENC_INT value))), integers, (createObject (ENC_INT value)).
      split; [done|]. split; [done|]. split; [done|]. done.
    + destruct (SdsText.sdsfromlonglong_spec uninit value) as (s & -> & Hr);
        [unfold LLONG_MIN; lia|]. osimpl.
      exists (Own (createObject (ENC_RAW s))), integers, (createObject (ENC_RAW s)).
      split; [done|]. split; [done|]. split; [done|]. done.
Qed.

End Objects.

(** ** What the containers need to know of their elements

    Lists, sets and sorted sets compare their elements with the two functions
    above; this is what they rely on. *)
Class StringObjects (O : Type) := {
  so_valid : O -> Prop;
  so_text : O -> list Z;
  so_compare : O -> O -> option Z;
  so_equal : O -> O -> option bool;
  so_compare_spec : forall a b, so_valid a -> so_valid b ->
    exists r, so_compare a b = Some r /\ (r ?= 0) = lex (so_text a) (so_text b);
  so_equal_spec : forall a b, so_valid a -> so_valid b ->
    so_equal a b = Some (bool_decide (so_text a = so_text b))
}.

Definition robj_text (o : robj) : list Z :=
  match o_ptr o with
  | ENC_RAW s => take (Z.to_nat (sdslen s)) (buf s)
  | ENC_INT v => dec v
  end.

#[export] Instance robj_objects (uninit : nat -> Z) : StringObjects robj := {
  so_valid o := has_text o (robj_text o);
  so_text := robj_text;
  so_compare := compareStringObjects uninit;
  so_equal := equalStringObjects uninit;
  so_compare_spec a b Ha Hb := compare_spec uninit a b _ _ Ha Hb;
  so_equal_spec a b Ha Hb := equal_spec uninit a b _ _ Ha Hb
}.

(** [compareStringObjects] orders two objects by their texts and
    [equalStringObjects] tells whether the texts are the same, whatever the
    encodings of the two objects are. *)
Theorem string_objects_compare uninit a b la lb :
  has_text a la -> has_text b lb ->
  (exists r, compareStringObjects uninit a b = Some r /\ (r ?= 0) = lex la lb) /\
  equalStringObjects uninit a b = Some (bool_decide (la = lb)).
Proof. intros Ha Hb. split; [by apply compare_spec|by apply equal_spec]. Qed.

(** C26: [tryObjectEncoding] keeps the text of an object, turns exactly the
    canonical notations of a [long] into numbers and shares only entries of
    the table with that number; [getDecodedObject] gives the text back as an
    sds. *)
Theorem tryObjectEncoding_keeps_text uninit long_bits lru integers o l :
  0 < long_bits <= 64 -> has_text o l -> o_refcount o = 1 -> integers_ok integers ->
  exists r integers' o' o'' s, tryObjectEncoding uninit long_bits lru integers o = Some (r, integers') /\
    integers_ok integers' /\ result_object r integers' = Some o' /\ has_text o' l /\
    (forall v, in_s long_bits v -> l = dec v -> o_ptr o' = ENC_INT v) /\
    getDecodedObject uninit o' = Some o'' /\ o_ptr o'' = ENC_RAW s /\ repr s l.
Proof.
  intros Hl Ht Hrc Hi.
  destruct (try_encoding_spec uninit long_bits Hl lru integers o l Ht ltac:(lia) Hi)
    as (r & integers' & o' & E & Hi' & Hr & Ht' & Hv).
  destruct (decoded_spec uninit o' l Ht') as (o'' & s & Ed & Es & Hs).
  exists r, integers', o', o'', s. split_and!; try done. intros v Hv1 Hv2. by apply Hv.
Qed.

(** The table [createSharedObjects] builds, and the object "-7". *)
Definition integers0 : list robj := (fun v => createObject (ENC_INT (Z.of_nat v))) <$> seq 0 (Z.to_nat REDIS_SHARED_INTEGERS).
Definition minus7 : robj := createObject (ENC_RAW (Sdshdr 2 1 [45; 55; 0; 9])).

Lemma integers0_ok : integers_ok integers0.
Proof.
  unfold integers_ok, integers0. split; [by rewrite length_fmap, length_seq|].
  intros v o. unfold rd. destruct (Z.ltb_spec v 0); [done|]. rewrite list_lookup_fmap.
  destruct (seq 0 (Z.to_nat REDIS_SHARED_INTEGERS) !! Z.to_nat v) as [k|] eqn:E; [|done]. apply lookup_seq in E as [-> _].
  intros [= <-]. cbn. f_equal. lia.
Qed.

Lemma minus7_text : has_text minus7 [45; 55].
Proof. by exists [9]. Qed.

Lemma string_objects_compare_witness :
  (exists r, compareStringObjects (fun _ => 0) minus7 (createObject (ENC_INT (-70))) = Some r /\
     (r ?= 0) = lex [45; 55] (dec (-70))) /\
  equalStringObjects (fun _ => 0) minus7 (createObject (ENC_INT (-70))) = Some (bool_decide ([45; 55] = dec (-70))).
Proof.
  apply (string_objects_compare _ minus7 (createObject (ENC_INT (-70)))); [apply minus7_text|].
  split; [unfold in_s; lia|done].
Defined.

Lemma tryObjectEncoding_keeps_text_witness :
  exists r integers' o' o'' s, tryObjectEncoding (fun _ => 0) 64 false integers0 minus7 = Some (r, integers') /\
    integers_ok integers' /\ result_object r integers' = Some o' /\ has_text o' [45; 55] /\
    (forall v, in_s 64 v -> [45; 55] = dec v -> o_ptr o' = ENC_INT v) /\
    getDecodedObject (fun _ => 0) o' = Some o'' /\ o_ptr o'' = ENC_RAW s /\ repr s [45; 55].
Proof.
  apply (tryObjectEncoding_keeps_text (fun _ => 0) 64 false integers0 minus7 [45; 55]);
    [lia|apply minus7_text|done|apply integers0_ok].
Defined.

(** ** Numbers are read back *)
Lemma read_digits_spec ds : forall n pre c t acc,
  Forall digit ds -> is_digit c = false -> (length ds < n)%nat ->
  read_digits n (pre ++ ds ++ c :: t) (zlen pre) acc = Some (dvalue acc ds, zlen pre + zlen ds).
Proof.
  induction ds as [|d ds IH]; intros n pre c t acc Hd Hc Hn; destruct n as [|n]; try (cbn in Hn; lia);
    cbn [read_digits app]; rewrite rd_app by done; osimpl.
  - rewrite Hc. f_equal. f_equal. cbn. lia.
  - apply Forall_cons_1 in Hd as [Hd1 Hd]. assert (is_digit d = true) as ->
      by (unfold digit in Hd1; unfold is_digit, c_0, c_9 in *; lia).
    rewrite (app_cons_mid pre d). replace (zlen pre + 1) with (zlen (pre ++ [d])) by (rewrite length_app; cbn; lia).
    rewrite IH by (done || (cbn in Hn; lia)). rewrite length_app. cbn [length]. f_equal. f_equal. lia.
Qed.

Lemma strtoll_dec v t : in_s 64 v -> strtoll (dec v ++ 0 :: t) = Some (v, zlen (dec v), false).
Proof.
  unfold in_s. change (2 ^ (64 - 1)) with (2 ^ 63). intros Hv. unfold strtoll.
  assert (forall u, 0 <= u <= 2 ^ 63 -> exists c ds, udec 20 u = c :: ds /\ digit c /\ Forall digit (udec 20 u) /\
    dvalue 0 (udec 20 u) = u) as Hu.
  { intros u Hu. pose proof (udec_digits 20 u ltac:(lia)) as Hd.
    assert (10 ^ Z.of_nat 20 = 100000000000000000000) as E10 by done.
    pose proof (udec_value 19 u ltac:(lia)) as Hval. destruct (digits10_udec u) as [_ Hl]; [lia|].
    destruct (udec 20 u) as [|c ds] eqn:E; [cbn in Hl; lia|]. exists c, ds.
    split; [reflexivity|]. split; [exact (proj1 (Forall_cons_1 _ _ _ Hd))|]. split; [exact Hd|exact Hval]. }
  unfold dec. destruct (Z.ltb_spec v 0) as [Hn|Hn].
  - destruct (Hu (- v)) as (c & ds & E & Hc & Hd & Hval); [lia|].
    assert (skip_space (length ((c_minus :: udec 20 (- v)) ++ 0 :: t)) ((c_minus :: udec 20 (- v)) ++ 0 :: t) 0 = Some 0) as ->
      by (cbn [app length skip_space]; by rewrite rd_0).
    osimpl. cbn [app]. rewrite rd_0. osimpl.
    pose proof (read_digits_spec (udec 20 (- v)) (length (c_minus :: udec 20 (- v) ++ 0 :: t)) [c_minus] 0 t 0 Hd eq_refl) as Er.
    cbn [app] in Er. change (zlen [c_minus]) with 1 in Er.
    change (c_minus =? 45) with true. cbn [orb]. change (0 + 1) with 1.
    rewrite Er by (cbn [length]; rewrite length_app; cbn; lia). osimpl.
    rewrite (proj2 (Z.eqb_neq _ _)) by (rewrite E; cbn [length]; lia). rewrite Hval.
    rewrite Z.opp_involutive, (proj2 (Z.ltb_ge _ _)), (proj2 (Z.leb_gt _ _)) by lia. f_equal. f_equal. f_equal. cbn [length]. lia.
  - destruct (Hu v) as (c & ds & E & Hc & Hd & Hval); [lia|]. unfold digit, c_0, c_9 in Hc.
    assert (SdsText.isspace c = false) as Hsp by (unfold SdsText.isspace; lia).
    assert (skip_space (length (udec 20 v ++ 0 :: t)) (udec 20 v ++ 0 :: t) 0 = Some 0) as ->
      by (rewrite E; cbn [app length skip_space]; rewrite rd_0; osimpl; by rewrite Hsp).
    osimpl. replace (rd (udec 20 v ++ 0 :: t) 0) with (Some c) by (rewrite E; done).
    osimpl. rewrite (proj2 (Z.eqb_neq c 45)), (proj2 (Z.eqb_neq c 43)) by lia. cbn [orb].
    pose proof (read_digits_spec (udec 20 v) (length (udec 20 v ++ 0 :: t)) [] 0 t 0 Hd eq_refl) as Er.
    cbn [app] in Er. change (zlen []) with 0 in Er. rewrite Er by (rewrite length_app; cbn; lia). osimpl.
    rewrite (proj2 (Z.eqb_neq _ _)) by (rewrite E; cbn [length]; lia). rewrite Hval.
    rewrite (proj2 (Z.ltb_ge _ _)), (proj2 (Z.leb_gt _ _)) by lia. f_equal.
Qed.

Lemma dec_head v : in_s 64 v -> exists c ds, dec v = c :: ds /\ SdsText.isspace c = false.
Proof.
  intros Hv. pose proof (dec_length v Hv) as Hl. unfold dec in *. destruct (v <? 0) eqn:Ev; [by eexists _, _|].
  pose proof (udec_digits 20 v ltac:(lia)) as Hd. destruct (udec 20 v) as [|c ds]; [cbn in Hl; lia|].
  exists c, ds. split; [done|]. apply Forall_cons_1 in Hd as [Hc _]. unfold digit, c_0, c_9 in Hc. unfold SdsText.isspace. lia.
Qed.

(** The number that [getLongLongFromObject] reads is the one whose text the
    object has. *)
Lemma getLongLong_dec o v : in_s 64 v -> has_text o (dec v) -> getLongLongFromObject o = Some (Some v).
Proof.
  intros Hv. unfold has_text, getLongLongFromObject. destruct (o_ptr o) as [s|w].
  - intros (t & -> & _). cbn [buf]. rewrite strtoll_dec by done. osimpl.
    destruct (dec_head v Hv) as (c & ds & E & Hc).
    replace (rd (dec v ++ 0 :: t) 0) with (Some c) by (rewrite E; done). osimpl.
    rewrite rd_app by done. osimpl. by rewrite Hc.
  - intros [Hw E]. f_equal. f_equal. apply (f_equal (fun x => strtoll (x ++ [0]))) in E.
    rewrite !strtoll_dec in E by done. by injection E.
Qed.

End Object.
