(* ===== verification/Double.v ===== *)
(** * Scores: IEEE 754 doubles and their order

    The scores of sorted sets are C [double]s. The code compares them with the
    relational operators and excludes NaN. They are modelled by the Standard
    Library's [spec_float], whose comparison is that of the standard; [key]
    embeds the numbers in a lexicographic order, from which the order laws
    follow. *)
From stdpp Require Import base tactics numbers.
From Stdlib Require Import ZArith Lia Floats.SpecFloat.
Open Scope Z_scope.

Module Double.

Definition double := spec_float.

Definition dlt (x y : double) : bool := SFltb x y.
Definition dle (x y : double) : bool := SFleb x y.
Definition deq (x y : double) : bool := SFeqb x y.
Definition isnan (x : double) : bool := match x with S754_nan => true | _ => false end.

(** Class of the number from -2 (minus infinity) to 2, then exponent and
    mantissa, negated for negative numbers. *)
Definition key (x : double) : Z * Z * Z :=
  match x with
  | S754_zero _ => (0, 0, 0)
  | S754_infinity s => (if s then -2 else 2, 0, 0)
  | S754_nan => (3, 0, 0)
  | S754_finite false m e => (1, e, Zpos m)
  | S754_finite true m e => (-1, - e, - Zpos m)
  end.

Definition kcompare (a b : Z * Z * Z) : comparison :=
  let '(a1, a2, a3) := a in
  let '(b1, b2, b3) := b in
  match a1 ?= b1 with
  | Eq => match a2 ?= b2 with Eq => a3 ?= b3 | c => c end
  | c => c
  end.

Lemma compare_key x y :
  isnan x = false -> isnan y = false -> SFcompare x y = Some (kcompare (key x) (key y)).
Proof.
  destruct x as [sx|sx| |[] mx ex], y as [sy|sy| |[] my ey]; try done; intros _ _; cbn;
    try (by destruct sx); try (by destruct sy); try (by destruct sx, sy).
  f_equal. rewrite !Z.compare_opp, (Z.compare_antisym ey ex). destruct (ey ?= ex); cbn; try done.
  change (Pos.compare_cont Eq mx my) with (Pos.compare mx my).
  rewrite <- Pos.compare_antisym. done.
Qed.

(** The comparisons are those of the keys. *)
Lemma dlt_key x y : isnan x = false -> isnan y = false ->
  dlt x y = match kcompare (key x) (key y) with Lt => true | _ => false end.
Proof. intros Hx Hy. unfold dlt, SFltb. by rewrite compare_key. Qed.

Lemma dle_key x y : isnan x = false -> isnan y = false ->
  dle x y = match kcompare (key x) (key y) with Gt => false | _ => true end.
Proof. intros Hx Hy. unfold dle, SFleb. rewrite compare_key by done. by destruct (kcompare _ _). Qed.

Lemma deq_key x y : isnan x = false -> isnan y = false ->
  deq x y = match kcompare (key x) (key y) with Eq => true | _ => false end.
Proof. intros Hx Hy. unfold deq, SFeqb. by rewrite compare_key. Qed.

(** ** The order of the keys is total *)
Ltac kcases :=
  repeat match goal with
    | a : (Z * Z * Z)%type |- _ => destruct a as [[? ?] ?]
    end;
  unfold kcompare in *;
  repeat match goal with
    | |- context [?x ?= ?y] => destruct (Z.compare_spec x y)
    | H : context [?x ?= ?y] |- _ => destruct (Z.compare_spec x y)
    end; subst; try done; try lia.

Lemma kcompare_Eq a b : kcompare a b = Eq <-> a = b.
Proof.
  split; [kcases|]. intros ->. kcases.
Qed.

Lemma kcompare_antisym a b : kcompare b a = CompOpp (kcompare a b).
Proof. kcases. Qed.

Lemma kcompare_trans c a b d : kcompare a b = c -> kcompare b d = c -> kcompare a d = c.
Proof. intros <-. kcases. Qed.

End Double.
