(* ===== verification/Skiplist.v ===== *)
(** * Skip lists of sorted sets (src/redis-2.8/src/t_zset.c, redis.h)

    Nodes live in a heap, as in [Adlist]. A node of height [k] has [k] forward
    pointers with their spans, the number of elements each one crosses. *)
From stdpp Require Import base tactics list numbers option gmap fin_maps fin_map_dom sorting.
From Stdlib Require Import ZArith Lia.
From S2P Require Import Prelude Sds Object Double.
Import CInt CMem Object Double.
Open Scope Z_scope.

Module Skiplist.

Definition ZSKIPLIST_MAXLEVEL : nat := 32.

Definition loc : Type := positive.
Definition ptr : Type := option loc.

Record zskiplistLevel := Level { forward : ptr; span : Z }.

(** The header is the only node without an object. *)
Record zskiplistNode (Ob : Type) := Node {
  obj : option Ob;
  score : double;
  backward : ptr;
  level : list zskiplistLevel
}.
Arguments Node {Ob}.
Arguments obj {Ob}.
Arguments score {Ob}.
Arguments backward {Ob}.
Arguments level {Ob}.

Record zskiplist := Zskiplist { header : loc; tail : ptr; zlength : Z; zlevel : nat }.

Record zrangespec := Zrangespec { min : double; max : double; minex : bool; maxex : bool }.

(** A bound of a lexicographic range: the shared objects [minstring] and
    [maxstring], which are compared by their addresses, or a string. *)
Inductive lexbound (Ob : Type) := MinString | MaxString | Bound (o : Ob).
Arguments MinString {Ob}.
Arguments MaxString {Ob}.
Arguments Bound {Ob}.

Record zlexrangespec (Ob : Type) := Zlexrangespec {
  lmin : lexbound Ob; lmax : lexbound Ob; lminex : bool; lmaxex : bool }.
Arguments Zlexrangespec {Ob}.
Arguments lmin {Ob}.
Arguments lmax {Ob}.
Arguments lminex {Ob}.
Arguments lmaxex {Ob}.

Section Skiplists.
Context {Ob : Type} `{StringObjects Ob}.
Abbreviation node := (zskiplistNode Ob).
Abbreviation heap := (gmap loc (zskiplistNode Ob)).
Implicit Types (h : heap) (z : zskiplist) (x : loc).

(** ** Access to the nodes *)
Definition set_level h x (i : nat) (l : zskiplistLevel) : option heap :=
  n ← h !! x;
  if (i <? length (level n))%nat then
    Some (<[x := Node (obj n) (score n) (backward n) (<[i := l]> (level n))]> h)
  else None.

Definition get_level h x (i : nat) : option zskiplistLevel := n ← h !! x; level n !! i.

Definition set_backward h x (b : ptr) : option heap :=
  n ← h !! x; Some (<[x := Node (obj n) (score n) b (level n)]> h).

(** [for (i = from; i < from+n; i++)] *)
Fixpoint for_levels (n from : nat) (f : nat -> heap -> option heap) h : option heap :=
  match n with
  | O => Some h
  | S n => h ← f from h; for_levels n (S from) f h
  end.

(** ** Creation *)
Section Create.
Context (zmalloc : heap -> loc) (junk : zskiplistLevel).

Definition zslCreateNode h (lv : nat) (s : double) (o : option Ob) : heap * loc :=
  let zn := zmalloc h in
  (<[zn := Node o s (forward junk) (replicate lv junk)]> h, zn).

Definition zslCreate h : option (heap * zskiplist) :=
  let '(h, zn) := zslCreateNode h ZSKIPLIST_MAXLEVEL (SpecFloat.S754_zero false) None in
  h ← for_levels ZSKIPLIST_MAXLEVEL 0 (fun j h => set_level h zn j (Level None 0)) h;
  h ← set_backward h zn None;
  Some (h, Zskiplist zn None 0 1).

End Create.

(** The draws of [random] are consumed from a list; 0.25 * 0xFFFF is
    16383.75. *)
Fixpoint random_level (draws : list Z) (lv : nat) : option (nat * list Z) :=
  match draws with
  | [] => None
  | r :: draws => if 4 * Z.land r 65535 <? 65535 then random_level draws (S lv) else Some (lv, draws)
  end.

Definition zslRandomLevel (draws : list Z) : option (nat * list Z) :=
  '(lv, draws) ← random_level draws 1;
  Some (if (lv <? ZSKIPLIST_MAXLEVEL)%nat then lv else ZSKIPLIST_MAXLEVEL, draws).

(** ** The search

    [while (x->level[i].forward && go(x->level[i].forward))]: every search of
    the code has this form. [rank] is what has been crossed, [go] may look at
    what would be crossed with the next step. [bits] is the width of the
    counter. *)
Fixpoint advance (bits : Z) (fuel : nat) h (go : Z -> node -> option bool) (i : nat) x (rank : Z)
  : option (loc * Z) :=
  match fuel with
  | O => None
  | S fuel =>
      lv ← get_level h x i;
      match forward lv with
      | None => Some (x, rank)
      | Some f =>
          fn ← h !! f;
          let rank' := wrap bits (rank + span lv) in
          b ← go rank' fn;
          if b : bool then advance bits fuel h go i f rank' else Some (x, rank)
      end
  end.

(** [for (i = zsl->level-1; i >= 0; i--)] around the search. The list holds
    [update[i]] and [rank[i]]. *)
Fixpoint descend (bits : Z) (fuel : nat) h (go : Z -> node -> option bool) (i : nat) x (rank : Z)
  : option (loc * Z * list (loc * Z)) :=
  match i with
  | O => Some (x, rank, [])
  | S i =>
      '(x, rank) ← advance bits fuel h go i x rank;
      '(x', rank', update) ← descend bits fuel h go i x rank;
      Some (x', rank', update ++ [(x, rank)])
  end.

Definition search (bits : Z) h z (go : Z -> node -> option bool) : option (loc * Z * list (loc * Z)) :=
  descend bits (S (Z.to_nat (zlength z))) h go (zlevel z) (header z) 0.

(** The condition of [zslInsert] and [zslDelete] with [strict], of
    [zslGetRank] without. *)
Definition node_before (strict : bool) (s : double) (o : Ob) (n : node) : option bool :=
  if dlt (score n) s then Some true
  else if deq (score n) s then
    no ← obj n; c ← so_compare no o; Some (if strict then c <? 0 else c <=? 0)
  else Some false.

(** ** Insertion *)
Definition raise_level h z (lv : nat) (update : list (loc * Z)) : option (heap * list (loc * Z)) :=
  if (zlevel z <? lv)%nat then
    h ← for_levels (lv - zlevel z) (zlevel z) (fun i h =>
          l ← get_level h (header z) i; set_level h (header z) i (Level (forward l) (zlength z))) h;
    Some (h, update ++ replicate (lv - zlevel z) (header z, 0))
  else Some (h, update).

Definition link_level (update : list (loc * Z)) (rank0 : Z) x (i : nat) h : option heap :=
  '(u, rank) ← update !! i;
  l ← get_level h u i;
  h ← set_level h x i (Level (forward l) (wrap 32 (span l - (rank0 - rank))));
  set_level h u i (Level (Some x) (wrap 32 (rank0 - rank + 1))).

Definition grow_span (update : list (loc * Z)) (i : nat) h : option heap :=
  '(u, _) ← update !! i;
  l ← get_level h u i;
  set_level h u i (Level (forward l) (wrap 32 (span l + 1))).

Definition zslInsert (zmalloc : heap -> loc) (junk : zskiplistLevel) h z (s : double) (o : Ob) (draws : list Z)
  : option (heap * zskiplist * loc * list Z) :=
  if isnan s then None
  else
    '(_, _, update) ← search 32 h z (fun _ n => node_before true s o n);
    '(lv, draws) ← zslRandomLevel draws;
    '(h, update) ← raise_level h z lv update;
    let zl := Nat.max (zlevel z) lv in
    let '(h, x) := zslCreateNode zmalloc junk h lv s (Some o) in
    '(u0, rank0) ← update !! 0%nat;
    h ← for_levels lv 0 (link_level update rank0 x) h;
    h ← for_levels (zl - lv) lv (grow_span update) h;
    h ← set_backward h x (if bool_decide (u0 = header z) then None else Some u0);
    l0 ← get_level h x 0;
    '(h, tl) ← match forward l0 with
               | Some f => h ← set_backward h f (Some x); Some (h, tail z)
               | None => Some (h, Some x)
               end;
    Some (h, Zskiplist (header z) tl (zlength z + 1) zl, x, draws).

(** ** Deletion *)
Definition unlink_level x (update : list (loc * Z)) (i : nat) h : option heap :=
  '(u, _) ← update !! i;
  l ← get_level h u i;
  if bool_decide (forward l = Some x) then
    lx ← get_level h x i;
    set_level h u i (Level (forward lx) (wrap 32 (span l + (span lx - 1))))
  else set_level h u i (Level (forward l) (wrap 32 (span l - 1))).

(** [while(zsl->level > 1 && zsl->header->level[zsl->level-1].forward == NULL)] *)
Fixpoint lower_level h x (lv : nat) : option nat :=
  match lv with
  | S (S lv' as lv1) =>
      l ← get_level h x lv1;
      match forward l with None => lower_level h x lv1 | Some _ => Some lv end
  | _ => Some lv
  end.

Definition zslDeleteNode h z x (update : list (loc * Z)) : option (heap * zskiplist) :=
  h ← for_levels (zlevel z) 0 (unlink_level x update) h;
  n ← h !! x;
  l0 ← get_level h x 0;
  '(h, tl) ← match forward l0 with
             | Some f => h ← set_backward h f (backward n); Some (h, tail z)
             | None => Some (h, backward n)
             end;
  lv ← lower_level h (header z) (zlevel z);
  Some (h, Zskiplist (header z) tl (zlength z - 1) lv).

(** [zslFreeNode] releases the object and the node. *)
Definition zslFreeNode h x : option (heap * Ob) :=
  n ← h !! x; o ← obj n; Some (delete x h, o).

(** The last component is the object that was released. *)
Definition zslDelete h z (s : double) (o : Ob) : option (heap * zskiplist * option Ob) :=
  '(x, _, update) ← search 32 h z (fun _ n => node_before true s o n);
  l0 ← get_level h x 0;
  match forward l0 with
  | None => Some (h, z, None)
  | Some x =>
      n ← h !! x;
      no ← obj n;
      e ← (if deq s (score n) then so_equal no o else Some false);
      if e : bool then
        '(h, z) ← zslDeleteNode h z x update;
        '(h, freed) ← zslFreeNode h x;
        Some (h, z, Some freed)
      else Some (h, z, None)
  end.

(** ** Ranges of scores *)
Definition zslValueGteMin (value : double) (spec : zrangespec) : bool :=
  if minex spec then dlt (min spec) value else dle (min spec) value.

Definition zslValueLteMax (value : double) (spec : zrangespec) : bool :=
  if maxex spec then dlt value (max spec) else dle value (max spec).

(** The first element after node [x]. *)
Definition forward0 h x : option ptr := l ← get_level h x 0; Some (forward l).

(** Whether the node, if any, passes a test. *)
Definition ptr_test h (p : ptr) (test : node -> option bool) : option bool :=
  match p with
  | None => Some false
  | Some x => n ← h !! x; test n
  end.

Definition zslIsInRange h z (range : zrangespec) : option bool :=
  if dlt (max range) (min range) || (deq (min range) (max range) && (minex range || maxex range))
  then Some false
  else
    t ← ptr_test h (tail z) (fun n => Some (zslValueGteMin (score n) range));
    if t : bool then
      f ← forward0 h (header z);
      ptr_test h f (fun n => Some (zslValueLteMax (score n) range))
    else Some false.

Definition zslFirstInRange h z (range : zrangespec) : option ptr :=
  b ← zslIsInRange h z range;
  if b : bool then
    '(x, _, _) ← search 64 h z (fun _ n => Some (negb (zslValueGteMin (score n) range)));
    f ← forward0 h x;
    x ← f;
    n ← h !! x;
    Some (if zslValueLteMax (score n) range then Some x else None)
  else Some None.

Definition zslLastInRange h z (range : zrangespec) : option ptr :=
  b ← zslIsInRange h z range;
  if b : bool then
    '(x, _, _) ← search 64 h z (fun _ n => Some (zslValueLteMax (score n) range));
    n ← h !! x;
    Some (if zslValueGteMin (score n) range then Some x else None)
  else Some None.

(** ** Ranges of strings *)
Definition compareStringObjectsForLexRange (a b : lexbound Ob) : option Z :=
  match a, b with
  | MinString, MinString | MaxString, MaxString => Some 0
  | MinString, _ | _, MaxString => Some (-1)
  | MaxString, _ | _, MinString => Some 1
  | Bound x, Bound y => so_compare x y
  end.

Definition zslLexValueGteMin (value : Ob) (spec : zlexrangespec Ob) : option bool :=
  c ← compareStringObjectsForLexRange (Bound value) (lmin spec);
  Some (if lminex spec then 0 <? c else 0 <=? c).

Definition zslLexValueLteMax (value : Ob) (spec : zlexrangespec Ob) : option bool :=
  c ← compareStringObjectsForLexRange (Bound value) (lmax spec);
  Some (if lmaxex spec then c <? 0 else c <=? 0).

Definition node_gte_lex (spec : zlexrangespec Ob) (n : node) : option bool :=
  o ← obj n; zslLexValueGteMin o spec.

Definition node_lte_lex (spec : zlexrangespec Ob) (n : node) : option bool :=
  o ← obj n; zslLexValueLteMax o spec.

(** The quick test looks at the objects of the bounds. *)
Section LexRanges.
Context (minstring maxstring : Ob).

Definition bound_object (b : lexbound Ob) : Ob :=
  match b with MinString => minstring | MaxString => maxstring | Bound o => o end.

Definition zslIsInLexRange h z (range : zlexrangespec Ob) : option bool :=
  c ← compareStringObjectsForLexRange (lmin range) (lmax range);
  e ← (if 1 <? c then Some true
       else c ← so_compare (bound_object (lmin range)) (bound_object (lmax range));
            Some ((c =? 0) && (lminex range || lmaxex range)));
  if e : bool then Some false
  else
    t ← ptr_test h (tail z) (node_gte_lex range);
    if t : bool then f ← forward0 h (header z); ptr_test h f (node_lte_lex range)
    else Some false.

Definition zslFirstInLexRange h z (range : zlexrangespec Ob) : option ptr :=
  b ← zslIsInLexRange h z range;
  if b : bool then
    '(x, _, _) ← search 64 h z (fun _ n => b ← node_gte_lex range n; Some (negb b));
    f ← forward0 h x;
    x ← f;
    n ← h !! x;
    b ← node_lte_lex range n;
    Some (if b : bool then Some x else None)
  else Some None.

Definition zslLastInLexRange h z (range : zlexrangespec Ob) : option ptr :=
  b ← zslIsInLexRange h z range;
  if b : bool then
    '(x, _, _) ← search 64 h z (fun _ n => node_lte_lex range n);
    n ← h !! x;
    b ← node_gte_lex range n;
    Some (if b : bool then Some x else None)
  else Some None.

End LexRanges.

(** ** Deletion of ranges

    [while (x && cond)]: the objects are those passed to [dictDelete] and
    released. [k] counts the nodes as [traversed] does. *)
Fixpoint delete_while (fuel : nat) h z (p : ptr) (update : list (loc * Z))
    (cond : Z -> node -> option bool) (k : Z) : option (heap * zskiplist * list Ob) :=
  match fuel with
  | O => None
  | S fuel =>
      match p with
      | None => Some (h, z, [])
      | Some x =>
          n ← h !! x;
          b ← cond k n;
          if b : bool then
            nxt ← forward0 h x;
            '(h, z) ← zslDeleteNode h z x update;
            '(h, o) ← zslFreeNode h x;
            '(h, z, removed) ← delete_while fuel h z nxt update cond (k + 1);
            Some (h, z, o :: removed)
          else Some (h, z, [])
      end
  end.

Definition delete_from h z (go : Z -> node -> option bool) (cond : Z -> node -> option bool)
  : option (heap * zskiplist * list Ob) :=
  '(x, traversed, update) ← search 64 h z go;
  f ← forward0 h x;
  delete_while (S (Z.to_nat (zlength z))) h z f update cond (traversed + 1).

Definition zslDeleteRangeByScore h z (range : zrangespec) : option (heap * zskiplist * list Ob) :=
  delete_from h z
    (fun _ n => Some (if minex range then dle (score n) (min range) else dlt (score n) (min range)))
    (fun _ n => Some (if maxex range then dlt (score n) (max range) else dle (score n) (max range))).

Definition zslDeleteRangeByLex h z (range : zlexrangespec Ob) : option (heap * zskiplist * list Ob) :=
  delete_from h z (fun _ n => b ← node_gte_lex range n; Some (negb b)) (fun _ n => node_lte_lex range n).

Definition zslDeleteRangeByRank h z (start fin : Z) : option (heap * zskiplist * list Ob) :=
  delete_from h z (fun traversed _ => Some (traversed <? start)) (fun traversed _ => Some (traversed <=? fin)).

(** ** Ranks *)
Fixpoint rank_loop (i fuel : nat) h x (rank : Z) (s : double) (o : Ob) : option Z :=
  match i with
  | O => Some 0
  | S i =>
      '(x, rank) ← advance 64 fuel h (fun _ n => node_before false s o n) i x rank;
      n ← h !! x;
      e ← match obj n with None => Some false | Some no => so_equal no o end;
      if e : bool then Some rank else rank_loop i fuel h x rank s o
  end.

Definition zslGetRank h z (s : double) (o : Ob) : option Z :=
  rank_loop (zlevel z) (S (Z.to_nat (zlength z))) h (header z) 0 s o.

(** [Some None] is the null pointer. *)
Fixpoint element_loop (i fuel : nat) h x (traversed rank : Z) : option ptr :=
  match i with
  | O => Some None
  | S i =>
      '(x, traversed) ← advance 64 fuel h (fun t _ => Some (t <=? rank)) i x traversed;
      if traversed =? rank then Some (Some x) else element_loop i fuel h x traversed rank
  end.

Definition zslGetElementByRank h z (rank : Z) : option ptr :=
  element_loop (zlevel z) (S (Z.to_nat (zlength z))) h (header z) 0 rank.

(** ** What a skip list represents

    The elements in order, with the location and the height of their nodes. *)
Record item := Item { i_loc : loc; i_score : double; i_obj : Ob; i_height : nat }.
Implicit Types (it : item) (l : list item) (L A B T : list item).

Definition locs l : list loc := i_loc <$> l.

(** What a node followed by [l] must hold at level [i]: the first element that
    is high enough, and how many elements away it is. Without such an element
    the span counts all of [l]. *)
Fixpoint fwd (i : nat) l : zskiplistLevel :=
  match l with
  | [] => Level None 0
  | it :: l =>
      if (i <? i_height it)%nat then Level (Some (i_loc it)) 1
      else Level (forward (fwd i l)) (span (fwd i l) + 1)
  end.

Definition low (i : nat) it : Prop := (i_height it <= i)%nat.

(** The data of a node apart from its levels. *)
Definition info h x : option (option Ob * double * ptr * nat) :=
  n ← h !! x; Some (obj n, score n, backward n, length (level n)).

(** The order of the elements. *)
Definition item_cmp (s1 : double) (o1 : Ob) (s2 : double) (o2 : Ob) : comparison :=
  match kcompare (key s1) (key s2) with
  | Eq => Sds.lex (so_text o1) (so_text o2)
  | c => c
  end.

Definition ilt (a b : item) : Prop := item_cmp (i_score a) (i_obj a) (i_score b) (i_obj b) = Lt.

Definition item_ok it : Prop :=
  (1 <= i_height it <= ZSKIPLIST_MAXLEVEL)%nat /\ so_valid (i_obj it) /\ isnan (i_score it) = false.

Fixpoint items_in h (prev : ptr) l : Prop :=
  match l with
  | [] => True
  | it :: l =>
      info h (i_loc it) = Some (Some (i_obj it), i_score it, prev, i_height it) /\
      (forall i, (i < i_height it)%nat -> get_level h (i_loc it) i = Some (fwd i l)) /\
      items_in h (Some (i_loc it)) l
  end.

Definition max_height l : nat := foldr (fun it m => Nat.max (i_height it) m) 1%nat l.

Definition last_loc (d : ptr) l : ptr := match last l with Some it => Some (i_loc it) | None => d end.

(** The nodes of a list with header [hd] that uses [zl] levels. *)
Record nodes h (hd : loc) (zl : nat) L : Prop := {
  n_nodup : NoDup (hd :: locs L);
  n_items : items_in h None L;
  n_ok : Forall item_ok L;
  n_header : exists s b, info h hd = Some (None, s, b, ZSKIPLIST_MAXLEVEL);
  n_levels : forall i, (i < zl)%nat -> get_level h hd i = Some (fwd i L);
  n_above : forall i, (zl <= i < ZSKIPLIST_MAXLEVEL)%nat ->
    exists lv, get_level h hd i = Some lv /\ forward lv = None;
  n_low : Forall (low zl) L
}.

Record repr h z L : Prop := {
  r_nodes : nodes h (header z) (zlevel z) L;
  r_tail : tail z = last_loc None L;
  r_length : zlength z = zlen L;
  r_level : zlevel z = max_height L;
  r_sorted : StronglySorted ilt L;
  r_small : zlen L < 2 ^ 32 - 1
}.

(** ** Levels *)
Lemma fwd_spec i l :
  (Forall (low i) l /\ fwd i l = Level None (zlen l)) \/
  exists l1 it l2, l = l1 ++ it :: l2 /\ Forall (low i) l1 /\ (i < i_height it)%nat /\
    fwd i l = Level (Some (i_loc it)) (zlen l1 + 1).
Proof.
  induction l as [|it l IH]; [by left|]. cbn [fwd].
  destruct (Nat.ltb_spec i (i_height it)) as [Hi|Hi].
  { right. exists [], it, l. by split_and!. }
  destruct IH as [[Hl ->]|(l1 & it' & l2 & -> & Hl & Hi' & ->)]; cbn [forward span].
  - left. split; [by constructor|]. f_equal. cbn [length]. lia.
  - right. exists (it :: l1), it', l2. split_and!; [done|by constructor|done|]. f_equal. cbn [length]. lia.
Qed.

Lemma fwd_low i l : Forall (low i) l -> fwd i l = Level None (zlen l).
Proof.
  intros Hl. destruct (fwd_spec i l) as [[_ E]|(l1 & it & l2 & -> & _ & Hi & _)]; [done|].
  apply Forall_app in Hl as [_ Hl]. apply Forall_cons_iff in Hl as [Hit _]. unfold low in Hit. lia.
Qed.

Lemma fwd_None i l : forward (fwd i l) = None -> Forall (low i) l.
Proof.
  intros Hn. destruct (fwd_spec i l) as [[Hl _]|(l1 & it & l2 & -> & _ & Hi & E)]; [done|]. by rewrite E in Hn.
Qed.

Lemma fwd_skip i T l : Forall (low i) T -> fwd i (T ++ l) = Level (forward (fwd i l)) (zlen T + span (fwd i l)).
Proof.
  induction 1 as [|it T Hit HT IH]; [cbn; by destruct (fwd i l)|]. cbn [app fwd].
  destruct (Nat.ltb_spec i (i_height it)); [unfold low in Hit; lia|].
  rewrite IH. cbn [forward span length]. f_equal. lia.
Qed.

Lemma fwd_hit i T it l : Forall (low i) T -> (i < i_height it)%nat ->
  fwd i (T ++ it :: l) = Level (Some (i_loc it)) (zlen T + 1).
Proof.
  intros HT Hi. rewrite fwd_skip by done. cbn [fwd]. by rewrite (proj2 (Nat.ltb_lt _ _)).
Qed.

(** An element that is high enough hides what follows it. *)
Lemma fwd_hidden i l B B' : ~ Forall (low i) l -> fwd i (l ++ B) = fwd i (l ++ B').
Proof.
  intros Hn. induction l as [|it l IH]; [destruct Hn; by constructor|]. cbn [app fwd].
  destruct (Nat.ltb_spec i (i_height it)); [done|]. rewrite IH; [done|].
  intros Hl. apply Hn. by constructor.
Qed.

Lemma fwd_span_bound i l : 0 <= span (fwd i l) <= zlen l.
Proof.
  destruct (fwd_spec i l) as [[_ ->]|(l1 & it & l2 & -> & _ & _ & ->)]; cbn [span]; [lia|].
  rewrite length_app. cbn [length]. lia.
Qed.

Lemma fwd_in i l x : forward (fwd i l) = Some x -> x ∈ locs l.
Proof.
  destruct (fwd_spec i l) as [[_ ->]|(l1 & it & l2 & -> & _ & _ & ->)]; [done|]. intros [= <-].
  unfold locs. rewrite fmap_app. apply elem_of_app. right. apply list_elem_of_here.
Qed.

#[local] Instance low_dec i it : Decision (low i it).
Proof. unfold low. apply _. Defined.

(** ** Access *)
Lemma set_level_spec h x i (lv v : zskiplistLevel) :
  get_level h x i = Some v ->
  exists h', set_level h x i lv = Some h' /\ (forall y, info h' y = info h y) /\
    (forall y j, get_level h' y j = if bool_decide (y = x /\ j = i) then Some lv else get_level h y j).
Proof.
  unfold set_level, get_level, info. intros Hv. destruct (h !! x) as [n|] eqn:Hx; [|done]. cbn [mbind option_bind] in Hv |- *.
  pose proof (lookup_lt_Some _ _ _ Hv) as Hi. rewrite (proj2 (Nat.ltb_lt _ _)) by done.
  eexists. split; [done|]. split.
  - intros y. destruct (decide (y = x)) as [->|Hne].
    + rewrite lookup_insert_eq, Hx. cbn. by rewrite length_insert.
    + by rewrite lookup_insert_ne by done.
  - intros y j. destruct (decide (y = x)) as [->|Hne].
    + rewrite lookup_insert_eq, Hx. cbn. destruct (decide (j = i)) as [->|Hj].
      * rewrite list_lookup_insert_eq by done. by rewrite bool_decide_eq_true_2.
      * rewrite list_lookup_insert_ne by done. by rewrite bool_decide_eq_false_2 by naive_solver.
    + rewrite lookup_insert_ne by done. by rewrite bool_decide_eq_false_2 by naive_solver.
Qed.

Lemma set_backward_spec h x b o s b0 k :
  info h x = Some (o, s, b0, k) ->
  exists h', set_backward h x b = Some h' /\
    (forall y, info h' y = if bool_decide (y = x) then Some (o, s, b, k) else info h y) /\
    (forall y j, get_level h' y j = get_level h y j).
Proof.
  unfold set_backward, get_level, info. intros Hv. destruct (h !! x) as [n|] eqn:Hx; [|done].
  cbn in Hv |- *. injection Hv as <- <- <- <-. eexists. split; [done|]. split.
  - intros y. destruct (decide (y = x)) as [->|Hne].
    + by rewrite lookup_insert_eq, bool_decide_eq_true_2.
    + by rewrite lookup_insert_ne, bool_decide_eq_false_2 by done.
  - intros y j. destruct (decide (y = x)) as [->|Hne].
    + by rewrite lookup_insert_eq, Hx.
    + by rewrite lookup_insert_ne by done.
Qed.

Lemma info_node h x o s b k : info h x = Some (o, s, b, k) ->
  exists n, h !! x = Some n /\ obj n = o /\ score n = s /\ backward n = b /\ length (level n) = k.
Proof.
  unfold info. destruct (h !! x) as [n|]; [|done]. cbn. intros [= <- <- <- <-]. eauto 10.
Qed.

Lemma info_level h x o s b k i : info h x = Some (o, s, b, k) -> (i < k)%nat -> is_Some (get_level h x i).
Proof.
  intros (n & Hn & _ & _ & _ & <-)%info_node Hi. unfold get_level. rewrite Hn. cbn.
  by apply lookup_lt_is_Some_2.
Qed.

(** A loop over the levels in which round [i] changes only level [i], and
    makes it [f i] at every node. *)
Lemma for_levels_spec (step : nat -> heap -> option heap) (f : nat -> loc -> option zskiplistLevel) n : forall from h,
  (forall i h1, (from <= i < from + n)%nat -> (forall y, info h1 y = info h y) ->
     (forall y, get_level h1 y i = get_level h y i) ->
     exists h2, step i h1 = Some h2 /\ (forall y, info h2 y = info h1 y) /\
       (forall y, get_level h2 y i = f i y) /\
       (forall y j, j <> i -> get_level h2 y j = get_level h1 y j)) ->
  exists h', for_levels n from step h = Some h' /\ (forall y, info h' y = info h y) /\
    (forall y i, get_level h' y i = if bool_decide (from <= i < from + n)%nat then f i y else get_level h y i).
Proof.
  induction n as [|n IH]; intros from h Hstep; cbn [for_levels].
  { exists h. split_and!; [done..|]. intros y i. by rewrite bool_decide_eq_false_2 by lia. }
  destruct (Hstep from h) as (h1 & -> & Hi1 & Hf1 & Ho1); [lia|done|done|]. osimpl.
  destruct (IH (S from) h1) as (h2 & E & Hi2 & Hf2).
  - intros i h3 Hi Hi3 Hl3. apply (Hstep i h3); [lia| |].
    + intros y. by rewrite Hi3, Hi1.
    + intros y. by rewrite Hl3, Ho1 by lia.
  - exists h2. split; [done|]. split; [intros y; by rewrite Hi2, Hi1|]. intros y i. rewrite Hf2.
    destruct (decide (i = from)) as [->|Hne].
    + rewrite bool_decide_eq_false_2, bool_decide_eq_true_2 by lia. apply Hf1.
    + rewrite (Ho1 y i Hne). by rewrite (bool_decide_ext (S from <= i < S from + n)%nat (from <= i < from + S n)%nat) by lia.
Qed.

(** ** Positions *)
Lemma last_loc_snoc d l it : last_loc d (l ++ [it]) = Some (i_loc it).
Proof. unfold last_loc. by rewrite last_snoc. Qed.

Lemma last_loc_cons d it l : last_loc d (it :: l) = last_loc (Some (i_loc it)) l.
Proof. unfold last_loc. rewrite last_cons. by destruct (last l). Qed.

(** The nodes of the elements, one by one. *)
Lemma items_in_iff h L : forall prev,
  items_in h prev L <->
  forall A it B, L = A ++ it :: B ->
    info h (i_loc it) = Some (Some (i_obj it), i_score it, last_loc prev A, i_height it) /\
    forall i, (i < i_height it)%nat -> get_level h (i_loc it) i = Some (fwd i B).
Proof.
  induction L as [|it0 L IH]; intros prev; cbn [items_in]; [split; [by intros _ [|] ? ?|done]|].
  rewrite IH. split.
  - intros (H1 & H2 & H3) [|a A] it B E.
    + injection E as <- <-. done.
    + injection E as <- ->. rewrite last_loc_cons. by apply H3.
  - intros HL. destruct (HL [] it0 L eq_refl) as [H1 H2]. split_and!; [done|done|].
    intros A it B ->. rewrite <- (last_loc_cons prev). by apply (HL (it0 :: A)).
Qed.

(** Node [x] is the last one of [A], or the header, and reaches level [i]. *)
Definition at_pos (hd : loc) A x (i : nat) : Prop :=
  match last A with
  | None => x = hd
  | Some it => x = i_loc it /\ (i < i_height it)%nat
  end.

Lemma at_pos_snoc hd A it i : (i < i_height it)%nat -> at_pos hd (A ++ [it]) (i_loc it) i.
Proof. intros. unfold at_pos. by rewrite last_snoc. Qed.

Lemma at_pos_inv hd A x i : at_pos hd A x i ->
  (A = [] /\ x = hd) \/ exists A' it, A = A' ++ [it] /\ x = i_loc it /\ (i < i_height it)%nat.
Proof.
  unfold at_pos. destruct A as [|it A' _] using rev_ind; [by left|].
  rewrite last_snoc. intros [-> Hi]. right. eauto.
Qed.

Lemma at_pos_lower hd A x i j : at_pos hd A x i -> (j <= i)%nat -> at_pos hd A x j.
Proof. unfold at_pos. destruct (last A); [|done]. intros [-> ?] ?. split; [done|lia]. Qed.

Lemma pos_level h hd zl A B x i :
  nodes h hd zl (A ++ B) -> at_pos hd A x i -> (i < zl)%nat -> get_level h x i = Some (fwd i B).
Proof.
  intros Hr Hp Hi. apply at_pos_inv in Hp as [[-> ->]|(A' & it & -> & -> & Hit)]; [by apply (n_levels _ _ _ _ Hr)|].
  pose proof (n_items _ _ _ _ Hr) as HI. rewrite items_in_iff in HI.
  apply (HI A' it B); [by rewrite <- app_assoc|done].
Qed.

Lemma item_info h hd zl A it B :
  nodes h hd zl (A ++ it :: B) -> info h (i_loc it) = Some (Some (i_obj it), i_score it, last_loc None A, i_height it).
Proof. intros Hr. pose proof (n_items _ _ _ _ Hr) as HI. rewrite items_in_iff in HI. by apply (HI A it B). Qed.

Lemma item_node h hd zl A it B :
  nodes h hd zl (A ++ it :: B) -> exists n, h !! i_loc it = Some n /\ obj n = Some (i_obj it) /\ score n = i_score it.
Proof. intros Hr. destruct (info_node _ _ _ _ _ _ (item_info h hd zl A it B Hr)) as (n & ? & ? & ? & _). eauto. Qed.

(** The last node that reaches a level is determined. *)
Lemma at_pos_high hd P k x j : at_pos hd (P ++ k) x j -> Forall (low j) k -> k = [].
Proof.
  destruct k as [|it k _] using rev_ind; [done|]. unfold at_pos. rewrite app_assoc, last_snoc.
  intros [_ Hj]. rewrite Forall_app, Forall_singleton. intros [_ Hl]. unfold low in Hl. lia.
Qed.

Lemma pos_unique hd P1 T1 P2 T2 x1 x2 j :
  P1 ++ T1 = P2 ++ T2 -> at_pos hd P1 x1 j -> at_pos hd P2 x2 j -> Forall (low j) T1 -> Forall (low j) T2 ->
  P1 = P2 /\ T1 = T2.
Proof.
  intros E H1 H2 HT1 HT2. apply app_eq_app in E as (k & [[-> ->]|[-> ->]]).
  - apply Forall_app in HT2 as [Hk _]. rewrite (at_pos_high hd P2 k x1 j H1 Hk). by rewrite app_nil_r.
  - apply Forall_app in HT1 as [Hk _]. rewrite (at_pos_high hd P1 k x2 j H2 Hk). by rewrite app_nil_r.
Qed.

(** ** The search *)
Definition splits_at (go : Z -> node -> option bool) L A : Prop :=
  forall P it S n, L = P ++ it :: S -> obj n = Some (i_obj it) -> score n = i_score it ->
    go (zlen P + 1) n = Some (zlen P <? zlen A).

Section Search.
Context h z A B (go : Z -> node -> option bool) (bits : Z).
Hypothesis Hrepr : repr h z (A ++ B).
Hypothesis Hgo : splits_at go (A ++ B) A.
Hypothesis Hbits : 32 <= bits.

Lemma rank_small P it S : A ++ B = P ++ it :: S -> wrap bits (zlen P + 1) = zlen P + 1.
Proof.
  intros E. apply wrap_small. pose proof (r_small _ _ _ Hrepr) as Hs. rewrite E, length_app in Hs.
  cbn [length] in Hs. assert (2 ^ 32 <= 2 ^ bits) by (apply Z.pow_le_mono_r; lia). unfold in_u. lia.
Qed.

Lemma advance_spec i n : (i < zlevel z)%nat -> forall fuel P T x,
  A = P ++ T -> at_pos (header z) P x i -> (length T <= n)%nat -> (n < fuel)%nat ->
  exists x' P' T', advance bits fuel h go i x (zlen P) = Some (x', zlen P') /\
    A = P' ++ T' /\ at_pos (header z) P' x' i /\ Forall (low i) T' /\ zlen P <= zlen P'.
Proof.
  intros Hi. induction n as [|n IH]; intros fuel P T x HA Hx Hn Hf; (destruct fuel as [|fuel]; [lia|]);
    cbn [advance]; pose proof (r_nodes _ _ _ Hrepr) as Hr; rewrite HA, <- app_assoc in Hr;
    rewrite (pos_level h _ _ P (T ++ B) x i Hr Hx Hi); osimpl;
    (destruct (fwd_spec i (T ++ B)) as [[Hlow ->]|(l1 & it & l2 & E & Hl1 & Hit & ->)]; cbn [forward span];
     [exists x, P, T; apply Forall_app in Hlow as [Hlow _]; by split_and!|]);
    pose proof Hr as Hr'; rewrite E in Hr'; rewrite app_assoc in Hr';
    destruct (item_node h _ _ _ it l2 Hr') as (nd & Hnd & Ho & Hs); rewrite Hnd; osimpl;
    assert (A ++ B = (P ++ l1) ++ it :: l2) as EL by (rewrite HA, <- !app_assoc; by rewrite E);
    rewrite Z.add_assoc; replace (zlen P + zlen l1) with (zlen (P ++ l1)) by (rewrite length_app; lia);
    rewrite (rank_small _ _ _ EL), (Hgo _ _ _ nd EL Ho Hs); osimpl.
  - destruct T; [|simpl in Hn; lia]. rewrite app_nil_r in HA. subst P.
    rewrite (proj2 (Z.ltb_ge _ _)) by (rewrite length_app; lia). exists x, A, []. rewrite app_nil_r. by split_and!.
  - destruct (Z.ltb_spec (zlen (P ++ l1)) (zlen A)) as [Hlt|Hge].
    + assert (exists T', A = (P ++ l1 ++ [it]) ++ T') as [T' HA'].
      { rewrite HA, !length_app in Hlt. apply app_eq_app in E as (k & [[HT HB]|[HT HB]]).
        - destruct k as [|y k]; [rewrite app_nil_r in HT; subst; lia|]. cbn in HB. injection HB as -> ->.
          exists k. rewrite HA, HT, <- !app_assoc. done.
        - rewrite HT, length_app in Hlt. lia. }
      replace (zlen (P ++ l1) + 1) with (zlen (P ++ l1 ++ [it])) by (rewrite !length_app; simpl; lia).
      destruct (IH fuel (P ++ l1 ++ [it]) T' (i_loc it)) as (x' & P' & T'' & -> & ? & ? & ? & Hle).
      * done.
      * rewrite app_assoc. by apply at_pos_snoc.
      * assert (length A = length ((P ++ l1 ++ [it]) ++ T')) as El by (by rewrite <- HA').
        rewrite HA, !length_app in El. simpl in El. lia.
      * lia.
      * exists x', P', T''. split_and!; try done. rewrite !length_app in Hle. lia.
    + exists x, P, T. split_and!; try done.
      rewrite HA, !length_app in Hge. apply app_eq_app in E as (k & [[HT HB]|[HT HB]]).
      * destruct k as [|y k]; [by rewrite app_nil_r in HT; subst|].
        rewrite HT, length_app in Hge. simpl in Hge. lia.
      * subst l1. by apply Forall_app in Hl1 as [? _].
Qed.

(** What the search leaves in [update] and [rank] at a level. *)
Definition update_ok (j : nat) (ur : loc * Z) : Prop :=
  exists P T, A = P ++ T /\ at_pos (header z) P ur.1 j /\ Forall (low j) T /\ ur.2 = zlen P.

Lemma descend_spec fuel i : (i <= zlevel z)%nat -> (length A < fuel)%nat -> forall P T x,
  A = P ++ T -> at_pos (header z) P x i ->
  exists x' r update, descend bits fuel h go i x (zlen P) = Some (x', r, update) /\ length update = i /\
    (forall j ur, update !! j = Some ur -> update_ok j ur) /\
    match update with [] => x' = x /\ r = zlen P | ur :: _ => ur = (x', r) end.
Proof.
  intros Hi Hf. induction i as [|i IH]; intros P T x HA Hx; cbn [descend].
  { exists x, (zlen P), []. by split_and!. }
  assert (length T <= length A)%nat by (rewrite HA, length_app; lia).
  destruct (advance_spec i (length A) ltac:(lia) fuel P T x HA) as (x1 & P1 & T1 & -> & HA1 & Hx1 & HT1 & _);
    [by apply at_pos_lower with (S i); [|lia]|done|lia|]. osimpl.
  destruct (IH ltac:(lia) P1 T1 x1 HA1 Hx1) as (x2 & r2 & update & -> & Hl & Hu & Hh). osimpl.
  exists x2, r2, (update ++ [(x1, zlen P1)]). split_and!; [done|rewrite length_app; simpl; lia| |].
  - intros j ur [Hj|[Hj Hur]]%lookup_app_Some; [by apply Hu|].
    apply list_lookup_singleton_Some in Hur as [Hj0 <-]. assert (j = i) as -> by lia.
    exists P1, T1. by split_and!.
  - destruct update as [|ur update]; cbn; [destruct Hh as [-> ->]; done|done].
Qed.

Lemma height_pos it : it ∈ A -> (1 <= i_height it)%nat.
Proof.
  intros Hin. pose proof (n_ok _ _ _ _ (r_nodes _ _ _ Hrepr)) as Hok. rewrite Forall_app, !Forall_forall in Hok.
  by destruct (proj1 Hok it Hin) as [[? _] _].
Qed.

Lemma low_0 T : (forall it, it ∈ T -> it ∈ A) -> Forall (low 0) T -> T = [].
Proof.
  intros HT HF. destruct T as [|it T]; [done|]. apply Forall_cons_iff in HF as [HF _]. unfold low in HF.
  pose proof (height_pos it (HT it (list_elem_of_here _ _))). lia.
Qed.

Lemma zlevel_pos : (1 <= zlevel z <= ZSKIPLIST_MAXLEVEL)%nat.
Proof.
  rewrite (r_level _ _ _ Hrepr). pose proof (n_ok _ _ _ _ (r_nodes _ _ _ Hrepr)) as Hok. revert Hok. generalize (A ++ B).
  intros l Hok. unfold max_height. induction Hok as [|it l Hit Hok IH]; cbn; [unfold ZSKIPLIST_MAXLEVEL; lia|].
  destruct Hit as [? _]. lia.
Qed.

Lemma search_spec :
  exists x update, search bits h z go = Some (x, zlen A, update) /\ length update = zlevel z /\
    (forall j ur, update !! j = Some ur -> update_ok j ur) /\
    update !! 0%nat = Some (x, zlen A) /\ at_pos (header z) A x 0.
Proof.
  unfold search. rewrite (r_length _ _ _ Hrepr), Nat2Z.id.
  destruct (descend_spec (S (length (A ++ B))) (zlevel z) ltac:(lia)) with (P := @nil item) (T := A) (x := header z)
    as (x & r & update & E & Hl & Hu & Hh); [rewrite length_app; lia|done..|].
  change (zlen []) with 0 in E. rewrite E. destruct zlevel_pos as [? _].
  destruct update as [|ur update]; [simpl in Hl; lia|]. subst ur.
  destruct (Hu 0%nat (x, r) eq_refl) as (P & T & HA & Hx & HT & Hr). cbn in Hx, Hr.
  rewrite (low_0 T) in HA; [|rewrite HA; intros; apply elem_of_app; by right|done].
  rewrite app_nil_r in HA. subst P r. exists x, ((x, zlen A) :: update). by split_and!.
Qed.
End Search.

(** ** Changing the levels that reach a place *)
Lemma at_pos_fun hd P x y i j : at_pos hd P x i -> at_pos hd P y j -> x = y.
Proof. unfold at_pos. destruct (last P); [|congruence]. intros [-> _] [-> _]. done. Qed.

Lemma at_pos_in hd P x i : at_pos hd P x i -> x ∈ hd :: locs P.
Proof.
  intros [[-> ->]|(A' & it & -> & -> & _)]%at_pos_inv; [apply list_elem_of_here|].
  apply list_elem_of_further. unfold locs. rewrite fmap_app. apply elem_of_app. right. apply list_elem_of_here.
Qed.

Lemma nodup_split hd P S x : NoDup (hd :: locs (P ++ S)) -> x ∈ hd :: locs P -> x ∉ locs S.
Proof.
  unfold locs. rewrite fmap_app, app_comm_cons. intros (_ & Hd & _)%NoDup_app Hx. by apply Hd.
Qed.

Lemma at_pos_inj hd P1 S1 P2 S2 x i j :
  NoDup (hd :: locs (P1 ++ S1)) -> P1 ++ S1 = P2 ++ S2 -> at_pos hd P1 x i -> at_pos hd P2 x j -> P1 = P2.
Proof.
  intros Hn E H1 H2.
  assert (forall P k x, NoDup (hd :: locs ((P ++ k) ++ S1)) \/ NoDup (hd :: locs ((P ++ k) ++ S2)) ->
    at_pos hd (P ++ k) x i \/ at_pos hd (P ++ k) x j -> at_pos hd P x i \/ at_pos hd P x j -> k = []) as Hk.
  { clear. intros P k x Hn Hpk Hp. destruct k as [|it k _] using rev_ind; [done|]. exfalso.
    assert (x = i_loc it) as ->.
    { unfold at_pos in Hpk. rewrite app_assoc, last_snoc in Hpk. naive_solver. }
    assert (i_loc it ∈ hd :: locs P) as Hin by (destruct Hp as [Hp|Hp]; by apply at_pos_in in Hp).
    assert (i_loc it ∈ locs (k ++ [it])) as Hin2.
    { unfold locs. rewrite fmap_app. apply elem_of_app. right. apply list_elem_of_here. }
    destruct Hn as [Hn|Hn]; rewrite <- app_assoc in Hn; apply (nodup_split _ _ _ _ Hn Hin);
      unfold locs; rewrite fmap_app; apply elem_of_app; by left. }
  pose proof E as E'. apply app_eq_app in E' as (k & [[-> ->]|[-> ->]]).
  - rewrite (Hk P2 k x); [by rewrite app_nil_r|by left..|by right].
  - rewrite (Hk P1 k x); [by rewrite app_nil_r| |by right|by left]. right. by rewrite <- app_assoc.
Qed.

(** When [B] after [A] becomes [B'], only the last node that reaches each
    level has to change. *)
Lemma relevel h h' hd zl A B B' (u : nat -> loc) :
  nodes h hd zl (A ++ B) ->
  (forall j, (j < zl)%nat -> exists P T, A = P ++ T /\ at_pos hd P (u j) j /\ Forall (low j) T /\
     get_level h' (u j) j = Some (fwd j (T ++ B'))) ->
  (forall y j, y ∈ hd :: locs A -> (j < zl)%nat -> y <> u j -> get_level h' y j = get_level h y j) ->
  forall P S y j, A = P ++ S -> at_pos hd P y j -> (j < zl)%nat -> get_level h' y j = Some (fwd j (S ++ B')).
Proof.
  intros Hn Hu Ho P S y j HA Hy Hj.
  destruct (Hu j Hj) as (Pj & Tj & HAj & Hpj & Hlj & Hgj).
  destruct (decide (Forall (low j) S)) as [Hlow|Hhigh].
  - destruct (pos_unique hd P S Pj Tj y (u j) j) as [-> ->]; [congruence|done..|].
    by rewrite (at_pos_fun _ _ _ _ _ _ Hy Hpj).
  - assert (y <> u j) as Hne.
    { intros ->. apply Hhigh. pose proof (n_nodup _ _ _ _ Hn) as Hnd. rewrite HA, <- app_assoc in Hnd.
      assert (P = Pj) as ->.
      { apply (at_pos_inj hd P (S ++ B) Pj (Tj ++ B) (u j) j j); [done|rewrite !app_assoc; congruence|done..]. }
      rewrite HAj in HA. apply app_inv_head in HA. by subst. }
    rewrite Ho; [|apply at_pos_in in Hy; rewrite HA; unfold locs in *; rewrite fmap_app, app_comm_cons; apply elem_of_app; by left|done..].
    pose proof Hn as Hn'. rewrite HA, <- app_assoc in Hn'. rewrite (pos_level h hd zl P (S ++ B) y j Hn' Hy Hj).
    f_equal. by apply fwd_hidden.
Qed.

Lemma items_in_ext h h' L : forall prev,
  (forall it, it ∈ L -> info h' (i_loc it) = info h (i_loc it) /\
     forall i, (i < i_height it)%nat -> get_level h' (i_loc it) i = get_level h (i_loc it) i) ->
  items_in h prev L -> items_in h' prev L.
Proof.
  induction L as [|it L IH]; intros prev Hext; [done|]. cbn [items_in]. intros (H1 & H2 & H3).
  destruct (Hext it (list_elem_of_here _ _)) as [E1 E2]. split_and!.
  - by rewrite E1.
  - intros i Hi. by rewrite E2, H2.
  - apply IH; [|done]. intros. apply Hext. by apply list_elem_of_further.
Qed.

Lemma locs_in it L : it ∈ L -> i_loc it ∈ locs L.
Proof. intros. by apply list_elem_of_fmap_2. Qed.

Lemma info_None h x : info h x = None <-> h !! x = None.
Proof. unfold info. by destruct (h !! x). Qed.

Lemma nodes_alloc h hd zl L x : nodes h hd zl L -> h !! x = None -> x ∉ hd :: locs L.
Proof.
  intros Hn Hx [->|Hin]%elem_of_cons.
  - destruct (n_header _ _ _ _ Hn) as (s & b & E). apply info_None in Hx. congruence.
  - apply list_elem_of_fmap in Hin as (it & -> & (A & B & ->)%list_elem_of_split).
    pose proof (item_info h hd zl A it B Hn) as E. apply info_None in Hx. congruence.
Qed.

(** ** Using more levels *)
Lemma raise_spec h z L lv update :
  repr h z L -> (lv <= ZSKIPLIST_MAXLEVEL)%nat -> length update = zlevel z ->
  exists h' , raise_level h z lv update = Some (h', update ++ replicate (lv - zlevel z) (header z, 0)) /\
    nodes h' (header z) (Nat.max (zlevel z) lv) L /\ (forall y, info h' y = info h y).
Proof.
  intros Hr Hlv Hlen. unfold raise_level. pose proof (r_nodes _ _ _ Hr) as Hn.
  destruct (Nat.ltb_spec (zlevel z) lv) as [Hlt|Hge].
  2:{ exists h. replace (lv - zlevel z)%nat with 0%nat by lia. cbn [replicate]. rewrite app_nil_r, Nat.max_l by lia.
      by split_and!. }
  destruct (for_levels_spec (fun i h => l ← get_level h (header z) i; set_level h (header z) i (Level (forward l) (zlength z)))
    (fun i y => if bool_decide (y = header z) then Some (Level None (zlength z)) else get_level h y i)
    (lv - zlevel z) (zlevel z) h) as (h' & -> & Hi & Hl).
  { intros i h1 Hrange Hi1 Hl1. destruct (n_above _ _ _ _ Hn i ltac:(lia)) as (l & El & Ef).
    rewrite Hl1, El. osimpl. rewrite Ef.
    destruct (set_level_spec h1 (header z) i (Level None (zlength z)) l) as (h2 & -> & Hi2 & Hl2); [by rewrite Hl1|].
    exists h2. split_and!; [done|done| |].
    - intros y. rewrite Hl2. rewrite (bool_decide_ext (y = header z /\ i = i) (y = header z)) by naive_solver.
      by rewrite Hl1.
    - intros y j Hj. rewrite Hl2. by rewrite bool_decide_eq_false_2 by (by intros [_ ?]). }
  osimpl. exists h'. split; [done|]. rewrite Nat.max_r by lia. split; [|done].
  assert (forall y j, y <> header z \/ (j < zlevel z)%nat \/ (lv <= j)%nat -> get_level h' y j = get_level h y j) as Hold.
  { intros y j Hj. rewrite Hl. repeat case_bool_decide; try done; subst; naive_solver lia. }
  constructor.
  - apply Hn.
  - apply items_in_ext with h; [|apply Hn]. intros it Hit. split; [by rewrite Hi|]. intros i _. apply Hold. left.
    intros E. pose proof (n_nodup _ _ _ _ Hn) as Hnd. apply NoDup_cons in Hnd as [Hnd _]. apply Hnd. rewrite <- E. by apply locs_in.
  - apply Hn.
  - setoid_rewrite Hi. apply Hn.
  - intros i Hilt. destruct (decide (i < zlevel z)%nat).
    + rewrite Hold by lia. by apply Hn.
    + rewrite Hl, bool_decide_eq_true_2, bool_decide_eq_true_2 by lia || done. f_equal.
      rewrite fwd_low; [by rewrite (r_length _ _ _ Hr)|].
      eapply Forall_impl; [exact (n_low _ _ _ _ Hn)|]. unfold low. cbn. intros; lia.
  - intros i Hilt. rewrite Hold by lia. apply Hn. lia.
  - eapply Forall_impl; [exact (n_low _ _ _ _ Hn)|]. unfold low. cbn. intros; lia.
Qed.

(** ** Insertion *)
Section Insert.
Context h z (zl : nat) A B (update : list (loc * Z)) it.
Abbreviation hd := (header z).
Hypothesis Hn : nodes h hd zl (A ++ B).
Hypothesis Hsmall : zlen (A ++ B) < 2 ^ 32 - 1.
Hypothesis Hupd : forall j, (j < zl)%nat -> exists ur, update !! j = Some ur /\ update_ok z A j ur.
Hypothesis Hfresh : h !! i_loc it = None.
Hypothesis Hit : item_ok it.
Hypothesis Hheight : (i_height it <= zl)%nat.

Lemma x_new : i_loc it ∉ hd :: locs (A ++ B).
Proof. by apply (nodes_alloc h hd zl). Qed.

(** The node that must change at level [j], what it holds and will hold. *)
Lemma update_level j : (j < zl)%nat -> exists u P T, update !! j = Some (u, zlen P) /\ A = P ++ T /\
  at_pos hd P u j /\ Forall (low j) T /\ u <> i_loc it /\
  get_level h u j = Some (Level (forward (fwd j B)) (zlen T + span (fwd j B))).
Proof.
  intros Hj. destruct (Hupd j Hj) as ([u r] & Hu & (P & T & HA & Hp & HT & Hr)). cbn in Hp, Hr. subst r.
  exists u, P, T. split_and!; try done.
  - intros ->. apply x_new. unfold locs. rewrite HA, !fmap_app, <- app_assoc, app_comm_cons.
    apply elem_of_app. left. by apply at_pos_in in Hp.
  - rewrite <- (fwd_skip j T B) by done. apply (pos_level h hd zl P (T ++ B) u j); [|done..].
    by rewrite app_assoc, <- HA.
Qed.

Definition link_f h2 (j : nat) (y : loc) : option zskiplistLevel :=
  '(u, r) ← update !! j;
  if bool_decide (y = i_loc it) then Some (fwd j B)
  else if bool_decide (y = u) then Some (Level (Some (i_loc it)) (zlen A - r + 1))
  else get_level h2 y j.

Lemma link_spec h2 :
  (forall y, y <> i_loc it -> forall j, get_level h2 y j = get_level h y j) ->
  (forall j, (j < i_height it)%nat -> is_Some (get_level h2 (i_loc it) j)) ->
  exists h3, for_levels (i_height it) 0 (link_level update (zlen A) (i_loc it)) h2 = Some h3 /\
    (forall y, info h3 y = info h2 y) /\
    (forall y j, get_level h3 y j = if bool_decide (j < i_height it)%nat then link_f h2 j y else get_level h2 y j).
Proof.
  intros Hold Hx. destruct (for_levels_spec (link_level update (zlen A) (i_loc it)) (link_f h2) (i_height it) 0 h2)
    as (h3 & -> & Hi & Hl).
  - intros j h1 Hj Hi1 Hl1. destruct (update_level j ltac:(lia)) as (u & P & T & Hu & HA & Hp & HT & Hne & Hg).
    unfold link_level, link_f. rewrite Hu. osimpl. rewrite Hl1, Hold, Hg by done. osimpl. cbn [forward span].
    destruct (Hx j ltac:(lia)) as [lx Hlx].
    assert (zlen A = zlen P + zlen T) as HzA by (rewrite HA, length_app; lia).
    assert (zlen A + zlen B < 2 ^ 32 - 1) as HzB by (rewrite length_app in Hsmall; lia).
    pose proof (fwd_span_bound j B). rewrite !wrap_small by (unfold in_u; lia).
    replace (zlen T + span (fwd j B) - (zlen A - zlen P)) with (span (fwd j B)) by lia.
    destruct (set_level_spec h1 (i_loc it) j (Level (forward (fwd j B)) (span (fwd j B))) lx)
      as (h3 & -> & Hi3 & Hl3); [by rewrite Hl1|]. osimpl.
    destruct (set_level_spec h3 u j (Level (Some (i_loc it)) (zlen A - zlen P + 1))
                (Level (forward (fwd j B)) (zlen T + span (fwd j B)))) as (h4 & -> & Hi4 & Hl4).
    { rewrite Hl3, bool_decide_eq_false_2 by naive_solver. by rewrite Hl1, Hold. }
    exists h4. split_and!; [done| | |].
    + intros y. by rewrite Hi4, Hi3.
    + intros y. rewrite Hl4, Hl3, Hl1. destruct (decide (y = u)) as [->|Hyu].
      { rewrite bool_decide_eq_true_2 by done. rewrite bool_decide_eq_false_2 by done.
        by rewrite bool_decide_eq_true_2. }
      rewrite bool_decide_eq_false_2 by (by intros [? _]). rewrite (bool_decide_eq_false_2 (y = u)) by done.
      destruct (decide (y = i_loc it)) as [->|Hyx].
      * rewrite !bool_decide_eq_true_2 by done. by destruct (fwd j B).
      * rewrite !bool_decide_eq_false_2; [done|done|by intros [? _]].
    + intros y k Hk. rewrite Hl4, Hl3. by rewrite !bool_decide_eq_false_2 by (by intros [_ ?]).
  - exists h3. split_and!; [done..|]. intros y j. rewrite Hl.
    by rewrite (bool_decide_ext (0 <= j < 0 + i_height it)%nat (j < i_height it)%nat) by lia.
Qed.

Definition grow_f h2 (j : nat) (y : loc) : option zskiplistLevel :=
  '(u, r) ← update !! j;
  if bool_decide (y = u) then l ← get_level h2 y j; Some (Level (forward l) (span l + 1))
  else get_level h2 y j.

Lemma grow_spec h2 :
  (forall y j, (i_height it <= j)%nat -> y <> i_loc it -> get_level h2 y j = get_level h y j) ->
  exists h3, for_levels (zl - i_height it) (i_height it) (grow_span update) h2 = Some h3 /\
    (forall y, info h3 y = info h2 y) /\
    (forall y j, get_level h3 y j =
       if bool_decide (i_height it <= j < zl)%nat then grow_f h2 j y else get_level h2 y j).
Proof.
  intros Hold. destruct (for_levels_spec (grow_span update) (grow_f h2) (zl - i_height it) (i_height it) h2)
    as (h3 & -> & Hi & Hl).
  - intros j h1 Hj Hi1 Hl1. destruct (update_level j ltac:(lia)) as (u & P & T & Hu & HA & Hp & HT & Hne & Hg).
    unfold grow_span, grow_f. rewrite Hu. osimpl. rewrite Hl1, Hold, Hg by (done || lia). osimpl. cbn [forward span].
    assert (zlen A = zlen P + zlen T) as HzA by (rewrite HA, length_app; lia).
    assert (zlen A + zlen B < 2 ^ 32 - 1) as HzB by (rewrite length_app in Hsmall; lia).
    pose proof (fwd_span_bound j B). rewrite wrap_small by (unfold in_u; lia).
    destruct (set_level_spec h1 u j (Level (forward (fwd j B)) (zlen T + span (fwd j B) + 1))
                (Level (forward (fwd j B)) (zlen T + span (fwd j B)))) as (h4 & -> & Hi4 & Hl4).
    { rewrite Hl1, Hold by (done || lia). done. }
    exists h4. split_and!; [done|done| |].
    + intros y. rewrite Hl4, Hl1. destruct (decide (y = u)) as [->|Hyu].
      * rewrite !bool_decide_eq_true_2 by done. by rewrite Hold, Hg by (done || lia).
      * rewrite !bool_decide_eq_false_2; [done|done|by intros [? _]].
    + intros y k Hk. rewrite Hl4. by rewrite bool_decide_eq_false_2 by (by intros [_ ?]).
  - exists h3. split_and!; [done..|]. intros y j. rewrite Hl.
    by rewrite (bool_decide_ext (i_height it <= j < i_height it + (zl - i_height it))%nat (i_height it <= j < zl)%nat) by lia.
Qed.

(** The levels after both loops, as [relevel] wants them. *)
Lemma linked_levels h2 h3 h4 :
  (forall y, y <> i_loc it -> forall j, get_level h2 y j = get_level h y j) ->
  (forall y j, get_level h3 y j = if bool_decide (j < i_height it)%nat then link_f h2 j y else get_level h2 y j) ->
  (forall y j, get_level h4 y j =
       if bool_decide (i_height it <= j < zl)%nat then grow_f h3 j y else get_level h3 y j) ->
  (forall j, (j < i_height it)%nat -> get_level h4 (i_loc it) j = Some (fwd j B)) /\
  (forall y j, y <> i_loc it -> (zl <= j)%nat -> get_level h4 y j = get_level h y j) /\
  (forall j, (j < zl)%nat -> exists u P T, update !! j = Some (u, zlen P) /\ A = P ++ T /\ at_pos hd P u j /\ Forall (low j) T /\
     get_level h4 u j = Some (fwd j (T ++ it :: B)) /\
     forall y, y <> i_loc it -> y <> u -> get_level h4 y j = get_level h y j).
Proof.
  intros H2 H3 H4. split_and!.
  - intros j Hj. rewrite H4, bool_decide_eq_false_2, H3, bool_decide_eq_true_2 by lia. unfold link_f.
    destruct (update_level j ltac:(lia)) as (u & P & T & -> & _). osimpl. by rewrite bool_decide_eq_true_2.
  - intros y j Hy Hj. rewrite H4, bool_decide_eq_false_2, H3, bool_decide_eq_false_2 by lia. by apply H2.
  - intros j Hj. destruct (update_level j Hj) as (u & P & T & Hu & HA & Hp & HT & Hne & Hg).
    exists u, P, T. assert (zlen A = zlen P + zlen T) as HzA by (rewrite HA, length_app; lia).
    split_and!; try done; destruct (decide (j < i_height it)%nat) as [Hlt|Hge].
    + rewrite H4, bool_decide_eq_false_2, H3, bool_decide_eq_true_2 by lia. unfold link_f. rewrite Hu. osimpl.
      rewrite bool_decide_eq_false_2, bool_decide_eq_true_2 by done. rewrite fwd_hit by done. f_equal. f_equal. lia.
    + rewrite H4, bool_decide_eq_true_2 by lia. unfold grow_f. rewrite Hu. osimpl.
      rewrite bool_decide_eq_true_2 by done. rewrite H3, bool_decide_eq_false_2, H2, Hg by (done || lia). osimpl.
      cbn [forward span]. rewrite (fwd_skip j T) by done. cbn [fwd].
      rewrite (proj2 (Nat.ltb_ge _ _)) by lia. cbn [forward span]. f_equal. f_equal. lia.
    + intros y Hy Hyu. rewrite H4, bool_decide_eq_false_2, H3, bool_decide_eq_true_2 by lia. unfold link_f. rewrite Hu. osimpl.
      rewrite !bool_decide_eq_false_2 by done. by apply H2.
    + intros y Hy Hyu. rewrite H4, bool_decide_eq_true_2 by lia. unfold grow_f. rewrite Hu. osimpl.
      rewrite bool_decide_eq_false_2 by done. rewrite H3, bool_decide_eq_false_2 by lia. by apply H2.
Qed.
End Insert.

Lemma last_loc_app d A B : last_loc d (A ++ B) = last_loc (last_loc d A) B.
Proof. unfold last_loc. rewrite last_app. by destruct (last B). Qed.

(** Where an element of [A ++ it :: B] is. *)
Lemma insert_cases (A : list item) it B A0 it0 B0 : A ++ it :: B = A0 ++ it0 :: B0 ->
  (exists S, A = A0 ++ it0 :: S /\ B0 = S ++ it :: B) \/ (A0 = A /\ it0 = it /\ B0 = B) \/
  (exists B1, B = B1 ++ it0 :: B0 /\ A0 = A ++ it :: B1).
Proof.
  intros E. apply app_eq_app in E as (k & [[-> E]|[-> E]]); (destruct k as [|y k]; cbn in E; [injection E as <- <-|]).
  - right. left. by rewrite app_nil_r.
  - injection E as <- ->. left. eauto.
  - right. left. by rewrite app_nil_r.
  - injection E as <- ->. right. right. eauto.
Qed.

(** The back pointer of the element after [it]. *)
Definition back_set h h' it B : Prop :=
  forall y, y <> i_loc it ->
    info h' y = match B with
                | b :: _ => if bool_decide (y = i_loc b)
                            then Some (Some (i_obj b), i_score b, Some (i_loc it), i_height b) else info h y
                | [] => info h y
                end.

Lemma nodes_insert h h' z zl A B (update : list (loc * Z)) it :
  nodes h (header z) zl (A ++ B) -> h !! i_loc it = None -> item_ok it -> (i_height it <= zl)%nat ->
  info h' (i_loc it) = Some (Some (i_obj it), i_score it, last_loc None A, i_height it) ->
  back_set h h' it B ->
  (forall j, (j < i_height it)%nat -> get_level h' (i_loc it) j = Some (fwd j B)) ->
  (forall y j, y <> i_loc it -> (zl <= j)%nat -> get_level h' y j = get_level h y j) ->
  (forall j, (j < zl)%nat -> exists u P T, update !! j = Some (u, zlen P) /\ A = P ++ T /\ at_pos (header z) P u j /\ Forall (low j) T /\
     get_level h' u j = Some (fwd j (T ++ it :: B)) /\
     forall y, y <> i_loc it -> y <> u -> get_level h' y j = get_level h y j) ->
  nodes h' (header z) zl (A ++ it :: B).
Proof.
  intros Hn Hfresh Hok Hh Hx Hb Hlx Habove Hlev. set (hd := header z) in *.
  pose proof (nodes_alloc h hd zl (A ++ B) (i_loc it) Hn Hfresh) as Hnew.
  assert (forall y, y ∈ hd :: locs (A ++ B) -> y <> i_loc it) as Hne by (by intros y Hy ->).
  pose (u := fun j => default hd (fst <$> update !! j)).
  assert (forall P S y j, A = P ++ S -> at_pos hd P y j -> (j < zl)%nat -> get_level h' y j = Some (fwd j (S ++ it :: B))) as HA.
  { apply (relevel h h' hd zl A B (it :: B) u Hn).
    - intros j Hj. destruct (Hlev j Hj) as (uj & P & T & Eu & ? & ? & ? & ? & _). exists P, T.
      assert (u j = uj) as -> by (unfold u; by rewrite Eu). by split_and!.
    - intros y j Hy Hj Hyu. destruct (Hlev j Hj) as (uj & P & T & Eu & _ & _ & _ & _ & Ho).
      assert (u j = uj) as Euj by (unfold u; by rewrite Eu). apply Ho; [|by rewrite <- Euj].
      apply Hne. unfold locs in *. rewrite fmap_app, app_comm_cons. apply elem_of_app. by left. }
  pose proof (n_items _ _ _ _ Hn) as HI. rewrite items_in_iff in HI.
  assert (hd ∉ locs (A ++ B)) as Hhd by (pose proof (n_nodup _ _ _ _ Hn) as Hnd; by apply NoDup_cons in Hnd as [? _]).
  constructor.
  - pose proof (n_nodup _ _ _ _ Hn) as Hnd.
    assert (hd :: locs (A ++ it :: B) ≡ₚ i_loc it :: hd :: locs (A ++ B)) as ->.
    { unfold locs. rewrite !fmap_app, fmap_cons. solve_Permutation. }
    by constructor.
  - apply items_in_iff. intros A0 it0 B0 E.
    destruct (insert_cases A it B A0 it0 B0 E) as [(S & EA & ->)|[(-> & -> & ->)|(B1 & EB & ->)]].
    + assert (A ++ B = A0 ++ it0 :: (S ++ B)) as EL by (rewrite EA, <- app_assoc; done).
      assert (i_loc it0 ∈ locs (A ++ B)) as Hin by (apply locs_in; rewrite EL; set_solver).
      split.
      * rewrite Hb by (apply Hne; by apply list_elem_of_further). destruct (HI A0 it0 (S ++ B) EL) as [-> _].
        destruct B as [|b B]; [done|]. rewrite bool_decide_eq_false_2; [done|]. intros Eb.
        pose proof (n_nodup _ _ _ _ Hn) as Hnd. rewrite EA in Hnd.
        apply (nodup_split hd (A0 ++ it0 :: S) (b :: B) (i_loc it0)); [done| |rewrite Eb; apply list_elem_of_here].
        apply list_elem_of_further. apply locs_in. set_solver.
      * intros i Hi. apply (HA (A0 ++ [it0]) S); [by rewrite <- app_assoc|by apply at_pos_snoc|].
        pose proof (n_low _ _ _ _ Hn) as Hl. rewrite EL, Forall_app, Forall_cons_iff in Hl. unfold low in Hl. lia.
    + split; [done|]. intros i Hi. by apply Hlx.
    + assert (A ++ B = (A ++ B1) ++ it0 :: B0) as EL by (rewrite EB, <- app_assoc; done).
      assert (i_loc it0 ∈ locs (A ++ B)) as Hin by (apply locs_in; rewrite EL; set_solver).
      assert (i_loc it0 <> i_loc it) as Hne0 by (apply Hne; by apply list_elem_of_further).
      destruct (HI (A ++ B1) it0 B0 EL) as [HI1 HI2]. split.
      * rewrite Hb by done. destruct B1 as [|b B1]; cbn in EB; subst B.
        -- rewrite bool_decide_eq_true_2 by done. by rewrite last_loc_snoc.
        -- rewrite bool_decide_eq_false_2, HI1; [by rewrite !last_loc_app, !last_loc_cons|].
           pose proof (n_nodup _ _ _ _ Hn) as Hnd. apply NoDup_cons in Hnd as [_ Hnd].
           unfold locs in Hnd. rewrite fmap_app in Hnd. apply NoDup_app in Hnd as (_ & _ & Hnd).
           cbn in Hnd. apply NoDup_cons in Hnd as [Hnd _]. intros Eb. apply Hnd. rewrite <- Eb.
           apply locs_in. set_solver.
      * intros i Hi. destruct (decide (i < zl)%nat) as [Hlt|Hge].
        -- destruct (Hlev i Hlt) as (ui & P & T & _ & EA & Hp & _ & _ & Ho). rewrite Ho; [by apply HI2|done|].
           intros <-. pose proof (n_nodup _ _ _ _ Hn) as Hnd. apply at_pos_in in Hp.
           apply (nodup_split hd A B (i_loc it0) Hnd); [|subst B; apply locs_in; set_solver].
           unfold locs in *. rewrite EA, fmap_app, app_comm_cons. apply elem_of_app. by left.
        -- rewrite Habove by (done || lia). by apply HI2.
  - pose proof (n_ok _ _ _ _ Hn) as Ho. rewrite Forall_app in *. rewrite Forall_cons_iff. naive_solver.
  - destruct (n_header _ _ _ _ Hn) as (s & b & E). exists s, b. rewrite Hb, <- E by (apply Hne, list_elem_of_here).
    destruct B as [|b0 B]; [done|]. rewrite bool_decide_eq_false_2; [done|]. intros ->. apply Hhd.
    apply locs_in. set_solver.
  - intros i Hi. apply (HA [] A); done.
  - intros i Hi. rewrite Habove by (lia || apply Hne, list_elem_of_here). apply Hn. lia.
  - pose proof (n_low _ _ _ _ Hn) as Ho. rewrite Forall_app in *. rewrite Forall_cons_iff. naive_solver.
Qed.

(** ** The order of the elements *)
Lemma lex_antisym a : forall b, Sds.lex b a = CompOpp (Sds.lex a b).
Proof.
  induction a as [|x a IH]; intros [|y b]; cbn; try done. rewrite (Z.compare_antisym x y).
  destruct (x ?= y); cbn; [apply IH|done..].
Qed.

Lemma lex_trans c a : forall b d, Sds.lex a b = c -> Sds.lex b d = c -> Sds.lex a d = c.
Proof.
  induction a as [|x a IH]; intros [|y b] [|w d]; cbn; try congruence; try naive_solver.
  destruct (Z.compare_spec x y), (Z.compare_spec y w), (Z.compare_spec x w); subst; try congruence; try lia.
  apply IH.
Qed.

Lemma item_cmp_antisym s1 o1 s2 o2 : item_cmp s2 o2 s1 o1 = CompOpp (item_cmp s1 o1 s2 o2).
Proof.
  unfold item_cmp. rewrite (kcompare_antisym (key s1)). destruct (kcompare (key s1) (key s2)); cbn; [apply lex_antisym|done..].
Qed.

Lemma item_cmp_trans c s1 o1 s2 o2 s3 o3 :
  item_cmp s1 o1 s2 o2 = c -> item_cmp s2 o2 s3 o3 = c -> item_cmp s1 o1 s3 o3 = c.
Proof.
  unfold item_cmp. destruct (kcompare (key s1) (key s2)) eqn:E1, (kcompare (key s2) (key s3)) eqn:E2; intros H1 H2;
    try (apply kcompare_Eq in E1; rewrite E1, E2); try (apply kcompare_Eq in E2; rewrite <- E2, E1); subst; try done.
  - by apply lex_trans with (so_text o2).
  - by rewrite (kcompare_trans Lt _ _ _ E1 E2).
  - by rewrite (kcompare_trans Gt _ _ _ E1 E2).
Qed.

Lemma item_cmp_Eq s1 o1 s2 o2 :
  item_cmp s1 o1 s2 o2 = Eq <-> key s1 = key s2 /\ so_text o1 = so_text o2.
Proof.
  unfold item_cmp. rewrite <- kcompare_Eq, <- lex_Eq. destruct (kcompare _ _); naive_solver.
Qed.

Lemma item_cmp_congr s2 o2 s3 o3 s1 o1 :
  key s2 = key s3 -> so_text o2 = so_text o3 -> item_cmp s1 o1 s2 o2 = item_cmp s1 o1 s3 o3.
Proof. intros Hk Ht. unfold item_cmp. by rewrite Hk, Ht. Qed.

(** The conditions of the searches. *)
Lemma node_before_spec strict s o n it :
  obj n = Some (i_obj it) -> score n = i_score it -> item_ok it -> isnan s = false -> so_valid o ->
  node_before strict s o n =
    Some match item_cmp (i_score it) (i_obj it) s o with Lt => true | Eq => negb strict | Gt => false end.
Proof.
  intros Ho Hs (_ & Hv & Hnan) Hsn Hov. unfold node_before, item_cmp. rewrite Ho, Hs.
  rewrite dlt_key, deq_key by done. destruct (kcompare _ _) eqn:Ek; [|done|done]. osimpl.
  destruct (so_compare_spec (i_obj it) o Hv Hov) as (r & -> & <-). osimpl. f_equal.
  destruct strict; cbn [negb]; [unfold Z.ltb|unfold Z.leb]; by destruct (r ?= 0).
Qed.

Lemma splits_at_pred (p : item -> bool) go A B :
  (forall it n k, it ∈ A ++ B -> obj n = Some (i_obj it) -> score n = i_score it -> go k n = Some (p it)) ->
  Forall (fun it => p it = true) A -> Forall (fun it => p it = false) B -> splits_at go (A ++ B) A.
Proof.
  intros Hgo HA HB P it S n E Ho Hs. rewrite (Hgo it n) by (done || rewrite E; set_solver). f_equal.
  apply app_eq_app in E as (k & [[-> E]|[-> E]]).
  - destruct k as [|y k]; cbn in E; subst.
    + rewrite app_nil_r, Z.ltb_irrefl. by apply Forall_cons_iff in HB as [? _].
    + injection E as <- ->. rewrite Forall_app, Forall_cons_iff in HA.
      rewrite (proj2 (Z.ltb_lt _ _)) by (rewrite length_app; simpl; lia). by destruct HA as [_ [? _]].
  - subst B. rewrite Forall_app, Forall_cons_iff in HB.
    rewrite (proj2 (Z.ltb_ge _ _)) by (rewrite length_app; lia). by destruct HB as [_ [? _]].
Qed.

(** A sorted list is cut in two by a test that earlier elements pass too. *)
Definition downward (L : list item) (p : item -> bool) : Prop :=
  forall a b, a ∈ L -> b ∈ L -> ilt a b -> p b = true -> p a = true.

Lemma split_downward (p : item -> bool) L :
  StronglySorted ilt L -> downward L p ->
  exists A B, L = A ++ B /\ Forall (fun it => p it = true) A /\ Forall (fun it => p it = false) B.
Proof.
  intros HL Hp. induction HL as [|it L HL IH Hit]; [by exists [], []|].
  destruct (p it) eqn:E.
  - destruct IH as (A & B & -> & HA & HB); [intros a b Ha Hb; apply Hp; by apply list_elem_of_further|].
    exists (it :: A), B. split_and!; [done|by constructor|done].
  - exists [], (it :: L). split_and!; [done..|]. constructor; [done|].
    rewrite Forall_forall in Hit |- *. intros b Hb. destruct (p b) eqn:Eb; [|done].
    by rewrite (Hp it b (list_elem_of_here _ _) (list_elem_of_further _ _ _ Hb) (Hit b Hb) Eb) in E.
Qed.

Lemma sorted_app A B :
  StronglySorted ilt (A ++ B) <->
  StronglySorted ilt A /\ StronglySorted ilt B /\ (forall a b, a ∈ A -> b ∈ B -> ilt a b).
Proof.
  induction A as [|x A IH]; cbn [app].
  { split; [intros HB; split_and!; [constructor|done|set_solver]|by intros (_ & ? & _)]. }
  split.
  - intros HL. apply StronglySorted_inv in HL as [HL Hx]. apply IH in HL as (HA & HB & HAB).
    rewrite Forall_app in Hx. destruct Hx as [Hx1 Hx2]. split_and!; [by constructor|done|].
    intros a b [->|Ha]%elem_of_cons Hb; [|by apply HAB]. rewrite Forall_forall in Hx2. by apply Hx2.
  - intros (HA & HB & HAB). apply StronglySorted_inv in HA as [HA Hx]. constructor.
    + apply IH. split_and!; [done..|]. intros. apply HAB; [by apply list_elem_of_further|done].
    + apply Forall_app. split; [done|]. apply Forall_forall. intros b Hb. apply HAB; [apply list_elem_of_here|done].
Qed.

Lemma max_height_app A B : max_height (A ++ B) = Nat.max (max_height A) (max_height B).
Proof. unfold max_height. induction A as [|x A IH]; cbn [app foldr]; [|rewrite IH; lia]. induction B; cbn [foldr]; lia. Qed.

Lemma random_level_bound draws lv k : forall rest,
  random_level draws k = Some (lv, rest) -> (k <= lv)%nat.
Proof.
  revert k. induction draws as [|r draws IH]; intros k rest; cbn [random_level]; [done|].
  destruct (_ <? _); [|by intros [= -> ->]]. intros E%IH. lia.
Qed.

Lemma zslRandomLevel_bound draws lv rest :
  zslRandomLevel draws = Some (lv, rest) -> (1 <= lv <= ZSKIPLIST_MAXLEVEL)%nat.
Proof.
  unfold zslRandomLevel. intros ((k & r) & E & E2)%bind_inv. apply random_level_bound in E.
  injection E2 as <- _. destruct (Nat.ltb_spec k ZSKIPLIST_MAXLEVEL); unfold ZSKIPLIST_MAXLEVEL in *; lia.
Qed.

Section Alloc.
Context (zmalloc : heap -> loc) (junk : zskiplistLevel).
Hypothesis zmalloc_fresh : forall h, h !! zmalloc h = None.

(** A new node. *)
Lemma create_spec h lv s o : 
  let '(h', x) := zslCreateNode zmalloc junk h lv s o in
  x = zmalloc h /\ info h' x = Some (o, s, forward junk, lv) /\
  (forall y, y <> x -> info h' y = info h y) /\
  (forall y j, y <> x -> get_level h' y j = get_level h y j) /\
  (forall j, (j < lv)%nat -> is_Some (get_level h' x j)).
Proof.
  cbn. unfold info, get_level. split_and!; [done| | | |].
  - rewrite lookup_insert_eq. cbn. by rewrite length_replicate.
  - intros y Hy. by rewrite lookup_insert_ne.
  - intros y j Hy. by rewrite lookup_insert_ne.
  - intros j Hj. rewrite lookup_insert_eq. cbn. exists junk. by apply lookup_replicate_2.
Qed.

(** Setting the back pointers of the new node and of its successor. *)
Lemma link_back h1 h it A B x :
  x = i_loc it -> (forall y, y <> x -> info h1 y = info h y) ->
  (forall b, head B = Some b -> i_loc b <> x /\ exists p, info h (i_loc b) = Some (Some (i_obj b), i_score b, p, i_height b)) ->
  info h1 x = Some (Some (i_obj it), i_score it, forward junk, i_height it) ->
  get_level h1 x 0 = Some (fwd 0 B) -> Forall item_ok B ->
  forall tl : ptr, exists h2, (h ← set_backward h1 x (last_loc None A);
    l0 ← get_level h x 0;
    match forward l0 with
    | Some f => h ← set_backward h f (Some x); Some (h, tl)
    | None => Some (h, Some x)
    end) = Some (h2, match B with [] => Some x | _ => tl end) /\
    info h2 x = Some (Some (i_obj it), i_score it, last_loc None A, i_height it) /\
    back_set h h2 it B /\ (forall y j, get_level h2 y j = get_level h1 y j).
Proof.
  intros -> Hold HB Hx Hl0 Hok tl.
  destruct (set_backward_spec h1 (i_loc it) (last_loc None A) _ _ _ _ Hx) as (h2 & -> & Hi2 & Hl2). osimpl.
  rewrite Hl2, Hl0. osimpl. destruct B as [|b B]; cbn [fwd forward].
  { exists h2. split_and!; [done| |intros y Hy|done].
    - by rewrite Hi2, bool_decide_eq_true_2.
    - rewrite Hi2, bool_decide_eq_false_2 by done. by apply Hold. }
  apply Forall_cons_iff in Hok as [[[Hb _] _] _]. rewrite (proj2 (Nat.ltb_lt _ _)) by lia. cbn [forward].
  destruct (HB b eq_refl) as (Hne & p & Hp).
  destruct (set_backward_spec h2 (i_loc b) (Some (i_loc it)) (Some (i_obj b)) (i_score b) p (i_height b)) as (h3 & -> & Hi3 & Hl3).
  { rewrite Hi2, bool_decide_eq_false_2 by done. by rewrite Hold. }
  osimpl. exists h3. split_and!; [done| |intros y Hy|].
  - rewrite Hi3, bool_decide_eq_false_2 by done. by rewrite Hi2, bool_decide_eq_true_2.
  - rewrite Hi3. case_bool_decide; [done|]. rewrite Hi2, bool_decide_eq_false_2 by done. by apply Hold.
  - intros y j. by rewrite Hl3, Hl2.
Qed.

Lemma raised_update h z A B lv update :
  repr h z (A ++ B) -> length update = zlevel z -> (forall j ur, update !! j = Some ur -> update_ok z A j ur) ->
  forall j, (j < Nat.max (zlevel z) lv)%nat ->
  exists ur, (update ++ replicate (lv - zlevel z) (header z, 0)) !! j = Some ur /\ update_ok z A j ur.
Proof.
  intros Hr Hl Hu j Hj. destruct (decide (j < zlevel z)%nat) as [Hlt|Hge].
  - destruct (lookup_lt_is_Some_2 update j) as [ur Hur]; [lia|]. exists ur.
    split; [by apply lookup_app_l_Some|by apply Hu].
  - exists (header z, 0). split.
    + rewrite lookup_app_r by lia. apply lookup_replicate_2. lia.
    + exists [], A. split_and!; [done..| |done].
      pose proof (n_low _ _ _ _ (r_nodes _ _ _ Hr)) as Hlow. apply Forall_app in Hlow as [Hlow _].
      eapply Forall_impl; [exact Hlow|]. unfold low. cbn. intros; lia.
Qed.

Lemma zsl_insert_spec h z A B s o draws lv rest :
  repr h z (A ++ B) -> isnan s = false -> so_valid o -> zlen (A ++ B) + 1 < 2 ^ 32 - 1 ->
  Forall (fun it => item_cmp (i_score it) (i_obj it) s o = Lt) A ->
  Forall (fun it => item_cmp (i_score it) (i_obj it) s o = Gt) B ->
  zslRandomLevel draws = Some (lv, rest) ->
  exists h' z' x, zslInsert zmalloc junk h z s o draws = Some (h', z', x, rest) /\
    repr h' z' (A ++ Item x s o lv :: B) /\ header z' = header z.
Proof.
  intros Hr Hs Hv Hsmall HA HB Hlv. unfold zslInsert. rewrite Hs.
  destruct (zslRandomLevel_bound _ _ _ Hlv) as [Hlv1 Hlv2].
  pose proof (n_ok _ _ _ _ (r_nodes _ _ _ Hr)) as Hok.
  assert (splits_at (fun _ n => node_before true s o n) (A ++ B) A) as Hsp.
  { apply (splits_at_pred (fun it => match item_cmp (i_score it) (i_obj it) s o with Lt => true | _ => false end)).
    - intros it n _ Hin Ho Hsc. rewrite (node_before_spec true s o n it) by (done || by rewrite Forall_forall in Hok; apply Hok).
      by destruct (item_cmp _ _ _ _).
    - eapply Forall_impl; [exact HA|]. by intros it ->.
    - eapply Forall_impl; [exact HB|]. by intros it ->. }
  destruct (search_spec h z A B _ 32 Hr Hsp ltac:(lia)) as (x0 & update & -> & Hlu & Hu & Hu0 & Hx0). osimpl.
  rewrite Hlv. osimpl.
  destruct (raise_spec h z (A ++ B) lv update Hr Hlv2 Hlu) as (h1 & -> & Hn1 & Hi1). osimpl.
  pose proof (raised_update h z A B lv update Hr Hlu Hu) as Hupd.
  set (update' := update ++ _) in *. set (zl := Nat.max (zlevel z) lv) in *.
  pose proof (create_spec h1 lv s (Some o)) as Hc. destruct (zslCreateNode zmalloc junk h1 lv s (Some o)) as [h2 x].
  destruct Hc as (Hx & Hix & Hi2 & Hl2 & Hlx). set (it := Item x s o lv).
  assert (h1 !! i_loc it = None) as Hfresh by (cbn; rewrite Hx; apply zmalloc_fresh).
  assert (update' !! 0%nat = Some (x0, zlen A)) as E0 by (by apply lookup_app_l_Some).
  assert (item_ok it) as Hitok by done.
  assert (i_height it <= zl)%nat as Hzl by (cbn; lia).
  rewrite E0. osimpl.
  destruct (link_spec h1 z zl A B update' it Hn1 ltac:(lia) Hupd Hfresh Hzl h2) as (h3 & E3 & Hi3 & Hl3);
    [intros; by apply Hl2|done|]. cbn [i_height i_loc it] in E3. rewrite E3. osimpl.
  destruct (grow_spec h1 z zl A B update' it Hn1 ltac:(lia) Hupd Hfresh Hzl h3) as (h4 & E4 & Hi4 & Hl4).
  { intros y j Hj Hy. rewrite Hl3, bool_decide_eq_false_2 by lia. by apply Hl2. }
  cbn [i_height i_loc it] in E4. rewrite E4. osimpl.
  destruct (linked_levels h1 z zl A B update' it Hn1 Hupd Hfresh Hzl h2 h3 h4) as (HL1 & HL2 & HL3);
    [intros; by apply Hl2|done..|].
  set (back := if bool_decide (x0 = header z) then _ else _).
  assert (back = last_loc None A) as ->.
  { unfold back. pose proof (n_nodup _ _ _ _ Hn1) as Hnd. apply at_pos_inv in Hx0 as [[-> ->]|(A' & it' & -> & -> & _)].
    - by rewrite bool_decide_eq_true_2.
    - rewrite last_loc_snoc, bool_decide_eq_false_2; [done|]. intros E. apply NoDup_cons in Hnd as [Hnd _].
      apply Hnd. rewrite <- E. apply locs_in. set_solver. }
  destruct (link_back h4 h1 it A B x eq_refl) with (tl := tail z) as (h5 & E5 & Hix5 & Hb5 & Hl5).
  - intros y Hy. by rewrite Hi4, Hi3, Hi2.
  - intros b Hb. destruct B as [|b' B]; [done|]. injection Hb as ->. split.
    + intros E. apply (nodes_alloc h1 (header z) zl (A ++ b :: B) x Hn1); [done|]. rewrite <- E.
      apply list_elem_of_further, locs_in. set_solver.
    + exists (last_loc None A). by apply (item_info h1 (header z) zl A b B).
  - by rewrite Hi4, Hi3.
  - apply HL1. cbn. lia.
  - by apply Forall_app in Hok as [_ ?].
  - revert E5. destruct (set_backward h4 x (last_loc None A)) as [h4'|]; [|done]. osimpl.
    destruct (get_level h4' x 0) as [l0|]; [|done]. osimpl. unfold ptr. intros ->. osimpl.
    eexists h5, _, x. split; [done|]. split; [|done].
    assert (nodes h5 (header z) zl (A ++ it :: B)) as Hn5.
    { apply (nodes_insert h1 h5 z zl A B update' it); try done.
      - intros j Hj. rewrite Hl5. by apply HL1.
      - intros y j Hy Hj. rewrite Hl5. by apply HL2.
      - intros j Hj. destruct (HL3 j Hj) as (u & P & T & ? & ? & ? & ? & ? & Ho). exists u, P, T.
        split_and!; try done; [by rewrite Hl5|]. intros y Hy Hyu. rewrite Hl5. by apply Ho. }
    constructor; cbn [header tail zlength zlevel].
    + done.
    + rewrite last_loc_app, last_loc_cons. destruct B as [|b B]; [done|].
      by rewrite (r_tail _ _ _ Hr), last_loc_app, !last_loc_cons.
    + rewrite (r_length _ _ _ Hr), !length_app. cbn [length]. lia.
    + unfold zl. rewrite (r_level _ _ _ Hr), !max_height_app.
      change (max_height (Item x s o lv :: B)) with (Nat.max lv (max_height B)). lia.
    + pose proof (r_sorted _ _ _ Hr) as Hso. apply sorted_app in Hso as (HsA & HsB & HsAB). rewrite Forall_forall in HA, HB.
      apply sorted_app. split_and!; [done| |].
      * constructor; [done|]. apply Forall_forall. intros b Hb. unfold ilt. cbn. rewrite item_cmp_antisym.
        by rewrite (HB b Hb).
      * intros a b Ha [->|Hb]%elem_of_cons; [by apply HA|by apply HsAB].
    + rewrite length_app in *. cbn [length]. lia.
Qed.

Lemma zslCreate_spec h :
  exists h' z, zslCreate zmalloc junk h = Some (h', z) /\ repr h' z [] /\ header z = zmalloc h.
Proof.
  unfold zslCreate. pose proof (create_spec h ZSKIPLIST_MAXLEVEL (SpecFloat.S754_zero false) None) as Hc.
  destruct (zslCreateNode zmalloc junk h ZSKIPLIST_MAXLEVEL _ None) as [h1 x]. destruct Hc as (Hx & Hi & _ & _ & Hl).
  destruct (for_levels_spec (fun j h => set_level h x j (Level None 0))
    (fun j y => if bool_decide (y = x) then Some (Level None 0) else get_level h1 y j) ZSKIPLIST_MAXLEVEL 0 h1) as (h2 & -> & Hi2 & Hl2).
  { intros j h3 Hj Hi3 Hl3. destruct (Hl j ltac:(lia)) as [lv Hlv].
    destruct (set_level_spec h3 x j (Level None 0) lv) as (h4 & -> & Hi4 & Hl4); [by rewrite Hl3|].
    exists h4. split_and!; [done|done| |].
    - intros y. rewrite Hl4, Hl3. by rewrite (bool_decide_ext (y = x /\ j = j) (y = x)) by naive_solver.
    - intros y k Hk. rewrite Hl4. by rewrite bool_decide_eq_false_2 by (by intros [_ ?]). }
  osimpl. rewrite <- Hi2 in Hi.
  destruct (set_backward_spec h2 x None _ _ _ _ Hi) as (h5 & -> & Hi5 & Hl5). osimpl.
  exists h5, (Zskiplist x None 0 1). split; [done|]. split; [|done].
  assert (forall i, (i < ZSKIPLIST_MAXLEVEL)%nat -> get_level h5 x i = Some (Level None 0)) as Hlev.
  { intros i Hii. rewrite Hl5, Hl2, bool_decide_eq_true_2, bool_decide_eq_true_2 by (done || lia). done. }
  constructor; cbn [header tail zlength zlevel]; try done; [|constructor].
  constructor; try done.
  - constructor; [apply not_elem_of_nil|constructor].
  - rewrite Hi5, bool_decide_eq_true_2 by done. eauto.
  - intros i Hii. apply Hlev. unfold ZSKIPLIST_MAXLEVEL. lia.
  - intros i Hii. exists (Level None 0). split; [|done]. apply Hlev. lia.
Qed.

End Alloc.

(** ** Deletion *)
Lemma in_front hd A B y : y ∈ hd :: locs A -> y ∈ hd :: locs (A ++ B).
Proof. unfold locs. rewrite fmap_app, app_comm_cons. intros. apply elem_of_app. by left. Qed.

Lemma nodes_delete h h' hd zl A it B (u : nat -> loc) :
  nodes h hd zl (A ++ it :: B) ->
  (forall y, y <> i_loc it -> info h' y = match B with
     | b :: _ => if bool_decide (y = i_loc b)
                 then Some (Some (i_obj b), i_score b, last_loc None A, i_height b) else info h y
     | [] => info h y
     end) ->
  (forall j, (j < zl)%nat -> exists P T, A = P ++ T /\ at_pos hd P (u j) j /\ Forall (low j) T /\
     get_level h' (u j) j = Some (fwd j (T ++ B))) ->
  (forall y j, (j < zl)%nat -> y <> u j -> get_level h' y j = get_level h y j) ->
  (forall y j, (zl <= j)%nat -> get_level h' y j = get_level h y j) ->
  nodes h' hd zl (A ++ B).
Proof.
  intros Hn Hb Hu Ho Habove.
  pose proof (n_nodup _ _ _ _ Hn) as Hnd.
  assert (NoDup (hd :: locs (A ++ B)) /\ i_loc it ∉ hd :: locs (A ++ B)) as [Hnd' Hnew].
  { assert (hd :: locs (A ++ it :: B) ≡ₚ i_loc it :: hd :: locs (A ++ B)) as E.
    { unfold locs. rewrite !fmap_app, fmap_cons. solve_Permutation. }
    rewrite E in Hnd. by apply NoDup_cons in Hnd as [? ?]. }
  assert (hd ∉ locs (A ++ B)) as Hhd by (by apply NoDup_cons in Hnd' as [? _]).
  pose proof (relevel h h' hd zl A (it :: B) B u Hn Hu ltac:(intros; by apply Ho)) as HA.
  pose proof (n_items _ _ _ _ Hn) as HI. rewrite items_in_iff in HI.
  constructor.
  - done.
  - apply items_in_iff. intros A0 it0 B0 E.
    assert (i_loc it0 ∈ locs (A ++ B)) as Hin by (apply locs_in; rewrite E; set_solver).
    assert (i_loc it0 <> i_loc it) as Hne by (intros E0; apply Hnew; rewrite <- E0; by apply list_elem_of_further).
    apply app_eq_app in E as (k & [[EA EB]|[EA EB]]); [destruct k as [|y k]; cbn in EB; [|injection EB as <- ->]|].
    + (* the first element after the one that went *)
      rewrite app_nil_r in EA. subst A0 B. destruct (HI (A ++ [it]) it0 B0) as [HI1 HI2]; [by rewrite <- app_assoc|].
      split; [by rewrite Hb, bool_decide_eq_true_2|]. intros i Hi.
      destruct (decide (i < zl)%nat) as [Hlt|]; [|rewrite Habove by lia; by apply HI2].
      rewrite Ho; [by apply HI2|done|]. intros Eu. destruct (Hu i Hlt) as (P & T & EA & Hp & _).
      apply at_pos_in in Hp. rewrite <- Eu in Hp.
      apply (nodup_split hd A (it0 :: B0) (i_loc it0) Hnd'); [rewrite EA; by apply in_front|apply list_elem_of_here].
    + assert (A ++ it :: B = A0 ++ it0 :: (k ++ it :: B)) as EL by (rewrite EA, <- app_assoc; done).
      destruct (HI A0 it0 (k ++ it :: B) EL) as [HI1 _]. split.
      * rewrite Hb, HI1 by done. destruct B as [|b B]; [done|]. rewrite bool_decide_eq_false_2; [done|]. intros Eb.
        apply (nodup_split hd A (b :: B) (i_loc it0)); [done| |rewrite Eb; apply list_elem_of_here].
        rewrite EA. apply list_elem_of_further, locs_in. set_solver.
      * intros i Hi. apply (HA (A0 ++ [it0]) k); [by rewrite <- app_assoc|by apply at_pos_snoc|].
        pose proof (n_low _ _ _ _ Hn) as Hl. rewrite EL, Forall_app, Forall_cons_iff in Hl. unfold low in Hl. lia.
    + subst A0 B. destruct (HI (A ++ it :: k) it0 B0) as [HI1 HI2]; [by rewrite <- app_assoc|].
      split.
      * rewrite Hb by done. destruct k as [|b k]; cbn [app].
        -- rewrite bool_decide_eq_true_2 by done. by rewrite app_nil_r.
        -- rewrite bool_decide_eq_false_2, HI1; [by rewrite !last_loc_app, !last_loc_cons|].
           apply NoDup_cons in Hnd' as [_ Hnd']. unfold locs in Hnd'. rewrite fmap_app in Hnd'.
           apply NoDup_app in Hnd' as (_ & _ & Hnd'). cbn in Hnd'. apply NoDup_cons in Hnd' as [Hb0 _].
           intros Eb. apply Hb0. rewrite <- Eb. apply locs_in. set_solver.
      * intros i Hi. destruct (decide (i < zl)%nat) as [Hlt|]; [|rewrite Habove by lia; by apply HI2].
        rewrite Ho; [by apply HI2|done|]. intros Eu. destruct (Hu i Hlt) as (P & T & EA & Hp & _).
        apply at_pos_in in Hp. rewrite <- Eu in Hp.
        apply (nodup_split hd A (k ++ it0 :: B0) (i_loc it0) Hnd'); [rewrite EA; by apply in_front|apply locs_in; set_solver].
  - pose proof (n_ok _ _ _ _ Hn) as Hok. rewrite Forall_app, Forall_cons_iff in Hok. apply Forall_app. naive_solver.
  - destruct (n_header _ _ _ _ Hn) as (s & b & E). exists s, b. rewrite Hb, <- E.
    + destruct B as [|b0 B]; [done|]. rewrite bool_decide_eq_false_2; [done|]. intros ->. apply Hhd. apply locs_in. set_solver.
    + intros E0. apply Hnew. rewrite <- E0. apply list_elem_of_here.
  - intros i Hi. by apply (HA [] A).
  - intros i Hi. rewrite Habove by lia. apply Hn. lia.
  - pose proof (n_low _ _ _ _ Hn) as Hok. rewrite Forall_app, Forall_cons_iff in Hok. apply Forall_app. naive_solver.
Qed.

(** The heap may lose any other node. *)
Lemma nodes_free h hd zl L x : nodes h hd zl L -> x ∉ hd :: locs L -> nodes (delete x h) hd zl L.
Proof.
  intros Hn Hx.
  assert (forall y, y <> x -> info (delete x h) y = info h y /\ forall i, get_level (delete x h) y i = get_level h y i) as Hd.
  { intros y Hy. unfold info, get_level. by rewrite lookup_delete_ne by done. }
  assert (hd <> x) as Hhd by (intros ->; apply Hx, list_elem_of_here).
  destruct (Hd hd Hhd) as [E1 E2]. destruct Hn. constructor; try done.
  - apply items_in_ext with h; [|done]. intros it Hit. destruct (Hd (i_loc it)) as [? ?]; [|done].
    intros <-. apply Hx. apply list_elem_of_further. by apply locs_in.
  - by rewrite E1.
  - intros i Hi. rewrite E2. by apply n_levels0.
  - intros i Hi. rewrite E2. by apply n_above0.
Qed.

Lemma nodes_lower h hd zl lv L : nodes h hd zl L -> (lv <= zl)%nat -> Forall (low lv) L -> nodes h hd lv L.
Proof.
  intros Hn Hle Hlow. pose proof Hn as Hn0. destruct Hn. constructor; try done.
  - intros i Hi. apply n_levels0. lia.
  - intros i Hi. destruct (decide (i < zl)%nat); [|apply n_above0; lia].
    exists (fwd i L). split; [by apply n_levels0|]. rewrite fwd_low; [done|].
    eapply Forall_impl; [exact Hlow|]. unfold low. cbn. intros; lia.
Qed.

Lemma max_height_low lv L : Forall (low lv) L -> (1 <= lv)%nat -> (max_height L <= lv)%nat.
Proof. intros HL Hlv. unfold max_height. induction HL as [|it L Hit HL IH]; cbn [foldr]; [done|]. unfold low in Hit. lia. Qed.

Lemma low_max_height L : Forall (low (max_height L)) L.
Proof.
  assert (forall m, (max_height L <= m)%nat -> Forall (low m) L) as Hm; [|by apply Hm].
  unfold max_height. induction L as [|it L IH]; intros m Hm; [done|]. cbn [foldr] in Hm.
  constructor; [unfold low; lia|apply IH; lia].
Qed.

Lemma lower_level_spec h hd zl L : nodes h hd zl L ->
  forall lv, (1 <= lv <= zl)%nat -> Forall (low lv) L -> lower_level h hd lv = Some (max_height L).
Proof.
  intros Hn lv Hlv Hlow. pose proof (max_height_low lv L Hlow ltac:(lia)) as Hmax.
  assert (1 <= max_height L)%nat by (clear; unfold max_height; induction L; cbn [foldr]; lia).
  induction lv as [|lv IH]; [lia|]. destruct lv as [|lv]; [cbn; f_equal; lia|].
  change (lower_level h hd (S (S lv))) with
    (l ← get_level h hd (S lv); match forward l with None => lower_level h hd (S lv) | Some _ => Some (S (S lv)) end).
  rewrite (n_levels _ _ _ _ Hn) by lia. osimpl. destruct (forward (fwd (S lv) L)) as [x|] eqn:E.
  - f_equal. assert (~ (max_height L <= S lv)%nat); [|lia]. intros Hle.
    rewrite fwd_low in E; [done|]. eapply Forall_impl; [exact (low_max_height L)|]. unfold low. cbn. intros; lia.
  - apply fwd_None in E. apply IH; [lia|done|]. by apply max_height_low; [|lia].
Qed.

Section Delete.
Context h z A it B (update : list (loc * Z)).
Hypothesis Hr : repr h z (A ++ it :: B).
Hypothesis Hupd : forall j, (j < zlevel z)%nat -> exists ur, update !! j = Some ur /\ update_ok z A j ur.

Definition unlink_f (j : nat) (y : loc) : option zskiplistLevel :=
  '(u, r) ← update !! j;
  if bool_decide (y = u) then Some (fwd j (drop (Z.to_nat r) A ++ B)) else get_level h y j.

Lemma unlink_levels_spec :
  exists h', for_levels (zlevel z) 0 (unlink_level (i_loc it) update) h = Some h' /\
    (forall y, info h' y = info h y) /\
    (forall y j, get_level h' y j = if bool_decide (j < zlevel z)%nat then unlink_f j y else get_level h y j).
Proof.
  pose proof (r_nodes _ _ _ Hr) as Hn. pose proof (r_small _ _ _ Hr) as Hsmall.
  destruct (for_levels_spec (unlink_level (i_loc it) update) unlink_f (zlevel z) 0 h) as (h' & -> & Hi & Hl).
  - intros j h1 Hj Hi1 Hl1. destruct (Hupd j ltac:(lia)) as ([u r] & Hu & (P & T & HA & Hp & HT & Hrk)). cbn in Hp, Hrk. subst r.
    unfold unlink_level, unlink_f. rewrite Hu. osimpl. rewrite (Hl1 u).
    assert (get_level h u j = Some (fwd j (T ++ it :: B))) as Hg.
    { apply (pos_level h (header z) (zlevel z) P (T ++ it :: B)); [by rewrite app_assoc, <- HA|done|lia]. }
    rewrite Hg. osimpl.
    assert (drop (Z.to_nat (zlen P)) A = T) as -> by (by rewrite HA, Nat2Z.id, drop_app_length).
    pose proof (fwd_span_bound j B). rewrite HA, !length_app in Hsmall. cbn [length] in Hsmall.
    assert (exists lv, lv = fwd j (T ++ B) /\
      (if bool_decide (forward (fwd j (T ++ it :: B)) = Some (i_loc it))
       then lx ← get_level h1 (i_loc it) j;
            set_level h1 u j (Level (forward lx) (wrap 32 (span (fwd j (T ++ it :: B)) + (span lx - 1))))
       else set_level h1 u j (Level (forward (fwd j (T ++ it :: B))) (wrap 32 (span (fwd j (T ++ it :: B)) - 1)))) =
      set_level h1 u j lv) as (lv & -> & ->).
    { rewrite (fwd_skip j T B) by done. eexists. split; [done|].
      destruct (decide (j < i_height it)%nat) as [Hlt|Hge].
      - rewrite (fwd_hit j T it B) by done. cbn [forward span]. rewrite bool_decide_eq_true_2 by done.
        rewrite Hl1. pose proof (n_items _ _ _ _ Hn) as HI. rewrite items_in_iff in HI.
        destruct (HI A it B eq_refl) as [_ ->]; [|done]. osimpl. rewrite wrap_small by (unfold in_u; lia).
        f_equal. f_equal. lia.
      - rewrite (fwd_skip j T (it :: B)) by done. cbn [fwd]. rewrite (proj2 (Nat.ltb_ge _ _)) by lia. cbn [forward span].
        rewrite bool_decide_eq_false_2.
        + rewrite wrap_small by (unfold in_u; lia). f_equal. f_equal. lia.
        + intros E%fwd_in. pose proof (n_nodup _ _ _ _ Hn) as Hnd. apply NoDup_cons in Hnd as [_ Hnd].
          unfold locs in Hnd. rewrite fmap_app in Hnd. apply NoDup_app in Hnd as (_ & _ & Hnd). cbn in Hnd.
          by apply NoDup_cons in Hnd as [? _]. }
    destruct (set_level_spec h1 u j (fwd j (T ++ B)) (fwd j (T ++ it :: B))) as (h2 & -> & Hi2 & Hl2); [by rewrite Hl1|].
    exists h2. split_and!; [done|done| |].
    + intros y. rewrite Hl2, Hl1. by rewrite (bool_decide_ext (y = u /\ j = j) (y = u)) by naive_solver.
    + intros y k Hk. rewrite Hl2. by rewrite bool_decide_eq_false_2 by (by intros [_ ?]).
  - exists h'. split_and!; [done..|]. intros y j. rewrite Hl.
    by rewrite (bool_decide_ext (0 <= j < 0 + zlevel z)%nat (j < zlevel z)%nat) by lia.
Qed.

(** The successor's back pointer and the tail. *)
Lemma unlink_back h1 :
  (forall y, info h1 y = info h y) -> get_level h1 (i_loc it) 0 = Some (fwd 0 B) ->
  exists h2 tl, (n ← h1 !! i_loc it; l0 ← get_level h1 (i_loc it) 0;
    match forward l0 with
    | Some f => h ← set_backward h1 f (backward n); Some (h, tail z)
    | None => Some (h1, backward n)
    end) = Some (h2, tl) /\ tl = last_loc None (A ++ B) /\
    (forall y, info h2 y = match B with
     | b :: _ => if bool_decide (y = i_loc b)
                 then Some (Some (i_obj b), i_score b, last_loc None A, i_height b) else info h y
     | [] => info h y
     end) /\ (forall y j, get_level h2 y j = get_level h1 y j).
Proof.
  intros Hi Hl. pose proof (r_nodes _ _ _ Hr) as Hn. pose proof (item_info h _ _ A it B Hn) as Hx. rewrite <- Hi in Hx.
  destruct (info_node _ _ _ _ _ _ Hx) as (n & -> & _ & _ & Hbk & _). osimpl. rewrite Hl. osimpl. rewrite Hbk.
  destruct B as [|b B'] eqn:EB; cbn [fwd forward].
  { exists h1. eexists. split_and!; [done|by rewrite app_nil_r|done|done]. }
  pose proof (n_ok _ _ _ _ Hn) as Hok. rewrite Forall_app, !Forall_cons_iff in Hok.
  destruct Hok as (_ & _ & [[Hb _] _] & _). rewrite (proj2 (Nat.ltb_lt _ _)) by lia. cbn [forward].
  assert (info h1 (i_loc b) = Some (Some (i_obj b), i_score b, Some (i_loc it), i_height b)) as Hib.
  { rewrite Hi. rewrite (item_info h (header z) (zlevel z) (A ++ [it]) b B') by (by rewrite <- app_assoc).
    by rewrite last_loc_snoc. }
  destruct (set_backward_spec h1 (i_loc b) (last_loc None A) _ _ _ _ Hib) as (h2 & -> & Hi2 & Hl2). osimpl.
  exists h2. eexists. split_and!; [done| | |done].
  - by rewrite (r_tail _ _ _ Hr), !last_loc_app, !last_loc_cons.
  - intros y. by rewrite Hi2, Hi.
Qed.

Lemma delete_node_spec :
  exists h' z' n, zslDeleteNode h z (i_loc it) update = Some (h', z') /\
    h' !! i_loc it = Some n /\ obj n = Some (i_obj it) /\
    repr (delete (i_loc it) h') z' (A ++ B) /\ header z' = header z /\ (zlevel z' <= zlevel z)%nat.
Proof.
  unfold zslDeleteNode. pose proof (r_nodes _ _ _ Hr) as Hn.
  pose proof (n_nodup _ _ _ _ Hn) as Hnd.
  assert (i_loc it ∉ header z :: locs (A ++ B)) as Hnew.
  { assert (header z :: locs (A ++ it :: B) ≡ₚ i_loc it :: header z :: locs (A ++ B)) as E.
    { unfold locs. rewrite !fmap_app, fmap_cons. solve_Permutation. }
    rewrite E in Hnd. by apply NoDup_cons in Hnd as [? ?]. }
  assert (forall P u j T, A = P ++ T -> at_pos (header z) P u j -> u <> i_loc it) as Hux.
  { intros P u j T HA Hp ->. apply Hnew. rewrite HA. apply at_pos_in in Hp. by do 2 apply in_front. }
  destruct unlink_levels_spec as (h1 & -> & Hi1 & Hl1). osimpl.
  assert (forall j, (j < i_height it)%nat -> get_level h1 (i_loc it) j = Some (fwd j B)) as Hlx.
  { intros j Hj. pose proof (n_items _ _ _ _ Hn) as HI. rewrite items_in_iff in HI.
    destruct (HI A it B eq_refl) as [_ HI2]. rewrite Hl1. case_bool_decide as Hlt; [|by apply HI2].
    unfold unlink_f. destruct (Hupd j Hlt) as ([u r] & -> & (P & T & HA & Hp & _)). osimpl.
    rewrite bool_decide_eq_false_2; [by apply HI2|]. intros E. by apply (Hux P u j T). }
  pose proof (n_ok _ _ _ _ Hn) as Hok. pose proof Hok as Hok1. rewrite Forall_app, Forall_cons_iff in Hok1.
  destruct Hok1 as (_ & [[Hh1 _] _] & _).
  destruct (unlink_back h1 Hi1 (Hlx 0%nat ltac:(lia))) as (h2 & tl & E & Htl & Hb & Hl2).
  revert E. destruct (h1 !! i_loc it) as [n|] eqn:En; [|done]. osimpl.
  destruct (get_level h1 (i_loc it) 0) as [l0|]; [|done]. osimpl. unfold ptr. intros ->. osimpl.
  assert (nodes h2 (header z) (zlevel z) (A ++ B)) as Hn2.
  { apply (nodes_delete h h2 (header z) (zlevel z) A it B (fun j => default (header z) (fst <$> update !! j)) Hn).
    - intros y _. apply Hb.
    - intros j Hj. destruct (Hupd j Hj) as ([u r] & Hu & (P & T & HA & Hp & HT & Hrk)). cbn in Hp, Hrk.
      exists P, T. rewrite Hu. cbn. split_and!; try done.
      rewrite Hl2, Hl1, bool_decide_eq_true_2 by done. unfold unlink_f. rewrite Hu. osimpl.
      rewrite bool_decide_eq_true_2 by done. subst r. by rewrite HA, Nat2Z.id, drop_app_length.
    - intros y j Hj Hy. rewrite Hl2, Hl1, bool_decide_eq_true_2 by done. unfold unlink_f.
      destruct (Hupd j Hj) as ([u r] & Hu & _). rewrite Hu in *. cbn in Hy. osimpl. by rewrite bool_decide_eq_false_2.
    - intros y j Hj. by rewrite Hl2, Hl1, bool_decide_eq_false_2 by lia. }
  pose proof (zlevel_pos h z A (it :: B) Hr) as [Hz1 _].
  pose proof (n_low _ _ _ _ Hn2) as Hlow2.
  rewrite (lower_level_spec h2 (header z) (zlevel z) (A ++ B) Hn2) by (done || lia). osimpl.
  assert (info h2 (i_loc it) = info h (i_loc it)) as Hix.
  { rewrite Hb. destruct B as [|b B']; [done|]. rewrite bool_decide_eq_false_2; [done|]. intros E.
    apply Hnew. rewrite E. apply list_elem_of_further, locs_in. set_solver. }
  rewrite (item_info h _ _ A it B Hn) in Hix.
  destruct (info_node _ _ _ _ _ _ Hix) as (n2 & Hn2' & Ho2 & _).
  eexists h2, _, n2. split_and!; [done|done|done| |done|by apply max_height_low].
  pose proof (r_small _ _ _ Hr) as Hsm. rewrite length_app in Hsm. cbn [length] in Hsm.
  constructor; cbn [header tail zlength zlevel].
  - apply nodes_free; [|done]. apply nodes_lower with (zlevel z); [done|by apply max_height_low|apply low_max_height].
  - done.
  - rewrite (r_length _ _ _ Hr), !length_app. cbn [length]. lia.
  - done.
  - pose proof (r_sorted _ _ _ Hr) as Hso. apply sorted_app in Hso as (HsA & HsB & HsAB). apply sorted_app.
    apply StronglySorted_inv in HsB as [HsB _]. split_and!; [done..|]. intros a b Ha Hb'. apply HsAB; [done|by apply list_elem_of_further].
  - rewrite length_app. lia.
Qed.
End Delete.

Lemma fwd_0 b B : item_ok b -> forward (fwd 0 (b :: B)) = Some (i_loc b).
Proof. intros [[Hb _] _]. cbn [fwd]. by rewrite (proj2 (Nat.ltb_lt _ _)) by lia. Qed.

Lemma forward0_spec h z A B x :
  repr h z (A ++ B) -> at_pos (header z) A x 0 -> forward0 h x = Some (i_loc <$> head B).
Proof.
  intros Hr Hx. pose proof (r_nodes _ _ _ Hr) as Hn. pose proof (zlevel_pos h z A B Hr) as [? _].
  unfold forward0. rewrite (pos_level h (header z) (zlevel z) A B x 0 Hn Hx) by lia. osimpl.
  destruct B as [|b B]; [done|]. rewrite fwd_0; [done|].
  pose proof (n_ok _ _ _ _ Hn) as Hok. rewrite Forall_app, Forall_cons_iff in Hok. by destruct Hok as (_ & ? & _).
Qed.

Lemma ok_in h z L it : repr h z L -> it ∈ L -> item_ok it.
Proof. intros Hr Hit. pose proof (n_ok _ _ _ _ (r_nodes _ _ _ Hr)) as Hok. rewrite Forall_forall in Hok. by apply Hok. Qed.

(** The elements before a pair of score and object. *)
Lemma split_at h z L s o :
  repr h z L -> isnan s = false -> so_valid o ->
  exists A B, L = A ++ B /\ splits_at (fun _ n => node_before true s o n) L A /\
    Forall (fun it => item_cmp (i_score it) (i_obj it) s o = Lt) A /\
    Forall (fun it => item_cmp (i_score it) (i_obj it) s o <> Lt) B.
Proof.
  intros Hr Hs Hv. pose (p := fun it => match item_cmp (i_score it) (i_obj it) s o with Lt => true | _ => false end).
  destruct (split_downward p L) as (A & B & -> & HA & HB).
  - apply (r_sorted _ _ _ Hr).
  - unfold p, ilt. intros a b _ _ Hab. destruct (item_cmp (i_score b) _ _ _) eqn:Hb; try done.
    by rewrite (item_cmp_trans Lt _ _ _ _ _ _ Hab Hb).
  - exists A, B. split; [done|]. split.
    + apply (splits_at_pred p); [|done..]. intros it n _ Hin Ho Hsc.
      rewrite (node_before_spec true s o n it) by (done || by apply (ok_in h z (A ++ B))).
      unfold p. by destruct (item_cmp _ _ _ _).
    + unfold p in *. split; (eapply Forall_impl; [eassumption|]); cbn; intros it; by destruct (item_cmp _ _ _ _).
Qed.

Lemma update_total (update : list (loc * Z)) z A :
  length update = zlevel z -> (forall j ur, update !! j = Some ur -> update_ok z A j ur) ->
  forall j, (j < zlevel z)%nat -> exists ur, update !! j = Some ur /\ update_ok z A j ur.
Proof.
  intros Hl Hu j Hj. destruct (lookup_lt_is_Some_2 update j) as [ur Hur]; [lia|]. eauto.
Qed.

Lemma delete_spec h z L s o :
  repr h z L -> isnan s = false -> so_valid o ->
  exists h' z' r, zslDelete h z s o = Some (h', z', r) /\ header z' = header z /\
    ((exists A it B, L = A ++ it :: B /\ item_cmp (i_score it) (i_obj it) s o = Eq /\
        r = Some (i_obj it) /\ repr h' z' (A ++ B)) \/
     (Forall (fun it => item_cmp (i_score it) (i_obj it) s o <> Eq) L /\ r = None /\ h' = h /\ z' = z)).
Proof.
  intros Hr Hs Hv. destruct (split_at h z L s o Hr Hs Hv) as (A & B & -> & Hsp & HA & HB).
  unfold zslDelete. destruct (search_spec h z A B _ 32 Hr Hsp ltac:(lia)) as (x & update & -> & Hlu & Hu & _ & Hx). osimpl.
  pose proof (forward0_spec h z A B x Hr Hx) as Hf. unfold forward0 in Hf. apply bind_inv in Hf as (l0 & -> & Hf).
  injection Hf as Hf. osimpl. rewrite Hf.
  assert (Forall (fun it => item_cmp (i_score it) (i_obj it) s o <> Eq) A) as HA'.
  { eapply Forall_impl; [exact HA|]. cbn. by intros it ->. }
  destruct B as [|b B]; cbn [head fmap option_fmap option_map].
  { exists h, z, None. split_and!; [done..|]. right. by rewrite app_nil_r. }
  pose proof (r_nodes _ _ _ Hr) as Hn. destruct (item_node h _ _ A b B Hn) as (n & Hnb & Ho & Hsc).
  destruct (ok_in h z _ b Hr ltac:(set_solver)) as (Hh & Hvb & Hnan).
  rewrite Hnb. osimpl. rewrite Ho. osimpl. rewrite Hsc.
  assert ((if deq s (i_score b) then so_equal (i_obj b) o else Some false) =
          Some (match item_cmp (i_score b) (i_obj b) s o with Eq => true | _ => false end)) as ->.
  { rewrite deq_key by done. unfold item_cmp. rewrite (kcompare_antisym (key (i_score b))).
    destruct (kcompare (key (i_score b)) (key s)); cbn [CompOpp]; try done.
    rewrite so_equal_spec by done. f_equal. case_bool_decide as E.
    - by rewrite (proj2 (lex_Eq _ _) E).
    - destruct (Sds.lex _ _) eqn:El; try done. by apply lex_Eq in El. }
  osimpl. destruct (item_cmp (i_score b) (i_obj b) s o) eqn:Ec.
  - destruct (delete_node_spec h z A b B update Hr (update_total update z A Hlu Hu))
      as (h' & z' & n' & -> & Hn' & Ho' & Hr' & Hh' & _). osimpl.
    unfold zslFreeNode. rewrite Hn'. osimpl. rewrite Ho'. osimpl.
    eexists _, z', _. split; [done|]. split; [done|]. left. exists A, b, B. done.
  - apply Forall_cons_iff in HB as [HB _]. done.
  - exists h, z, None. split_and!; [done..|]. right. split; [|done]. apply Forall_app. split; [done|].
    constructor; [by rewrite Ec|]. apply Forall_forall. intros c Hc E.
    pose proof (r_sorted _ _ _ Hr) as Hso. apply sorted_app in Hso as (_ & HsB & _).
    apply StronglySorted_inv in HsB as [_ Hbc]. rewrite Forall_forall in Hbc. specialize (Hbc c Hc). unfold ilt in Hbc.
    apply item_cmp_Eq in E as [Ek Et].
    assert (item_cmp (i_score b) (i_obj b) s o = Lt); [|congruence].
    unfold item_cmp in Hbc |- *. by rewrite <- Ek, <- Et.
Qed.

(** ** Deletion of a range *)
Lemma delete_while_spec cond update : forall C fuel h z A B k,
  repr h z (A ++ C ++ B) ->
  (forall j, (j < zlevel z)%nat -> exists ur, update !! j = Some ur /\ update_ok z A j ur) ->
  (forall P it S n, C ++ B = P ++ it :: S -> obj n = Some (i_obj it) -> score n = i_score it -> item_ok it ->
     cond (k + zlen P) n = Some (zlen P <? zlen C)) ->
  (length C < fuel)%nat ->
  exists h' z', delete_while fuel h z (i_loc <$> head (C ++ B)) update cond k = Some (h', z', i_obj <$> C) /\
    repr h' z' (A ++ B) /\ header z' = header z.
Proof.
  induction C as [|c C IH]; intros fuel h z A B k Hr Hu Hc Hf; (destruct fuel as [|fuel]; [simpl in Hf; lia|]);
    cbn [delete_while app].
  - exists h, z. destruct B as [|b B]; cbn [head fmap option_fmap option_map]; [done|]. cbn [app] in Hr.
    destruct (item_node h _ _ A b B (r_nodes _ _ _ Hr)) as (n & -> & Ho & Hs). osimpl.
    pose proof (ok_in h z _ b Hr ltac:(set_solver)) as Hok.
    specialize (Hc [] b B n eq_refl Ho Hs Hok). change (zlen []) with 0 in Hc. rewrite Z.add_0_r in Hc.
    by rewrite Hc.
  - cbn [app] in Hr. cbn [head fmap option_fmap option_map].
    destruct (item_node h _ _ A c (C ++ B) (r_nodes _ _ _ Hr)) as (n & Hn & Ho & Hs).
    pose proof (ok_in h z _ c Hr ltac:(set_solver)) as Hok. rewrite Hn. osimpl.
    pose proof (Hc [] c (C ++ B) n eq_refl Ho Hs Hok) as E. change (zlen []) with 0 in E. rewrite Z.add_0_r in E.
    rewrite E. osimpl. rewrite (proj2 (Z.ltb_lt _ _)) by (simpl; lia).
    pose proof Hr as Hr2. replace (A ++ c :: C ++ B) with ((A ++ [c]) ++ C ++ B) in Hr2 by (by rewrite <- app_assoc).
    rewrite (forward0_spec h z (A ++ [c]) (C ++ B) (i_loc c) Hr2) by (apply at_pos_snoc; destruct Hok; lia). osimpl.
    destruct (delete_node_spec h z A c (C ++ B) update Hr Hu) as (h' & z' & n' & -> & Hn' & Ho' & Hr' & Hh' & Hz').
    osimpl. unfold zslFreeNode. rewrite Hn'. osimpl. rewrite Ho'. osimpl.
    destruct (IH fuel (delete (i_loc c) h') z' A B (k + 1) Hr') as (h2 & z2 & -> & Hr2' & Hh2).
    + intros j Hj. destruct (Hu j ltac:(lia)) as (ur & Hur & (P & T & HA & Hp & HT & Hrk)). exists ur. split; [done|].
      exists P, T. rewrite Hh'. done.
    + intros P it S n0 EC Ho0 Hs0 Hok0.
      replace (k + 1 + zlen P) with (k + zlen (c :: P)) by (cbn [length]; lia).
      rewrite (Hc (c :: P) it S n0) by (done || (cbn [app]; by rewrite EC)). f_equal.
      destruct (Z.ltb_spec (zlen P) (zlen C)); [apply Z.ltb_lt|apply Z.ltb_ge]; cbn [length]; lia.
    + simpl in Hf. lia.
    + osimpl. exists h2, z2. split; [done|]. split; [done|congruence].
Qed.

Lemma delete_from_spec h z A C B go cond :
  repr h z (A ++ C ++ B) -> splits_at go (A ++ C ++ B) A ->
  (forall P it S n, C ++ B = P ++ it :: S -> obj n = Some (i_obj it) -> score n = i_score it -> item_ok it ->
     cond (zlen A + 1 + zlen P) n = Some (zlen P <? zlen C)) ->
  exists h' z', delete_from h z go cond = Some (h', z', i_obj <$> C) /\
    repr h' z' (A ++ B) /\ header z' = header z.
Proof.
  intros Hr Hsp Hc. unfold delete_from.
  destruct (search_spec h z A (C ++ B) _ 64 Hr Hsp ltac:(lia)) as (x & update & -> & Hlu & Hu & _ & Hx). osimpl.
  rewrite (forward0_spec h z A (C ++ B) x Hr Hx). osimpl. rewrite (r_length _ _ _ Hr), Nat2Z.id.
  apply delete_while_spec; [done|by apply update_total|done|]. rewrite !length_app. lia.
Qed.

(** ** Ranges as tests of the elements

    [below] are the elements before the range, [upto] those that are not after
    it; both hold of every element before one they hold of. *)
Definition within (below upto : item -> bool) (it : item) : Prop := below it = false /\ upto it = true.
#[local] Instance within_dec below upto it : Decision (within below upto it).
Proof. unfold within. apply _. Defined.

(** The three parts of a sorted list. *)
Lemma split_range below upto L :
  StronglySorted ilt L -> downward L below -> downward L upto ->
  exists A C B, L = A ++ C ++ B /\ Forall (fun it => below it = true) A /\
    Forall (within below upto) C /\ Forall (fun it => below it = false /\ upto it = false) B.
Proof.
  intros HL Hb Hu. destruct (split_downward below L HL Hb) as (A & R & -> & HA & HR).
  apply sorted_app in HL as (_ & HsR & _).
  destruct (split_downward upto R HsR) as (C & B & -> & HC & HB).
  { intros a b Ha Hb'. apply Hu; set_solver. }
  apply Forall_app in HR as [HR1 HR2]. exists A, C, B. split_and!; [done|done| |].
  - apply Forall_and. by split.
  - apply Forall_and. by split.
Qed.

Lemma filter_keep (P : item -> Prop) `{!forall y : item, Decision (P y)} L : Forall P L -> filter P L = L.
Proof. induction 1 as [|x L Hx HL IH]; [done|]. by rewrite filter_cons_True, IH. Qed.

Lemma filter_drop (P : item -> Prop) `{!forall y : item, Decision (P y)} L : Forall (fun y => ~ P y) L -> filter P L = [].
Proof. induction 1 as [|x L Hx HL IH]; [done|]. by rewrite filter_cons_False, IH. Qed.

Lemma filter_within below upto A C B :
  Forall (fun it => below it = true) A -> Forall (within below upto) C ->
  Forall (fun it => below it = false /\ upto it = false) B ->
  filter (within below upto) (A ++ C ++ B) = C /\
  filter (fun it => ~ within below upto it) (A ++ C ++ B) = A ++ B.
Proof.
  intros HA HC HB.
  assert (Forall (fun it => ~ within below upto it) A) as HA'.
  { eapply Forall_impl; [exact HA|]. unfold within. cbn. naive_solver congruence. }
  assert (Forall (fun it => ~ within below upto it) B) as HB'.
  { eapply Forall_impl; [exact HB|]. unfold within. cbn. naive_solver congruence. }
  rewrite !filter_app. split.
  - rewrite (filter_drop _ A), (filter_keep _ C), (filter_drop _ B) by done. cbn. by rewrite app_nil_r.
  - rewrite (filter_keep _ A), (filter_keep _ B) by done. rewrite (filter_drop _ C); [done|].
    eapply Forall_impl; [exact HC|]. naive_solver.
Qed.

Lemma delete_range_spec h z L below upto go cond :
  repr h z L -> downward L below -> downward L upto ->
  (forall k n it, it ∈ L -> obj n = Some (i_obj it) -> score n = i_score it -> item_ok it -> go k n = Some (below it)) ->
  (forall k n it, it ∈ L -> obj n = Some (i_obj it) -> score n = i_score it -> item_ok it -> cond k n = Some (upto it)) ->
  exists h' z', delete_from h z go cond = Some (h', z', i_obj <$> filter (within below upto) L) /\
    repr h' z' (filter (fun it => ~ within below upto it) L) /\ header z' = header z.
Proof.
  intros Hr Hb Hu Hgo Hcond.
  destruct (split_range below upto L (r_sorted _ _ _ Hr) Hb Hu) as (A & C & B & -> & HA & HC & HB).
  destruct (filter_within below upto A C B HA HC HB) as [-> ->]. apply delete_from_spec; [done| |].
  - apply (splits_at_pred below); [|done|].
    + intros it n k Hin Ho Hs. apply Hgo; [done..|]. by apply (ok_in h z _ it Hr).
    + apply Forall_app. split; (eapply Forall_impl; [eassumption|]); unfold within; cbn; naive_solver.
  - intros P it S n E Ho Hs Hok.
    assert (it ∈ C ++ B) as Hin by (rewrite E; set_solver).
    rewrite (Hcond _ n it) by (done || set_solver). f_equal.
    apply app_eq_app in E as (k & [[EA EB]|[EA EB]]); [destruct k as [|y k]; cbn in EB|].
    + rewrite app_nil_r in EA. subst. rewrite Z.ltb_irrefl. apply Forall_cons_iff in HB as [[_ HB] _]. done.
    + injection EB as -> ->. subst C. rewrite Forall_app, Forall_cons_iff in HC.
      rewrite (proj2 (Z.ltb_lt _ _)) by (rewrite length_app; simpl; lia). by destruct HC as (_ & [_ ?] & _).
    + subst P B. rewrite Forall_app, Forall_cons_iff in HB.
      rewrite (proj2 (Z.ltb_ge _ _)) by (rewrite length_app; lia). by destruct HB as (_ & [_ ?] & _).
Qed.

(** ** Ranges of scores *)
Definition range_ok (range : zrangespec) : Prop := isnan (min range) = false /\ isnan (max range) = false.

Definition below_score (range : zrangespec) (it : item) : bool := negb (zslValueGteMin (i_score it) range).
Definition upto_score (range : zrangespec) (it : item) : bool := zslValueLteMax (i_score it) range.

Lemma ilt_score a b : ilt a b -> kcompare (key (i_score a)) (key (i_score b)) <> Gt.
Proof. unfold ilt, item_cmp. by destruct (kcompare _ _). Qed.

Lemma kle_trans a b c : kcompare a b <> Gt -> kcompare b c <> Gt -> kcompare a c <> Gt.
Proof.
  destruct (kcompare a b) eqn:E1, (kcompare b c) eqn:E2; try done; intros _ _;
    try (apply kcompare_Eq in E1; subst; congruence); try (apply kcompare_Eq in E2; subst; congruence).
  by rewrite (kcompare_trans Lt _ _ _ E1 E2).
Qed.

Lemma klt_trans a b c : kcompare a b <> Gt -> kcompare b c = Lt -> kcompare a c = Lt.
Proof.
  destruct (kcompare a b) eqn:E1; try done; intros _ E2.
  - apply kcompare_Eq in E1. by subst.
  - by apply (kcompare_trans Lt _ _ _ E1 E2).
Qed.

Lemma gte_min_key s range : isnan s = false -> range_ok range ->
  negb (zslValueGteMin s range) =
    match kcompare (key s) (key (min range)) with Lt => true | Eq => minex range | Gt => false end.
Proof.
  intros Hs [Hm _]. unfold zslValueGteMin. destruct (minex range).
  - rewrite dlt_key, (kcompare_antisym (key s)) by done. by destruct (kcompare _ _).
  - rewrite dle_key, (kcompare_antisym (key s)) by done. by destruct (kcompare _ _).
Qed.

Lemma lte_max_key s range : isnan s = false -> range_ok range ->
  zslValueLteMax s range =
    match kcompare (key s) (key (max range)) with Lt => true | Eq => negb (maxex range) | Gt => false end.
Proof.
  intros Hs [_ Hm]. unfold zslValueLteMax. destruct (maxex range).
  - rewrite dlt_key by done. by destruct (kcompare _ _).
  - rewrite dle_key by done. by destruct (kcompare _ _).
Qed.

(** A test of the form [k < bound], or [k <= bound], is downward closed. *)
Lemma downward_key h z L (p : item -> bool) bound (incl : bool) :
  repr h z L ->
  (forall it, it ∈ L -> p it = match kcompare (key (i_score it)) bound with Lt => true | Eq => incl | Gt => false end) ->
  downward L p.
Proof.
  intros Hr Hp a b Ha Hb Hab. rewrite (Hp a Ha), (Hp b Hb). apply ilt_score in Hab.
  destruct (kcompare (key (i_score b)) bound) eqn:E; try done.
  - apply kcompare_Eq in E. subst bound. destruct (kcompare (key (i_score a)) (key (i_score b))); done.
  - by rewrite (klt_trans _ _ _ Hab E).
Qed.

Lemma score_downward h z L range : repr h z L -> range_ok range ->
  downward L (below_score range) /\ downward L (upto_score range).
Proof.
  intros Hr Hok. split.
  - apply (downward_key h z L _ (key (min range)) (minex range) Hr). intros it Hit.
    apply gte_min_key; [|done]. by destruct (ok_in h z L it Hr Hit) as (_ & _ & ?).
  - apply (downward_key h z L _ (key (max range)) (negb (maxex range)) Hr). intros it Hit.
    apply lte_max_key; [|done]. by destruct (ok_in h z L it Hr Hit) as (_ & _ & ?).
Qed.

Lemma delete_by_score_spec h z L range :
  repr h z L -> range_ok range ->
  exists h' z', zslDeleteRangeByScore h z range =
      Some (h', z', i_obj <$> filter (within (below_score range) (upto_score range)) L) /\
    repr h' z' (filter (fun it => ~ within (below_score range) (upto_score range) it) L) /\ header z' = header z.
Proof.
  intros Hr Hok. destruct (score_downward h z L range Hr Hok) as [Hb Hu].
  apply delete_range_spec; [done..| |].
  - intros k n it Hin Ho Hs (_ & _ & Hnan). f_equal. unfold below_score. rewrite gte_min_key, Hs by done.
    destruct (minex range); [rewrite dle_key by (done || apply Hok)|rewrite dlt_key by (done || apply Hok)]; by destruct (kcompare _ _).
  - intros k n it Hin Ho Hs _. unfold upto_score, zslValueLteMax. by rewrite Hs.
Qed.

Lemma head_filter below upto A C B :
  Forall (fun it => below it = true) A -> Forall (within below upto) C ->
  Forall (fun it => below it = false /\ upto it = false) B ->
  filter (within below upto) (A ++ C ++ B) = C.
Proof. intros. by apply filter_within. Qed.

(** The node at a position. *)
Lemma pos_node h z A B x : repr h z (A ++ B) -> at_pos (header z) A x 0 ->
  A = [] \/ exists A' it n, A = A' ++ [it] /\ x = i_loc it /\ h !! x = Some n /\
    obj n = Some (i_obj it) /\ score n = i_score it.
Proof.
  intros Hr [[-> _]|(A' & it & -> & -> & _)]%at_pos_inv; [by left|]. right.
  rewrite <- app_assoc in Hr. destruct (item_node h _ _ A' it B (r_nodes _ _ _ Hr)) as (n & ? & ? & ?).
  by exists A', it, n.
Qed.

Lemma ptr_test_first h z L (p : item -> bool) (test : node -> option bool) :
  repr h z L ->
  (forall n it, it ∈ L -> obj n = Some (i_obj it) -> score n = i_score it -> test n = Some (p it)) ->
  (f ← forward0 h (header z); ptr_test h f test) = Some (match head L with Some it => p it | None => false end).
Proof.
  intros Hr Hp. rewrite (forward0_spec h z [] L (header z) Hr) by done. osimpl. destruct L as [|it L]; [done|]. cbn.
  destruct (item_node h _ _ [] it L (r_nodes _ _ _ Hr)) as (n & -> & Ho & Hs). osimpl. apply Hp; [apply list_elem_of_here|done..].
Qed.

Lemma ptr_test_last h z L (p : item -> bool) (test : node -> option bool) :
  repr h z L ->
  (forall n it, it ∈ L -> obj n = Some (i_obj it) -> score n = i_score it -> test n = Some (p it)) ->
  ptr_test h (tail z) test = Some (match last L with Some it => p it | None => false end).
Proof.
  intros Hr Hp. rewrite (r_tail _ _ _ Hr). unfold last_loc. destruct L as [|it L _] using rev_ind; [done|].
  rewrite last_snoc. cbn. destruct (item_node h _ _ L it [] (r_nodes _ _ _ Hr)) as (n & -> & Ho & Hs). osimpl.
  apply Hp; [set_solver|done..].
Qed.

(** The two ends of a range. The tests at both ends of the list are the quick
    answer for a range that has no element. *)
Section Ends.
Context h z L (below upto : item -> bool).
Hypothesis Hr : repr h z L.
Hypothesis Hbelow : downward L below.
Hypothesis Hupto : downward L upto.

Lemma outside_empty :
  match last L with Some it => below it | None => true end = true \/
  match head L with Some it => upto it | None => false end = false ->
  filter (within below upto) L = [].
Proof.
  intros Hout. apply filter_drop. apply Forall_forall. intros it Hit [Hb Hu].
  pose proof (r_sorted _ _ _ Hr) as Hso. destruct Hout as [Hl|Hf].
  - destruct L as [|x0 L0 _] using rev_ind; [set_solver|]. rewrite last_snoc in Hl.
    apply elem_of_app in Hit as Hit'. destruct Hit' as [Hin| ->%list_elem_of_singleton]; [|congruence].
    apply sorted_app in Hso as (_ & _ & HsAB).
    assert (below it = true) as Hb'; [|congruence]. apply (Hbelow it x0); [set_solver..| |done]. apply HsAB; [done|set_solver].
  - destruct L as [|x0 L0]; [set_solver|]. cbn in Hf.
    apply elem_of_cons in Hit as Hit'. destruct Hit' as [->|Hin]; [congruence|].
    apply StronglySorted_inv in Hso as [_ Hso]. rewrite Forall_forall in Hso.
    assert (upto x0 = true) as Hb'; [|congruence]. apply (Hupto x0 it); [set_solver..| |done]. by apply Hso.
Qed.

Lemma first_spec go lte :
  (forall k n it, it ∈ L -> obj n = Some (i_obj it) -> score n = i_score it -> go k n = Some (below it)) ->
  (forall n it, it ∈ L -> obj n = Some (i_obj it) -> score n = i_score it -> lte n = Some (upto it)) ->
  match last L with Some it => below it | None => true end = false ->
  ('(x, _, _) ← search 64 h z go; f ← forward0 h x; x ← f; n ← h !! x; b ← lte n; Some (if b : bool then Some x else None)) =
  Some (i_loc <$> head (filter (within below upto) L)).
Proof.
  intros Hgo Hlte Hlast.
  destruct (split_range below upto L (r_sorted _ _ _ Hr) Hbelow Hupto) as (A & C & B & EL & HA & HC & HB).
  assert (splits_at go L A) as Hsp.
  { rewrite EL. apply (splits_at_pred below); [|done|].
    - intros it n k Hin. apply Hgo. by rewrite EL.
    - apply Forall_app. split; (eapply Forall_impl; [eassumption|]); unfold within; cbn; naive_solver. }
  pose proof Hr as Hr'. rewrite EL in Hr', Hsp.
  destruct (search_spec h z A (C ++ B) go 64 Hr' Hsp ltac:(lia)) as (x & update & -> & _ & _ & _ & Hx). osimpl.
  rewrite (forward0_spec h z A (C ++ B) x Hr' Hx). osimpl. rewrite EL, (head_filter below upto A C B) by done.
  destruct (C ++ B) as [|y R] eqn:ER.
  { rewrite app_nil_r in EL. subst A. exfalso. destruct L as [|x0 L0 _] using rev_ind; [done|].
    rewrite last_snoc in Hlast. apply Forall_app in HA as [_ HA]. apply Forall_cons_iff in HA as [HA _]. congruence. }
  cbn [head fmap option_fmap option_map]. osimpl.
  destruct (item_node h _ _ A y R (r_nodes _ _ _ Hr')) as (n & -> & Ho & Hs). osimpl.
  rewrite (Hlte n y) by (done || rewrite EL; set_solver). osimpl. f_equal.
  destruct C as [|c C]; cbn in ER.
  - subst B. apply Forall_cons_iff in HB as [[_ ->] _]. done.
  - injection ER as -> _. apply Forall_cons_iff in HC as [[_ ->] _]. done.
Qed.

Lemma last_spec go gte :
  (forall k n it, it ∈ L -> obj n = Some (i_obj it) -> score n = i_score it -> go k n = Some (upto it)) ->
  (forall n it, it ∈ L -> obj n = Some (i_obj it) -> score n = i_score it -> gte n = Some (negb (below it))) ->
  match head L with Some it => upto it | None => false end = true ->
  ('(x, _, _) ← search 64 h z go; n ← h !! x; b ← gte n; Some (if b : bool then Some x else None)) =
  Some (i_loc <$> last (filter (within below upto) L)).
Proof.
  intros Hgo Hgte Hhead.
  destruct (split_downward upto L (r_sorted _ _ _ Hr) Hupto) as (A & B & EL & HA & HB).
  assert (splits_at go L A) as Hsp by (rewrite EL; apply (splits_at_pred upto); [intros it n k Hin; apply Hgo; by rewrite EL|done..]).
  pose proof Hr as Hr'. rewrite EL in Hr', Hsp.
  destruct (search_spec h z A B go 64 Hr' Hsp ltac:(lia)) as (x & update & -> & _ & _ & _ & Hx). osimpl.
  assert (filter (within below upto) B = []) as EB.
  { apply filter_drop. eapply Forall_impl; [exact HB|]. unfold within. cbn. intros it E [_ E']. congruence. }
  rewrite EL, filter_app, EB, app_nil_r.
  destruct (pos_node h z A B x Hr' Hx) as [->|(A' & it & n & -> & -> & -> & Ho & Hs)].
  { exfalso. cbn in EL. subst B. destruct L as [|y L0]; [done|]. cbn in Hhead. apply Forall_cons_iff in HB as [HB _]. congruence. }
  osimpl. assert (it ∈ L) as Hit by (rewrite EL; set_solver). rewrite (Hgte n it) by done. osimpl. f_equal.
  rewrite filter_app. apply Forall_app in HA as [_ HA]. apply Forall_cons_iff in HA as [HA _].
  destruct (below it) eqn:Eb; cbn [negb].
  - rewrite (filter_drop _ [it]), app_nil_r by (constructor; [unfold within; naive_solver congruence|done]).
    rewrite (filter_drop _ A'); [done|]. apply Forall_forall. intros y Hy [Hyb _].
    pose proof (r_sorted _ _ _ Hr') as Hso. apply sorted_app in Hso as (Hso & _). apply sorted_app in Hso as (_ & _ & Hso).
    assert (below y = true); [|congruence]. apply (Hbelow y it); [rewrite EL; set_solver..| |done]. apply Hso; [done|set_solver].
  - rewrite (filter_keep _ [it]) by (constructor; [done|done]). by rewrite last_snoc.
Qed.
End Ends.

Lemma empty_range range it : range_ok range -> isnan (i_score it) = false ->
  dlt (max range) (min range) || (deq (min range) (max range) && (minex range || maxex range)) = true ->
  ~ within (below_score range) (upto_score range) it.
Proof.
  intros Hok Hn He [Hb Hu]. pose proof Hok as [Hm HM]. unfold below_score, upto_score in *.
  rewrite gte_min_key in Hb by done. rewrite lte_max_key in Hu by done.
  rewrite dlt_key, deq_key, (kcompare_antisym (key (min range))) in He by done.
  destruct (kcompare (key (min range)) (key (max range))) eqn:E; cbn in He; try done.
  - apply kcompare_Eq in E. rewrite E in Hb. destruct (kcompare (key (i_score it)) (key (max range))); try done.
    by destruct (minex range), (maxex range).
  - rewrite kcompare_antisym in E. destruct (kcompare (key (max range)) (key (min range))) eqn:E2; try done.
    assert (kcompare (key (i_score it)) (key (max range)) <> Gt) as Hle by (by destruct (kcompare (key (i_score it)) (key (max range)))).
    by rewrite (klt_trans _ _ _ Hle E2) in Hb.
Qed.

(** [zslIsInRange] answers no only for a range without elements, and otherwise
    both ends of the list may be relied on. *)
Lemma is_in_range_spec h z L range :
  repr h z L -> range_ok range ->
  exists b, zslIsInRange h z range = Some b /\
    if b : bool then
      match last L with Some it => below_score range it | None => true end = false /\
      match head L with Some it => upto_score range it | None => false end = true
    else filter (within (below_score range) (upto_score range)) L = [].
Proof.
  intros Hr Hok. destruct (score_downward h z L range Hr Hok) as [Hb Hu]. unfold zslIsInRange.
  destruct (dlt (max range) (min range) || _) eqn:He.
  { exists false. split; [done|]. apply filter_drop. apply Forall_forall. intros it Hit.
    apply empty_range; [done| |done]. by destruct (ok_in h z L it Hr Hit) as (_ & _ & ?). }
  rewrite (ptr_test_last h z L (fun it => negb (below_score range it))) by
    (done || intros n it _ _ Hs; unfold below_score; by rewrite Hs, negb_involutive). osimpl.
  destruct (last L) as [t|] eqn:El.
  2:{ exists false. split; [done|]. destruct L as [|y L0 _] using rev_ind; [done|]. by rewrite last_snoc in El. }
  destruct (below_score range t) eqn:Et; cbn [negb].
  { exists false. split; [done|]. apply (outside_empty h z L); [done..|]. left. by rewrite El. }
  pose proof (ptr_test_first h z L (upto_score range) (fun n => Some (zslValueLteMax (score n) range)) Hr) as Hf.
  destruct (forward0 h (header z)) as [f|]; osimpl.
  - cbn in Hf. rewrite Hf by (intros n it _ _ Hs; unfold upto_score; by rewrite Hs). eexists. split; [done|].
    destruct (head L) as [y|] eqn:Eh.
    + destruct (upto_score range y) eqn:Ey; [done|]. apply (outside_empty h z L); [done..|]. right. by rewrite Eh.
    + by destruct L.
  - cbn in Hf. specialize (Hf ltac:(intros n it _ _ Hs; unfold upto_score; by rewrite Hs)). done.
Qed.

Lemma first_in_range_spec h z L range :
  repr h z L -> range_ok range ->
  zslFirstInRange h z range = Some (i_loc <$> head (filter (within (below_score range) (upto_score range)) L)) /\
  zslLastInRange h z range = Some (i_loc <$> last (filter (within (below_score range) (upto_score range)) L)).
Proof.
  intros Hr Hok. unfold zslFirstInRange, zslLastInRange.
  destruct (is_in_range_spec h z L range Hr Hok) as ([] & -> & Hb); osimpl; [|by rewrite Hb].
  destruct Hb as [Hl Hf]. destruct (score_downward h z L range Hr Hok) as [Hbl Hu]. split.
  - apply (first_spec h z L (below_score range) (upto_score range) Hr Hbl Hu _ (fun n => Some (zslValueLteMax (score n) range)));
      [| |done].
    + intros k n it _ _ Hs. unfold below_score. by rewrite Hs.
    + intros n it _ _ Hs. unfold upto_score. by rewrite Hs.
  - apply (last_spec h z L (below_score range) (upto_score range) Hr Hbl Hu _ (fun n => Some (zslValueGteMin (score n) range)));
      [| |done].
    + intros k n it _ _ Hs. unfold upto_score. by rewrite Hs.
    + intros n it _ _ Hs. unfold below_score. by rewrite Hs, negb_involutive.
Qed.

(** ** Ranks *)
Section Ranks.
Context h z A B (go : Z -> node -> option bool).
Hypothesis Hr : repr h z (A ++ B).
Hypothesis Hgo : splits_at go (A ++ B) A.

(** One level of a search that may stop early. *)
Lemma level_spec i P T x :
  (i < zlevel z)%nat -> A = P ++ T -> at_pos (header z) P x (S i) ->
  exists x' P' T', advance 64 (S (length (A ++ B))) h go i x (zlen P) = Some (x', zlen P') /\
    A = P' ++ T' /\ at_pos (header z) P' x' i /\ Forall (low i) T' /\ (i = 0%nat -> T' = []).
Proof.
  intros Hi HA Hx. destruct (advance_spec h z A B go 64 Hr Hgo ltac:(lia) i (length A) Hi (S (length (A ++ B))) P T x HA)
    as (x' & P' & T' & E & HA' & Hx' & HT' & _).
  - by apply at_pos_lower with (S i); [|lia].
  - rewrite HA, length_app. lia.
  - rewrite length_app. lia.
  - exists x', P', T'. split_and!; try done. intros ->. apply (low_0 h z A B Hr); [|done]. rewrite HA'. set_solver.
Qed.
End Ranks.

(** The test that [zslGetRank] makes at each level. *)
Lemma rank_test h z A B x i o :
  repr h z (A ++ B) -> at_pos (header z) A x i -> so_valid o ->
  exists n, h !! x = Some n /\
    match obj n with None => Some false | Some no => so_equal no o end =
    Some (match last A with Some it => bool_decide (so_text (i_obj it) = so_text o) | None => false end).
Proof.
  intros Hr Hx Hv. apply at_pos_inv in Hx as [[-> ->]|(A' & it & -> & -> & _)].
  - destruct (n_header _ _ _ _ (r_nodes _ _ _ Hr)) as (s & b & E). destruct (info_node _ _ _ _ _ _ E) as (n & -> & Ho & _).
    exists n. by rewrite Ho.
  - rewrite <- app_assoc in Hr. destruct (item_node h _ _ A' it B (r_nodes _ _ _ Hr)) as (n & Hn & Ho & _).
    exists n. rewrite Ho, last_snoc. split; [done|].
    destruct (ok_in h z _ it Hr ltac:(set_solver)) as (_ & Hvi & _). by rewrite so_equal_spec.
Qed.

Lemma rank_loop_absent h z A B s o i : forall P T x,
  repr h z (A ++ B) -> splits_at (fun _ n => node_before false s o n) (A ++ B) A -> so_valid o ->
  Forall (fun it => so_text (i_obj it) <> so_text o) (A ++ B) ->
  (i <= zlevel z)%nat -> A = P ++ T -> at_pos (header z) P x i ->
  rank_loop i (S (length (A ++ B))) h x (zlen P) s o = Some 0.
Proof.
  induction i as [|i IH]; intros P T x Hr Hsp Hv Hno Hi HA Hx; [done|]. cbn [rank_loop].
  destruct (level_spec h z A B _ Hr Hsp i P T x ltac:(lia) HA Hx) as (x' & P' & T' & -> & HA' & Hx' & _ & _). osimpl.
  pose proof Hr as Hr'. rewrite HA', <- app_assoc in Hr'.
  destruct (rank_test h z P' (T' ++ B) x' i o Hr' Hx' Hv) as (n & Hnd & He). rewrite Hnd. osimpl. rewrite He. osimpl.
  replace (match last P' with Some it => _ | None => false end) with false.
  - osimpl. by apply (IH P' T' x'); [..|lia|done|done].
  - destruct (last P') as [it|] eqn:El; [|done]. rewrite bool_decide_eq_false_2; [done|].
    rewrite Forall_forall in Hno. apply Hno. rewrite HA'. apply last_Some in El as [l ->]. set_solver.
Qed.

Lemma rank_loop_found h z A it B s o i : forall P T x,
  repr h z ((A ++ [it]) ++ B) -> splits_at (fun _ n => node_before false s o n) ((A ++ [it]) ++ B) (A ++ [it]) ->
  so_valid o -> so_text (i_obj it) = so_text o -> Forall (fun y => so_text (i_obj y) <> so_text o) A ->
  (1 <= i <= zlevel z)%nat -> A ++ [it] = P ++ T -> at_pos (header z) P x i ->
  rank_loop i (S (length ((A ++ [it]) ++ B))) h x (zlen P) s o = Some (zlen A + 1).
Proof.
  induction i as [|i IH]; intros P T x Hr Hsp Hv Ht Hno Hi HA Hx; [lia|]. cbn [rank_loop].
  destruct (level_spec h z (A ++ [it]) B _ Hr Hsp i P T x ltac:(lia) HA Hx) as (x' & P' & T' & -> & HA' & Hx' & _ & H0). osimpl.
  pose proof Hr as Hr'. rewrite HA', <- app_assoc in Hr'.
  destruct (rank_test h z P' (T' ++ B) x' i o Hr' Hx' Hv) as (n & Hnd & He). rewrite Hnd. osimpl. rewrite He. osimpl.
  destruct T' as [|t T' _] using rev_ind.
  - rewrite app_nil_r in HA'. subst P'. rewrite last_snoc, bool_decide_eq_true_2 by done.
    f_equal. rewrite length_app. simpl. lia.
  - rewrite app_assoc in HA'. apply app_inj_tail in HA' as [EA <-].
    assert ((match last P' with Some it => bool_decide (so_text (i_obj it) = so_text o) | None => false end) = false) as ->.
    { destruct (last P') as [y|] eqn:El; [|done]. rewrite bool_decide_eq_false_2; [done|].
      rewrite Forall_forall in Hno. apply Hno. rewrite EA. apply last_Some in El as [l ->]. set_solver. }
    destruct i as [|i]; [specialize (H0 eq_refl); by destruct T'|].
    apply (IH P' (T' ++ [it]) x'); try done; [lia|]. by rewrite app_assoc, <- EA.
Qed.

(** [zslGetRank] splits the list after the elements that are not greater. *)
Lemma splits_at_le h z A B s o :
  repr h z (A ++ B) -> isnan s = false -> so_valid o ->
  Forall (fun it => item_cmp (i_score it) (i_obj it) s o <> Gt) A ->
  Forall (fun it => item_cmp (i_score it) (i_obj it) s o = Gt) B ->
  splits_at (fun _ n => node_before false s o n) (A ++ B) A.
Proof.
  intros Hr Hs Hv HA HB.
  apply (splits_at_pred (fun it => match item_cmp (i_score it) (i_obj it) s o with Gt => false | _ => true end)).
  - intros it n _ Hin Ho Hsc. rewrite (node_before_spec false s o n it) by (done || by apply (ok_in h z (A ++ B))).
    by destruct (item_cmp _ _ _ _).
  - eapply Forall_impl; [exact HA|]. cbn. intros it. by destruct (item_cmp _ _ _ _).
  - eapply Forall_impl; [exact HB|]. cbn. by intros it ->.
Qed.

Lemma get_rank_spec h z A it B s o :
  repr h z (A ++ it :: B) -> isnan s = false -> so_valid o -> item_cmp (i_score it) (i_obj it) s o = Eq ->
  Forall (fun y => so_text (i_obj y) <> so_text o) A ->
  zslGetRank h z s o = Some (zlen A + 1).
Proof.
  intros Hr Hs Hv Heq Hno. apply item_cmp_Eq in Heq as [Hk Ht].
  assert (forall y, item_cmp (i_score y) (i_obj y) s o = item_cmp (i_score y) (i_obj y) (i_score it) (i_obj it)) as Hsub
    by (intros y; symmetry; by apply item_cmp_congr).
  pose proof (r_sorted _ _ _ Hr) as Hso. replace (A ++ it :: B) with ((A ++ [it]) ++ B) in * by (by rewrite <- app_assoc).
  apply sorted_app in Hso as (HsA & HsB & HsAB). apply sorted_app in HsA as (_ & _ & HsA).
  unfold zslGetRank. rewrite (r_length _ _ _ Hr), Nat2Z.id. change 0 with (zlen (@nil item)).
  pose proof (zlevel_pos h z (A ++ [it]) B Hr) as [Hz _].
  apply (rank_loop_found h z A it B s o (zlevel z) [] (A ++ [it]) (header z)); try done.
  apply (splits_at_le h z); [done..| |].
  - apply Forall_app. split; [|constructor; [|done]].
    + apply Forall_forall. intros y Hy. rewrite Hsub. specialize (HsA y it Hy ltac:(set_solver)). unfold ilt in HsA. congruence.
    + rewrite Hsub. by rewrite (proj2 (item_cmp_Eq _ _ _ _)).
  - apply Forall_forall. intros y Hy. rewrite Hsub, item_cmp_antisym.
    specialize (HsAB it y ltac:(set_solver) Hy). unfold ilt in HsAB. by rewrite HsAB.
Qed.

Lemma get_rank_absent h z L s o :
  repr h z L -> isnan s = false -> so_valid o -> Forall (fun y => so_text (i_obj y) <> so_text o) L ->
  zslGetRank h z s o = Some 0.
Proof.
  intros Hr Hs Hv Hno.
  destruct (split_downward (fun it => match item_cmp (i_score it) (i_obj it) s o with Gt => false | _ => true end) L)
    as (A & B & -> & HA & HB).
  - apply (r_sorted _ _ _ Hr).
  - unfold ilt. intros a b _ _ Hab. destruct (item_cmp (i_score b) (i_obj b) s o) eqn:Hb; try done.
    + apply item_cmp_Eq in Hb as [Hk Ht]. by rewrite <- (item_cmp_congr (i_score b) (i_obj b)), Hab.
    + by rewrite (item_cmp_trans Lt _ _ _ _ _ _ Hab Hb).
  - unfold zslGetRank. rewrite (r_length _ _ _ Hr), Nat2Z.id. change 0 with (zlen (@nil item)) at 1.
    apply (rank_loop_absent h z A B s o (zlevel z) [] A (header z)); try done.
    apply (splits_at_le h z); [done..| |]; (eapply Forall_impl; [eassumption|]); cbn; intros it; by destruct (item_cmp _ _ _ _).
Qed.

Lemma element_loop_spec h z A B rank i : forall P T x,
  repr h z (A ++ B) -> splits_at (fun t _ => Some (t <=? rank)) (A ++ B) A -> 1 <= rank -> zlen A <= rank ->
  (1 <= i <= zlevel z)%nat -> A = P ++ T -> at_pos (header z) P x i ->
  element_loop i (S (length (A ++ B))) h x (zlen P) rank =
    Some (if zlen A =? rank then i_loc <$> last A else None).
Proof.
  induction i as [|i IH]; intros P T x Hr Hsp HA0 Hle Hi HA Hx; [lia|]. cbn [element_loop].
  destruct (level_spec h z A B _ Hr Hsp i P T x ltac:(lia) HA Hx) as (x' & P' & T' & -> & HA' & Hx' & _ & H0). osimpl.
  assert (zlen A = zlen P' + zlen T') as Hlen by (rewrite HA', length_app; lia).
  destruct (Z.eqb_spec (zlen P') rank) as [E|E].
  - destruct T'; [|simpl in Hlen; lia]. rewrite app_nil_r in HA'. subst P'. rewrite (proj2 (Z.eqb_eq _ _)) by done.
    apply at_pos_inv in Hx' as [[-> _]|(A' & it & -> & -> & _)]; [simpl in E; lia|]. by rewrite last_snoc.
  - destruct i as [|i].
    + rewrite (H0 eq_refl), app_nil_r in HA'. subst P'. by rewrite (proj2 (Z.eqb_neq _ _)).
    + apply (IH P' T' x'); try done. lia.
Qed.

(** [zslGetElementByRank] finds the element of a rank from 1 to the length. *)
Lemma element_by_rank_spec h z L rank :
  repr h z L -> 1 <= rank ->
  zslGetElementByRank h z rank = Some (i_loc <$> L !! Z.to_nat (rank - 1)).
Proof.
  intros Hr Hrank. set (k := Z.to_nat rank).
  assert (splits_at (fun t _ => Some (t <=? rank)) (take k L ++ drop k L) (take k L)) as Hsp.
  { rewrite take_drop. intros P it R n EL _ _. f_equal. rewrite length_take, EL, length_app. cbn [length].
    destruct (Z.leb_spec (zlen P + 1) rank); symmetry; [apply Z.ltb_lt|apply Z.ltb_ge]; lia. }
  pose proof Hr as Hr'. rewrite <- (take_drop k L) in Hr'.
  pose proof (zlevel_pos h z (take k L) (drop k L) Hr') as [Hz _].
  pose proof (length_take L k) as Hlt.
  unfold zslGetElementByRank. rewrite (r_length _ _ _ Hr), Nat2Z.id. change 0 with (zlen (@nil item)).
  pose proof (element_loop_spec h z (take k L) (drop k L) rank (zlevel z) [] (take k L) (header z) Hr' Hsp) as E.
  rewrite take_drop in E. rewrite E by (done || lia). f_equal.
  destruct (Z.eqb_spec (zlen (take k L)) rank) as [Ek|Ek].
  - f_equal. rewrite last_lookup, length_take. rewrite lookup_take_lt by lia. f_equal. lia.
  - rewrite lookup_ge_None_2 by lia. done.
Qed.

Lemma delete_by_rank_spec h z L start fin :
  repr h z L -> 1 <= start <= fin ->
  exists h' z', zslDeleteRangeByRank h z start fin =
      Some (h', z', i_obj <$> take (Z.to_nat (fin - start + 1)) (drop (Z.to_nat (start - 1)) L)) /\
    repr h' z' (take (Z.to_nat (start - 1)) L ++ drop (Z.to_nat fin) L) /\ header z' = header z.
Proof.
  intros Hr Hb. set (a := Z.to_nat (start - 1)). set (c := Z.to_nat (fin - start + 1)).
  assert (L = take a L ++ take c (drop a L) ++ drop (Z.to_nat fin) L) as EL.
  { replace (Z.to_nat fin) with (a + c)%nat by lia. rewrite <- drop_drop, !take_drop. done. }
  pose proof Hr as Hr'. rewrite EL in Hr'.
  apply delete_from_spec; [done| |].
  - rewrite <- EL. intros P it S n EP _ _. f_equal. rewrite length_take, EP, length_app. cbn [length].
    destruct (Z.ltb_spec (zlen P + 1) start); symmetry; [apply Z.ltb_lt|apply Z.ltb_ge]; lia.
  - intros P it S n EP _ _ _. f_equal.
    pose proof (f_equal length EL) as El. pose proof (f_equal length EP) as Ep.
    rewrite !length_app, !length_take, !length_drop in El. rewrite !length_app, !length_take, !length_drop in Ep. cbn [length] in Ep.
    rewrite !length_take, length_drop.
    destruct (Z.leb_spec (Z.of_nat (Nat.min a (length L)) + 1 + zlen P) fin); symmetry; [apply Z.ltb_lt|apply Z.ltb_ge]; lia.
Qed.

(** ** Ranges of strings

    These make sense when every element has the same score. *)
Definition same_scores L : Prop := forall a b, a ∈ L -> b ∈ L -> key (i_score a) = key (i_score b).

Definition bound_ok (b : lexbound Ob) : Prop := match b with Bound o => so_valid o | _ => True end.

Definition bound_cmp (o : Ob) (b : lexbound Ob) : comparison :=
  match b with
  | MinString => Gt
  | MaxString => Lt
  | Bound y => Sds.lex (so_text o) (so_text y)
  end.

Definition below_lex (range : zlexrangespec Ob) (it : item) : bool :=
  match bound_cmp (i_obj it) (lmin range) with Lt => true | Eq => lminex range | Gt => false end.

Definition upto_lex (range : zlexrangespec Ob) (it : item) : bool :=
  match bound_cmp (i_obj it) (lmax range) with Lt => true | Eq => negb (lmaxex range) | Gt => false end.

Lemma compare_bound_spec o b : so_valid o -> bound_ok b ->
  exists r, compareStringObjectsForLexRange (Bound o) b = Some r /\ (r ?= 0) = bound_cmp o b.
Proof.
  intros Ho Hb. destruct b as [| |y]; cbn; [by exists 1|by exists (-1)|]. by apply so_compare_spec.
Qed.

Lemma node_gte_spec range n it : obj n = Some (i_obj it) -> so_valid (i_obj it) -> bound_ok (lmin range) ->
  node_gte_lex range n = Some (negb (below_lex range it)).
Proof.
  intros Ho Hv Hb. unfold node_gte_lex, zslLexValueGteMin, below_lex. rewrite Ho. osimpl.
  destruct (compare_bound_spec (i_obj it) (lmin range) Hv Hb) as (r & -> & <-). osimpl. f_equal.
  unfold Z.ltb, Z.leb. rewrite (Z.compare_antisym r 0). destruct (lminex range); by destruct (r ?= 0).
Qed.

Lemma node_lte_spec range n it : obj n = Some (i_obj it) -> so_valid (i_obj it) -> bound_ok (lmax range) ->
  node_lte_lex range n = Some (upto_lex range it).
Proof.
  intros Ho Hv Hb. unfold node_lte_lex, zslLexValueLteMax, upto_lex. rewrite Ho. osimpl.
  destruct (compare_bound_spec (i_obj it) (lmax range) Hv Hb) as (r & -> & <-). osimpl. f_equal.
  unfold Z.ltb, Z.leb. destruct (lmaxex range); by destruct (r ?= 0).
Qed.

Lemma bound_cmp_mono o1 o2 b :
  Sds.lex (so_text o1) (so_text o2) = Lt -> bound_cmp o2 b <> Gt -> bound_cmp o1 b = Lt.
Proof.
  intros H12 Hb. destruct b as [| |y]; cbn in *; try done.
  destruct (Sds.lex (so_text o2) (so_text y)) eqn:E; try done.
  - apply lex_Eq in E. by rewrite <- E.
  - by apply lex_trans with (so_text o2).
Qed.

Lemma lex_downward h z L range : repr h z L -> same_scores L ->
  downward L (below_lex range) /\ downward L (upto_lex range).
Proof.
  intros Hr Hsame. assert (forall a b, a ∈ L -> b ∈ L -> ilt a b -> Sds.lex (so_text (i_obj a)) (so_text (i_obj b)) = Lt) as Hlt.
  { intros a b Ha Hb. unfold ilt, item_cmp. rewrite (Hsame a b Ha Hb), (proj2 (kcompare_Eq _ _) eq_refl). done. }
  split; intros a b Ha Hb Hab Hp; unfold below_lex, upto_lex in *;
    rewrite (bound_cmp_mono _ _ _ (Hlt a b Ha Hb Hab)); try done;
    destruct (bound_cmp (i_obj b) _); done.
Qed.

Lemma delete_by_lex_spec h z L range :
  repr h z L -> same_scores L -> bound_ok (lmin range) -> bound_ok (lmax range) ->
  exists h' z', zslDeleteRangeByLex h z range =
      Some (h', z', i_obj <$> filter (within (below_lex range) (upto_lex range)) L) /\
    repr h' z' (filter (fun it => ~ within (below_lex range) (upto_lex range) it) L) /\ header z' = header z.
Proof.
  intros Hr Hsame Hb1 Hb2. destruct (lex_downward h z L range Hr Hsame) as [Hb Hu].
  apply delete_range_spec; [done..| |].
  - intros k n it Hin Ho Hs (_ & Hv & _). rewrite (node_gte_spec range n it) by done. osimpl. by rewrite negb_involutive.
  - intros k n it Hin Ho Hs (_ & Hv & _). by apply node_lte_spec.
Qed.

Section LexEnds.
Context (minstring maxstring : Ob).

(** The texts of the two special objects must not be bounds themselves: the
    quick test for an empty range compares texts. *)
Definition plain_range (range : zlexrangespec Ob) : Prop :=
  bound_ok (lmin range) /\ bound_ok (lmax range) /\ so_valid minstring /\ so_valid maxstring /\
  so_text minstring <> so_text maxstring /\
  forall o, lmin range = Bound o \/ lmax range = Bound o -> so_text o <> so_text minstring /\ so_text o <> so_text maxstring.

Lemma lex_empty range it : plain_range range -> so_valid (i_obj it) ->
  forall c, compareStringObjectsForLexRange (lmin range) (lmax range) = Some c ->
  1 < c \/ so_text (bound_object minstring maxstring (lmin range)) = so_text (bound_object minstring maxstring (lmax range)) /\ (lminex range || lmaxex range) = true ->
  ~ within (below_lex range) (upto_lex range) it.
Proof.
  intros (Hb1 & Hb2 & _ & _ & Hmm & Hplain) Hv c Hc Hor [Hbel Hup].
  unfold below_lex, upto_lex in *.
  destruct (lmin range) as [| |lo] eqn:Elo, (lmax range) as [| |hi] eqn:Ehi; cbn in *; try done;
    try (injection Hc as <-; destruct Hor as [?|[Et _]]; [lia|]; naive_solver).
  destruct (so_compare_spec lo hi Hb1 Hb2) as (r & Er & Hr). rewrite Er in Hc. injection Hc as <-.
  destruct Hor as [H1|[Et Hex]].
  - assert (Sds.lex (so_text lo) (so_text hi) = Gt) as Hgt by (rewrite <- Hr; apply Z.compare_gt_iff; lia).
    rewrite lex_antisym in Hgt. destruct (Sds.lex (so_text hi) (so_text lo)) eqn:Ehl; try done.
    destruct (Sds.lex (so_text (i_obj it)) (so_text hi)) eqn:E1; try done.
    + apply lex_Eq in E1. by rewrite E1, Ehl in Hbel.
    + by rewrite (lex_trans Lt _ _ _ E1 Ehl) in Hbel.
  - rewrite Et in Hbel. destruct (Sds.lex (so_text (i_obj it)) (so_text hi)); try done.
    by destruct (lminex range), (lmaxex range).
Qed.

Lemma compare_bounds_total range : bound_ok (lmin range) -> bound_ok (lmax range) ->
  exists c, compareStringObjectsForLexRange (lmin range) (lmax range) = Some c.
Proof.
  intros H1 H2. destruct (lmin range) as [| |lo], (lmax range) as [| |hi]; cbn; eauto.
  destruct (so_compare_spec lo hi H1 H2) as (r & E & _). eauto.
Qed.

Lemma is_in_lex_range_spec h z L range :
  repr h z L -> same_scores L -> plain_range range ->
  exists b, zslIsInLexRange minstring maxstring h z range = Some b /\
    if b : bool then
      match last L with Some it => below_lex range it | None => true end = false /\
      match head L with Some it => upto_lex range it | None => false end = true
    else filter (within (below_lex range) (upto_lex range)) L = [].
Proof.
  intros Hr Hsame Hpl. pose proof Hpl as (Hb1 & Hb2 & Hvm & HvM & _ & _).
  destruct (lex_downward h z L range Hr Hsame) as [Hb Hu]. unfold zslIsInLexRange.
  destruct (compare_bounds_total range Hb1 Hb2) as (c & Ec). rewrite Ec. osimpl.
  assert (so_valid (bound_object minstring maxstring (lmin range)) /\ so_valid (bound_object minstring maxstring (lmax range))) as [Hv1 Hv2]
    by (destruct (lmin range), (lmax range); done).
  destruct (so_compare_spec _ _ Hv1 Hv2) as (r & Er & Hcr).
  assert ((if 1 <? c then Some true else c ← so_compare (bound_object minstring maxstring (lmin range)) (bound_object minstring maxstring (lmax range));
            Some ((c =? 0) && (lminex range || lmaxex range))) =
          Some ((1 <? c) || ((r =? 0) && (lminex range || lmaxex range)))) as ->
    by (rewrite Er; by destruct (1 <? c)).
  osimpl. destruct ((1 <? c) || _) eqn:He.
  { exists false. split; [done|]. apply filter_drop. apply Forall_forall. intros it Hit.
    apply (lex_empty range it Hpl) with c; [by destruct (ok_in h z L it Hr Hit) as (_ & ? & _)|done|].
    apply orb_true_iff in He as [He|[He1 He2]%andb_true_iff]; [left; by apply Z.ltb_lt|right].
    split; [|done]. apply lex_Eq. rewrite <- Hcr. apply Z.eqb_eq in He1. by subst r. }
  assert (forall n it, it ∈ L -> obj n = Some (i_obj it) -> score n = i_score it -> node_gte_lex range n = Some (negb (below_lex range it))) as Hg
    by (intros n it Hit Ho _; apply node_gte_spec; [done|by destruct (ok_in h z L it Hr Hit) as (_ & ? & _)|done]).
  assert (forall n it, it ∈ L -> obj n = Some (i_obj it) -> score n = i_score it -> node_lte_lex range n = Some (upto_lex range it)) as Hl
    by (intros n it Hit Ho _; apply node_lte_spec; [done|by destruct (ok_in h z L it Hr Hit) as (_ & ? & _)|done]).
  rewrite (ptr_test_last h z L _ _ Hr Hg). osimpl.
  destruct (last L) as [t|] eqn:El.
  2:{ exists false. split; [done|]. destruct L as [|y L0 _] using rev_ind; [done|]. by rewrite last_snoc in El. }
  destruct (below_lex range t) eqn:Et; cbn [negb].
  { exists false. split; [done|]. apply (outside_empty h z L); [done..|]. left. by rewrite El. }
  rewrite (ptr_test_first h z L _ _ Hr Hl). eexists. split; [done|].
  destruct (head L) as [y|] eqn:Eh.
  - destruct (upto_lex range y) eqn:Ey; [done|]. apply (outside_empty h z L); [done..|]. right. by rewrite Eh.
  - by destruct L.
Qed.

Lemma first_in_lex_range_spec h z L range :
  repr h z L -> same_scores L -> plain_range range ->
  zslFirstInLexRange minstring maxstring h z range = Some (i_loc <$> head (filter (within (below_lex range) (upto_lex range)) L)) /\
  zslLastInLexRange minstring maxstring h z range = Some (i_loc <$> last (filter (within (below_lex range) (upto_lex range)) L)).
Proof.
  intros Hr Hsame Hpl. unfold zslFirstInLexRange, zslLastInLexRange. pose proof Hpl as (Hb1 & Hb2 & _).
  destruct (is_in_lex_range_spec h z L range Hr Hsame Hpl) as ([] & -> & Hb); osimpl; [|by rewrite Hb].
  destruct Hb as [Hl Hf]. destruct (lex_downward h z L range Hr Hsame) as [Hbl Hu].
  assert (forall it, it ∈ L -> so_valid (i_obj it)) as Hv by (intros it Hit; by destruct (ok_in h z L it Hr Hit) as (_ & ? & _)).
  split.
  - apply (first_spec h z L _ _ Hr Hbl Hu); [| |done].
    + intros k n it Hit Ho _. rewrite (node_gte_spec range n it) by eauto. osimpl. by rewrite negb_involutive.
    + intros n it Hit Ho _. apply node_lte_spec; eauto.
  - apply (last_spec h z L _ _ Hr Hbl Hu); [| |done].
    + intros k n it Hit Ho _. apply node_lte_spec; eauto.
    + intros n it Hit Ho _. apply node_gte_spec; eauto.
Qed.

End LexEnds.

End Skiplists.

(** ** What the operations do to the sorted list of elements *)

(** C19: [zslInsert] puts a new element at its place in the order, whatever
    height is drawn for its node, and keeps every forward pointer, span, back
    pointer and the tail right. *)
Theorem zslInsert_refines {Ob} `{StringObjects Ob} zmalloc junk h z L s (o : Ob) draws lv rest :
  (forall h, h !! zmalloc h = None) -> repr h z L -> isnan s = false -> so_valid o ->
  zlen L + 1 < 2 ^ 32 - 1 -> zslRandomLevel draws = Some (lv, rest) ->
  Forall (fun it => item_cmp (i_score it) (i_obj it) s o <> Eq) L ->
  exists A B h' z' x, L = A ++ B /\ zslInsert zmalloc junk h z s o draws = Some (h', z', x, rest) /\
    repr h' z' (A ++ Item x s o lv :: B).
Proof.
  intros Hfr Hr Hs Hv Hsm Hlv Hno. destruct (split_at h z L s o Hr Hs Hv) as (A & B & -> & _ & HA & HB).
  destruct (zsl_insert_spec zmalloc junk Hfr h z A B s o draws lv rest) as (h' & z' & x & E & Hr' & _); try done.
  - apply Forall_app in Hno as [_ Hno].
    rewrite Forall_forall in HB, Hno |- *. intros it Hit. specialize (HB it Hit). specialize (Hno it Hit).
    by destruct (item_cmp _ _ _ _).
  - by exists A, B, h', z', x.
Qed.

(** C20: [zslDelete] removes the element with the given score and text when
    there is one, and frees its object; otherwise it changes nothing. *)
Theorem zslDelete_refines {Ob} `{StringObjects Ob} h z L s (o : Ob) :
  repr h z L -> isnan s = false -> so_valid o ->
  exists h' z' r, zslDelete h z s o = Some (h', z', r) /\
    ((exists A it B, L = A ++ it :: B /\ item_cmp (i_score it) (i_obj it) s o = Eq /\
        r = Some (i_obj it) /\ repr h' z' (A ++ B)) \/
     (Forall (fun it => item_cmp (i_score it) (i_obj it) s o <> Eq) L /\ r = None /\ h' = h /\ z' = z)).
Proof.
  intros Hr Hs Hv. destruct (delete_spec h z L s o Hr Hs Hv) as (h' & z' & r & E & _ & Hc). eauto.
Qed.

(** C21: the spans are right: [zslGetRank] returns the 1-based position of an
    element and [zslGetElementByRank] the element at a position, null after
    the end. *)
Theorem zsl_ranks {Ob} `{StringObjects Ob} h z A it B rank :
  repr h z (A ++ it :: B) -> NoDup ((fun y => so_text (i_obj y)) <$> A ++ it :: B) -> 1 <= rank ->
  zslGetRank h z (i_score it) (i_obj it) = Some (zlen A + 1) /\
  zslGetElementByRank h z rank = Some (i_loc <$> (A ++ it :: B) !! Z.to_nat (rank - 1)).
Proof.
  intros Hr Hnd Hrank. split; [|by apply element_by_rank_spec].
  destruct (ok_in h z _ it Hr ltac:(set_solver)) as (_ & Hv & Hs).
  apply (get_rank_spec h z A it B); [done..|by apply item_cmp_Eq|].
  apply Forall_forall. intros y Hy E. rewrite fmap_app in Hnd. apply NoDup_app in Hnd as (_ & Hd & _).
  apply (Hd (so_text (i_obj y))); [by apply (list_elem_of_fmap_2 (fun y => so_text (i_obj y)))|].
  rewrite E. apply list_elem_of_here.
Qed.

(** [zslFirstInRange] and [zslLastInRange] return the first and the last
    element whose score is in the range, null when there is none. *)
Theorem zsl_range_ends {Ob} `{StringObjects Ob} h z L range :
  repr (Ob := Ob) h z L -> range_ok range ->
  zslFirstInRange h z range = Some (i_loc <$> head (filter (within (below_score range) (upto_score range)) L)) /\
  zslLastInRange h z range = Some (i_loc <$> last (filter (within (below_score range) (upto_score range)) L)).
Proof. apply first_in_range_spec. Qed.

(** C22: the deletions of a range remove exactly the elements of the range, of
    scores or of positions, and report them in order. *)
Theorem zsl_delete_ranges {Ob} `{StringObjects Ob} h z L range start fin :
  repr (Ob := Ob) h z L -> range_ok range -> 1 <= start <= fin ->
  (exists h' z', zslDeleteRangeByScore h z range =
      Some (h', z', i_obj <$> filter (within (below_score range) (upto_score range)) L) /\
    repr h' z' (filter (fun it => ~ within (below_score range) (upto_score range) it) L)) /\
  (exists h' z', zslDeleteRangeByRank h z start fin =
      Some (h', z', i_obj <$> take (Z.to_nat (fin - start + 1)) (drop (Z.to_nat (start - 1)) L)) /\
    repr h' z' (take (Z.to_nat (start - 1)) L ++ drop (Z.to_nat fin) L)).
Proof.
  intros Hr Hok Hb. split.
  - destruct (delete_by_score_spec h z L range Hr Hok) as (h' & z' & ? & ? & _). eauto.
  - destruct (delete_by_rank_spec h z L start fin Hr Hb) as (h' & z' & ? & ? & _). eauto.
Qed.

(** ** A sorted set with four elements

    The scores are 1.0, 2.0 (twice) and minus infinity. *)
Definition d1 : double := SpecFloat.S754_finite false 4503599627370496 (-52).
Definition d2 : double := SpecFloat.S754_finite false 4503599627370496 (-51).
Definition dminf : double := SpecFloat.S754_infinity true.

Definition text_object (c : Z) : robj := createObject (ENC_RAW (Sds.Sdshdr 1 0 [c; 0])).
Definition zobjs : StringObjects robj := robj_objects (fun _ => 0).
#[local] Existing Instance zobjs.

Definition znext (h : gmap loc (zskiplistNode robj)) : loc := fresh (dom h).
Definition zjunk : zskiplistLevel := Level (Some 7%positive) 99.

Lemma zsl_fresh h : h !! znext h = None.
Proof. apply (not_elem_of_dom h). apply (is_fresh (dom h)). Qed.

Definition state : Type := gmap loc (zskiplistNode robj) * zskiplist.

Definition zcreate : state := default (∅, Zskiplist 1%positive None 0 1%nat) (zslCreate znext zjunk ∅).

Definition zadd (st : state) (s : double) (o : robj) (draws : list Z) : state :=
  match zslInsert znext zjunk st.1 st.2 s o draws with Some (h, z, _, _) => (h, z) | None => st end.

(** The draw 0 raises the level, 65535 stops. *)
Definition st1 : state := zadd zcreate d2 (text_object 98) [0; 65535].
Definition st2 : state := zadd st1 dminf (text_object 122) [65535].
Definition st3 : state := zadd st2 d2 (text_object 97) [0; 0; 65535].
Definition st4 : state := zadd st3 d1 (createObject (ENC_INT 5)) [65535].

Lemma text_valid c : so_valid (text_object c).
Proof. by exists []. Qed.

Lemma zadd_repr st A B s o draws lv rest x :
  repr st.1 st.2 (A ++ B) -> isnan s = false -> so_valid o -> zlen (A ++ B) + 1 < 2 ^ 32 - 1 ->
  Forall (fun it => item_cmp (i_score it) (i_obj it) s o = Lt) A ->
  Forall (fun it => item_cmp (i_score it) (i_obj it) s o = Gt) B ->
  zslRandomLevel draws = Some (lv, rest) ->
  (exists h z, zslInsert znext zjunk st.1 st.2 s o draws = Some (h, z, x, rest)) ->
  repr (zadd st s o draws).1 (zadd st s o draws).2 (A ++ Item x s o lv :: B).
Proof.
  intros Hr Hs Hv Hsm HA HB Hlv (h & z & E).
  destruct (zsl_insert_spec znext zjunk zsl_fresh st.1 st.2 A B s o draws lv rest) as (h' & z' & x' & E' & Hr' & _); try done.
  rewrite E in E'. injection E' as <- <- <-. unfold zadd. by rewrite E.
Qed.

Ltac forall_compute := repeat (apply Forall_cons_2; [by vm_compute|]); apply Forall_nil_2.

(** The hypotheses of [zadd_repr], by their shape. *)
Ltac zadd_tac Hr Hv :=
  lazymatch goal with
  | |- repr _ _ _ => exact Hr
  | |- so_valid _ => exact Hv
  | |- Forall _ _ => forall_compute
  | |- exists _, _ => vm_compute; eexists _, _; reflexivity
  | |- _ => vm_compute; reflexivity
  end.

Definition i_b : item := Item 2%positive d2 (text_object 98) 2%nat.
Definition i_z : item := Item 3%positive dminf (text_object 122) 1%nat.
Definition i_a : item := Item 4%positive d2 (text_object 97) 3%nat.
Definition i_5 : item := Item 5%positive d1 (createObject (ENC_INT 5)) 1%nat.
Definition elements4 : list item := [i_z; i_5; i_a; i_b].

Lemma zcreate_repr : repr zcreate.1 zcreate.2 [].
Proof. destruct (zslCreate_spec znext zjunk ∅) as (h & z & E & Hr & _). unfold zcreate. by rewrite E. Qed.

Lemma st1_repr : repr st1.1 st1.2 [i_b].
Proof.
  unshelve refine (zadd_repr zcreate [] [] d2 (text_object 98) [0; 65535] 2%nat [] 2%positive _ _ _ _ _ _ _ _);
    zadd_tac zcreate_repr (text_valid 98).
Qed.

Lemma st2_repr : repr st2.1 st2.2 [i_z; i_b].
Proof.
  unshelve refine (zadd_repr st1 [] [i_b] dminf (text_object 122) [65535] 1%nat [] 3%positive _ _ _ _ _ _ _ _);
    zadd_tac st1_repr (text_valid 122).
Qed.

Lemma st3_repr : repr st3.1 st3.2 [i_z; i_a; i_b].
Proof.
  unshelve refine (zadd_repr st2 [i_z] [i_b] d2 (text_object 97) [0; 0; 65535] 3%nat [] 4%positive _ _ _ _ _ _ _ _);
    zadd_tac st2_repr (text_valid 97).
Qed.

Lemma five_valid : so_valid (createObject (ENC_INT 5)).
Proof. split; [unfold CInt.in_s; lia|done]. Qed.

Lemma st4_repr : repr st4.1 st4.2 elements4.
Proof.
  unshelve refine (zadd_repr st3 [i_z] [i_a; i_b] d1 (createObject (ENC_INT 5)) [65535] 1%nat [] 5%positive _ _ _ _ _ _ _ _);
    zadd_tac st3_repr five_valid.
Qed.

Lemma zslInsert_refines_witness :
  exists A B h' z' x, elements4 = A ++ B /\
    zslInsert znext zjunk st4.1 st4.2 d1 (text_object 99) [0; 65535; 4] = Some (h', z', x, [4]) /\
    repr h' z' (A ++ Item x d1 (text_object 99) 2 :: B).
Proof.
  apply (zslInsert_refines znext zjunk st4.1 st4.2 elements4 d1 (text_object 99) [0; 65535; 4] 2 [4]);
    [apply zsl_fresh|apply st4_repr|done|apply text_valid|done|done|].
  repeat (apply Forall_cons_2; [by vm_compute|]). by apply Forall_nil_2.
Defined.

Lemma zslDelete_refines_witness :
  exists h' z' r, zslDelete st4.1 st4.2 d2 (text_object 97) = Some (h', z', r) /\
    ((exists A it B, elements4 = A ++ it :: B /\ item_cmp (i_score it) (i_obj it) d2 (text_object 97) = Eq /\
        r = Some (i_obj it) /\ repr h' z' (A ++ B)) \/
     (Forall (fun it => item_cmp (i_score it) (i_obj it) d2 (text_object 97) <> Eq) elements4 /\ r = None /\ h' = st4.1 /\ z' = st4.2)).
Proof. apply zslDelete_refines; [apply st4_repr|done|apply text_valid]. Defined.

Lemma zsl_ranks_witness :
  zslGetRank st4.1 st4.2 d2 (text_object 97) = Some 3 /\
  zslGetElementByRank st4.1 st4.2 2 = Some (Some 5%positive).
Proof.
  apply (zsl_ranks st4.1 st4.2 [i_z; i_5] i_a [i_b] 2); [apply st4_repr| |lia].
  apply (bool_decide_unpack _). by vm_compute.
Defined.

Definition range12 : zrangespec := Zrangespec d1 d2 true false.

Lemma zsl_range_ends_witness :
  zslFirstInRange st4.1 st4.2 range12 = Some (Some 4%positive) /\
  zslLastInRange st4.1 st4.2 range12 = Some (Some 2%positive).
Proof. apply (zsl_range_ends st4.1 st4.2 elements4 range12); [apply st4_repr|done]. Defined.

Lemma zsl_delete_ranges_witness :
  (exists h' z', zslDeleteRangeByScore st4.1 st4.2 range12 = Some (h', z', [text_object 97; text_object 98]) /\
    repr h' z' [i_z; i_5]) /\
  (exists h' z', zslDeleteRangeByRank st4.1 st4.2 2 3 = Some (h', z', [createObject (ENC_INT 5); text_object 97]) /\
    repr h' z' [i_z; i_b]).
Proof. apply (zsl_delete_ranges st4.1 st4.2 elements4 range12 2 3); [apply st4_repr|done|lia]. Defined.

(** ** A range of strings that is taken for empty

    The lower bound "-" is an object with the text "minstring"; a range up to
    "minstring", exclusive, is taken for a range between equal bounds. *)
Definition minstring0 : robj := createObject (ENC_RAW (Sds.Sdshdr 9 0 [109; 105; 110; 115; 116; 114; 105; 110; 103; 0])).
Definition maxstring0 : robj := createObject (ENC_RAW (Sds.Sdshdr 9 0 [109; 97; 120; 115; 116; 114; 105; 110; 103; 0])).
Definition upto_minstring : zlexrangespec robj := Zlexrangespec MinString (Bound minstring0) false true.

(** an element before "minstring" is not found by the range from the
    smallest string up to "minstring", exclusive. *)
Theorem lex_range_minstring :
  repr st1.1 st1.2 [i_b] /\ filter (within (below_lex upto_minstring) (upto_lex upto_minstring)) [i_b] = [i_b] /\
  zslFirstInLexRange minstring0 maxstring0 st1.1 st1.2 upto_minstring = Some None.
Proof. split; [apply st1_repr|]. by vm_compute. Qed.

End Skiplist.
