(* ===== verification/Ziplist.v ===== *)
(** * Ziplists (src/redis-2.8/src/ziplist.c)

    A ziplist is one block of bytes: a header (total bytes, offset of the last
    entry, number of entries), the entries, and the byte [ZIP_END]. An entry
    starts with the length of the entry before it, in one byte or in five, and
    goes on with the encoding of its own length and its string or integer.
    A pointer into the block is its offset, and [uninit] is what freshly
    allocated bytes hold. The target is little endian, so the [*ifbe] macros
    of endianconv.h are the identity, and [size_t] is wider than 32 bits. *)
From stdpp Require Import base tactics list numbers option.
From Stdlib Require Import ZArith Lia.
From S2P Require Import Prelude Util.
Import CInt CMem Bytes Util.
Open Scope redis_scope.
Open Scope Z_scope.

Module Ziplist.

Definition ZIP_END := 255.
Definition ZIP_BIGLEN := 254.
Definition ZIP_STR_MASK := 192.
Definition ZIP_STR_06B := 0.
Definition ZIP_STR_14B := 64.
Definition ZIP_STR_32B := 128.
Definition ZIP_INT_16B := 192.
Definition ZIP_INT_32B := 208.
Definition ZIP_INT_64B := 224.
Definition ZIP_INT_24B := 240.
Definition ZIP_INT_8B := 254.
Definition ZIP_INT_IMM_MASK := 15.
Definition ZIP_INT_IMM_MIN := 241.
Definition ZIP_INT_IMM_MAX := 253.
Definition INT24_MAX := 8388607.
Definition INT24_MIN := - INT24_MAX - 1.
Definition UINT16_MAX := 65535.
Definition ZIPLIST_HEADER_SIZE := 10.
Definition ZIPLIST_HEAD := 0.
Definition ZIPLIST_TAIL := 1.

Definition ZIP_IS_STR (enc : Z) : bool := Z.land enc ZIP_STR_MASK <? ZIP_STR_MASK.

(** ** The header: each macro as a read, and as an assignment. *)
Definition ZIPLIST_BYTES (zl : list Z) : option Z := unle <$> rdn zl 0 4.
Definition ZIPLIST_TAIL_OFFSET (zl : list Z) : option Z := unle <$> rdn zl 4 4.
Definition ZIPLIST_LENGTH (zl : list Z) : option Z := unle <$> rdn zl 8 2.
Definition set_ZIPLIST_BYTES (zl : list Z) (v : Z) : option (list Z) := wrn zl 0 (le 4 v).
Definition set_ZIPLIST_TAIL_OFFSET (zl : list Z) (v : Z) : option (list Z) := wrn zl 4 (le 4 v).
Definition set_ZIPLIST_LENGTH (zl : list Z) (v : Z) : option (list Z) := wrn zl 8 (le 2 v).
Definition ZIPLIST_ENTRY_HEAD : Z := ZIPLIST_HEADER_SIZE.
Definition ZIPLIST_ENTRY_TAIL (zl : list Z) : option Z := ZIPLIST_TAIL_OFFSET zl.
Definition ZIPLIST_ENTRY_END (zl : list Z) : option Z := b ← ZIPLIST_BYTES zl; Some (b - 1).

Definition ZIPLIST_INCR_LENGTH (zl : list Z) (incr : Z) : option (list Z) :=
  l ← ZIPLIST_LENGTH zl;
  if l <? UINT16_MAX then set_ZIPLIST_LENGTH zl (uint16 (l + incr)) else Some zl.

Record zlentry := Zlentry {
  prevrawlensize : Z; prevrawlen : Z; lensize : Z; len : Z;
  headersize : Z; encoding : Z; e_p : Z }.

(** ** Entry headers *)
Definition ZIP_ENTRY_ENCODING (zl : list Z) (ptr : Z) : option Z :=
  b ← rd zl ptr;
  Some (if b <? ZIP_STR_MASK then Z.land b ZIP_STR_MASK else b).

Definition zipIntSize (encoding : Z) : Z :=
  if encoding =? ZIP_INT_8B then 1
  else if encoding =? ZIP_INT_16B then 2
  else if encoding =? ZIP_INT_24B then 3
  else if encoding =? ZIP_INT_32B then 4
  else if encoding =? ZIP_INT_64B then 8
  else 0.

(** The block after the call, when [p] is not NULL, and the result. *)
Definition zipEncodeLength (zl : list Z) (p : option Z) (encoding rawlen : Z)
  : option (list Z * Z) :=
  let store buf := match p with
                   | None => Some (zl, zlen buf)
                   | Some p => zl ← wrn zl p buf; Some (zl, zlen buf)
                   end in
  if ZIP_IS_STR encoding then
    if rawlen <=? 63 then store [Z.lor ZIP_STR_06B rawlen]
    else if rawlen <=? 16383 then
      store [Z.lor ZIP_STR_14B (Z.land (Z.shiftr rawlen 8) 63); Z.land rawlen 255]
    else
      store [ZIP_STR_32B; Z.land (Z.shiftr rawlen 24) 255; Z.land (Z.shiftr rawlen 16) 255;
             Z.land (Z.shiftr rawlen 8) 255; Z.land rawlen 255]
  else store [encoding].

(** The encoding, [lensize] and [len]; a failed assertion is [None]. *)
Definition ZIP_DECODE_LENGTH (zl : list Z) (ptr : Z) : option (Z * Z * Z) :=
  encoding ← ZIP_ENTRY_ENCODING zl ptr;
  if encoding <? ZIP_STR_MASK then
    if encoding =? ZIP_STR_06B then
      b0 ← rd zl ptr; Some (encoding, 1, Z.land b0 63)
    else if encoding =? ZIP_STR_14B then
      b0 ← rd zl ptr; b1 ← rd zl (ptr + 1);
      Some (encoding, 2, Z.lor (Z.shiftl (Z.land b0 63) 8) b1)
    else if encoding =? ZIP_STR_32B then
      b1 ← rd zl (ptr + 1); b2 ← rd zl (ptr + 2); b3 ← rd zl (ptr + 3); b4 ← rd zl (ptr + 4);
      Some (encoding, 5,
        uint32 (Z.lor (Z.lor (Z.lor (Z.shiftl b1 24) (Z.shiftl b2 16)) (Z.shiftl b3 8)) b4))
    else None
  else Some (encoding, 1, zipIntSize encoding).

Definition zipPrevEncodeLength (zl : list Z) (p : option Z) (len : Z) : option (list Z * Z) :=
  match p with
  | None => Some (zl, if len <? ZIP_BIGLEN then 1 else 5)
  | Some p =>
      if len <? ZIP_BIGLEN then zl ← wr zl p len; Some (zl, 1)
      else zl ← wr zl p ZIP_BIGLEN; zl ← wrn zl (p + 1) (le 4 len); Some (zl, 5)
  end.

Definition zipPrevEncodeLengthForceLarge (zl : list Z) (p len : Z) : option (list Z) :=
  zl ← wr zl p ZIP_BIGLEN; wrn zl (p + 1) (le 4 len).

Definition ZIP_DECODE_PREVLENSIZE (zl : list Z) (ptr : Z) : option Z :=
  b ← rd zl ptr; Some (if b <? ZIP_BIGLEN then 1 else 5).

(** [prevlensize] and [prevlen]. *)
Definition ZIP_DECODE_PREVLEN (zl : list Z) (ptr : Z) : option (Z * Z) :=
  prevlensize ← ZIP_DECODE_PREVLENSIZE zl ptr;
  if prevlensize =? 1 then b ← rd zl ptr; Some (prevlensize, b)
  else bs ← rdn zl (ptr + 1) 4; Some (prevlensize, unle bs).

Definition zipPrevLenByteDiff (zl : list Z) (p len : Z) : option Z :=
  prevlensize ← ZIP_DECODE_PREVLENSIZE zl p;
  '(_, n) ← zipPrevEncodeLength zl None len;
  Some (int32 (n - prevlensize)).

Definition zipRawEntryLength (zl : list Z) (p : Z) : option Z :=
  prevlensize ← ZIP_DECODE_PREVLENSIZE zl p;
  '(_, lensize, len) ← ZIP_DECODE_LENGTH zl (p + prevlensize);
  Some (uint32 (prevlensize + lensize + len)).

(** ** Integers *)

(** The value and its encoding, when the function returns 1. *)
Definition zipTryEncoding (entry : list Z) (entrylen : Z) : option (option (Z * Z)) :=
  if (32 <=? entrylen) || (entrylen =? 0) then Some None
  else
    r ← string2ll entry entrylen;
    match r with
    | Some value =>
        let encoding :=
          if (0 <=? value) && (value <=? 12) then ZIP_INT_IMM_MIN + value
          else if (-128 <=? value) && (value <=? 127) then ZIP_INT_8B
          else if (-32768 <=? value) && (value <=? 32767) then ZIP_INT_16B
          else if (INT24_MIN <=? value) && (value <=? INT24_MAX) then ZIP_INT_24B
          else if (- 2 ^ 31 <=? value) && (value <=? 2 ^ 31 - 1) then ZIP_INT_32B
          else ZIP_INT_64B in
        Some (Some (value, encoding))
    | None => Some None
    end.

Definition zipSaveInteger (zl : list Z) (p value encoding : Z) : option (list Z) :=
  if encoding =? ZIP_INT_8B then wr zl p (wrap 8 value)
  else if encoding =? ZIP_INT_16B then wrn zl p (le 2 value)
  else if encoding =? ZIP_INT_24B then
    wrn zl p (drop 1 (le 4 (int32 (Z.shiftl value 8))))
  else if encoding =? ZIP_INT_32B then wrn zl p (le 4 value)
  else if encoding =? ZIP_INT_64B then wrn zl p (le 8 value)
  else if (ZIP_INT_IMM_MIN <=? encoding) && (encoding <=? ZIP_INT_IMM_MAX) then Some zl
  else None.

Definition zipLoadInteger (zl : list Z) (p encoding : Z) : option Z :=
  if encoding =? ZIP_INT_8B then b ← rd zl p; Some (swrap 8 b)
  else if encoding =? ZIP_INT_16B then bs ← rdn zl p 2; Some (swrap 16 (unle bs))
  else if encoding =? ZIP_INT_32B then bs ← rdn zl p 4; Some (swrap 32 (unle bs))
  else if encoding =? ZIP_INT_24B then
    bs ← rdn zl p 3; Some (Z.shiftr (int32 (unle (0 :: bs))) 8)
  else if encoding =? ZIP_INT_64B then bs ← rdn zl p 8; Some (swrap 64 (unle bs))
  else if (ZIP_INT_IMM_MIN <=? encoding) && (encoding <=? ZIP_INT_IMM_MAX) then
    Some (Z.land encoding ZIP_INT_IMM_MASK - 1)
  else None.

Definition zipEntry (zl : list Z) (p : Z) : option zlentry :=
  '(prevrawlensize, prevrawlen) ← ZIP_DECODE_PREVLEN zl p;
  '(encoding, lensize, len) ← ZIP_DECODE_LENGTH zl (p + prevrawlensize);
  Some (Zlentry prevrawlensize prevrawlen lensize len (prevrawlensize + lensize) encoding p).

Section Alloc.
Context (uninit : nat -> Z).

(** ** Whole ziplists *)
Definition ziplistNew : option (list Z) :=
  let bytes := ZIPLIST_HEADER_SIZE + 1 in
  let zl := realloc uninit bytes [] in
  zl ← set_ZIPLIST_BYTES zl bytes;
  zl ← set_ZIPLIST_TAIL_OFFSET zl ZIPLIST_HEADER_SIZE;
  zl ← set_ZIPLIST_LENGTH zl 0;
  wr zl (bytes - 1) ZIP_END.

Definition ziplistResize (zl : list Z) (len : Z) : option (list Z) :=
  let zl := realloc uninit len zl in
  zl ← set_ZIPLIST_BYTES zl len;
  wr zl (len - 1) ZIP_END.

(** The loop of [__ziplistCascadeUpdate]. *)
Fixpoint cascade_loop (fuel : nat) (zl : list Z) (p curlen : Z) : option (list Z) :=
  match fuel with
  | O => None
  | S fuel =>
      b ← rd zl p;
      if b =? ZIP_END then Some zl
      else
        cur ← zipEntry zl p;
        let rawlen := uint32 (headersize cur + len cur) in
        '(_, rawlensize) ← zipPrevEncodeLength zl None (uint32 rawlen);
        b ← rd zl (p + rawlen);
        if b =? ZIP_END then Some zl
        else
          next ← zipEntry zl (p + rawlen);
          if prevrawlen next =? rawlen then Some zl
          else if prevrawlensize next <? rawlensize then
            let extra := rawlensize - prevrawlensize next in
            zl ← ziplistResize zl (uint32 (curlen + extra));
            let np := p + rawlen in
            tail ← ZIPLIST_TAIL_OFFSET zl;
            zl ← (if tail =? np then Some zl
                  else set_ZIPLIST_TAIL_OFFSET zl (uint32 (tail + extra)));
            zl ← memmove zl (np + rawlensize) (np + prevrawlensize next)
                   (curlen - np - prevrawlensize next - 1);
            '(zl, _) ← zipPrevEncodeLength zl (Some np) (uint32 rawlen);
            cascade_loop fuel zl (p + rawlen) (curlen + extra)
          else if rawlensize <? prevrawlensize next then
            zipPrevEncodeLengthForceLarge zl (p + rawlen) (uint32 rawlen)
          else
            fst <$> zipPrevEncodeLength zl (Some (p + rawlen)) (uint32 rawlen)
  end.

(** Every round moves to the next entry, so there are fewer rounds than bytes. *)
Definition __ziplistCascadeUpdate (zl : list Z) (p : Z) : option (list Z) :=
  curlen ← ZIPLIST_BYTES zl;
  cascade_loop (length zl) zl p curlen.

(** [for (i = 0; p[0] != ZIP_END && i < num; i++)]: the final [p] and [deleted]. *)
Fixpoint delete_loop (fuel : nat) (zl : list Z) (p i num deleted : Z) : option (Z * Z) :=
  match fuel with
  | O => None
  | S fuel =>
      b ← rd zl p;
      if negb (b =? ZIP_END) && (i <? num) then
        n ← zipRawEntryLength zl p;
        delete_loop fuel zl (p + n) (i + 1) num (deleted + 1)
      else Some (p, deleted)
  end.

Definition __ziplistDelete (zl : list Z) (p num : Z) : option (list Z) :=
  first ← zipEntry zl p;
  '(p, deleted) ← delete_loop (S (length zl)) zl p 0 num 0;
  let totlen := uint32 (p - e_p first) in
  if 0 <? totlen then
    b ← rd zl p;
    '(zl, nextdiff) ←
      (if negb (b =? ZIP_END) then
         nextdiff ← zipPrevLenByteDiff zl p (prevrawlen first);
         let p := p - nextdiff in
         '(zl, _) ← zipPrevEncodeLength zl (Some p) (prevrawlen first);
         t ← ZIPLIST_TAIL_OFFSET zl;
         zl ← set_ZIPLIST_TAIL_OFFSET zl (uint32 (t - totlen));
         tail ← zipEntry zl p;
         b ← rd zl (p + uint32 (headersize tail + len tail));
         zl ← (if negb (b =? ZIP_END) then
                 t ← ZIPLIST_TAIL_OFFSET zl;
                 set_ZIPLIST_TAIL_OFFSET zl (uint32 (t + nextdiff))
               else Some zl);
         bytes ← ZIPLIST_BYTES zl;
         zl ← memmove zl (e_p first) p (bytes - p - 1);
         Some (zl, nextdiff)
       else
         zl ← set_ZIPLIST_TAIL_OFFSET zl (uint32 (e_p first - prevrawlen first));
         Some (zl, 0));
    let offset := e_p first in
    bytes ← ZIPLIST_BYTES zl;
    zl ← ziplistResize zl (uint32 (bytes - totlen + nextdiff));
    zl ← ZIPLIST_INCR_LENGTH zl (uint32 (- deleted));
    if negb (nextdiff =? 0) then __ziplistCascadeUpdate zl offset else Some zl
  else Some zl.

Definition __ziplistInsert (zl : list Z) (p : Z) (s : list Z) (slen : Z) : option (list Z) :=
  curlen ← ZIPLIST_BYTES zl;
  b ← rd zl p;
  prevlen ←
    (if negb (b =? ZIP_END) then snd <$> ZIP_DECODE_PREVLEN zl p
     else
       ptail ← ZIPLIST_ENTRY_TAIL zl;
       b ← rd zl ptail;
       if negb (b =? ZIP_END) then zipRawEntryLength zl ptail else Some 0);
  r ← zipTryEncoding s slen;
  let '(value, encoding) := default (123456789, 0) r in
  let reqlen := match r with Some _ => zipIntSize encoding | None => slen end in
  '(_, n) ← zipPrevEncodeLength zl None prevlen;
  let reqlen := reqlen + n in
  '(_, n) ← zipEncodeLength zl None encoding slen;
  let reqlen := reqlen + n in
  nextdiff ← (if negb (b =? ZIP_END) then zipPrevLenByteDiff zl p (uint32 reqlen) else Some 0);
  let offset := p in
  zl ← ziplistResize zl (uint32 (curlen + reqlen + nextdiff));
  b ← rd zl p;
  zl ←
    (if negb (b =? ZIP_END) then
       zl ← memmove zl (p + reqlen) (p - nextdiff) (curlen - offset - 1 + nextdiff);
       '(zl, _) ← zipPrevEncodeLength zl (Some (p + reqlen)) (uint32 reqlen);
       t ← ZIPLIST_TAIL_OFFSET zl;
       zl ← set_ZIPLIST_TAIL_OFFSET zl (uint32 (t + reqlen));
       tail ← zipEntry zl (p + reqlen);
       b ← rd zl (p + (reqlen + headersize tail + len tail));
       if negb (b =? ZIP_END) then
         t ← ZIPLIST_TAIL_OFFSET zl;
         set_ZIPLIST_TAIL_OFFSET zl (uint32 (t + nextdiff))
       else Some zl
     else set_ZIPLIST_TAIL_OFFSET zl (uint32 p));
  zl ← (if negb (nextdiff =? 0) then __ziplistCascadeUpdate zl (p + reqlen) else Some zl);
  '(zl, n) ← zipPrevEncodeLength zl (Some p) prevlen;
  let p := p + n in
  '(zl, n) ← zipEncodeLength zl (Some p) encoding slen;
  let p := p + n in
  zl ← (if ZIP_IS_STR encoding then bs ← rdn s 0 slen; wrn zl p bs
        else zipSaveInteger zl p value encoding);
  ZIPLIST_INCR_LENGTH zl 1.

Definition ziplistPush (zl s : list Z) (slen where_ : Z) : option (list Z) :=
  p ← (if where_ =? ZIPLIST_HEAD then Some ZIPLIST_ENTRY_HEAD else ZIPLIST_ENTRY_END zl);
  __ziplistInsert zl p s slen.

Definition ziplistInsert (zl : list Z) (p : Z) (s : list Z) (slen : Z) : option (list Z) :=
  __ziplistInsert zl p s slen.

(** The block and the new value of the caller's pointer. *)
Definition ziplistDelete (zl : list Z) (p : Z) : option (list Z * Z) :=
  let offset := p in
  zl ← __ziplistDelete zl p 1;
  Some (zl, offset).
End Alloc.

(** ** Looking entries up *)

(** [while (prevlen > 0 && index--)]: the final [p] and [index]. *)
Fixpoint index_back (fuel : nat) (zl : list Z) (p prevlen index : Z) : option (Z * Z) :=
  match fuel with
  | O => None
  | S fuel =>
      if 0 <? prevlen then
        if negb (index =? 0) then
          let p := p - prevlen in
          '(_, prevlen) ← ZIP_DECODE_PREVLEN zl p;
          index_back fuel zl p prevlen (index - 1)
        else Some (p, index - 1)
      else Some (p, index)
  end.

(** [while (p[0] != ZIP_END && index--)] *)
Fixpoint index_forth (fuel : nat) (zl : list Z) (p index : Z) : option (Z * Z) :=
  match fuel with
  | O => None
  | S fuel =>
      b ← rd zl p;
      if negb (b =? ZIP_END) then
        if negb (index =? 0) then
          n ← zipRawEntryLength zl p;
          index_forth fuel zl (p + n) (index - 1)
        else Some (p, index - 1)
      else Some (p, index)
  end.

(** NULL is the inner [None]. *)
Definition ziplistIndex (zl : list Z) (index : Z) : option (option Z) :=
  '(p, index) ←
    (if index <? 0 then
       let index := - index - 1 in
       p ← ZIPLIST_ENTRY_TAIL zl;
       b ← rd zl p;
       if negb (b =? ZIP_END) then
         '(_, prevlen) ← ZIP_DECODE_PREVLEN zl p;
         index_back (S (length zl)) zl p prevlen index
       else Some (p, index)
     else index_forth (S (length zl)) zl ZIPLIST_ENTRY_HEAD index);
  b ← rd zl p;
  Some (if (b =? ZIP_END) || (0 <? index) then None else Some p).

Definition ziplistNext (zl : list Z) (p : Z) : option (option Z) :=
  b ← rd zl p;
  if b =? ZIP_END then Some None
  else
    n ← zipRawEntryLength zl p;
    let p := p + n in
    b ← rd zl p;
    if b =? ZIP_END then Some None else Some (Some p).

Definition ziplistPrev (zl : list Z) (p : Z) : option (option Z) :=
  b ← rd zl p;
  if b =? ZIP_END then
    p ← ZIPLIST_ENTRY_TAIL zl;
    b ← rd zl p;
    Some (if b =? ZIP_END then None else Some p)
  else if p =? ZIPLIST_ENTRY_HEAD then Some None
  else
    '(_, prevlen) ← ZIP_DECODE_PREVLEN zl p;
    if 0 <? prevlen then Some (Some (p - prevlen)) else None.

(** What [ziplistGet] stores: the string at [*sstr] of [*slen] bytes, or [*sval]. *)
Inductive zget := GetStr (s : list Z) | GetInt (v : Z).

(** With [sstr] and [sval] given; the inner [None] is the result 0. *)
Definition ziplistGet (zl : list Z) (p : option Z) : option (option zget) :=
  match p with
  | None => Some None
  | Some p =>
      b ← rd zl p;
      if b =? ZIP_END then Some None
      else
        entry ← zipEntry zl p;
        if ZIP_IS_STR (encoding entry) then
          s ← rdn zl (p + headersize entry) (len entry); Some (Some (GetStr s))
        else
          v ← zipLoadInteger zl (p + headersize entry) (encoding entry); Some (Some (GetInt v))
  end.

Definition ziplistDeleteRange (uninit : nat -> Z) (zl : list Z) (index num : Z) : option (list Z) :=
  p ← ziplistIndex zl (int32 index);
  match p with
  | None => Some zl
  | Some p => __ziplistDelete uninit zl p num
  end.

Definition ziplistCompare (zl : list Z) (p : Z) (sstr : list Z) (slen : Z) : option bool :=
  b ← rd zl p;
  if b =? ZIP_END then Some false
  else
    entry ← zipEntry zl p;
    if ZIP_IS_STR (encoding entry) then
      if len entry =? slen then
        x ← rdn zl (p + headersize entry) slen;
        y ← rdn sstr 0 slen;
        Some (memcmp x y =? 0)
      else Some false
    else
      r ← zipTryEncoding sstr slen;
      match r with
      | Some (sval, _) =>
          zval ← zipLoadInteger zl (p + headersize entry) (encoding entry);
          Some (zval =? sval)
      | None => Some false
      end.

Definition UCHAR_MAX := 255.

(** The loop of [ziplistFind] with its [skipcnt], [vencoding] and [vll]. *)
Fixpoint find_loop (fuel : nat) (zl : list Z) (p : Z) (vstr : list Z) (vlen skip : Z)
    (skipcnt vencoding vll : Z) : option (option Z) :=
  match fuel with
  | O => None
  | S fuel =>
      b ← rd zl p;
      if b =? ZIP_END then Some None
      else
        prevlensize ← ZIP_DECODE_PREVLENSIZE zl p;
        '(encoding, lensize, len) ← ZIP_DECODE_LENGTH zl (p + prevlensize);
        let q := p + prevlensize + lensize in
        if skipcnt =? 0 then
          '(found, vencoding, vll) ←
            (if ZIP_IS_STR encoding then
               if len =? vlen then
                 x ← rdn zl q vlen;
                 y ← rdn vstr 0 vlen;
                 Some (memcmp x y =? 0, vencoding, vll)
               else Some (false, vencoding, vll)
             else
               '(vencoding, vll) ←
                 (if vencoding =? 0 then
                    r ← zipTryEncoding vstr vlen;
                    match r with
                    | Some (v, e) => if e =? 0 then None else Some (e, v)
                    | None => Some (UCHAR_MAX, vll)
                    end
                  else Some (vencoding, vll));
               if negb (vencoding =? UCHAR_MAX) then
                 ll ← zipLoadInteger zl q encoding;
                 Some (ll =? vll, vencoding, vll)
               else Some (false, vencoding, vll));
          if found : bool then Some (Some p)
          else find_loop fuel zl (q + len) vstr vlen skip (int32 skip) vencoding vll
        else find_loop fuel zl (q + len) vstr vlen skip (skipcnt - 1) vencoding vll
  end.

Definition ziplistFind (zl : list Z) (p : Z) (vstr : list Z) (vlen skip : Z)
  : option (option Z) :=
  find_loop (S (length zl)) zl p vstr vlen skip 0 0 0.

(** [while ( *p != ZIP_END)] of [ziplistLen]. *)
Fixpoint len_loop (fuel : nat) (zl : list Z) (p len : Z) : option Z :=
  match fuel with
  | O => None
  | S fuel =>
      b ← rd zl p;
      if b =? ZIP_END then Some len
      else n ← zipRawEntryLength zl p; len_loop fuel zl (p + n) (uint32 (len + 1))
  end.

(** The length, and the block with the length stored again. *)
Definition ziplistLen (zl : list Z) : option (Z * list Z) :=
  l ← ZIPLIST_LENGTH zl;
  if l <? UINT16_MAX then Some (l, zl)
  else
    len ← len_loop (S (length zl)) zl ZIPLIST_HEADER_SIZE 0;
    zl ← (if len <? UINT16_MAX then set_ZIPLIST_LENGTH zl len else Some zl);
    Some (len, zl).

Definition ziplistBlobLen (zl : list Z) : option Z := ZIPLIST_BYTES zl.

(** ** The layout of a ziplist

    The entries of a ziplist are values, strings or integers with their
    encoding; [big] is whether an entry spends five bytes on the length of the
    entry before it. [text] is what a client sees. *)
Inductive zval := VStr (s : list Z) | VInt (enc v : Z).

Record ent := Ent { big : bool; val : zval }.

Definition text (v : zval) : list Z :=
  match v with VStr s => s | VInt _ v => dec v end.

Definition lenbytes (n : Z) : list Z :=
  if n <=? 63 then [n]
  else if n <=? 16383 then [64 + n / 256; n mod 256]
  else 128 :: rev (le 4 n).

Definition body (v : zval) : list Z :=
  match v with
  | VStr s => lenbytes (zlen s) ++ s
  | VInt enc v => enc :: le (Z.to_nat (zipIntSize enc)) v
  end.

Definition int_ok (enc v : Z) : Prop :=
  (ZIP_INT_IMM_MIN <= enc <= ZIP_INT_IMM_MAX /\ v = enc - ZIP_INT_IMM_MIN) \/
  (enc ∈ [ZIP_INT_8B; ZIP_INT_16B; ZIP_INT_24B; ZIP_INT_32B; ZIP_INT_64B] /\
   in_s (8 * zipIntSize enc) v).

Definition val_ok (v : zval) : Prop :=
  match v with
  | VStr s => Forall is_byte s /\ zlen s < 2 ^ 32
  | VInt enc v => int_ok enc v
  end.

(** The encoding byte, its size and the payload of a value. *)
Definition venc (v : zval) : Z :=
  match v with
  | VStr s => if zlen s <=? 63 then ZIP_STR_06B
              else if zlen s <=? 16383 then ZIP_STR_14B else ZIP_STR_32B
  | VInt enc _ => enc
  end.

Definition payload (v : zval) : list Z :=
  match v with VStr s => s | VInt enc v => le (Z.to_nat (zipIntSize enc)) v end.

Definition vlensize (v : zval) : Z :=
  match v with VStr s => zlen (lenbytes (zlen s)) | VInt _ _ => 1 end.

Definition psize (b : bool) : Z := if b then 5 else 1.

Definition pfield (b : bool) (n : Z) : list Z := if b then ZIP_BIGLEN :: le 4 n else [n].

(** [n] fits the field. *)
Definition pfits (b : bool) (n : Z) : Prop := 0 <= n < if b then 2 ^ 32 else ZIP_BIGLEN.

Definition esize (e : ent) : Z := psize (big e) + zlen (body (val e)).

(** The bytes of entries that follow an entry of [prev] bytes. *)
Fixpoint enc (prev : Z) (es : list ent) : list Z :=
  match es with
  | [] => []
  | e :: es => pfield (big e) prev ++ body (val e) ++ enc (esize e) es
  end.

Fixpoint wf (prev : Z) (es : list ent) : Prop :=
  match es with
  | [] => True
  | e :: es => pfits (big e) prev /\ val_ok (val e) /\ wf (esize e) es
  end.

Fixpoint total (es : list ent) : Z :=
  match es with [] => 0 | e :: es => esize e + total es end.

(** The offset of the last entry among [es]. *)
Fixpoint lastoff (es : list ent) : Z :=
  match es with
  | [] | [_] => 0
  | e :: es => esize e + lastoff es
  end.

Definition hdr (bytes tail l : Z) : list Z := le 4 bytes ++ le 4 tail ++ le 2 l.

(** ** Encodings read back *)
Lemma byte_fields b : is_byte b -> Z.land b 192 = 64 * (b / 64) /\ Z.land b 63 = b mod 64.
Proof.
  intros [Hl Hu]. split; [|by apply (Z.land_ones b 6)].
  change 192 with (Z.shiftl (Z.ones 2) 6). rewrite Z.land_comm.
  apply Z.bits_inj'. intros i Hi. rewrite Z.land_spec, Z.shiftl_spec by done.
  replace (64 * (b / 64)) with (Z.shiftl (Z.shiftr b 6) 6)
    by (rewrite Z.shiftl_mul_pow2, Z.shiftr_div_pow2 by lia; change (2 ^ 6) with 64; lia).
  rewrite Z.shiftl_spec by done. destruct (Z.lt_ge_cases i 6).
  { by rewrite !(Z.testbit_neg_r _ (i - 6)) by lia. }
  rewrite Z.shiftr_spec by lia. replace (i - 6 + 6) with i by lia.
  destruct (Z.lt_ge_cases i 8); [by rewrite Z.ones_spec_low by lia|].
  rewrite <- (Z.mod_small b (2 ^ 8)) by done.
  by rewrite Z.mod_pow2_bits_high, andb_false_r by lia.
Qed.

Lemma lenbytes_bytes n : 0 <= n < 2 ^ 32 -> Forall is_byte (lenbytes n).
Proof.
  intros Hn. unfold lenbytes. destruct (Z.leb_spec n 63); [|destruct (Z.leb_spec n 16383)].
  - repeat constructor; lia.
  - pose proof (Z.mod_pos_bound n 256 ltac:(lia)).
    assert (n / 256 < 64) by (apply Z.div_lt_upper_bound; lia).
    assert (0 <= n / 256) by (apply Z.div_pos; lia). repeat constructor; lia.
  - constructor; [done|]. apply Forall_rev, le_bytes.
Qed.

Lemma lor_bytes4 b1 b2 b3 b4 :
  is_byte b1 -> is_byte b2 -> is_byte b3 -> is_byte b4 ->
  Z.lor (Z.lor (Z.lor (Z.shiftl b1 24) (Z.shiftl b2 16)) (Z.shiftl b3 8)) b4 =
  unle [b4; b3; b2; b1].
Proof.
  unfold is_byte. intros. rewrite lor_shiftl by (rewrite ?Z.shiftl_mul_pow2; lia).
  replace (b1 * 2 ^ 24 + Z.shiftl b2 16) with (Z.shiftl (b1 * 256 + b2) 16)
    by (rewrite !Z.shiftl_mul_pow2 by lia; lia).
  rewrite lor_shiftl by (rewrite ?Z.shiftl_mul_pow2; lia).
  replace ((b1 * 256 + b2) * 2 ^ 16 + Z.shiftl b3 8) with
    (Z.shiftl ((b1 * 256 + b2) * 256 + b3) 8) by (rewrite !Z.shiftl_mul_pow2 by lia; lia).
  rewrite lor_shiftl by lia. cbn [unle]. lia.
Qed.

(** [zipEncodeLength] writes [lenbytes], or the encoding of an integer. *)
Definition lenhdr (encoding n : Z) : list Z :=
  if ZIP_IS_STR encoding then lenbytes n else [encoding].

Lemma zipEncodeLength_spec zl p encoding n :
  0 <= n < 2 ^ 32 ->
  zipEncodeLength zl p encoding n =
    match p with
    | None => Some (zl, zlen (lenhdr encoding n))
    | Some p => zl ← wrn zl p (lenhdr encoding n); Some (zl, zlen (lenhdr encoding n))
    end.
Proof.
  intros Hn. unfold zipEncodeLength, lenhdr. destruct (ZIP_IS_STR encoding); [|done].
  unfold lenbytes. destruct (Z.leb_spec n 63); [done|].
  rewrite !land_255. destruct (Z.leb_spec n 16383) as [Hm|Hm].
  - assert (Z.land (Z.shiftr n 8) 63 = n / 256) as E.
    { rewrite Z.shiftr_div_pow2, land_63 by lia.
      change (2 ^ 8) with 256. apply Z.mod_small. split; [apply Z.div_pos; lia|].
      apply Z.div_lt_upper_bound; lia. }
    rewrite E. assert (0 <= n / 256 < 64).
    { split; [apply Z.div_pos; lia|]. apply Z.div_lt_upper_bound; lia. }
    assert (Z.lor ZIP_STR_14B (n / 256) = 64 + n / 256) as ->
      by (apply (lor_shiftl 1 (n / 256) 6); lia). done.
  - rewrite !Z.shiftr_div_pow2 by lia.
    change (2 ^ 24) with (256 * (256 * 256)). change (2 ^ 16) with (256 * 256).
    change (2 ^ 8) with 256. rewrite <- !Z.div_div by lia. done.
Qed.

(** The decoders look only at the bytes behind their pointer. *)
Lemma decode_length_shift a m i :
  0 <= i -> ZIP_DECODE_LENGTH (a ++ m) (zlen a + i) = ZIP_DECODE_LENGTH m i.
Proof.
  intros. unfold ZIP_DECODE_LENGTH, ZIP_ENTRY_ENCODING.
  rewrite <- !Z.add_assoc, !rd_shift by lia. done.
Qed.

Lemma entry_encoding b c :
  0 <= b < 192 -> ZIP_ENTRY_ENCODING (b :: c) 0 = Some (64 * (b / 64)).
Proof.
  intros Hb. unfold ZIP_ENTRY_ENCODING. rewrite rd_0. osimpl.
  rewrite (proj2 (Z.ltb_lt b _)) by (unfold ZIP_STR_MASK; lia). f_equal.
  apply byte_fields. unfold is_byte. lia.
Qed.

Lemma decode_str s c :
  zlen s < 2 ^ 32 ->
  ZIP_DECODE_LENGTH (lenbytes (zlen s) ++ c) 0 =
    Some (venc (VStr s), vlensize (VStr s), zlen s).
Proof.
  intros Hs. unfold ZIP_DECODE_LENGTH, venc, vlensize, lenbytes.
  destruct (Z.leb_spec (zlen s) 63) as [Hn|Hn]; [|destruct (Z.leb_spec (zlen s) 16383) as [Hm|Hm]].
  - cbn [app]. rewrite entry_encoding, Z.div_small by lia.
    osimpl. ctests. rewrite rd_0. osimpl. by rewrite land_63, Z.mod_small by lia.
  - assert (0 <= zlen s / 256 < 64) as Hd.
    { split; [apply Z.div_pos; lia|]. apply Z.div_lt_upper_bound; lia. }
    cbn [app]. rewrite entry_encoding by lia.
    replace ((64 + zlen s / 256) / 64) with 1 by (apply Z.div_unique with (zlen s / 256); lia).
    osimpl. ctests. rewrite rd_0, rd_1. osimpl. rewrite land_63.
    replace ((64 + zlen s / 256) mod 64) with (zlen s / 256) by (apply Z.mod_unique with 1; lia).
    rewrite lor_shiftl by (try apply Z.mod_pos_bound; lia).
    do 2 f_equal. pose proof (Z.div_mod (zlen s) 256). lia.
  - pose proof (le_bytes 4 (zlen s)) as Hb.
    assert (unle (le 4 (zlen s)) = zlen s) as Hu by (apply unle_le_small; lia).
    pose proof (le_length 4 (zlen s)) as Hl.
    destruct (le 4 (zlen s)) as [|b4 [|b3 [|b2 [|b1 [|]]]]]; try discriminate Hl.
    rewrite !Forall_cons_iff in Hb. destruct Hb as (?&?&?&?&_).
    cbn [rev app]. rewrite entry_encoding by lia.
    osimpl. ctests. 
    change (rd _ (0 + 1)) with (Some b1). change (rd _ (0 + 2)) with (Some b2).
    change (rd _ (0 + 3)) with (Some b3). change (rd _ (0 + 4)) with (Some b4).
    osimpl. rewrite lor_bytes4 by done.
    rewrite Hu, wrap_small by (unfold in_u; lia). done.
Qed.

Lemma imm_ind (P : Z -> Prop) :
  Forall P [241; 242; 243; 244; 245; 246; 247; 248; 249; 250; 251; 252; 253] ->
  forall en, ZIP_INT_IMM_MIN <= en <= ZIP_INT_IMM_MAX -> P en.
Proof.
  unfold ZIP_INT_IMM_MIN, ZIP_INT_IMM_MAX. intros HP en Hen. revert HP.
  rewrite !Forall_cons_iff. intros HP.
  assert (en = 253 \/ en = 252 \/ en = 251 \/ en = 250 \/ en = 249 \/ en = 248 \/ en = 247 \/
          en = 246 \/ en = 245 \/ en = 244 \/ en = 243 \/ en = 242 \/ en = 241) as Hc by lia.
  repeat destruct Hc as [-> | Hc]; [..|subst en]; apply HP.
Qed.

Lemma int_enc enc v : int_ok enc v ->
  192 <= enc <= 254 /\ 0 <= zipIntSize enc <= 8 /\ ZIP_IS_STR enc = false.
Proof.
  intros [[H _]|[H _]].
  - revert enc H. apply imm_ind. by repeat constructor.
  - repeat (apply elem_of_cons in H as [-> | H];
      [by split_and!; try (vm_compute; congruence)|]). by apply elem_of_nil in H.
Qed.

Lemma venc_str v : val_ok v -> ZIP_IS_STR (venc v) = if v is VStr _ then true else false.
Proof.
  destruct v as [s|en v]; intros Hv; [|by apply (int_enc en v)].
  unfold venc. by destruct (zlen s <=? 63), (zlen s <=? 16383).
Qed.

(** A value at the front: its encoding, the sizes of its header and of its payload. *)
Lemma decode_length v c :
  val_ok v -> ZIP_DECODE_LENGTH (body v ++ c) 0 = Some (venc v, vlensize v, zlen (payload v)).
Proof.
  destruct v as [s|en v]; intros Hv.
  - cbn [body]. rewrite <- app_assoc. by apply decode_str, Hv.
  - destruct (int_enc en v Hv) as (He & Hz & _). cbn [body app venc vlensize payload].
    unfold ZIP_DECODE_LENGTH, ZIP_ENTRY_ENCODING. rewrite rd_0. osimpl.
    rewrite (proj2 (Z.ltb_ge en _)) by (unfold ZIP_STR_MASK; lia). cbn [mbind option_bind].
    rewrite (proj2 (Z.ltb_ge en _)) by (unfold ZIP_STR_MASK; lia).
    rewrite le_length. do 2 f_equal. lia.
Qed.

Lemma body_size v : zlen (body v) = vlensize v + zlen (payload v).
Proof. destruct v; cbn [body vlensize payload]; zsize. Qed.

Lemma pfield_size b n : zlen (pfield b n) = psize b.
Proof. by destruct b. Qed.

Lemma pfield_first b n :
  pfits b n -> exists x t, pfield b n = x :: t /\ (x =? ZIP_END) = false /\
    (x <? ZIP_BIGLEN) = negb b.
Proof.
  unfold pfits, ZIP_BIGLEN, ZIP_END. intros Hn. destruct b; eexists _, _; (split; [done|]); [done|].
  split; [apply Z.eqb_neq|apply Z.ltb_lt]; lia.
Qed.

(** Equality of blocks up to the grouping of their parts. *)
Ltac lassoc := repeat (rewrite <- ?app_assoc; cbn [app]); rewrite ?app_nil_r; try reflexivity.

Lemma rd_first a b n m zl p :
  zl = a ++ pfield b n ++ m -> p = zlen a -> pfits b n ->
  exists x, rd zl p = Some x /\ (x =? ZIP_END) = false /\ (x <? ZIP_BIGLEN) = negb b.
Proof.
  intros -> -> Hn. destruct (pfield_first b n Hn) as (x & t & -> & Hx). exists x.
  split; [by apply rd_app|done].
Qed.

Lemma prevlensize_at a b n m zl p :
  zl = a ++ pfield b n ++ m -> p = zlen a -> pfits b n ->
  ZIP_DECODE_PREVLENSIZE zl p = Some (psize b).
Proof.
  intros Hz Hp Hn. unfold ZIP_DECODE_PREVLENSIZE.
  destruct (rd_first a b n m zl p Hz Hp Hn) as (x & -> & _ & E). osimpl. rewrite E. by destruct b.
Qed.

Lemma prevlen_at a b n m zl p :
  zl = a ++ pfield b n ++ m -> p = zlen a -> pfits b n ->
  ZIP_DECODE_PREVLEN zl p = Some (psize b, n).
Proof.
  intros Hz Hp Hn. unfold ZIP_DECODE_PREVLEN. rewrite (prevlensize_at a b n m) by done. osimpl.
  subst zl. destruct b; cbn [psize pfield]; ctests.
  - cbn [app]. rewrite (app_cons_mid a), rdn_app by zsize. osimpl.
    unfold pfits in Hn. rewrite unle_le_small by lia. done.
  - cbn [app]. by rewrite rd_app.
Qed.

Lemma prevdiff_at a b n m zl p l :
  zl = a ++ pfield b n ++ m -> p = zlen a -> pfits b n ->
  zipPrevLenByteDiff zl p l = Some (psize (ZIP_BIGLEN <=? l) - psize b).
Proof.
  intros Hz Hp Hn. unfold zipPrevLenByteDiff. rewrite (prevlensize_at a b n m) by done. osimpl. cbn.
  rewrite Z.ltb_antisym. destruct (ZIP_BIGLEN <=? l), b; done.
Qed.

Lemma prevlen_null zl l :
  zipPrevEncodeLength zl None l = Some (zl, psize (ZIP_BIGLEN <=? l)).
Proof. unfold zipPrevEncodeLength. rewrite Z.ltb_antisym. by destruct (_ <=? _). Qed.

(** Writing the length field over a gap of its size. *)
Lemma put_large a x c zl p l :
  zl = a ++ x ++ c -> p = zlen a -> zlen x = 5 ->
  zipPrevEncodeLengthForceLarge zl p l = Some (a ++ pfield true l ++ c).
Proof.
  intros -> -> Hx. unfold zipPrevEncodeLengthForceLarge. destruct x as [|y x]; [done|].
  cbn [app]. rewrite wr_app by done. osimpl.
  rewrite (app_cons_mid a), wrn_app by zsize. cbn [pfield]. by rewrite <- app_assoc.
Qed.

Lemma put_prev a x c zl p l :
  zl = a ++ x ++ c -> p = zlen a -> zlen x = psize (ZIP_BIGLEN <=? l) ->
  zipPrevEncodeLength zl (Some p) l =
    Some (a ++ pfield (ZIP_BIGLEN <=? l) l ++ c, psize (ZIP_BIGLEN <=? l)).
Proof.
  intros Hz Hp Hx. unfold zipPrevEncodeLength. rewrite Z.ltb_antisym.
  destruct (ZIP_BIGLEN <=? l); cbn [negb psize] in *.
  - pose proof (put_large a x c zl p l Hz Hp Hx) as E.
    unfold zipPrevEncodeLengthForceLarge in E. apply bind_inv in E as (m & -> & E). osimpl.
    by rewrite E.
  - destruct x as [|y [|]]; cbn in Hx; try lia. subst zl p. cbn [app]. by rewrite wr_app.
Qed.

(** An entry behind [a]. *)
Lemma zipEntry_at a b n v c zl p :
  zl = a ++ pfield b n ++ body v ++ c -> p = zlen a -> pfits b n -> val_ok v ->
  zipEntry zl p =
    Some (Zlentry (psize b) n (vlensize v) (zlen (payload v)) (psize b + vlensize v) (venc v) p).
Proof.
  intros Hz Hp Hn Hv. unfold zipEntry. rewrite (prevlen_at a b n (body v ++ c)) by done. osimpl.
  subst zl p. rewrite app_assoc.
  replace (zlen a + psize b) with (zlen (a ++ pfield b n) + 0)
    by (rewrite length_app, <- (pfield_size b n); lia).
  by rewrite decode_length_shift, decode_length.
Qed.

Lemma rawlen_at a b n v c zl p :
  zl = a ++ pfield b n ++ body v ++ c -> p = zlen a -> pfits b n -> val_ok v ->
  psize b + zlen (body v) < 2 ^ 32 ->
  zipRawEntryLength zl p = Some (psize b + zlen (body v)).
Proof.
  intros Hz Hp Hn Hv Hs. unfold zipRawEntryLength.
  rewrite (prevlensize_at a b n (body v ++ c)) by done. osimpl. subst zl p. rewrite app_assoc.
  replace (zlen a + psize b) with (zlen (a ++ pfield b n) + 0)
    by (rewrite length_app, <- (pfield_size b n); lia).
  rewrite decode_length_shift, decode_length by done. osimpl.
  rewrite body_size in *. rewrite <- Z.add_assoc, wrap_small; [done|].
  unfold in_u. pose proof (pfield_size b n). destruct v; simpl vlensize in *; lia.
Qed.

(** ** Integers read back *)
Lemma unle_0_24 bs : zlen bs = 3 -> Forall is_byte bs ->
  Z.shiftr (swrap 32 (unle (0 :: bs))) 8 = swrap 24 (unle bs).
Proof.
  intros Hl Hb. pose proof (unle_bound bs Hb) as Hu. rewrite Hl in Hu.
  change (256 ^ 3) with (2 ^ 24) in Hu. cbn [unle]. rewrite Z.shiftr_div_pow2 by lia.
  unfold swrap. change (2 ^ (24 - 1)) with (2 ^ 23). change (2 ^ (32 - 1)) with (2 ^ 23 * 256).
  change (2 ^ 32) with (2 ^ 24 * 256). change (2 ^ 8) with 256.
  replace (0 + 256 * unle bs + 2 ^ 23 * 256) with ((unle bs + 2 ^ 23) * 256) by lia.
  rewrite Z.mul_mod_distr_r by lia. rewrite <- Z.mul_sub_distr_r. by apply Z.div_mul.
Qed.

Lemma load_at a en v c p :
  p = zlen a -> int_ok en v ->
  zipLoadInteger (a ++ payload (VInt en v) ++ c) p en = Some v.
Proof.
  intros -> [[H ->]|[H Hv]].
  { revert en H. apply imm_ind. repeat constructor. }
  cbn [payload]. unfold zipLoadInteger.
  repeat (apply elem_of_cons in H as [-> | H];
    [ctests; match goal with |- context [zipIntSize ?e] =>
               let n := eval vm_compute in (zipIntSize e) in
               change (zipIntSize e) with n in * end|]);
    [..|by apply elem_of_nil in H].
  - pose proof (swrap_unle_le 1 v ltac:(lia) Hv) as E. cbn [le unle] in E. rewrite Z.add_0_r in E.
    change (le (Z.to_nat 1) v) with [v mod 256]. cbn [app]. rewrite rd_app by done. osimpl. by f_equal.
  - rewrite rdn_app by zsize. osimpl. f_equal. apply (swrap_unle_le 2); [lia|done].
  - rewrite rdn_app by zsize. osimpl. rewrite unle_0_24 by (apply le_bytes || zsize).
    f_equal. apply (swrap_unle_le 3); [lia|done].
  - rewrite rdn_app by zsize. osimpl. f_equal. apply (swrap_unle_le 4); [lia|done].
  - rewrite rdn_app by zsize. osimpl. f_equal. apply (swrap_unle_le 8); [lia|done].
Qed.

Lemma save_spec zl p en v :
  int_ok en v -> 0 <= p <= zlen zl -> zipSaveInteger zl p v en = wrn zl p (payload (VInt en v)).
Proof.
  intros [[H ->]|[H Hv]] Hp.
  { revert en H. apply imm_ind. cbn [payload].
    repeat constructor; change (le _ _) with (@nil Z); by rewrite wrn_nil. }
  cbn [payload]. unfold zipSaveInteger.
  repeat (apply elem_of_cons in H as [-> | H]; [ctests|]); [..|by apply elem_of_nil in H]; try done.
  - apply wr_wrn.
  - f_equal. change (in_s 24 v) in Hv. unfold in_s in Hv. simpl in Hv.
    rewrite Z.shiftl_mul_pow2, swrap_small by (unfold in_s; lia).
    change (drop 1 (le 4 (v * 2 ^ 8))) with (le 3 (v * 256 / 256)). by rewrite Z.div_mul.
Qed.

(** [zipTryEncoding] recognizes the texts of the 64-bit integers and picks an
    encoding that holds them. *)
Lemma zipTryEncoding_spec s :
  exists r, zipTryEncoding s (zlen s) = Some r /\
    match r with
    | Some (v, en) => int_ok en v /\ in_s 64 v /\ s = dec v
    | None => forall v, in_s 64 v -> s <> dec v
    end.
Proof.
  unfold zipTryEncoding. destruct (string2ll_spec s) as (r & E & Hr).
  destruct (Z.leb_spec 32 (zlen s)); cbn [orb].
  { exists None. split; [done|]. intros v Hv ->. pose proof (dec_length v Hv). lia. }
  destruct (Z.eqb_spec (zlen s) 0).
  { exists None. split; [done|]. intros v Hv ->. pose proof (dec_length v Hv). lia. }
  rewrite E. osimpl. destruct r as [v|]; eexists; (split; [done|]).
  - destruct (proj1 (Hr v) eq_refl) as [Hv Hd]. split_and!; [|done..].
    assert (forall en, en ∈ [ZIP_INT_8B; ZIP_INT_16B; ZIP_INT_24B; ZIP_INT_32B; ZIP_INT_64B] ->
      in_s (8 * zipIntSize en) v -> int_ok en v) as Hi by (intros; by right).
    unfold INT24_MIN, INT24_MAX.
    repeat match goal with |- context [?a <=? ?b] => destruct (Z.leb_spec a b) end; cbn [andb];
      try lia.
    1: { left. unfold ZIP_INT_IMM_MIN, ZIP_INT_IMM_MAX. lia. }
    all: apply Hi; [rewrite !elem_of_cons; tauto|].
    all: match goal with |- in_s (8 * zipIntSize ?e) _ =>
           let n := eval vm_compute in (8 * zipIntSize e) in change (in_s n v) end.
    all: unfold in_s in *; simpl in *; lia.
  - intros v Hv ->. discriminate (proj2 (Hr v) (conj Hv eq_refl)).
Qed.

(** The value an inserted string becomes. *)
Definition value_of (s : list Z) : zval :=
  match zipTryEncoding s (zlen s) with
  | Some (Some (v, en)) => VInt en v
  | _ => VStr s
  end.

Lemma value_of_ok s :
  Forall is_byte s -> zlen s < 2 ^ 32 -> val_ok (value_of s) /\ text (value_of s) = s.
Proof.
  intros Hb Hl. unfold value_of. destruct (zipTryEncoding_spec s) as (r & -> & Hr).
  destruct r as [[v en]|]; [|done]. by destruct Hr as (? & ? & ->).
Qed.

(** ** Sizes *)
Lemma lenbytes_size n : 1 <= zlen (lenbytes n) <= 5.
Proof.
  unfold lenbytes. destruct (n <=? 63); [cbn; lia|]. destruct (n <=? 16383); [cbn; lia|].
  cbn [length]. rewrite length_rev, le_length. lia.
Qed.

Lemma body_pos v : 1 <= zlen (body v).
Proof. destruct v; cbn [body]; [|cbn [length]; lia]. rewrite length_app. pose proof (lenbytes_size (zlen s)). lia. Qed.

Lemma psize_pos b : 1 <= psize b <= 5.
Proof. by destruct b. Qed.

Lemma esize_pos e : 2 <= esize e.
Proof. unfold esize. pose proof (body_pos (val e)). pose proof (psize_pos (big e)). lia. Qed.

Lemma enc_size es : forall prev, zlen (enc prev es) = total es.
Proof.
  induction es as [|e es IH]; intros prev; [done|]. cbn [enc total]. unfold esize at 2.
  rewrite !length_app, !Nat2Z.inj_add, IH, pfield_size. lia.
Qed.

Lemma total_lower es : 2 * zlen es <= total es.
Proof. induction es as [|e es IH]; cbn [total length]; [lia|]. pose proof (esize_pos e). lia. Qed.

Lemma total_app es1 es2 : total (es1 ++ es2) = total es1 + total es2.
Proof. induction es1 as [|e es IH]; cbn [total app]; lia. Qed.

Lemma hdr_size b t l : zlen (hdr b t l) = 10.
Proof. done. Qed.

#[local] Hint Rewrite Nat2Z.inj_add Nat2Z.inj_succ pfield_size enc_size hdr_size : size.

Ltac zside := first [done | lassoc; done | subst; autorewrite with size; cbn [length psize total];
  autorewrite with size; lia].

(** ** The header read and written *)
Section Header.
Context (b t l : Z) (m : list Z).

Lemma bytes_at : 0 <= b < 2 ^ 32 -> ZIPLIST_BYTES (hdr b t l ++ m) = Some b.
Proof.
  intros. unfold ZIPLIST_BYTES, hdr. rewrite <- !app_assoc.
  pose proof (rdn_app [] (le 4 b) (le 4 t ++ le 2 l ++ m) 0 4 eq_refl eq_refl) as E.
  rewrite app_nil_l in E. rewrite E. cbn. f_equal. by apply (unle_le_small 4).
Qed.

Lemma tail_at : 0 <= t < 2 ^ 32 -> ZIPLIST_TAIL_OFFSET (hdr b t l ++ m) = Some t.
Proof.
  intros. unfold ZIPLIST_TAIL_OFFSET, hdr. rewrite <- !app_assoc, rdn_app by zsize.
  cbn. f_equal. by apply (unle_le_small 4).
Qed.

Lemma length_at : 0 <= l < 2 ^ 16 -> ZIPLIST_LENGTH (hdr b t l ++ m) = Some l.
Proof.
  intros. unfold ZIPLIST_LENGTH, hdr.
  rewrite <- !app_assoc, app_assoc, rdn_app by zsize.
  cbn. f_equal. by apply (unle_le_small 2).
Qed.

Lemma set_bytes_at v : set_ZIPLIST_BYTES (hdr b t l ++ m) v = Some (hdr v t l ++ m).
Proof.
  unfold set_ZIPLIST_BYTES, hdr. rewrite <- !app_assoc.
  apply (wrn_app [] (le 4 b) (le 4 t ++ le 2 l ++ m)); done.
Qed.

Lemma set_tail_at v : set_ZIPLIST_TAIL_OFFSET (hdr b t l ++ m) v = Some (hdr b v l ++ m).
Proof. unfold set_ZIPLIST_TAIL_OFFSET, hdr. rewrite <- !app_assoc. by rewrite wrn_app by zsize. Qed.

Lemma set_length_at v : set_ZIPLIST_LENGTH (hdr b t l ++ m) v = Some (hdr b t v ++ m).
Proof.
  unfold set_ZIPLIST_LENGTH, hdr. rewrite <- !app_assoc, app_assoc, wrn_app by zsize.
  by rewrite <- !app_assoc.
Qed.
End Header.

Section Entries.
Context (uninit : nat -> Z).

(** Growing leaves the old [ZIP_END] where it was. *)
Lemma zresize_grow b t l m n k :
  0 <= k -> n = zlen m + 11 + k ->
  exists g, zlen g = k /\ (0 < k -> exists g', g = ZIP_END :: g') /\
    ziplistResize uninit (hdr b t l ++ m ++ [ZIP_END]) n = Some (hdr n t l ++ m ++ g ++ [ZIP_END]).
Proof.
  intros Hk Hn. unfold ziplistResize.
  destruct (realloc_grow uninit n (hdr b t l ++ m ++ [ZIP_END])) as (r & -> & Hr); [zside|].
  rewrite <- !app_assoc, set_bytes_at. osimpl.
  assert (zlen r = k) as Hr' by (rewrite Hr; zside).
  destruct r as [|x r _] using rev_ind.
  - exists []. split; [done|]. split; [cbn in Hr'; lia|]. cbn [app].
    rewrite (app_assoc (hdr n t l)), wr_app by zside. by rewrite <- app_assoc.
  - exists (ZIP_END :: r). split; [zside|]. split; [eauto|].
    replace (hdr n t l ++ m ++ [ZIP_END] ++ r ++ [x]) with
      ((hdr n t l ++ m ++ ZIP_END :: r) ++ [x]) by lassoc.
    rewrite wr_app by zside. f_equal. lassoc.
Qed.

Lemma resize_shrink b t l m r n :
  r <> [] -> n = zlen m + 11 ->
  ziplistResize uninit (hdr b t l ++ m ++ r) n = Some (hdr n t l ++ m ++ [ZIP_END]).
Proof.
  intros Hr Hn. unfold ziplistResize. destruct r as [|x r]; [done|].
  rewrite realloc_shrink by zside.
  replace (hdr b t l ++ m ++ x :: r) with ((hdr b t l ++ m ++ [x]) ++ r) by lassoc.
  rewrite take_app_length' by (apply Nat2Z.inj; rewrite Z2Nat.id by lia; zside). rewrite set_bytes_at. osimpl.
  rewrite app_assoc, wr_app by zside. lassoc.
Qed.

(** ** Growing the length fields of a chain of entries *)
Fixpoint grow (sz : Z) (es : list ent) : list ent :=
  match es with
  | [] => []
  | e :: es' =>
      if (ZIP_BIGLEN <=? sz) && negb (big e) then
        let e' := Ent true (val e) in e' :: grow (esize e') es'
      else e :: es'
  end.

Lemma grow_total es : forall sz, total es <= total (grow sz es).
Proof.
  induction es as [|e es IH]; intros sz; [done|]. cbn [grow].
  destruct (ZIP_BIGLEN <=? sz), (big e) eqn:E; cbn [andb negb total]; try lia.
  specialize (IH (esize (Ent true (val e)))). unfold esize in *. cbn [big val] in *. rewrite E.
  cbn [psize] in *. lia.
Qed.

Lemma grow_vals es : forall sz, val <$> grow sz es = val <$> es.
Proof.
  induction es as [|e es IH]; intros sz; [done|]. cbn [grow].
  destruct (_ && _); [|done]. cbn. f_equal. apply IH.
Qed.

Lemma grow_length sz es : length (grow sz es) = length es.
Proof. rewrite <- (length_fmap val), grow_vals. apply length_fmap. Qed.

Lemma grow_wf es : forall stale sz,
  wf stale es -> 0 <= sz < 2 ^ 32 - 5 -> total (grow sz es) < 2 ^ 32 - 5 -> wf sz (grow sz es).
Proof.
  induction es as [|e es IH]; intros stale sz Hw Hsz Ht; [done|]. destruct Hw as (Hp & Hv & Hw).
  cbn [grow] in *. destruct (Z.leb_spec ZIP_BIGLEN sz), (big e) eqn:E; cbn [andb negb] in *; cbn [wf].
  - rewrite E. split; [unfold pfits; lia|done].
  - cbn [total] in Ht. pose proof (total_lower (grow (esize (Ent true (val e))) es)).
    pose proof (esize_pos (Ent true (val e))).
    cbn [big val] in *. split; [unfold pfits; lia|]. split; [done|]. eapply IH; [done|lia|lia].
  - rewrite E. split; [unfold pfits; lia|done].
  - rewrite E. split; [unfold pfits; lia|done].
Qed.

(** The block with the entry [e] behind [mid], whose own length field holds
    [n], and [es] behind it, the first of which has [stale] in its field. *)
Definition chain (l : Z) (mid : list Z) (n : Z) (e : ent) (stale : Z) (es : list ent) : list Z :=
  hdr (zlen mid + 11 + esize e + total es) (10 + zlen mid + lastoff (e :: es)) l ++
  mid ++ enc n [e] ++ enc stale es ++ [ZIP_END].

Lemma lastoff_bound e es : 0 <= lastoff (e :: es) < total (e :: es).
Proof.
  revert e. induction es as [|e' es IH]; intros e.
  - cbn. pose proof (esize_pos e). lia.
  - specialize (IH e'). pose proof (esize_pos e).
    change (lastoff (e :: e' :: es)) with (esize e + lastoff (e' :: es)).
    cbn [total] in *. lia.
Qed.

Lemma lastoff_grow e e' es :
  lastoff (e' :: es) = lastoff (e :: es) + if es is [] then 0 else esize e' - esize e.
Proof. destruct es; cbn; lia. Qed.

Lemma lastoff_0 e es : (lastoff (e :: es) =? 0) = if es is [] then true else false.
Proof.
  destruct es as [|e' es]; [done|].
  change (lastoff (e :: e' :: es)) with (esize e + lastoff (e' :: es)).
  pose proof (esize_pos e). pose proof (lastoff_bound e' es). apply Z.eqb_neq. lia.
Qed.

(** The tail moves with the entries behind [e2], which grows by [d] bytes. *)
Lemma tail_update b l m T np e2 e2' es d :
  T = np + lastoff (e2 :: es) -> esize e2' = esize e2 + d -> 0 <= np -> 0 <= T + d < 2 ^ 32 ->
  (if T =? np then Some (hdr b T l ++ m)
   else set_ZIPLIST_TAIL_OFFSET (hdr b T l ++ m) (uint32 (T + d))) =
  Some (hdr b (np + lastoff (e2' :: es)) l ++ m).
Proof.
  intros -> He Hnp Hlim. pose proof (lastoff_0 e2 es) as HL. rewrite (lastoff_grow e2 e2' es).
  destruct es as [|e3 es].
  - apply Z.eqb_eq in HL. rewrite HL, (proj2 (Z.eqb_eq _ _)) by lia. do 3 f_equal; lia.
  - apply Z.eqb_neq in HL. rewrite (proj2 (Z.eqb_neq _ _)) by lia.
    rewrite wrap_small by (unfold in_u; lia). rewrite set_tail_at. do 3 f_equal; lia.
Qed.

(** One round that reads the entry behind [mid] and the one behind it. *)
Lemma cascade_round l mid n e stale e2 es fuel curlen :
  let zl := chain l mid n e stale (e2 :: es) in
  let p := 10 + zlen mid in
  let rawlensize := psize (ZIP_BIGLEN <=? esize e) in
  pfits (big e) n -> val_ok (val e) -> wf stale (e2 :: es) -> esize e < 2 ^ 32 ->
  cascade_loop uninit (S fuel) zl p curlen =
    if stale =? esize e then Some zl
    else if psize (big e2) <? rawlensize then
      let extra := rawlensize - psize (big e2) in
      zl ← ziplistResize uninit zl (uint32 (curlen + extra));
      tail ← ZIPLIST_TAIL_OFFSET zl;
      zl ← (if tail =? p + esize e then Some zl
            else set_ZIPLIST_TAIL_OFFSET zl (uint32 (tail + extra)));
      zl ← memmove zl (p + esize e + rawlensize) (p + esize e + psize (big e2))
             (curlen - (p + esize e) - psize (big e2) - 1);
      '(zl, _) ← zipPrevEncodeLength zl (Some (p + esize e)) (esize e);
      cascade_loop uninit fuel zl (p + esize e) (curlen + extra)
    else if rawlensize <? psize (big e2) then
      zipPrevEncodeLengthForceLarge zl (p + esize e) (esize e)
    else fst <$> zipPrevEncodeLength zl (Some (p + esize e)) (esize e).
Proof.
  intros zl p rawlensize Hn Hv (Hp2 & Hv2 & Hw) Hs. pose proof (esize_pos e) as Hpos.
  set (H := hdr (zlen mid + 11 + esize e + total (e2 :: es))
              (10 + zlen mid + lastoff (e :: e2 :: es)) l).
  set (R := enc (esize e2) es ++ [ZIP_END]).
  assert (zl = (H ++ mid) ++ pfield (big e) n ++ body (val e) ++ enc stale (e2 :: es) ++ [ZIP_END])
    as Ez1 by (unfold zl, chain; cbn [enc]; lassoc).
  assert (zl = (H ++ mid ++ enc n [e]) ++ pfield (big e2) stale ++ body (val e2) ++ R)
    as Ez2 by (unfold zl, chain, R; cbn [enc]; lassoc).
  assert (p = zlen (H ++ mid)) as Hp by (unfold p, H; zside).
  assert (p + esize e = zlen (H ++ mid ++ enc n [e])) as Hnp by (unfold p, H; zside).
  clearbody zl p. cbn [cascade_loop].
  destruct (rd_first _ _ _ _ zl p Ez1 Hp Hn) as (x & -> & Hx & _). osimpl. rewrite Hx.
  rewrite (zipEntry_at _ _ _ _ _ zl p Ez1 Hp Hn Hv). osimpl. cbn [headersize len].
  assert (psize (big e) + vlensize (val e) + zlen (payload (val e)) = esize e) as ->
    by (unfold esize; rewrite body_size; lia).
  rewrite !(wrap_small 32 (esize e)) by (unfold in_u; lia). rewrite prevlen_null. osimpl.
  destruct (rd_first _ _ _ _ zl _ Ez2 Hnp Hp2) as (y & -> & Hy & _). osimpl. rewrite Hy.
  by rewrite (zipEntry_at _ _ _ _ _ zl _ Ez2 Hnp Hp2 Hv2).
Qed.

Lemma cascade_step l mid n e stale e2 es fuel :
  pfits (big e) n -> val_ok (val e) -> wf stale (e2 :: es) -> stale <> esize e ->
  ZIP_BIGLEN <= esize e -> big e2 = false ->
  zlen mid + 15 + total (e :: e2 :: es) < 2 ^ 32 ->
  cascade_loop uninit (S fuel) (chain l mid n e stale (e2 :: es)) (10 + zlen mid)
    (zlen mid + 11 + total (e :: e2 :: es)) =
  cascade_loop uninit fuel
    (chain l (mid ++ enc n [e]) (esize e) (Ent true (val e2)) (esize e2) es)
    (10 + zlen (mid ++ enc n [e])) (zlen (mid ++ enc n [e]) + 11 + total (Ent true (val e2) :: es)).
Proof.
  intros Hn Hv Hw Hst Hbig Hb2 Hlim. cbn [total] in Hlim.
  pose proof (lastoff_bound e2 es) as Hlo. cbn [total] in Hlo.
  pose proof (esize_pos e) as Hpe. pose proof (esize_pos e2) as Hpe2. pose proof (total_lower es) as Hpt.
  rewrite cascade_round by (done || lia). cbv zeta.
  rewrite (proj2 (Z.eqb_neq _ _)), (proj2 (Z.leb_le _ _)), Hb2 by done. cbn [psize]. ctests.
  set (e2' := Ent true (val e2)). set (E1 := enc n [e]).
  set (M := mid ++ E1 ++ [stale] ++ body (val e2) ++ enc (esize e2) es).
  set (B' := zlen mid + 11 + total (e :: e2 :: es) + 4).
  assert (zlen E1 = esize e) as HE1 by (unfold E1; zside).
  assert (esize e2 = 1 + zlen (body (val e2))) as Hs2 by (unfold esize; by rewrite Hb2).
  assert (esize e2' = esize e2 + 4) as Hs2' by (unfold esize, e2'; rewrite Hb2; cbn; lia).
  destruct (zresize_grow (zlen mid + 11 + esize e + total (e2 :: es))
    (10 + zlen mid + lastoff (e :: e2 :: es)) l M B' 4) as (g & Hg & _ & Er);
    [lia|unfold M, B'; autorewrite with size; cbn [total length]; lia|].
  assert (chain l mid n e stale (e2 :: es) =
    hdr (zlen mid + 11 + esize e + total (e2 :: es)) (10 + zlen mid + lastoff (e :: e2 :: es)) l
      ++ M ++ [ZIP_END]) as -> by (unfold chain, M, E1; cbn [enc]; rewrite Hb2; lassoc).
  rewrite wrap_small by (unfold in_u; cbn [total]; lia). change (5 - 1) with 4. fold B'. rewrite Er.
  change (lastoff (e :: e2 :: es)) with (esize e + lastoff (e2 :: es)).
  osimpl. rewrite tail_at by lia. osimpl.
  rewrite (tail_update B' l _ _ _ e2 e2' es 4) by (done || lia). osimpl.
  set (H := hdr B' (10 + zlen mid + esize e + lastoff (e2' :: es)) l).
  assert (zlen H = 10) as HH by done.
  destruct (memmove_up_in (H ++ mid ++ E1 ++ [stale]) (body (val e2) ++ enc (esize e2) es)
    g [ZIP_END] 4 (10 + zlen mid + esize e + 5) (10 + zlen mid + esize e + 1)
    (zlen mid + 11 + total (e :: e2 :: es) - (10 + zlen mid + esize e) - 1 - 1))
    as (x' & Hx' & Em);
    [done|autorewrite with size; cbn [length total]; lia..|].
  replace (H ++ M ++ g ++ [ZIP_END]) with ((H ++ mid ++ E1 ++ [stale]) ++
      (body (val e2) ++ enc (esize e2) es) ++ g ++ [ZIP_END]) by (unfold M; lassoc).
  rewrite Em. osimpl.
  rewrite (put_prev (H ++ mid ++ E1) (stale :: x') ((body (val e2) ++ enc (esize e2) es) ++ [ZIP_END]))
    by (first [lassoc; done|zside|rewrite (proj2 (Z.leb_le _ _)) by done; zside]). osimpl.
  rewrite (proj2 (Z.leb_le _ _)) by done.
  f_equal; [|subst E1; zside|subst E1 B'; autorewrite with size; cbn [total]; lia].
  unfold chain, H, B'. subst E1. cbn [enc]. autorewrite with size. cbn [total big val e2'] in *.
  lassoc. assert (esize e = psize (big e) + zlen (body (val e))) by done.
  do 2 f_equal; cbn [length]; lia.
Qed.

Lemma chain_shift l mid n e e2 es :
  chain l (mid ++ enc n [e]) (esize e) e2 (esize e2) es = chain l mid n e (esize e) (e2 :: es).
Proof.
  unfold chain. cbn [enc total]. lassoc. autorewrite with size.
  change (lastoff (e :: e2 :: es)) with (esize e + lastoff (e2 :: es)).
  assert (esize e = psize (big e) + zlen (body (val e))) by done. do 2 f_equal; cbn [length]; lia.
Qed.

Lemma chain_length l mid n e stale es :
  zlen (chain l mid n e stale es) = zlen mid + 11 + total (e :: es).
Proof. unfold chain. zside. Qed.

Lemma grow_id sz e es : pfits (big e) sz -> grow sz (e :: es) = e :: es.
Proof.
  unfold pfits. cbn [grow]. destruct (big e); [by rewrite andb_false_r|].
  intros. by rewrite (proj2 (Z.leb_gt _ _)) by lia.
Qed.

Lemma cascade_end l mid n e stale fuel curlen :
  pfits (big e) n -> val_ok (val e) -> esize e < 2 ^ 32 ->
  cascade_loop uninit (S fuel) (chain l mid n e stale []) (10 + zlen mid) curlen =
  Some (chain l mid n e (esize e) []).
Proof.
  intros Hn Hv Hs. pose proof (esize_pos e). set (zl := chain l mid n e stale []).
  change (chain l mid n e (esize e) []) with zl.
  assert (zl = (hdr (zlen mid + 11 + esize e + 0) (10 + zlen mid + 0) l ++ mid) ++
    pfield (big e) n ++ body (val e) ++ [ZIP_END]) as Ez by (unfold zl, chain; cbn [enc]; lassoc).
  cbn [cascade_loop].
  destruct (rd_first _ _ _ _ zl (10 + zlen mid) Ez) as (x & -> & Hx & _); [zside|done|].
  osimpl. rewrite Hx.
  rewrite (zipEntry_at _ _ _ _ _ zl (10 + zlen mid) Ez) by (done || zside). osimpl. cbn [headersize len].
  assert (psize (big e) + vlensize (val e) + zlen (payload (val e)) = esize e) as ->
    by (unfold esize; rewrite body_size; lia).
  rewrite !(wrap_small 32 (esize e)) by (unfold in_u; lia). rewrite prevlen_null. osimpl.
  rewrite Ez, !app_assoc, rd_app; [done|]. unfold esize. zside.
Qed.

Lemma cascade_write l mid n e stale e2 es fuel curlen :
  pfits (big e) n -> val_ok (val e) -> wf stale (e2 :: es) -> stale <> esize e ->
  pfits (big e2) (esize e) ->
  cascade_loop uninit (S fuel) (chain l mid n e stale (e2 :: es)) (10 + zlen mid) curlen =
  Some (chain l mid n e (esize e) (e2 :: es)).
Proof.
  intros Hn Hv Hw Hst Hp2.
  assert (esize e < 2 ^ 32) as Hs by (revert Hp2; unfold pfits, ZIP_BIGLEN; destruct (big e2); lia).
  rewrite cascade_round by done. cbv zeta. rewrite (proj2 (Z.eqb_neq _ _)) by done.
  set (H := hdr (zlen mid + 11 + esize e + total (e2 :: es))
              (10 + zlen mid + lastoff (e :: e2 :: es)) l).
  assert (chain l mid n e stale (e2 :: es) = (H ++ mid ++ enc n [e]) ++ pfield (big e2) stale ++
    body (val e2) ++ enc (esize e2) es ++ [ZIP_END]) as Ez by (unfold chain; cbn [enc]; lassoc).
  assert (10 + zlen mid + esize e = zlen (H ++ mid ++ enc n [e])) as Hp by (unfold H; zside).
  assert (Some (chain l mid n e (esize e) (e2 :: es)) = Some ((H ++ mid ++ enc n [e]) ++
    pfield (big e2) (esize e) ++ body (val e2) ++ enc (esize e2) es ++ [ZIP_END])) as ->
    by (unfold chain; cbn [enc]; lassoc).
  pose proof (put_large _ _ _ _ _ (esize e) Ez Hp) as EL.
  pose proof (put_prev _ _ _ _ _ (esize e) Ez Hp) as EP. rewrite pfield_size in EL, EP.
  unfold pfits in Hp2. destruct (big e2); cbn [psize] in *.
  - destruct (ZIP_BIGLEN <=? esize e); cbn [psize] in *; ctests; [by rewrite EP|by rewrite EL].
  - rewrite (proj2 (Z.leb_gt ZIP_BIGLEN _)) in * by lia. cbn [psize] in *. ctests. by rewrite EP.
Qed.

Lemma cascade_loop_spec es : forall fuel l mid n e stale,
  pfits (big e) n -> val_ok (val e) -> wf stale es -> (length es < fuel)%nat ->
  zlen mid + 11 + esize e + total (grow (esize e) es) < 2 ^ 32 ->
  cascade_loop uninit fuel (chain l mid n e stale es) (10 + zlen mid)
    (zlen mid + 11 + total (e :: es)) =
  Some (chain l mid n e (esize e) (grow (esize e) es)).
Proof.
  induction es as [|e2 es IH]; intros [|fuel] l mid n e stale Hn Hv Hw Hf Hlim;
    try (cbn [length] in Hf; lia); pose proof (esize_pos e).
  { apply cascade_end; [done..|]. cbn in Hlim. lia. }
  pose proof (grow_total (e2 :: es) (esize e)). pose proof (total_lower (e2 :: es)).
  destruct (Z.eqb_spec stale (esize e)) as [->|Hst].
  { rewrite cascade_round by (done || lia). cbv zeta. rewrite Z.eqb_refl. by rewrite grow_id by apply Hw. }
  destruct (decide (ZIP_BIGLEN <= esize e /\ big e2 = false)) as [[Hbig Hb2]|Hno].
  - cbn [grow] in *. rewrite (proj2 (Z.leb_le _ _)), Hb2 in * by done. cbn [andb negb] in *.
    set (e2' := Ent true (val e2)) in *. pose proof (grow_total es (esize e2')).
    assert (esize e2' = esize e2 + 4) by (unfold esize, e2'; rewrite Hb2; cbn; lia).
    cbn [total] in Hlim.
    rewrite (cascade_step l mid n e stale e2 es fuel) by (done || (cbn [total]; lia)).
    destruct Hw as (_ & Hv2 & Hw). fold e2'.
    rewrite (IH fuel l _ (esize e) e2' (esize e2)); [by rewrite chain_shift| |done|done|cbn [length] in Hf; lia|].
    + change (pfits true (esize e)). unfold pfits.
      pose proof (total_lower es). pose proof (esize_pos e2). lia.
    + zside.
  - assert (pfits (big e2) (esize e)) as Hp2 by (unfold pfits; destruct (big e2); [lia|naive_solver lia]).
    rewrite grow_id by done. by apply cascade_write.
Qed.

(** The chain of entries behind [p] is repaired. *)
Lemma cascade_spec l mid n e stale es :
  pfits (big e) n -> val_ok (val e) -> wf stale es ->
  zlen mid + 11 + esize e + total (grow (esize e) es) < 2 ^ 32 ->
  __ziplistCascadeUpdate uninit (chain l mid n e stale es) (10 + zlen mid) =
  Some (chain l mid n e (esize e) (grow (esize e) es)).
Proof.
  intros Hn Hv Hw Hlim. pose proof (grow_total es (esize e)). pose proof (total_lower es).
  pose proof (esize_pos e). unfold __ziplistCascadeUpdate.
  assert (ZIPLIST_BYTES (chain l mid n e stale es) = Some (zlen mid + 11 + total (e :: es))) as ->.
  { unfold chain. rewrite bytes_at by lia. f_equal. cbn [total]. lia. }
  osimpl. apply (cascade_loop_spec es); [done..| |done].
  pose proof (chain_length l mid n e stale es) as Hc. cbn [total] in Hc. lia.
Qed.

(** ** Whole ziplists *)
Definition layout (l : Z) (es : list ent) : list Z :=
  hdr (11 + total es) (10 + lastoff es) l ++ enc 0 es ++ [ZIP_END].

(** The count is exact until it has reached the largest 16-bit value. *)
Definition len_ok (l : Z) (es : list ent) : Prop :=
  l = UINT16_MAX \/ (l = zlen es /\ l < UINT16_MAX).

Definition repr (zl : list Z) (es : list ent) : Prop :=
  exists l, zl = layout l es /\ wf 0 es /\ 11 + total es < 2 ^ 32 /\ len_ok l es.

Definition texts (es : list ent) : list (list Z) := (fun e => text (val e)) <$> es.

(** The size of the last entry, [prev] when there is none. *)
Fixpoint lastsz (prev : Z) (es : list ent) : Z :=
  match es with [] => prev | e :: es => lastsz (esize e) es end.

Lemma enc_app es1 : forall prev es2,
  enc prev (es1 ++ es2) = enc prev es1 ++ enc (lastsz prev es1) es2.
Proof.
  induction es1 as [|e es1 IH]; intros prev es2; [done|]. cbn [app enc lastsz].
  rewrite IH. lassoc.
Qed.

Lemma wf_app es1 : forall prev es2,
  wf prev (es1 ++ es2) <-> wf prev es1 /\ wf (lastsz prev es1) es2.
Proof.
  induction es1 as [|e es1 IH]; intros prev es2; cbn [app wf lastsz]; [tauto|].
  rewrite IH. tauto.
Qed.

Lemma lastoff_app es1 e es2 : lastoff (es1 ++ e :: es2) = total es1 + lastoff (e :: es2).
Proof.
  induction es1 as [|e1 es1 IH]; [done|]. cbn [app total].
  replace (lastoff (e1 :: es1 ++ e :: es2)) with (esize e1 + lastoff (es1 ++ e :: es2))
    by (by destruct es1).
  lia.
Qed.

Lemma lastsz_snoc es : forall prev e, lastsz prev (es ++ [e]) = esize e.
Proof. induction es as [|e' es IH]; intros prev e; [done|]. apply IH. Qed.

Lemma lastsz_range es : forall prev,
  0 <= prev -> 0 <= lastsz prev es <= Z.max prev (total es).
Proof.
  induction es as [|e es IH]; intros prev Hp; cbn [lastsz total]; [lia|].
  pose proof (esize_pos e). specialize (IH (esize e) ltac:(lia)). pose proof (total_lower es). lia.
Qed.

Lemma grow_upper es : forall sz, total (grow sz es) <= total es + 4 * zlen es.
Proof.
  induction es as [|e es IH]; intros sz; [done|]. cbn [grow].
  destruct (ZIP_BIGLEN <=? sz), (big e) eqn:E; cbn [andb negb total length]; try lia.
  specialize (IH (esize (Ent true (val e)))). unfold esize in *. cbn [big val] in *. rewrite E.
  cbn [psize] in *. lia.
Qed.

Lemma incr_length b t l m d es es' :
  len_ok l es -> zlen es' = zlen es + d -> d <= 1 ->
  exists l', ZIPLIST_INCR_LENGTH (hdr b t l ++ m) d = Some (hdr b t l' ++ m) /\ len_ok l' es'.
Proof.
  unfold len_ok, ZIPLIST_INCR_LENGTH, UINT16_MAX. intros Hl Hd H1. rewrite length_at by lia. osimpl.
  destruct (Z.ltb_spec l 65535).
  - rewrite set_length_at. eexists. split; [done|].
    rewrite wrap_small by (unfold in_u; lia). lia.
  - eexists. split; [done|]. lia.
Qed.

(** ** Inserting *)
Lemma app_length_split {A} (X : list A) a b c :
  0 <= a -> 0 <= b -> zlen X = a + b + c -> 0 <= c ->
  exists X1 X2 X3, X = X1 ++ X2 ++ X3 /\ zlen X1 = a /\ zlen X2 = b /\ zlen X3 = c.
Proof.
  intros Ha Hb HX Hc. exists (take (Z.to_nat a) X), (take (Z.to_nat b) (drop (Z.to_nat a) X)),
    (drop (Z.to_nat b) (drop (Z.to_nat a) X)).
  rewrite !take_drop. rewrite !length_take, !length_drop. split; [done|]. lia.
Qed.

(** The bytes from the next entry on are moved; its length field may change size. *)
Lemma insert_move (A F R g c : list Z) req d p' :
  0 <= req -> zlen g = req + d -> p' = zlen F + d -> 0 <= p' <= zlen A + zlen F ->
  exists X Y, zlen X = req /\ zlen Y = p' /\
    memmove (A ++ F ++ R ++ g ++ c) (zlen A + req) (zlen A - d) (zlen F + zlen R + d) =
    Some (A ++ X ++ Y ++ R ++ c).
Proof.
  intros Hr Hg Hp' Hp. set (k := Z.to_nat (zlen A - d)).
  exists (take (Z.to_nat req) (F ++ R ++ g)), (drop k (A ++ F)).
  split; [rewrite length_take, !length_app; lia|].
  split; [rewrite length_drop, length_app; lia|]. unfold memmove.
  replace (A ++ F ++ R ++ g ++ c) with (take k (A ++ F) ++ (drop k (A ++ F) ++ R) ++ g ++ c) at 1
    by (rewrite <- !app_assoc, (app_assoc (take _ _)), take_drop; lassoc).
  rewrite rdn_app by (rewrite ?length_app, ?length_take, ?length_drop, ?length_app; lia). osimpl.
  replace (A ++ F ++ R ++ g ++ c) with
    ((A ++ take (Z.to_nat req) (F ++ R ++ g)) ++ drop (Z.to_nat req) (F ++ R ++ g) ++ c)
    by (rewrite <- app_assoc, (app_assoc (take _ _)), take_drop; lassoc).
  rewrite wrn_app by (rewrite ?length_app, ?length_take, ?length_drop, ?length_app; lia).
  lassoc.
Qed.

(** What [zipTryEncoding] decides determines the header and the payload written. *)
Lemma entry_parts s r en :
  Forall is_byte s -> zlen s < 2 ^ 32 ->
  zipTryEncoding s (zlen s) = Some r -> default (123456789, 0) r = en ->
  body (value_of s) = lenhdr en.2 (zlen s) ++ payload (value_of s) /\
  zlen (payload (value_of s)) = match r with Some _ => zipIntSize en.2 | None => zlen s end /\
  forall zl p, 0 <= p <= zlen zl ->
    (if ZIP_IS_STR en.2 then bs ← rdn s 0 (zlen s); wrn zl p bs
     else zipSaveInteger zl p en.1 en.2) = wrn zl p (payload (value_of s)).
Proof.
  intros Hb Hs Er <-. destruct (value_of_ok s Hb Hs) as [Hv _]. revert Hv.
  unfold value_of, lenhdr. rewrite Er. destruct r as [[v e]|]; cbn [from_option id fst snd].
  - intros Hv. destruct (int_enc e v Hv) as (_ & Hz & ->). split; [done|]. split.
    + cbn [payload]. rewrite le_length. lia.
    + intros. by apply save_spec.
  - intros _. split; [done|]. split; [done|]. intros zl p _. ctests.
    pose proof (rdn_app [] s [] 0 (zlen s) eq_refl eq_refl) as E. rewrite app_nil_r in E.
    cbn [app] in E. rewrite E. done.
Qed.

(** The three writes of the new entry over a gap of its size. *)
Lemma write_entry (A X C : list Z) zl p prev s r en (k : list Z -> option (list Z)) :
  let b := ZIP_BIGLEN <=? prev in
  zl = A ++ X ++ C -> p = zlen A -> zlen X = psize b + zlen (body (value_of s)) ->
  Forall is_byte s -> zlen s < 2 ^ 32 ->
  zipTryEncoding s (zlen s) = Some r -> default (123456789, 0) r = en ->
  ('(zl, n) ← zipPrevEncodeLength zl (Some p) prev;
   let p := p + n in
   '(zl, n) ← zipEncodeLength zl (Some p) en.2 (zlen s);
   let p := p + n in
   zl ← (if ZIP_IS_STR en.2 then bs ← rdn s 0 (zlen s); wrn zl p bs
         else zipSaveInteger zl p en.1 en.2);
   k zl) = k (A ++ pfield b prev ++ body (value_of s) ++ C).
Proof.
  intros b -> -> HX Hb Hs Er Een. destruct (entry_parts s r en Hb Hs Er Een) as (Hbody & _ & Hw).
  rewrite Hbody in *. set (L := lenhdr en.2 (zlen s)) in *. set (P := payload (value_of s)) in *.
  pose proof (psize_pos b). rewrite length_app in HX.
  destruct (app_length_split X (psize b) (zlen L) (zlen P)) as (X1 & X2 & X3 & -> & H1 & H2 & H3); [lia..|].
  rewrite (put_prev A X1 (X2 ++ X3 ++ C)) by (done || lassoc). osimpl. fold b. cbv zeta.
  rewrite zipEncodeLength_spec by lia. fold L.
  rewrite app_assoc, (wrn_app (A ++ pfield b prev) X2 (X3 ++ C) _ L) by zside. osimpl.
  rewrite Hw by zside.
  replace (((A ++ pfield b prev) ++ L ++ X3 ++ C)) with
    ((A ++ pfield b prev ++ L) ++ X3 ++ C) by lassoc.
  rewrite (wrn_app (A ++ pfield b prev ++ L) X3 C _ P) by zside. osimpl. f_equal. lassoc.
Qed.

(** The new entry and what becomes of the entries behind it. *)
Definition new_ent (prev : Z) (s : list Z) : ent := Ent (ZIP_BIGLEN <=? prev) (value_of s).

Definition relink (sz : Z) (es : list ent) : list ent :=
  match es with
  | [] => []
  | e :: es => let e' := Ent (ZIP_BIGLEN <=? sz) (val e) in e' :: grow (esize e') es
  end.

(** The block does not shrink below the new entry when it is resized. *)
Definition roomy (sz : Z) (es : list ent) : Prop :=
  match es with
  | e :: _ => 0 <= sz + psize (ZIP_BIGLEN <=? sz) - psize (big e)
  | [] => True
  end.

Lemma lastoff_range es : 0 <= lastoff es <= total es.
Proof. destruct es as [|e es]; [done|]. pose proof (lastoff_bound e es). lia. Qed.

Lemma layout_length l es : zlen (layout l es) = 11 + total es.
Proof. unfold layout. zside. Qed.

Lemma layout_bytes l es : 11 + total es < 2 ^ 32 -> ZIPLIST_BYTES (layout l es) = Some (11 + total es).
Proof. intros. apply bytes_at. pose proof (total_lower es). lia. Qed.

Lemma layout_tail l es :
  11 + total es < 2 ^ 32 -> ZIPLIST_ENTRY_TAIL (layout l es) = Some (10 + lastoff es).
Proof. intros. apply tail_at. pose proof (lastoff_range es). lia. Qed.

Lemma layout_end l es : rd (layout l es) (10 + total es) = Some ZIP_END.
Proof. unfold layout. rewrite app_assoc, rd_app by zside. done. Qed.

(** The last entry, seen from the end. *)
Lemma last_entry l es e :
  wf 0 (es ++ [e]) -> 11 + total (es ++ [e]) < 2 ^ 32 ->
  zipRawEntryLength (layout l (es ++ [e])) (10 + lastoff (es ++ [e])) = Some (esize e) /\
  exists x, rd (layout l (es ++ [e])) (10 + lastoff (es ++ [e])) = Some x /\ (x =? ZIP_END) = false.
Proof.
  intros (_ & Hp & Hv & _)%wf_app Ht. rewrite total_app in Ht. cbn [total] in Ht.
  pose proof (total_lower es). rewrite lastoff_app.
  change (lastoff [e]) with 0. rewrite Z.add_0_r. unfold layout. rewrite enc_app. cbn [enc].
  set (HD := hdr _ _ _).
  assert (HD ++ (enc 0 es ++ pfield (big e) (lastsz 0 es) ++ body (val e) ++ []) ++ [ZIP_END] =
    (HD ++ enc 0 es) ++ pfield (big e) (lastsz 0 es) ++ body (val e) ++ [ZIP_END]) as -> by lassoc.
  assert (10 + total es = zlen (HD ++ enc 0 es)) as Hpos by (unfold HD; zside).
  split; [rewrite (rawlen_at (HD ++ enc 0 es) _ _ _ [ZIP_END] _ _ eq_refl Hpos Hp Hv); [done|unfold esize in *; lia]|].
  edestruct rd_first as (x & ? & ? & _); eauto.
Qed.

Lemma insert_tail l es s :
  wf 0 es -> Forall is_byte s -> len_ok l es ->
  let e := new_ent (lastsz 0 es) s in
  zlen s < 2 ^ 32 -> 11 + total es + esize e < 2 ^ 32 ->
  exists l', __ziplistInsert uninit (layout l es) (10 + total es) s (zlen s) =
      Some (layout l' (es ++ [e])) /\ len_ok l' (es ++ [e]).
Proof.
  intros Hw Hb Hl e Hs Hlim. pose proof (total_lower es). pose proof (esize_pos e).
  unfold __ziplistInsert. rewrite layout_bytes by lia. osimpl.
  rewrite layout_end. osimpl. ctests. rewrite layout_tail by lia. osimpl.
  match goal with |- context [rd (layout l es) (10 + lastoff es) ≫= ?k] =>
    assert (rd (layout l es) (10 + lastoff es) ≫= k = Some (lastsz 0 es)) as ->;
    [|osimpl] end.
  { destruct es as [|e0 es0 _] using rev_ind; [done|].
    destruct (last_entry l es0 e0 Hw ltac:(lia)) as (E & x & -> & Hx). osimpl. rewrite Hx. cbn [negb].
    by rewrite E, lastsz_snoc. }
  destruct (zipTryEncoding_spec s) as (r & Er & _).
  destruct (entry_parts s r _ Hb Hs Er eq_refl) as (Hbody & Hpay & _).
  rewrite Er. osimpl. destruct (default (123456789, 0) r) as [value encoding] eqn:Een.
  cbn [fst snd] in *. rewrite prevlen_null, zipEncodeLength_spec by lia. osimpl. cbv zeta.
  rewrite <- Hpay.
  assert (zlen (payload (value_of s)) + psize (ZIP_BIGLEN <=? lastsz 0 es) +
    zlen (lenhdr encoding (zlen s)) = esize e) as ->
    by (unfold esize, e, new_ent; cbn [big val]; rewrite Hbody, length_app; lia).
  rewrite (Z.add_0_r (11 + total es + esize e)), (wrap_small 32 (11 + total es + esize e))
    by (unfold in_u; lia).
  destruct (zresize_grow (11 + total es) (10 + lastoff es) l (enc 0 es)
    (11 + total es + esize e) (esize e)) as (g & Hg & Hend & Ez); [lia|zside|].
  fold (layout l es) in Ez. rewrite Ez. osimpl. destruct Hend as (g' & ->); [lia|].
  rewrite app_assoc. cbn [app]. rewrite rd_app by zside. osimpl. ctests.
  rewrite <- app_assoc, set_tail_at. osimpl. ctests. osimpl.
  rewrite (write_entry (hdr (11 + total es + esize e) (uint32 (10 + total es)) l ++ enc 0 es)
    (ZIP_END :: g') [ZIP_END] _ _ _ s r (value, encoding)) by
    (first [done|zside|lassoc]).
  rewrite <- app_assoc, (wrap_small 32) by (unfold in_u; lia).
  destruct (incr_length (11 + total es + esize e) (10 + total es) l
    (enc 0 es ++ pfield (ZIP_BIGLEN <=? lastsz 0 es) (lastsz 0 es) ++ body (value_of s) ++ [ZIP_END])
    1 es (es ++ [e]) Hl) as (l' & -> & Hl'); [zside|lia|].
  exists l'. split; [|done]. unfold layout.
  rewrite total_app, lastoff_app, enc_app. cbn [enc total lastoff]. unfold e at 3 4. cbn [new_ent big val].
  lassoc. do 3 f_equal; lia.
Qed.

(** The entry behind [A] has grown by [d]: the tail moves unless it is that entry. *)
Lemma tail_fix B T l A b n v stale es d q :
  let zl T := hdr B T l ++ A ++ pfield b n ++ body v ++ enc stale es ++ [ZIP_END] in
  q = 10 + zlen A -> pfits b n -> val_ok v -> wf stale es ->
  0 <= T < 2 ^ 32 -> (es <> [] -> 0 <= T + d < 2 ^ 32) ->
  zipEntry (zl T) q = Some (Zlentry (psize b) n (vlensize v) (zlen (payload v))
    (psize b + vlensize v) (venc v) q) /\
  exists x, rd (zl T) (q + (psize b + zlen (body v))) = Some x /\
    (if negb (x =? ZIP_END) then
       t ← ZIPLIST_TAIL_OFFSET (zl T); set_ZIPLIST_TAIL_OFFSET (zl T) (uint32 (t + d))
     else Some (zl T)) = Some (zl (T + if es is [] then 0 else d)).
Proof.
  intros zl Hq Hn Hv Hw HT HTd. split.
  { apply (zipEntry_at (hdr B T l ++ A) b n v (enc stale es ++ [ZIP_END])); [unfold zl; lassoc|zside|done..]. }
  set (A' := hdr B T l ++ A ++ pfield b n ++ body v).
  assert (zl T = A' ++ enc stale es ++ [ZIP_END]) as Ez by (unfold zl, A'; lassoc).
  assert (q + (psize b + zlen (body v)) = zlen A') as Hp by (unfold A'; zside).
  destruct es as [|e3 es].
  - exists ZIP_END. rewrite Ez, Hp, Z.add_0_r. split; [by apply rd_app|]. ctests. by rewrite <- Ez.
  - destruct Hw as (Hp3 & _). specialize (HTd ltac:(done)).
    destruct (rd_first A' (big e3) stale (body (val e3) ++ enc (esize e3) es ++ [ZIP_END])
      (zl T) (q + (psize b + zlen (body v)))) as (y & Hy & He & _);
      [rewrite Ez; cbn [enc]; lassoc|done|done|].
    exists y. split; [exact Hy|]. rewrite He. cbn [negb]. unfold zl. rewrite tail_at by done. osimpl.
    rewrite set_tail_at, wrap_small by done. done.
Qed.

(** Making room in front of [e2]: the new entry, of [req] bytes, goes to [X]. *)
Lemma insert_shift l A e2 es prev g req :
  let e2' := Ent (ZIP_BIGLEN <=? req) (val e2) in
  let d := esize e2' - esize e2 in
  let p := 10 + zlen A in
  let T := p + lastoff (e2 :: es) in
  let B := 11 + zlen A + req + total (e2' :: es) in
  pfits (big e2) prev -> val_ok (val e2) -> wf (esize e2) es ->
  2 <= req -> zlen g = req + d -> B + 4 < 2 ^ 32 ->
  exists X, zlen X = req /\
    (zl ← memmove (hdr B T l ++ A ++ enc prev (e2 :: es) ++ g ++ [ZIP_END]) (p + req) (p - d)
            (total (e2 :: es) + d);
     '(zl, _) ← zipPrevEncodeLength zl (Some (p + req)) req;
     t ← ZIPLIST_TAIL_OFFSET zl;
     zl ← set_ZIPLIST_TAIL_OFFSET zl (uint32 (t + req));
     tail ← zipEntry zl (p + req);
     b ← rd zl (p + (req + headersize tail + len tail));
     if negb (b =? ZIP_END) then
       t ← ZIPLIST_TAIL_OFFSET zl;
       set_ZIPLIST_TAIL_OFFSET zl (uint32 (t + d))
     else Some zl) = Some (chain l (A ++ X) req e2' (esize e2) es).
Proof.
  intros e2' d p T B Hp2 Hv2 Hw Hreq Hg Hlim.
  assert (d = psize (ZIP_BIGLEN <=? req) - psize (big e2)) as Hd
    by (unfold d, esize, e2'; cbn [big val]; lia).
  pose proof (esize_pos e2). pose proof (esize_pos e2'). pose proof (total_lower es).
  pose proof (psize_pos (big e2)). pose proof (psize_pos (ZIP_BIGLEN <=? req)).
  pose proof (lastoff_bound e2 es) as Hlo. pose proof (lastoff_grow e2 e2' es) as Hlg.
  pose proof (lastoff_bound e2' es) as Hlo'. cbn [total] in Hlo, Hlo'.
  assert (B = 11 + zlen A + req + (esize e2' + total es)) as HB by done.
  set (R := body (val e2) ++ enc (esize e2) es).
  destruct (insert_move (hdr B T l ++ A) (pfield (big e2) prev) R g [ZIP_END] req d
    (psize (ZIP_BIGLEN <=? req))) as (X & Y & HX & HY & Em);
    [lia|done|rewrite pfield_size; lia|zside|].
  exists X. split; [done|].
  assert (hdr B T l ++ A ++ enc prev (e2 :: es) ++ g ++ [ZIP_END] =
    (hdr B T l ++ A) ++ pfield (big e2) prev ++ R ++ g ++ [ZIP_END]) as ->
    by (unfold R; cbn [enc]; lassoc).
  assert (zlen (pfield (big e2) prev) + zlen R = total (e2 :: es)) as Hn
    by (unfold R; cbn [total]; unfold esize; zside).
  assert (zlen (hdr B T l ++ A) = p) as HpA by zside.
  rewrite Hn, HpA in Em. rewrite Em. osimpl.
  rewrite (put_prev ((hdr B T l ++ A) ++ X) Y (R ++ [ZIP_END])) by
    (first [done|lassoc; done|rewrite length_app; lia]). osimpl.
  rewrite <- !app_assoc, tail_at by lia. osimpl. rewrite set_tail_at. osimpl.
  rewrite (wrap_small 32 (T + req)) by (unfold in_u, T; destruct es; lia).
  assert (pfits (ZIP_BIGLEN <=? req) req) as Hf
    by (unfold pfits; destruct (Z.leb_spec ZIP_BIGLEN req); lia).
  destruct (tail_fix B (T + req) l (A ++ X) (ZIP_BIGLEN <=? req) req (val e2) (esize e2) es d (p + req)) as (Een & x & Hx & Efix);
    [zside|done|done|done|unfold T; destruct es; lia|unfold T; destruct es; [done|lia]|].
  unfold R. rewrite <- !app_assoc in *. rewrite Een. osimpl. cbn [headersize len].
  replace (p + (req + (psize (ZIP_BIGLEN <=? req) + vlensize (val e2)) + zlen (payload (val e2))))
    with (p + req + (psize (ZIP_BIGLEN <=? req) + zlen (body (val e2)))) by (rewrite body_size; lia).
  rewrite Hx. osimpl. rewrite Efix. unfold chain. cbn [enc].
  change (big e2') with (ZIP_BIGLEN <=? req). change (val e2') with (val e2). lassoc.
  autorewrite with size. do 3 f_equal; unfold T; destruct es; lia.
Qed.

Lemma grow_stale es prev : wf prev es -> grow prev es = es.
Proof. destruct es as [|e es]; [done|]. intros (Hp & _). by apply grow_id. Qed.

(** The cascade is needed only when the size of [e] has changed. *)
Lemma cascade_if l mid n e stale es d :
  d = esize e - stale -> pfits (big e) n -> val_ok (val e) -> wf stale es ->
  zlen mid + 11 + esize e + total (grow (esize e) es) < 2 ^ 32 ->
  (if negb (d =? 0) then __ziplistCascadeUpdate uninit (chain l mid n e stale es) (10 + zlen mid)
   else Some (chain l mid n e stale es)) = Some (chain l mid n e (esize e) (grow (esize e) es)).
Proof.
  intros Hd Hn Hv Hw Hlim. destruct (Z.eqb_spec d 0) as [Hd0|Hd0]; cbn [negb].
  - replace (esize e) with stale by lia. by rewrite grow_stale.
  - by apply cascade_spec.
Qed.

Lemma chain_layout l es1 e es :
  chain l (enc 0 es1) (lastsz 0 es1) e (esize e) es = layout l (es1 ++ e :: es).
Proof.
  unfold chain, layout. rewrite enc_app, total_app, lastoff_app. cbn [enc total].
  autorewrite with size. lassoc. do 2 f_equal; lia.
Qed.

Lemma insert_mid l es1 e2 es3 s :
  let e := new_ent (lastsz 0 es1) s in
  let es2 := relink (esize e) (e2 :: es3) in
  wf 0 (es1 ++ e2 :: es3) -> Forall is_byte s -> zlen s < 2 ^ 32 -> len_ok l (es1 ++ e2 :: es3) ->
  roomy (esize e) (e2 :: es3) ->
  15 + total es1 + esize e + total es2 < 2 ^ 32 -> 11 + total (es1 ++ e2 :: es3) < 2 ^ 32 ->
  exists l', __ziplistInsert uninit (layout l (es1 ++ e2 :: es3)) (10 + total es1) s (zlen s) =
      Some (layout l' (es1 ++ e :: es2)) /\ len_ok l' (es1 ++ e :: es2).
Proof.
  intros e es2 Hwf Hb Hs Hl Hroom Hlim Hlim0.
  destruct (proj1 (wf_app _ _ _) Hwf) as (Hw1 & Hp2 & Hv2 & Hw3).
  pose proof (total_lower es1). pose proof (total_lower es3). pose proof (esize_pos e).
  pose proof (esize_pos e2). rewrite total_app in Hlim0. cbn [total] in Hlim0.
  set (e2' := Ent (ZIP_BIGLEN <=? esize e) (val e2)).
  pose proof (grow_total es3 (esize e2')) as Hgt. pose proof (esize_pos e2').
  assert (esize e2' - esize e2 = psize (ZIP_BIGLEN <=? esize e) - psize (big e2)) as Hd
    by (unfold e2'; set (sz := esize e); unfold esize; cbn [big val]; lia).
  change es2 with (e2' :: grow (esize e2') es3) in *. cbn [total] in Hlim.
  unfold __ziplistInsert. rewrite layout_bytes by (rewrite total_app; cbn [total]; lia). osimpl.
  set (zl := layout l (es1 ++ e2 :: es3)).
  set (HD := hdr (11 + total (es1 ++ e2 :: es3)) (10 + lastoff (es1 ++ e2 :: es3)) l).
  assert (zl = (HD ++ enc 0 es1) ++ pfield (big e2) (lastsz 0 es1) ++ body (val e2) ++
    enc (esize e2) es3 ++ [ZIP_END]) as Ez by (unfold zl, layout; rewrite enc_app; cbn [enc]; lassoc).
  assert (10 + total es1 = zlen (HD ++ enc 0 es1)) as Hp by (unfold HD; zside).
  destruct (rd_first _ _ _ _ zl _ Ez Hp Hp2) as (x & -> & Hx & _). osimpl. rewrite Hx. cbn [negb].
  rewrite (prevlen_at _ _ _ _ zl _ Ez Hp Hp2). osimpl. cbn [snd].
  destruct (zipTryEncoding_spec s) as (r & Er & _).
  destruct (entry_parts s r _ Hb Hs Er eq_refl) as (Hbody & Hpay & _).
  rewrite Er. osimpl. destruct (default (123456789, 0) r) as [value encoding] eqn:Een.
  cbn [fst snd] in *. rewrite prevlen_null, zipEncodeLength_spec by lia. osimpl. cbv zeta.
  rewrite <- Hpay.
  assert (zlen (payload (value_of s)) + psize (ZIP_BIGLEN <=? lastsz 0 es1) +
    zlen (lenhdr encoding (zlen s)) = esize e) as ->
    by (unfold esize, e, new_ent; cbn [big val]; rewrite Hbody, length_app; lia).
  rewrite (wrap_small 32 (esize e)) by (unfold in_u; lia).
  rewrite (prevdiff_at _ _ _ _ zl _ _ Ez Hp Hp2). osimpl.
  assert (psize (ZIP_BIGLEN <=? esize e) - psize (big e2) = esize e2' - esize e2) as ->
    by (symmetry; exact Hd).
  set (d := esize e2' - esize e2). set (req := esize e) in *.
  set (B := 11 + zlen (enc 0 es1) + req + total (e2' :: es3)).
  assert (0 <= req + d) as Hrd.
  { cbn [roomy] in Hroom. unfold d. lia. }
  destruct (zresize_grow (11 + total (es1 ++ e2 :: es3)) (10 + lastoff (es1 ++ e2 :: es3)) l
    (enc 0 (es1 ++ e2 :: es3)) B (req + d)) as (g & Hg & _ & Er');
    [done|unfold B, d; autorewrite with size; rewrite total_app; cbn [total]; lia|].
  fold (layout l (es1 ++ e2 :: es3)) in Er'. fold zl in Er'.
  rewrite total_app. replace (11 + (total es1 + total (e2 :: es3)) + req + d) with B
    by (unfold B, d; autorewrite with size; cbn [total]; lia).
  rewrite (wrap_small 32 B) by (unfold in_u, B; autorewrite with size; cbn [total]; lia).
  rewrite Er'. osimpl.
  assert (hdr B (10 + lastoff (es1 ++ e2 :: es3)) l ++ enc 0 (es1 ++ e2 :: es3) ++ g ++ [ZIP_END] =
    hdr B (10 + zlen (enc 0 es1) + lastoff (e2 :: es3)) l ++ enc 0 es1 ++
    enc (lastsz 0 es1) (e2 :: es3) ++ g ++ [ZIP_END]) as ->.
  { rewrite enc_app, lastoff_app, enc_size, Z.add_assoc. lassoc. }
  destruct (rd_first (hdr B (10 + zlen (enc 0 es1) + lastoff (e2 :: es3)) l ++ enc 0 es1) (big e2)
    (lastsz 0 es1) (body (val e2) ++ enc (esize e2) es3 ++ g ++ [ZIP_END])
    (hdr B (10 + zlen (enc 0 es1) + lastoff (e2 :: es3)) l ++ enc 0 es1 ++
     enc (lastsz 0 es1) (e2 :: es3) ++ g ++ [ZIP_END]) (10 + total es1)) as (y & -> & Hy & _);
    [cbn [enc]; lassoc|zside|done|]. osimpl. rewrite Hy. cbn [negb].
  destruct (insert_shift l (enc 0 es1) e2 es3 (lastsz 0 es1) g req) as (X & HX & Es);
    [done|done|done|done|done|fold e2' B; unfold B; autorewrite with size; cbn [total]; lia|].
  fold e2' in Es. fold d B in Es.
  replace (11 + (total es1 + total (e2 :: es3)) - (10 + total es1) - 1 + d)
    with (total (e2 :: es3) + d) by lia.
  rewrite <- (enc_size es1 0). rewrite Es. osimpl. rewrite enc_size.
  replace (10 + total es1 + req) with (10 + zlen (enc 0 es1 ++ X)) by zside.
  rewrite (cascade_if l (enc 0 es1 ++ X) req e2' (esize e2) es3 d);
    [|done|unfold e2', pfits; cbn [big]; destruct (Z.leb_spec ZIP_BIGLEN req); lia|done|done|zside].
  osimpl. unfold chain.
  rewrite (write_entry (hdr (zlen (enc 0 es1 ++ X) + 11 + esize e2' + total (grow (esize e2') es3))
    (10 + zlen (enc 0 es1 ++ X) + lastoff (e2' :: grow (esize e2') es3)) l ++ enc 0 es1) X
    (enc req [e2'] ++ enc (esize e2') (grow (esize e2') es3) ++ [ZIP_END]) _ _ _ s r (value, encoding)) by
    (first [done|zside|lassoc]).
  rewrite <- app_assoc.
  match goal with |- context [ZIPLIST_INCR_LENGTH (hdr ?b ?t l ++ ?m) 1] =>
    destruct (incr_length b t l m 1 (es1 ++ e2 :: es3) (es1 ++ e :: e2' :: grow (esize e2') es3) Hl)
      as (l' & -> & Hl'); [|lia|] end.
  { rewrite !length_app. cbn [length]. rewrite grow_length. lia. }
  exists l'. split; [|done]. unfold layout.
  rewrite total_app, lastoff_app, enc_app. cbn [enc total]. lassoc. do 3 f_equal.
  - fold req. zside.
  - change (lastoff (e :: e2' :: grow (esize e2') es3))
      with (req + lastoff (e2' :: grow (esize e2') es3)). zside.
Qed.

Lemma relink_vals sz es : val <$> relink sz es = val <$> es.
Proof. destruct es as [|e es]; [done|]. cbn. f_equal. apply grow_vals. Qed.

Lemma texts_vals es es' : val <$> es = val <$> es' -> texts es = texts es'.
Proof.
  intros E. unfold texts.
  change ((text ∘ val) <$> es = (text ∘ val) <$> es'). by rewrite !list_fmap_compose, E.
Qed.

Lemma relink_wf sz es prev :
  wf prev es -> 0 <= sz < 2 ^ 32 - 5 -> total (relink sz es) < 2 ^ 32 - 5 -> wf sz (relink sz es).
Proof.
  destruct es as [|e es]; [done|]. intros (_ & Hv & Hw) Hsz Ht. cbn [relink wf big val].
  set (e' := Ent _ _) in *. cbn [relink total] in Ht. fold e' in Ht.
  pose proof (esize_pos e'). pose proof (total_lower (grow (esize e') es)).
  split; [unfold pfits; destruct (Z.leb_spec ZIP_BIGLEN sz); lia|]. split; [done|].
  eapply grow_wf; [exact Hw|lia|lia].
Qed.

Lemma relink_upper sz es : total (relink sz es) <= total es + 4 * zlen es.
Proof.
  destruct es as [|e es]; [done|]. cbn [relink total length].
  set (e' := Ent _ _). pose proof (grow_upper es (esize e')).
  assert (esize e' <= esize e + 4); [|lia]. unfold esize, e'. cbn [big val].
  destruct (ZIP_BIGLEN <=? sz), (big e); cbn [psize]; lia.
Qed.

(** An entry is at most 14 bytes longer than its text. *)
Lemma new_ent_size prev s : Forall is_byte s -> zlen s < 2 ^ 32 -> esize (new_ent prev s) <= zlen s + 14.
Proof.
  intros Hb Hs. unfold esize, new_ent. cbn [big val].
  pose proof (psize_pos (ZIP_BIGLEN <=? prev)). destruct (value_of_ok s Hb Hs) as [Hv Ht].
  destruct (value_of s) as [s'|en v]; cbn [text body] in *; autorewrite with size.
  - subst s'. pose proof (lenbytes_size (zlen s)). lia.
  - destruct (int_enc en v Hv) as (_ & ? & _). cbn [length]. autorewrite with size. lia.
Qed.

(** [__ziplistInsert] at the position between [es1] and [es2]. *)
Lemma zinsert_spec zl es1 es2 s :
  let e := new_ent (lastsz 0 es1) s in
  repr zl (es1 ++ es2) -> Forall is_byte s -> zlen zl + zlen s + 4 * zlen es2 + 18 < 2 ^ 32 ->
  roomy (esize e) es2 ->
  exists zl', __ziplistInsert uninit zl (10 + total es1) s (zlen s) = Some zl' /\
    repr zl' (es1 ++ e :: relink (esize e) es2).
Proof.
  intros e (l & -> & Hw & Ht & Hl) Hb Hlim Hroom. rewrite layout_length in Hlim.
  destruct (proj1 (wf_app _ _ _) Hw) as [Hw1 Hw2].
  pose proof (total_lower es1). pose proof (total_lower es2). rewrite total_app in *.
  pose proof (new_ent_size (lastsz 0 es1) s Hb ltac:(lia)) as He. fold e in He.
  pose proof (relink_upper (esize e) es2). pose proof (esize_pos e).
  assert (wf 0 (es1 ++ e :: relink (esize e) es2)) as Hwf.
  { apply wf_app. split; [done|]. cbn [wf]. split; [|split].
    - pose proof (lastsz_range es1 0). unfold pfits, e, new_ent. cbn [big].
      destruct (Z.leb_spec ZIP_BIGLEN (lastsz 0 es1)); lia.
    - apply value_of_ok; [done|lia].
    - eapply relink_wf; [done|lia|lia]. }
  assert (11 + total (es1 ++ e :: relink (esize e) es2) < 2 ^ 32)
    by (rewrite total_app; cbn [total]; lia).
  destruct es2 as [|e2 es3].
  - rewrite app_nil_r in *. cbn [total] in *.
    destruct (insert_tail l es1 s) as (l' & E & Hl'); [done|done|done|lia|fold e; lia|].
    eexists. split; [exact E|]. exists l'. done.
  - destruct (insert_mid l es1 e2 es3 s) as (l' & E & Hl'); [done|done|lia|done|done|fold e; lia| |].
    { rewrite total_app. lia. }
    eexists. split; [exact E|]. exists l'. done.
Qed.

(** ** Deleting *)
Lemma raw_entry A prev e es zl p :
  zl = A ++ enc prev (e :: es) ++ [ZIP_END] -> p = zlen A -> wf prev (e :: es) ->
  esize e < 2 ^ 32 -> zipRawEntryLength zl p = Some (esize e).
Proof.
  intros -> -> (Hp & Hv & _) Hs.
  by rewrite (rawlen_at A (big e) prev (val e) (enc (esize e) es ++ [ZIP_END]))
    by (first [done|cbn [enc]; lassoc]).
Qed.

Lemma entry_byte A prev es zl p :
  zl = A ++ enc prev es ++ [ZIP_END] -> p = zlen A -> wf prev es ->
  exists x, rd zl p = Some x /\ (x =? ZIP_END) = bool_decide (es = []).
Proof.
  intros -> -> Hw. destruct es as [|e es].
  - exists ZIP_END. split; [by apply rd_app|done].
  - destruct Hw as (Hp & _).
    destruct (rd_first A (big e) prev (body (val e) ++ enc (esize e) es ++ [ZIP_END])
      (A ++ enc prev (e :: es) ++ [ZIP_END]) (zlen A)) as (x & Hx & He & _);
      [cbn [enc]; lassoc|done|done|]. exists x. split; [exact Hx|]. rewrite He. done.
Qed.

Lemma delete_loop_spec es : forall fuel A prev i num del,
  wf prev es -> (length es < fuel)%nat -> total es < 2 ^ 32 ->
  let ds := take (Z.to_nat (num - i)) es in
  delete_loop fuel (A ++ enc prev es ++ [ZIP_END]) (zlen A) i num del =
    Some (zlen A + total ds, del + zlen ds).
Proof.
  induction es as [|e es IH]; intros [|fuel] A prev i num del Hw Hf Ht ds; try (cbn [length] in Hf; lia).
  - destruct (entry_byte A prev [] _ _ eq_refl eq_refl Hw) as (x & Hx & Hb). cbn [delete_loop].
    rewrite Hx. osimpl. rewrite Hb. cbn. unfold ds. rewrite take_nil. cbn. do 2 f_equal; lia.
  - destruct (entry_byte A prev (e :: es) _ _ eq_refl eq_refl Hw) as (x & Hx & Hb).
    pose proof (total_lower es). pose proof (esize_pos e). cbn [total] in Ht.
    cbn [delete_loop]. rewrite Hx. osimpl. rewrite Hb. rewrite bool_decide_eq_false_2 by done.
    cbn [negb andb]. destruct (Z.ltb_spec i num) as [Hi|Hi].
    + rewrite (raw_entry A prev e es) by (done || lia). osimpl.
      replace (A ++ enc prev (e :: es) ++ [ZIP_END]) with
        ((A ++ enc prev [e]) ++ enc (esize e) es ++ [ZIP_END]) by (cbn [enc]; lassoc).
      replace (zlen A + esize e) with (zlen (A ++ enc prev [e])) by zside.
      destruct Hw as (_ & _ & Hw). rewrite IH by (done || (cbn [length] in Hf; lia)).
      unfold ds. replace (Z.to_nat (num - i)) with (S (Z.to_nat (num - (i + 1)))) by lia.
      cbn [take total length]. do 2 f_equal; zside.
    + unfold ds. replace (Z.to_nat (num - i)) with 0%nat by lia. cbn. do 2 f_equal; lia.
Qed.

Lemma lastoff_lastsz es : es <> [] -> lastoff es = total es - lastsz 0 es.
Proof.
  destruct es as [|e es _] using rev_ind; [done|]. intros _.
  rewrite lastoff_app, lastsz_snoc, total_app. cbn. lia.
Qed.

Lemma decr_length b t l m k es es' :
  len_ok l es -> zlen es' = zlen es - k -> 0 <= k < 2 ^ 32 ->
  exists l', ZIPLIST_INCR_LENGTH (hdr b t l ++ m) (uint32 (- k)) = Some (hdr b t l' ++ m) /\
    len_ok l' es'.
Proof.
  unfold len_ok, ZIPLIST_INCR_LENGTH, UINT16_MAX. intros Hl Hd Hk. rewrite length_at by lia. osimpl.
  destruct (Z.ltb_spec l 65535).
  - rewrite set_length_at. eexists. split; [done|].
    assert (uint16 (l + uint32 (- k)) = l - k) as ->; [|lia].
    unfold wrap. change (2 ^ 32) with (65536 * 65536). change (2 ^ 16) with 65536.
    rewrite <- Zplus_mod_idemp_r, Z.mod_mod_divide by (by exists 65536).
    rewrite Zplus_mod_idemp_r. apply Z.mod_small. lia.
  - eexists. split; [done|]. lia.
Qed.

(** What the deletion reads first: the entry it starts with and how far it goes. *)
Lemma delete_front l es1 es2 num :
  wf 0 (es1 ++ es2) -> 11 + total (es1 ++ es2) < 2 ^ 32 -> es2 <> [] ->
  let zl := layout l (es1 ++ es2) in
  let p := 10 + total es1 in
  let ds := take (Z.to_nat num) es2 in
  (exists first, zipEntry zl p = Some first /\ e_p first = p /\ prevrawlen first = lastsz 0 es1) /\
  delete_loop (S (length zl)) zl p 0 num 0 = Some (p + total ds, zlen ds).
Proof.
  intros Hw Ht Hne zl p ds. destruct (proj1 (wf_app _ _ _) Hw) as [Hw1 Hw2].
  pose proof (total_lower es1). pose proof (total_lower es2). rewrite total_app in Ht.
  set (A := hdr (11 + total (es1 ++ es2)) (10 + lastoff (es1 ++ es2)) l ++ enc 0 es1).
  assert (zl = A ++ enc (lastsz 0 es1) es2 ++ [ZIP_END]) as Ez
    by (unfold zl, layout, A; rewrite enc_app; lassoc).
  assert (p = zlen A) as Hp by (unfold p, A; zside). split.
  - destruct es2 as [|e es]; [done|]. destruct Hw2 as (Hp2 & Hv2 & _). eexists.
    split; [apply (zipEntry_at A (big e) (lastsz 0 es1) (val e) (enc (esize e) es ++ [ZIP_END]));
      [rewrite Ez; cbn [enc]; lassoc|done..]|done].
  - rewrite Ez, Hp, (delete_loop_spec es2); [by rewrite Z.sub_0_r|done| |lia].
    apply Nat2Z.inj_lt. zside.
Qed.

(** Nothing is left behind the deleted entries. *)
Lemma delete_tail l es1 ds num :
  wf 0 (es1 ++ ds) -> len_ok l (es1 ++ ds) -> 11 + total (es1 ++ ds) < 2 ^ 32 ->
  ds <> [] -> zlen ds <= num ->
  exists l', __ziplistDelete uninit (layout l (es1 ++ ds)) (10 + total es1) num = Some (layout l' es1) /\
    len_ok l' es1.
Proof.
  intros Hw Hl Ht Hne Hnum.
  destruct (delete_front l es1 ds num Hw Ht Hne) as ((first & E1 & Ep & Epr) & E2).
  rewrite (take_ge ds) in E2 by lia. unfold __ziplistDelete. rewrite E1. osimpl. rewrite E2. osimpl.
  rewrite Ep, Epr. pose proof (lastsz_range es1 0 ltac:(lia)). pose proof (lastoff_range es1).
  pose proof (total_lower es1). pose proof (total_lower ds) as Hd. rewrite total_app in Ht.
  assert (0 < zlen ds) by (destruct ds; [done|cbn; lia]).
  replace (10 + total es1 + total ds - (10 + total es1)) with (total ds) by lia.
  rewrite (wrap_small 32 (total ds)) by (unfold in_u; lia).
  rewrite (proj2 (Z.ltb_lt _ _)) by lia.
  replace (10 + total es1 + total ds) with (10 + total (es1 ++ ds)) by (rewrite total_app; lia).
  rewrite layout_end. osimpl. ctests. unfold layout at 1. rewrite set_tail_at. osimpl.
  assert (uint32 (10 + total es1 - lastsz 0 es1) = 10 + lastoff es1) as ->.
  { destruct es1 as [|e1 es1]; [done|]. rewrite wrap_small by (unfold in_u; lia).
    rewrite lastoff_lastsz by done. lia. }
  rewrite bytes_at by (rewrite total_app; lia). osimpl. cbv zeta.
  rewrite enc_app, <- app_assoc.
  rewrite (wrap_small 32 (11 + total (es1 ++ ds) - total ds + 0))
    by (unfold in_u; rewrite total_app; lia).
  rewrite resize_shrink by (first [by intros []%app_nil|rewrite total_app; zside]). osimpl.
  destruct (decr_length (11 + total (es1 ++ ds) - total ds + 0) (10 + lastoff es1) l
    (enc 0 es1 ++ [ZIP_END]) (zlen ds) (es1 ++ ds) es1 Hl) as (l' & -> & Hl');
    [rewrite length_app; lia|lia|]. osimpl. ctests.
  exists l'. split; [|done]. unfold layout. rewrite total_app. do 3 f_equal. lia.
Qed.

(** The entries from [e3] on move to the front, over the deleted bytes [D];
    [e3] now follows an entry of [prev] bytes. *)
Lemma delete_shift l A D e3 es prev stale :
  let e3' := Ent (ZIP_BIGLEN <=? prev) (val e3) in
  let d := esize e3' - esize e3 in
  let p0 := 10 + zlen A in
  let p := p0 + zlen D in
  let B := 11 + zlen A + zlen D + total (e3 :: es) in
  let zl := hdr B (p + lastoff (e3 :: es)) l ++ A ++ D ++ enc stale (e3 :: es) ++ [ZIP_END] in
  wf stale (e3 :: es) -> 0 <= prev < 2 ^ 32 -> d <= zlen D -> B < 2 ^ 32 ->
  exists t, zlen t = zlen D - d /\
   (nextdiff ← zipPrevLenByteDiff zl p prev;
    let p := p - nextdiff in
    '(zl, _) ← zipPrevEncodeLength zl (Some p) prev;
    t ← ZIPLIST_TAIL_OFFSET zl;
    zl ← set_ZIPLIST_TAIL_OFFSET zl (uint32 (t - zlen D));
    tail ← zipEntry zl p;
    b ← rd zl (p + uint32 (headersize tail + len tail));
    zl ← (if negb (b =? ZIP_END) then
            t ← ZIPLIST_TAIL_OFFSET zl;
            set_ZIPLIST_TAIL_OFFSET zl (uint32 (t + nextdiff))
          else Some zl);
    bytes ← ZIPLIST_BYTES zl;
    zl ← memmove zl p0 p (bytes - p - 1);
    Some (zl, nextdiff)) =
   Some (hdr B (p0 + lastoff (e3' :: es)) l ++ A ++ enc prev [e3'] ++ enc (esize e3) es ++ t ++
         [ZIP_END], d).
Proof.
  intros e3' d p0 p B zl (Hp3 & Hv3 & Hw) Hprev HdD Hlim.
  set (b' := ZIP_BIGLEN <=? prev) in *.
  assert (d = psize b' - psize (big e3)) as Hd by (unfold d, esize, e3'; cbn [big val]; lia).
  pose proof (esize_pos e3). pose proof (esize_pos e3'). pose proof (total_lower es).
  pose proof (lastoff_bound e3 es) as Hlo. pose proof (lastoff_grow e3 e3' es) as Hlg.
  pose proof (lastoff_bound e3' es) as Hlo'. cbn [total] in Hlo, Hlo', Hlim.
  assert (B = 11 + zlen A + zlen D + (esize e3 + total es)) as HB by done.
  assert (p = 10 + zlen A + zlen D) as Hpv by done.
  set (R := body (val e3) ++ enc (esize e3) es). set (F := pfield (big e3) stale).
  set (HD := hdr B (p + lastoff (e3 :: es)) l) in *.
  assert (zl = (HD ++ A ++ D) ++ F ++ R ++ [ZIP_END]) as Ez by (unfold zl, R, F; cbn [enc]; lassoc).
  assert (p = zlen (HD ++ A ++ D)) as Hp by (unfold p, p0, HD; zside).
  rewrite (prevdiff_at _ _ _ _ zl _ _ Ez Hp Hp3). osimpl. cbv zeta. fold b'. rewrite <- Hd.
  (* the field of e3 and the bytes before it that its new length covers *)
  pose proof (psize_pos b').
  set (U := take (Z.to_nat (zlen D - d)) (D ++ F)). set (Y := drop (Z.to_nat (zlen D - d)) (D ++ F)).
  assert (zlen F = psize (big e3)) as HF by apply pfield_size.
  assert (zlen U = zlen D - d) as HU by (unfold U; rewrite length_take, length_app; lia).
  assert (zlen Y = psize b') as HY by (unfold Y; rewrite length_drop, length_app; lia).
  assert (zl = (HD ++ A ++ U) ++ Y ++ R ++ [ZIP_END]) as Ez'.
  { rewrite Ez. unfold U, Y. rewrite <- !app_assoc, (app_assoc (take _ _)), take_drop. lassoc. }
  rewrite (put_prev _ _ _ zl (p - d) prev Ez') by (first [done|unfold p, p0, HD; zside]). osimpl.
  fold b'. set (F' := pfield b' prev). unfold HD. rewrite <- !app_assoc, tail_at by lia. osimpl.
  rewrite set_tail_at. osimpl. rewrite (wrap_small 32 (p + lastoff (e3 :: es) - zlen D)) by (unfold in_u; lia).
  assert (pfits b' prev) as Hf by (unfold pfits, b'; destruct (Z.leb_spec ZIP_BIGLEN prev); lia).
  destruct (tail_fix B (p + lastoff (e3 :: es) - zlen D) l (A ++ U) b' prev (val e3) (esize e3) es d
    (p - d)) as (Een & x & Hx & Efix);
    [unfold p, p0; zside|done|done|done|lia|intros; unfold p in *; destruct es; [done|lia]|].
  unfold R. rewrite <- !app_assoc in *. fold F' in Een, Hx, Efix. rewrite Een. osimpl.
  cbn [headersize len].
  replace (psize b' + vlensize (val e3) + zlen (payload (val e3))) with (psize b' + zlen (body (val e3)))
    by (rewrite body_size; lia).
  assert (psize b' + zlen (body (val e3)) = esize e3') as Hs3 by done.
  rewrite (wrap_small 32) by (unfold in_u; lia). rewrite Hx. osimpl. rewrite Efix. osimpl.
  rewrite bytes_at by lia. osimpl.
  set (T' := p + lastoff (e3 :: es) - zlen D + (if es is [] then 0 else d)).
  destruct (memmove_down_in (hdr B T' l ++ A) U (F' ++ body (val e3) ++ enc (esize e3) es) [ZIP_END]
    p0 (p - d) (B - (p - d) - 1)) as (t & Ht & Em);
    [unfold p0; zside|zside|subst F'; autorewrite with size; lia|].
  rewrite <- !app_assoc in Em. rewrite Em. osimpl. exists t. split; [lia|].
  cbn [enc]. change (big e3') with b'. change (val e3') with (val e3). fold F'. lassoc.
  do 4 f_equal. unfold T', p0. destruct es; lia.
Qed.

Lemma delete_mid l es1 ds e3 es :
  let prev := lastsz 0 es1 in
  let es' := relink prev (e3 :: es) in
  wf 0 (es1 ++ ds ++ e3 :: es) -> len_ok l (es1 ++ ds ++ e3 :: es) ->
  11 + total (es1 ++ ds ++ e3 :: es) < 2 ^ 32 -> ds <> [] -> 11 + total (es1 ++ es') < 2 ^ 32 ->
  exists l', __ziplistDelete uninit (layout l (es1 ++ ds ++ e3 :: es)) (10 + total es1) (zlen ds) =
      Some (layout l' (es1 ++ es')) /\ len_ok l' (es1 ++ es').
Proof.
  intros prev es' Hw Hl Ht Hne Hlim.
  destruct (delete_front l es1 (ds ++ e3 :: es) (zlen ds) Hw Ht) as ((first & E1 & Ep & Epr) & E2).
  { by destruct ds. }
  rewrite Nat2Z.id, take_app_length in E2.
  destruct (proj1 (wf_app _ _ _) Hw) as [Hw1 Hw2]. destruct (proj1 (wf_app _ _ _) Hw2) as [Hwd Hw3].
  unfold __ziplistDelete. rewrite E1. osimpl. rewrite E2. osimpl. rewrite Ep, Epr. fold prev.
  pose proof (lastsz_range es1 0 ltac:(lia)) as Hprev. fold prev in Hprev.
  pose proof (total_lower es1). pose proof (total_lower ds). pose proof (total_lower es).
  pose proof (esize_pos e3). rewrite !total_app in Ht. cbn [total] in Ht.
  set (e3' := Ent (ZIP_BIGLEN <=? prev) (val e3)). pose proof (esize_pos e3').
  change es' with (e3' :: grow (esize e3') es) in *. rewrite total_app in Hlim. cbn [total] in Hlim.
  pose proof (grow_total es (esize e3')).
  assert (0 < zlen ds) by (destruct ds; [done|cbn; lia]).
  replace (10 + total es1 + total ds - (10 + total es1)) with (total ds) by lia.
  rewrite (wrap_small 32 (total ds)) by (unfold in_u; lia). rewrite (proj2 (Z.ltb_lt _ _)) by lia.
  set (B := 11 + zlen (enc 0 es1) + zlen (enc prev ds) + total (e3 :: es)).
  set (T := 10 + zlen (enc 0 es1) + zlen (enc prev ds) + lastoff (e3 :: es)).
  assert (layout l (es1 ++ ds ++ e3 :: es) = hdr B T l ++ enc 0 es1 ++ enc prev ds ++
    enc (lastsz prev ds) (e3 :: es) ++ [ZIP_END]) as ->.
  { unfold layout, B, T. rewrite !enc_app, !total_app. fold prev.
    replace (lastoff (es1 ++ ds ++ e3 :: es)) with (total es1 + total ds + lastoff (e3 :: es))
      by (rewrite app_assoc, lastoff_app, total_app; lia).
    autorewrite with size. lassoc. do 2 f_equal; lia. }
  set (d := esize e3' - esize e3).
  assert (d = psize (ZIP_BIGLEN <=? prev) - psize (big e3)) as Hd
    by (unfold d, esize, e3'; cbn [big val]; lia).
  assert (d <= zlen (enc prev ds)) as HdD.
  { rewrite enc_size. destruct ds as [|d0 ds]; [done|]. destruct Hwd as (Hp0 & _).
    cbn [total]. pose proof (total_lower ds). pose proof (body_pos (val d0)).
    unfold esize at 1. unfold pfits in Hp0. rewrite Hd. pose proof (psize_pos (big e3)).
    destruct (Z.leb_spec ZIP_BIGLEN prev), (big d0); cbn [psize]; lia. }
  destruct (delete_shift l (enc 0 es1) (enc prev ds) e3 es prev (lastsz prev ds)) as (t & Ht' & Es);
    [done|lia|done|fold B; unfold B; autorewrite with size; cbn [total]; lia|].
  fold e3' B d in Es. change (10 + zlen (enc 0 es1) + zlen (enc prev ds) + lastoff (e3 :: es)) with T in Es.
  destruct (entry_byte (hdr B T l ++ enc 0 es1 ++ enc prev ds) (lastsz prev ds) (e3 :: es)
    (hdr B T l ++ enc 0 es1 ++ enc prev ds ++ enc (lastsz prev ds) (e3 :: es) ++ [ZIP_END])
    (10 + total es1 + total ds)) as (x & -> & Hx); [lassoc|zside|done|]. osimpl.
  rewrite Hx, bool_decide_eq_false_2 by done. cbn [negb].
  rewrite <- (enc_size es1 0), <- (enc_size ds prev). cbv zeta in Es. rewrite Es. osimpl. cbv zeta.
  rewrite bytes_at by (unfold B; autorewrite with size; cbn [total]; lia). osimpl.
  set (N := 11 + zlen (enc 0 es1) + total (e3' :: es)).
  assert (uint32 (B - zlen (enc prev ds) + d) = N) as ->.
  { assert (B - zlen (enc prev ds) + d = N) as -> by (unfold B, N, d; cbn [total]; lia).
    apply wrap_small. unfold in_u, N. autorewrite with size. cbn [total]. lia. }
  assert (forall T', hdr B T' l ++ enc 0 es1 ++ enc prev [e3'] ++ enc (esize e3) es ++ t ++ [ZIP_END] =
    hdr B T' l ++ (enc 0 es1 ++ enc prev [e3'] ++ enc (esize e3) es) ++ t ++ [ZIP_END]) as -> by (intros; lassoc).
  rewrite resize_shrink by (first [by intros []%app_nil|unfold N; zside]). osimpl.
  set (T' := 10 + zlen (enc 0 es1) + lastoff (e3' :: es)).
  destruct (decr_length N T' l ((enc 0 es1 ++ enc prev [e3'] ++ enc (esize e3) es) ++ [ZIP_END])
    (zlen ds) (es1 ++ ds ++ e3 :: es) (es1 ++ e3' :: grow (esize e3') es) Hl) as (l' & -> & Hl');
    [rewrite !length_app; cbn [length]; rewrite grow_length; lia|lia|]. osimpl.
  exists l'. split; [|done].
  replace (hdr N T' l' ++ (enc 0 es1 ++ enc prev [e3'] ++ enc (esize e3) es) ++ [ZIP_END])
    with (chain l' (enc 0 es1) prev e3' (esize e3) es)
    by (unfold chain, N, T'; cbn [total]; lassoc; do 2 f_equal; lia).
  rewrite (cascade_if l' (enc 0 es1) prev e3' (esize e3) es d).
  - f_equal. apply chain_layout.
  - done.
  - unfold pfits, e3'. cbn [big]. destruct (Z.leb_spec ZIP_BIGLEN prev); lia.
  - apply Hw3.
  - apply Hw3.
  - zside.
Qed.

Lemma zdelete_spec zl es1 es2 num :
  repr zl (es1 ++ es2) -> es2 <> [] -> 0 <= num -> zlen zl + 4 * zlen es2 < 2 ^ 32 ->
  exists zl' es2', __ziplistDelete uninit zl (10 + total es1) num = Some zl' /\
    repr zl' (es1 ++ es2') /\ val <$> es2' = val <$> drop (Z.to_nat num) es2.
Proof.
  intros (l & -> & Hw & Ht & Hl) Hne Hnum Hlim. rewrite layout_length in Hlim.
  destruct (Z.eq_dec num 0) as [->|Hn0].
  { destruct (delete_front l es1 es2 0 Hw Ht Hne) as ((first & E1 & Ep & _) & E2).
    exists (layout l (es1 ++ es2)), es2. split; [|split; [by exists l|done]].
    unfold __ziplistDelete. rewrite E1. osimpl. rewrite E2. osimpl. rewrite Ep.
    cbn [take total Z.to_nat]. rewrite Z.add_0_r, Z.sub_diag. done. }
  set (k := Z.to_nat num). assert (take k es2 <> []) as Hds
    by (destruct es2, k eqn:E; [done|done|lia|done]).
  assert (es1 ++ es2 = es1 ++ take k es2 ++ drop k es2) as Esp by (by rewrite take_drop).
  destruct (drop k es2) as [|e3 es] eqn:Ed.
  - rewrite app_nil_r in Esp. rewrite Esp in *.
    pose proof (length_drop es2 k) as Hk. rewrite Ed in Hk. cbn [length] in Hk.
    destruct (delete_tail l es1 (take k es2) num Hw Hl Ht Hds) as (l' & E & Hl');
      [rewrite length_take; lia|].
    exists (layout l' es1), []. split; [exact E|]. rewrite app_nil_r. split; [|done]. exists l'.
    apply wf_app in Hw as [? _]. rewrite total_app in Ht. pose proof (total_lower (take k es2)).
    split_and!; [done|done|lia|done].
  - pose proof (length_drop es2 k) as Hk. rewrite Ed in Hk. cbn [length] in Hk.
    assert (zlen (take k es2) = num) as Hlen by (rewrite length_take; lia). rewrite Esp in *.
    pose proof (relink_upper (lastsz 0 es1) (e3 :: es)) as Hup. cbn [length] in Hup.
    rewrite !total_app in *. pose proof (total_lower es1). pose proof (total_lower (take k es2)).
    assert (11 + total (es1 ++ relink (lastsz 0 es1) (e3 :: es)) < 2 ^ 32) as Hfin
      by (rewrite total_app; lia).
    destruct (delete_mid l es1 (take k es2) e3 es) as (l' & E & Hl');
      [done|done|rewrite !total_app; lia|done|done|].
    rewrite Hlen in E. eexists _, _. split; [exact E|]. split; [|apply relink_vals].
    exists l'. split_and!; [done| |done|done].
    apply wf_app in Hw as [Hw1 Hw2]. apply wf_app in Hw2 as [_ Hw3]. apply wf_app. split; [done|].
    pose proof (lastsz_range es1 0 ltac:(lia)). rewrite total_app in Hfin.
    pose proof (total_lower (relink (lastsz 0 es1) (e3 :: es))). eapply relink_wf; [exact Hw3|lia|lia].
Qed.
End Entries.

(** ** Looking entries up *)
Lemma layout_split l es1 es2 : exists HD, zlen HD = 10 + total es1 /\
  layout l (es1 ++ es2) = HD ++ enc (lastsz 0 es1) es2 ++ [ZIP_END].
Proof.
  exists (hdr (11 + total (es1 ++ es2)) (10 + lastoff (es1 ++ es2)) l ++ enc 0 es1).
  split; [zside|]. unfold layout. rewrite enc_app. lassoc.
Qed.

Lemma index_forth_spec es : forall fuel A prev index,
  wf prev es -> (length es < fuel)%nat -> total es < 2 ^ 32 -> 0 <= index ->
  index_forth fuel (A ++ enc prev es ++ [ZIP_END]) (zlen A) index =
    Some (zlen A + total (take (Z.to_nat index) es),
          if index <? zlen es then -1 else index - zlen es).
Proof.
  induction es as [|e es IH]; intros [|fuel] A prev index Hw Hf Ht Hi; try (cbn [length] in Hf; lia).
  - destruct (entry_byte A prev [] _ _ eq_refl eq_refl Hw) as (x & Hx & Hb). cbn [index_forth].
    rewrite Hx. osimpl. rewrite Hb, take_nil. ctests. cbn [total length].
    rewrite (proj2 (Z.ltb_ge index (Z.of_nat 0))) by lia. do 2 f_equal; lia.
  - destruct (entry_byte A prev (e :: es) _ _ eq_refl eq_refl Hw) as (x & Hx & Hb).
    pose proof (total_lower es). pose proof (esize_pos e). cbn [total] in Ht.
    cbn [index_forth]. rewrite Hx. osimpl. rewrite Hb, bool_decide_eq_false_2 by done. cbn [negb].
    destruct (Z.eqb_spec index 0) as [->|Hi0]; cbn [negb].
    + cbn. rewrite Z.add_0_r. done.
    + rewrite (raw_entry A prev e es) by (done || lia). osimpl.
      replace (A ++ enc prev (e :: es) ++ [ZIP_END]) with
        ((A ++ enc prev [e]) ++ enc (esize e) es ++ [ZIP_END]) by (cbn [enc]; lassoc).
      replace (zlen A + esize e) with (zlen (A ++ enc prev [e])) by zside.
      destruct Hw as (_ & _ & Hw). rewrite IH by (done || (cbn [length] in Hf; lia)).
      replace (Z.to_nat index) with (S (Z.to_nat (index - 1))) by lia.
      cbn [take total length].
      replace (index - 1 <? zlen es) with (index <? Z.of_nat (S (length es)))
        by (destruct (Z.ltb_spec index (Z.of_nat (S (length es)))), (Z.ltb_spec (index - 1) (zlen es)); lia).
      do 2 f_equal; [zside|]. destruct (_ <? _); lia.
Qed.

(** The field of an entry: the size of the entry before it. *)
Lemma prevlen_layout l es1 e es2 :
  wf 0 (es1 ++ e :: es2) ->
  ZIP_DECODE_PREVLEN (layout l (es1 ++ e :: es2)) (10 + total es1) =
    Some (psize (big e), lastsz 0 es1).
Proof.
  intros (_ & Hp & _)%wf_app. destruct (layout_split l es1 (e :: es2)) as (HD & HHD & ->).
  apply (prevlen_at HD _ _ (body (val e) ++ enc (esize e) es2 ++ [ZIP_END])); [cbn [enc]; lassoc|lia|done].
Qed.

Lemma index_back_spec es1 : forall l e es2 fuel index,
  wf 0 (es1 ++ e :: es2) -> (length es1 < fuel)%nat -> 0 <= index ->
  index_back fuel (layout l (es1 ++ e :: es2)) (10 + total es1) (lastsz 0 es1) index =
    Some (10 + total (take (length es1 - Z.to_nat index) es1),
          if index <? zlen es1 then -1 else index - zlen es1).
Proof.
  induction es1 as [|e1 es1 IH] using rev_ind; intros l e es2 [|fuel] index Hw Hf Hi; try lia.
  - cbn [index_back lastsz length]. ctests. rewrite take_nil.
    rewrite (proj2 (Z.ltb_ge index (Z.of_nat 0))) by lia. do 2 f_equal; lia.
  - rewrite lastsz_snoc. pose proof (esize_pos e1). cbn [index_back].
    rewrite (proj2 (Z.ltb_lt 0 (esize e1))) by lia.
    destruct (Z.eqb_spec index 0) as [->|Hi0]; cbn [negb].
    + rewrite Nat.sub_0_r, firstn_all, (proj2 (Z.ltb_lt 0 _)) by (rewrite length_app; cbn; lia). done.
    + rewrite <- app_assoc in *. cbn [app] in *.
      replace (10 + total (es1 ++ [e1]) - esize e1) with (10 + total es1)
        by (rewrite total_app; cbn [total]; lia).
      rewrite prevlen_layout by done. osimpl. rewrite length_app in *. cbn [length] in *.
      rewrite IH by (done || lia). do 2 f_equal.
      * do 2 f_equal. rewrite take_app_le by lia. f_equal. lia.
      * destruct (Z.ltb_spec (index - 1) (zlen es1)), (Z.ltb_spec index (Z.of_nat (length es1 + 1))); lia.
Qed.

(** The byte at an entry position is [ZIP_END] only behind the last entry. *)
Lemma layout_byte l es1 es2 :
  wf 0 (es1 ++ es2) ->
  exists x, rd (layout l (es1 ++ es2)) (10 + total es1) = Some x /\
    (x =? ZIP_END) = bool_decide (es2 = []).
Proof.
  intros [_ Hw]%wf_app. destruct (layout_split l es1 es2) as (HD & HHD & ->).
  by apply (entry_byte HD (lastsz 0 es1) es2).
Qed.

Lemma layout_byte_take l es (k : nat) :
  wf 0 es -> exists x, rd (layout l es) (10 + total (take k es)) = Some x /\
    (x =? ZIP_END) = bool_decide (length es <= k)%nat.
Proof.
  intros Hw. rewrite <- (take_drop k es) in Hw.
  destruct (layout_byte l (take k es) (drop k es) Hw) as (x & Hx & Hb).
  rewrite take_drop in Hx. exists x. split; [done|]. rewrite Hb. apply bool_decide_ext.
  split; [intros E%(f_equal length); rewrite length_drop in E; cbn in E; lia|apply drop_ge].
Qed.

(** [ziplistIndex] counts from the front, or from the back when negative. *)
Lemma index_spec zl es index :
  repr zl es -> - 2 ^ 31 < index < 2 ^ 31 ->
  let i := if index <? 0 then zlen es + index else index in
  ziplistIndex zl index =
    Some (if (0 <=? i) && (i <? zlen es) then Some (10 + total (take (Z.to_nat i) es)) else None).
Proof.
  intros (l & -> & Hw & Ht & _) Hi i. unfold ziplistIndex. unfold i. clear i.
  pose proof (total_lower es) as Htl. pose proof (layout_length l es) as Hll.
  destruct (Z.ltb_spec index 0) as [Hneg|Hpos].
  - rewrite layout_tail by done. osimpl.
    destruct es as [|e es _] using rev_ind.
    { cbn [lastoff]. destruct (layout_byte l [] [] Hw) as (x & Hx & Hb). cbn [app total] in Hx.
      rewrite Hx. osimpl. rewrite Hb. ctests. osimpl. rewrite Hx. osimpl. rewrite Hb. ctests.
      cbn [length orb]. rewrite (proj2 (Z.leb_gt 0 _)) by lia. done. }
    rewrite lastoff_app. change (lastoff [e]) with 0. rewrite Z.add_0_r.
    destruct (layout_byte l es [e] Hw) as (x & -> & Hb). osimpl. rewrite Hb. ctests.
    rewrite prevlen_layout by done. osimpl. rewrite length_app in *. cbn [length] in *.
    rewrite index_back_spec by (done || lia). osimpl.
    replace (take (length es - Z.to_nat (- index - 1)) es)
      with (take (length es - Z.to_nat (- index - 1)) (es ++ [e])) by (apply take_app_le; lia).
    destruct (layout_byte_take l (es ++ [e]) (length es - Z.to_nat (- index - 1)) Hw) as (y & -> & Hy).
    osimpl. rewrite Hy, bool_decide_eq_false_2 by (rewrite length_app; cbn; lia). cbn [orb].
    destruct (Z.ltb_spec (- index - 1) (zlen es)).
    + ctests. rewrite (proj2 (Z.leb_le 0 _)), (proj2 (Z.ltb_lt _ _)) by lia. cbn [andb].
      do 5 f_equal. lia.
    + destruct (Z.ltb_spec 0 (- index - 1 - zlen es)).
      * by rewrite (proj2 (Z.leb_gt 0 _)) by lia.
      * rewrite (proj2 (Z.leb_le 0 _)), (proj2 (Z.ltb_lt _ _)) by lia. cbn [andb]. do 5 f_equal. lia.
  - destruct (layout_split l [] es) as (HD & HHD & Ez). cbn [total app lastsz] in *.
    rewrite Ez at 2. replace ZIPLIST_ENTRY_HEAD with (zlen HD) by (rewrite HHD; done).
    rewrite index_forth_spec by (done || lia). osimpl. rewrite HHD.
    replace (10 + 0 + total (take (Z.to_nat index) es)) with (10 + total (take (Z.to_nat index) es)) by lia.
    destruct (layout_byte_take l es (Z.to_nat index) Hw) as (y & -> & Hy). osimpl. rewrite Hy.
    rewrite (proj2 (Z.leb_le 0 index)) by lia. cbn [andb].
    destruct (Z.ltb_spec index (zlen es)).
    + rewrite bool_decide_eq_false_2 by lia. done.
    + rewrite bool_decide_eq_true_2 by lia. done.
Qed.

Lemma raw_layout l es1 e es2 :
  wf 0 (es1 ++ e :: es2) -> 11 + total (es1 ++ e :: es2) < 2 ^ 32 ->
  zipRawEntryLength (layout l (es1 ++ e :: es2)) (10 + total es1) = Some (esize e).
Proof.
  intros [_ Hw]%wf_app Ht. destruct (layout_split l es1 (e :: es2)) as (HD & HHD & ->).
  rewrite total_app in Ht. cbn [total] in Ht. pose proof (total_lower es1). pose proof (total_lower es2).
  by apply (raw_entry HD (lastsz 0 es1) e es2); try lia.
Qed.

Lemma next_spec zl es1 e es2 :
  repr zl (es1 ++ e :: es2) ->
  ziplistNext zl (10 + total es1) =
    Some (if es2 is [] then None else Some (10 + total (es1 ++ [e]))).
Proof.
  intros (l & -> & Hw & Ht & _). unfold ziplistNext.
  destruct (layout_byte l es1 (e :: es2) Hw) as (x & -> & Hx). osimpl. rewrite Hx. ctests.
  rewrite raw_layout by done. osimpl.
  replace (10 + total es1 + esize e) with (10 + total (es1 ++ [e])) by (rewrite total_app; cbn; lia).
  rewrite (app_cons_mid es1 e es2) in *.
  destruct (layout_byte l (es1 ++ [e]) es2 Hw) as (y & -> & Hy). osimpl. rewrite Hy. by destruct es2.
Qed.

Lemma next_end zl es : repr zl es -> ziplistNext zl (10 + total es) = Some None.
Proof. intros (l & -> & _). unfold ziplistNext. by rewrite layout_end. Qed.

Lemma prev_spec zl es1 e es2 :
  repr zl (es1 ++ e :: es2) ->
  ziplistPrev zl (10 + total (es1 ++ [e])) = Some (Some (10 + total es1)) /\
  ziplistPrev zl (10 + total []) = Some (if es1 ++ e :: es2 is [] then None else None).
Proof.
  intros (l & -> & Hw & Ht & _). unfold ziplistPrev. split.
  - destruct es2 as [|e2 es2].
    + rewrite layout_end. osimpl. ctests. rewrite layout_tail by done. osimpl.
      rewrite lastoff_app. change (lastoff [e]) with 0. rewrite Z.add_0_r.
      destruct (layout_byte l es1 [e] Hw) as (x & -> & Hx). osimpl. by rewrite Hx.
    + rewrite (app_cons_mid es1 e (e2 :: es2)) in *.
      destruct (layout_byte l (es1 ++ [e]) (e2 :: es2) Hw) as (x & -> & Hx). osimpl. rewrite Hx. ctests.
      pose proof (total_lower es1). pose proof (esize_pos e).
      rewrite (proj2 (Z.eqb_neq _ _))
        by (unfold ZIPLIST_ENTRY_HEAD, ZIPLIST_HEADER_SIZE; rewrite total_app; cbn [total]; lia).
      rewrite prevlen_layout by done. osimpl. rewrite lastsz_snoc, (proj2 (Z.ltb_lt 0 _)) by lia.
      do 3 f_equal. rewrite total_app. cbn [total]. lia.
  - destruct (layout_byte l [] (es1 ++ e :: es2) Hw) as (x & Hx & Hb). cbn [app] in Hx. rewrite Hx. osimpl.
    rewrite Hb, bool_decide_eq_false_2 by (by destruct es1). ctests. by destruct es1.
Qed.

Definition zget_text (g : zget) : list Z := match g with GetStr s => s | GetInt v => dec v end.

Lemma zipEntry_layout l es1 e es2 :
  wf 0 (es1 ++ e :: es2) ->
  zipEntry (layout l (es1 ++ e :: es2)) (10 + total es1) =
    Some (Zlentry (psize (big e)) (lastsz 0 es1) (vlensize (val e)) (zlen (payload (val e)))
      (psize (big e) + vlensize (val e)) (venc (val e)) (10 + total es1)).
Proof.
  intros (_ & Hp & Hv & _)%wf_app. destruct (layout_split l es1 (e :: es2)) as (HD & HHD & ->).
  apply (zipEntry_at HD _ _ _ (enc (esize e) es2 ++ [ZIP_END])); [cbn [enc]; lassoc|lia|done|done].
Qed.

(** The payload of an entry, behind its header. *)
Lemma payload_at A prev e es :
  exists A' C, A ++ enc prev (e :: es) ++ [ZIP_END] = A' ++ payload (val e) ++ C /\
    zlen A' = zlen A + (psize (big e) + vlensize (val e)).
Proof.
  destruct (val e) as [s|en v] eqn:Ev.
  - exists (A ++ pfield (big e) prev ++ lenbytes (zlen s)), (enc (esize e) es ++ [ZIP_END]).
    split; [cbn [enc]; rewrite Ev; cbn [body payload]; lassoc|cbn [vlensize]; zside].
  - exists (A ++ pfield (big e) prev ++ [en]), (enc (esize e) es ++ [ZIP_END]).
    split; [cbn [enc]; rewrite Ev; cbn [body payload]; lassoc|cbn [vlensize]; zside].
Qed.

Lemma payload_layout l es1 e es2 :
  exists A C, layout l (es1 ++ e :: es2) = A ++ payload (val e) ++ C /\
    zlen A = 10 + total es1 + (psize (big e) + vlensize (val e)).
Proof. destruct (layout_split l es1 (e :: es2)) as (HD & <- & ->). apply payload_at. Qed.

Lemma load_layout l es1 e es2 en v :
  val e = VInt en v -> int_ok en v ->
  zipLoadInteger (layout l (es1 ++ e :: es2)) (10 + total es1 + (psize (big e) + vlensize (val e))) en =
    Some v.
Proof.
  intros Ev Hv. destruct (payload_layout l es1 e es2) as (A & C & -> & HA). rewrite Ev in *.
  by apply load_at.
Qed.

Lemma str_layout l es1 e es2 s :
  val e = VStr s ->
  rdn (layout l (es1 ++ e :: es2)) (10 + total es1 + (psize (big e) + vlensize (val e))) (zlen s) =
    Some s.
Proof.
  intros Ev. destruct (payload_layout l es1 e es2) as (A & C & -> & HA). rewrite Ev in *.
  by apply rdn_app.
Qed.

Lemma get_spec zl es1 e es2 :
  repr zl (es1 ++ e :: es2) ->
  exists g, ziplistGet zl (Some (10 + total es1)) = Some (Some g) /\ zget_text g = text (val e).
Proof.
  intros (l & -> & Hw & Ht & _). unfold ziplistGet.
  destruct (layout_byte l es1 (e :: es2) Hw) as (x & -> & Hx). osimpl. rewrite Hx. ctests.
  rewrite zipEntry_layout by done. osimpl. cbn [encoding headersize len].
  destruct (proj1 (wf_app _ _ _) Hw) as (_ & _ & Hv & _). rewrite venc_str by done.
  destruct (val e) as [s|en v] eqn:Ev; cbn [venc payload].
  - rewrite <- Ev, str_layout by done. osimpl. exists (GetStr s). by rewrite Ev.
  - rewrite <- Ev, (load_layout l es1 e es2 en v) by done. osimpl. exists (GetInt v). by rewrite Ev.
Qed.

(** Comparing a value with a string: equality of their texts. *)
Lemma try_int_text s r en v :
  zipTryEncoding s (zlen s) = Some r -> int_ok en v ->
  match r with Some (sval, _) => v =? sval | None => false end = bool_decide (dec v = s).
Proof.
  intros Er Hv. destruct (zipTryEncoding_spec s) as (r' & Er' & Hr). rewrite Er in Er'.
  injection Er' as <-. assert (in_s 64 v) as Hs.
  { destruct Hv as [[He ->]|[He Hv]].
    - unfold ZIP_INT_IMM_MIN, ZIP_INT_IMM_MAX in *. unfold in_s. lia.
    - repeat (apply elem_of_cons in He as [-> | He];
        [match type of Hv with in_s (8 * zipIntSize ?e) _ =>
           let n := eval vm_compute in (8 * zipIntSize e) in change (in_s n v) in Hv end;
         unfold in_s in *; simpl in *; lia|]). by apply elem_of_nil in He. }
  destruct r as [[sval e]|].
  - destruct Hr as (_ & Hsv & ->). destruct (Z.eqb_spec v sval) as [->|Hne];
      [by rewrite bool_decide_eq_true_2|]. rewrite bool_decide_eq_false_2; [done|]. intros E.
    destruct (string2ll_spec (dec v)) as (q & _ & Hq).
    assert (Some v = Some sval); [|congruence].
    transitivity q; [symmetry; by apply Hq|apply Hq; by rewrite <- E].
  - rewrite bool_decide_eq_false_2; [done|]. intros <-. by apply (Hr v).
Qed.

Lemma zcompare_spec zl es1 e es2 s :
  repr zl (es1 ++ e :: es2) ->
  ziplistCompare zl (10 + total es1) s (zlen s) = Some (bool_decide (text (val e) = s)).
Proof.
  intros (l & -> & Hw & Ht & _). unfold ziplistCompare.
  destruct (layout_byte l es1 (e :: es2) Hw) as (x & -> & Hx). osimpl. rewrite Hx. ctests.
  rewrite zipEntry_layout by done. osimpl. cbn [encoding headersize len].
  destruct (proj1 (wf_app _ _ _) Hw) as (_ & _ & Hv & _). rewrite venc_str by done.
  destruct (val e) as [t|en v] eqn:Ev; cbn [venc payload text].
  - destruct (Z.eqb_spec (zlen t) (zlen s)) as [Hl|Hl].
    + rewrite <- Hl. rewrite <- Ev, str_layout by done. osimpl.
      pose proof (rdn_app [] s [] 0 (zlen s) eq_refl eq_refl) as E. rewrite app_nil_r in E.
      cbn [app] in E. rewrite Hl, E. osimpl. rewrite memcmp_eq by lia. done.
    + rewrite bool_decide_eq_false_2; [done|]. by intros ->.
  - destruct (zipTryEncoding_spec s) as (r & Er & _). rewrite Er. osimpl.
    rewrite <- (try_int_text s r en v Er Hv). destruct r as [[sval e']|]; [|done].
    rewrite <- Ev, (load_layout l es1 e es2 en v) by done. done.
Qed.

(** ** Searching

    The reference for [ziplistFind]: the first entry with the text [s] among
    those at distance [k], [k + skip + 1], [k + 2 (skip + 1)], ... *)
Fixpoint find_from (skip k : nat) (s : list Z) (es : list ent) : option nat :=
  match es with
  | [] => None
  | e :: es =>
      match k with
      | O => if decide (text (val e) = s) then Some 0%nat else S <$> find_from skip skip s es
      | S k => S <$> find_from skip k s es
      end
  end.

(** The integer the searched string stands for is computed at most once. *)
Definition cache_ok (s : list Z) (vencoding vll : Z) : Prop :=
  vencoding = 0 \/
  match zipTryEncoding s (zlen s) with
  | Some (Some (v, en)) => vencoding = en /\ vll = v
  | Some None => vencoding = UCHAR_MAX
  | None => False
  end.

Lemma find_int s vencoding vll v en :
  cache_ok s vencoding vll -> int_ok en v ->
  exists vencoding' vll', cache_ok s vencoding' vll' /\
    (if vencoding =? 0 then
       r ← zipTryEncoding s (zlen s);
       match r with
       | Some (v, e) => if e =? 0 then None else Some (e, v)
       | None => Some (UCHAR_MAX, vll)
       end
     else Some (vencoding, vll)) = Some (vencoding', vll') /\
    negb (vencoding' =? UCHAR_MAX) && (v =? vll') = bool_decide (dec v = s).
Proof.
  intros Hc Hv. destruct (zipTryEncoding_spec s) as (r & Er & Hr).
  pose proof (try_int_text s r en v Er Hv) as Ht. unfold cache_ok in *. rewrite Er in *. osimpl.
  destruct r as [[v' e']|].
  - destruct Hr as (Hi & _). destruct (int_enc e' v' Hi) as (He & _ & _).
    exists e', v'. split; [by right|]. rewrite (proj2 (Z.eqb_neq e' UCHAR_MAX)) by (unfold UCHAR_MAX; lia).
    rewrite (proj2 (Z.eqb_neq e' 0)) by lia. split; [|done].
    destruct Hc as [-> | [-> ->]]; [done|]. by rewrite (proj2 (Z.eqb_neq e' 0)) by lia.
  - exists UCHAR_MAX, vll. split; [by right|]. split; [|done]. by destruct Hc as [-> | ->].
Qed.

Lemma find_loop_spec es : forall fuel A prev s skip (k : nat) vencoding vll,
  wf prev es -> (length es < fuel)%nat -> total es < 2 ^ 32 -> 0 <= skip < 2 ^ 31 ->
  cache_ok s vencoding vll ->
  find_loop fuel (A ++ enc prev es ++ [ZIP_END]) (zlen A) s (zlen s) skip (Z.of_nat k) vencoding vll =
    Some ((fun i => zlen A + total (take i es)) <$> find_from (Z.to_nat skip) k s es).
Proof.
  induction es as [|e es IH]; intros [|fuel] A prev s skip k vencoding vll Hw Hf Ht Hskip Hc;
    try (cbn [length] in Hf; lia).
  { destruct (entry_byte A prev [] _ _ eq_refl eq_refl Hw) as (x & Hx & Hb). cbn [find_loop].
    rewrite Hx. osimpl. by rewrite Hb. }
  destruct (entry_byte A prev (e :: es) _ _ eq_refl eq_refl Hw) as (x & Hx & Hb).
  pose proof (total_lower es). pose proof (esize_pos e). cbn [total] in Ht. cbn [length] in Hf.
  destruct Hw as (Hp & Hv & Hw). cbn [find_loop]. rewrite Hx. osimpl.
  rewrite Hb, bool_decide_eq_false_2 by done.
  rewrite (prevlensize_at A (big e) prev (body (val e) ++ enc (esize e) es ++ [ZIP_END]))
    by (first [done|cbn [enc]; lassoc]). osimpl.
  assert (ZIP_DECODE_LENGTH (A ++ enc prev (e :: es) ++ [ZIP_END]) (zlen A + psize (big e)) =
    Some (venc (val e), vlensize (val e), zlen (payload (val e)))) as ->.
  { replace (A ++ enc prev (e :: es) ++ [ZIP_END]) with
      ((A ++ pfield (big e) prev) ++ body (val e) ++ enc (esize e) es ++ [ZIP_END]) by (cbn [enc]; lassoc).
    replace (zlen A + psize (big e)) with (zlen (A ++ pfield (big e) prev) + 0) by zside.
    by rewrite decode_length_shift, decode_length. }
  osimpl. cbv zeta.
  assert (forall k' ve vl, cache_ok s ve vl ->
    find_loop fuel (A ++ enc prev (e :: es) ++ [ZIP_END])
      (zlen A + psize (big e) + vlensize (val e) + zlen (payload (val e))) s (zlen s) skip
      (Z.of_nat k') ve vl =
    Some ((fun i => zlen A + total (take i (e :: es))) <$> (S <$> find_from (Z.to_nat skip) k' s es)))
    as Hnext.
  { intros k' ve vl Hc'.
    replace (A ++ enc prev (e :: es) ++ [ZIP_END]) with
      ((A ++ enc prev [e]) ++ enc (esize e) es ++ [ZIP_END]) by (cbn [enc]; lassoc).
    replace (zlen A + psize (big e) + vlensize (val e) + zlen (payload (val e)))
      with (zlen (A ++ enc prev [e])) by (rewrite length_app, Nat2Z.inj_add, enc_size; cbn [total]; unfold esize; rewrite body_size; lia).
    rewrite IH by (done || lia). f_equal. destruct (find_from _ k' s es) as [i|]; [|done].
    cbn [fmap option_fmap option_map take total]. f_equal. zside. }
  cbn [find_from]. destruct k as [|k].
  2: { rewrite (proj2 (Z.eqb_neq _ _)) by lia.
       replace (Z.of_nat (S k) - 1) with (Z.of_nat k) by lia. by apply Hnext. }
  ctests. rewrite venc_str by done.
  replace (swrap 32 skip) with (Z.of_nat (Z.to_nat skip))
    by (rewrite swrap_small by (unfold in_s; lia); lia).
  destruct (payload_at A prev e es) as (A' & C & Epay & HA'). rewrite Z.add_assoc in HA'.
  rewrite <- HA' in *. destruct (val e) as [t|en v] eqn:Ev; cbn [venc payload text] in *.
  - destruct (Z.eqb_spec (zlen t) (zlen s)) as [Hl|Hl].
    + assert (rdn (A ++ enc prev (e :: es) ++ [ZIP_END]) (zlen A') (zlen s) = Some t) as ->
        by (rewrite Epay; by apply rdn_app).
      pose proof (rdn_app [] s [] 0 (zlen s) eq_refl eq_refl) as E. rewrite app_nil_r in E.
      cbn [app] in E. osimpl. rewrite E. osimpl. rewrite memcmp_eq by lia.
      destruct (decide (t = s)); [rewrite bool_decide_eq_true_2 by done|rewrite bool_decide_eq_false_2 by done].
      * cbn. by rewrite Z.add_0_r.
      * by apply Hnext.
    + osimpl. rewrite decide_False by (by intros ->). by apply Hnext.
  - destruct (find_int s vencoding vll v en Hc Hv) as (ve & vl & Hc' & -> & Hdec). osimpl.
    assert (zipLoadInteger (A ++ enc prev (e :: es) ++ [ZIP_END]) (zlen A') en = Some v) as Eload
      by (rewrite Epay; by apply load_at).
    destruct (ve =? UCHAR_MAX); cbn [negb andb] in *.
    + osimpl. rewrite decide_False by (symmetry in Hdec; by apply bool_decide_eq_false in Hdec). by apply Hnext.
    + rewrite Eload. osimpl. rewrite Hdec. destruct (decide (dec v = s)).
      * rewrite bool_decide_eq_true_2 by done. cbn. by rewrite Z.add_0_r.
      * rewrite bool_decide_eq_false_2 by done. by apply Hnext.
Qed.

(** What the reference search finds. *)
Lemma find_from_Some skip s es : forall k i,
  find_from skip k s es = Some i ->
  texts es !! i = Some s /\
  (exists m, i = k + m * S skip)%nat /\
  forall j, (j < i)%nat -> (exists m, j = k + m * S skip)%nat -> texts es !! j <> Some s.
Proof.
  induction es as [|e es IH]; intros k i; cbn [find_from]; [done|].
  assert (forall k' (Hk : (exists m, S k' = k + m * S skip)%nat)
    (Hlow : forall m, (k + m * S skip <= k')%nat -> (k + m * S skip = 0)%nat /\ text (val e) <> s),
    S <$> find_from skip k' s es = Some i ->
    texts (e :: es) !! i = Some s /\ (exists m, i = k + m * S skip)%nat /\
    forall j, (j < i)%nat -> (exists m, j = k + m * S skip)%nat -> texts (e :: es) !! j <> Some s) as Hrec.
  { intros k' [mk Hmk] Hlow Hf. destruct (find_from skip k' s es) as [i'|] eqn:E; [|done].
    injection Hf as <-. destruct (IH k' i' E) as (H1 & [m Hm] & H3). split; [exact H1|].
    split; [exists (mk + m)%nat; lia|]. intros j Hj [mj Hmj] Hs.
    destruct (decide (j <= k')%nat) as [Hle|Hgt].
    - destruct (Hlow mj ltac:(lia)) as [H0 Hne]. rewrite Hmj, H0 in Hs. by injection Hs as <-.
    - destruct j as [|j]; [lia|]. apply (H3 j ltac:(lia)); [|exact Hs]. exists (mj - mk)%nat.
      assert (mk <= mj)%nat by nia. rewrite Nat.mul_sub_distr_r. nia. }
  destruct k as [|k].
  - destruct (decide (text (val e) = s)) as [<-|Hne].
    + intros [= <-]. split; [done|]. split; [exists 0%nat; lia|]. lia.
    + apply Hrec; [exists 1%nat; lia|]. intros m Hm. split; [destruct m; [done|cbn in Hm; lia]|done].
  - apply Hrec; [exists 0%nat; lia|]. intros m Hm. lia.
Qed.

Lemma find_from_None skip s es : forall k,
  find_from skip k s es = None ->
  forall m, texts es !! (k + m * S skip)%nat <> Some s.
Proof.
  induction es as [|e es IH]; intros k; cbn [find_from].
  { done. }
  destruct k as [|k].
  - destruct (decide (text (val e) = s)) as [|Hne]; [done|]. intros Hf.
    destruct (find_from skip skip s es) eqn:E; [done|]. intros [|m]; cbn [Nat.add Nat.mul].
    + intros [= ?]. done.
    + apply (IH skip E m).
  - intros Hf. destruct (find_from skip k s es) eqn:E; [done|]. intros m. apply (IH k E m).
Qed.

Lemma find_from_lt skip s es k i : find_from skip k s es = Some i -> (i < length es)%nat.
Proof.
  intros Hf. apply find_from_Some in Hf as [Hi _]. apply lookup_lt_Some in Hi.
  unfold texts in Hi. by rewrite length_fmap in Hi.
Qed.

Lemma find_spec zl es1 es2 s skip :
  repr zl (es1 ++ es2) -> 0 <= skip < 2 ^ 31 ->
  ziplistFind zl (10 + total es1) s (zlen s) skip =
    Some ((fun i => 10 + total es1 + total (take i es2)) <$> find_from (Z.to_nat skip) 0 s es2).
Proof.
  intros (l & -> & Hw & Ht & _) Hskip. unfold ziplistFind.
  pose proof (layout_length l (es1 ++ es2)) as Hll. rewrite total_app in *.
  pose proof (total_lower es1). pose proof (total_lower es2).
  destruct (layout_split l es1 es2) as (HD & <- & Ez). rewrite Ez in *.
  apply wf_app in Hw as [_ Hw].
  apply (find_loop_spec es2 _ HD (lastsz 0 es1) s skip 0); [done|lia|lia|done|by left].
Qed.

Lemma len_loop_spec es : forall fuel A prev n,
  wf prev es -> (length es < fuel)%nat -> total es < 2 ^ 32 -> 0 <= n -> n + zlen es < 2 ^ 32 ->
  len_loop fuel (A ++ enc prev es ++ [ZIP_END]) (zlen A) n = Some (n + zlen es).
Proof.
  induction es as [|e es IH]; intros [|fuel] A prev n Hw Hf Ht Hn Hlim; try (cbn [length] in *; lia).
  - destruct (entry_byte A prev [] _ _ eq_refl eq_refl Hw) as (x & Hx & Hb). cbn [len_loop].
    rewrite Hx. osimpl. rewrite Hb. ctests. cbn [length]. f_equal. lia.
  - destruct (entry_byte A prev (e :: es) _ _ eq_refl eq_refl Hw) as (x & Hx & Hb).
    pose proof (total_lower es). pose proof (esize_pos e). cbn [total length] in *.
    cbn [len_loop]. rewrite Hx. osimpl. rewrite Hb, bool_decide_eq_false_2 by done.
    rewrite (raw_entry A prev e es) by (done || lia). osimpl.
    replace (A ++ enc prev (e :: es) ++ [ZIP_END]) with
      ((A ++ enc prev [e]) ++ enc (esize e) es ++ [ZIP_END]) by (cbn [enc]; lassoc).
    replace (zlen A + esize e) with (zlen (A ++ enc prev [e])) by zside.
    destruct Hw as (_ & _ & Hw). rewrite wrap_small by (unfold in_u; lia).
    rewrite IH by (done || lia). f_equal. lia.
Qed.

(** The number of entries, counted again when the 16-bit count has overflowed. *)
Lemma len_spec zl es :
  repr zl es -> exists zl', ziplistLen zl = Some (zlen es, zl') /\ repr zl' es.
Proof.
  intros (l & -> & Hw & Ht & Hl). unfold ziplistLen. pose proof (total_lower es).
  assert (ZIPLIST_LENGTH (layout l es) = Some l) as ->
    by (apply length_at; unfold len_ok, UINT16_MAX in Hl; lia). osimpl.
  destruct (Z.ltb_spec l UINT16_MAX).
  { exists (layout l es). destruct Hl as [-> |[-> Hl]]; [lia|]. split; [done|]. exists (zlen es).
    split_and!; [done|done|done|]. by right. }
  pose proof (layout_length l es) as Hll. destruct (layout_split l [] es) as (HD & HHD & Ez).
  cbn [app total lastsz] in *.
  assert (len_loop (S (length (layout l es))) (layout l es) ZIPLIST_HEADER_SIZE 0 = Some (0 + zlen es)) as ->.
  { rewrite Ez in *. change ZIPLIST_HEADER_SIZE with (10 + 0). rewrite <- HHD.
    by apply len_loop_spec; try lia. }
  osimpl. rewrite Z.add_0_l.
  destruct (Z.ltb_spec (zlen es) UINT16_MAX) as [Hs|Hs].
  - unfold layout. rewrite set_length_at. osimpl. eexists. split; [done|]. exists (zlen es).
    split_and!; [done|done|done|]. right. lia.
  - osimpl. eexists. split; [done|]. by exists l.
Qed.

Lemma new_spec uninit : exists zl, ziplistNew uninit = Some zl /\ repr zl [].
Proof.
  unfold ziplistNew. pose proof (realloc_length uninit 11 [] ltac:(lia)) as Hl.
  change (ZIPLIST_HEADER_SIZE + 1) with 11. destruct (realloc uninit 11 []) as
    [|b0 [|b1 [|b2 [|b3 [|b4 [|b5 [|b6 [|b7 [|b8 [|b9 [|b10 [|]]]]]]]]]]]]; try (cbn in Hl; lia).
  exists (layout 0 []). split; [done|]. exists 0. split_and!; try done. by right.
Qed.

(** ** The operations as operations on a list of strings *)
Section Claims.
Context (uninit : nat -> Z).
Implicit Types (zl s : list Z) (es : list ent).

Lemma texts_app es1 es2 : texts (es1 ++ es2) = texts es1 ++ texts es2.
Proof. apply fmap_app. Qed.

Lemma insert_texts es1 es2 s :
  Forall is_byte s -> zlen s < 2 ^ 32 ->
  let e := new_ent (lastsz 0 es1) s in
  texts (es1 ++ e :: relink (esize e) es2) = texts es1 ++ s :: texts es2.
Proof.
  intros Hb Hs e. rewrite texts_app. f_equal. cbn. f_equal; [by apply value_of_ok|].
  by apply texts_vals, relink_vals.
Qed.

(** C23: Inserting a string at any position of a ziplist inserts it there and
    leaves the other strings as they are, whatever chain of length fields has
    to grow, provided the block is not resized below its old contents. *)
Theorem ziplistInsert_refines zl es1 es2 s :
  repr zl (es1 ++ es2) -> Forall is_byte s -> zlen zl + zlen s + 4 * zlen es2 + 18 < 2 ^ 32 ->
  roomy (esize (new_ent (lastsz 0 es1) s)) es2 ->
  exists zl' es', ziplistInsert uninit zl (10 + total es1) s (zlen s) = Some zl' /\
    repr zl' es' /\ texts es' = texts es1 ++ s :: texts es2.
Proof.
  intros Hr Hb Hlim Hroom. destruct (zinsert_spec uninit zl es1 es2 s Hr Hb Hlim Hroom) as (zl' & E & Hr').
  exists zl', (es1 ++ new_ent (lastsz 0 es1) s :: relink (esize (new_ent (lastsz 0 es1) s)) es2).
  split; [exact E|]. split; [done|]. apply insert_texts; [done|lia].
Qed.

(** Pushing a string at the tail appends it. *)
Theorem ziplistPush_appends zl es s :
  repr zl es -> Forall is_byte s -> zlen zl + zlen s + 18 < 2 ^ 32 ->
  exists zl' es', ziplistPush uninit zl s (zlen s) ZIPLIST_TAIL = Some zl' /\
    repr zl' es' /\ texts es' = texts es ++ [s].
Proof.
  intros Hr Hb Hlim. pose proof Hr as (l & Ezl & _ & Ht & _).
  unfold ziplistPush. ctests. unfold ZIPLIST_ENTRY_END.
  assert (ZIPLIST_BYTES zl = Some (11 + total es)) as -> by (rewrite Ezl; by apply layout_bytes). osimpl. replace (11 + total es - 1) with (10 + total es) by lia.
  rewrite <- (app_nil_r es) in Hr.
  destruct (zinsert_spec uninit zl es [] s Hr Hb) as (zl' & E & Hr'); [cbn; lia|done|].
  eexists _, _. split; [exact E|]. split; [exact Hr'|].
  by rewrite (insert_texts es [] s) by (done || lia).
Qed.

(** Deleting an entry removes its string, and the caller's pointer then points
    to the entry that followed it. *)
Theorem ziplistDelete_refines zl es1 e es2 :
  repr zl (es1 ++ e :: es2) -> zlen zl + 4 * zlen es2 + 4 < 2 ^ 32 ->
  exists zl' es2', ziplistDelete uninit zl (10 + total es1) = Some (zl', 10 + total es1) /\
    repr zl' (es1 ++ es2') /\ texts es2' = texts es2.
Proof.
  intros Hr Hlim. unfold ziplistDelete.
  destruct (zdelete_spec uninit zl es1 (e :: es2) 1 Hr) as (zl' & es2' & -> & Hr' & Hv);
    [done|lia|cbn [length]; lia|].
  exists zl', es2'. split; [done|]. split; [done|]. by apply texts_vals.
Qed.

(** C24: Deleting a range by index removes exactly the strings of the range. *)
Theorem ziplistDeleteRange_refines zl es index num :
  repr zl es -> 0 <= index < 2 ^ 31 -> 0 <= num -> zlen zl + 4 * zlen es < 2 ^ 32 ->
  exists zl' es', ziplistDeleteRange uninit zl index num = Some zl' /\ repr zl' es' /\
    texts es' = take (Z.to_nat index) (texts es) ++ drop (Z.to_nat (index + num)) (texts es).
Proof.
  intros Hr Hi Hn Hlim. unfold ziplistDeleteRange.
  rewrite swrap_small by (unfold in_s; lia). rewrite (index_spec zl es) by (done || lia).
  rewrite (proj2 (Z.ltb_ge index 0)), (proj2 (Z.leb_le 0 index)) by lia. cbn [andb]. osimpl.
  destruct (Z.ltb_spec index (zlen es)) as [Hlt|Hge].
  - set (k := Z.to_nat index). rewrite <- (take_drop k es) in Hr.
    destruct (zdelete_spec uninit zl (take k es) (drop k es) num Hr) as (zl' & es2' & E & Hr' & Hv);
      [intros H%(f_equal length); rewrite length_drop in H; cbn in H; lia|done|rewrite length_drop; lia|].
    exists zl', (take k es ++ es2'). split; [exact E|]. split; [done|].
    rewrite texts_app, (texts_vals es2' _ Hv), drop_drop. unfold texts.
    rewrite fmap_take, fmap_drop. do 2 f_equal. lia.
  - exists zl, es. split; [done|]. split; [done|].
    unfold texts. rewrite take_ge, drop_ge, app_nil_r by (rewrite length_fmap; lia). done.
Qed.

(** [ziplistIndex] followed by [ziplistGet] reads the string at an index,
    counted from the back when negative, and finds nothing outside the list. *)
Theorem ziplistIndex_reads zl es index :
  repr zl es -> - 2 ^ 31 < index < 2 ^ 31 ->
  let i := if index <? 0 then zlen es + index else index in
  exists p g, ziplistIndex zl index = Some p /\ ziplistGet zl p = Some g /\
    zget_text <$> g = if 0 <=? i then texts es !! Z.to_nat i else None.
Proof.
  intros Hr Hi i. rewrite (index_spec zl es index Hr Hi). fold i. unfold texts.
  destruct (Z.leb_spec 0 i) as [H0|H0]; cbn [andb]; [|by exists None, None].
  destruct (Z.ltb_spec i (zlen es)) as [Hlt|Hge].
  - destruct (lookup_lt_is_Some_2 es (Z.to_nat i) ltac:(lia)) as [e He].
    destruct (take_S_lookup es (Z.to_nat i) e He) as [_ Hd].
    pose proof Hr as Hr'. rewrite <- (take_drop (Z.to_nat i) es), Hd in Hr'.
    destruct (get_spec zl _ e _ Hr') as (g & Hg & Ht).
    exists (Some (10 + total (take (Z.to_nat i) es))), (Some g). split; [done|]. split; [done|].
    rewrite list_lookup_fmap, He. cbn. by rewrite Ht.
  - exists None, None. split; [done|]. split; [done|].
    rewrite lookup_ge_None_2; [done|]. rewrite length_fmap. lia.
Qed.

(** [ziplistFind] returns the first entry equal to the string among every
    [skip + 1]-th one, and NULL exactly when there is none. *)
Theorem ziplistFind_refines zl es s skip :
  repr zl es -> 0 <= skip < 2 ^ 31 ->
  exists r, ziplistFind zl ZIPLIST_ENTRY_HEAD s (zlen s) skip =
      Some ((fun i => 10 + total (take i es)) <$> r) /\
    match r with
    | Some i => texts es !! i = Some s /\ (exists m, i = m * S (Z.to_nat skip))%nat /\
        forall j, (j < i)%nat -> (exists m, j = m * S (Z.to_nat skip))%nat -> texts es !! j <> Some s
    | None => forall m, texts es !! (m * S (Z.to_nat skip))%nat <> Some s
    end.
Proof.
  intros Hr Hs. exists (find_from (Z.to_nat skip) 0 s es).
  split; [exact (find_spec zl [] es s skip Hr Hs)|].
  destruct (find_from (Z.to_nat skip) 0 s es) as [i|] eqn:E.
  - exact (find_from_Some _ _ _ _ _ E).
  - exact (find_from_None _ _ _ _ E).
Qed.

(** From every entry [ziplistNext] reaches the following one and [ziplistPrev]
    comes back; both stop at the ends, and the tail is reached from the end. *)
Theorem ziplist_walk zl es1 e es2 :
  repr zl (es1 ++ e :: es2) ->
  ziplistNext zl (10 + total es1) = Some (if es2 is [] then None else Some (10 + total (es1 ++ [e]))) /\
  ziplistPrev zl (10 + total (es1 ++ [e])) = Some (Some (10 + total es1)) /\
  ziplistPrev zl ZIPLIST_ENTRY_HEAD = Some None /\
  ziplistNext zl (10 + total (es1 ++ e :: es2)) = Some None.
Proof.
  intros Hr. destruct (prev_spec zl es1 e es2 Hr) as [H1 H2].
  split; [by apply next_spec|]. split; [exact H1|]. split; [|by apply next_end].
  change ZIPLIST_ENTRY_HEAD with (10 + total []). rewrite H2. by destruct es1.
Qed.

(** [ziplistCompare] is equality with the string of the entry. *)
Theorem ziplistCompare_exact zl es1 e es2 s :
  repr zl (es1 ++ e :: es2) ->
  ziplistCompare zl (10 + total es1) s (zlen s) = Some (bool_decide (text (val e) = s)).
Proof. apply zcompare_spec. Qed.

(** [ziplistLen] is the number of entries even when the 16-bit count is not,
    and [ziplistBlobLen] is the size of the block. *)
Theorem ziplistLen_counts zl es :
  repr zl es ->
  (exists zl', ziplistLen zl = Some (zlen es, zl') /\ repr zl' es) /\ ziplistBlobLen zl = Some (zlen zl).
Proof.
  intros Hr. split; [by apply len_spec|]. destruct Hr as (l & -> & _ & Ht & _).
  unfold ziplistBlobLen. by rewrite layout_bytes, layout_length.
Qed.
End Claims.

(** ** A ziplist whose second entry keeps a five-byte length field that one
    byte would hold: deleting the first of three entries shrinks the second
    below 254 bytes, and the cascade leaves the field of the third alone. *)
Definition shrunk_ents : list ent :=
  [Ent false (VStr (replicate 247 98)); Ent true (VStr [99; 99])].

Definition build_shrunk (uninit : nat -> Z) : option (list Z) :=
  zl ← ziplistNew uninit;
  zl ← ziplistPush uninit zl (replicate 300 97) 300 ZIPLIST_TAIL;
  zl ← ziplistPush uninit zl (replicate 247 98) 247 ZIPLIST_TAIL;
  zl ← ziplistPush uninit zl [99; 99] 2 ZIPLIST_TAIL;
  fst <$> ziplistDelete uninit zl ZIPLIST_ENTRY_HEAD.

Lemma shrunk_repr : repr (layout 2 shrunk_ents) shrunk_ents.
Proof.
  exists 2. split; [done|]. split; [|split; [by vm_compute|by right]].
  cbn [shrunk_ents wf]. unfold pfits. cbn [big val].
  assert (forall n, Forall is_byte (replicate n 98)) as Hr
    by (intros n; apply Forall_replicate; unfold is_byte; lia).
  split_and!; try by vm_compute.
  - split; [apply Hr|by vm_compute].
  - split; [repeat constructor; unfold is_byte; lia|by vm_compute].
Qed.

(** C25: Inserting a short string in front of such an entry resizes the block
    below its old contents before they are moved, and then moves bytes from
    outside it: the insertion has no defined result. *)
Theorem ziplistInsert_overruns uninit :
  exists zl p, build_shrunk uninit = Some zl /\ repr zl shrunk_ents /\
    ziplistIndex zl 1 = Some (Some p) /\ ziplistInsert uninit zl p [53] 1 = None.
Proof.
  exists (layout 2 shrunk_ents), 260. split; [by vm_compute|]. split; [exact shrunk_repr|].
  split; by vm_compute.
Qed.

(** ** Witnesses *)
Definition demo : list ent := [Ent false (VStr [97]); Ent false (VInt 253 12); Ent false (VStr [97])].

Lemma demo_repr : repr (layout 3 demo) demo.
Proof.
  exists 3. split; [done|]. split; [|split; [by vm_compute|by right]].
  cbn [demo wf]. unfold pfits. cbn [big val val_ok].
  split_and!; try by vm_compute.
  - repeat constructor; unfold is_byte; lia.
  - left. by vm_compute.
  - repeat constructor; unfold is_byte; lia.
Qed.

Lemma ziplistInsert_refines_witness :
  exists zl' es', ziplistInsert (fun _ => 0) (layout 3 demo) 13 [45; 49] 2 = Some zl' /\
    repr zl' es' /\ texts es' = [[97]; [45; 49]; [49; 50]; [97]].
Proof.
  apply (ziplistInsert_refines (fun _ => 0) (layout 3 demo) (take 1 demo) (drop 1 demo) [45; 49] demo_repr).
  - repeat constructor; unfold is_byte; lia.
  - by vm_compute.
  - by vm_compute.
Defined.

Lemma ziplistPush_appends_witness :
  exists zl' es', ziplistPush (fun _ => 0) (layout 3 demo) [98] 1 ZIPLIST_TAIL = Some zl' /\
    repr zl' es' /\ texts es' = [[97]; [49; 50]; [97]; [98]].
Proof.
  apply (ziplistPush_appends (fun _ => 0) (layout 3 demo) demo [98] demo_repr).
  - repeat constructor; unfold is_byte; lia.
  - by vm_compute.
Defined.

Lemma ziplistDelete_refines_witness :
  exists zl' es2', ziplistDelete (fun _ => 0) (layout 3 demo) 13 = Some (zl', 13) /\
    repr zl' (take 1 demo ++ es2') /\ texts es2' = [[97]].
Proof.
  apply (ziplistDelete_refines (fun _ => 0) (layout 3 demo) (take 1 demo) (Ent false (VInt 253 12))
    (drop 2 demo) demo_repr).
  by vm_compute.
Defined.

Lemma ziplistDeleteRange_refines_witness :
  exists zl' es', ziplistDeleteRange (fun _ => 0) (layout 3 demo) 1 5 = Some zl' /\ repr zl' es' /\
    texts es' = [[97]].
Proof.
  apply (ziplistDeleteRange_refines (fun _ => 0) (layout 3 demo) demo 1 5 demo_repr); [lia|lia|by vm_compute].
Defined.

Lemma ziplistIndex_reads_witness :
  exists p g, ziplistIndex (layout 3 demo) (-2) = Some p /\ ziplistGet (layout 3 demo) p = Some g /\
    zget_text <$> g = Some [49; 50].
Proof. apply (ziplistIndex_reads (layout 3 demo) demo (-2) demo_repr). lia. Defined.

Lemma ziplistFind_refines_witness :
  exists r, ziplistFind (layout 3 demo) 10 [97] 1 1 = Some ((fun i => 10 + total (take i demo)) <$> r) /\
    match r with
    | Some i => texts demo !! i = Some [97] /\ (exists m, i = m * 2)%nat /\
        forall j, (j < i)%nat -> (exists m, j = m * 2)%nat -> texts demo !! j <> Some [97]
    | None => forall m, texts demo !! (m * 2)%nat <> Some [97]
    end.
Proof. apply (ziplistFind_refines (layout 3 demo) demo [97] 1 demo_repr). lia. Defined.

Lemma ziplist_walk_witness :
  ziplistNext (layout 3 demo) 13 = Some (Some 15) /\ ziplistPrev (layout 3 demo) 15 = Some (Some 13) /\
  ziplistPrev (layout 3 demo) 10 = Some None /\ ziplistNext (layout 3 demo) 18 = Some None.
Proof.
  apply (ziplist_walk (layout 3 demo) (take 1 demo) (Ent false (VInt 253 12)) (drop 2 demo) demo_repr).
Defined.

Lemma ziplistCompare_exact_witness :
  ziplistCompare (layout 3 demo) 13 [49; 50] 2 = Some true.
Proof.
  apply (ziplistCompare_exact (layout 3 demo) (take 1 demo) (Ent false (VInt 253 12)) (drop 2 demo)
    [49; 50] demo_repr).
Defined.

Lemma ziplistLen_counts_witness :
  (exists zl', ziplistLen (layout 65535 demo) = Some (3, zl') /\ repr zl' demo) /\
  ziplistBlobLen (layout 65535 demo) = Some 19.
Proof.
  apply (ziplistLen_counts (layout 65535 demo) demo).
  destruct demo_repr as (l & _ & Hw & Ht & _). exists 65535.
  split; [reflexivity|]. split; [exact Hw|]. split; [exact Ht|left; reflexivity].
Defined.

End Ziplist.
