(* ===== verification/Request.v ===== *)
(** * Requests of clients (src/redis-2.8/src/networking.c)

    The bytes that arrive from a client are appended to its query buffer, and
    the parser takes requests off its front: multi bulk requests, whose
    arguments are counted and measured, or lines of text. A request may arrive
    in any number of pieces; what has been read of it is kept in the client.
    The text of an error reply is a constructor of [proto_error]; logging has
    no effect on the state. [processCommand] is a parameter of the loop that
    runs the requests, any function that keeps what the parser keeps in the
    client ([runs_commands]); [Server] shows that the one of [Multi] does. *)
From stdpp Require Import base tactics list numbers option relations.
From Stdlib Require Import ZArith Lia.
From S2P Require Import Prelude Util Sds SdsText Object.
Import CInt CMem Bytes Util Sds SdsText Object.
Open Scope redis_scope.
Open Scope Z_scope.

Module Request.

Definition REDIS_MAX_QUERYBUF_LEN : Z := 1024 * 1024 * 1024.
Definition REDIS_IOBUF_LEN : Z := 1024 * 16.
Definition REDIS_INLINE_MAX_SIZE : Z := 1024 * 64.
Definition REDIS_MBULK_BIG_ARG : Z := 1024 * 32.
Definition REDIS_SLAVE : Z := 1.
Definition REDIS_MASTER : Z := 2.
Definition REDIS_MULTI : Z := 8.
Definition REDIS_BLOCKED : Z := 16.
Definition REDIS_CLOSE_AFTER_REPLY : Z := 64.
Definition REDIS_ASKING : Z := 512.
Definition REDIS_REQ_INLINE : Z := 1.
Definition REDIS_REQ_MULTIBULK : Z := 2.

Definition c_star : Z := 42.
Definition c_dollar : Z := 36.
Definition c_cr : Z := 13.
Definition c_lf : Z := 10.

Inductive proto_error :=
  | TooBigInline | UnbalancedQuotes | TooBigMbulkCount | InvalidMultibulkLength
  | TooBigBulkCount | ExpectedDollar (got : Z) | InvalidBulkLength.

(** The fields of [redisClient] that the parser uses. [argv] holds the
    [c->argc] arguments read so far and [argv_size] is the number of slots of
    the array they are stored in. *)
Record client := Client {
  querybuf : sdshdr; argv : list robj; argv_size : Z;
  reqtype : Z; multibulklen : Z; bulklen : Z; flags : Z;
  repl_ack_time : Z; errors : list proto_error;
  querybuf_peak : Z; lastinteraction : Z; reploff : Z }.

Definition argc (c : client) : Z := zlen (argv c).

Definition with_querybuf c q :=
  Client q (argv c) (argv_size c) (reqtype c) (multibulklen c) (bulklen c) (flags c)
    (repl_ack_time c) (errors c) (querybuf_peak c) (lastinteraction c) (reploff c).
Definition with_argv c a n :=
  Client (querybuf c) a n (reqtype c) (multibulklen c) (bulklen c) (flags c)
    (repl_ack_time c) (errors c) (querybuf_peak c) (lastinteraction c) (reploff c).
Definition with_reqtype c t :=
  Client (querybuf c) (argv c) (argv_size c) t (multibulklen c) (bulklen c) (flags c)
    (repl_ack_time c) (errors c) (querybuf_peak c) (lastinteraction c) (reploff c).
Definition with_multibulklen c n :=
  Client (querybuf c) (argv c) (argv_size c) (reqtype c) n (bulklen c) (flags c)
    (repl_ack_time c) (errors c) (querybuf_peak c) (lastinteraction c) (reploff c).
Definition with_bulklen c n :=
  Client (querybuf c) (argv c) (argv_size c) (reqtype c) (multibulklen c) n (flags c)
    (repl_ack_time c) (errors c) (querybuf_peak c) (lastinteraction c) (reploff c).
Definition with_flags c n :=
  Client (querybuf c) (argv c) (argv_size c) (reqtype c) (multibulklen c) (bulklen c) n
    (repl_ack_time c) (errors c) (querybuf_peak c) (lastinteraction c) (reploff c).
Definition with_repl_ack_time c t :=
  Client (querybuf c) (argv c) (argv_size c) (reqtype c) (multibulklen c) (bulklen c) (flags c)
    t (errors c) (querybuf_peak c) (lastinteraction c) (reploff c).
Definition with_querybuf_peak c n :=
  Client (querybuf c) (argv c) (argv_size c) (reqtype c) (multibulklen c) (bulklen c) (flags c)
    (repl_ack_time c) (errors c) n (lastinteraction c) (reploff c).
Definition with_lastinteraction c t :=
  Client (querybuf c) (argv c) (argv_size c) (reqtype c) (multibulklen c) (bulklen c) (flags c)
    (repl_ack_time c) (errors c) (querybuf_peak c) t (reploff c).
Definition with_reploff c n :=
  Client (querybuf c) (argv c) (argv_size c) (reqtype c) (multibulklen c) (bulklen c) (flags c)
    (repl_ack_time c) (errors c) (querybuf_peak c) (lastinteraction c) n.

Definition addReplyError c e :=
  Client (querybuf c) (argv c) (argv_size c) (reqtype c) (multibulklen c) (bulklen c) (flags c)
    (repl_ack_time c) (errors c ++ [e]) (querybuf_peak c) (lastinteraction c) (reploff c).

(** [c->argv[c->argc++] = o], inside the array. *)
Definition push_arg c (o : robj) : option client :=
  if argc c <? argv_size c then Some (with_argv c (argv c ++ [o]) (argv_size c)) else None.

(** [strchr(b+i,ch)] as an offset in [b]; the inner [None] is NULL. *)
Fixpoint strchr_from (fuel : nat) (b : list Z) (i ch : Z) : option (option Z) :=
  match fuel with
  | O => None
  | S fuel =>
      x ← rd b i;
      if x =? ch then Some (Some i)
      else if x =? 0 then Some None
      else strchr_from fuel b (i + 1) ch
  end.

Definition strchr_at (b : list Z) (i ch : Z) : option (option Z) := strchr_from (length b) b i ch.

Definition setProtocolError c (pos : Z) : option client :=
  let c := with_flags c (Z.lor (flags c) REDIS_CLOSE_AFTER_REPLY) in
  q ← sdsrange (querybuf c) pos (-1);
  Some (with_querybuf c q).

(** The arguments are released; the array stays allocated. *)
Definition freeClientArgv c : client := with_argv c [] (argv_size c).

Definition resetClient c : client :=
  let c := freeClientArgv c in
  let c := with_bulklen (with_multibulklen (with_reqtype c 0) 0) (-1) in
  if Z.land (flags c) REDIS_MULTI =? 0
  then with_flags c (Z.ldiff (flags c) REDIS_ASKING) else c.

Section Parser.
Context (uninit : nat -> Z).

(** [for (c->argc = 0, j = 0; j < argc; j++)]: empty arguments are dropped. *)
Fixpoint inline_args c (args : list sdshdr) : option client :=
  match args with
  | [] => Some c
  | a :: args =>
      if negb (sdslen a =? 0) then
        c ← push_arg c (createObject (ENC_RAW a)); inline_args c args
      else inline_args c args
  end.

(** The flag is the result: [true] for [REDIS_OK]. *)
Definition processInlineBuffer (unixtime : Z) c : option (client * bool) :=
  newline ← strchr_at (buf (querybuf c)) 0 c_lf;
  match newline with
  | None =>
      if REDIS_INLINE_MAX_SIZE <? sdslen (querybuf c) then
        c ← setProtocolError (addReplyError c TooBigInline) 0; Some (c, false)
      else Some (c, false)
  | Some newline =>
      newline ← (if negb (newline =? 0) then
                   b ← rd (buf (querybuf c)) (newline - 1);
                   Some (if b =? c_cr then newline - 1 else newline)
                 else Some newline);
      let querylen := newline in
      aux ← sdsnewlen uninit (Some (buf (querybuf c))) querylen;
      args ← sdssplitargs uninit (buf aux);
      match args with
      | None =>
          c ← setProtocolError (addReplyError c UnbalancedQuotes) 0; Some (c, false)
      | Some args =>
          let c := if (querylen =? 0) && negb (Z.land (flags c) REDIS_SLAVE =? 0)
                   then with_repl_ack_time c unixtime else c in
          q ← sdsrange (querybuf c) (int32 (querylen + 2)) (-1);
          let c := with_querybuf c q in
          let c := with_argv c [] (zlen args) in
          c ← inline_args c args;
          Some (c, true)
      end
  end.

(** How a step of the parser leaves the loop: with [return REDIS_ERR], with
    [break], or going on at a position. *)
Inductive outcome := Return (c : client) | Break (c : client) (pos : Z) | Go (c : client) (pos : Z).

(** The block [if (c->bulklen == -1)]. *)
Definition read_bulklen c (pos : Z) : option outcome :=
  if negb (bulklen c =? -1) then Some (Go c pos)
  else
    newline ← strchr_at (buf (querybuf c)) pos c_cr;
    match newline with
    | None =>
        if REDIS_INLINE_MAX_SIZE <? sdslen (querybuf c) then
          c ← setProtocolError (addReplyError c TooBigBulkCount) 0; Some (Return c)
        else Some (Break c pos)
    | Some newline =>
        if int32 (sdslen (querybuf c)) - 2 <? newline then Some (Break c pos)
        else
          b ← rd (buf (querybuf c)) pos;
          if negb (b =? c_dollar) then
            c ← setProtocolError (addReplyError c (ExpectedDollar b)) pos; Some (Return c)
          else
            digits ← rdn (buf (querybuf c)) (pos + 1) (newline - (pos + 1));
            ll ← string2ll digits (newline - (pos + 1));
            match ll with
            | Some ll =>
                if (ll <? 0) || (512 * 1024 * 1024 <? ll) then
                  c ← setProtocolError (addReplyError c InvalidBulkLength) pos; Some (Return c)
                else
                  let pos := pos + int32 (newline - pos + 2) in
                  '(c, pos) ←
                    (if REDIS_MBULK_BIG_ARG <=? ll then
                       q ← sdsrange (querybuf c) pos (-1);
                       let qblen := sdslen q in
                       let q := if qblen <? ll + 2 then sdsMakeRoomFor uninit q (ll + 2 - qblen) else q in
                       Some (with_querybuf c q, 0)
                     else Some (c, pos));
                  Some (Go (with_bulklen c ll) pos)
            | None =>
                c ← setProtocolError (addReplyError c InvalidBulkLength) pos; Some (Return c)
            end
    end.

(** The block [/* Read bulk argument */]. *)
Definition read_bulk c (pos : Z) : option outcome :=
  if uint64 (sdslen (querybuf c) - pos) <? uint32 (bulklen c + 2) then Some (Break c pos)
  else
    '(c, pos) ←
      (if (pos =? 0) && (REDIS_MBULK_BIG_ARG <=? bulklen c)
          && (int32 (sdslen (querybuf c)) =? bulklen c + 2) then
         s ← sdsIncrLen (querybuf c) (-2);
         c ← push_arg c (createObject (ENC_RAW s));
         q ← sdsempty uninit;
         let q := sdsMakeRoomFor uninit q (bulklen c + 2) in
         Some (with_querybuf c q, 0)
       else
         o ← createStringObject uninit (drop (Z.to_nat pos) (buf (querybuf c))) (bulklen c);
         c ← push_arg c o;
         Some (c, pos + (bulklen c + 2)));
    Some (Go (with_multibulklen (with_bulklen c (-1)) (multibulklen c - 1)) pos).

(** [while(c->multibulklen)]: a round that goes on has read one argument. *)
Fixpoint bulk_loop (n : nat) c (pos : Z) : option outcome :=
  match n with
  | O => Some (Break c pos)
  | S n =>
      r ← read_bulklen c pos;
      match r with
      | Go c pos =>
          r ← read_bulk c pos;
          match r with Go c pos => bulk_loop n c pos | _ => Some r end
      | _ => Some r
      end
  end.

(** The block [if (c->multibulklen == 0)]; [Break] is [return REDIS_OK]. *)
Definition read_multibulklen c : option outcome :=
  if negb (multibulklen c =? 0) then Some (Go c 0)
  else if negb (argc c =? 0) then None
  else
    newline ← strchr_at (buf (querybuf c)) 0 c_cr;
    match newline with
    | None =>
        if REDIS_INLINE_MAX_SIZE <? sdslen (querybuf c) then
          c ← setProtocolError (addReplyError c TooBigMbulkCount) 0; Some (Return c)
        else Some (Return c)
    | Some newline =>
        if int32 (sdslen (querybuf c)) - 2 <? newline then Some (Return c)
        else
          b ← rd (buf (querybuf c)) 0;
          if negb (b =? c_star) then None
          else
            digits ← rdn (buf (querybuf c)) 1 (newline - 1);
            ll ← string2ll digits (newline - 1);
            match ll with
            | Some ll =>
                if 1024 * 1024 <? ll then
                  c ← setProtocolError (addReplyError c InvalidMultibulkLength) 0; Some (Return c)
                else
                  let pos := int32 (newline + 2) in
                  if ll <=? 0 then
                    q ← sdsrange (querybuf c) pos (-1); Some (Break (with_querybuf c q) 0)
                  else Some (Go (with_argv (with_multibulklen c (int32 ll)) (argv c) ll) pos)
            | None =>
                c ← setProtocolError (addReplyError c InvalidMultibulkLength) 0; Some (Return c)
            end
    end.

Definition processMultibulkBuffer c : option (client * bool) :=
  r ← read_multibulklen c;
  match r with
  | Return c => Some (c, false)
  | Break c _ => Some (c, true)
  | Go c pos =>
      if multibulklen c <=? 0 then None
      else
        r ← bulk_loop (Z.to_nat (multibulklen c)) c pos;
        match r with
        | Return c => Some (c, false)
        | Break c pos | Go c pos =>
            c ← (if negb (pos =? 0) then
                   q ← sdsrange (querybuf c) pos (-1); Some (with_querybuf c q)
                 else Some c);
            Some (c, multibulklen c =? 0)
        end
  end.

(** ** The loop over the requests in the buffer *)
Section Loop.
Context {W : Type} (unixtime : Z).
(** The result is [true] for [REDIS_OK]. *)
Context (processCommand : client -> W -> option (client * W * bool)).

Fixpoint input_loop (fuel : nat) c (w : W) : option (client * W) :=
  match fuel with
  | O => None
  | S fuel =>
      if sdslen (querybuf c) =? 0 then Some (c, w)
      else if negb (Z.land (flags c) REDIS_BLOCKED =? 0) then Some (c, w)
      else if negb (Z.land (flags c) REDIS_CLOSE_AFTER_REPLY =? 0) then Some (c, w)
      else
        b ← rd (buf (querybuf c)) 0;
        let c := if reqtype c =? 0
                 then with_reqtype c (if b =? c_star then REDIS_REQ_MULTIBULK else REDIS_REQ_INLINE)
                 else c in
        '(c, ok) ← (if reqtype c =? REDIS_REQ_INLINE then processInlineBuffer unixtime c
                    else if reqtype c =? REDIS_REQ_MULTIBULK then processMultibulkBuffer c
                    else None);
        if negb ok then Some (c, w)
        else if argc c =? 0 then input_loop fuel (resetClient c) w
        else
          '(c, w, ok) ← processCommand c w;
          input_loop fuel (if ok : bool then resetClient c else c) w
  end.

(** Every request takes at least one byte off the buffer. *)
Definition processInputBuffer c (w : W) : option (client * W) :=
  input_loop (S (Z.to_nat (sdslen (querybuf c)))) c w.

(** What [read] answers: bytes, none at the end of the stream, or an error. *)
Inductive read_result := ReadBytes (bs : list Z) | ReadAgain | ReadFailed.

Definition readlen c : Z :=
  if (reqtype c =? REDIS_REQ_MULTIBULK) && negb (multibulklen c =? 0) && negb (bulklen c =? -1)
     && (REDIS_MBULK_BIG_ARG <=? bulklen c)
  then
    let remaining := int32 (uint32 (bulklen c + 2) - sdslen (querybuf c)) in
    if remaining <? REDIS_IOBUF_LEN then remaining else REDIS_IOBUF_LEN
  else REDIS_IOBUF_LEN.

(** The inner [None] is a freed client. *)
Definition readQueryFromClient (client_max_querybuf_len : Z) (read : Z -> read_result) c (w : W)
  : option (option (client * W)) :=
  let readlen := readlen c in
  let qblen := sdslen (querybuf c) in
  let c := with_querybuf_peak c (if querybuf_peak c <? qblen then qblen else querybuf_peak c) in
  let q := sdsMakeRoomFor uninit (querybuf c) readlen in
  match read readlen with
  | ReadFailed | ReadBytes [] => Some None
  | ReadAgain => Some (Some (with_querybuf c q, w))
  | ReadBytes bs =>
      b ← wrn (buf q) qblen bs;
      q ← sdsIncrLen (Sdshdr (len q) (free q) b) (zlen bs);
      let c := with_lastinteraction (with_querybuf c q) unixtime in
      let c := with_reploff c (if negb (Z.land (flags c) REDIS_MASTER =? 0)
                               then reploff c + zlen bs else reploff c) in
      if client_max_querybuf_len <? sdslen (querybuf c) then Some None
      else Some <$> processInputBuffer c w
  end.
End Loop.
End Parser.

(** ** Searching the buffer *)
Fixpoint cstr_index (ch : Z) (l : list Z) : option nat :=
  match l with
  | [] => None
  | x :: l => if x =? ch then Some 0%nat else if x =? 0 then None else S <$> cstr_index ch l
  end.

Lemma strchr_from_spec ch l : forall pre t fuel,
  ch <> 0 -> (length l < fuel)%nat ->
  strchr_from fuel (pre ++ l ++ 0 :: t) (zlen pre) ch =
    Some ((fun i => zlen pre + Z.of_nat i) <$> cstr_index ch l).
Proof.
  induction l as [|x l IH]; intros pre t [|fuel] Hch Hf; try (cbn [length] in Hf; lia); cbn [strchr_from].
  - cbn [app]. rewrite rd_app by done. osimpl. rewrite (proj2 (Z.eqb_neq _ _)) by done. done.
  - cbn [app]. rewrite rd_app by done. osimpl. cbn [cstr_index].
    destruct (x =? ch); [cbn; by rewrite Z.add_0_r|]. destruct (x =? 0); [done|].
    rewrite app_cons_mid. replace (zlen pre + 1) with (zlen (pre ++ [x])) by zsize.
    rewrite IH by (done || (cbn [length] in Hf; lia)). f_equal.
    destruct (cstr_index ch l); [|done]. cbn. f_equal. zsize.
Qed.

Lemma strchr_at_spec ch l t pos :
  ch <> 0 -> 0 <= pos <= zlen l ->
  strchr_at (l ++ 0 :: t) pos ch =
    Some ((fun i => pos + Z.of_nat i) <$> cstr_index ch (drop (Z.to_nat pos) l)).
Proof.
  intros Hch Hp. unfold strchr_at.
  assert (zlen (take (Z.to_nat pos) l) = pos) as Hl by (rewrite length_take; lia).
  pose proof (strchr_from_spec ch (drop (Z.to_nat pos) l) (take (Z.to_nat pos) l) t
    (length (l ++ 0 :: t)) Hch) as E. rewrite Hl, app_assoc, take_drop in E. apply E.
  rewrite length_drop, length_app. cbn [length]. lia.
Qed.

Definition plain (ch : Z) (l : list Z) : Prop := Forall (fun x => x <> ch /\ x <> 0) l.

Lemma cstr_index_found ch l r : plain ch l -> cstr_index ch (l ++ ch :: r) = Some (length l).
Proof.
  induction 1 as [|x l [H1 H2] _ IH]; cbn [app cstr_index]; [by rewrite Z.eqb_refl|].
  rewrite (proj2 (Z.eqb_neq x ch)), (proj2 (Z.eqb_neq x 0)), IH by done. done.
Qed.

Lemma cstr_index_none ch l : plain ch l -> cstr_index ch l = None.
Proof.
  induction 1 as [|x l [H1 H2] _ IH]; cbn [cstr_index]; [done|].
  rewrite (proj2 (Z.eqb_neq x ch)), (proj2 (Z.eqb_neq x 0)), IH by done. done.
Qed.

Lemma cstr_index_lt ch l i : cstr_index ch l = Some i -> (i < length l)%nat /\ l !! i = Some ch.
Proof.
  revert i. induction l as [|x l IH]; intros i; cbn [cstr_index length]; [done|].
  destruct (Z.eqb_spec x ch) as [->|]; [intros [= <-]; split; [lia|done]|].
  destruct (x =? 0); [done|]. destruct (cstr_index ch l) as [j|]; [|done]. intros [= <-].
  destruct (IH j eq_refl). split; [lia|done].
Qed.

Lemma cstr_index_prefix ch l i : cstr_index ch l = Some i -> Forall (fun x => x <> 0) (take i l).
Proof.
  revert i. induction l as [|x l IH]; intros i; cbn [cstr_index]; [done|].
  destruct (x =? ch); [intros [= <-]; constructor|].
  destruct (Z.eqb_spec x 0); [done|]. destruct (cstr_index ch l) as [j|]; [|done]. intros [= <-].
  cbn [take]. constructor; [done|]. by apply IH.
Qed.

Lemma slice_drop l pos : 0 <= pos -> slice l pos (-1) = drop (Z.to_nat pos) l.
Proof.
  intros Hp. unfold slice, index_of. rewrite (proj2 (Z.ltb_ge pos 0)) by lia. ctests.
  f_equal. apply take_ge. destruct l; cbn [length]; lia.
Qed.

Lemma range_drop s l pos :
  repr s l -> 0 <= pos -> exists s', sdsrange s pos (-1) = Some s' /\ repr s' (drop (Z.to_nat pos) l).
Proof.
  intros Hr Hp. destruct (range_spec s l pos (-1) Hr) as (s' & E & Hr'). rewrite slice_drop in Hr' by done.
  eauto.
Qed.

(** ** The multi bulk format *)
Definition crlf : list Z := [c_cr; c_lf].
Definition bulk_header (n : Z) : list Z := c_dollar :: dec n ++ crlf.
Definition bulk (a : list Z) : list Z := bulk_header (zlen a) ++ a ++ crlf.
Definition bulks (args : list (list Z)) : list Z := args ≫= bulk.
Definition count_header (n : Z) : list Z := c_star :: dec n ++ crlf.
Definition request (args : list (list Z)) : list Z := count_header (zlen args) ++ bulks args.

Definition arg_ok (a : list Z) : Prop := zlen a <= 512 * 1024 * 1024.

Lemma bulks_cons a args : bulks (a :: args) = bulk_header (zlen a) ++ a ++ crlf ++ bulks args.
Proof. unfold bulks, bulk. rewrite bind_cons. by rewrite <- !app_assoc. Qed.

Lemma bulk_header_size n : zlen (bulk_header n) = zlen (dec n) + 3.
Proof. unfold bulk_header, crlf. cbn [length]. rewrite length_app. cbn [length]. lia. Qed.

Lemma dec_plain v : plain c_cr (dec v).
Proof.
  unfold plain, dec, c_cr, c_minus.
  destruct (Z.ltb_spec v 0); [constructor; [lia|]|];
    (eapply Forall_impl; [apply udec_digits; lia|]); unfold digit; lia.
Qed.

Lemma dec_ll v : in_s 64 v -> string2ll (dec v) (zlen (dec v)) = Some (Some v).
Proof.
  intros Hv. destruct (string2ll_spec (dec v)) as (r & -> & Hr). f_equal. by apply Hr.
Qed.

(** A line that is complete, or cut before its end. *)
Lemma header_cut hd cur f tl n ch :
  hd = ch :: dec n ++ crlf -> plain c_cr [ch] -> cur ++ f = hd ++ tl ->
  (exists cur', cur = hd ++ cur' /\ cur' ++ f = tl) \/
  (zlen cur < zlen hd /\
   (plain c_cr cur \/ cur = ch :: dec n ++ [c_cr])).
Proof.
  intros -> Hch E. apply app_eq_inv in E as [(k & -> & ->)|(k & E & ->)]; [left; eauto|].
  destruct k as [|x k _] using rev_ind.
  { left. exists []. rewrite app_nil_r in E. by rewrite <- E, app_nil_r. }
  right. assert (plain c_cr (ch :: dec n)) as Hp by (apply (Forall_app_2 _ [ch]); [done|apply dec_plain]).
  split; [rewrite E, !length_app; cbn [length]; lia|].
  assert (ch :: dec n ++ [c_cr] = cur ++ k /\ c_lf = x) as [E' _].
  { apply app_inj_tail. rewrite <- app_assoc, <- E. unfold crlf. cbn [app]. by rewrite <- app_assoc. }
  destruct k as [|y k _] using rev_ind; [right; by rewrite app_nil_r in E'|].
  left. assert (ch :: dec n = cur ++ k /\ c_cr = y) as [E'' _].
  { apply app_inj_tail. rewrite <- app_assoc, <- E'. done. }
  rewrite E'' in Hp. by apply Forall_app in Hp as [? _].
Qed.

Definition small c pos (l : list Z) : Prop :=
  zlen l <= REDIS_INLINE_MAX_SIZE \/
  (REDIS_MBULK_BIG_ARG <= bulklen c /\ pos = 0 /\ zlen l <= bulklen c + 2).

Lemma repr_parts s l : repr s l -> exists t, sdslen s = zlen l /\ buf s = l ++ 0 :: t /\ zlen l + zlen t < 2 ^ 31.
Proof. intros (t & -> & Ht). by exists t. Qed.

Section Valid.
Context (uninit : nat -> Z).

Lemma read_bulklen_spec c before cur f n tl :
  repr (querybuf c) (before ++ cur) -> bulklen c = -1 -> 0 <= n <= 512 * 1024 * 1024 ->
  cur ++ f = bulk_header n ++ tl -> zlen (before ++ cur) <= REDIS_INLINE_MAX_SIZE ->
  (exists cur' q before', cur = bulk_header n ++ cur' /\ cur' ++ f = tl /\
    read_bulklen uninit c (zlen before) =
      Some (Go (with_bulklen (with_querybuf c q) n) (zlen before')) /\
    repr q (before' ++ cur') /\ zlen (before' ++ cur') <= REDIS_INLINE_MAX_SIZE /\
    (REDIS_MBULK_BIG_ARG <= n -> before' = [])) \/
  (zlen cur < zlen (bulk_header n) /\ read_bulklen uninit c (zlen before) = Some (Break c (zlen before))).
Proof.
  intros Hr Hb Hn E Hsz. destruct (repr_parts _ _ Hr) as (t & Hlen & Hbuf & Ht).
  unfold read_bulklen. rewrite Hb. ctests. rewrite Hbuf, !Hlen. rewrite strchr_at_spec by (done || (rewrite length_app; lia)).
  rewrite Nat2Z.id, drop_app_length. unfold REDIS_INLINE_MAX_SIZE in Hsz.
  rewrite swrap_small by (unfold in_s; lia).
  destruct (header_cut (bulk_header n) cur f tl n c_dollar eq_refl) as [(cur' & -> & E')|[Hlt Hcut]];
    [by repeat constructor|done| |].
  - left. assert (bulk_header n ++ cur' = (c_dollar :: dec n) ++ c_cr :: c_lf :: cur') as Eh
      by (unfold bulk_header, crlf; cbn [app]; by rewrite <- app_assoc).
    assert (plain c_cr (c_dollar :: dec n)) as Hp by (constructor; [done|apply dec_plain]).
    rewrite Eh in Hr, Hsz, Ht |- *. rewrite cstr_index_found by done. osimpl. cbn [length].
    rewrite !length_app in Hsz. cbn [length] in Hsz. rewrite !length_app. cbn [length].
    rewrite (proj2 (Z.ltb_ge _ _)) by lia. rewrite <- !app_assoc. cbn [app].
    rewrite rd_app by done. osimpl. ctests.
    replace (zlen before + Z.of_nat (S (length (dec n))) - (zlen before + 1)) with (zlen (dec n)) by lia.
    rewrite (app_cons_mid before c_dollar), rdn_app by zsize. osimpl.
    rewrite dec_ll by (unfold in_s; lia). osimpl.
    rewrite (proj2 (Z.ltb_ge n 0)), (proj2 (Z.ltb_ge _ n)) by lia. cbn [orb].
    rewrite swrap_small by (unfold in_s; lia).
    replace (zlen before + (zlen before + Z.of_nat (S (length (dec n))) - zlen before + 2))
      with (zlen (before ++ bulk_header n)) by (rewrite length_app, Nat2Z.inj_add, bulk_header_size; lia).
    exists cur'. unfold REDIS_MBULK_BIG_ARG. destruct (Z.leb_spec (1024 * 32) n) as [Hbig|Hbig].
    + rewrite <- Eh in *. destruct (range_drop (querybuf c) _ (zlen (before ++ bulk_header n)) Hr) as (s' & -> & Hr'); [lia|].
      osimpl. rewrite app_assoc, Nat2Z.id, drop_app_length in Hr'.
      assert (exists q, (if sdslen s' <? n + 2 then sdsMakeRoomFor uninit s' (n + 2 - sdslen s') else s') = q /\
        repr q cur') as (q & -> & Hq).
      { eexists. split; [done|]. destruct (repr_parts _ _ Hr') as (t' & Hl' & _ & Ht').
        destruct (Z.ltb_spec (sdslen s') (n + 2)); [|done]. rewrite Hl' in *.
        destruct (makeroom_spec uninit _ cur' (n + 2 - zlen cur') Hr') as (t2 & -> & _ & Ht2); [lia|lia|].
        by exists t2. }
      exists q, []. cbn [length app]. split_and!; try done. unfold REDIS_INLINE_MAX_SIZE. lia.
    + osimpl. rewrite <- Eh in Hr.
      exists (querybuf c), (before ++ bulk_header n). split_and!; try done.
      * by rewrite <- app_assoc.
      * rewrite <- app_assoc, Eh, !length_app. cbn [length]. unfold REDIS_INLINE_MAX_SIZE. lia.
      * lia.
  - right. split; [done|]. destruct Hcut as [Hp| ->].
    + rewrite cstr_index_none by done. osimpl.
      rewrite (proj2 (Z.ltb_ge _ (zlen (before ++ cur)))) by (unfold REDIS_INLINE_MAX_SIZE; lia). done.
    + assert (plain c_cr (c_dollar :: dec n)) as Hp by (constructor; [done|apply dec_plain]).
      change (c_dollar :: dec n ++ [c_cr]) with ((c_dollar :: dec n) ++ [c_cr]).
      rewrite cstr_index_found by done. osimpl. rewrite !length_app. cbn [length].
      rewrite (proj2 (Z.ltb_lt _ _)) by lia. done.
Qed.

Definition took c q o :=
  Client q (argv c ++ [o]) (argv_size c) (reqtype c) (multibulklen c - 1) (-1) (flags c)
    (repl_ack_time c) (errors c) (querybuf_peak c) (lastinteraction c) (reploff c).

Lemma read_bulk_spec c before cur f a tl :
  repr (querybuf c) (before ++ cur) -> bulklen c = zlen a -> arg_ok a -> argc c < argv_size c ->
  cur ++ f = a ++ crlf ++ tl -> small c (zlen before) (before ++ cur) ->
  (exists cur' q o before', cur = a ++ crlf ++ cur' /\ cur' ++ f = tl /\
    read_bulk uninit c (zlen before) = Some (Go (took c q o) (zlen before')) /\
    repr q (before' ++ cur') /\ has_text o a /\ zlen (before' ++ cur') <= REDIS_INLINE_MAX_SIZE) \/
  (zlen cur < zlen a + 2 /\ read_bulk uninit c (zlen before) = Some (Break c (zlen before))).
Proof.
  unfold arg_ok, REDIS_INLINE_MAX_SIZE. intros Hr Hb Ha Hroom E Hsmall.
  destruct (repr_parts _ _ Hr) as (t & Hlen & Hbuf & Ht). unfold read_bulk. rewrite Hb, Hlen.
  rewrite length_app in *.
  rewrite (wrap_small 64), (wrap_small 32) by (unfold in_u; lia).
  replace (Z.of_nat (length before + length cur) - zlen before) with (zlen cur) by lia.
  destruct (Z.ltb_spec (zlen cur) (zlen a + 2)) as [Hlt|Hge]; [right; done|]. left.
  assert (exists cur', cur = a ++ crlf ++ cur' /\ cur' ++ f = tl) as (cur' & -> & E').
  { rewrite app_assoc in E. apply app_eq_inv in E as [(k & -> & ->)|(k & Ek & ->)].
    - exists k. by rewrite <- app_assoc.
    - assert (k = []) as ->.
      { apply (f_equal length) in Ek. rewrite !length_app in Ek. cbn [crlf length] in Ek.
        apply nil_length_inv. lia. }
      exists []. rewrite app_nil_r in Ek. split; [by rewrite <- Ek, app_nil_r|done]. }
  exists cur'. rewrite !length_app in *. cbn [crlf length] in *. unfold push_arg.
  rewrite swrap_small by (unfold in_s; lia).
  assert (forall q, argc (with_querybuf c q) = argc c) as Hac by done.
  rewrite (proj2 (Z.ltb_lt (argc c) _)) by done.
  destruct ((zlen before =? 0) && (REDIS_MBULK_BIG_ARG <=? zlen a) && _) eqn:Hopt.
  - rewrite !andb_true_iff, !Z.eqb_eq in Hopt. destruct Hopt as [[Hb0 _] Hex].
    destruct before; [|cbn in Hb0; lia]. cbn [app] in *.
    assert (cur' = []) as -> by (apply nil_length_inv; lia). rewrite app_nil_r in Hr.
    destruct Hr as (t' & -> & Ht'). rewrite length_app in Ht'. cbn [crlf length] in Ht'.
    destruct (incrlen_trim a crlf t') as (s' & Es & Hs'); [cbn [crlf length]; lia|done|].
    change (- zlen crlf) with (-2) in Es. rewrite Es. osimpl.
    destruct (empty_spec uninit) as (q & -> & Hq). osimpl.
    destruct (makeroom_spec uninit q [] (zlen a + 2) Hq) as (t2 & Em & _ & Ht2); [lia|cbn; lia|].
    cbn [bulklen with_argv]. rewrite Hb, Em. osimpl.
    exists (Sdshdr 0 (zlen t2) (0 :: t2)), (createObject (ENC_RAW s')), [].
    split_and!; try done. by exists t2.
  - destruct (newlen_spec uninit a (crlf ++ cur' ++ 0 :: t)) as (s' & Es & Hs'); [lia|].
    unfold createStringObject. rewrite Hbuf, Nat2Z.id, <- app_assoc, drop_app_length, <- !app_assoc, Es.
    osimpl. cbn [bulklen with_argv]. rewrite Hb.
    exists (querybuf c), (createObject (ENC_RAW s')), (before ++ a ++ crlf).
    assert (zlen (before ++ a ++ crlf) = zlen before + (zlen a + 2)) as Hp
      by (rewrite !length_app; cbn [crlf length]; lia).
    rewrite Hp. split_and!; try done.
    + by rewrite <- !app_assoc.
    + unfold small in Hsmall. rewrite !length_app in *. cbn [crlf length] in *.
      unfold REDIS_INLINE_MAX_SIZE in *. destruct Hsmall as [Hs|(Hs1 & Hs2 & Hs3)]; [lia|].
      exfalso. revert Hopt. rewrite !(proj2 (Z.eqb_eq _ _)), (proj2 (Z.leb_le _ _)) by lia. done.
Qed.

(** What the parser does not touch. *)
Definition same_rest c c' : Prop :=
  reqtype c' = reqtype c /\ flags c' = flags c /\ repl_ack_time c' = repl_ack_time c /\ errors c' = errors c.

(** The client has read the arguments [done] of the request [args] and
    expects the bytes [todo]: the headers and bodies of the arguments [rest],
    or the body of the first and then the others. *)
Record reading c (args done rest : list (list Z)) (todo : list Z) : Prop := Reading {
  rd_args : args = done ++ rest;
  rd_argv : Forall2 has_text (argv c) done;
  rd_size : argv_size c = zlen args;
  rd_count : multibulklen c = zlen rest;
  rd_todo : (bulklen c = -1 /\ todo = bulks rest) \/
    exists a rest', rest = a :: rest' /\ bulklen c = zlen a /\ todo = a ++ crlf ++ bulks rest' }.

Definition complete c (args : list (list Z)) : Prop :=
  Forall2 has_text (argv c) args /\ multibulklen c = 0 /\ bulklen c = -1.

(** What is left in the buffer of an incomplete request. *)
Definition leftover c (cur : list Z) : Prop :=
  (bulklen c = -1 /\ zlen cur <= 24) \/ zlen cur < bulklen c + 2.

Lemma bulk_loop_break c n pos : read_bulklen uninit c pos = Some (Break c pos) ->
  bulk_loop uninit (S n) c pos = Some (Break c pos).
Proof. intros E. cbn [bulk_loop]. by rewrite E. Qed.

Definition loop_result c args (f r : list Z) (res : option outcome) : Prop :=
  exists c' before cur, res = Some (Break c' (zlen before)) /\
    repr (querybuf c') (before ++ cur) /\ same_rest c c' /\
    ((complete c' args /\ cur ++ f = r) \/
     exists done rest todo, reading c' args done rest todo /\ rest <> [] /\
       cur ++ f = todo ++ r /\ zlen cur < zlen todo /\ leftover c' cur).

(** The body of an argument whose length is known, then the others. *)
Lemma loop_body rest
  (IH : forall c before cur f done args todo r,
    reading c args done rest todo -> Forall arg_ok args -> repr (querybuf c) (before ++ cur) ->
    small c (zlen before) (before ++ cur) -> cur ++ f = todo ++ r ->
    loop_result c args f r (bulk_loop uninit (length rest) c (zlen before))) :
  forall c a before cur f done args r,
  reading c args done (a :: rest) (a ++ crlf ++ bulks rest) -> bulklen c = zlen a ->
  Forall arg_ok args -> repr (querybuf c) (before ++ cur) ->
  small c (zlen before) (before ++ cur) -> cur ++ f = a ++ crlf ++ bulks rest ++ r ->
  loop_result c args f r
    (res ← read_bulk uninit c (zlen before);
     match res with Go c pos => bulk_loop uninit (length rest) c pos | _ => Some res end).
Proof.
  intros c a before cur f done args r Hrd Hb Hok Hr Hsm E. pose proof Hrd as [Ha Hv Hsz Hn _].
  pose proof (Forall2_length _ _ _ Hv) as Hl.
  assert (arg_ok a) as Hoka by (rewrite Ha in Hok; apply Forall_app in Hok as [_ [? _]%Forall_cons_iff]; done).
  destruct (read_bulk_spec c before cur f a (bulks rest ++ r) Hr Hb Hoka) as
    [(cur' & q & o & before' & -> & E' & -> & Hq & Ho & Hs')|[Hlt ->]]; [| | done | |]; try done.
  - unfold argc. rewrite Hsz, Ha, length_app. cbn [length]. lia.
  - osimpl. destruct (IH (took c q o) before' cur' f (done ++ [a]) args (bulks rest) r)
      as (c2 & b2 & cur2 & E2 & Hq2 & Hsame & Hres); [| |done|left; done|done|].
    + constructor; cbn [took argv argv_size multibulklen bulklen].
      * by rewrite <- app_assoc.
      * apply Forall2_app; [done|by constructor].
      * done.
      * rewrite Hn. cbn [length]. lia.
      * by left.
    + done.
    + exists c2, b2, cur2. done.
  - osimpl. exists c, before, cur. split_and!; try done. right.
    exists done, (a :: rest), (a ++ crlf ++ bulks rest). split_and!; try done.
    + by rewrite <- !app_assoc.
    + rewrite !length_app. cbn [crlf length]. lia.
    + right. lia.
Qed.

Lemma bulk_loop_spec rest : forall c before cur f done args todo r,
  reading c args done rest todo -> Forall arg_ok args -> repr (querybuf c) (before ++ cur) ->
  small c (zlen before) (before ++ cur) -> cur ++ f = todo ++ r ->
  loop_result c args f r (bulk_loop uninit (length rest) c (zlen before)).
Proof.
  induction rest as [|a rest IH]; intros c before cur f done args todo r Hrd Hok Hr Hsm E;
    pose proof Hrd as [Ha Hv Hsz Hn Htodo].
  { destruct Htodo as [[Hb ->]|(? & ? & ? & _)]; [|done]. rewrite app_nil_r in Ha. subst done.
    exists c, before, cur. split_and!; try done. by left. }
  destruct Htodo as [[Hb ->]|(a' & rest' & [= <- <-] & Hb & ->)].
  - rewrite bulks_cons, <- !app_assoc in E.
    assert (arg_ok a) as Hoka by (rewrite Ha in Hok; apply Forall_app in Hok as [_ [? _]%Forall_cons_iff]; done).
    assert (zlen (before ++ cur) <= REDIS_INLINE_MAX_SIZE) as Hs
      by (destruct Hsm as [?|(? & _)]; [done|unfold REDIS_MBULK_BIG_ARG in *; lia]).
    destruct (read_bulklen_spec c before cur f (zlen a) (a ++ crlf ++ bulks rest ++ r) Hr Hb) as
      [(cur' & q & before' & -> & E' & E1 & Hq & Hs' & _)|[Hlt E1]]; [unfold arg_ok in Hoka; lia|done|done| |].
    + cbn [length bulk_loop]. rewrite E1. osimpl.
      destruct (loop_body rest IH (with_bulklen (with_querybuf c q) (zlen a)) a before' cur' f done args r)
        as (c2 & b2 & cur2 & E2 & H2); try done.
      * constructor; try done. right. by exists a, rest.
      * by left.
      * exists c2, b2, cur2. done.
    + cbn [length]. rewrite bulk_loop_break by done.
      exists c, before, cur. split_and!; try done. right.
      exists done, (a :: rest), (bulks (a :: rest)). split_and!; try done.
      * by rewrite bulks_cons, <- !app_assoc.
      * rewrite bulks_cons, length_app. lia.
      * left. split; [done|]. rewrite bulk_header_size in Hlt.
        assert (zlen (dec (zlen a)) <= 21); [|lia]. apply dec_length. unfold in_s, arg_ok in *. lia.
  - cbn [length bulk_loop].
    assert (read_bulklen uninit c (zlen before) = Some (Go c (zlen before))) as ->
      by (unfold read_bulklen; rewrite Hb, (proj2 (Z.eqb_neq _ _)) by lia; done).
    osimpl. rewrite <- !app_assoc in E. by apply (loop_body rest IH c a before cur f done args r).
Qed.

Lemma count_header_size n : zlen (count_header n) = zlen (dec n) + 3.
Proof. unfold count_header, crlf. cbn [length]. rewrite length_app. cbn [length]. lia. Qed.

Lemma read_multibulklen_spec c cur f n tl :
  repr (querybuf c) cur -> multibulklen c = 0 -> argv c = [] -> 1 <= n <= 1024 * 1024 ->
  cur ++ f = count_header n ++ tl -> zlen cur <= REDIS_INLINE_MAX_SIZE ->
  (exists cur', cur = count_header n ++ cur' /\ cur' ++ f = tl /\
    read_multibulklen c = Some (Go (with_argv (with_multibulklen c n) [] n) (zlen (count_header n)))) \/
  (zlen cur < zlen (count_header n) /\ read_multibulklen c = Some (Return c)).
Proof.
  intros Hr Hm Hv Hn E Hsz. destruct (repr_parts _ _ Hr) as (t & Hlen & Hbuf & Ht).
  unfold read_multibulklen, argc. rewrite Hm, Hv. ctests. rewrite Hbuf, !Hlen.
  rewrite strchr_at_spec by (done || lia). change (drop (Z.to_nat 0) cur) with cur. unfold REDIS_INLINE_MAX_SIZE in *.
  rewrite swrap_small by (unfold in_s; lia).
  destruct (header_cut (count_header n) cur f tl n c_star eq_refl) as [(cur' & -> & E')|[Hlt Hcut]];
    [by repeat constructor|done| |];
    assert (plain c_cr (c_star :: dec n)) as Hp by (constructor; [done|apply dec_plain]).
  - left. exists cur'. split; [done|]. split; [done|].
    assert (count_header n ++ cur' = (c_star :: dec n) ++ c_cr :: c_lf :: cur') as Eh
      by (unfold count_header, crlf; cbn [app]; by rewrite <- app_assoc).
    rewrite Eh in Hsz |- *. rewrite cstr_index_found by done. osimpl. rewrite Z.add_0_l.
    rewrite !length_app in *. cbn [length] in *. rewrite (proj2 (Z.ltb_ge _ _)) by lia.
    rewrite <- !app_assoc. cbn [app]. rewrite rd_0. osimpl. ctests.
    replace (Z.of_nat (S (length (dec n))) - 1) with (zlen (dec n)) by lia.
    match goal with |- context [rdn (c_star :: ?m) _ _] => change (c_star :: m) with ([c_star] ++ m) end.
    rewrite (rdn_app [c_star] (dec n)) by zsize. osimpl.
    rewrite dec_ll by (unfold in_s; lia). osimpl.
    rewrite (proj2 (Z.ltb_ge _ n)), (proj2 (Z.leb_gt n 0)) by lia.
    rewrite !swrap_small by (unfold in_s; lia). do 2 f_equal. rewrite count_header_size. lia.
  - right. split; [done|]. destruct Hcut as [Hp'| ->].
    + rewrite cstr_index_none by done. osimpl. rewrite (proj2 (Z.ltb_ge _ (zlen cur))) by lia. done.
    + change (c_star :: dec n ++ [c_cr]) with ((c_star :: dec n) ++ [c_cr]).
      rewrite cstr_index_found by done. osimpl. rewrite !length_app. cbn [length].
      rewrite (proj2 (Z.ltb_lt _ _)) by lia. done.
Qed.

Definition fresh c : Prop := multibulklen c = 0 /\ bulklen c = -1 /\ argv c = [].

(** The client waits for the bytes [todo] to complete the request [args]. *)
Definition awaits c (args : list (list Z)) (todo : list Z) : Prop :=
  (fresh c /\ todo = request args) \/
  exists done rest, reading c args done rest todo /\ rest <> [].

Definition args_ok (args : list (list Z)) : Prop :=
  args <> [] /\ zlen args <= 1024 * 1024 /\ Forall arg_ok args.

Lemma multibulk_finish c c0 args f r res :
  loop_result c0 args f r res -> same_rest c c0 ->
  exists c' ok cur', (x ← res;
     match x with
     | Return c => Some (c, false)
     | Break c pos | Go c pos =>
         c ← (if negb (pos =? 0) then
                q ← sdsrange (querybuf c) pos (-1); Some (with_querybuf c q)
              else Some c);
         Some (c, multibulklen c =? 0)
     end) = Some (c', ok) /\
    repr (querybuf c') cur' /\ same_rest c c' /\
    if ok : bool then complete c' args /\ cur' ++ f = r
    else exists todo', awaits c' args todo' /\ cur' ++ f = todo' ++ r /\ zlen cur' < zlen todo' /\
      leftover c' cur'.
Proof.
  intros (c1 & before & cur & -> & Hr & Hs & Hres) Hsame. osimpl.
  assert (exists q, (if negb (zlen before =? 0) then
      q ← sdsrange (querybuf c1) (zlen before) (-1); Some (with_querybuf c1 q) else Some c1) =
    Some (with_querybuf c1 q) /\ repr q cur) as (q & -> & Hq).
  { destruct (Z.eqb_spec (zlen before) 0) as [H0|H0]; cbn [negb].
    - destruct before; [|cbn in H0; lia]. exists (querybuf c1). split; [by destruct c1|done].
    - destruct (range_drop (querybuf c1) _ (zlen before) Hr) as (q & -> & Hq); [lia|].
      rewrite Nat2Z.id, drop_app_length in Hq. by exists q. }
  osimpl. exists (with_querybuf c1 q), (multibulklen c1 =? 0), cur. split; [done|]. split; [done|].
  split; [unfold same_rest in *; cbn; intuition congruence|].
  destruct Hres as [((Hv & Hm & Hb) & E)|(done & rest & todo & Hrd & Hne & E & Hlt & Hleft)].
  - rewrite Hm. ctests. done.
  - pose proof Hrd as [Ha Hv Hsz Hn Ht]. rewrite Hn.
    rewrite (proj2 (Z.eqb_neq _ _)) by (destruct rest; [done|cbn; lia]).
    exists todo. split; [right; exists done, rest; split; [by constructor|done]|]. done.
Qed.

(** One call of the parser on whatever part of a request has arrived. *)
Lemma multibulk_spec c args todo cur f r :
  awaits c args todo -> args_ok args -> repr (querybuf c) cur -> small c 0 cur ->
  cur ++ f = todo ++ r ->
  exists c' ok cur', processMultibulkBuffer uninit c = Some (c', ok) /\
    repr (querybuf c') cur' /\ same_rest c c' /\
    if ok : bool then complete c' args /\ cur' ++ f = r
    else exists todo', awaits c' args todo' /\ cur' ++ f = todo' ++ r /\ zlen cur' < zlen todo' /\
      leftover c' cur'.
Proof.
  intros [[(Hm & Hb & Hv) ->]|(done & rest & Hrd & Hne)] (Hne0 & Hcnt & Hok) Hr Hsm E;
    unfold processMultibulkBuffer.
  - assert (0 < zlen args) as Hpos by (destruct args; [done|cbn; lia]).
    assert (zlen cur <= REDIS_INLINE_MAX_SIZE) as Hs
      by (destruct Hsm as [?|(? & _)]; [done|unfold REDIS_MBULK_BIG_ARG in *; lia]).
    unfold request in E. rewrite <- app_assoc in E.
    destruct (read_multibulklen_spec c cur f (zlen args) (bulks args ++ r)) as
      [(cur' & -> & E' & ->)|[Hlt ->]]; try done; [lia| |].
    + osimpl. cbn [multibulklen with_argv with_multibulklen]. rewrite (proj2 (Z.leb_gt _ 0)) by lia.
      rewrite Nat2Z.id. apply (multibulk_finish c (with_argv (with_multibulklen c (zlen args)) [] (zlen args))); [|done].
      apply (bulk_loop_spec args _ (count_header (zlen args)) cur' f [] args (bulks args)); try done.
      * constructor; try done. by left.
      * by left.
    + osimpl. exists c, false, cur. split_and!; try done. exists (request args). unfold request. split_and!.
      * left. done.
      * by rewrite <- app_assoc.
      * rewrite length_app. lia.
      * left. split; [done|]. rewrite count_header_size in Hlt.
        assert (zlen (dec (zlen args)) <= 21); [|lia]. apply dec_length. unfold in_s. lia.
  - pose proof Hrd as [Ha Hv Hsz Hn _].
    assert (0 < zlen rest) as Hpos by (destruct rest; [done|cbn; lia]).
    unfold read_multibulklen. rewrite Hn, (proj2 (Z.eqb_neq _ _)) by lia. cbn [negb]. osimpl.
    rewrite Hn, (proj2 (Z.leb_gt _ 0)), Nat2Z.id by lia.
    apply (multibulk_finish c c); [|done].
    by apply (bulk_loop_spec rest c [] cur f done args todo r).
Qed.

(** ** A stream of requests *)
Definition stream (cmds : list (list (list Z))) : list Z := cmds ≫= request.

Definition open_flags c : Prop :=
  Z.land (flags c) REDIS_BLOCKED = 0 /\ Z.land (flags c) REDIS_CLOSE_AFTER_REPLY = 0.

(** The requests [cmds] are still to be run and the bytes [todo] to be read. *)
Definition session c (cmds : list (list (list Z))) (todo : list Z) : Prop :=
  open_flags c /\
  ((reqtype c = 0 /\ fresh c /\ todo = stream cmds) \/
   exists args cmds' t, cmds = args :: cmds' /\ reqtype c = REDIS_REQ_MULTIBULK /\
     awaits c args t /\ todo = t ++ stream cmds').

(** The client after [read] has put bytes into its buffer. *)
Definition filled c q pk tm n : client :=
  with_reploff (with_lastinteraction (with_querybuf (with_querybuf_peak c pk) q) tm) n.

Lemma session_filled c q pk tm n cmds todo : session c cmds todo -> session (filled c q pk tm n) cmds todo.
Proof.
  intros [Hf [?|(args & cmds' & t & -> & Hq & Haw & ->)]]; (split; [done|]); [by left|right].
  exists args, cmds', t. split; [done|]. split; [done|]. split; [|done].
  destruct Haw as [?|(done & rest & [] & Hne)]; [by left|right]. exists done, rest. split; [|done].
  by constructor.
Qed.

Lemma land_ldiff_0 x k m : Z.land x m = 0 -> Z.land (Z.ldiff x k) m = 0.
Proof.
  intros H. rewrite Z.ldiff_land, <- Z.land_assoc, (Z.land_comm (Z.lnot k)), Z.land_assoc, H.
  apply Z.land_0_l.
Qed.

Lemma reset_open c : open_flags c -> open_flags (resetClient c).
Proof.
  unfold open_flags, resetClient. cbn [flags with_argv freeClientArgv with_reqtype with_multibulklen with_bulklen].
  intros [H1 H2]. destruct (_ =? 0); cbn [flags with_flags]; [|done]. by split; apply land_ldiff_0.
Qed.

Lemma reset_fresh c :
  fresh (resetClient c) /\ reqtype (resetClient c) = 0 /\ querybuf (resetClient c) = querybuf c /\
  errors (resetClient c) = errors c.
Proof. unfold resetClient. cbv zeta. by destruct (_ =? 0). Qed.

(** A request that is not complete still needs some bytes. *)
Lemma awaits_size c args t : awaits c args t -> -1 <= bulklen c /\ bulklen c + 2 <= zlen t.
Proof.
  intros [[(_ & -> & _) ->]|(done & rest & [_ _ _ _ Ht] & Hne)].
  - cbn [request count_header app length]. lia.
  - destruct Ht as [[-> ->]|(a & rest' & -> & -> & ->)].
    + destruct rest as [|a rest]; [done|]. rewrite bulks_cons. cbn [bulk_header app length]. lia.
    + rewrite !length_app. cbn [crlf length]. lia.
Qed.

Lemma session_idle c cmds todo x cur f :
  session c cmds todo -> (x :: cur) ++ f = todo ->
  exists args cmds' t, cmds = args :: cmds' /\ todo = t ++ stream cmds' /\
    let c' := if reqtype c =? 0
              then with_reqtype c (if x =? c_star then REDIS_REQ_MULTIBULK else REDIS_REQ_INLINE) else c in
    reqtype c' = REDIS_REQ_MULTIBULK /\ awaits c' args t /\ bulklen c' = bulklen c.
Proof.
  intros [_ [(Hq & Hf & ->)|(args & cmds' & t & -> & Hq & Haw & ->)]] E.
  - destruct cmds as [|args cmds]; [done|]. exists args, cmds, (request args). split; [done|].
    split; [done|]. unfold stream in E. rewrite bind_cons in E. injection E as -> _. rewrite Hq. ctests.
    split; [done|]. split; [|done]. by left.
  - exists args, cmds', t. split; [done|]. split; [done|]. by rewrite Hq.
Qed.

(** ** What the commands do

    The flags of the client and the state [W] of the server, before a command
    and after it, with the answer of [processCommand]: [exec] is any relation
    between them, so that commands may close or block the client, start and end
    transactions, and depend on anything the server knows. *)
Definition reset_flags (f : Z) : Z := if Z.land f REDIS_MULTI =? 0 then Z.ldiff f REDIS_ASKING else f.
Definition settled (ok : bool) (f : Z) : Z := if ok then reset_flags f else f.
Definition open_word (f : Z) : Prop := Z.land f REDIS_BLOCKED = 0 /\ Z.land f REDIS_CLOSE_AFTER_REPLY = 0.

#[export] Instance open_word_dec f : Decision (open_word f).
Proof. unfold open_word. apply _. Defined.

Lemma reset_flags_client c : flags (resetClient c) = reset_flags (flags c).
Proof. unfold resetClient, reset_flags. cbv zeta. cbn. by destruct (_ =? 0). Qed.

Section Commands.
Context {W : Type} (unixtime : Z) (exec : list (list Z) -> Z * W -> Z * W * bool -> Prop) (inv : Z * W -> Prop)
  (processCommand : client -> W -> option (client * W * bool)).

(** The commands that were run, one after the other, each with a client that
    was neither blocked nor closing. *)
Inductive runs : list (list (list Z)) -> Z * W -> Z * W -> Prop :=
  | runs_none x : runs [] x x
  | runs_one args cmds f w f' w' ok y :
      open_word f -> exec args (f, w) (f', w', ok) -> runs cmds (settled ok f', w') y -> runs (args :: cmds) (f, w) y.

Lemma runs_app cmds1 cmds2 x y z : runs cmds1 x y -> runs cmds2 y z -> runs (cmds1 ++ cmds2) x z.
Proof. induction 1; [done|]. intros H2. econstructor; eauto. Qed.

(** [processCommand] runs the command with the texts of the arguments and keeps
    what the parser keeps in the client; a client that it does not want to be
    reset is closing. *)
Definition runs_commands : Prop := forall c w args,
  Forall2 has_text (argv c) args -> args <> [] -> open_flags c -> inv (flags c, w) ->
  exists c' w' ok, processCommand c w = Some (c', w', ok) /\ exec args (flags c, w) (flags c', w', ok) /\
    inv (settled ok (flags c'), w') /\ querybuf c' = querybuf c /\ bulklen c' = bulklen c /\ errors c' = errors c /\
    (ok = false -> ~ open_flags c').
Hypothesis Hproc : runs_commands.

(** Nothing more is run until the client is open again; what it sends is kept. *)
Definition stopped c (cmds : list (list (list Z))) (todo : list Z) : Prop :=
  ~ open_flags c /\ bulklen c = -1 /\ todo = stream cmds.

Lemma stopped_loop n c w cmds todo cur : stopped c cmds todo -> repr (querybuf c) cur ->
  input_loop uninit unixtime processCommand (S n) c w = Some (c, w).
Proof.
  intros (Hf & _) Hr. cbn [input_loop]. destruct (sdslen (querybuf c) =? 0); [done|].
  destruct (Z.land (flags c) REDIS_BLOCKED =? 0) eqn:H1; [|done]. destruct (Z.land (flags c) REDIS_CLOSE_AFTER_REPLY =? 0) eqn:H2; [|done].
  destruct Hf. split; by apply Z.eqb_eq.
Qed.

Lemma goes_on (ok : bool) c : let c' := if ok then resetClient c else c in
  flags c' = settled ok (flags c) /\ querybuf c' = querybuf c /\ errors c' = errors c /\ (bulklen c = -1 -> bulklen c' = -1).
Proof.
  destruct ok; [|done]. cbv zeta. split; [apply reset_flags_client|].
  destruct (reset_fresh c) as ((_ & Hb & _) & _ & Hq & He). done.
Qed.

(** Where the loop stops: between two reads, or at a command that stopped the client. *)
Definition settles c cmds (cur f : list Z) (n : Z) : Prop :=
  exists todo, cur ++ f = todo /\
    ((session c cmds todo /\ leftover c cur /\ (f = [] -> cmds = [])) \/ (stopped c cmds todo /\ zlen cur <= n)).

Lemma input_loop_spec fuel : forall c cmds todo cur f w,
  session c cmds todo -> Forall args_ok cmds -> repr (querybuf c) cur -> small c 0 cur -> inv (flags c, w) ->
  cur ++ f = todo -> (length cur < fuel)%nat ->
  exists c' w' cur' ran left, input_loop uninit unixtime processCommand fuel c w = Some (c', w') /\
    cmds = ran ++ left /\ runs ran (flags c, w) (flags c', w') /\ inv (flags c', w') /\
    repr (querybuf c') cur' /\ errors c' = errors c /\ settles c' left cur' f (zlen cur).
Proof.
  induction fuel as [|fuel IH]; intros c cmds todo cur f w Hses Hok Hr Hsm Hinv E Hf; [lia|].
  destruct (repr_parts _ _ Hr) as (t0 & Hlen & Hbuf & Ht0). cbn [input_loop]. rewrite Hlen.
  destruct cur as [|x cur].
  { ctests. exists c, w, [], [], cmds. split_and!; try done; [constructor|]. exists todo. split; [done|]. left. split; [done|]. split.
    - destruct Hses as [_ [(_ & (_ & Hb & _) & _)|(args & cmds' & t & _ & _ & Haw & _)]];
        [left; by rewrite Hb|right; apply awaits_size in Haw; cbn; lia].
    - intros ->. cbn in E. subst todo. destruct Hses as [_ [(_ & _ & Hn)|(args & cmds' & t & _ & _ & Haw & Hn)]].
      + destruct cmds; [done|]. done.
      + symmetry in Hn. apply app_nil in Hn as [-> _]. apply awaits_size in Haw. cbn in Haw. lia. }
  rewrite (proj2 (Z.eqb_neq _ _)) by (cbn [length]; lia). pose proof Hses as [[Hfl1 Hfl2] _].
  rewrite Hfl1, Hfl2. ctests. rewrite Hbuf. cbn [app]. rewrite rd_0. osimpl.
  destruct (session_idle c cmds todo x cur f Hses E) as (args & cmds' & t & -> & -> & Hq & Haw & Hbl).
  set (c1 := if reqtype c =? 0 then _ else c) in *.
  assert (querybuf c1 = querybuf c /\ flags c1 = flags c /\ errors c1 = errors c) as (Hqb & Hfl & Her)
    by (unfold c1; by destruct (reqtype c =? 0)).
  rewrite Hq. ctests. apply Forall_cons_iff in Hok as [Hok1 Hok].
  destruct (multibulk_spec c1 args t (x :: cur) f (stream cmds')) as (c2 & ok & cur2 & -> & Hr2 & Hsame & Hres);
    [done|done|by rewrite Hqb|unfold small in *; by rewrite Hbl|done|]. osimpl.
  destruct Hsame as (Hs1 & Hs2 & Hs3 & Hs4). rewrite Hfl in Hs2. destruct ok; cbn [negb].
  2: { destruct Hres as (todo' & Haw' & E2 & Hlt & Hleft).
    exists c2, w, cur2, [], (args :: cmds'). rewrite Hs2. split_and!; try done; [constructor|congruence|]. eexists. split; [done|]. left.
    split; [|split; [done|]].
    - split; [unfold open_flags; rewrite Hs2; done|]. right. exists args, cmds', todo'. split; [done|]. split; [congruence|done].
    - intros ->. rewrite app_nil_r in E2. rewrite E2, length_app in Hlt. lia. }
  destruct Hres as [(Hv & Hm & Hb) E2]. pose proof (Forall2_length _ _ _ Hv) as Hl.
  destruct Hok1 as (Hne & _). assert (0 < zlen args) by (destruct args; [done|cbn; lia]).
  unfold argc. rewrite (proj2 (Z.eqb_neq _ _)) by lia.
  pose proof (awaits_size _ _ _ Haw) as [_ Hsz]. rewrite Hbl in Hsz.
  assert (length (x :: cur) = length t + length cur2)%nat as Hcl.
  { apply (f_equal length) in E, E2. rewrite !length_app in *. lia. }
  assert (1 <= zlen t) by (apply awaits_size in Haw; lia).
  assert (open_word (flags c2)) as Hop by (rewrite Hs2; by split).
  destruct (Hproc c2 w args Hv Hne Hop) as (c3 & w3 & ok & -> & Hex & Hi3 & Hq3 & Hb3 & He3 & Hno); [by rewrite Hs2|].
  osimpl. rewrite Hs2 in Hex.
  destruct (goes_on ok c3) as (Hg1 & Hg2 & Hg3 & Hg4). set (c4 := if ok then _ else _) in *.
  destruct (decide (open_word (flags c4))) as [Ho|Ho].
  - destruct ok; [|by destruct Hno]. destruct (reset_fresh c3) as (Hfr & Hrt & _).
    destruct (IH c4 cmds' (stream cmds') cur2 f w3) as
      (c' & w' & cur' & ran & left & -> & -> & Hruns & H1 & H2 & H3 & todo' & H4 & H5); try done.
    + split; [done|]. by left.
    + by rewrite Hg2, Hq3.
    + left. destruct Hsm as [Hs|(_ & _ & Hs)]; unfold REDIS_INLINE_MAX_SIZE in *; lia.
    + by rewrite Hg1.
    + cbn [length] in *. lia.
    + exists c', w', cur', (args :: ran), left. split_and!; try done; [|congruence|].
      * rewrite Hg1 in Hruns. by econstructor.
      * exists todo'. split; [done|]. destruct H5 as [?|[? ?]]; [by left|right]. split; [done|lia].
  - assert (stopped c4 cmds' (stream cmds')) as Hst by (split_and!; [done|apply Hg4; congruence|done]).
    assert (repr (querybuf c4) cur2) as Hr4 by (by rewrite Hg2, Hq3).
    destruct fuel as [|fuel]; [cbn [length] in *; lia|]. rewrite (stopped_loop _ _ _ _ _ _ Hst Hr4).
    exists c4, w3, cur2, [args], cmds'. split_and!; try done.
    + econstructor; [done|done|]. rewrite Hg1. constructor.
    + by rewrite Hg1.
    + congruence.
    + exists (stream cmds'). split; [done|]. right. split; [done|lia].
Qed.

Lemma awaits_bulklen c args t : awaits c args t -> args_ok args -> bulklen c <= 512 * 1024 * 1024.
Proof.
  intros [[(_ & Hb & _) _]|(done & rest & [Ha _ _ _ Ht] & _)] (_ & _ & Hok); [lia|].
  destruct Ht as [[-> _]|(a & rest' & -> & -> & _)]; [lia|].
  rewrite Ha in Hok. apply Forall_app in Hok as [_ [? _]%Forall_cons_iff]. done.
Qed.

Lemma session_bulklen c cmds todo :
  session c cmds todo -> Forall args_ok cmds -> bulklen c <= 512 * 1024 * 1024.
Proof.
  intros [_ [(_ & (_ & -> & _) & _)|(args & cmds' & t & -> & _ & Haw & _)]] Hok; [lia|].
  apply Forall_cons_iff in Hok as [Hok _]. by eapply awaits_bulklen.
Qed.

(** A long argument is read up to its end and no further. *)
Lemma readlen_spec c cmds todo cur :
  session c cmds todo -> Forall args_ok cmds -> sdslen (querybuf c) = zlen cur -> leftover c cur ->
  0 < readlen c <= REDIS_IOBUF_LEN /\
  (REDIS_MBULK_BIG_ARG <= bulklen c -> readlen c <= bulklen c + 2 - zlen cur).
Proof.
  intros Hses Hok Hlen Hleft. pose proof (session_bulklen _ _ _ Hses Hok) as Hbl. unfold readlen.
  unfold REDIS_MBULK_BIG_ARG, REDIS_IOBUF_LEN in *.
  destruct (Z.leb_spec (1024 * 32) (bulklen c)) as [Hbig|Hbig]; [|rewrite andb_false_r; lia].
  assert (reqtype c = REDIS_REQ_MULTIBULK /\ multibulklen c <> 0) as [-> Hm].
  { destruct Hses as [_ [(_ & (_ & Hb & _) & _)|(args & cmds' & t & _ & Hq & Haw & _)]]; [lia|].
    split; [done|]. destruct Haw as [[(_ & Hb & _) _]|(done & rest & [_ _ _ Hn _] & Hne)]; [lia|].
    rewrite Hn. destruct rest; [done|cbn; lia]. }
  rewrite (proj2 (Z.eqb_neq (multibulklen c) 0)), (proj2 (Z.eqb_neq (bulklen c) (-1))) by (done || lia).
  rewrite Z.eqb_refl. cbn [andb negb]. rewrite Hlen, wrap_small by (unfold in_u; lia).
  assert (0 < bulklen c + 2 - zlen cur) by (destruct Hleft as [[? _]|?]; lia).
  rewrite swrap_small by (unfold in_s; lia). destruct (Z.ltb_spec (bulklen c + 2 - zlen cur) (1024 * 16)); lia.
Qed.

Lemma append_bytes s cur bs n :
  repr s cur -> 0 <= n -> zlen cur + n < 2 ^ 31 - 2 ^ 20 -> zlen bs <= n ->
  exists b q, wrn (buf (sdsMakeRoomFor uninit s n)) (sdslen s) bs = Some b /\
    sdsIncrLen (Sdshdr (len (sdsMakeRoomFor uninit s n)) (free (sdsMakeRoomFor uninit s n)) b) (zlen bs) = Some q /\
    repr q (cur ++ bs).
Proof.
  intros Hr Hn Hlim Hbs. destruct (repr_parts _ _ Hr) as (t0 & -> & _ & _).
  destruct (makeroom_spec uninit s cur n Hr Hn Hlim) as (t & -> & Ht & Hlt). cbn [buf len free].
  rewrite <- (take_drop (length bs) (0 :: t)).
  assert (length (take (length bs) (0 :: t)) = length bs) as HX by (rewrite length_take; cbn [length]; lia).
  pose proof (length_drop (0 :: t) (length bs)) as HY. cbn [length] in HY.
  destruct (drop (length bs) (0 :: t)) as [|y Y]; [cbn in HY; lia|]. cbn [length] in HY.
  rewrite wrn_app by done. eexists.
  replace (zlen t) with (zlen bs + zlen Y) by lia.
  destruct (incrlen_spec cur bs y Y) as (q & E & Hq); [lia|]. exists q. done.
Qed.

Section Reads.
Context (max_querybuf : Z) (Hmax : 512 * 1024 * 1024 + 2 <= max_querybuf <= REDIS_MAX_QUERYBUF_LEN).

(** One read of a nonempty part of what the client has sent. *)
Inductive read_step : client * W * list Z -> client * W * list Z -> Prop :=
  | ReadStep c w bs net c' w' :
      bs <> [] -> zlen bs <= readlen c ->
      readQueryFromClient uninit unixtime processCommand max_querybuf (fun _ => ReadBytes bs) c w =
        Some (Some (c', w')) ->
      read_step (c, w, bs ++ net) (c', w', net).

(** Between two reads: what has been run, and what is left in the buffer. *)
Definition between (c0 : client) (w0 : W) (cmds : list (list (list Z))) (s : client * W * list Z) : Prop :=
  let '(c, w, net) := s in
  exists ran left cur, cmds = ran ++ left /\ runs ran (flags c0, w0) (flags c, w) /\ inv (flags c, w) /\
    repr (querybuf c) cur /\ errors c = errors c0 /\ settles c left cur net max_querybuf.

(** A new client that has sent nothing yet. *)
Definition idle c : Prop := open_flags c /\ reqtype c = 0 /\ fresh c /\ repr (querybuf c) [].

Lemma idle_between c w cmds : idle c -> inv (flags c, w) -> between c w cmds (c, w, stream cmds).
Proof.
  intros (Hf & Hq & Hfr & Hr) Hi. exists [], cmds, []. split; [done|]. split; [constructor|]. split; [done|].
  split; [done|]. split; [done|]. exists (stream cmds). split; [done|]. left.
  split; [split; [done|by left]|]. split; [left; split; [apply Hfr|cbn; lia]|]. by destruct cmds.
Qed.

(** A read puts what it got behind what the buffer holds. *)
Lemma read_fills c w cur bs :
  repr (querybuf c) cur -> zlen cur <= max_querybuf -> bs <> [] -> zlen bs <= readlen c <= REDIS_IOBUF_LEN ->
  exists q pk tm n, repr q (cur ++ bs) /\
    readQueryFromClient uninit unixtime processCommand max_querybuf (fun _ => ReadBytes bs) c w =
      (if max_querybuf <? zlen (cur ++ bs) then Some None
       else Some <$> processInputBuffer uninit unixtime processCommand (filled c q pk tm n) w).
Proof.
  intros Hr Hcur Hne Hbs. destruct (repr_parts _ _ Hr) as (t0 & Hlen & _ & _).
  unfold readQueryFromClient. cbv zeta. unfold REDIS_IOBUF_LEN, REDIS_MAX_QUERYBUF_LEN in *.
  destruct (append_bytes (querybuf c) cur bs (readlen c) Hr) as (b & q & Eb & Eq & Hq); [lia|lia|lia|].
  destruct bs as [|b0 bs']; [done|]. set (bs := b0 :: bs') in *.
  cbn [querybuf with_querybuf_peak]. rewrite Eb. osimpl. rewrite Eq. osimpl.
  eexists q, _, _, _. split; [done|]. unfold filled.
  match goal with |- (if _ <? sdslen (querybuf ?c1) then _ else _) = _ => change (querybuf c1) with q end.
  by destruct (repr_parts _ _ Hq) as (t1 & -> & _ & _).
Qed.

Lemma stopped_readlen c cmds todo : stopped c cmds todo -> readlen c = REDIS_IOBUF_LEN.
Proof. intros (_ & Hb & _). unfold readlen. rewrite Hb. by rewrite andb_false_r. Qed.

(** What a stopped client sends stays in its buffer. *)
Lemma read_stopped c0 w0 cmds c w bs net c' w' ran left cur :
  cmds = ran ++ left -> runs ran (flags c0, w0) (flags c, w) -> inv (flags c, w) -> repr (querybuf c) cur ->
  errors c = errors c0 -> stopped c left (cur ++ bs ++ net) -> zlen cur <= max_querybuf ->
  bs <> [] -> zlen bs <= readlen c ->
  readQueryFromClient uninit unixtime processCommand max_querybuf (fun _ => ReadBytes bs) c w = Some (Some (c', w')) ->
  between c0 w0 cmds (c', w', net).
Proof.
  intros E Hruns Hi Hr He Hst Hcur Hne Hbs Hrd. pose proof (stopped_readlen _ _ _ Hst) as Hrl.
  destruct (read_fills c w cur bs) as (q & pk & tm & n & Hq & Er); [done|done|done|lia|]. rewrite Er in Hrd.
  destruct (Z.ltb_spec max_querybuf (zlen (cur ++ bs))) as [|Hle]; [done|].
  assert (stopped (filled c q pk tm n) left (cur ++ bs ++ net)) as Hst' by done. unfold processInputBuffer in Hrd.
  rewrite (stopped_loop _ _ _ _ _ _ Hst' Hq) in Hrd. injection Hrd as <- <-.
  exists ran, left, (cur ++ bs). split_and!; try done. exists (cur ++ bs ++ net).
  split; [by rewrite <- app_assoc|]. by right.
Qed.

(** What an open client sends is run as far as it goes. *)
Lemma read_open c0 w0 cmds c w bs net ran left cur :
  Forall args_ok cmds -> cmds = ran ++ left -> runs ran (flags c0, w0) (flags c, w) -> inv (flags c, w) ->
  repr (querybuf c) cur -> errors c = errors c0 -> session c left (cur ++ bs ++ net) -> leftover c cur ->
  bs <> [] -> zlen bs <= readlen c ->
  exists c' w', readQueryFromClient uninit unixtime processCommand max_querybuf (fun _ => ReadBytes bs) c w =
      Some (Some (c', w')) /\ between c0 w0 cmds (c', w', net).
Proof.
  intros Hok -> Hruns Hi Hr He Hses Hleft Hne Hbs.
  apply Forall_app in Hok as [_ Hok]. destruct (repr_parts _ _ Hr) as (t0 & Hlen & _ & _).
  destruct (readlen_spec c left _ cur Hses Hok Hlen Hleft) as [Hr1 Hr2].
  pose proof (session_bulklen _ _ _ Hses Hok) as Hbl. unfold REDIS_IOBUF_LEN, REDIS_MBULK_BIG_ARG in *.
  assert (zlen (cur ++ bs) <= max_querybuf /\ zlen cur <= max_querybuf /\ small c 0 (cur ++ bs)) as (Hcur & Hcur0 & Hsm).
  { unfold small, REDIS_INLINE_MAX_SIZE, REDIS_MBULK_BIG_ARG. rewrite length_app.
    destruct Hleft as [[? ?]|?]; destruct (Z.le_gt_cases (1024 * 32) (bulklen c)); lia. }
  destruct (read_fills c w cur bs) as (q & pk & tm & n & Hq & ->); [done|done|done|unfold REDIS_IOBUF_LEN; lia|].
  rewrite (proj2 (Z.ltb_ge _ _)) by done. destruct (repr_parts _ _ Hq) as (t1 & Hql & _ & _).
  unfold processInputBuffer. change (querybuf (filled c q pk tm n)) with q.
  destruct (input_loop_spec (S (Z.to_nat (sdslen q))) (filled c q pk tm n) left (cur ++ bs ++ net) (cur ++ bs) net w)
    as (c' & w' & cur' & ran' & left' & -> & -> & Hruns' & Hi' & Hr' & He' & todo' & H1 & H2); try done.
  - by apply session_filled.
  - by rewrite <- app_assoc.
  - rewrite Hql. lia.
  - osimpl. eexists _, _. split; [done|]. exists (ran ++ ran'), left', cur'. rewrite <- app_assoc.
    split; [done|]. split; [by eapply runs_app|]. split; [done|]. split; [done|].
    split; [rewrite He'; exact He|]. exists todo'. split; [done|].
    destruct H2 as [?|[? ?]]; [by left|right]. split; [done|lia].
Qed.

Lemma read_between c0 w0 cmds s s' :
  Forall args_ok cmds -> between c0 w0 cmds s -> read_step s s' -> between c0 w0 cmds s'.
Proof.
  intros Hok Hb Hst. revert Hb. destruct Hst as [c w bs net c' w' Hne Hbs Hrd].
  intros (ran & left & cur & E & Hruns & Hi & Hr & He & todo & <- & [(Hses & Hleft & _)|[Hst Hc]]).
  - destruct (read_open c0 w0 cmds c w bs net ran left cur) as (c2 & w2 & E2 & H2); try done.
    rewrite E2 in Hrd. by injection Hrd as <- <-.
  - by eapply read_stopped.
Qed.

Lemma reads_between c0 w0 cmds s s' :
  Forall args_ok cmds -> rtc read_step s s' -> between c0 w0 cmds s -> between c0 w0 cmds s'.
Proof. intros Hok. induction 1 as [|s1 s2 s3 Hst _ IH]; [done|]. intros Hb. apply IH. by eapply read_between. Qed.
End Reads.
End Commands.
End Valid.

(** ** Any bytes

    The parser stays inside its buffers whatever arrives, and every client is
    left closing, between two requests, or in the middle of one. *)
Section Safe.
Context (uninit : nat -> Z).

Definition closing c : Prop := Z.land (flags c) REDIS_CLOSE_AFTER_REPLY <> 0.

Record live c (l : list Z) : Prop := Live {
  lv_buf : repr (querybuf c) l;
  lv_bulklen : -1 <= bulklen c <= 512 * 1024 * 1024;
  lv_count : 0 <= multibulklen c;
  lv_argv : argc c + multibulklen c <= argv_size c }.

(** What a step of the parser leaves alone. *)
Definition kept c c' : Prop := flags c' = flags c /\ reqtype c' = reqtype c.

Lemma protocol_error c l e pos :
  repr (querybuf c) l -> 0 <= pos ->
  exists c', setProtocolError (addReplyError c e) pos = Some c' /\ closing c' /\ bulklen c' = bulklen c /\
    repr (querybuf c') (drop (Z.to_nat pos) l).
Proof.
  intros Hr Hp. unfold setProtocolError. cbn [querybuf with_flags addReplyError flags].
  destruct (range_drop (querybuf c) l pos Hr Hp) as (q & -> & Hq). osimpl. eexists. split; [done|].
  split; [|done]. unfold closing. cbn [flags with_querybuf with_flags].
  intros H0. apply (f_equal (fun z => Z.testbit z 6)) in H0.
  rewrite Z.land_spec, Z.lor_spec, Z.bits_0 in H0. unfold REDIS_CLOSE_AFTER_REPLY in H0.
  change (Z.testbit 64 6) with true in H0. rewrite orb_true_r in H0. done.
Qed.

(** A protocol error: the client is to be closed. *)
Definition refused c' (n : Z) : Prop :=
  closing c' /\ bulklen c' = -1 /\ exists l', repr (querybuf c') l' /\ zlen l' <= n.

(** Where a step from the text [l] at [pos] may end: a closing client, one
    that waits for more bytes, or one that goes on. *)
Definition safe_outcome c (l : list Z) (pos : Z) (more : client -> Z -> Prop) (r : option outcome) : Prop :=
  exists o, r = Some o /\
    match o with
    | Return c' => refused c' (zlen l)
    | Break c' pos' => kept c c' /\ exists l', live c' l' /\ 0 <= pos' <= zlen l' /\
        zlen l' - pos' <= zlen l - pos /\ multibulklen c' <> 0 /\
        (bulklen c' = -1 \/ zlen l' - pos' < bulklen c' + 2)
    | Go c' pos' => kept c c' /\ exists l', live c' l' /\ 0 <= pos' <= zlen l' /\ zlen l' <= zlen l /\
        more c' (zlen l' - pos')
    end.

Lemma error_outcome more c l e pos pos0 :
  repr (querybuf c) l -> bulklen c = -1 -> 0 <= pos ->
  safe_outcome c l pos0 more (c ← setProtocolError (addReplyError c e) pos; Some (Return c)).
Proof.
  intros Hr Hb Hp. destruct (protocol_error c l e pos Hr Hp) as (c' & -> & Hc & Hb' & Hr'). osimpl.
  eexists. split; [done|]. split; [done|]. split; [congruence|]. eexists. split; [done|].
  rewrite length_drop. lia.
Qed.

Lemma line_digits l t pos i ch :
  0 <= pos -> cstr_index c_cr (drop (Z.to_nat pos) l) = Some i ->
  rd (l ++ 0 :: t) pos = Some ch -> ch <> c_cr -> pos + Z.of_nat i < zlen l ->
  exists digits r, rdn (l ++ 0 :: t) (pos + 1) (pos + Z.of_nat i - (pos + 1)) = Some digits /\
    string2ll digits (pos + Z.of_nat i - (pos + 1)) = Some r.
Proof.
  intros Hp Hi Hch Hne Hlt. destruct (cstr_index_lt _ _ _ Hi) as [Hil Hcr].
  assert (i <> 0%nat).
  { intros ->. apply rd_Some in Hch as [_ Hch]. rewrite lookup_drop, Nat.add_0_r in Hcr.
    rewrite lookup_app_l in Hch by (apply lookup_lt_Some in Hcr; done). congruence. }
  unfold rdn. rewrite length_app. cbn [length].
  rewrite !(proj2 (Z.leb_le _ _)) by lia. cbn [andb]. eexists. 
  set (digits := take _ _).
  assert (zlen digits = pos + Z.of_nat i - (pos + 1)) as <-.
  { unfold digits. rewrite length_take, length_drop, length_app. cbn [length]. lia. }
  destruct (string2ll_spec digits) as (r & Er & _). exists r. done.
Qed.

Lemma read_bulklen_safe c l pos :
  live c l -> 0 <= pos <= zlen l -> multibulklen c <> 0 ->
  safe_outcome c l pos
    (fun c' rem => 0 <= bulklen c' /\ multibulklen c' = multibulklen c /\ rem <= zlen l - pos)
    (read_bulklen uninit c pos).
Proof.
  intros Hlv Hp Hm. pose proof Hlv as [Hr Hb Hn Hv]. unfold read_bulklen.
  destruct (Z.eqb_spec (bulklen c) (-1)) as [Hb1|Hb1]; cbn [negb].
  2: { eexists. split; [done|]. split; [done|]. exists l. split; [done|lia]. }
  destruct (repr_parts _ _ Hr) as (t & Hlen & Hbuf & Ht). rewrite Hbuf, Hlen, strchr_at_spec by done.
  rewrite swrap_small by (unfold in_s; lia).
  assert (safe_outcome c l pos
    (fun c' rem => 0 <= bulklen c' /\ multibulklen c' = multibulklen c /\ rem <= zlen l - pos)
    (Some (Break c pos))) as Hbreak.
  { eexists. split; [done|]. split; [done|]. exists l. split; [done|lia]. }
  destruct (cstr_index c_cr (drop (Z.to_nat pos) l)) as [i|] eqn:Hi; osimpl.
  2: { destruct (REDIS_INLINE_MAX_SIZE <? zlen l); [|done]. apply error_outcome; [done|done|lia]. }
  destruct (Z.ltb_spec (zlen l - 2) (pos + Z.of_nat i)) as [Hlt|Hge]; [done|].
  destruct (rd_in (l ++ 0 :: t) pos) as [b Hrd]; [rewrite length_app; cbn [length]; lia|].
  rewrite Hrd. osimpl. destruct (Z.eqb_spec b c_dollar) as [->|Hbd]; cbn [negb].
  2: { apply error_outcome; [done|done|lia]. }
  destruct (line_digits l t pos i c_dollar) as (digits & r & -> & Er); [lia|done|done|done|lia|].
  osimpl. rewrite Er. osimpl. destruct r as [ll|].
  2: { apply error_outcome; [done|done|lia]. }
  destruct (Z.ltb_spec ll 0) as [H0|H0]; cbn [orb]; [apply error_outcome; [done|done|lia]|].
  destruct (Z.ltb_spec (512 * 1024 * 1024) ll) as [H1|H1]; [apply error_outcome; [done|done|lia]|].
  rewrite swrap_small by (unfold in_s; lia).
  destruct (REDIS_MBULK_BIG_ARG <=? ll); osimpl.
  - set (p' := pos + (pos + Z.of_nat i - pos + 2)).
    destruct (range_drop (querybuf c) l p' Hr) as (q & -> & Hq); [lia|].
    osimpl. destruct (repr_parts _ _ Hq) as (t' & Hl' & _ & _).
    assert (repr (if sdslen q <? ll + 2 then sdsMakeRoomFor uninit q (ll + 2 - sdslen q) else q)
      (drop (Z.to_nat p') l)) as Hq'.
    { destruct (Z.ltb_spec (sdslen q) (ll + 2)); [|done]. rewrite Hl' in *.
      destruct (makeroom_spec uninit q _ (ll + 2 - zlen (drop (Z.to_nat p') l)) Hq)
        as (t2 & -> & _ & Ht2); [lia|lia|]. by exists t2. }
    pose proof (length_drop l (Z.to_nat p')) as Hd.
    eexists. split; [done|]. split; [done|]. eexists.
    split; [constructor; [exact Hq'|cbn; lia|done|done]|]. cbn [bulklen multibulklen with_bulklen with_querybuf]. lia.
  - eexists. split; [done|]. split; [done|]. exists l. split; [constructor; [done|cbn; lia|done|done]|].
    cbn [bulklen multibulklen with_bulklen]. lia.
Qed.

Lemma read_bulk_safe c l pos :
  live c l -> 0 <= pos <= zlen l -> 0 <= bulklen c -> multibulklen c <> 0 ->
  safe_outcome c l pos
    (fun c' rem => multibulklen c' = multibulklen c - 1 /\ bulklen c' = -1 /\ rem + 2 <= zlen l - pos)
    (read_bulk uninit c pos).
Proof.
  intros [Hr Hb Hn Hv] Hp Hb0 Hm. destruct (repr_parts _ _ Hr) as (t & Hlen & Hbuf & Ht).
  unfold read_bulk. rewrite Hlen. rewrite (wrap_small 64), (wrap_small 32), swrap_small
    by (unfold in_u, in_s; lia).
  destruct (Z.ltb_spec (zlen l - pos) (bulklen c + 2)) as [Hlt|Hge].
  { eexists. split; [done|]. split; [done|]. exists l. split; [by constructor|lia]. }
  unfold push_arg. rewrite (proj2 (Z.ltb_lt (argc c) (argv_size c))) by lia.
  assert (forall o, zlen (argv c ++ [o]) + (multibulklen c - 1) <= argv_size c) as Hac
    by (intros; rewrite length_app; cbn [length]; unfold argc in Hv; lia).
  destruct ((pos =? 0) && _ && _) eqn:Hopt.
  - rewrite !andb_true_iff, !Z.eqb_eq in Hopt. destruct Hopt as [_ Hex].
    assert (exists s', sdsIncrLen (querybuf c) (-2) = Some s') as [s' ->].
    { unfold sdsIncrLen. destruct Hr as (t' & -> & Ht'). cbn [len free buf]. ctests.
      rewrite (proj2 (Z.leb_le _ _)) by lia. rewrite wrap_small by (unfold in_u; lia).
      destruct (wr_in (l ++ 0 :: t') (zlen l + -2) 0) as (m & -> & _);
        [rewrite length_app; lia|]. osimpl. by eexists. }
    osimpl. destruct (empty_spec uninit) as (q & -> & Hq). osimpl.
    destruct (makeroom_spec uninit q [] (bulklen c + 2) Hq) as (t2 & Em & _ & Ht2); [lia|cbn; lia|].
    cbn [bulklen with_argv]. rewrite Em. eexists. split; [done|]. split; [done|]. exists [].
    split; [constructor; [by exists t2|cbn; lia|cbn; lia|apply Hac]|cbn; lia].
  - set (x := take (Z.to_nat (bulklen c)) (drop (Z.to_nat pos) l)).
    assert (zlen x = bulklen c) as Hx by (unfold x; rewrite length_take, length_drop; lia).
    destruct (newlen_spec uninit x (drop (Z.to_nat (bulklen c)) (drop (Z.to_nat pos) l) ++ 0 :: t)) as (s' & Es & _); [lia|].
    unfold createStringObject. rewrite Hbuf, drop_app_le by lia.
    rewrite Hx, app_assoc in Es. unfold x in Es. rewrite take_drop in Es. rewrite Es. osimpl.
    eexists. split; [done|]. split; [done|]. exists l. cbn [bulklen with_argv].
    split; [constructor; [done|cbn; lia|cbn; lia|apply Hac]|cbn; lia].
Qed.

(** Every argument takes at least two bytes. *)
Lemma bulk_loop_safe n : forall c l pos,
  live c l -> 0 <= pos <= zlen l -> n = Z.to_nat (multibulklen c) ->
  (multibulklen c = 0 -> bulklen c = -1) ->
  exists o, bulk_loop uninit n c pos = Some o /\
    match o with
    | Return c' => refused c' (zlen l)
    | Break c' pos' => kept c c' /\ exists l', live c' l' /\ 0 <= pos' <= zlen l' /\
        zlen l' - pos' <= zlen l - pos /\
        (bulklen c' = -1 \/ multibulklen c' <> 0 /\ zlen l' - pos' < bulklen c' + 2) /\
        (multibulklen c' = 0 -> zlen l' - pos' + 2 * multibulklen c <= zlen l - pos)
    | Go _ _ => False
    end.
Proof.
  induction n as [|n IH]; intros c l pos Hlv Hp Hn Hz; pose proof Hlv as [_ _ Hm _].
  { eexists. split; [done|]. split; [done|]. exists l. split; [done|]. split; [done|].
    split; [lia|]. split; [left; apply Hz; lia|lia]. }
  cbn [bulk_loop]. destruct (read_bulklen_safe c l pos Hlv Hp) as (o & -> & Ho); [lia|]. osimpl.
  destruct o as [c1|c1 p1|c1 p1]; [by eexists|..].
  { eexists. split; [done|]. destruct Ho as (Hk & l1 & H1 & H2 & H3 & H4 & H5). split; [done|].
    exists l1. split; [done|]. split; [done|]. split; [done|]. split; [|done]. destruct H5; [by left|by right]. }
  destruct Ho as ([Hk1 Hk2] & l1 & Hlv1 & Hp1 & Hl1 & Hb1 & Hm1 & Hrem1).
  destruct (read_bulk_safe c1 l1 p1 Hlv1 Hp1 Hb1) as (o & -> & Ho); [lia|]. osimpl.
  destruct o as [c2|c2 p2|c2 p2].
  - eexists. split; [done|]. destruct Ho as (H1 & H2 & l2 & H3 & H4). split; [done|]. split; [done|].
    exists l2. split; [done|lia].
  - eexists. split; [done|]. destruct Ho as ([Hk3 Hk4] & l2 & H1 & H2 & H3 & H4 & H5).
    split; [split; congruence|]. exists l2. split; [done|]. split; [done|]. split; [lia|]. split; [|done].
    destruct H5; [by left|by right].
  - destruct Ho as ([Hk3 Hk4] & l2 & Hlv2 & Hp2 & Hl2 & Hm2 & Hb2 & Hrem2).
    destruct (IH c2 l2 p2 Hlv2 Hp2) as (o & -> & Ho); [lia|done|]. eexists. split; [done|].
    destruct o as [c3|c3 p3|]; [| |done].
    + destruct Ho as (H1 & H2 & l3 & H3 & H4). split; [done|]. split; [done|]. exists l3. split; [done|lia].
    + destruct Ho as ([Hk5 Hk6] & l3 & H1 & H2 & H3 & H4 & H5). split; [split; congruence|].
      exists l3. split; [done|]. split; [done|]. split; [lia|]. split; [done|]. intros H0. specialize (H5 H0). lia.
Qed.
Lemma read_multibulklen_safe c l l1 :
  live c l -> fresh c -> l = c_star :: l1 ->
  exists o, read_multibulklen c = Some o /\
    match o with
    | Return c' => refused c' (zlen l) \/ c' = c
    | Break c' _ => kept c c' /\ bulklen c' = -1 /\ multibulklen c' = 0 /\
        exists l', live c' l' /\ zlen l' < zlen l
    | Go c' pos => kept c c' /\ live c' l /\ 0 <= pos <= zlen l /\ 0 < multibulklen c' /\ bulklen c' = -1
    end.
Proof.
  intros [Hr Hb Hn Hv] (Hm & Hb1 & Ha) Hl. unfold read_multibulklen, argc. rewrite Hm, Ha. ctests.
  destruct (repr_parts _ _ Hr) as (t & Hlen & Hbuf & Ht). rewrite Hbuf, Hlen, strchr_at_spec by (done || lia).
  assert (forall e, exists o, (c ← setProtocolError (addReplyError c e) 0; Some (Return c)) = Some o /\
    match o with Return c' => refused c' (zlen l) | _ => False end) as Herr.
  { intros e. destruct (protocol_error c l e 0 Hr) as (c' & -> & Hc & Hb' & Hr'); [lia|]. osimpl.
    eexists. split; [done|]. split; [done|]. split; [congruence|]. eexists. by split. }
  rewrite swrap_small by (unfold in_s; lia). change (drop (Z.to_nat 0) l) with l.
  destruct (cstr_index c_cr l) as [i|] eqn:Hi; osimpl.
  2: { destruct (REDIS_INLINE_MAX_SIZE <? zlen l); [|eexists; split; [done|by right]].
       destruct (Herr TooBigMbulkCount) as ([] & -> & He); try done. eexists. split; [done|]. by left. }
  rewrite Z.add_0_l. destruct (Z.ltb_spec (zlen l - 2) (Z.of_nat i)) as [Hlt|Hge].
  { eexists. split; [done|]. by right. }
  assert (rd (l ++ 0 :: t) 0 = Some c_star) as Hrd by (rewrite Hl; apply rd_0).
  rewrite Hrd. osimpl. ctests.
  destruct (line_digits l t 0 i c_star) as (digits & r & Ed & Er); [lia|done|done|done|lia|].
  rewrite !Z.add_0_l in Ed, Er. rewrite Ed. osimpl. rewrite Er. osimpl. destruct r as [ll|].
  2: { destruct (Herr InvalidMultibulkLength) as ([] & -> & He); try done. eexists. split; [done|]. by left. }
  destruct (Z.ltb_spec (1024 * 1024) ll).
  { destruct (Herr InvalidMultibulkLength) as ([] & -> & He); try done. eexists. split; [done|]. by left. }
  rewrite (swrap_small 32 (Z.of_nat i + 2)) by (unfold in_s; lia). destruct (Z.leb_spec ll 0).
  - destruct (range_drop (querybuf c) l (Z.of_nat i + 2) Hr) as (q & -> & Hq); [lia|]. osimpl.
    eexists. split; [done|]. split; [done|]. split; [done|]. split; [done|].
    eexists. split; [by constructor|]. rewrite length_drop. lia.
  - rewrite swrap_small by (unfold in_s; lia). eexists. split; [done|]. split; [done|].
    split; [constructor; [done|done|cbn; lia|unfold argc; cbn; lia]|cbn; lia].
Qed.

(** The parser waits for more of the request. *)
Definition waits c (l : list Z) : Prop :=
  live c l /\ multibulklen c <> 0 /\ (bulklen c = -1 \/ zlen l < bulklen c + 2).

Lemma multibulk_safe c l :
  live c l -> (fresh c /\ exists l1, l = c_star :: l1) \/ multibulklen c <> 0 ->
  exists c' ok, processMultibulkBuffer uninit c = Some (c', ok) /\
    if ok : bool then kept c c' /\ bulklen c' = -1 /\ multibulklen c' = 0 /\
      exists l', live c' l' /\ zlen l' < zlen l
    else refused c' (zlen l) \/ (c' = c /\ fresh c) \/
      kept c c' /\ exists l', waits c' l' /\ zlen l' <= zlen l.
Proof.
  intros Hlv Hst. unfold processMultibulkBuffer.
  assert (exists o, read_multibulklen c = Some o /\
    match o with
    | Return c' => refused c' (zlen l) \/ (c' = c /\ fresh c)
    | Break c' _ => kept c c' /\ bulklen c' = -1 /\ multibulklen c' = 0 /\
        exists l', live c' l' /\ zlen l' < zlen l
    | Go c' pos => kept c c' /\ live c' l /\ 0 <= pos <= zlen l /\ 0 < multibulklen c'
    end) as (o & -> & Ho).
  { destruct Hst as [[Hf [l1 E]]|Hm].
    - destruct (read_multibulklen_safe c l l1 Hlv Hf E) as (o & -> & Ho). exists o. split; [done|].
      destruct o; [destruct Ho; auto|done|]. destruct Ho as (H1 & H2 & H3 & H4 & _). done.
    - unfold read_multibulklen. rewrite (proj2 (Z.eqb_neq _ _)) by done. eexists. split; [done|].
      pose proof (lv_count _ _ Hlv). split; [done|]. split; [done|]. lia. }
  osimpl. destruct o as [c1|c1 p1|c1 p1].
  - eexists _, _. split; [done|]. destruct Ho; auto.
  - eexists _, _. split; [done|]. done.
  - destruct Ho as ([Hk1 Hk2] & Hlv1 & Hp1 & Hm1). rewrite (proj2 (Z.leb_gt _ _)) by done.
    destruct (bulk_loop_safe (Z.to_nat (multibulklen c1)) c1 l p1 Hlv1 Hp1 eq_refl) as (o & -> & Ho); [lia|].
    osimpl. destruct o as [c2|c2 p2|]; [eexists _, _; split; [done|]; by left| |done].
    destruct Ho as ([Hk3 Hk4] & l2 & Hlv2 & Hp2 & Hrem & Hb & Hz).
    assert (exists q, (if negb (p2 =? 0) then
        q ← sdsrange (querybuf c2) p2 (-1); Some (with_querybuf c2 q) else Some c2) =
      Some (with_querybuf c2 q) /\ repr q (drop (Z.to_nat p2) l2)) as (q & -> & Hq).
    { destruct Hlv2 as [Hr2 _ _ _]. destruct (Z.eqb_spec p2 0) as [->|H0]; cbn [negb].
      - exists (querybuf c2). split; [by destruct c2|done].
      - destruct (range_drop (querybuf c2) _ p2 Hr2) as (q & -> & Hq); [lia|]. by exists q. }
    osimpl. set (l3 := drop (Z.to_nat p2) l2) in *.
    assert (zlen l3 = zlen l2 - p2) as Hl3 by (unfold l3; rewrite length_drop; lia).
    assert (live (with_querybuf c2 q) l3) as Hlv3 by (destruct Hlv2; by constructor).
    eexists _, _. split; [done|]. cbn [multibulklen with_querybuf].
    destruct (Z.eqb_spec (multibulklen c2) 0) as [H0|H0].
    + split; [split; cbn; congruence|]. split; [cbn; destruct Hb as [?|[? _]]; [done|lia]|].
      split; [done|]. exists l3. split; [done|]. specialize (Hz H0). lia.
    + right. right. split; [split; cbn; congruence|]. exists l3.
      split; [|lia]. split; [done|]. split; [done|]. cbn [bulklen with_querybuf]. destruct Hb as [?|[_ ?]]; [by left|right; lia].
Qed.

Lemma inline_args_ok args : forall c,
  argc c + zlen args <= argv_size c ->
  exists a, inline_args c args = Some (with_argv c a (argv_size c)) /\ zlen a <= argv_size c.
Proof.
  induction args as [|s args IH]; intros c Hc; cbn [inline_args length] in *.
  - exists (argv c). split; [by destruct c|]. unfold argc in Hc. lia.
  - destruct (negb _); [|apply IH; lia]. unfold push_arg. rewrite (proj2 (Z.ltb_lt _ _)) by lia. osimpl.
    destruct (IH (with_argv c (argv c ++ [createObject (ENC_RAW s)]) (argv_size c))) as (a & -> & Ha).
    + unfold argc in *. cbn [argv with_argv argv_size]. rewrite length_app. cbn [length]. lia.
    + by exists a.
Qed.

Lemma inline_safe unixtime c l :
  live c l -> fresh c -> l <> [] -> zlen l + 1 < 2 ^ 31 - 2 ^ 20 ->
  exists c' ok, processInlineBuffer uninit unixtime c = Some (c', ok) /\
    if ok : bool then kept c c' /\ bulklen c' = -1 /\ multibulklen c' = 0 /\
      exists l', live c' l' /\ zlen l' < zlen l
    else refused c' (zlen l) \/ c' = c.
Proof.
  intros [Hr Hb Hn Hv] (Hm & Hb1 & Ha) Hne Hsz. unfold processInlineBuffer.
  destruct (repr_parts _ _ Hr) as (t & Hlen & Hbuf & Ht). rewrite Hbuf, Hlen, strchr_at_spec by (done || lia).
  assert (forall e, exists c', (c ← setProtocolError (addReplyError c e) 0; Some (c, false)) = Some (c', false) /\
    refused c' (zlen l)) as Herr.
  { intros e. destruct (protocol_error c l e 0 Hr) as (c' & -> & Hc & Hb' & Hr'); [lia|]. osimpl.
    eexists. split; [done|]. split; [done|]. split; [congruence|]. eexists. by split. }
  change (drop (Z.to_nat 0) l) with l. destruct (cstr_index c_lf l) as [i|] eqn:Hi; osimpl.
  2: { destruct (REDIS_INLINE_MAX_SIZE <? zlen l).
       - destruct (Herr TooBigInline) as (c' & -> & He). eexists _, _. split; [done|]. by left.
       - eexists _, _. split; [done|]. by right. }
  rewrite Z.add_0_l. destruct (cstr_index_lt _ _ _ Hi) as [Hil _].
  assert (exists n, (if negb (Z.of_nat i =? 0) then
      b ← rd (l ++ 0 :: t) (Z.of_nat i - 1); Some (if b =? c_cr then Z.of_nat i - 1 else Z.of_nat i)
      else Some (Z.of_nat i)) = Some n /\ 0 <= n <= Z.of_nat i) as (n & -> & Hnn).
  { destruct (Z.eqb_spec (Z.of_nat i) 0); cbn [negb]; [eexists; split; [done|lia]|].
    destruct (rd_in (l ++ 0 :: t) (Z.of_nat i - 1)) as [b ->]; [rewrite length_app; lia|]. osimpl.
    destruct (b =? c_cr); eexists; (split; [done|lia]). }
  osimpl. set (x := take (Z.to_nat n) l).
  assert (zlen x = n) as Hx by (unfold x; rewrite length_take; lia).
  assert (Forall (fun c => c <> 0) x) as Hx0.
  { pose proof (cstr_index_prefix _ _ _ Hi) as Hp. unfold x.
    replace (take (Z.to_nat n) l) with (take (Z.to_nat n) (take i l)) by (rewrite take_take; f_equal; lia).
    by apply Forall_take. }
  destruct (newlen_spec uninit x (drop (Z.to_nat n) l ++ 0 :: t)) as (aux & Es & Haux); [lia|].
  rewrite Hx, app_assoc in Es. unfold x in Es. rewrite take_drop in Es. rewrite Es. osimpl.
  destruct (repr_parts _ _ Haux) as (ta & _ & -> & _).
  destruct (splitargs_total uninit x ta Hx0) as (r & -> & Hargs); [lia|]. osimpl.
  destruct r as [args|].
  2: { destruct (Herr UnbalancedQuotes) as (c' & -> & He). eexists _, _. split; [done|]. by left. }
  set (c0 := if (n =? 0) && negb _ then _ else c).
  assert (querybuf c0 = querybuf c /\ flags c0 = flags c /\ reqtype c0 = reqtype c /\ bulklen c0 = bulklen c /\
    multibulklen c0 = multibulklen c) as (E1 & E2 & E3 & E4 & E5) by (unfold c0; by destruct (_ && _)).
  clearbody c0. rewrite E1, swrap_small by (unfold in_s; lia).
  destruct (range_drop (querybuf c) l (n + 2) Hr) as (q & -> & Hq); [lia|]. osimpl.
  destruct (inline_args_ok args (with_argv (with_querybuf c0 q) [] (zlen args))) as (a & -> & Hal); [unfold argc; cbn; lia|].
  osimpl. eexists _, _. split; [done|]. cbn. split; [done|]. split; [congruence|]. split; [congruence|].
  exists (drop (Z.to_nat (n + 2)) l). split; [|rewrite length_drop; lia].
  constructor; cbn; [exact Hq|lia|lia|]. unfold argc. cbn. cbn in Hal. lia.
Qed.
(** The client when the parser is called. *)
Inductive loaded c (l : list Z) : Prop :=
  | LoadedClosing : repr (querybuf c) l -> closing c -> bulklen c = -1 -> loaded c l
  | LoadedFresh : live c l -> fresh c ->
      reqtype c = 0 \/ reqtype c = REDIS_REQ_INLINE \/
      (reqtype c = REDIS_REQ_MULTIBULK /\ exists l1, l = c_star :: l1) -> loaded c l
  | LoadedReading : live c l -> reqtype c = REDIS_REQ_MULTIBULK -> multibulklen c <> 0 ->
      open_flags c -> loaded c l.

(** The client between two reads: an argument whose length is known is not complete. *)
Definition sane c (l : list Z) : Prop :=
  loaded c l /\ (bulklen c = -1 \/ zlen l < bulklen c + 2).

Lemma loaded_buf c l : loaded c l -> repr (querybuf c) l.
Proof. by intros [?|[] ?|[]]. Qed.

Lemma loaded_bulklen c l : loaded c l -> bulklen c = -1 \/ (open_flags c /\ -1 <= bulklen c).
Proof. intros [?|? (_ & ? & _)|[_ ? _ _] _ _ ?]; [by left|by left|right; split; [done|lia]]. Qed.

Lemma loaded_filled c l bs q pk tm n :
  loaded c l -> repr q (l ++ bs) -> loaded (filled c q pk tm n) (l ++ bs).
Proof.
  intros [? Hc Hb|[_ ? ? ?] Hf Hq|[_ ? ? ?] ? ? ?] Hr.
  - by constructor 1.
  - constructor 2; [by constructor|done|]. destruct Hq as [?|[?|[? [l1 ->]]]]; [by left|right; by left|].
    right. right. split; [done|]. by exists (l1 ++ bs).
  - constructor 3; [by constructor|done|done|done].
Qed.

(** [processCommand] answers for any command: it keeps the query buffer, and
    a client it does not want to be reset is closing. *)
Section Total.
Context {W : Type} (unixtime : Z) (processCommand : client -> W -> option (client * W * bool)).

Definition keeps_client : Prop := forall c w,
  argc c <> 0 -> argc c <= argv_size c ->
  exists c' w' ok, processCommand c w = Some (c', w', ok) /\ querybuf c' = querybuf c /\
    bulklen c' = bulklen c /\ argc c' <= argv_size c' /\ (ok = false -> closing c').
Hypothesis Hproc : keeps_client.

Lemma reset_loaded c l : repr (querybuf c) l -> argc c <= argv_size c -> loaded (resetClient c) l.
Proof.
  intros Hr Ha. destruct (reset_fresh c) as (Hf & Hq & Hb & _). constructor 2; [|done|by left].
  destruct Hf as (H1 & H2 & H3). constructor; [by rewrite Hb|lia|lia|].
  unfold argc in *. rewrite H1, H3. unfold resetClient. cbv zeta. destruct (_ =? 0); cbn; lia.
Qed.

(** One round of the parser. *)
Lemma round_safe c l x l1 :
  loaded c l -> l = x :: l1 -> open_flags c -> zlen l + 1 < 2 ^ 31 - 2 ^ 20 ->
  let c1 := if reqtype c =? 0
            then with_reqtype c (if x =? c_star then REDIS_REQ_MULTIBULK else REDIS_REQ_INLINE) else c in
  exists c' ok, (if reqtype c1 =? REDIS_REQ_INLINE then processInlineBuffer uninit unixtime c1
                 else if reqtype c1 =? REDIS_REQ_MULTIBULK then processMultibulkBuffer uninit c1
                 else None) = Some (c', ok) /\
    if ok : bool then bulklen c' = -1 /\ exists l', repr (querybuf c') l' /\ zlen l' < zlen l /\ argc c' <= argv_size c'
    else exists l', sane c' l' /\ zlen l' <= zlen l.
Proof.
  intros Hld Hl [Hf1 Hf2] Hsz c1.
  assert (open_flags c1) as Hop by (unfold c1; by destruct (_ =? 0)).
  assert (forall c' n, refused c' n -> exists l', sane c' l' /\ zlen l' <= n) as Hrefused.
  { intros c' n (Hc & Hb & l' & Hr & Hn). exists l'. split; [|done]. split; [by constructor 1|by left]. }
  assert (reqtype c1 = REDIS_REQ_INLINE /\ live c1 l /\ fresh c1 \/
    reqtype c1 = REDIS_REQ_MULTIBULK /\ live c1 l /\
    ((fresh c1 /\ exists l1, l = c_star :: l1) \/ multibulklen c1 <> 0)) as Hcase.
  { unfold c1. destruct Hld as [_ Hc _|Hlv Hf Hq|Hlv Hq Hm _]; [by destruct (Hc Hf2)|..].
    - destruct Hq as [Hq|[Hq|[Hq Hs]]]; rewrite Hq; ctests; [|by left|right; by auto].
      destruct (Z.eqb_spec x c_star) as [->|]; [right|left];
        (split; [done|split; [destruct Hlv; by constructor|]]); [left; split; [done|by exists l1]|done].
    - rewrite Hq. ctests. right. auto. }
  destruct Hcase as [(Hq & Hlv & Hf)|(Hq & Hlv & Hst)]; rewrite Hq; ctests.
  - destruct (inline_safe unixtime c1 l Hlv Hf) as (c' & ok & -> & Hres); [by rewrite Hl|done|].
    eexists _, _. split; [done|]. destruct ok.
    + destruct Hres as (_ & Hb & Hm & l' & [Hr _ _ Hv] & Hlt). split; [done|]. exists l'. split; [done|]. lia.
    + destruct Hres as [?| ->]; [auto|]. exists l. split; [|lia]. split; [|left; apply Hf].
      constructor 2; auto.
  - destruct (multibulk_safe c1 l Hlv Hst) as (c' & ok & -> & Hres).
    eexists _, _. split; [done|]. destruct ok.
    + destruct Hres as (_ & Hb & Hm & l' & [Hr _ _ Hv] & Hlt). split; [done|]. exists l'. split; [done|]. lia.
    + destruct Hres as [?|[[-> Hf]|([Hk1 Hk2] & l' & (Hlv' & Hm' & Hb') & Hle)]]; [auto|..].
      * exists l. split; [|lia]. split; [|left; apply Hf]. constructor 2; [done|done|].
        right. right. split; [done|]. destruct Hst as [[_ ?]|Hm]; [done|]. by destruct Hf as [? _].
      * exists l'. split; [|done]. split; [|done]. constructor 3; [done|congruence|done|].
        unfold open_flags. by rewrite Hk1.
Qed.

Lemma input_loop_safe fuel : forall c l w,
  loaded c l -> (length l < fuel)%nat -> zlen l + 1 < 2 ^ 31 - 2 ^ 20 ->
  exists c' w' l', input_loop uninit unixtime processCommand fuel c w = Some (c', w') /\
    sane c' l' /\ zlen l' <= zlen l.
Proof.
  induction fuel as [|fuel IH]; intros c l w Hld Hf Hsz; [lia|]. cbn [input_loop].
  pose proof (loaded_buf _ _ Hld) as Hr. destruct (repr_parts _ _ Hr) as (t & Hlen & Hbuf & Ht). rewrite Hlen.
  pose proof (loaded_bulklen _ _ Hld) as Hbl.
  destruct l as [|x l1].
  { ctests. eexists _, _, []. split; [done|]. split; [|done]. split; [done|]. cbn. lia. }
  rewrite (proj2 (Z.eqb_neq _ _)) by (cbn [length]; lia).
  destruct (Z.eqb_spec (Z.land (flags c) REDIS_BLOCKED) 0) as [Hf1|Hf1]; cbn [negb].
  2: { eexists _, _, _. split; [done|]. split; [|done]. split; [done|]. destruct Hbl as [?|[[? _] _]]; [by left|done]. }
  destruct (Z.eqb_spec (Z.land (flags c) REDIS_CLOSE_AFTER_REPLY) 0) as [Hf2|Hf2]; cbn [negb].
  2: { eexists _, _, _. split; [done|]. split; [|done]. split; [done|]. destruct Hbl as [?|[[_ ?] _]]; [by left|done]. }
  rewrite Hbuf. cbn [app]. rewrite rd_0. osimpl.
  destruct (round_safe c (x :: l1) x l1 Hld eq_refl) as (c1 & ok & -> & Hres); [done|done|]. osimpl.
  destruct ok; cbn [negb].
  2: { destruct Hres as (l' & Hs & Hle). by eexists _, _, l'. }
  destruct Hres as (Hb & l' & Hr' & Hlt & Hv). cbn [length] in *.
  destruct (Z.eqb_spec (argc c1) 0) as [H0|H0].
  - destruct (IH (resetClient c1) l' w) as (c' & w' & l2 & -> & Hs & Hle); [by apply reset_loaded|lia|lia|].
    eexists _, _, l2. split; [done|]. split; [done|lia].
  - destruct (Hproc c1 w H0 Hv) as (c2 & w2 & ok & -> & Hq2 & Hb2 & Hv2 & Hok). osimpl.
    destruct (IH (if ok then resetClient c2 else c2) l' w2) as (c' & w' & l2 & -> & Hs & Hle); [|lia|lia|].
    + destruct ok; [apply reset_loaded; [by rewrite Hq2|done]|].
      constructor 1; [by rewrite Hq2|auto|congruence].
    + eexists _, _, l2. split; [done|]. split; [done|lia].
Qed.

Lemma sane_readlen c l : sane c l -> 0 < readlen c <= REDIS_IOBUF_LEN.
Proof.
  intros [Hld Hb]. pose proof (loaded_buf _ _ Hld) as Hr. destruct (repr_parts _ _ Hr) as (t & Hlen & _ & Ht).
  unfold readlen, REDIS_IOBUF_LEN, REDIS_MBULK_BIG_ARG. rewrite Hlen. destruct (_ && _) eqn:E; [|lia].
  rewrite !andb_true_iff, !negb_true_iff, !Z.eqb_eq, !Z.eqb_neq, Z.leb_le in E. destruct E as [[[_ _] Hb1] Hbig].
  destruct Hb as [?|Hb]; [done|].
  assert (bulklen c <= 512 * 1024 * 1024) by (destruct Hld as [? ? ?|? (_ & ? & _)|[]]; lia).
  rewrite wrap_small, swrap_small by (unfold in_u, in_s; lia).
  destruct (Z.ltb_spec (bulklen c + 2 - zlen l) (1024 * 16)); lia.
Qed.

(** What [read(fd,buf,n)] may answer. *)
Definition reads_at_most (read : Z -> read_result) : Prop :=
  forall n bs, 0 <= n -> read n = ReadBytes bs -> zlen bs <= n.

(** A sequence of reads of one client. *)
Fixpoint serve (max : Z) (reads : list (Z -> read_result)) (s : option (client * W)) : option (option (client * W)) :=
  match reads, s with
  | [], _ | _, None => Some s
  | read :: reads, Some (c, w) =>
      s ← readQueryFromClient uninit unixtime processCommand max read c w; serve max reads s
  end.

Lemma read_safe max read c l w :
  0 <= max <= REDIS_MAX_QUERYBUF_LEN -> reads_at_most read -> sane c l -> zlen l <= max ->
  exists s, readQueryFromClient uninit unixtime processCommand max read c w = Some s /\
    forall c' w', s = Some (c', w') -> exists l', sane c' l' /\ zlen l' <= max.
Proof.
  unfold REDIS_MAX_QUERYBUF_LEN. intros Hmax Hread Hs Hl. pose proof (sane_readlen c l Hs) as Hrl.
  destruct Hs as [Hld Hb]. pose proof (loaded_buf _ _ Hld) as Hr. unfold REDIS_IOBUF_LEN in Hrl.
  unfold readQueryFromClient. cbv zeta. cbn [querybuf with_querybuf_peak].
  destruct (read (readlen c)) as [bs| |] eqn:E; [..|by eexists].
  - apply Hread in E; [|lia]. destruct bs as [|b0 bs']; [by eexists|]. set (bs := b0 :: bs') in *.
    destruct (append_bytes uninit (querybuf c) l bs (readlen c) Hr) as (b & q & Eb & Eq & Hq); [lia..|].
    rewrite Eb. osimpl. rewrite Eq. osimpl. set (c1 := with_reploff _ _).
    change (querybuf c1) with q. destruct (repr_parts _ _ Hq) as (t1 & Hql & _ & _). rewrite Hql.
    destruct (Z.ltb_spec max (zlen (l ++ bs))) as [|Hle]; [by eexists|].
    unfold processInputBuffer. change (querybuf c1) with q.
    destruct (input_loop_safe (S (Z.to_nat (sdslen q))) c1 (l ++ bs) w) as (c' & w' & l' & -> & Hs & Hl');
      [by apply loaded_filled|lia|lia|]. osimpl.
    eexists. split; [done|]. intros ? ? [= <- <-]. exists l'. split; [done|lia].
  - eexists. split; [done|]. intros ? ? [= <- <-]. exists l. split; [|done]. split; [|done].
    destruct (makeroom_spec uninit (querybuf c) l (readlen c) Hr) as (t & -> & _ & Ht); [lia|lia|].
    assert (repr (Sdshdr (zlen l) (zlen t) (l ++ 0 :: t)) (l ++ [])) as Hr' by (rewrite app_nil_r; by exists t).
    pose proof (loaded_filled c l [] _ (if querybuf_peak c <? sdslen (querybuf c) then sdslen (querybuf c)
      else querybuf_peak c) (lastinteraction c) (reploff c) Hld Hr') as H.
    rewrite app_nil_r in H. exact H.
Qed.
End Total.
End Safe.

(** C7: Whatever bytes a client sends, and however [read] cuts them, the server
    handles every read: no access outside the query buffer or the argument
    array, no failed assertion, no endless loop. The client is freed, or it is
    closing, between two requests or waiting for the rest of one, with at most
    the allowed number of bytes buffered. *)
Theorem serve_safe uninit W unixtime (processCommand : client -> W -> option (client * W * bool)) max reads c l w :
  keeps_client processCommand -> 0 <= max <= REDIS_MAX_QUERYBUF_LEN ->
  Forall reads_at_most reads -> sane c l -> zlen l <= max ->
  exists s, serve uninit unixtime processCommand max reads (Some (c, w)) = Some s /\
    forall c' w', s = Some (c', w') -> exists l', sane c' l' /\ zlen l' <= max.
Proof.
  intros Hproc Hmax Hreads. revert c l w. induction Hreads as [|read reads Hread _ IH]; intros c l w Hs Hl; cbn [serve].
  - eexists. split; [done|]. intros ? ? [= <- <-]. by exists l.
  - destruct (read_safe uninit unixtime processCommand Hproc max read c l w Hmax Hread Hs Hl) as (s & -> & Hs').
    osimpl. destruct s as [[c' w']|].
    + destruct (Hs' c' w' eq_refl) as (l' & Hs1 & Hl1). by apply (IH c' l' w').
    + exists None. split; [by destruct reads|done].
Qed.

(** C6: Pipelined requests in any number of reads, whatever the commands do to
    the server and to the flags of the client: the commands that have been run
    are the first ones the client sent, in order and with their arguments, each
    while the client was neither blocked nor closing, and no protocol error was
    reported; when every byte has been read all of them have been run, unless
    one of them blocked the client or is closing it; and while the client is
    open and bytes are left, the next read, of whatever size [readlen] allows,
    succeeds and takes some of them. The requests are within the limits of the
    protocol, and the query buffer may grow to a limit between the 512 MB of one
    argument and the default of 1 GB. *)
Theorem requests_any_reads uninit W unixtime exec inv (processCommand : client -> W -> option (client * W * bool))
  max cmds c w c' w' net :
  runs_commands exec inv processCommand -> 512 * 1024 * 1024 + 2 <= max <= REDIS_MAX_QUERYBUF_LEN ->
  Forall args_ok cmds -> idle c -> inv (flags c, w) ->
  rtc (read_step uninit unixtime processCommand max) (c, w, stream cmds) (c', w', net) ->
  (exists ran left, cmds = ran ++ left /\ runs exec ran (flags c, w) (flags c', w') /\ errors c' = errors c /\
    (net = [] -> left = [] \/ ~ open_flags c')) /\
  0 < readlen c' /\
  forall bs rest, net = bs ++ rest -> bs <> [] -> zlen bs <= readlen c' -> open_flags c' ->
    exists c2 w2, read_step uninit unixtime processCommand max (c', w', net) (c2, w2, rest).
Proof.
  intros Hproc Hmax Hok Hidle Hi Hsteps.
  pose proof (reads_between uninit unixtime exec inv processCommand Hproc max Hmax c w cmds _ _ Hok Hsteps
    (idle_between exec inv max c w cmds Hidle Hi))
    as (ran & left & cur & E & Hruns & Hi' & Hr & He & todo & Et & Hset).
  split; [exists ran, left; split_and!; try done|].
  { intros Hn. destruct Hset as [(_ & _ & Hend)|[(Hno & _) _]]; [left; by apply Hend|by right]. }
  split.
  - destruct Hset as [(Hses & Hleft & _)|[Hst _]]; [|by rewrite (stopped_readlen _ _ _ Hst)].
    destruct (repr_parts _ _ Hr) as (t & Hlen & _). rewrite E in Hok. apply Forall_app in Hok as [_ Hok].
    by destruct (readlen_spec c' left todo cur Hses Hok Hlen Hleft) as [[? _] _].
  - intros bs rest -> Hne Hbs Hopen. destruct Hset as [(Hses & Hleft & _)|[(Hno & _) _]]; [|done]. subst todo.
    destruct (read_open uninit unixtime exec inv processCommand Hproc max Hmax c w cmds c' w' bs rest ran left cur)
      as (c3 & w3 & E3 & _); try done. exists c3, w3. by constructor.
Qed.

(** C37: An empty line that ends in a bare newline takes the byte after it
    along: the request that follows in the buffer loses its first byte. *)
Theorem inline_newline_loses_byte uninit unixtime c y l :
  live c (c_lf :: y :: l) -> fresh c ->
  exists c', processInlineBuffer uninit unixtime c = Some (c', true) /\ argv c' = [] /\ repr (querybuf c') l.
Proof.
  intros [Hr _ _ _] (_ & _ & Ha). unfold processInlineBuffer.
  destruct (repr_parts _ _ Hr) as (t & Hlen & Hbuf & Ht). rewrite Hbuf, strchr_at_spec by (done || lia).
  change (cstr_index c_lf (drop (Z.to_nat 0) (c_lf :: y :: l))) with (Some 0%nat). osimpl. ctests. osimpl.
  change (0 + Z.of_nat 0) with 0.
  destruct (newlen_spec uninit [] ((c_lf :: y :: l) ++ 0 :: t)) as (aux & Es & Haux); [cbn; lia|].
  cbn [app length] in Es |- *. change (Z.of_nat 0) with 0 in Es. rewrite Es. osimpl.
  destruct (repr_parts _ _ Haux) as (ta & _ & -> & _).
  assert (sdssplitargs uninit ([] ++ 0 :: ta) = Some (Some [])) as -> by reflexivity. osimpl.
  set (c0 := if _ && _ then _ else c).
  assert (querybuf c0 = querybuf c) as -> by (unfold c0; by destruct (_ && _)).
  destruct (range_drop (querybuf c) _ (int32 2) Hr) as (q & E & Hq); [done|].
  change (int32 (0 + 2)) with (int32 2). rewrite E. osimpl. eexists. split; [done|]. done.
Qed.

(** ** Witnesses *)

Definition client0 : client := Client (Sdshdr 0 0 [0]) [] 0 0 0 (-1) 0 0 [] 0 0 0.

(** The text of an argument. *)
Definition arg_text (o : robj) : list Z :=
  match o_ptr o with ENC_RAW s => take (Z.to_nat (len s)) (buf s) | ENC_INT v => dec v end.

Lemma arg_texts os args : Forall2 has_text os args -> map arg_text os = args.
Proof.
  induction 1 as [|o a os args Ho _ IH]; [done|]. cbn [map]. f_equal; [|done].
  revert Ho. unfold has_text, arg_text. destruct (o_ptr o) as [s|v]; [|by intros [_ ->]].
  intros (t & -> & _). cbn [len buf]. by rewrite Nat2Z.id, take_app_length.
Qed.

(** A server that keeps a journal of the commands it was given. *)
Definition journal c (w : list (list (list Z))) : option (client * list (list (list Z)) * bool) :=
  Some (c, w ++ [map arg_text (argv c)], true).

Lemma journal_keeps : keeps_client journal.
Proof. intros c w _ Hv. by eexists c, _, true. Qed.

Lemma idle0 : idle client0.
Proof. split; [done|]. split; [done|]. split; [done|]. by exists []. Qed.

(** The start of a request, then bytes that are none, then the end of the stream. *)
Definition reads0 : list (Z -> read_result) :=
  map (fun bs n => ReadBytes (take (Z.to_nat n) bs))
    [[42; 49; 13; 10; 36; 52; 13; 10; 80]; [73; 78; 71; 13; 10; 34; 10]; [42; 49; 13; 10; 33; 13; 10]; []].

Lemma serve_safe_witness :
  exists s, serve (fun _ => 7) 0 journal 1024 reads0 (Some (client0, [])) = Some s /\
    forall c' w', s = Some (c', w') -> exists l', sane c' l' /\ zlen l' <= 1024.
Proof.
  apply (serve_safe (fun _ => 7) _ 0 journal 1024 reads0 client0 [] []).
  - exact journal_keeps.
  - unfold REDIS_MAX_QUERYBUF_LEN. lia.
  - unfold reads0. cbn [map]. repeat apply Forall_cons_2; try apply Forall_nil_2;
      (intros n bs Hn [= <-]; rewrite length_take; lia).
  - destruct idle0 as (Hf & Hq & Hfr & Hr). split; [|by left].
    constructor 2; [constructor; [done|cbn; lia|cbn; lia|unfold argc; cbn; lia]|done|by left].
  - cbn. lia.
Defined.

(** A newline and "*1": the star is lost. *)
Lemma inline_newline_loses_byte_witness :
  exists c', processInlineBuffer (fun _ => 7) 0 (with_querybuf client0 (Sdshdr 3 0 [10; 42; 49; 0])) = Some (c', true) /\
    argv c' = [] /\ repr (querybuf c') [49].
Proof.
  apply (inline_newline_loses_byte (fun _ => 7) 0 (with_querybuf client0 (Sdshdr 3 0 [10; 42; 49; 0])) 42 [49]).
  - constructor; [by exists []|cbn; lia|cbn; lia|unfold argc; cbn; lia].
  - done.
Defined.

End Request.
