(* ===== verification/Crc64.v ===== *)
(** * The 64-bit checksum (src/redis-2.8/src/crc64.c)

    The checksum of RDB files and of DUMP payloads: a table driven CRC, proved
    equal to the division of the message by the polynomial bit by bit, and the
    errors it detects. *)
From stdpp Require Import base tactics list numbers option.
From Stdlib Require Import ZArith Lia.
From S2P Require Import Prelude.
Import CInt CMem Bytes.
Open Scope redis_scope.
Open Scope Z_scope.

Module Crc64.

Definition crc64_tab : list Z := [
    0x0000000000000000; 0x7ad870c830358979; 0xf5b0e190606b12f2; 0x8f689158505e9b8b;
    0xc038e5739841b68f; 0xbae095bba8743ff6; 0x358804e3f82aa47d; 0x4f50742bc81f2d04;
    0xab28ecb46814fe75; 0xd1f09c7c5821770c; 0x5e980d24087fec87; 0x24407dec384a65fe;
    0x6b1009c7f05548fa; 0x11c8790fc060c183; 0x9ea0e857903e5a08; 0xe478989fa00bd371;
    0x7d08ff3b88be6f81; 0x07d08ff3b88be6f8; 0x88b81eabe8d57d73; 0xf2606e63d8e0f40a;
    0xbd301a4810ffd90e; 0xc7e86a8020ca5077; 0x4880fbd87094cbfc; 0x32588b1040a14285;
    0xd620138fe0aa91f4; 0xacf86347d09f188d; 0x2390f21f80c18306; 0x594882d7b0f40a7f;
    0x1618f6fc78eb277b; 0x6cc0863448deae02; 0xe3a8176c18803589; 0x997067a428b5bcf0;
    0xfa11fe77117cdf02; 0x80c98ebf2149567b; 0x0fa11fe77117cdf0; 0x75796f2f41224489;
    0x3a291b04893d698d; 0x40f16bccb908e0f4; 0xcf99fa94e9567b7f; 0xb5418a5cd963f206;
    0x513912c379682177; 0x2be1620b495da80e; 0xa489f35319033385; 0xde51839b2936bafc;
    0x9101f7b0e12997f8; 0xebd98778d11c1e81; 0x64b116208142850a; 0x1e6966e8b1770c73;
    0x8719014c99c2b083; 0xfdc17184a9f739fa; 0x72a9e0dcf9a9a271; 0x08719014c99c2b08;
    0x4721e43f0183060c; 0x3df994f731b68f75; 0xb29105af61e814fe; 0xc849756751dd9d87;
    0x2c31edf8f1d64ef6; 0x56e99d30c1e3c78f; 0xd9810c6891bd5c04; 0xa3597ca0a188d57d;
    0xec09088b6997f879; 0x96d1784359a27100; 0x19b9e91b09fcea8b; 0x636199d339c963f2;
    0xdf7adabd7a6e2d6f; 0xa5a2aa754a5ba416; 0x2aca3b2d1a053f9d; 0x50124be52a30b6e4;
    0x1f423fcee22f9be0; 0x659a4f06d21a1299; 0xeaf2de5e82448912; 0x902aae96b271006b;
    0x74523609127ad31a; 0x0e8a46c1224f5a63; 0x81e2d7997211c1e8; 0xfb3aa75142244891;
    0xb46ad37a8a3b6595; 0xceb2a3b2ba0eecec; 0x41da32eaea507767; 0x3b024222da65fe1e;
    0xa2722586f2d042ee; 0xd8aa554ec2e5cb97; 0x57c2c41692bb501c; 0x2d1ab4dea28ed965;
    0x624ac0f56a91f461; 0x1892b03d5aa47d18; 0x97fa21650afae693; 0xed2251ad3acf6fea;
    0x095ac9329ac4bc9b; 0x7382b9faaaf135e2; 0xfcea28a2faafae69; 0x8632586aca9a2710;
    0xc9622c4102850a14; 0xb3ba5c8932b0836d; 0x3cd2cdd162ee18e6; 0x460abd1952db919f;
    0x256b24ca6b12f26d; 0x5fb354025b277b14; 0xd0dbc55a0b79e09f; 0xaa03b5923b4c69e6;
    0xe553c1b9f35344e2; 0x9f8bb171c366cd9b; 0x10e3202993385610; 0x6a3b50e1a30ddf69;
    0x8e43c87e03060c18; 0xf49bb8b633338561; 0x7bf329ee636d1eea; 0x012b592653589793;
    0x4e7b2d0d9b47ba97; 0x34a35dc5ab7233ee; 0xbbcbcc9dfb2ca865; 0xc113bc55cb19211c;
    0x5863dbf1e3ac9dec; 0x22bbab39d3991495; 0xadd33a6183c78f1e; 0xd70b4aa9b3f20667;
    0x985b3e827bed2b63; 0xe2834e4a4bd8a21a; 0x6debdf121b863991; 0x1733afda2bb3b0e8;
    0xf34b37458bb86399; 0x8993478dbb8deae0; 0x06fbd6d5ebd3716b; 0x7c23a61ddbe6f812;
    0x3373d23613f9d516; 0x49aba2fe23cc5c6f; 0xc6c333a67392c7e4; 0xbc1b436e43a74e9d;
    0x95ac9329ac4bc9b5; 0xef74e3e19c7e40cc; 0x601c72b9cc20db47; 0x1ac40271fc15523e;
    0x5594765a340a7f3a; 0x2f4c0692043ff643; 0xa02497ca54616dc8; 0xdafce7026454e4b1;
    0x3e847f9dc45f37c0; 0x445c0f55f46abeb9; 0xcb349e0da4342532; 0xb1eceec59401ac4b;
    0xfebc9aee5c1e814f; 0x8464ea266c2b0836; 0x0b0c7b7e3c7593bd; 0x71d40bb60c401ac4;
    0xe8a46c1224f5a634; 0x927c1cda14c02f4d; 0x1d148d82449eb4c6; 0x67ccfd4a74ab3dbf;
    0x289c8961bcb410bb; 0x5244f9a98c8199c2; 0xdd2c68f1dcdf0249; 0xa7f41839ecea8b30;
    0x438c80a64ce15841; 0x3954f06e7cd4d138; 0xb63c61362c8a4ab3; 0xcce411fe1cbfc3ca;
    0x83b465d5d4a0eece; 0xf96c151de49567b7; 0x76048445b4cbfc3c; 0x0cdcf48d84fe7545;
    0x6fbd6d5ebd3716b7; 0x15651d968d029fce; 0x9a0d8ccedd5c0445; 0xe0d5fc06ed698d3c;
    0xaf85882d2576a038; 0xd55df8e515432941; 0x5a3569bd451db2ca; 0x20ed197575283bb3;
    0xc49581ead523e8c2; 0xbe4df122e51661bb; 0x3125607ab548fa30; 0x4bfd10b2857d7349;
    0x04ad64994d625e4d; 0x7e7514517d57d734; 0xf11d85092d094cbf; 0x8bc5f5c11d3cc5c6;
    0x12b5926535897936; 0x686de2ad05bcf04f; 0xe70573f555e26bc4; 0x9ddd033d65d7e2bd;
    0xd28d7716adc8cfb9; 0xa85507de9dfd46c0; 0x273d9686cda3dd4b; 0x5de5e64efd965432;
    0xb99d7ed15d9d8743; 0xc3450e196da80e3a; 0x4c2d9f413df695b1; 0x36f5ef890dc31cc8;
    0x79a59ba2c5dc31cc; 0x037deb6af5e9b8b5; 0x8c157a32a5b7233e; 0xf6cd0afa9582aa47;
    0x4ad64994d625e4da; 0x300e395ce6106da3; 0xbf66a804b64ef628; 0xc5bed8cc867b7f51;
    0x8aeeace74e645255; 0xf036dc2f7e51db2c; 0x7f5e4d772e0f40a7; 0x05863dbf1e3ac9de;
    0xe1fea520be311aaf; 0x9b26d5e88e0493d6; 0x144e44b0de5a085d; 0x6e963478ee6f8124;
    0x21c640532670ac20; 0x5b1e309b16452559; 0xd476a1c3461bbed2; 0xaeaed10b762e37ab;
    0x37deb6af5e9b8b5b; 0x4d06c6676eae0222; 0xc26e573f3ef099a9; 0xb8b627f70ec510d0;
    0xf7e653dcc6da3dd4; 0x8d3e2314f6efb4ad; 0x0256b24ca6b12f26; 0x788ec2849684a65f;
    0x9cf65a1b368f752e; 0xe62e2ad306bafc57; 0x6946bb8b56e467dc; 0x139ecb4366d1eea5;
    0x5ccebf68aecec3a1; 0x2616cfa09efb4ad8; 0xa97e5ef8cea5d153; 0xd3a62e30fe90582a;
    0xb0c7b7e3c7593bd8; 0xca1fc72bf76cb2a1; 0x45775673a732292a; 0x3faf26bb9707a053;
    0x70ff52905f188d57; 0x0a2722586f2d042e; 0x854fb3003f739fa5; 0xff97c3c80f4616dc;
    0x1bef5b57af4dc5ad; 0x61372b9f9f784cd4; 0xee5fbac7cf26d75f; 0x9487ca0fff135e26;
    0xdbd7be24370c7322; 0xa10fceec0739fa5b; 0x2e675fb4576761d0; 0x54bf2f7c6752e8a9;
    0xcdcf48d84fe75459; 0xb71738107fd2dd20; 0x387fa9482f8c46ab; 0x42a7d9801fb9cfd2;
    0x0df7adabd7a6e2d6; 0x772fdd63e7936baf; 0xf8474c3bb7cdf024; 0x829f3cf387f8795d;
    0x66e7a46c27f3aa2c; 0x1c3fd4a417c62355; 0x935745fc4798b8de; 0xe98f353477ad31a7;
    0xa6df411fbfb21ca3; 0xdc0731d78f8795da; 0x536fa08fdfd90e51; 0x29b7d047efec8728].

Fixpoint crc_loop (n : nat) (crc : Z) (s : list Z) (j : Z) : option Z :=
  match n with
  | O => Some crc
  | S n =>
      byte ← rd s j;
      t ← rd crc64_tab (Z.lxor (wrap 8 crc) byte);
      crc_loop n (Z.lxor t (Z.shiftr crc 8)) s (j + 1)
  end.

Definition crc64 (crc : Z) (s : list Z) (l : Z) : option Z := crc_loop (Z.to_nat l) crc s 0.

(** ** The reference

    The polynomial of crc-64-jones, with its coefficients reversed because the
    bits of a byte are taken from the lowest on. *)
Definition poly : Z := 0xad93d23594c935a9.

Fixpoint reflect (n : nat) (z : Z) : Z :=
  match n with
  | O => 0
  | S n => 2 ^ Z.of_nat n * (z mod 2) + reflect n (z / 2)
  end.

Definition bit_step (crc : Z) : Z :=
  Z.lxor (Z.shiftr crc 1) (if Z.testbit crc 0 then reflect 64 poly else 0).

Definition byte_step (crc b : Z) : Z := Nat.iter 8 bit_step (Z.lxor crc b).

Definition crc_bits (crc : Z) (s : list Z) : Z := foldl byte_step crc s.

(** ** One byte at a time *)
Definition tab (i : Z) : Z := default 0 (rd crc64_tab i).
Definition tab_step (crc b : Z) : Z := Z.lxor (tab (Z.lxor (crc mod 256) b)) (Z.shiftr crc 8).
Definition crc_tab (crc : Z) (s : list Z) : Z := foldl tab_step crc s.

Lemma bit_step_lxor a b : bit_step (Z.lxor a b) = Z.lxor (bit_step a) (bit_step b).
Proof.
  unfold bit_step. rewrite Z.shiftr_lxor, Z.lxor_spec. set (p := reflect 64 poly). clearbody p.
  apply Z.bits_inj'. intros n Hn. rewrite !Z.lxor_spec.
  destruct (Z.testbit a 0), (Z.testbit b 0); cbn [xorb]; rewrite ?Z.bits_0;
    destruct (Z.testbit (Z.shiftr a 1) n), (Z.testbit (Z.shiftr b 1) n), (Z.testbit p n); done.
Qed.

Lemma iter_lxor n a b :
  Nat.iter n bit_step (Z.lxor a b) = Z.lxor (Nat.iter n bit_step a) (Nat.iter n bit_step b).
Proof. induction n as [|n IH]; [done|]. by rewrite !Nat.iter_succ, IH, bit_step_lxor. Qed.

Lemma bit_step_even x : bit_step (2 * x) = x.
Proof.
  unfold bit_step. rewrite Z.testbit_even_0, Z.lxor_0_r, Z.shiftr_div_pow2 by done.
  change (2 ^ 1) with 2. rewrite Z.mul_comm. by apply Z.div_mul.
Qed.

Lemma iter_even n x : Nat.iter n bit_step (2 ^ Z.of_nat n * x) = x.
Proof.
  revert x. induction n as [|n IH]; intros x; [cbn; lia|]. rewrite Nat.iter_succ.
  rewrite Nat2Z.inj_succ, Z.pow_succ_r, (Z.mul_comm 2), <- Z.mul_assoc, IH by lia. apply bit_step_even.
Qed.

(** The table is right: all its 256 entries. *)
Lemma tab_entries : forall i, 0 <= i < 256 -> rd crc64_tab i = Some (Nat.iter 8 bit_step i).
Proof.
  assert (crc64_tab = map (Nat.iter 8 bit_step) (map Z.of_nat (seq 0 256))) as E by (vm_compute; reflexivity).
  intros i Hi. rewrite E. apply rd_Some. split; [lia|].
  rewrite list_lookup_fmap, list_lookup_fmap, lookup_seq_lt by lia. cbn. by rewrite Z2Nat.id by lia.
Qed.

Lemma tab_iter i : 0 <= i < 256 -> tab i = Nat.iter 8 bit_step i.
Proof. intros Hi. unfold tab. by rewrite tab_entries. Qed.

Lemma lxor_mod k a b : 0 <= k -> Z.lxor a b mod 2 ^ k = Z.lxor (a mod 2 ^ k) (b mod 2 ^ k).
Proof.
  intros Hk. apply Z.bits_inj'. intros n Hn. rewrite Z.lxor_spec. destruct (Z.lt_ge_cases n k).
  - by rewrite !Z.mod_pow2_bits_low, Z.lxor_spec by done.
  - by rewrite !Z.mod_pow2_bits_high by lia.
Qed.

Lemma index_range s b : is_byte b -> 0 <= Z.lxor (s mod 256) b < 256.
Proof.
  intros Hb. unfold is_byte in Hb. change 256 with (2 ^ 8) in *.
  rewrite <- (Z.mod_small b (2 ^ 8)), <- lxor_mod by lia. apply Z.mod_pos_bound. lia.
Qed.

Lemma byte_tab_step s b : is_byte b -> byte_step s b = tab_step s b.
Proof.
  intros Hb. unfold byte_step, tab_step. rewrite tab_iter by (by apply index_range).
  assert (Z.lxor s b = Z.lxor (Z.lxor (s mod 256) b) (2 ^ Z.of_nat 8 * Z.shiftr s 8)) as ->.
  { unfold is_byte in Hb. rewrite Z.mul_comm, <- Z.shiftl_mul_pow2 by done.
    apply Z.bits_inj'. intros n Hn. rewrite !Z.lxor_spec. change (Z.of_nat 8) with 8.
    change 256 with (2 ^ 8). destruct (Z.lt_ge_cases n 8).
    - rewrite Z.mod_pow2_bits_low, Z.shiftl_spec_low by done. by rewrite xorb_false_r.
    - rewrite Z.mod_pow2_bits_high, Z.shiftl_spec, Z.shiftr_spec by lia.
      replace (n - 8 + 8) with n by lia. rewrite xorb_false_l. apply xorb_comm. }
  by rewrite iter_lxor, iter_even.
Qed.

Lemma crc_loop_tab s : forall pre crc,
  Forall is_byte s -> forall n, n = length s -> forall r,
  crc_loop n crc (pre ++ s ++ r) (zlen pre) = Some (crc_tab crc s).
Proof.
  induction s as [|b s IH]; intros pre crc Hs n -> r; [done|]. apply Forall_cons_iff in Hs as [Hb Hs].
  cbn [crc_loop length]. cbn [app]. rewrite rd_app by done. osimpl.
  change (wrap 8 crc) with (crc mod 256). rewrite tab_entries by (by apply index_range). osimpl.
  replace (pre ++ b :: s ++ r) with ((pre ++ [b]) ++ s ++ r) by (by rewrite <- app_assoc).
  replace (zlen pre + 1) with (zlen (pre ++ [b])) by zsize.
  rewrite IH by done. cbn [crc_tab foldl]. unfold tab_step. by rewrite tab_iter by (by apply index_range).
Qed.

Lemma crc64_tab_spec crc s r : Forall is_byte s -> crc64 crc (s ++ r) (zlen s) = Some (crc_tab crc s).
Proof. intros Hs. unfold crc64. rewrite Nat2Z.id. by apply (crc_loop_tab s []). Qed.

Lemma crc_bits_tab s : forall crc, Forall is_byte s -> crc_bits crc s = crc_tab crc s.
Proof.
  induction s as [|b s IH]; intros crc Hs; [done|]. apply Forall_cons_iff in Hs as [Hb Hs].
  cbn [crc_bits crc_tab foldl]. rewrite byte_tab_step by done. by apply IH.
Qed.

Lemma crc_tab_app crc a b : crc_tab crc (a ++ b) = crc_tab (crc_tab crc a) b.
Proof. apply foldl_app. Qed.

(** ** What a checksum says about the bytes *)
Lemma tab_range i : 0 <= i < 256 -> 0 <= tab i < 2 ^ 64.
Proof.
  assert (forallb (fun t => (0 <=? t) && (t <? 2 ^ 64)) crc64_tab = true) as H by (vm_compute; reflexivity).
  intros Hi. rewrite tab_iter by done.
  pose proof (tab_entries i Hi) as E. apply rd_Some in E as [_ E].
  apply list_elem_of_lookup_2, list_elem_of_In in E.
  apply (proj1 (forallb_forall _ _) H) in E. apply andb_true_iff in E as [E1%Z.leb_le E2%Z.ltb_lt]. done.
Qed.

(** The highest byte of an entry tells which entry it is. *)
Lemma tab_high i j :
  0 <= i < 256 -> 0 <= j < 256 -> Z.shiftr (tab i) 56 = Z.shiftr (tab j) 56 -> i = j.
Proof.
  assert (NoDup ((fun t => Z.shiftr t 56) <$> crc64_tab)) as H.
  { apply (bool_decide_unpack _). vm_compute. exact I. }
  intros Hi Hj E. rewrite !tab_iter in E by done.
  pose proof (tab_entries i Hi) as Ei. pose proof (tab_entries j Hj) as Ej.
  apply rd_Some in Ei as [_ Ei], Ej as [_ Ej].
  assert (Z.to_nat i = Z.to_nat j); [|lia].
  eapply (proj1 (NoDup_alt _) H); rewrite list_lookup_fmap; [rewrite Ei; reflexivity|rewrite Ej].
  change (Some (Z.shiftr (Nat.iter 8 bit_step j) 56) = Some (Z.shiftr (Nat.iter 8 bit_step i) 56)).
  by rewrite E.
Qed.

Lemma lxor_cancel a b c : Z.lxor a b = Z.lxor a c -> b = c.
Proof.
  intros E. apply (f_equal (Z.lxor a)) in E.
  by rewrite <- !Z.lxor_assoc, Z.lxor_nilpotent, !Z.lxor_0_l in E.
Qed.

Definition word (s : Z) : Prop := 0 <= s < 2 ^ 64.

Lemma lxor_word a b : word a -> word b -> word (Z.lxor a b).
Proof.
  unfold word. intros Ha Hb.
  rewrite <- (Z.mod_small a (2 ^ 64)), <- (Z.mod_small b (2 ^ 64)), <- lxor_mod by lia.
  apply Z.mod_pos_bound. lia.
Qed.

Lemma shiftr_word s k : word s -> 0 <= k -> word (Z.shiftr s k).
Proof.
  unfold word. intros Hs Hk. rewrite Z.shiftr_div_pow2 by done.
  pose proof (Z.pow_pos_nonneg 2 k ltac:(lia) Hk).
  split; [apply Z.div_pos; lia|]. apply (Z.le_lt_trans _ s); [|lia]. apply Z.div_le_upper_bound; nia.
Qed.

Lemma step_word s b : word s -> is_byte b -> word (tab_step s b).
Proof.
  intros Hs Hb. apply lxor_word; [apply tab_range, index_range, Hb|by apply shiftr_word].
Qed.

Lemma fold_word bs : forall s, word s -> Forall is_byte bs -> word (crc_tab s bs).
Proof.
  induction bs as [|b bs IH]; intros s Hs Hb; [done|]. apply Forall_cons_iff in Hb as [Hb Hbs].
  cbn [crc_tab foldl]. apply IH; [by apply step_word|done].
Qed.

Lemma shiftr_out s k : word s -> 64 <= k -> Z.shiftr s k = 0.
Proof.
  intros Hs Hk. unfold word in Hs. rewrite Z.shiftr_div_pow2 by lia. apply Z.div_small.
  pose proof (Z.pow_le_mono_r 2 64 k). lia.
Qed.

(** The upper bytes of the state after a byte determine the index that was
    used and the upper bytes of the state before. *)
Lemma step_inj m s s' b b' :
  0 <= m < 8 -> word s -> word s' -> is_byte b -> is_byte b' ->
  Z.shiftr (tab_step s b) (8 * m) = Z.shiftr (tab_step s' b') (8 * m) ->
  Z.lxor (s mod 256) b = Z.lxor (s' mod 256) b' /\ Z.shiftr s (8 * (m + 1)) = Z.shiftr s' (8 * (m + 1)).
Proof.
  intros Hm Hs Hs' Hb Hb' E.
  assert (Z.lxor (s mod 256) b = Z.lxor (s' mod 256) b') as Ei.
  { apply tab_high; [by apply index_range..|].
    apply (f_equal (fun z => Z.shiftr z (56 - 8 * m))) in E. unfold tab_step in E.
    rewrite !Z.shiftr_shiftr in E by lia. replace (8 * m + (56 - 8 * m)) with 56 in E by lia.
    rewrite !Z.shiftr_lxor, !Z.shiftr_shiftr in E by lia.
    rewrite !(shiftr_out _ (8 + 56)), !Z.lxor_0_r in E by (done || lia). done. }
  split; [done|]. unfold tab_step in E. rewrite Ei, !Z.shiftr_lxor in E. apply lxor_cancel in E.
  rewrite !Z.shiftr_shiftr in E by lia. by replace (8 * (m + 1)) with (8 + 8 * m) by lia.
Qed.

Lemma fold_inj a : forall b s s' m,
  length a = length b -> 0 <= m -> m + zlen a <= 8 -> Forall is_byte a -> Forall is_byte b ->
  word s -> word s' -> Z.shiftr (crc_tab s a) (8 * m) = Z.shiftr (crc_tab s' b) (8 * m) -> s = s' -> a = b.
Proof.
  induction a as [|x a IH] using rev_ind; intros b s s' m Hl Hm Hk Ha Hb Hs Hs' E Ess.
  { symmetry in Hl. by apply nil_length_inv in Hl. }
  destruct b as [|y b _] using rev_ind; [rewrite length_app in Hl; cbn in Hl; lia|].
  rewrite !length_app in *. cbn [length] in *.
  apply Forall_app in Ha as [Ha [Hx _]%Forall_cons_iff], Hb as [Hb [Hy _]%Forall_cons_iff].
  rewrite !crc_tab_app in E. cbn [crc_tab foldl] in E.
  apply step_inj in E as [Ei E]; [|lia|by apply fold_word..|done|done].
  assert (a = b) as -> by (apply (IH b s s' (m + 1)); try done; lia). subst s'.
  by apply lxor_cancel in Ei as ->.
Qed.

Lemma step_same s s' b : word s -> word s' -> is_byte b -> tab_step s b = tab_step s' b -> s = s'.
Proof.
  intros Hs Hs' Hb E. apply (f_equal (fun z => Z.shiftr z (8 * 0))) in E.
  apply step_inj in E as [Ei E]; [|lia|done..]. rewrite !(Z.lxor_comm _ b) in Ei. apply lxor_cancel in Ei.
  rewrite !Z.shiftr_div_pow2 in E by lia. change (2 ^ (8 * (0 + 1))) with 256 in E.
  rewrite (Z.div_mod s 256), (Z.div_mod s' 256) by lia. congruence.
Qed.

Lemma fold_same q : forall s s', word s -> word s' -> Forall is_byte q -> crc_tab s q = crc_tab s' q -> s = s'.
Proof.
  induction q as [|b q IH]; intros s s' Hs Hs' Hq E; [done|]. apply Forall_cons_iff in Hq as [Hb Hq].
  cbn [crc_tab foldl] in E. apply IH in E; [|by apply step_word..|done]. by apply step_same in E.
Qed.

(** A change of at most eight consecutive bytes changes the checksum. *)
Lemma burst_detected p a b q s :
  word s -> length a = length b -> (length a <= 8)%nat ->
  Forall is_byte (p ++ a ++ q) -> Forall is_byte b ->
  crc_tab s (p ++ a ++ q) = crc_tab s (p ++ b ++ q) -> a = b.
Proof.
  intros Hs Hl Hk Hby Hb E. rewrite !Forall_app in Hby. destruct Hby as (Hp & Ha & Hq).
  rewrite !crc_tab_app in E. pose proof (fold_word p s Hs Hp) as Hw.
  apply fold_same in E; [|by apply fold_word..|done].
  apply (fold_inj a b (crc_tab s p) (crc_tab s p) 0 Hl); [lia|lia|done..|by rewrite E|done].
Qed.

(** The bytes of the state itself lead to zero. *)
Lemma residue n : forall s, word s -> crc_tab s (le n s) = s / 256 ^ Z.of_nat n.
Proof.
  induction n as [|n IH]; intros s Hs; [cbn; by rewrite Z.div_1_r|]. cbn [le crc_tab foldl].
  assert (tab_step s (s mod 256) = s / 256) as ->.
  { unfold tab_step. rewrite Z.lxor_nilpotent, Z.shiftr_div_pow2 by done.
    change (tab 0) with 0. by rewrite Z.lxor_0_l. }
  change (foldl tab_step) with crc_tab. rewrite IH.
  - rewrite Nat2Z.inj_succ, Z.pow_succ_r by lia. rewrite Z.div_div by lia. done.
  - pose proof (shiftr_word s 8 Hs ltac:(lia)) as H. by rewrite Z.shiftr_div_pow2 in H.
Qed.

(** A message followed by eight bytes has checksum zero exactly when these are
    its checksum. *)
Lemma residue_zero m f :
  Forall is_byte m -> Forall is_byte f -> length f = 8%nat ->
  crc_tab 0 (m ++ f) = 0 <-> f = le 8 (crc_tab 0 m).
Proof.
  intros Hm Hf Hl. assert (word (crc_tab 0 m)) as Hw by (apply fold_word; [unfold word; lia|done]).
  rewrite crc_tab_app. assert (crc_tab (crc_tab 0 m) (le 8 (crc_tab 0 m)) = 0) as Hz.
  { rewrite residue by done. apply Z.div_small. exact Hw. }
  split; [|by intros ->]. intros E.
  apply (fold_inj f (le 8 (crc_tab 0 m)) (crc_tab 0 m) (crc_tab 0 m) 0);
    [by rewrite le_length|lia|lia|done|apply le_bytes|done|done|by rewrite E, Hz|done].
Qed.

(** C38: The table driven checksum is the bitwise one of the polynomial
    0xad93d23594c935a9, whatever the bytes and the value it starts from; the
    check value of the header comment follows. *)
Theorem crc64_equivalent crc s r :
  Forall is_byte s ->
  crc64 crc (s ++ r) (zlen s) = Some (crc_bits crc s) /\
  crc64 0 [49; 50; 51; 52; 53; 54; 55; 56; 57] 9 = Some 0xe9c6d914c4b8d9ca.
Proof.
  intros Hs. split; [|by vm_compute]. rewrite crc_bits_tab by done. by apply crc64_tab_spec.
Qed.

Lemma crc64_equivalent_witness :
  crc64 5 ([1; 255; 0] ++ [7]) 3 = Some (crc_bits 5 [1; 255; 0]) /\
  crc64 0 [49; 50; 51; 52; 53; 54; 55; 56; 57] 9 = Some 0xe9c6d914c4b8d9ca.
Proof. apply (crc64_equivalent 5 [1; 255; 0] [7]). repeat constructor; unfold is_byte; lia. Defined.

End Crc64.
