(* ===== verification/Rio.v ===== *)
(** * Streams (src/redis-2.8/src/rio.c, rio.h)

    A stream reads or writes through a backend, in pieces of bounded size, and
    keeps a checksum of everything that went through it. The backend is an
    interface; the one in memory implements it. *)
From stdpp Require Import base tactics list numbers option.
From Stdlib Require Import ZArith Lia.
From S2P Require Import Prelude Crc64 Util Sds.
Import CInt CMem Bytes Crc64 Util Sds.
Open Scope redis_scope.
Open Scope Z_scope.

Module Rio.

(** The methods of a stream: [None] is undefined behaviour, a failed read or
    write a result. *)
Class Backend (B : Type) := {
  io_read : B -> Z -> option (B * option (list Z));
  io_write : B -> list Z -> option (B * bool);
  io_tell : B -> Z }.

(** [update_cksum] is [rioGenericUpdateChecksum] or null. *)
Record rio (B : Type) := Rio {
  io : B; update_cksum : bool; cksum : Z; processed_bytes : Z; max_processing_chunk : Z }.
Arguments Rio {B} _ _ _ _ _.
Arguments io {B} _.
Arguments update_cksum {B} _.
Arguments cksum {B} _.
Arguments processed_bytes {B} _.
Arguments max_processing_chunk {B} _.

Section Streams.
Context {B : Type} `{Backend B}.

Definition with_io (r : rio B) (b : B) := Rio b (update_cksum r) (cksum r) (processed_bytes r) (max_processing_chunk r).
Definition with_cksum (r : rio B) c := Rio (io r) (update_cksum r) c (processed_bytes r) (max_processing_chunk r).
Definition with_processed (r : rio B) n := Rio (io r) (update_cksum r) (cksum r) n (max_processing_chunk r).

Definition rioGenericUpdateChecksum (r : rio B) (bs : list Z) (len : Z) : option (rio B) :=
  c ← crc64 (cksum r) bs len; Some (with_cksum r c).

(** The size of the next piece. *)
Definition chunk (r : rio B) (len : Z) : Z :=
  if negb (max_processing_chunk r =? 0) && (max_processing_chunk r <? len)
  then max_processing_chunk r else len.

Fixpoint write_loop (fuel : nat) (r : rio B) (bs : list Z) : option (rio B * bool) :=
  if zlen bs =? 0 then Some (r, true)
  else match fuel with
  | O => None
  | S fuel =>
      let n := chunk r (zlen bs) in
      let piece := take (Z.to_nat n) bs in
      r ← (if update_cksum r then rioGenericUpdateChecksum r piece n else Some r);
      '(b, ok) ← io_write (io r) piece;
      let r := with_io r b in
      if negb ok then Some (r, false)
      else write_loop fuel (with_processed r (uint64 (processed_bytes r + n))) (drop (Z.to_nat n) bs)
  end.

Definition rioWrite (r : rio B) (bs : list Z) : option (rio B * bool) := write_loop (length bs) r bs.

(** The bytes that were read are the result: [got] holds the pieces so far. *)
Fixpoint read_loop (fuel : nat) (r : rio B) (len : Z) (got : list Z) : option (rio B * option (list Z)) :=
  if len =? 0 then Some (r, Some got)
  else match fuel with
  | O => None
  | S fuel =>
      let n := chunk r len in
      '(b, res) ← io_read (io r) n;
      let r := with_io r b in
      match res with
      | None => Some (r, None)
      | Some piece =>
          r ← (if update_cksum r then rioGenericUpdateChecksum r piece n else Some r);
          read_loop fuel (with_processed r (uint64 (processed_bytes r + n))) (len - n) (got ++ piece)
      end
  end.

Definition rioRead (r : rio B) (len : Z) : option (rio B * option (list Z)) := read_loop (Z.to_nat len) r len [].

Definition rioTell (r : rio B) : Z := io_tell (io r).

(** ** The protocol on a stream *)
Context (uninit : nat -> Z).

(** The results are the numbers of bytes written, 0 for an error. *)
Definition rioWriteBulkCount (r : rio B) (prefix count : Z) : option (rio B * Z) :=
  let cbuf := realloc uninit 128 [] in
  cbuf ← wr cbuf 0 prefix;
  '(tl, n) ← ll2string (drop 1 cbuf) 127 count;
  let clen := 1 + n in
  cbuf ← wrn (take 1 cbuf ++ tl) clen [13; 10];
  let clen := clen + 2 in
  bs ← rdn cbuf 0 clen;
  '(r, ok) ← rioWrite r bs;
  Some (r, if ok : bool then clen else 0).

Definition rioWriteBulkString (r : rio B) (bs : list Z) (len : Z) : option (rio B * Z) :=
  '(r, nwritten) ← rioWriteBulkCount r 36 (int32 len);
  if nwritten =? 0 then Some (r, 0)
  else
    x ← rdn bs 0 len;
    '(r, ok) ← (if 0 <? len then rioWrite r x else Some (r, true));
    if negb ok then Some (r, 0)
    else
      '(r, ok) ← rioWrite r [13; 10];
      if negb ok then Some (r, 0) else Some (r, uint64 (nwritten + len + 2)).

Definition rioWriteBulkLongLong (r : rio B) (l : Z) : option (rio B * Z) :=
  '(lbuf, llen) ← ll2string (realloc uninit 32 []) 32 l;
  rioWriteBulkString r lbuf llen.
End Streams.

(** ** The backend in memory *)
Record buffer := Buffer { ptr : sdshdr; pos : Z }.

Section Memory.
Context (uninit : nat -> Z).

Definition rioBufferWrite (b : buffer) (bs : list Z) : option (buffer * bool) :=
  s ← sdscatlen uninit (ptr b) bs (zlen bs);
  Some (Buffer s (pos b + zlen bs), true).

Definition rioBufferRead (b : buffer) (len : Z) : option (buffer * option (list Z)) :=
  if uint64 (sdslen (ptr b) - pos b) <? len then Some (b, None)
  else
    x ← rdn (buf (ptr b)) (pos b) len;
    Some (Buffer (ptr b) (pos b + len), Some x).

Definition rioBufferTell (b : buffer) : Z := pos b.

#[export] Instance rioBufferIO : Backend buffer :=
  {| io_read := rioBufferRead; io_write := rioBufferWrite; io_tell := rioBufferTell |}.
End Memory.

Definition rioInitWithBuffer (s : sdshdr) : rio buffer := Rio (Buffer s 0) false 0 0 0.

(** ** What a backend promises

    [written b l]: the bytes [l] have been written. [ahead b l]: the bytes [l]
    can be read. A write succeeds as long as the total stays below
    [capacity]. *)
Class Stream (B : Type) `{Backend B} := {
  written : B -> list Z -> Prop;
  ahead : B -> list Z -> Prop;
  capacity : Z;
  write_ok b l x : written b l -> zlen l + zlen x < capacity ->
    exists b', io_write b x = Some (b', true) /\ written b' (l ++ x);
  read_ok b x l : ahead b (x ++ l) -> exists b', io_read b (zlen x) = Some (b', Some x) /\ ahead b' l;
  read_short b l n : ahead b l -> zlen l < n -> exists b', io_read b n = Some (b', None) }.

Section Laws.
Context {B : Type} `{Stream B}.

(** A stream whose checksum, if it keeps one, is that of the bytes [l]. *)
Record sums (r : rio B) (l : list Z) : Prop := Sums {
  su_chunk : 0 <= max_processing_chunk r;
  su_bytes : Forall is_byte l;
  su_cksum : update_cksum r = true -> cksum r = crc_tab 0 l;
  su_count : processed_bytes r = uint64 (zlen l) }.

Definition writing (r : rio B) (l : list Z) : Prop := written (io r) l /\ sums r l.
Definition reading (r : rio B) (past l : list Z) : Prop := ahead (io r) l /\ Forall is_byte l /\ sums r past.

Lemma chunk_range (r : rio B) n : 0 <= max_processing_chunk r -> 0 < n -> 0 < chunk r n <= n.
Proof.
  intros Hm Hn. unfold chunk. destruct (Z.eqb_spec (max_processing_chunk r) 0); cbn [negb andb]; [lia|].
  destruct (Z.ltb_spec (max_processing_chunk r) n); lia.
Qed.

(** The checksum of one more piece. *)
Lemma sums_piece r l x :
  sums r l -> Forall is_byte x ->
  exists c, (if update_cksum r then rioGenericUpdateChecksum r x (zlen x) else Some r) = Some (with_cksum r c) /\
    forall b, sums (with_processed (with_io (with_cksum r c) b) (uint64 (processed_bytes r + zlen x))) (l ++ x).
Proof.
  intros [Hc Hb Hs Hn] Hx.
  assert (uint64 (processed_bytes r + zlen x) = uint64 (zlen (l ++ x))) as Hcount.
  { rewrite Hn, length_app, Nat2Z.inj_add. unfold wrap. by rewrite Zplus_mod_idemp_l. }
  assert (Forall is_byte (l ++ x)) as Hlx by by apply Forall_app.
  destruct (update_cksum r) eqn:Hu.
  - unfold rioGenericUpdateChecksum. pose proof (crc64_tab_spec (cksum r) x [] Hx) as E.
    rewrite app_nil_r in E. rewrite E. osimpl. eexists. split; [done|].
    constructor; cbn; [done|done| |done]. intros _. by rewrite crc_tab_app, Hs.
  - exists (cksum r). split; [by destruct r|]. constructor; cbn; [done|done|by rewrite Hu|done].
Qed.

(** A piece of the bytes [x], cut after [n]. *)
Lemma cut n (x : list Z) : 0 <= n <= zlen x ->
  exists y z, x = y ++ z /\ zlen y = n /\ zlen z = zlen x - n /\ take (Z.to_nat n) x = y /\ drop (Z.to_nat n) x = z.
Proof.
  intros Hn. exists (take (Z.to_nat n) x), (drop (Z.to_nat n) x). rewrite take_drop, length_take, length_drop.
  split; [done|]. split; [lia|]. split; [lia|done].
Qed.

Lemma write_loop_spec fuel : forall r l x,
  writing r l -> Forall is_byte x -> zlen l + zlen x < capacity -> (length x <= fuel)%nat ->
  exists r', write_loop fuel r x = Some (r', true) /\ writing r' (l ++ x) /\
    update_cksum r' = update_cksum r /\ max_processing_chunk r' = max_processing_chunk r.
Proof.
  induction fuel as [|fuel IH]; intros r l x [Hw Hs] Hx Hcap Hf; (destruct (decide (x = [])) as [->|Hne];
    [exists r; rewrite app_nil_r; split; [done|split; [done|done]]|]);
    (assert (0 < zlen x) as Hpos by (destruct x; [done|cbn; lia])); [lia|].
  cbn [write_loop]. rewrite (proj2 (Z.eqb_neq _ _)) by lia.
  pose proof (chunk_range r (zlen x) (su_chunk _ _ Hs) Hpos) as Hn.
  destruct (cut (chunk r (zlen x)) x) as (y & z & Exy & Hy & Hz & -> & ->); [lia|]. rewrite <- Hy in *.
  rewrite Exy in Hx. apply Forall_app in Hx as [Hx1 Hx2].
  destruct (write_ok (io r) l y Hw) as (b & Eb & Hb); [lia|].
  destruct (sums_piece r l y Hs Hx1) as (c & -> & Hs1). osimpl. change (io (with_cksum r c)) with (io r).
  rewrite Eb. osimpl. cbn [negb].
  destruct (IH (with_processed (with_io (with_cksum r c) b) (uint64 (processed_bytes r + zlen y))) (l ++ y) z)
    as (r' & E & Hw' & Hu' & Hm'); [done|done|rewrite length_app; lia|lia|].
  exists r'. split; [exact E|]. rewrite <- app_assoc, <- Exy in Hw'. done.
Qed.

Lemma rioWrite_spec r l x :
  writing r l -> Forall is_byte x -> zlen l + zlen x < capacity ->
  exists r', rioWrite r x = Some (r', true) /\ writing r' (l ++ x) /\
    update_cksum r' = update_cksum r /\ max_processing_chunk r' = max_processing_chunk r.
Proof. intros. by apply write_loop_spec. Qed.

Lemma read_loop_spec fuel : forall r past x l got,
  reading r past (x ++ l) -> (length x <= fuel)%nat ->
  exists r', read_loop fuel r (zlen x) got = Some (r', Some (got ++ x)) /\ reading r' (past ++ x) l /\
    update_cksum r' = update_cksum r /\ max_processing_chunk r' = max_processing_chunk r.
Proof.
  induction fuel as [|fuel IH]; intros r past x l got (Ha & Hby & Hs) Hf; (destruct (decide (x = [])) as [->|Hne];
    [exists r; rewrite !app_nil_r; split; [done|split; [done|done]]|]);
    (assert (0 < zlen x) as Hpos by (destruct x; [done|cbn; lia])); [lia|].
  cbn [read_loop]. rewrite (proj2 (Z.eqb_neq _ _)) by lia.
  pose proof (chunk_range r (zlen x) (su_chunk _ _ Hs) Hpos) as Hn.
  destruct (cut (chunk r (zlen x)) x) as (y & z & Exy & Hy & Hz & _ & _); [lia|]. rewrite <- Hy in *.
  rewrite Exy, <- app_assoc in Ha, Hby. apply Forall_app in Hby as [Hby1 Hby2].
  destruct (read_ok (io r) y (z ++ l) Ha) as (b & -> & Hb). osimpl.
  destruct (sums_piece (with_io r b) past y) as (c & -> & Hs1); [by destruct Hs|done|]. osimpl.
  rewrite <- Hz. 
  destruct (IH (with_processed (with_cksum (with_io r b) c) (uint64 (processed_bytes r + zlen y))) (past ++ y) z l (got ++ y))
    as (r' & E & Hw' & Hu' & Hm'); [split; [done|]; split; [done|apply (Hs1 b)]|lia|].
  exists r'. rewrite <- !app_assoc, <- !Exy in *. split; [exact E|]. done.
Qed.

Lemma rioRead_spec r past x l :
  reading r past (x ++ l) ->
  exists r', rioRead r (zlen x) = Some (r', Some x) /\ reading r' (past ++ x) l /\
    update_cksum r' = update_cksum r /\ max_processing_chunk r' = max_processing_chunk r.
Proof. intros Hr. apply (read_loop_spec _ r past x l [] Hr). lia. Qed.

Lemma rioRead_short r past l n :
  reading r past l -> zlen l < n -> exists r', rioRead r n = Some (r', None).
Proof.
  unfold rioRead. generalize (@nil Z) as got. intros got. revert r past l n got.
  assert (forall fuel r past l n got, reading r past l -> zlen l < n -> (Z.to_nat n <= fuel)%nat ->
    exists r', read_loop fuel r n got = Some (r', None)) as Hmain; [|intros; by eapply Hmain].
  induction fuel as [|fuel IH]; intros r past l n got (Ha & Hby & Hs) Hn Hf; [lia|]. cbn [read_loop].
  rewrite (proj2 (Z.eqb_neq _ _)) by lia.
  pose proof (chunk_range r n (su_chunk _ _ Hs) ltac:(lia)) as Hc. set (m := chunk r n) in *.
  destruct (Z.lt_ge_cases (zlen l) m) as [Hlt|Hge].
  { destruct (read_short (io r) l m Ha Hlt) as (b & ->). osimpl. by eexists. }
  destruct (cut m l) as (y & z & Exy & Hy & Hz & _ & _); [lia|]. rewrite <- Hy in *.
  rewrite Exy in Ha, Hby. apply Forall_app in Hby as [Hby1 Hby2].
  destruct (read_ok (io r) y z Ha) as (b & -> & Hb). osimpl.
  destruct (sums_piece (with_io r b) past y) as (c & -> & Hs1); [by destruct Hs|done|]. osimpl.
  apply (IH _ (past ++ y) z); [split; [done|]; split; [done|apply (Hs1 b)]|lia|lia].
Qed.
End Laws.

(** ** Requests written to a stream *)
Section Bulk.
Context {B : Type} `{Stream B} (uninit : nat -> Z).

Definition bulk_count (prefix n : Z) : list Z := prefix :: dec n ++ [13; 10].

Lemma dec_bytes v : in_s 64 v -> Forall is_byte (dec v).
Proof.
  intros Hv. unfold dec, c_minus. destruct (Z.ltb_spec v 0); [constructor; [unfold is_byte; lia|]|];
    (eapply Forall_impl; [|apply udec_digits; lia]); unfold digit, is_byte; lia.
Qed.

Lemma bulk_count_bytes prefix n : is_byte prefix -> in_s 64 n -> Forall is_byte (bulk_count prefix n).
Proof.
  intros Hp Hn. constructor; [done|]. apply Forall_app. split; [by apply dec_bytes|].
  repeat constructor; unfold is_byte; lia.
Qed.

Lemma rioWriteBulkCount_spec r l prefix count :
  writing r l -> is_byte prefix -> in_s 64 count -> zlen l + zlen (bulk_count prefix count) < capacity ->
  exists r', rioWriteBulkCount uninit r prefix count = Some (r', zlen (bulk_count prefix count)) /\
    writing r' (l ++ bulk_count prefix count).
Proof.
  intros Hw Hp Hc Hcap. unfold rioWriteBulkCount.
  pose proof (realloc_length uninit 128 [] ltac:(lia)) as Hb.
  destruct (realloc uninit 128 []) as [|b0 b]; [cbn in Hb; lia|]. cbn [length] in Hb.
  rewrite wr_0. osimpl. change (drop 1 (prefix :: b)) with b. change (take 1 (prefix :: b)) with [prefix].
  pose proof (ll2string_spec b count Hc) as E. replace (zlen b) with 127 in E by lia. rewrite E. clear E.
  pose proof (dec_length count Hc) as Hd. rewrite (proj2 (Z.leb_gt _ _)) by lia. osimpl.
  pose proof (length_drop b (S (length (dec count)))) as Hl.
  destruct (drop (S (length (dec count))) b) as [|y t]; [cbn in Hl; lia|].
  assert (([prefix] ++ dec count ++ 0 :: y :: t) = (prefix :: dec count) ++ [0; y] ++ t) as -> by done.
  rewrite wrn_app by (done || (cbn; lia)). osimpl.
  assert (((prefix :: dec count) ++ [13; 10] ++ t) = [] ++ bulk_count prefix count ++ t) as ->
    by (unfold bulk_count; cbn [app]; by rewrite <- app_assoc).
  assert (1 + zlen (dec count) + 2 = zlen (bulk_count prefix count)) as ->
    by (unfold bulk_count; cbn [length]; rewrite length_app; cbn [length]; lia).
  rewrite rdn_app by done. osimpl.
  destruct (rioWrite_spec r l (bulk_count prefix count) Hw) as (r' & -> & Hw' & _);
    [by apply bulk_count_bytes|done|]. osimpl. by exists r'.
Qed.

Definition bulk_string (a : list Z) : list Z := bulk_count 36 (zlen a) ++ a ++ [13; 10].

Lemma bulk_string_size a : in_s 64 (zlen a) -> zlen a + 6 <= zlen (bulk_string a) <= zlen a + 26.
Proof.
  intros Ha. unfold bulk_string, bulk_count. pose proof (dec_length _ Ha). rewrite length_app. cbn [length].
  rewrite !length_app. cbn [length]. lia.
Qed.

Lemma rioWriteBulkString_spec r l a t :
  writing r l -> Forall is_byte a -> zlen a < 2 ^ 31 -> zlen l + zlen (bulk_string a) < capacity ->
  exists r', rioWriteBulkString uninit r (a ++ t) (zlen a) = Some (r', zlen (bulk_string a)) /\
    writing r' (l ++ bulk_string a).
Proof.
  intros Hw Ha Hl Hcap. unfold rioWriteBulkString. rewrite swrap_small by (unfold in_s; lia).
  assert (in_s 64 (zlen a)) as Hs by (unfold in_s; lia). unfold bulk_string in *. rewrite !length_app in *.
  cbn [length] in *.
  destruct (rioWriteBulkCount_spec r l 36 (zlen a) Hw) as (r1 & -> & Hw1); [unfold is_byte; lia|done|lia|].
  osimpl. rewrite (proj2 (Z.eqb_neq _ _)) by (unfold bulk_count; cbn [length]; lia).
  rewrite (rdn_app [] a t) by done. osimpl.
  assert (exists r2, (if 0 <? zlen a then rioWrite r1 a else Some (r1, true)) = Some (r2, true) /\
    writing r2 ((l ++ bulk_count 36 (zlen a)) ++ a)) as (r2 & -> & Hw2).
  { destruct (Z.ltb_spec 0 (zlen a)).
    - destruct (rioWrite_spec r1 _ a Hw1 Ha) as (r2 & -> & Hw2 & _); [rewrite length_app; lia|]. by exists r2.
    - destruct a; [|cbn in *; lia]. exists r1. by rewrite app_nil_r. }
  osimpl. destruct (rioWrite_spec r2 _ [13; 10] Hw2) as (r3 & -> & Hw3 & _).
  { repeat constructor; unfold is_byte; lia. }
  { rewrite !length_app. cbn [length]. lia. }
  osimpl. exists r3. split; [|by rewrite <- !app_assoc in Hw3].
  rewrite wrap_small; [do 2 f_equal; lia|]. pose proof (dec_length _ Hs). unfold in_u, bulk_count. cbn [length].
  rewrite length_app. cbn [length]. lia.
Qed.

Lemma rioWriteBulkLongLong_spec r l v :
  writing r l -> in_s 64 v -> zlen l + zlen (bulk_string (dec v)) < capacity ->
  exists r', rioWriteBulkLongLong uninit r v = Some (r', zlen (bulk_string (dec v))) /\
    writing r' (l ++ bulk_string (dec v)).
Proof.
  intros Hw Hv Hcap. unfold rioWriteBulkLongLong.
  pose proof (realloc_length uninit 32 [] ltac:(lia)) as Hb. set (b := realloc uninit 32 []) in *.
  pose proof (ll2string_spec b v Hv) as E. rewrite Hb in E. rewrite E. pose proof (dec_length v Hv).
  rewrite (proj2 (Z.leb_gt _ _)) by lia. osimpl.
  apply rioWriteBulkString_spec; [done|by apply dec_bytes|lia|done].
Qed.
End Bulk.

(** ** The backend in memory keeps the promise *)
Section MemoryLaws.
Context (uninit : nat -> Z).

Lemma buffer_write b l x :
  repr (ptr b) l -> zlen l + zlen x < 2 ^ 31 - 2 ^ 20 ->
  exists b', rioBufferWrite uninit b x = Some (b', true) /\ repr (ptr b') (l ++ x).
Proof.
  intros Hr Hb. unfold rioBufferWrite.
  destruct (catlen_spec uninit (ptr b) l x [] (zlen x) Hr eq_refl Hb) as (s & E & Hs).
  rewrite app_nil_r in E. rewrite E. osimpl. by eexists.
Qed.

Definition buffer_ahead (b : buffer) (l : list Z) : Prop :=
  exists l0, repr (ptr b) (l0 ++ l) /\ pos b = zlen l0.

Lemma buffer_left b l : buffer_ahead b l -> uint64 (sdslen (ptr b) - pos b) = zlen l.
Proof.
  intros (l0 & (t & -> & Ht) & ->). unfold sdslen. cbn [len]. rewrite length_app in *.
  rewrite wrap_small by (unfold in_u; lia). lia.
Qed.

Lemma repr_buf s l : repr s l -> exists t, buf s = l ++ 0 :: t.
Proof. intros (t & -> & _). by exists t. Qed.

Lemma buffer_read b x l :
  buffer_ahead b (x ++ l) -> exists b', rioBufferRead b (zlen x) = Some (b', Some x) /\ buffer_ahead b' l.
Proof.
  intros Ha. unfold rioBufferRead. rewrite (buffer_left _ _ Ha), length_app, (proj2 (Z.ltb_ge _ _)) by lia.
  destruct Ha as (l0 & Hr & Hp). destruct (repr_buf _ _ Hr) as [t ->]. rewrite Hp, <- !app_assoc.
  rewrite rdn_app by done. osimpl. eexists. split; [done|]. exists (l0 ++ x). cbn [ptr pos].
  rewrite <- app_assoc. split; [done|]. rewrite length_app. lia.
Qed.

Lemma buffer_short b l n :
  buffer_ahead b l -> zlen l < n -> exists b', rioBufferRead b n = Some (b', None).
Proof.
  intros Ha Hn. unfold rioBufferRead. rewrite (buffer_left _ _ Ha), (proj2 (Z.ltb_lt _ _)) by done. by eexists.
Qed.

#[export] Instance buffer_stream : Stream buffer (H := rioBufferIO uninit) :=
  Build_Stream buffer (rioBufferIO uninit) (fun b l => repr (ptr b) l) buffer_ahead (2 ^ 31 - 2 ^ 20)
    buffer_write buffer_read buffer_short.

Lemma init_writing s l :
  repr s l -> l = [] -> writing (rioInitWithBuffer s) (H0 := buffer_stream) l.
Proof. intros Hr ->. split; [done|]. by constructor. Qed.

Lemma init_reading s l :
  repr s l -> Forall is_byte l -> reading (rioInitWithBuffer s) (H0 := buffer_stream) [] l.
Proof. intros Hr Hb. split; [exists []; done|]. split; [done|]. by constructor. Qed.
End MemoryLaws.

End Rio.
