(* ===== verification/Rdb.v ===== *)
(** * The RDB encodings of strings (src/redis-2.8/src/rdb.c, migrate.c)

    Lengths, integers and strings, raw or compressed, on a stream, and the
    payloads of DUMP and RESTORE with their checksum. A stream of [None] is the
    null pointer, with which the writers only count bytes. The host is little
    endian. *)
From stdpp Require Import base tactics list numbers option.
From Stdlib Require Import ZArith Lia.
From S2P Require Import Prelude Lzf Crc64 Util Sds SdsText Object Rio.
Import CInt CMem Bytes Crc64 Util Sds Object Rio.
Open Scope redis_scope.
Open Scope Z_scope.

Module Rdb.

Definition REDIS_RDB_VERSION : Z := 6.
Definition REDIS_RDB_6BITLEN : Z := 0.
Definition REDIS_RDB_14BITLEN : Z := 1.
Definition REDIS_RDB_32BITLEN : Z := 2.
Definition REDIS_RDB_ENCVAL : Z := 3.
Definition REDIS_RDB_LENERR : Z := 2 ^ 32 - 1.
Definition REDIS_RDB_ENC_INT8 : Z := 0.
Definition REDIS_RDB_ENC_INT16 : Z := 1.
Definition REDIS_RDB_ENC_INT32 : Z := 2.
Definition REDIS_RDB_ENC_LZF : Z := 3.
Definition REDIS_RDB_TYPE_STRING : Z := 0.

Definition rdbIsObjectType (t : Z) : bool := ((0 <=? t) && (t <=? 4)) || ((9 <=? t) && (t <=? 13)).

(** ** [strtoll] with base 10

    The value and the offset of the first character that is not part of it. *)
Fixpoint strtoll_digits (fuel : nat) (s : list Z) (p acc : Z) : option (Z * Z) :=
  match fuel with
  | O => None
  | S fuel =>
      c ← rd s p;
      if (48 <=? c) && (c <=? 57) then strtoll_digits fuel s (p + 1) (acc * 10 + (c - 48))
      else Some (acc, p)
  end.

Definition strtoll (s : list Z) : option (Z * Z) :=
  p ← SdsText.skip_blanks (S (length s)) s 0;
  c ← rd s p;
  let q := if (c =? 43) || (c =? 45) then p + 1 else p in
  '(v, e) ← strtoll_digits (S (length s)) s q 0;
  let v := if c =? 45 then - v else v in
  let v := if v <? LLONG_MIN then LLONG_MIN else if LLONG_MAX <? v then LLONG_MAX else v in
  Some (if e =? q then (0, 0) else (v, e)).

Section Codec.
Context {B : Type} `{Backend B}.

(** ** Writing: the number of bytes, or -1 *)
Definition rdbWriteRaw (rdb : option (rio B)) (p : list Z) : option (option (rio B) * Z) :=
  match rdb with
  | Some r => '(r, ok) ← rioWrite r p; Some (Some r, if ok : bool then int32 (zlen p) else -1)
  | None => Some (None, int32 (zlen p))
  end.

Definition rdbSaveType rdb (type : Z) := rdbWriteRaw rdb [type].

Definition rdbSaveMillisecondTime rdb (t : Z) := rdbWriteRaw rdb (le 8 (uint64 t)).

Definition rdbSaveLen (rdb : option (rio B)) (len : Z) : option (option (rio B) * Z) :=
  if len <? Z.shiftl 1 6 then
    '(rdb, n) ← rdbWriteRaw rdb [Z.lor (Z.land len 255) (Z.shiftl REDIS_RDB_6BITLEN 6)];
    Some (rdb, if n =? -1 then -1 else 1)
  else if len <? Z.shiftl 1 14 then
    '(rdb, n) ← rdbWriteRaw rdb [Z.lor (Z.land (Z.shiftr len 8) 255) (Z.shiftl REDIS_RDB_14BITLEN 6); Z.land len 255];
    Some (rdb, if n =? -1 then -1 else 2)
  else
    '(rdb, n) ← rdbWriteRaw rdb [Z.shiftl REDIS_RDB_32BITLEN 6];
    if n =? -1 then Some (rdb, -1)
    else
      '(rdb, n) ← rdbWriteRaw rdb (reverse (le 4 len));
      Some (rdb, if n =? -1 then -1 else 1 + 4).

(** The length, 0 when the value does not fit, and the buffer [enc]. *)
Definition rdbEncodeInteger (value : Z) (enc : list Z) : option (Z * list Z) :=
  if (- Z.shiftl 1 7 <=? value) && (value <=? Z.shiftl 1 7 - 1) then
    enc ← wrn enc 0 [Z.lor (Z.shiftl REDIS_RDB_ENCVAL 6) REDIS_RDB_ENC_INT8; Z.land value 255];
    Some (2, enc)
  else if (- Z.shiftl 1 15 <=? value) && (value <=? Z.shiftl 1 15 - 1) then
    enc ← wrn enc 0 [Z.lor (Z.shiftl REDIS_RDB_ENCVAL 6) REDIS_RDB_ENC_INT16; Z.land value 255;
                     Z.land (Z.shiftr value 8) 255];
    Some (3, enc)
  else if (- Z.shiftl 1 31 <=? value) && (value <=? Z.shiftl 1 31 - 1) then
    enc ← wrn enc 0 [Z.lor (Z.shiftl REDIS_RDB_ENCVAL 6) REDIS_RDB_ENC_INT32; Z.land value 255;
                     Z.land (Z.shiftr value 8) 255; Z.land (Z.shiftr value 16) 255; Z.land (Z.shiftr value 24) 255];
    Some (5, enc)
  else Some (0, enc).

Context (uninit : nat -> Z) (long_bits : Z) (htab0 : Z -> Z) (rdb_compression : bool).

(** [s] points to a C string. *)
Definition rdbTryIntegerEncoding (s : list Z) (len : Z) (enc : list Z) : option (Z * list Z) :=
  '(value, endptr) ← strtoll s;
  c ← rd s endptr;
  if negb (c =? 0) then Some (0, enc)
  else
    '(b, _) ← ll2string (realloc uninit 32 []) 32 value;
    n ← strlen b;
    if negb (n =? len) then Some (0, enc)
    else
      x ← rdn b 0 len; y ← rdn s 0 len;
      if negb (memcmp x y =? 0) then Some (0, enc)
      else rdbEncodeInteger value enc.

Definition rdbSaveLzfStringObject (rdb : option (rio B)) (s : list Z) (len : Z)
  : option (option (rio B) * Z) :=
  if len <=? 4 then Some (rdb, 0)
  else
    let outlen := len - 4 in
    let out := realloc uninit (outlen + 1) [] in
    x ← rdn s 0 len;
    '(comprlen, out) ← Lzf.lzf_compress htab0 x (uint32 len) out (uint32 outlen);
    if comprlen =? 0 then Some (rdb, 0)
    else
      '(rdb, n) ← rdbWriteRaw rdb [Z.lor (Z.shiftl REDIS_RDB_ENCVAL 6) REDIS_RDB_ENC_LZF];
      if n =? -1 then Some (rdb, -1)
      else
        let nwritten := n in
        '(rdb, n) ← rdbSaveLen rdb (uint32 comprlen);
        if n =? -1 then Some (rdb, -1)
        else
          let nwritten := nwritten + n in
          '(rdb, n) ← rdbSaveLen rdb (uint32 len);
          if n =? -1 then Some (rdb, -1)
          else
            let nwritten := nwritten + n in
            y ← rdn out 0 comprlen;
            '(rdb, n) ← rdbWriteRaw rdb y;
            if n =? -1 then Some (rdb, -1) else Some (rdb, nwritten + n).

Definition rdbSaveRawString (rdb : option (rio B)) (s : list Z) (len : Z)
  : option (option (rio B) * Z) :=
  '(enclen, enc) ← (if len <=? 11 then rdbTryIntegerEncoding s len (realloc uninit 5 []) else Some (0, []));
  if 0 <? enclen then
    x ← rdn enc 0 enclen;
    '(rdb, n) ← rdbWriteRaw rdb x;
    Some (rdb, if n =? -1 then -1 else enclen)
  else
    '(rdb, n) ← (if rdb_compression && (20 <? len) then rdbSaveLzfStringObject rdb s len else Some (rdb, 0));
    if n =? -1 then Some (rdb, -1)
    else if 0 <? n then Some (rdb, n)
    else
      '(rdb, n) ← rdbSaveLen rdb (uint32 len);
      if n =? -1 then Some (rdb, -1)
      else
        let nwritten := n in
        if 0 <? len then
          x ← rdn s 0 len;
          '(rdb, n) ← rdbWriteRaw rdb x;
          Some (rdb, if n =? -1 then -1 else nwritten + int32 len)
        else Some (rdb, nwritten).

Definition rdbSaveLongLongAsStringObject (rdb : option (rio B)) (value : Z)
  : option (option (rio B) * Z) :=
  '(enclen, b) ← rdbEncodeInteger value (realloc uninit 32 []);
  if 0 <? enclen then x ← rdn b 0 enclen; rdbWriteRaw rdb x
  else
    '(b, enclen) ← ll2string b 32 value;
    if 32 <=? enclen then None
    else
      '(rdb, n) ← rdbSaveLen rdb enclen;
      if n =? -1 then Some (rdb, -1)
      else
        let nwritten := n in
        x ← rdn b 0 enclen;
        '(rdb, n) ← rdbWriteRaw rdb x;
        if n =? -1 then Some (rdb, -1) else Some (rdb, nwritten + n).

Definition rdbSaveStringObject (rdb : option (rio B)) (o : robj) : option (option (rio B) * Z) :=
  match o_ptr o with
  | ENC_INT v => rdbSaveLongLongAsStringObject rdb v
  | ENC_RAW s => rdbSaveRawString rdb (buf s) (sdslen s)
  end.

(** ** Reading *)
Definition rdbLoadType (r : rio B) : option (rio B * Z) :=
  '(r, x) ← rioRead r 1;
  match x with None => Some (r, -1) | Some x => type ← rd x 0; Some (r, type) end.

Definition rdbLoadTime (r : rio B) : option (rio B * Z) :=
  '(r, x) ← rioRead r 4;
  match x with None => Some (r, -1) | Some x => Some (r, int32 (unle x)) end.

Definition rdbLoadMillisecondTime (r : rio B) : option (rio B * Z) :=
  '(r, x) ← rioRead r 8;
  match x with None => Some (r, -1) | Some x => Some (r, int64 (unle x)) end.

Definition rdbLoadObjectType (r : rio B) : option (rio B * Z) :=
  '(r, type) ← rdbLoadType r;
  Some (r, if type =? -1 then -1 else if negb (rdbIsObjectType type) then -1 else type).

(** The length, or the encoding when the flag is set. *)
Definition rdbLoadLen (r : rio B) : option (rio B * Z * bool) :=
  '(r, x) ← rioRead r 1;
  match x with
  | None => Some (r, REDIS_RDB_LENERR, false)
  | Some x =>
      b0 ← rd x 0;
      let type := Z.shiftr (Z.land b0 192) 6 in
      if type =? REDIS_RDB_ENCVAL then Some (r, Z.land b0 63, true)
      else if type =? REDIS_RDB_6BITLEN then Some (r, Z.land b0 63, false)
      else if type =? REDIS_RDB_14BITLEN then
        '(r, x) ← rioRead r 1;
        match x with
        | None => Some (r, REDIS_RDB_LENERR, false)
        | Some x => b1 ← rd x 0; Some (r, Z.lor (Z.shiftl (Z.land b0 63) 8) b1, false)
        end
      else
        '(r, x) ← rioRead r 4;
        match x with
        | None => Some (r, REDIS_RDB_LENERR, false)
        | Some x => Some (r, unle (reverse x), false)
        end
  end.

(** The inner [None] is the null pointer; [integers] is the table of shared
    objects. *)
Definition loaded : Type := rio B * list robj * option encoded_as.

Definition load_int (integers : list robj) (encode : bool) (r : rio B) (val : Z) : option loaded :=
  if encode then
    '(o, integers) ← createStringObjectFromLongLong uninit long_bits integers val;
    Some (r, integers, Some o)
  else
    s ← SdsText.sdsfromlonglong uninit val;
    Some (r, integers, Some (Own (createObject (ENC_RAW s)))).

Definition rdbLoadIntegerObject (integers : list robj) (r : rio B) (enctype : Z) (encode : bool) : option loaded :=
  if enctype =? REDIS_RDB_ENC_INT8 then
    '(r, x) ← rioRead r 1;
    match x with
    | None => Some (r, integers, None)
    | Some x => e0 ← rd x 0; load_int integers encode r (swrap 8 e0)
    end
  else if enctype =? REDIS_RDB_ENC_INT16 then
    '(r, x) ← rioRead r 2;
    match x with
    | None => Some (r, integers, None)
    | Some x =>
        e0 ← rd x 0; e1 ← rd x 1;
        load_int integers encode r (swrap 16 (uint16 (Z.lor e0 (Z.shiftl e1 8))))
    end
  else if enctype =? REDIS_RDB_ENC_INT32 then
    '(r, x) ← rioRead r 4;
    match x with
    | None => Some (r, integers, None)
    | Some x =>
        e0 ← rd x 0; e1 ← rd x 1; e2 ← rd x 2; e3 ← rd x 3;
        load_int integers encode r
          (int32 (uint32 (Z.lor (Z.lor (Z.lor e0 (Z.shiftl e1 8)) (Z.shiftl e2 16)) (Z.shiftl e3 24))))
    end
  else None.

Definition rdbLoadLzfStringObject (integers : list robj) (r : rio B) : option loaded :=
  '(r, clen, _) ← rdbLoadLen r;
  if clen =? REDIS_RDB_LENERR then Some (r, integers, None)
  else
    '(r, n, _) ← rdbLoadLen r;
    if n =? REDIS_RDB_LENERR then Some (r, integers, None)
    else
      val ← sdsnewlen uninit None n;
      '(r, c) ← rioRead r clen;
      match c with
      | None => Some (r, integers, None)
      | Some c =>
          d ← Lzf.lzf_decompress c clen (buf val) n;
          match d with
          | Lzf.DOut out m =>
              if m =? 0 then Some (r, integers, None)
              else Some (r, integers, Some (Own (createObject (ENC_RAW (Sdshdr (len val) (free val) out)))))
          | _ => Some (r, integers, None)
          end
      end.

Definition rdbGenericLoadStringObject (integers : list robj) (r : rio B) (encode : bool) : option loaded :=
  '(r, n, isencoded) ← rdbLoadLen r;
  if isencoded : bool then
    if (n =? REDIS_RDB_ENC_INT8) || (n =? REDIS_RDB_ENC_INT16) || (n =? REDIS_RDB_ENC_INT32) then
      rdbLoadIntegerObject integers r n encode
    else if n =? REDIS_RDB_ENC_LZF then rdbLoadLzfStringObject integers r
    else None
  else if n =? REDIS_RDB_LENERR then Some (r, integers, None)
  else
    val ← sdsnewlen uninit None n;
    if n =? 0 then Some (r, integers, Some (Own (createObject (ENC_RAW val))))
    else
      '(r, x) ← rioRead r n;
      match x with
      | None => Some (r, integers, None)
      | Some x =>
          b ← wrn (buf val) 0 x;
          Some (r, integers, Some (Own (createObject (ENC_RAW (Sdshdr (len val) (free val) b)))))
      end.

Definition rdbLoadStringObject integers r := rdbGenericLoadStringObject integers r false.
Definition rdbLoadEncodedStringObject integers r := rdbGenericLoadStringObject integers r true.
End Codec.

(** ** Writing *)
Definition enc_len (n : Z) : list Z :=
  if n <? 64 then [n]
  else if n <? 16384 then [64 + n / 256; n mod 256]
  else 128 :: reverse (le 4 n).

Definition enc_int (v : Z) : list Z :=
  if (-128 <=? v) && (v <=? 127) then 192 :: le 1 v
  else if (-32768 <=? v) && (v <=? 32767) then 193 :: le 2 v
  else 194 :: le 4 v.

(** The forms a text can take in a file. *)
Inductive saved_string (l : list Z) : list Z -> Prop :=
  | SavedInt v : l = dec v -> in_s 32 v -> saved_string l (enc_int v)
  | SavedLzf ts : Lzf.tokens [] ts l -> l <> [] -> zlen (Lzf.encode ts) <= zlen l - 4 ->
      saved_string l (195 :: enc_len (zlen (Lzf.encode ts)) ++ enc_len (zlen l) ++ Lzf.encode ts)
  | SavedRaw : saved_string l (enc_len (zlen l) ++ l).

Lemma enc_len_bytes n : in_u 32 n -> Forall is_byte (enc_len n).
Proof.
  intros Hn. unfold in_u in Hn. unfold enc_len. destruct (Z.ltb_spec n 64).
  { repeat constructor; unfold is_byte; lia. }
  destruct (Z.ltb_spec n 16384).
  - pose proof (Z.div_lt_upper_bound n 256 64). pose proof (Z.div_pos n 256).
    pose proof (Z.mod_pos_bound n 256). repeat constructor; unfold is_byte; lia.
  - constructor; [unfold is_byte; lia|]. apply Forall_reverse, le_bytes.
Qed.

Lemma enc_len_size n : 1 <= zlen (enc_len n) <= 5.
Proof.
  unfold enc_len. destruct (n <? 64); [cbn; lia|]. destruct (n <? 16384); [cbn; lia|].
  cbn [length]. rewrite length_reverse, le_length. lia.
Qed.

Lemma enc_int_bytes v : Forall is_byte (enc_int v).
Proof.
  unfold enc_int. destruct (_ && _); [|destruct (_ && _)]; (constructor; [unfold is_byte; lia|apply le_bytes]).
Qed.

Lemma enc_int_size v : 2 <= zlen (enc_int v) <= 5.
Proof.
  unfold enc_int. destruct (_ && _); [|destruct (_ && _)]; cbn [length]; rewrite le_length; lia.
Qed.

Lemma rdn_start (b c : list Z) n : n = zlen b -> rdn (b ++ c) 0 n = Some b.
Proof. by apply (rdn_app []). Qed.

Lemma wrn_start (b b' c : list Z) : length b = length b' -> wrn (b ++ c) 0 b' = Some (b' ++ c).
Proof. by apply (wrn_app []). Qed.

Lemma land_byte z : Z.land z 255 = z mod 256.
Proof. apply (Z.land_ones z 8). lia. Qed.

Section Save.
Context {B : Type} `{Stream B}.

(** The bytes written so far, on a stream that is not null. *)
Definition state (rdb : option (rio B)) (l : list Z) : Prop :=
  match rdb with Some r => writing r l | None => True end.
Definition room (rdb : option (rio B)) (l : list Z) (n : Z) : Prop :=
  match rdb with Some _ => zlen l + n < capacity | None => True end.

(** A writer that wrote [bs]. *)
Definition wrote (rdb : option (rio B)) (l bs : list Z) (res : option (option (rio B) * Z)) : Prop :=
  exists rdb', res = Some (rdb', zlen bs) /\ state rdb' (l ++ bs) /\ (rdb' = None <-> rdb = None).

Lemma room_mono rdb l m n : room rdb l m -> n <= m -> room rdb l n.
Proof. destruct rdb; cbn; [lia|done]. Qed.

Lemma room_next rdb rdb' l bs m n :
  room rdb l m -> (rdb' = None <-> rdb = None) -> zlen bs + n <= m -> room rdb' (l ++ bs) n.
Proof.
  destruct rdb, rdb'; cbn; intros Hm Hs Hn; try done; [rewrite length_app; lia|].
  destruct Hs as [_ Hs]. by specialize (Hs eq_refl).
Qed.

Lemma write_raw rdb l bs :
  state rdb l -> room rdb l (zlen bs) -> Forall is_byte bs -> zlen bs < 2 ^ 31 -> wrote rdb l bs (rdbWriteRaw rdb bs).
Proof.
  intros Hst Hroom Hb Hlen. unfold rdbWriteRaw.
  assert (int32 (zlen bs) = zlen bs) as Hi by (apply swrap_small; unfold in_s; lia).
  destruct rdb as [r|]; cbn in *.
  - destruct (rioWrite_spec r l bs Hst Hb) as (r' & -> & Hw & _); [done|]. osimpl. exists (Some r').
    rewrite Hi. split; [done|]. by split.
  - exists None. rewrite Hi. split; [done|]. by split.
Qed.

(** A writer followed by another one, which reports the total. *)
Lemma wrote_seq rdb l a b e k :
  wrote rdb l a e ->
  (forall rdb', state rdb' (l ++ a) -> (rdb' = None <-> rdb = None) ->
     exists rdb'', k (rdb', zlen a) = Some (rdb'', zlen (a ++ b)) /\ state rdb'' ((l ++ a) ++ b) /\
       (rdb'' = None <-> rdb' = None)) ->
  wrote rdb l (a ++ b) (e ≫= k).
Proof.
  intros (r1 & -> & Hs1 & Hn1) Hk. osimpl. destruct (Hk r1 Hs1 Hn1) as (r2 & -> & Hs2 & Hn2).
  exists r2. rewrite app_assoc. split; [done|]. split; [done|]. by rewrite Hn2.
Qed.

Lemma neq_m1 (bs : list Z) : (zlen bs =? -1) = false.
Proof. apply Z.eqb_neq. lia. Qed.

Lemma save_len rdb l n :
  state rdb l -> room rdb l (zlen (enc_len n)) -> in_u 32 n -> wrote rdb l (enc_len n) (rdbSaveLen rdb n).
Proof.
  intros Hst Hroom Hn. pose proof (enc_len_bytes n Hn) as Hby. unfold in_u in Hn.
  unfold rdbSaveLen, enc_len in *. change (Z.shiftl 1 6) with 64. change (Z.shiftl 1 14) with 16384.
  destruct (Z.ltb_spec n 64) as [H6|H6].
  { rewrite land_byte, Z.mod_small by lia. change (Z.shiftl REDIS_RDB_6BITLEN 6) with 0. rewrite Z.lor_0_r.
    destruct (write_raw rdb l [n]) as (rdb' & -> & Hs & Hnn); [done|done|done|cbn; lia|]. by exists rdb'. }
  destruct (Z.ltb_spec n 16384) as [H14|H14].
  { assert (Z.lor (Z.land (Z.shiftr n 8) 255) (Z.shiftl REDIS_RDB_14BITLEN 6) = 64 + n / 256) as ->.
    { rewrite land_byte, Z.shiftr_div_pow2, Z.lor_comm by lia. change (2 ^ 8) with 256.
      pose proof (Z.div_lt_upper_bound n 256 64). pose proof (Z.div_pos n 256). rewrite (Z.mod_small (n / 256)) by lia.
      change REDIS_RDB_14BITLEN with 1. rewrite lor_shiftl by lia. lia. }
    rewrite land_byte.
    destruct (write_raw rdb l [64 + n / 256; n mod 256]) as (rdb' & -> & Hs & Hnn); [done|done|done|cbn; lia|].
    by exists rdb'. }
  change (128 :: reverse (le 4 n)) with ([128] ++ reverse (le 4 n)) in *. apply Forall_app in Hby as [Hby1 Hby2].
  assert (length (reverse (le 4 n)) = 4%nat) as Hl by (by rewrite length_reverse, le_length).
  change (Z.shiftl REDIS_RDB_32BITLEN 6) with 128. rewrite length_app in Hroom. cbn [length] in Hroom.
  apply wrote_seq.
  - apply write_raw; [done|eapply room_mono; [exact Hroom|cbn; lia]|done|cbn; lia].
  - intros r1 Hs1 Hn1. cbn [length]. ctests.
    destruct (write_raw r1 (l ++ [128]) (reverse (le 4 n))) as (r2 & -> & Hs2 & Hn2);
      [done|eapply room_next; [exact Hroom|done|cbn [length]; lia]|done|lia|].
    osimpl. rewrite neq_m1. exists r2. split; [|by split]. rewrite length_app, Hl. done.
Qed.

Lemma encode_integer v enc :
  in_s 64 v -> 5 <= zlen enc ->
  exists n enc', rdbEncodeInteger v enc = Some (n, enc') /\
    ((n = 0 /\ enc' = enc /\ ~ in_s 32 v) \/
     (in_s 32 v /\ n = zlen (enc_int v) /\ exists t, enc' = enc_int v ++ t)).
Proof.
  intros Hv Henc. unfold rdbEncodeInteger, enc_int.
  change (- Z.shiftl 1 7) with (-128). change (Z.shiftl 1 7 - 1) with 127.
  change (- Z.shiftl 1 15) with (-32768). change (Z.shiftl 1 15 - 1) with 32767.
  change (- Z.shiftl 1 31) with (- 2 ^ 31). change (Z.shiftl 1 31 - 1) with (2 ^ 31 - 1).
  change (Z.lor (Z.shiftl REDIS_RDB_ENCVAL 6) REDIS_RDB_ENC_INT8) with 192.
  change (Z.lor (Z.shiftl REDIS_RDB_ENCVAL 6) REDIS_RDB_ENC_INT16) with 193.
  change (Z.lor (Z.shiftl REDIS_RDB_ENCVAL 6) REDIS_RDB_ENC_INT32) with 194.
  assert (forall k, Z.land (Z.shiftr v (8 * k)) 255 = v / 256 ^ k mod 256 \/ k < 0) as Hb.
  { intros k. destruct (Z.lt_ge_cases k 0); [by right|left]. rewrite land_byte, Z.shiftr_div_pow2, pow256 by lia. done. }
  assert (Z.land v 255 = v mod 256) as -> by apply land_byte.
  assert (Z.land (Z.shiftr v 8) 255 = v / 256 mod 256) as -> by (destruct (Hb 1); [done|lia]).
  assert (Z.land (Z.shiftr v 16) 255 = v / 256 / 256 mod 256) as ->.
  { destruct (Hb 2) as [E|]; [|lia]. rewrite Z.div_div by lia. exact E. }
  assert (Z.land (Z.shiftr v 24) 255 = v / 256 / 256 / 256 mod 256) as ->.
  { destruct (Hb 3) as [E|]; [|lia]. rewrite !Z.div_div by lia. exact E. }
  assert (forall x, (length x <= 5)%nat -> exists t, wrn enc 0 x = Some (x ++ t)) as Hw.
  { intros x Hx. rewrite <- (take_drop (length x) enc). exists (drop (length x) enc).
    apply (wrn_app []); [done|]. rewrite length_take. lia. }
  unfold in_s in Hv |- *. change (2 ^ (64 - 1)) with (2 ^ 63) in Hv. change (2 ^ (32 - 1)) with (2 ^ 31).
  destruct ((-128 <=? v) && (v <=? 127)) eqn:E8.
  { destruct (Hw (192 :: le 1 v)) as [t E]; [cbn; lia|]. cbn [le] in E |- *. rewrite E. osimpl.
    eexists _, _. split; [done|]. right. split; [lia|]. split; [done|]. by exists t. }
  destruct ((-32768 <=? v) && (v <=? 32767)) eqn:E16.
  { destruct (Hw (193 :: le 2 v)) as [t E]; [cbn; lia|]. cbn [le] in E |- *. rewrite E. osimpl.
    eexists _, _. split; [done|]. right. split; [lia|]. split; [done|]. by exists t. }
  destruct ((- 2 ^ 31 <=? v) && (v <=? 2 ^ 31 - 1)) eqn:E32.
  { destruct (Hw (194 :: le 4 v)) as [t E]; [cbn; lia|]. cbn [le] in E |- *. rewrite E. osimpl.
    eexists _, _. split; [done|]. right. split; [lia|]. split; [done|]. by exists t. }
  eexists _, _. split; [done|]. left. split; [done|]. split; [done|]. lia.
Qed.
Context (uninit : nat -> Z) (htab0 : Z -> Z) (rdb_compression : bool).

Lemma first_nul l t : exists x t', l ++ 0 :: t = x ++ 0 :: t' /\ Forall (fun c => c <> 0) x /\ zlen x <= zlen l.
Proof.
  induction l as [|c l (x & t' & E & Hx & Hl)]; [by exists [], t|].
  destruct (decide (c = 0)) as [->|Hc]; [exists [], (l ++ 0 :: t); split; [done|]; split; [done|cbn; lia]|].
  exists (c :: x), t'. cbn [app length]. rewrite E. split; [done|]. split; [by constructor|lia].
Qed.

Lemma strtoll_digits_total x t fuel : Forall (fun c => c <> 0) x -> forall p acc,
  0 <= p <= zlen x -> (Z.to_nat (zlen x - p) < fuel)%nat ->
  exists v e, strtoll_digits fuel (x ++ 0 :: t) p acc = Some (v, e) /\ p <= e <= zlen x.
Proof.
  intros Hx. induction fuel as [|fuel IH]; intros p acc Hp Hf; [lia|]. cbn [strtoll_digits].
  destruct (SdsText.cstr_read x t p Hx Hp) as (c & -> & Hc). osimpl. destruct (_ && _) eqn:E.
  - destruct (IH (p + 1) (acc * 10 + (c - 48))) as (v & e & -> & He); [lia|lia|].
    exists v, e. split; [done|lia].
  - exists acc, p. split; [done|lia].
Qed.

Lemma strtoll_total l t :
  exists v e c, strtoll (l ++ 0 :: t) = Some (v, e) /\ in_s 64 v /\ rd (l ++ 0 :: t) e = Some c.
Proof.
  destruct (first_nul l t) as (x & t' & -> & Hx & _). unfold strtoll.
  set (s := x ++ 0 :: t'). assert (zlen x < zlen s) as Hlen by (unfold s; rewrite length_app; cbn [length]; lia).
  assert (forall i, 0 <= i <= zlen x -> exists c, rd s i = Some c /\ (i < zlen x <-> c <> 0)) as Hread
    by (intros; by apply SdsText.cstr_read).
  destruct (SdsText.blanks_total s (zlen x) Hread (S (length s)) 0) as (p & -> & Hp); [lia|lia|]. osimpl.
  destruct (Hread p) as (c & -> & Hc); [lia|]. osimpl.
  set (q := if _ || _ then p + 1 else p).
  assert (p <= q <= zlen x) as Hq by (unfold q; destruct (Z.eqb_spec c 43), (Z.eqb_spec c 45); cbn; lia).
  destruct (strtoll_digits_total x t' (S (length s)) Hx q 0) as (v & e & E & He); [lia|lia|].
  change (x ++ 0 :: t') with s in E. rewrite E. osimpl.
  set (w := if _ <? LLONG_MIN then LLONG_MIN else _).
  assert (in_s 64 w) as Hw.
  { unfold w, in_s, LLONG_MIN, LLONG_MAX. change (2 ^ (64 - 1)) with (2 ^ 63).
    destruct (Z.ltb_spec (if c =? 45 then - v else v) (- 2 ^ 63)); [lia|].
    destruct (Z.ltb_spec (2 ^ 63 - 1) (if c =? 45 then - v else v)); lia. }
  destruct (e =? q).
  - destruct (Hread 0) as (c0 & E0 & _); [lia|]. exists 0, 0, c0. split; [done|]. split; [unfold in_s; lia|done].
  - destruct (Hread e) as (c0 & E0 & _); [lia|]. exists w, e, c0. done.
Qed.

Lemma try_integer l t enc :
  5 <= zlen enc ->
  exists n enc', rdbTryIntegerEncoding uninit (l ++ 0 :: t) (zlen l) enc = Some (n, enc') /\
    (n = 0 \/ exists v t', l = dec v /\ in_s 32 v /\ n = zlen (enc_int v) /\ enc' = enc_int v ++ t').
Proof.
  intros Henc. unfold rdbTryIntegerEncoding.
  destruct (strtoll_total l t) as (v & e & c & -> & Hv & Hc). osimpl. rewrite Hc. osimpl.
  assert (exists n enc', Some (0, enc) = Some (n, enc') /\
    (n = 0 \/ exists v t', l = dec v /\ in_s 32 v /\ n = zlen (enc_int v) /\ enc' = enc_int v ++ t')) as Hno
    by (eexists _, _; split; [done|by left]).
  destruct (c =? 0); cbn [negb]; [|done].
  set (b := realloc uninit 32 []). assert (zlen b = 32) as Hb by (apply realloc_length; lia).
  pose proof (ll2string_spec b v Hv) as E. rewrite Hb in E. rewrite E. pose proof (dec_length v Hv).
  rewrite (proj2 (Z.leb_gt _ _)) by lia. osimpl. rewrite strlen_spec by apply dec_nonzero. osimpl.
  destruct (Z.eqb_spec (zlen (dec v)) (zlen l)) as [Hl|]; cbn [negb]; [|done].
  rewrite (rdn_start (dec v)) by done. osimpl. rewrite (rdn_start l) by done. osimpl.
  rewrite memcmp_eq by lia. destruct (bool_decide_reflect (dec v = l)) as [<-|]; cbn [negb]; [|done].
  destruct (encode_integer v enc Hv Henc) as (n & enc' & -> & Hres). eexists _, _. split; [done|].
  destruct Hres as [(-> & _)|(Hv' & -> & t' & ->)]; [by left|right]. by exists v, t'.
Qed.
Lemma tokens_prefix h ts h' : Lzf.tokens h ts h' -> exists k, h' = h ++ k.
Proof.
  assert (forall n d h, exists k, Lzf.replay n d h = h ++ k) as Hr.
  { induction n as [|n IH]; intros d h0; cbn [Lzf.replay]; [exists []; by rewrite app_nil_r|].
    destruct (h0 !! _) as [b|]; [|exists []; by rewrite app_nil_r].
    destruct (IH d (h0 ++ [b])) as [k ->]. exists ([b] ++ k). by rewrite app_assoc. }
  induction 1 as [h|h t ts h' _ _ [k ->]]; [exists []; by rewrite app_nil_r|].
  destruct t as [bs|off len]; cbn [Lzf.expand]; [exists (bs ++ k); by rewrite app_assoc|].
  destruct (Hr (Z.to_nat (len + 2)) (S (Z.to_nat off)) h) as [k' ->]. exists (k' ++ k). by rewrite app_assoc.
Qed.

Lemma encode_bytes h ts h' : Lzf.tokens h ts h' -> Forall is_byte h' -> Forall is_byte (Lzf.encode ts).
Proof.
  induction 1 as [h|h t ts h' Ht Hts IH]; intros Hb; [done|]. rewrite Lzf.encode_cons.
  apply Forall_app. split; [|auto]. destruct t as [bs|off len]; cbn [Lzf.enc_token Lzf.token_ok] in *.
  - destruct (tokens_prefix _ _ _ Hts) as [k ->]. cbn [Lzf.expand] in Hb. rewrite !Forall_app in Hb.
    constructor; [unfold is_byte, Lzf.MAX_LIT in *; lia|apply Hb].
  - unfold Lzf.MAX_OFF, Lzf.MAX_REF in Ht. pose proof (Z.div_lt_upper_bound off 256 32).
    pose proof (Z.div_pos off 256). pose proof (Z.mod_pos_bound off 256).
    destruct (Z.ltb_spec len 7); repeat constructor; unfold is_byte; lia.
Qed.

Lemma save_lzf rdb l0 l t :
  (forall k, Lzf.slot_ok (htab0 k)) -> state rdb l0 -> room rdb l0 (zlen l + 7) ->
  Forall is_byte l -> 4 < zlen l < 2 ^ 31 ->
  rdbSaveLzfStringObject uninit htab0 rdb (l ++ t) (zlen l) = Some (rdb, 0) \/
  exists bs, saved_string l bs /\ wrote rdb l0 bs (rdbSaveLzfStringObject uninit htab0 rdb (l ++ t) (zlen l)).
Proof.
  intros Hht Hst Hroom Hby Hlen. unfold rdbSaveLzfStringObject.
  rewrite (proj2 (Z.leb_gt _ _)), rdn_start by (done || lia). osimpl. rewrite !(wrap_small 32) by (unfold in_u; lia).
  assert (zlen (realloc uninit (zlen l - 4 + 1) []) = zlen l - 4 + 1) as Hout by (apply realloc_length; lia).
  destruct (Lzf.lzf_compress_spec htab0 l (realloc uninit (zlen l - 4 + 1) []) (zlen l - 4)) as
    (n & out' & -> & Hout' & Hn & Hts); [lia|lia|done|done|]. osimpl.
  destruct (Z.eqb_spec n 0) as [->|Hn0]; [by left|right].
  destruct (Hts Hn0) as (ts & Htok & Htake & Hel).
  pose proof (encode_bytes _ _ _ Htok Hby) as Heb.
  exists (195 :: enc_len (zlen (Lzf.encode ts)) ++ enc_len (zlen l) ++ Lzf.encode ts).
  assert (l <> []) as Hne by (intros ->; cbn in Hlen; lia).
  split; [by apply SavedLzf; [| |lia]|].
  pose proof (enc_len_size (zlen (Lzf.encode ts))) as Hs1. pose proof (enc_len_size (zlen l)) as Hs2.
  change (Z.lor (Z.shiftl REDIS_RDB_ENCVAL 6) REDIS_RDB_ENC_LZF) with 195.
  destruct (write_raw rdb l0 [195]) as (r1 & -> & S1 & N1);
    [done|eapply room_mono; [exact Hroom|cbn; lia]|by repeat constructor|cbn; lia|].
  osimpl. rewrite neq_m1. rewrite (wrap_small 32 n) by (unfold in_u; lia). rewrite <- Hel.
  destruct (save_len r1 (l0 ++ [195]) (zlen (Lzf.encode ts))) as (r2 & -> & S2 & N2);
    [done|eapply room_next; [exact Hroom|done|cbn [length]; lia]|unfold in_u; lia|].
  osimpl. rewrite neq_m1. rewrite <- app_assoc in S2.
  destruct (save_len r2 (l0 ++ [195] ++ enc_len (zlen (Lzf.encode ts))) (zlen l)) as (r3 & -> & S3 & N3);
    [done|eapply room_next; [exact Hroom|by rewrite N2|rewrite length_app; cbn [length]; lia]|unfold in_u; lia|].
  osimpl. rewrite neq_m1. rewrite <- !app_assoc in S3.
  assert (out' = Lzf.encode ts ++ drop (Z.to_nat n) out') as -> by (by rewrite <- Htake, take_drop).
  rewrite rdn_start by done. osimpl.
  destruct (write_raw r3 (l0 ++ [195] ++ enc_len (zlen (Lzf.encode ts)) ++ enc_len (zlen l)) (Lzf.encode ts)) as (r4 & -> & S4 & N4);
    [done|eapply room_next; [exact Hroom|by rewrite N3, N2|rewrite !length_app; cbn [length]; lia]|done|lia|].
  osimpl. rewrite neq_m1. exists r4. rewrite <- !app_assoc in S4. split; [|split; [done|by rewrite N4, N3, N2]].
  do 2 f_equal. cbn [length]. rewrite !length_app. lia.
Qed.

Lemma saved_string_int l v : l = dec v -> in_s 32 v -> saved_string l (enc_int v).
Proof. intros -> Hv. by apply SavedInt. Qed.

Lemma save_raw_string rdb l0 l t :
  (forall k, Lzf.slot_ok (htab0 k)) -> state rdb l0 -> room rdb l0 (zlen l + 7) ->
  Forall is_byte l -> zlen l < 2 ^ 31 - 2 ^ 20 ->
  exists bs, saved_string l bs /\
    wrote rdb l0 bs (rdbSaveRawString uninit htab0 rdb_compression rdb (l ++ 0 :: t) (zlen l)).
Proof.
  intros Hht Hst Hroom Hby Hlen. unfold rdbSaveRawString.
  assert (exists n enc, (if zlen l <=? 11 then
      rdbTryIntegerEncoding uninit (l ++ 0 :: t) (zlen l) (realloc uninit 5 []) else Some (0, [])) = Some (n, enc) /\
    (n = 0 \/ exists v t', l = dec v /\ in_s 32 v /\ n = zlen (enc_int v) /\ enc = enc_int v ++ t')) as
    (n & enc & -> & Hn).
  { destruct (zlen l <=? 11); [|by eexists _, _; split; [|by left]].
    apply try_integer. rewrite realloc_length; lia. }
  osimpl. destruct Hn as [->|(v & t' & Hv & Hv32 & -> & ->)].
  2: { pose proof (enc_int_size v) as Hsz. rewrite (proj2 (Z.ltb_lt _ _)), rdn_start by (done || lia). osimpl.
       assert (1 <= zlen l) by (rewrite Hv; apply dec_length; unfold in_s in *; lia).
       exists (enc_int v). split; [by apply saved_string_int|].
       destruct (write_raw rdb l0 (enc_int v)) as (r1 & -> & S1 & N1);
         [done|eapply room_mono; [exact Hroom|lia]|apply enc_int_bytes|lia|].
       osimpl. rewrite neq_m1. by exists r1. }
  ctests.
  assert ((if rdb_compression && (20 <? zlen l) then rdbSaveLzfStringObject uninit htab0 rdb (l ++ 0 :: t) (zlen l)
      else Some (rdb, 0)) = Some (rdb, 0) \/
    exists bs, saved_string l bs /\ wrote rdb l0 bs
      (if rdb_compression && (20 <? zlen l) then rdbSaveLzfStringObject uninit htab0 rdb (l ++ 0 :: t) (zlen l)
       else Some (rdb, 0))) as Hlzf.
  { destruct rdb_compression; cbn [andb]; [|by left]. destruct (Z.ltb_spec 20 (zlen l)); [|by left].
    apply save_lzf; try done. lia. }
  destruct Hlzf as [->|(bs & Hbs & r1 & -> & S1 & N1)].
  2: { osimpl. rewrite neq_m1. exists bs. split; [done|].
       assert (0 < zlen bs) by (destruct Hbs; [pose proof (enc_int_size v); lia|cbn [length]; lia|
         rewrite length_app; pose proof (enc_len_size (zlen l)); lia]).
       rewrite (proj2 (Z.ltb_lt _ _)) by done. by exists r1. }
  osimpl. ctests. exists (enc_len (zlen l) ++ l). split; [by apply SavedRaw|].
  pose proof (enc_len_size (zlen l)) as Hsz. rewrite wrap_small by (unfold in_u; lia).
  apply wrote_seq.
  - apply save_len; [done|eapply room_mono; [exact Hroom|lia]|unfold in_u; lia].
  - intros r1 S1 N1. cbn beta iota. rewrite neq_m1. destruct (Z.ltb_spec 0 (zlen l)) as [Hpos|Hz].
    + rewrite rdn_start by done. osimpl.
      destruct (write_raw r1 (l0 ++ enc_len (zlen l)) l) as (r2 & -> & S2 & N2);
        [done|eapply room_next; [exact Hroom|done|lia]|done|lia|].
      osimpl. rewrite neq_m1, swrap_small by (unfold in_s; lia). exists r2. split; [|done].
      do 2 f_equal. rewrite length_app. lia.
    + destruct l; [|cbn in Hz; lia]. exists r1. rewrite !app_nil_r. done.
Qed.

Lemma save_string rdb l0 o l :
  (forall k, Lzf.slot_ok (htab0 k)) -> state rdb l0 -> room rdb l0 (zlen l + 7) ->
  has_text o l -> Forall is_byte l -> zlen l < 2 ^ 31 - 2 ^ 20 ->
  exists bs, saved_string l bs /\ wrote rdb l0 bs (rdbSaveStringObject uninit htab0 rdb_compression rdb o).
Proof.
  intros Hht Hst Hroom Ho Hby Hlen. unfold rdbSaveStringObject. unfold has_text in Ho.
  destruct (o_ptr o) as [s|v].
  { destruct Ho as (t & -> & Ht). cbn [buf]. unfold sdslen. cbn [len]. by apply save_raw_string. }
  destruct Ho as [Hv ->]. unfold rdbSaveLongLongAsStringObject.
  pose proof (realloc_length uninit 32 [] ltac:(lia)) as Hb. set (b := realloc uninit 32 []) in *.
  pose proof (dec_length v Hv) as Hd.
  destruct (encode_integer v b Hv) as (n & enc & -> & Hres); [lia|]. osimpl.
  destruct Hres as [(-> & -> & Hn32)|(Hv32 & -> & t & ->)].
  - ctests. pose proof (ll2string_spec b v Hv) as E. rewrite Hb in E. rewrite E.
    rewrite (proj2 (Z.leb_gt 32 (zlen (dec v)))) by lia. osimpl. rewrite (proj2 (Z.leb_gt _ _)) by lia.
    exists (enc_len (zlen (dec v)) ++ dec v). split; [by apply SavedRaw|].
    pose proof (enc_len_size (zlen (dec v))) as Hsz. apply wrote_seq.
    + apply save_len; [done|eapply room_mono; [exact Hroom|lia]|unfold in_u; lia].
    + intros r1 S1 N1. cbn beta iota. rewrite neq_m1, rdn_start by done. osimpl.
      destruct (write_raw r1 (l0 ++ enc_len (zlen (dec v))) (dec v)) as (r2 & -> & S2 & N2);
        [done|eapply room_next; [exact Hroom|done|lia]|done|lia|].
      osimpl. rewrite neq_m1. exists r2. split; [|done]. do 2 f_equal. rewrite length_app. lia.
  - pose proof (enc_int_size v) as Hsz. rewrite (proj2 (Z.ltb_lt _ _)), rdn_start by (done || lia). osimpl.
    exists (enc_int v). split; [by apply saved_string_int|].
    apply write_raw; [done|eapply room_mono; [exact Hroom|lia]|apply enc_int_bytes|lia].
Qed.
End Save.

(** ** Reading back *)
Section Load.
Context {B : Type} `{Stream B}.

Lemma read_bytes (r : rio B) past x rest n :
  reading r past (x ++ rest) -> n = zlen x ->
  exists r', rioRead r n = Some (r', Some x) /\ reading r' (past ++ x) rest.
Proof. intros Hr ->. destruct (rioRead_spec r past x rest Hr) as (r' & E & Hr' & _). by exists r'. Qed.

Lemma load_len (r : rio B) past n rest :
  reading r past (enc_len n ++ rest) -> 0 <= n < 2 ^ 32 ->
  exists r', rdbLoadLen r = Some (r', n, false) /\ reading r' (past ++ enc_len n) rest.
Proof.
  intros Hr Hn. unfold rdbLoadLen, enc_len in *. destruct (Z.ltb_spec n 64) as [H6|H6].
  { destruct (read_bytes r past [n] rest 1 Hr eq_refl) as (r1 & -> & Hr1). osimpl. rewrite rd_0. osimpl.
    assert (Z.land n 192 = 0 /\ Z.land n 63 = n) as [-> ->].
    { rewrite land_63, (Z.mod_small n 64) by lia. split; [|done].
      apply Z.bits_inj'. intros k Hk. rewrite Z.land_spec, Z.bits_0.
      rewrite <- (Z.mod_small n (2 ^ 6)) by lia. change 192 with (Z.shiftl 3 6). destruct (Z.lt_ge_cases k 6).
      - by rewrite Z.shiftl_spec_low, andb_false_r by done.
      - by rewrite Z.mod_pow2_bits_high by lia. }
    ctests. by exists r1. }
  destruct (Z.ltb_spec n 16384) as [H14|H14].
  { pose proof (Z.div_lt_upper_bound n 256 64). pose proof (Z.div_pos n 256). pose proof (Z.mod_pos_bound n 256).
    destruct (read_bytes r past [64 + n / 256] ([n mod 256] ++ rest) 1 Hr eq_refl) as (r1 & -> & Hr1). osimpl.
    rewrite rd_0. osimpl.
    assert (Z.shiftr (Z.land (64 + n / 256) 192) 6 = 1) as ->.
    { replace (64 + n / 256) with (1 * 2 ^ 6 + n / 256) by lia. rewrite <- lor_shiftl by lia.
      rewrite Z.land_lor_distr_l. assert (Z.land (n / 256) 192 = 0) as ->; [|done].
      apply Z.bits_inj'. intros k Hk. rewrite Z.land_spec, Z.bits_0.
      rewrite <- (Z.mod_small (n / 256) (2 ^ 6)) by lia. change 192 with (Z.shiftl 3 6).
      destruct (Z.lt_ge_cases k 6).
      - by rewrite Z.shiftl_spec_low, andb_false_r by done.
      - by rewrite Z.mod_pow2_bits_high by lia. }
    ctests. rewrite land_63. replace ((64 + n / 256) mod 64) with (n / 256)
      by (rewrite (Z.add_mod 64 (n / 256) 64) by lia; rewrite Z.mod_same, Z.add_0_l, Z.mod_mod, Z.mod_small by lia; done).
    destruct (read_bytes r1 _ [n mod 256] rest 1 Hr1 eq_refl) as (r2 & -> & Hr2). osimpl. rewrite rd_0. osimpl.
    rewrite lor_shiftl by lia. exists r2. rewrite <- app_assoc in Hr2. split; [|done].
    do 3 f_equal. change (2 ^ 8) with 256. pose proof (Z.div_mod n 256). lia. }
  destruct (read_bytes r past [128] (reverse (le 4 n) ++ rest) 1 Hr eq_refl) as (r1 & -> & Hr1). osimpl.
  rewrite rd_0. osimpl. ctests.
  destruct (read_bytes r1 _ (reverse (le 4 n)) rest 4 Hr1) as (r2 & -> & Hr2);
    [by rewrite length_reverse, le_length|]. osimpl.
  exists r2. rewrite <- app_assoc in Hr2. rewrite reverse_involutive, unle_le_small by lia. done.
Qed.

Lemma load_enc (r : rio B) past k rest :
  reading r past ((192 + k) :: rest) -> 0 <= k < 4 ->
  exists r', rdbLoadLen r = Some (r', k, true) /\ reading r' (past ++ [192 + k]) rest.
Proof.
  intros Hr Hk. unfold rdbLoadLen.
  destruct (read_bytes r past [192 + k] rest 1 Hr eq_refl) as (r1 & -> & Hr1). osimpl. rewrite rd_0. osimpl.
  exists r1. assert (k = 0 \/ k = 1 \/ k = 2 \/ k = 3) as [-> |[-> |[-> | ->]]] by lia; done.
Qed.

Context (uninit : nat -> Z) (long_bits : Z).

(** What a loader returned: an object with the text. *)
Definition load_ok (past rest l : list Z) (res : option loaded) : Prop :=
  exists r integers o o', res = Some (r, integers, Some o) /\ integers_ok integers /\
    result_object o integers = Some o' /\ has_text o' l /\ reading r past rest.

Lemma load_int_ok integers encode (r : rio B) past rest v :
  integers_ok integers -> in_s 32 v -> reading r past rest ->
  load_ok past rest (dec v) (load_int uninit long_bits integers encode r v).
Proof.
  intros Hi Hv Hr. unfold in_s in Hv. change (2 ^ (32 - 1)) with (2 ^ 31) in Hv. unfold load_int. destruct encode.
  - destruct (from_long_long_spec uninit long_bits integers v) as (o & integers' & o' & -> & Hi' & Ho & Ht);
      [lia|done|]. osimpl. by exists r, integers', o, o'.
  - destruct (SdsText.sdsfromlonglong_spec uninit v) as (s & -> & Hs); [unfold LLONG_MIN; lia|]. osimpl.
    by exists r, integers, (Own (createObject (ENC_RAW s))), (createObject (ENC_RAW s)).
Qed.

Lemma lor_bytes x a k : 0 <= k -> 0 <= x < 2 ^ k -> Z.lor x (Z.shiftl a k) = x + 2 ^ k * a.
Proof. intros Hk Hx. rewrite Z.lor_comm, lor_shiftl by lia. lia. Qed.

Lemma load_integer integers encode (r : rio B) past rest v :
  integers_ok integers -> in_s 32 v -> reading r past (enc_int v ++ rest) ->
  load_ok (past ++ enc_int v) rest (dec v) (rdbGenericLoadStringObject uninit long_bits integers r encode).
Proof.
  intros Hi Hv Hr. unfold rdbGenericLoadStringObject, enc_int in *.
  pose proof (fun z => Z.mod_pos_bound z 256 ltac:(lia)) as Hb.
  destruct ((-128 <=? v) && (v <=? 127)) eqn:E8.
  { destruct (load_enc r past 0 (le 1 v ++ rest) Hr) as (r1 & -> & Hr1); [lia|]. osimpl. ctests.
    unfold rdbLoadIntegerObject. ctests.
    destruct (read_bytes r1 _ (le 1 v) rest 1 Hr1 eq_refl) as (r2 & -> & Hr2). osimpl.
    cbn [le]. rewrite rd_0. osimpl. rewrite <- app_assoc in Hr2.
    assert (swrap 8 (v mod 256) = v) as ->.
    { pose proof (swrap_unle_le 1 v ltac:(lia) ltac:(unfold in_s; lia)) as E. cbn [le unle] in E.
      rewrite Z.mul_0_r, Z.add_0_r in E. exact E. }
    by apply load_int_ok. }
  destruct ((-32768 <=? v) && (v <=? 32767)) eqn:E16.
  { destruct (load_enc r past 1 (le 2 v ++ rest) Hr) as (r1 & -> & Hr1); [lia|]. osimpl. ctests.
    unfold rdbLoadIntegerObject. ctests.
    destruct (read_bytes r1 _ (le 2 v) rest 2 Hr1 eq_refl) as (r2 & -> & Hr2). osimpl.
    cbn [le]. rewrite rd_0, rd_1. osimpl. rewrite <- app_assoc in Hr2.
    rewrite lor_bytes by (auto; lia).
    rewrite wrap_small by (pose proof (Hb v); pose proof (Hb (v / 256)); unfold in_u; lia).
    assert (swrap 16 (v mod 256 + 2 ^ 8 * (v / 256 mod 256)) = v) as ->.
    { pose proof (swrap_unle_le 2 v ltac:(lia) ltac:(unfold in_s; lia)) as E. cbn [le unle] in E.
      rewrite Z.mul_0_r, Z.add_0_r in E. exact E. }
    by apply load_int_ok. }
  destruct (load_enc r past 2 (le 4 v ++ rest) Hr) as (r1 & -> & Hr1); [lia|]. osimpl. ctests.
  unfold rdbLoadIntegerObject. ctests.
  destruct (read_bytes r1 _ (le 4 v) rest 4 Hr1 eq_refl) as (r2 & -> & Hr2). osimpl.
  cbn [le]. rewrite rd_0, rd_1. osimpl.
  change (rd [?a; ?b; ?c; ?d] 2) with (Some c). osimpl. change (rd [?a; ?b; ?c; ?d] 3) with (Some d). osimpl.
  rewrite <- app_assoc in Hr2.
  pose proof (Hb v) as B0. pose proof (Hb (v / 256)) as B1. pose proof (Hb (v / 256 / 256)) as B2.
  pose proof (Hb (v / 256 / 256 / 256)) as B3.
  rewrite (lor_bytes (v mod 256)) by lia. rewrite (lor_bytes (v mod 256 + _)) by lia.
  rewrite (lor_bytes (v mod 256 + _ + _)) by lia.
  rewrite wrap_small by (unfold in_u; lia).
  assert (int32 (v mod 256 + 2 ^ 8 * (v / 256 mod 256) + 2 ^ 16 * (v / 256 / 256 mod 256) +
    2 ^ 24 * (v / 256 / 256 / 256 mod 256)) = v) as ->.
  { pose proof (swrap_unle_le 4 v ltac:(lia) Hv) as E. cbn [le unle] in E. change (8 * Z.of_nat 4) with 32 in E.
    rewrite <- E at 5. f_equal. lia. }
  by apply load_int_ok.
Qed.

Lemma newlen_null n :
  0 <= n < 2 ^ 31 -> sdsnewlen uninit None n = Some (Sdshdr n 0 (replicate (Z.to_nat n) 0 ++ [0])).
Proof.
  intros Hn. unfold sdsnewlen. osimpl.
  replace (Z.to_nat (n + 1)) with (Z.to_nat n + 1)%nat by lia. rewrite replicate_add.
  change (replicate 1 0) with [0]. rewrite (wr_app _ 0 []) by (rewrite length_replicate; lia). osimpl.
  rewrite wrap_small by (unfold in_u; lia). done.
Qed.

Lemma raw_object l : zlen l < 2 ^ 31 -> has_text (createObject (ENC_RAW (Sdshdr (zlen l) 0 (l ++ [0])))) l.
Proof. intros Hl. exists []. cbn. split; [done|lia]. Qed.

Lemma load_raw integers encode (r : rio B) past rest l :
  integers_ok integers -> zlen l < 2 ^ 31 -> reading r past ((enc_len (zlen l) ++ l) ++ rest) ->
  load_ok (past ++ enc_len (zlen l) ++ l) rest l (rdbGenericLoadStringObject uninit long_bits integers r encode).
Proof.
  intros Hi Hl Hr. rewrite <- app_assoc in Hr. unfold rdbGenericLoadStringObject.
  destruct (load_len r past (zlen l) (l ++ rest) Hr) as (r1 & -> & Hr1); [lia|]. osimpl.
  unfold REDIS_RDB_LENERR. rewrite (proj2 (Z.eqb_neq _ _)) by lia. rewrite newlen_null by lia. osimpl.
  pose proof (raw_object l Hl) as Ho. destruct (Z.eqb_spec (zlen l) 0) as [Hz|Hz].
  - destruct l; [|cbn in Hz; lia]. rewrite !app_nil_r in *. eexists _, _, _, _. split; [done|].
    split; [done|]. split; [done|]. split; [exact Ho|done].
  - destruct (read_bytes r1 _ l rest (zlen l) Hr1 eq_refl) as (r2 & -> & Hr2). osimpl. cbn [buf len free].
    rewrite <- app_assoc in Hr2. rewrite Nat2Z.id, wrn_start by (by rewrite length_replicate). osimpl.
    eexists _, _, _, _. split; [done|]. split; [done|]. split; [done|]. split; [exact Ho|done].
Qed.

Lemma load_lzf integers encode (r : rio B) past rest l ts :
  integers_ok integers -> zlen l < 2 ^ 31 -> Lzf.tokens [] ts l -> l <> [] -> zlen (Lzf.encode ts) <= zlen l - 4 ->
  reading r past ((195 :: enc_len (zlen (Lzf.encode ts)) ++ enc_len (zlen l) ++ Lzf.encode ts) ++ rest) ->
  load_ok (past ++ 195 :: enc_len (zlen (Lzf.encode ts)) ++ enc_len (zlen l) ++ Lzf.encode ts) rest l
    (rdbGenericLoadStringObject uninit long_bits integers r encode).
Proof.
  intros Hi Hl Hts Hne Hlen Hr. unfold rdbGenericLoadStringObject. cbn [app] in Hr. rewrite <- !app_assoc in Hr.
  destruct (load_enc r past 3 _ Hr) as (r1 & -> & Hr1); [lia|]. osimpl. ctests. unfold rdbLoadLzfStringObject.
  destruct (load_len r1 _ _ _ Hr1) as (r2 & -> & Hr2); [lia|]. osimpl.
  unfold REDIS_RDB_LENERR. rewrite (proj2 (Z.eqb_neq _ _)) by lia.
  destruct (load_len r2 _ _ _ Hr2) as (r3 & -> & Hr3); [lia|]. osimpl.
  rewrite (proj2 (Z.eqb_neq _ _)) by lia. rewrite newlen_null by lia. osimpl.
  destruct (read_bytes r3 _ (Lzf.encode ts) rest _ Hr3 eq_refl) as (r4 & -> & Hr4). osimpl. cbn [buf len free].
  rewrite (Lzf.decompress_exact ts l [0]) by (done || (rewrite length_replicate; lia)). osimpl.
  rewrite (proj2 (Z.eqb_neq _ _)) by lia. rewrite <- !app_assoc in Hr4. pose proof (raw_object l Hl) as Ho.
  eexists _, _, _, _. split; [done|]. split; [done|]. split; [done|]. split; [exact Ho|done].
Qed.

Lemma load_string integers encode (r : rio B) past rest l bs :
  integers_ok integers -> zlen l < 2 ^ 31 -> saved_string l bs -> reading r past (bs ++ rest) ->
  load_ok (past ++ bs) rest l (rdbGenericLoadStringObject uninit long_bits integers r encode).
Proof.
  intros Hi Hl [v -> Hv|ts Hts Hne Hlen|] Hr;
    [by apply load_integer|by apply load_lzf|by apply load_raw].
Qed.
End Load.

(** ** DUMP payloads (migrate.c) *)
Section Dump.
Context (uninit : nat -> Z) (htab0 : Z -> Z) (rdb_compression : bool).
#[local] Existing Instance rioBufferIO.

(** [createDumpPayload] of a string object: the type, the object, the version
    and the checksum. A writer that reports 0 fails the assertion. *)
Definition createDumpPayload (o : robj) : option (rio buffer) :=
  s ← sdsempty uninit;
  '(rdb, n) ← rdbSaveType (Some (rioInitWithBuffer s)) REDIS_RDB_TYPE_STRING (H := rioBufferIO uninit);
  if n =? 0 then None
  else
    '(rdb, n) ← rdbSaveStringObject uninit htab0 rdb_compression rdb o (H := rioBufferIO uninit);
    if n =? 0 then None
    else
      r ← rdb;
      s ← sdscatlen uninit (ptr (io r)) [Z.land REDIS_RDB_VERSION 255; Z.land (Z.shiftr REDIS_RDB_VERSION 8) 255] 2;
      crc ← crc64 0 (buf s) (sdslen s);
      s ← sdscatlen uninit s (le 8 crc) 8;
      Some (with_io r (Buffer s (pos (io r)))).
End Dump.

(** [true] for [REDIS_OK]. *)
Definition verifyDumpPayload (p : list Z) (len : Z) : option bool :=
  if len <? 10 then Some false
  else
    let footer := len - 10 in
    f1 ← rd p (footer + 1);
    f0 ← rd p footer;
    let rdbver := uint16 (Z.lor (Z.shiftl f1 8) f0) in
    if negb (rdbver =? REDIS_RDB_VERSION) then Some false
    else
      crc ← crc64 0 p (len - 8);
      y ← rdn p (footer + 2) 8;
      Some (memcmp (le 8 crc) y =? 0).

(** A payload is accepted exactly when its version is the right one and its
    checksum, taken over all of it, is zero. *)
Lemma verify_spec p t :
  Forall is_byte p ->
  exists ok, verifyDumpPayload (p ++ t) (zlen p) = Some ok /\
    (ok = true <-> exists m f, p = m ++ [6; 0] ++ f /\ length f = 8%nat /\ crc_tab 0 p = 0).
Proof.
  intros Hby. unfold verifyDumpPayload. destruct (Z.ltb_spec (zlen p) 10) as [Hlt|Hge].
  { exists false. split; [done|]. split; [done|]. intros (m & f & -> & Hf & _). rewrite !length_app, Hf in Hlt.
    cbn in Hlt. lia. }
  destruct (cut (zlen p - 10) p) as (m & q & -> & Hm & Hq & _ & _); [lia|]. rewrite length_app in Hm, Hq, Hge |- *.
  destruct q as [|v0 [|v1 f]]; try (cbn in *; lia). cbn [length] in *.
  assert (length f = 8%nat) as Hf by lia.
  apply Forall_app in Hby as [Hbm Hbq]. apply Forall_cons_iff in Hbq as [Hb0 Hbq].
  apply Forall_cons_iff in Hbq as [Hb1 Hbf]. unfold is_byte in Hb0, Hb1.
  replace (Z.of_nat (length m + S (S (length f))) - 10) with (zlen m) by lia.
  rewrite <- app_assoc. cbn [app].
  rewrite rd_shift, rd_1, rd_app by (done || lia). osimpl.
  rewrite lor_shiftl by lia. rewrite wrap_small by (unfold in_u; lia). unfold REDIS_RDB_VERSION.
  destruct (Z.eqb_spec (v1 * 2 ^ 8 + v0) 6) as [Hv|Hv]; cbn [negb].
  2: { exists false. split; [done|]. split; [done|]. intros (m' & f' & E & Hf' & _). exfalso. apply Hv.
       apply (app_inj_2 m m' (v0 :: v1 :: f)) in E as [_ [= -> -> _]]; [done|]. cbn [app length]. lia. }
  assert (v1 = 0 /\ v0 = 6) as [-> ->] by lia.
  replace (Z.of_nat (length m + S (S (length f))) - 8) with (zlen (m ++ [6; 0])) by (rewrite length_app; cbn; lia).
  assert (Forall is_byte (m ++ [6; 0])) as Hbm2 by (apply Forall_app; by repeat constructor).
  replace (m ++ 6 :: 0 :: f ++ t) with ((m ++ [6; 0]) ++ f ++ t) by (by rewrite <- app_assoc).
  rewrite crc64_tab_spec by done. osimpl.
  rewrite rdn_app by (rewrite ?length_app; cbn; lia). osimpl. eexists. split; [done|].
  rewrite memcmp_eq by (by rewrite le_length). rewrite bool_decide_eq_true.
  pose proof (residue_zero (m ++ [6; 0]) f Hbm2 Hbf Hf) as Hz.
  replace (m ++ 6 :: 0 :: f) with ((m ++ [6; 0]) ++ f) by (by rewrite <- app_assoc).
  split.
  - intros Ef. exists m, f. split; [by rewrite <- app_assoc|]. split; [done|]. by apply Hz.
  - intros (m' & f' & _ & _ & E). symmetry. by apply Hz.
Qed.

Lemma dump_create_spec uninit htab0 rdb_compression o l :
  (forall k, Lzf.slot_ok (htab0 k)) -> has_text o l -> Forall is_byte l -> zlen l + 18 < 2 ^ 31 - 2 ^ 20 ->
  exists r bs, createDumpPayload uninit htab0 rdb_compression o = Some r /\ saved_string l bs /\
    Forall is_byte bs /\
    repr (ptr (io r)) ((0 :: bs) ++ [6; 0] ++ le 8 (crc_tab 0 ((0 :: bs) ++ [6; 0]))).
Proof.
  intros Hht Ho Hby Hlen. unfold createDumpPayload.
  destruct (empty_spec uninit) as (s & -> & Hs). osimpl.
  pose proof (init_writing uninit s [] Hs eq_refl) as Hw.
  destruct (write_raw (H0 := buffer_stream uninit) (Some (rioInitWithBuffer s)) [] [REDIS_RDB_TYPE_STRING]) as (r1 & E1 & S1 & N1);
    [exact Hw|cbn; lia|by repeat constructor|cbn; lia|].
  unfold rdbSaveType. rewrite E1. osimpl. change (zlen [REDIS_RDB_TYPE_STRING]) with 1. ctests.
  destruct (save_string (H0 := buffer_stream uninit) uninit htab0 rdb_compression r1 [0] o l Hht) as
    (bs & Hbs & r2 & E2 & S2 & N2); [exact S1| |done|done|lia|].
  { destruct r1; cbn; [lia|done]. }
  rewrite E2. osimpl.
  assert (0 < zlen bs <= zlen l + 7) as Hsz.
  { pose proof (enc_len_size (zlen l)). destruct Hbs as [v -> Hv|ts _ _ Hts|].
    - pose proof (enc_int_size v). pose proof (dec_length v). unfold in_s in *. lia.
    - pose proof (enc_len_size (zlen (Lzf.encode ts))). cbn [length]. rewrite !length_app. lia.
    - rewrite length_app. lia. }
  rewrite (proj2 (Z.eqb_neq _ _)) by lia.
  destruct r2 as [r2|]; [|discriminate (proj1 N1 (proj1 N2 eq_refl))]. osimpl. destruct S2 as [Hr2 Hsum]. cbn in Hr2.
  pose proof (su_bytes _ _ Hsum) as Hb2.
  destruct (catlen_spec uninit (ptr (io r2)) ([0] ++ bs) [6; 0] [] 2 Hr2) as (s3 & E3 & Hs3);
    [done|rewrite length_app; cbn; lia|]. rewrite app_nil_r in E3.
  change [Z.land REDIS_RDB_VERSION 255; Z.land (Z.shiftr REDIS_RDB_VERSION 8) 255] with [6; 0]. rewrite E3. osimpl.
  assert (Forall is_byte (([0] ++ bs) ++ [6; 0])) as Hb3
    by (apply Forall_app; split; [exact Hb2|by repeat constructor]).
  assert (crc64 0 (buf s3) (sdslen s3) = Some (crc_tab 0 (([0] ++ bs) ++ [6; 0]))) as ->
    by (destruct Hs3 as (t & -> & _); by apply crc64_tab_spec).
  osimpl. set (crc := crc_tab 0 _).
  destruct (catlen_spec uninit s3 _ (le 8 crc) [] 8 Hs3) as (s4 & E4 & Hs4).
  { by rewrite le_length. }
  { rewrite !length_app, le_length. cbn. lia. }
  rewrite app_nil_r in E4. rewrite E4. osimpl. eexists _, bs. split; [done|]. split; [done|].
  apply Forall_app in Hb2 as [_ Hb2]. split; [done|]. cbn [ptr io with_io]. rewrite <- app_assoc in Hs4. exact Hs4.
Qed.

(** ** Properties *)

(** C17: A string object that is written to a stream is read back: whatever its
    encoding, the compression and the stream, the number of bytes reported is
    the number of bytes written, and from any stream that has these bytes
    ahead the loader returns an object with the same text and stops right
    behind them. *)
Theorem rdb_string_roundtrip {B} `{Stream B} uninit long_bits htab0 rdb_compression integers encode r l0 o l :
  (forall k, Lzf.slot_ok (htab0 k)) -> integers_ok integers ->
  writing r l0 -> zlen l0 + (zlen l + 7) < capacity ->
  has_text o l -> Forall is_byte l -> zlen l < 2 ^ 31 - 2 ^ 20 ->
  exists bs r', rdbSaveStringObject uninit htab0 rdb_compression (Some r) o = Some (Some r', zlen bs) /\
    writing r' (l0 ++ bs) /\
    forall r2 past rest, reading r2 past (bs ++ rest) ->
      exists r3 integers' o2 o', rdbGenericLoadStringObject uninit long_bits integers r2 encode =
          Some (r3, integers', Some o2) /\
        integers_ok integers' /\ result_object o2 integers' = Some o' /\ has_text o' l /\
        reading r3 (past ++ bs) rest.
Proof.
  intros Hht Hi Hw Hcap Ho Hby Hlen.
  destruct (save_string uninit htab0 rdb_compression (Some r) l0 o l Hht Hw Hcap Ho Hby Hlen)
    as (bs & Hbs & r' & E & Hs & Hn).
  destruct r' as [r'|]; [|discriminate (proj1 Hn eq_refl)].
  exists bs, r'. split; [done|]. split; [done|]. intros r2 past rest Hr.
  apply (load_string uninit long_bits integers encode r2 past rest l bs Hi); [lia|done|done].
Qed.

(** DUMP and RESTORE agree: the payload made of a string object passes the
    verification, starts with the type of strings, and its object is read back
    with the same text. *)
Theorem dump_roundtrip uninit long_bits htab0 rdb_compression integers o l :
  (forall k, Lzf.slot_ok (htab0 k)) -> integers_ok integers ->
  has_text o l -> Forall is_byte l -> zlen l + 18 < 2 ^ 31 - 2 ^ 20 ->
  exists r s, createDumpPayload uninit htab0 rdb_compression o = Some r /\ ptr (io r) = s /\
    verifyDumpPayload (buf s) (sdslen s) = Some true /\
    exists r1 r2 integers' o2 o',
      rdbLoadObjectType (rioInitWithBuffer s) (H := rioBufferIO uninit) = Some (r1, REDIS_RDB_TYPE_STRING) /\
      rdbLoadStringObject uninit long_bits integers r1 (H := rioBufferIO uninit) = Some (r2, integers', Some o2) /\
      result_object o2 integers' = Some o' /\ has_text o' l.
Proof.
  intros Hht Hi Ho Hby Hlen.
  destruct (dump_create_spec uninit htab0 rdb_compression o l Hht Ho Hby Hlen) as (r & bs & E & Hbs & Hbb & Hr).
  exists r, (ptr (io r)). split; [done|]. split; [done|].
  set (p := (0 :: bs) ++ [6; 0] ++ le 8 (crc_tab 0 ((0 :: bs) ++ [6; 0]))) in *.
  assert (Forall is_byte ((0 :: bs) ++ [6; 0])) as Hb1.
  { apply Forall_app. split; [by constructor|by repeat constructor]. }
  assert (Forall is_byte p) as Hbp.
  { unfold p. rewrite app_assoc. apply Forall_app. split; [done|apply le_bytes]. }
  split.
  - pose proof Hr as (t & Es & _). rewrite Es. cbn [buf]. unfold sdslen. cbn [len].
    destruct (verify_spec p (0 :: t) Hbp) as (ok & -> & Hok). f_equal. apply Hok.
    eexists _, _. split; [reflexivity|]. split; [apply le_length|]. unfold p. rewrite app_assoc.
    apply residue_zero; [done|apply le_bytes|apply le_length|done].
  - pose proof (init_reading uninit _ _ Hr Hbp) as Hrd. unfold rdbLoadObjectType, rdbLoadType.
    destruct (read_bytes (H0 := buffer_stream uninit) _ [] [0] (bs ++ [6; 0] ++ le 8 (crc_tab 0 ((0 :: bs) ++ [6; 0]))) 1 Hrd eq_refl)
      as (r1 & -> & Hr1). osimpl. rewrite rd_0. osimpl. ctests.
    destruct (load_string (H0 := buffer_stream uninit) uninit long_bits integers false r1 _ _ l bs Hi ltac:(lia) Hbs Hr1)
      as (r2 & integers' & o2 & o' & E2 & _ & Ho2 & Ht & _).
    by exists r1, r2, integers', o2, o'.
Qed.

(** C18: The verification of a payload detects every error burst of up to eight
    bytes, wherever it is, the version and the checksum included. *)
Theorem dump_detects_bursts p a b q t :
  Forall is_byte (p ++ a ++ q) -> Forall is_byte b -> length a = length b -> (length a <= 8)%nat -> a <> b ->
  verifyDumpPayload ((p ++ a ++ q) ++ t) (zlen (p ++ a ++ q)) = Some true ->
  verifyDumpPayload ((p ++ b ++ q) ++ t) (zlen (p ++ b ++ q)) = Some false.
Proof.
  intros Hby Hb Hl Hk Hne E. assert (Forall is_byte (p ++ b ++ q)) as Hby'.
  { rewrite !Forall_app in *. tauto. }
  destruct (verify_spec _ t Hby) as (ok & E1 & Hok). rewrite E in E1. injection E1 as <-.
  destruct (verify_spec _ t Hby') as (ok & -> & Hok'). f_equal. destruct ok; [|done]. exfalso. apply Hne.
  destruct (proj1 Hok eq_refl) as (_ & _ & _ & _ & Z1). destruct (proj1 Hok' eq_refl) as (_ & _ & _ & _ & Z2).
  apply (burst_detected p a b q 0); [unfold word; lia|done|done|done|done|congruence].
Qed.

(** ** Witnesses *)
Definition text0 : list Z := replicate 30 97.
Definition object0 : robj := createObject (ENC_RAW (Sdshdr 30 0 (text0 ++ [0]))).

Lemma object0_text : has_text object0 text0.
Proof. by exists []. Qed.

Lemma text0_bytes : Forall is_byte text0.
Proof. apply Forall_replicate. unfold is_byte. lia. Qed.

Lemma rdb_string_roundtrip_witness :
  exists bs r', rdbSaveStringObject (fun _ => 0) (fun _ => 0) true
      (Some (rioInitWithBuffer (Sdshdr 0 0 [0]))) object0 (H := rioBufferIO (fun _ => 0)) = Some (Some r', zlen bs) /\
    writing r' bs (H0 := buffer_stream (fun _ => 0)) /\
    forall r2 past rest, reading r2 past (bs ++ rest) (H0 := buffer_stream (fun _ => 0)) ->
      exists r3 integers' o2 o', rdbGenericLoadStringObject (fun _ => 0) 64 integers0 r2 true
          (H := rioBufferIO (fun _ => 0)) = Some (r3, integers', Some o2) /\
        integers_ok integers' /\ result_object o2 integers' = Some o' /\ has_text o' text0 /\
        reading r3 (past ++ bs) rest (H0 := buffer_stream (fun _ => 0)).
Proof.
  apply (rdb_string_roundtrip (H0 := buffer_stream (fun _ => 0)) (fun _ => 0) 64 (fun _ => 0) true integers0 true
    (rioInitWithBuffer (Sdshdr 0 0 [0])) [] object0 text0).
  - intros k. unfold Lzf.slot_ok, Lzf.MAX_OFF. lia.
  - exact integers0_ok.
  - apply init_writing; [by exists []|done].
  - vm_compute. reflexivity.
  - exact object0_text.
  - exact text0_bytes.
  - vm_compute. reflexivity.
Defined.

Lemma dump_roundtrip_witness :
  exists r s, createDumpPayload (fun _ => 0) (fun _ => 0) true object0 = Some r /\ ptr (io r) = s /\
    verifyDumpPayload (buf s) (sdslen s) = Some true /\
    exists r1 r2 integers' o2 o',
      rdbLoadObjectType (rioInitWithBuffer s) (H := rioBufferIO (fun _ => 0)) = Some (r1, REDIS_RDB_TYPE_STRING) /\
      rdbLoadStringObject (fun _ => 0) 64 integers0 r1 (H := rioBufferIO (fun _ => 0)) = Some (r2, integers', Some o2) /\
      result_object o2 integers' = Some o' /\ has_text o' text0.
Proof.
  apply (dump_roundtrip (fun _ => 0) 64 (fun _ => 0) true integers0 object0 text0).
  - intros k. unfold Lzf.slot_ok, Lzf.MAX_OFF. lia.
  - exact integers0_ok.
  - exact object0_text.
  - exact text0_bytes.
  - vm_compute. reflexivity.
Defined.

(** The rest of the payload of "a" behind the letter and the version. *)
Definition footer_a : list Z := 0 :: le 8 (crc_tab 0 [0; 1; 97; 6; 0]).

Lemma dump_detects_bursts_witness :
  verifyDumpPayload (([0; 1] ++ [98; 7] ++ footer_a) ++ []) (zlen ([0; 1] ++ [98; 7] ++ footer_a)) = Some false.
Proof.
  apply (dump_detects_bursts [0; 1] [97; 6] [98; 7] footer_a []).
  - rewrite !Forall_app. split; [by repeat constructor|]. split; [by repeat constructor|].
    constructor; [done|apply le_bytes].
  - by repeat constructor.
  - done.
  - cbn. lia.
  - done.
  - vm_compute. reflexivity.
Defined.

End Rdb.
