(* ===== verification/Reply.v ===== *)
(** * Replies to clients (src/redis-2.8/src/networking.c)

    The output of a client is a static buffer followed by a list of string
    objects. Objects are shared and counted, so they live in a heap; the reply
    list holds locations. Operations run in a state monad over the heap and
    the client. The allocator's sizes, the event loop and the socket are
    parameters; the lists are sequences, as [Adlist] justifies. *)
From stdpp Require Import base tactics list numbers option gmap fin_maps relations.
From Stdlib Require Import ZArith Lia.
From S2P Require Import Prelude Util Sds SdsText Object.
Import CInt CMem Bytes StateM Util Sds.
Open Scope redis_scope.
Open Scope Z_scope.

Module Reply.

Definition REDIS_MAX_WRITE_PER_EVENT : Z := 1024 * 64.
Definition REDIS_SHARED_BULKHDR_LEN : Z := 32.
Definition REDIS_REPLY_CHUNK_BYTES : Z := 16 * 1024.
Definition REDIS_SLAVE : Z := 1.
Definition REDIS_MASTER : Z := 2.
Definition REDIS_MONITOR : Z := 4.
Definition REDIS_CLOSE_AFTER_REPLY : Z := 64.
Definition REDIS_LUA_CLIENT : Z := 256.
Definition REDIS_CLOSE_ASAP : Z := 1024.
Definition REDIS_MASTER_FORCE_REPLY : Z := 8192.
Definition REDIS_PUBSUB : Z := 2 ^ 18.
Definition REDIS_REPL_NONE : Z := 0.
Definition REDIS_REPL_ONLINE : Z := 9.
Definition REDIS_CLIENT_TYPE_NORMAL : Z := 0.
Definition REDIS_CLIENT_TYPE_SLAVE : Z := 1.
Definition REDIS_CLIENT_TYPE_PUBSUB : Z := 2.

Definition loc := positive.

(** [PNull] is the object of a length that is not known yet. *)
Inductive optr := PNull | PRaw (s : sdshdr) | PInt (v : Z).
Record obj := Obj { ptr : optr; refcount : Z }.

(** [writable] says whether the write handler is installed. *)
Record client := Client {
  flags : Z; fd : Z; replstate : Z;
  cbuf : list Z; bufpos : Z; sentlen : Z; reply : list loc; reply_bytes : Z;
  obuf_soft_limit_reached_time : Z; lastinteraction : Z; writable : bool }.

(** [to_close] counts the entries of [server.clients_to_close]. *)
Record st := St { heap : gmap loc obj; cl : client; to_close : nat }.

(** ** The monad *)
Abbreviation M := (StateM.M st).

Definition get : M client := fun s => Some (cl s, s).
Definition put (c : client) : M unit := fun s => Some (tt, St (heap s) c (to_close s)).
Definition load (l : loc) : M obj := fun s => o ← heap s !! l; Some (o, s).
Definition store (l : loc) (o : obj) : M unit :=
  fun s => Some (tt, St (<[l := o]> (heap s)) (cl s) (to_close s)).
Definition alloc (o : obj) : M loc :=
  fun s => let l := fresh (dom (heap s)) in Some (l, St (<[l := o]> (heap s)) (cl s) (to_close s)).
Definition dispose (l : loc) : M unit :=
  fun s => Some (tt, St (delete l (heap s)) (cl s) (to_close s)).

Definition with_flags c x := Client x (fd c) (replstate c) (cbuf c) (bufpos c) (sentlen c) (reply c)
  (reply_bytes c) (obuf_soft_limit_reached_time c) (lastinteraction c) (writable c).
Definition with_buf c b n := Client (flags c) (fd c) (replstate c) b n (sentlen c) (reply c)
  (reply_bytes c) (obuf_soft_limit_reached_time c) (lastinteraction c) (writable c).
Definition with_sentlen c n := Client (flags c) (fd c) (replstate c) (cbuf c) (bufpos c) n (reply c)
  (reply_bytes c) (obuf_soft_limit_reached_time c) (lastinteraction c) (writable c).
Definition with_reply c l := Client (flags c) (fd c) (replstate c) (cbuf c) (bufpos c) (sentlen c) l
  (reply_bytes c) (obuf_soft_limit_reached_time c) (lastinteraction c) (writable c).
Definition with_reply_bytes c n := Client (flags c) (fd c) (replstate c) (cbuf c) (bufpos c) (sentlen c) (reply c)
  n (obuf_soft_limit_reached_time c) (lastinteraction c) (writable c).
Definition with_soft_time c t := Client (flags c) (fd c) (replstate c) (cbuf c) (bufpos c) (sentlen c) (reply c)
  (reply_bytes c) t (lastinteraction c) (writable c).
Definition with_lastinteraction c t := Client (flags c) (fd c) (replstate c) (cbuf c) (bufpos c) (sentlen c) (reply c)
  (reply_bytes c) (obuf_soft_limit_reached_time c) t (writable c).
Definition with_writable c w := Client (flags c) (fd c) (replstate c) (cbuf c) (bufpos c) (sentlen c) (reply c)
  (reply_bytes c) (obuf_soft_limit_reached_time c) (lastinteraction c) w.

(** [reply_bytes += n], of an unsigned long. *)
Definition add_reply_bytes (n : Z) : M unit :=
  c ← get; put (with_reply_bytes c (uint64 (reply_bytes c + n))).

Definition has (c : client) (flag : Z) : bool := negb (Z.land (flags c) flag =? 0).

(** ** Objects *)
Definition incrRefCount (l : loc) : M unit := o ← load l; store l (Obj (ptr o) (refcount o + 1)).

Definition decrRefCount (l : loc) : M unit :=
  o ← load l;
  if refcount o <=? 0 then fail
  else if refcount o =? 1 then dispose l
  else store l (Obj (ptr o) (refcount o - 1)).

Definition sds_of (o : obj) : M sdshdr := match ptr o with PRaw s => mret s | _ => fail end.

(** ** Limits *)
Record limits := Limits { hard_limit_bytes : Z; soft_limit_bytes : Z; soft_limit_seconds : Z }.

Definition getClientType (c : client) : Z :=
  if has c REDIS_SLAVE && negb (has c REDIS_MONITOR) then REDIS_CLIENT_TYPE_SLAVE
  else if has c REDIS_PUBSUB then REDIS_CLIENT_TYPE_PUBSUB
  else REDIS_CLIENT_TYPE_NORMAL.

Section Server.
Context (uninit : nat -> Z) (unixtime : Z) (client_obuf_limits : Z -> limits).
(** The sizes of a list node with its object and of the block of a string. *)
Context (list_item_size : Z) (zmalloc_size_sds : sdshdr -> Z).
(** Whether [aeCreateFileEvent] succeeds. *)
Context (ae_ok : bool).

Definition getClientOutputBufferMemoryUsage (c : client) : Z :=
  uint64 (reply_bytes c + list_item_size * zlen (reply c)).

Definition checkClientOutputBufferLimits : M bool :=
  c ← get;
  let used_mem := getClientOutputBufferMemoryUsage c in
  let lim := client_obuf_limits (getClientType c) in
  let hard := negb (hard_limit_bytes lim =? 0) && (hard_limit_bytes lim <=? used_mem) in
  let soft := negb (soft_limit_bytes lim =? 0) && (soft_limit_bytes lim <=? used_mem) in
  soft ← (if soft then
            if obuf_soft_limit_reached_time c =? 0 then
              _ ← put (with_soft_time c unixtime); mret false
            else
              let elapsed := unixtime - obuf_soft_limit_reached_time c in
              mret (negb (elapsed <=? soft_limit_seconds lim))
          else _ ← put (with_soft_time c 0); mret false);
  mret (soft || hard).

Definition freeClientAsync : M unit :=
  c ← get;
  if has c REDIS_CLOSE_ASAP then mret tt
  else fun s => Some (tt, St (heap s) (with_flags c (Z.lor (flags c) REDIS_CLOSE_ASAP)) (S (to_close s))).

Definition asyncCloseClientOnOutputBufferLimitReached : M unit :=
  c ← get;
  if 2 ^ 64 - 1 - 1024 * 64 <=? reply_bytes c then fail
  else if (reply_bytes c =? 0) || has c REDIS_CLOSE_ASAP then mret tt
  else
    reached ← checkClientOutputBufferLimits;
    if reached : bool then freeClientAsync else mret tt.

(** ** The two parts of the output

    The flags are the results: [true] for [REDIS_OK]. *)
Definition prepareClientToWrite : M bool :=
  c ← get;
  if has c REDIS_LUA_CLIENT then mret true
  else if has c REDIS_MASTER && negb (has c REDIS_MASTER_FORCE_REPLY) then mret false
  else if fd c <=? 0 then mret false
  else if (bufpos c =? 0) && (zlen (reply c) =? 0)
          && ((replstate c =? REDIS_REPL_NONE) || (replstate c =? REDIS_REPL_ONLINE)) then
    if ae_ok then _ ← put (with_writable c true); mret true else mret false
  else mret true.

Definition dupLastObjectIfNeeded : M loc :=
  c ← get;
  l ← lift (last (reply c));
  cur ← load l;
  if 1 <? refcount cur then
    s ← sds_of cur;
    s ← lift (sdsnewlen uninit (Some (buf s)) (sdslen s));
    new ← alloc (Obj (PRaw s) 1);
    _ ← decrRefCount l;
    c ← get;
    _ ← put (with_reply c (take (length (reply c) - 1) (reply c) ++ [new]));
    mret new
  else mret l.

Definition _addReplyToBuffer (s : list Z) (len : Z) : M bool :=
  c ← get;
  let available := uint64 (zlen (cbuf c) - bufpos c) in
  if has c REDIS_CLOSE_AFTER_REPLY then mret true
  else if 0 <? zlen (reply c) then mret false
  else if available <? len then mret false
  else
    x ← lift (rdn s 0 len);
    b ← lift (wrn (cbuf c) (bufpos c) x);
    _ ← put (with_buf c b (bufpos c + int32 len));
    mret true.

Definition add_node (l : loc) : M unit := c ← get; put (with_reply c (reply c ++ [l])).

(** The object at the end of the list, when [len] more bytes fit into it. *)
Definition tail_with_room (len : Z) : M bool :=
  c ← get;
  l ← lift (last (reply c));
  tail ← load l;
  match ptr tail with
  | PNull => mret false
  | _ => s ← sds_of tail; mret (uint64 (sdslen s + len) <=? REDIS_REPLY_CHUNK_BYTES)
  end.

(** [tail->ptr = sdscatlen(tail->ptr,x,len)] with its accounting. *)
Definition append_to_tail (x : list Z) (len : Z) : M unit :=
  c ← get;
  l ← lift (last (reply c));
  tail ← load l;
  s ← sds_of tail;
  _ ← add_reply_bytes (- zmalloc_size_sds s);
  l ← dupLastObjectIfNeeded;
  tail ← load l;
  s ← sds_of tail;
  s ← lift (sdscatlen uninit s x len);
  _ ← store l (Obj (PRaw s) (refcount tail));
  add_reply_bytes (zmalloc_size_sds s).

Definition _addReplyObjectToList (o : loc) : M unit :=
  c ← get;
  if has c REDIS_CLOSE_AFTER_REPLY then mret tt
  else
    v ← load o;
    s ← sds_of v;
    room ← (if zlen (reply c) =? 0 then mret false else tail_with_room (sdslen s));
    _ ← (if room : bool then append_to_tail (buf s) (sdslen s)
         else _ ← incrRefCount o; _ ← add_node o; add_reply_bytes (zmalloc_size_sds s));
    asyncCloseClientOnOutputBufferLimitReached.

Definition _addReplySdsToList (s : sdshdr) : M unit :=
  c ← get;
  if has c REDIS_CLOSE_AFTER_REPLY then mret tt
  else
    room ← (if zlen (reply c) =? 0 then mret false else tail_with_room (sdslen s));
    _ ← (if room : bool then append_to_tail (buf s) (sdslen s)
         else l ← alloc (Obj (PRaw s) 1); _ ← add_node l; add_reply_bytes (zmalloc_size_sds s));
    asyncCloseClientOnOutputBufferLimitReached.

Definition _addReplyStringToList (s : list Z) (len : Z) : M unit :=
  c ← get;
  if has c REDIS_CLOSE_AFTER_REPLY then mret tt
  else
    room ← (if zlen (reply c) =? 0 then mret false else tail_with_room len);
    _ ← (if room : bool then append_to_tail s len
         else
           o ← lift (sdsnewlen uninit (Some s) len);
           l ← alloc (Obj (PRaw o) 1); _ ← add_node l; add_reply_bytes (zmalloc_size_sds o));
    asyncCloseClientOnOutputBufferLimitReached.

(** ** Replies *)
Definition addReply (o : loc) : M unit :=
  ok ← prepareClientToWrite;
  if negb ok then mret tt
  else
    v ← load o;
    match ptr v with
    | PRaw s =>
        ok ← _addReplyToBuffer (buf s) (sdslen s);
        if ok : bool then mret tt else _addReplyObjectToList o
    | PInt n =>
        c ← get;
        fast ← (if (zlen (reply c) =? 0) && (32 <=? uint64 (zlen (cbuf c) - bufpos c)) then
                  '(b, len) ← lift (ll2string (realloc uninit 32 []) 32 n);
                  _addReplyToBuffer b len
                else mret false);
        if fast : bool then mret tt
        else
          (* [getDecodedObject] makes a new object of an integer. *)
          '(b, _) ← lift (ll2string (realloc uninit 32 []) 32 n);
          len ← lift (strlen b);
          s ← lift (sdsnewlen uninit (Some b) len);
          l ← alloc (Obj (PRaw s) 1);
          ok ← _addReplyToBuffer (buf s) (sdslen s);
          _ ← (if ok : bool then mret tt else _addReplyObjectToList l);
          decrRefCount l
    | PNull => fail
    end.

Definition addReplySds (s : sdshdr) : M unit :=
  ok ← prepareClientToWrite;
  if negb ok then mret tt
  else
    ok ← _addReplyToBuffer (buf s) (sdslen s);
    if ok : bool then mret tt else _addReplySdsToList s.

Definition addReplyString (s : list Z) (len : Z) : M unit :=
  ok ← prepareClientToWrite;
  if negb ok then mret tt
  else
    ok ← _addReplyToBuffer s len;
    if ok : bool then mret tt else _addReplyStringToList s len.

Definition addReplyErrorLength (s : list Z) (len : Z) : M unit :=
  _ ← addReplyString [45; 69; 82; 82; 32; 0] 5; _ ← addReplyString s len; addReplyString [13; 10; 0] 2.

Definition addReplyError (err : list Z) : M unit := len ← lift (strlen err); addReplyErrorLength err len.

Definition addReplyStatusLength (s : list Z) (len : Z) : M unit :=
  _ ← addReplyString [43; 0] 1; _ ← addReplyString s len; addReplyString [13; 10; 0] 2.

Definition addReplyStatus (status : list Z) : M unit :=
  len ← lift (strlen status); addReplyStatusLength status len.

(** [None] is the null pointer. *)
Definition addDeferredMultiBulkLength : M (option loc) :=
  ok ← prepareClientToWrite;
  if negb ok then mret None
  else l ← alloc (Obj PNull 1); _ ← add_node l; mret (Some l).

(** The position of a node in the list. *)
Definition index_of (l : loc) (ls : list loc) : option nat := fst <$> list_find (eq l) ls.

Definition setDeferredMultiBulkLength (node : option loc) (length : Z) : M unit :=
  match node with
  | None => mret tt
  | Some l =>
      c ← get;
      i ← lift (index_of l (reply c));
      len ← load l;
      s ← lift (sdsempty uninit);
      s ← lift (SdsText.sdscatprintf uninit s [42; 37; 108; 100; 13; 10; 0] (42 :: dec length ++ [13; 10]));
      _ ← store l (Obj (PRaw s) (refcount len));
      _ ← add_reply_bytes (zmalloc_size_sds s);
      _ ← match reply c !! S i with
          | None => mret tt
          | Some n =>
              next ← load n;
              match ptr next with
              | PRaw t =>
                  _ ← add_reply_bytes (- zmalloc_size_sds s);
                  _ ← add_reply_bytes (- zmalloc_size_sds t);
                  s ← lift (sdscatlen uninit s (buf t) (sdslen t));
                  _ ← store l (Obj (PRaw s) (refcount len));
                  _ ← add_reply_bytes (zmalloc_size_sds s);
                  c ← get;
                  _ ← put (with_reply c (delete (S i) (reply c)));
                  decrRefCount n
              | _ => mret tt
              end
          end;
      asyncCloseClientOnOutputBufferLimitReached
  end.

(** ** Shared objects *)
Record shared_objects := Shared {
  mbulkhdr : list loc; bulkhdr : list loc; crlf : loc; czero : loc; cone : loc; nullbulk : loc }.

Definition createObject (s : sdshdr) : M loc := alloc (Obj (PRaw s) 1).

(** [createObject(REDIS_STRING,sdscatprintf(sdsempty(),"*%d\r\n",j))] *)
Definition create_header (prefix j : Z) : M loc :=
  s ← lift (sdsempty uninit);
  s ← lift (SdsText.sdscatprintf uninit s [prefix; 37; 100; 13; 10; 0] (prefix :: dec j ++ [13; 10]));
  createObject s.

Fixpoint create_headers (n : nat) (j : Z) (mb bk : list loc) : M (list loc * list loc) :=
  match n with
  | O => mret (mb, bk)
  | S n =>
      m ← create_header 42 j;
      b ← create_header 36 j;
      create_headers n (j + 1) (mb ++ [m]) (bk ++ [b])
  end.

Definition create_text (x : list Z) : M loc := s ← lift (sdsnew uninit (Some x)); createObject s.

(** The objects that the replies below use. *)
Definition createSharedObjects : M shared_objects :=
  crlf ← create_text [13; 10; 0];
  czero ← create_text [58; 48; 13; 10; 0];
  cone ← create_text [58; 49; 13; 10; 0];
  nullbulk ← create_text [36; 45; 49; 13; 10; 0];
  '(mbulkhdr, bulkhdr) ← create_headers (Z.to_nat REDIS_SHARED_BULKHDR_LEN) 0 [] [];
  mret (Shared mbulkhdr bulkhdr crlf czero cone nullbulk).

Context (shared : shared_objects).

Definition addReplyLongLongWithPrefix (ll prefix : Z) : M unit :=
  if (prefix =? 42) && (ll <? REDIS_SHARED_BULKHDR_LEN) then
    l ← lift (rd (mbulkhdr shared) ll); addReply l
  else if (prefix =? 36) && (ll <? REDIS_SHARED_BULKHDR_LEN) then
    l ← lift (rd (bulkhdr shared) ll); addReply l
  else
    let b := realloc uninit 128 [] in
    b ← lift (wr b 0 prefix);
    '(tl, len) ← lift (ll2string (drop 1 b) 127 ll);
    b ← lift (wrn (take 1 b ++ tl) (len + 1) [13; 10]);
    addReplyString b (len + 3).

Definition addReplyLongLong (ll : Z) : M unit :=
  if ll =? 0 then addReply (czero shared)
  else if ll =? 1 then addReply (cone shared)
  else addReplyLongLongWithPrefix ll 58.

Definition addReplyMultiBulkLen (length : Z) : M unit :=
  if length <? REDIS_SHARED_BULKHDR_LEN then
    l ← lift (rd (mbulkhdr shared) length); addReply l
  else addReplyLongLongWithPrefix length 42.

(** [while((n = n/10) != 0) len++]; a 64-bit number has at most 20 digits. *)
Fixpoint count_digits (fuel : nat) (n len : Z) : option Z :=
  match fuel with
  | O => None
  | S fuel => let n := Z.quot n 10 in if n =? 0 then Some len else count_digits fuel n (len + 1)
  end.

Definition addReplyBulkLen (o : loc) : M unit :=
  v ← load o;
  len ← match ptr v with
        | PRaw s => mret (sdslen s)
        | PInt n => lift (count_digits 20 (if n <? 0 then int64 (- n) else n) (if n <? 0 then 2 else 1))
        | PNull => fail
        end;
  if len <? REDIS_SHARED_BULKHDR_LEN then
    l ← lift (rd (bulkhdr shared) len); addReply l
  else addReplyLongLongWithPrefix len 36.

Definition addReplyBulk (o : loc) : M unit :=
  _ ← addReplyBulkLen o; _ ← addReply o; addReply (crlf shared).

Definition addReplyBulkCBuffer (p : list Z) (len : Z) : M unit :=
  _ ← addReplyLongLongWithPrefix len 36; _ ← addReplyString p len; addReply (crlf shared).

Definition addReplyBulkCString (s : option (list Z)) : M unit :=
  match s with
  | None => addReply (nullbulk shared)
  | Some s => len ← lift (strlen s); addReplyBulkCBuffer s len
  end.

Definition addReplyBulkLongLong (ll : Z) : M unit :=
  '(b, len) ← lift (ll2string (realloc uninit 64 []) 64 ll);
  addReplyBulkCBuffer b len.

(** ** Sending

    [write k x] is what the [k]-th call of [write] with the bytes [x] returns;
    [relaxed t] says that memory is short after [t] bytes, which lifts the
    limit of an event. The bytes that were written are collected in [out]. The
    [int]s of the C function, the total of one event and the length of an
    object, do not wrap here. *)
Context (write : nat -> list Z -> Z) (relaxed : Z -> bool) (eagain : bool).

Fixpoint send_loop (fuel : nat) (k : nat) (nwritten tot : Z) (out : list Z) : M (Z * Z * list Z) :=
  c ← get;
  if (0 <? bufpos c) || (0 <? zlen (reply c)) then
    match fuel with
    | O => fail
    | S fuel =>
        if 0 <? bufpos c then
          x ← lift (rdn (cbuf c) (sentlen c) (bufpos c - sentlen c));
          let n := write k x in
          if n <=? 0 then mret (n, tot, out)
          else
            let c := with_sentlen c (sentlen c + n) in
            let c := if sentlen c =? bufpos c then with_sentlen (with_buf c (cbuf c) 0) 0 else c in
            _ ← put c;
            let tot := tot + n in
            let out := out ++ take (Z.to_nat n) x in
            if (REDIS_MAX_WRITE_PER_EVENT <? tot) && negb (relaxed tot) then mret (n, tot, out)
            else send_loop fuel (S k) n tot out
        else
          l ← lift (head (reply c));
          o ← load l;
          s ← sds_of o;
          let objlen := sdslen s in
          let objmem := zmalloc_size_sds s in
          if objlen =? 0 then
            _ ← put (with_reply c (tail (reply c)));
            _ ← decrRefCount l;
            send_loop fuel k nwritten tot out
          else
            x ← lift (rdn (buf s) (sentlen c) (objlen - sentlen c));
            let n := write k x in
            if n <=? 0 then mret (n, tot, out)
            else
              let c := with_sentlen c (sentlen c + n) in
              _ ← put c;
              _ ← (if sentlen c =? objlen then
                     _ ← put (with_sentlen (with_reply c (tail (reply c))) 0);
                     _ ← decrRefCount l;
                     add_reply_bytes (- objmem)
                   else mret tt);
              let tot := tot + n in
              let out := out ++ take (Z.to_nat n) x in
              if (REDIS_MAX_WRITE_PER_EVENT <? tot) && negb (relaxed tot) then mret (n, tot, out)
              else send_loop fuel (S k) n tot out
    end
  else mret (nwritten, tot, out).

(** The number of rounds is at most that of the bytes and objects left. *)
Definition text_length (h : gmap loc obj) (l : loc) : nat :=
  match h !! l with Some (Obj (PRaw s) _) => Z.to_nat (sdslen s) | _ => 0%nat end.
Definition send_fuel (s : st) : nat :=
  Z.to_nat (bufpos (cl s)) + length (reply (cl s)) + sum_list (map (text_length (heap s)) (reply (cl s))).

(** The flag is [true] when the client was freed. *)
Definition sendReplyToClient : M (bool * list Z) :=
  fuel ← (fun s => Some (send_fuel s, s));
  '(nwritten, tot, out) ← send_loop fuel 0 0 0 [];
  if (nwritten =? -1) && negb eagain then mret (true, out)
  else
    c ← get;
    _ ← (if (0 <? tot) && negb (has c REDIS_MASTER) then put (with_lastinteraction c unixtime) else mret tt);
    c ← get;
    if (bufpos c =? 0) && (zlen (reply c) =? 0) then
      _ ← put (with_writable (with_sentlen c 0) false);
      mret (has c REDIS_CLOSE_AFTER_REPLY, out)
    else mret (false, out).
End Server.

(** ** Running the monad *)
Section Run.
Context {B : Type}.
Implicit Types (s : st).

Lemma get_run (k : client -> M B) s : (get ≫= k) s = k (cl s) s.
Proof. done. Qed.
Lemma put_run c (k : unit -> M B) s : (put c ≫= k) s = k tt (St (heap s) c (to_close s)).
Proof. done. Qed.
Lemma load_run l o (k : obj -> M B) s : heap s !! l = Some o -> (load l ≫= k) s = k o s.
Proof. intros E. unfold mbind, M_bind, load. rewrite E. done. Qed.
Lemma store_run l o (k : unit -> M B) s :
  (store l o ≫= k) s = k tt (St (<[l := o]> (heap s)) (cl s) (to_close s)).
Proof. done. Qed.
Lemma sds_run o sd (k : sdshdr -> M B) s : ptr o = PRaw sd -> (sds_of o ≫= k) s = k sd s.
Proof. intros E. unfold sds_of. by rewrite E. Qed.
Lemma add_bytes_run n (k : unit -> M B) s :
  (add_reply_bytes n ≫= k) s =
    k tt (St (heap s) (with_reply_bytes (cl s) (uint64 (reply_bytes (cl s) + n))) (to_close s)).
Proof. done. Qed.
End Run.

(** ** What the output stands for

    Bytes in their order, and the lengths that are not known yet, by the
    object that will hold them. *)
Inductive item := B (z : Z) | Hole (l : loc).
Inductive seg := Text (x : list Z) | Later (l : loc).

Definition items (g : seg) : list item := match g with Text x => map B x | Later l => [Hole l] end.
Definition flat (b : list Z) (segs : list seg) : list item := map B b ++ (segs ≫= items).

Definition seg_ok (h : gmap loc obj) (l : loc) (g : seg) : Prop :=
  exists o, h !! l = Some o /\
    match g with
    | Text x => exists s, ptr o = PRaw s /\ repr s x
    | Later l' => l' = l /\ o = Obj PNull 1
    end.

(** How often an object occurs in the list. *)
Definition occ (l : loc) (ls : list loc) : Z := zlen (filter (eq l) ls).

(** The objects of the list, with the references the list has to them. *)
Record objs (h : gmap loc obj) (ls : list loc) (segs : list seg) : Prop := Objs {
  objs_segs : Forall2 (seg_ok h) ls segs;
  objs_refs : forall l o, h !! l = Some o -> occ l ls <= refcount o }.

(** What has been sent is a part of the buffer, or of the first object when
    the buffer is empty. *)
Definition sent_ok (n : Z) (b : list Z) (segs : list seg) : Prop :=
  n = 0 \/ 0 <= n < match b, segs with
                    | [], Text x :: _ => zlen x
                    | [], _ => 0
                    | _, _ => zlen b
                    end.

(** The write handler is set as long as there is something to send. *)
Definition handled (c : client) : Prop :=
  has c REDIS_LUA_CLIENT = false -> replstate c = REDIS_REPL_NONE \/ replstate c = REDIS_REPL_ONLINE ->
  writable c = true.

Section Meaning.
Context (zmalloc_size_sds : sdshdr -> Z).

Definition size_of (h : gmap loc obj) (l : loc) : Z :=
  match h !! l with Some (Obj (PRaw s) _) => zmalloc_size_sds s | _ => 0 end.
Definition usage (h : gmap loc obj) (ls : list loc) : Z := foldr (fun l n => size_of h l + n) 0 ls.

(** Room for the lengths that [n] operations put before a text. *)
Definition short (n : Z) (g : seg) : Prop := match g with Text x => zlen x + 32 * n <= 2 ^ 30 | Later _ => True end.

(** [n] more strings can be added before [reply_bytes] may reach its limit. *)
Record outs (n : Z) (s : st) (b : list Z) (segs : list seg) : Prop := Outs {
  out_buf : exists r, cbuf (cl s) = b ++ r /\ zlen (b ++ r) = REDIS_REPLY_CHUNK_BYTES;
  out_pos : bufpos (cl s) = zlen b;
  out_objs : objs (heap s) (reply (cl s)) segs;
  out_usage : usage (heap s) (reply (cl s)) <= reply_bytes (cl s);
  out_bytes : 0 <= n <= 2 ^ 24 /\ reply_bytes (cl s) + n * 2 ^ 33 < 2 ^ 63;
  out_short : Forall (short n) segs;
  out_sent : sent_ok (sentlen (cl s)) b segs }.
End Meaning.

Arguments usage : simpl never.

(** Objects that someone else refers to keep their text, and the number of
    the other references. *)
Definition frame (h : gmap loc obj) (ls : list loc) (h' : gmap loc obj) (ls' : list loc) : Prop :=
  forall l o, h !! l = Some o -> occ l ls < refcount o ->
  exists o', h' !! l = Some o' /\ ptr o' = ptr o /\ refcount o' - occ l ls' = refcount o - occ l ls.

(** A client that replies are written to. *)
Definition accepts (c : client) : Prop :=
  has c REDIS_CLOSE_AFTER_REPLY = false /\
  (has c REDIS_LUA_CLIENT = true \/
   (has c REDIS_MASTER && negb (has c REDIS_MASTER_FORCE_REPLY) = false /\ 0 < fd c)).

Definition same_client (c c' : client) : Prop :=
  fd c' = fd c /\ replstate c' = replstate c /\ sentlen c' = sentlen c /\ (writable c = true -> writable c' = true) /\
  forall f, Z.land f REDIS_CLOSE_ASAP = 0 -> has c' f = has c f.

Lemma same_client_refl c : same_client c c.
Proof. done. Qed.

Lemma same_client_trans a b c : same_client a b -> same_client b c -> same_client a c.
Proof.
  intros (A1 & A2 & A3 & A4 & A5) (B1 & B2 & B3 & B4 & B5). split; [congruence|]. split; [congruence|].
  split; [congruence|]. split; [auto|]. intros f Hf. by rewrite B5, A5.
Qed.

Lemma accepts_same c c' : same_client c c' -> accepts c -> accepts c'.
Proof. intros (Hfd & _ & _ & _ & Hf) Ha. unfold accepts in *. by rewrite !Hf, Hfd. Qed.

Lemma handled_same c c' : same_client c c' -> handled c -> handled c'.
Proof. intros (_ & Hr & _ & Hw & Hf) Ha. unfold handled in *. rewrite Hf, Hr by done. auto. Qed.

Lemma frame_refl h ls : frame h ls h ls.
Proof. intros l o Ho _. by exists o. Qed.

Lemma frame_compose h1 l1 h2 l2 h3 l3 : frame h1 l1 h2 l2 -> frame h2 l2 h3 l3 -> frame h1 l1 h3 l3.
Proof.
  intros Hab Hbc l o Ho Hl. destruct (Hab l o Ho Hl) as (o1 & Ho1 & Hp1 & Hr1).
  destruct (Hbc l o1 Ho1) as (o2 & Ho2 & Hp2 & Hr2); [lia|].
  exists o2. split; [done|]. split; [congruence|lia].
Qed.

Lemma occ_app l a b : occ l (a ++ b) = occ l a + occ l b.
Proof. unfold occ. rewrite filter_app, length_app. lia. Qed.

Lemma occ_one l a : occ l [a] = if decide (l = a) then 1 else 0.
Proof. unfold occ. rewrite filter_cons, filter_nil. by destruct (decide (l = a)). Qed.

Lemma occ_pos l a : 0 <= occ l a.
Proof. unfold occ. lia. Qed.

Lemma occ_in l a : l ∈ a -> 1 <= occ l a.
Proof.
  intros Hl. apply list_elem_of_split in Hl as (a1 & a2 & ->). rewrite occ_app.
  change (l :: a2) with ([l] ++ a2). rewrite occ_app, occ_one, decide_True by done.
  pose proof (occ_pos l a1). pose proof (occ_pos l a2). lia.
Qed.

Lemma occ_notin l a : l ∉ a -> occ l a = 0.
Proof.
  induction a as [|k a IH]; intros Hl; [done|]. change (k :: a) with ([k] ++ a).
  rewrite occ_app, occ_one, decide_False, IH by set_solver. done.
Qed.

Lemma flat_snoc b segs g : flat b (segs ++ [g]) = flat b segs ++ items g.
Proof. unfold flat. rewrite bind_app. cbn. by rewrite app_nil_r, app_assoc. Qed.

Lemma flat_last b segs x y : flat b (segs ++ [Text (x ++ y)]) = flat b (segs ++ [Text x]) ++ map B y.
Proof. rewrite !flat_snoc, <- app_assoc. cbn [items]. by rewrite map_app. Qed.

Lemma sent_ok_last n b segs x y : sent_ok n b (segs ++ [Text x]) -> sent_ok n b (segs ++ [Text (x ++ y)]).
Proof.
  unfold sent_ok. destruct b; [|done]. destruct segs as [|[z|l] segs]; cbn; [rewrite length_app|..]; lia.
Qed.

Lemma sent_ok_snoc n b segs g : sent_ok n b segs -> sent_ok n b (segs ++ [g]).
Proof. unfold sent_ok. destruct b; [|done]. destruct segs as [|[z|l] segs]; cbn; lia. Qed.

Lemma sent_ok_buf n b x : sent_ok n b [] -> sent_ok n (b ++ x) [].
Proof.
  unfold sent_ok. destruct b as [|c b]; cbn [app]; [|cbn [length]; rewrite length_app; lia].
  intros [Hn|Hn]; lia.
Qed.

(** Cells whose pointer is the same have the same text and size. *)
Definition same_cell (h h' : gmap loc obj) (l : loc) : Prop :=
  forall o, h !! l = Some o -> exists o', h' !! l = Some o' /\ ptr o' = ptr o /\ (ptr o = PNull -> o' = o).
Definition same_text (h h' : gmap loc obj) (ls : list loc) : Prop := forall l, l ∈ ls -> same_cell h h' l.

Lemma seg_ok_text h h' l g : seg_ok h l g -> same_cell h h' l -> seg_ok h' l g.
Proof.
  intros (o & Ho & Hs) Hl. destruct (Hl o Ho) as (o' & Ho' & Hp & Hn). exists o'. split; [done|].
  destruct g; [by rewrite Hp|]. destruct Hs as (-> & ->). by rewrite Hn.
Qed.

Lemma segs_text h h' ls segs : Forall2 (seg_ok h) ls segs -> same_text h h' ls -> Forall2 (seg_ok h') ls segs.
Proof.
  induction 1 as [|l g ls segs Hl _ IH]; intros Ht; [constructor|]. constructor.
  - eapply seg_ok_text; [done|]. apply Ht. set_solver.
  - apply IH. intros k Hk. apply Ht. set_solver.
Qed.

Lemma segs_in h ls segs l : Forall2 (seg_ok h) ls segs -> l ∈ ls -> is_Some (h !! l).
Proof.
  intros H Hl. apply list_elem_of_lookup in Hl as (i & Hi).
  destruct (Forall2_lookup_l _ _ _ _ _ H Hi) as (g & _ & o & Ho & _). by eexists.
Qed.

Section Usage.
Context (zs : sdshdr -> Z).

Lemma size_text h h' l : same_cell h h' l -> is_Some (h !! l) -> size_of zs h' l = size_of zs h l.
Proof.
  intros Hl [o Ho]. destruct (Hl o Ho) as (o' & Ho' & Hp & _). unfold size_of. rewrite Ho, Ho'.
  destruct o as [p r], o' as [p' r']. cbn in Hp. by subst p'.
Qed.

Lemma usage_text h h' ls segs : Forall2 (seg_ok h) ls segs -> same_text h h' ls -> usage zs h' ls = usage zs h ls.
Proof.
  induction 1 as [|l g ls segs (o & Ho & _) _ IH]; intros Ht; [done|]. unfold usage. cbn [foldr].
  rewrite (size_text h h' l); [|apply Ht; set_solver|by eexists]. f_equal. apply IH.
  intros k Hk. apply Ht. set_solver.
Qed.

Lemma usage_app h a b : usage zs h (a ++ b) = usage zs h a + usage zs h b.
Proof. unfold usage. induction a as [|l a IH]; [done|]. cbn [app foldr]. lia. Qed.

Lemma usage_one h l s r : h !! l = Some (Obj (PRaw s) r) -> usage zs h [l] = zs s.
Proof. intros E. unfold usage, size_of. cbn. rewrite E. lia. Qed.

Lemma usage_pos h ls : (forall s, 0 <= zs s) -> 0 <= usage zs h ls.
Proof.
  intros Hz. unfold usage. induction ls as [|l ls IH]; cbn [foldr]; [lia|].
  assert (0 <= size_of zs h l); [|lia]. unfold size_of. destruct (h !! l) as [[[] ?]|]; auto; lia.
Qed.
End Usage.

(** ** Changes of the heap *)
Lemma same_text_refl h ls : same_text h h ls.
Proof. intros l _ o Ho. by exists o. Qed.

Lemma same_text_trans h1 h2 h3 ls : same_text h1 h2 ls -> same_text h2 h3 ls -> same_text h1 h3 ls.
Proof.
  intros H12 H23 l Hl o Ho. destruct (H12 l Hl o Ho) as (o2 & Ho2 & Hp2 & Hn2).
  destruct (H23 l Hl o2 Ho2) as (o3 & Ho3 & Hp3 & Hn3). exists o3. split; [done|].
  split; [congruence|]. intros Hp. rewrite Hn3, Hn2 by (done || congruence). done.
Qed.

Lemma same_text_notin h l o ls : l ∉ ls -> same_text h (<[l := o]> h) ls.
Proof.
  intros Hl k Hk o' Ho. exists o'. rewrite lookup_insert_ne by set_solver. done.
Qed.

Lemma segs_snoc h ls l segs g :
  Forall2 (seg_ok h) (ls ++ [l]) (segs ++ [g]) -> Forall2 (seg_ok h) ls segs /\ seg_ok h l g.
Proof.
  intros H. apply Forall2_length in H as Hl. rewrite !length_app in Hl. cbn in Hl.
  apply Forall2_app_inv in H as [H1 H2]; [|lia]. by apply Forall2_cons in H2 as [H2 _].
Qed.

(** The only reference to an object is the list's last one. *)
Lemma sole_notin h ls l segs o :
  objs h (ls ++ [l]) segs -> h !! l = Some o -> refcount o <= 1 -> (l ∉ ls) /\ refcount o = 1.
Proof.
  intros [_ Hr] Ho H1. pose proof (Hr l o Ho) as Hc. rewrite occ_app, occ_one, decide_True in Hc by done.
  pose proof (occ_pos l ls). split; [|lia]. intros Hin%occ_in. lia.
Qed.

Lemma segs_mid h a l c sa g sc :
  length a = length sa -> Forall2 (seg_ok h) (a ++ l :: c) (sa ++ g :: sc) ->
  Forall2 (seg_ok h) a sa /\ seg_ok h l g /\ Forall2 (seg_ok h) c sc.
Proof.
  intros Hl H. apply Forall2_app_inv in H as [H1 H2]; [|done]. apply Forall2_cons in H2 as [H2 H3]. done.
Qed.

(** A place that the list alone refers to gets another text. *)
Lemma objs_fill h a l c sa g sc p s y :
  objs h (a ++ l :: c) (sa ++ g :: sc) -> length a = length sa -> h !! l = Some (Obj p 1) -> repr s y ->
  let h' := <[l := Obj (PRaw s) 1]> h in
  objs h' (a ++ l :: c) (sa ++ Text y :: sc) /\ same_text h h' a /\ same_text h h' c /\ (l ∉ a) /\ (l ∉ c) /\
  frame h (a ++ l :: c) h' (a ++ l :: c).
Proof.
  intros [Hs Hc] Hlen Hl Hr h'. pose proof (Hc l _ Hl) as H1. cbn in H1.
  change (a ++ l :: c) with (a ++ [l] ++ c) in H1. rewrite !occ_app, occ_one, decide_True in H1 by done.
  assert ((l ∉ a) /\ (l ∉ c)) as [Hna Hnc].
  { split; intros Hin%occ_in; pose proof (occ_pos l a); pose proof (occ_pos l c); lia. }
  assert (same_text h h' a) as Ha by (by apply same_text_notin).
  assert (same_text h h' c) as Hc' by (by apply same_text_notin).
  split; [split|split; [done|]; split; [done|]; split; [done|]; split; [done|]].
  - apply segs_mid in Hs as (S1 & _ & S2); [|done]. apply Forall2_app; [by eapply segs_text|].
    constructor; [|by eapply segs_text]. eexists. unfold h'. rewrite lookup_insert_eq. split; [done|]. by exists s.
  - intros k o. unfold h'. destruct (decide (k = l)) as [->|Hk].
    + rewrite lookup_insert_eq. intros [= <-]. apply (Hc _ _ Hl).
    + rewrite lookup_insert_ne by done. apply Hc.
  - intros k o Ho Hlt. exists o. unfold h'. destruct (decide (k = l)) as [->|Hk].
    + rewrite Hl in Ho. injection Ho as <-. change (a ++ l :: c) with (a ++ [l] ++ c) in Hlt.
      rewrite !occ_app, occ_one, decide_True in Hlt by done. pose proof (occ_pos l a). pose proof (occ_pos l c). cbn in Hlt. lia.
    + by rewrite lookup_insert_ne.
Qed.

Definition decr_heap (h : gmap loc obj) (l : loc) (p : optr) (r : Z) : gmap loc obj :=
  if r =? 1 then delete l h else <[l := Obj p (r - 1)]> h.

(** A reference of the list is given up. *)
Lemma objs_drop h a l c sa g sc s r :
  objs h (a ++ l :: c) (sa ++ g :: sc) -> length a = length sa -> h !! l = Some (Obj (PRaw s) r) ->
  let h' := decr_heap h l (PRaw s) r in
  0 < r /\ objs h' (a ++ c) (sa ++ sc) /\ same_text h h' (a ++ c) /\ frame h (a ++ l :: c) h' (a ++ c).
Proof.
  intros [Hs Hc] Hlen Hl h'.
  assert (forall k, occ k (a ++ l :: c) = occ k (a ++ c) + if decide (k = l) then 1 else 0) as Hocc.
  { intros k. change (a ++ l :: c) with (a ++ [l] ++ c). rewrite !occ_app, occ_one. lia. }
  pose proof (Hc _ _ Hl) as H1. rewrite Hocc, decide_True in H1 by done. cbn in H1.
  pose proof (occ_pos l (a ++ c)) as Hpos. split; [lia|].
  assert (forall k, k <> l -> h' !! k = h !! k) as Hne.
  { intros k Hk. unfold h', decr_heap. destruct (r =? 1); [by rewrite lookup_delete_ne|by rewrite lookup_insert_ne]. }
  assert (r <> 1 -> h' !! l = Some (Obj (PRaw s) (r - 1))) as Hge.
  { intros Hr. unfold h', decr_heap. rewrite (proj2 (Z.eqb_neq _ _)) by done. by rewrite lookup_insert_eq. }
  assert (r = 1 -> h' !! l = None) as Heq.
  { intros ->. unfold h', decr_heap. cbn. by rewrite lookup_delete_eq. }
  assert (same_text h h' (a ++ c)) as Ht.
  { intros k Hk o Ho. destruct (decide (k = l)) as [->|Hkl]; [|rewrite Hne by done; eauto].
    apply occ_in in Hk. rewrite Hl in Ho. injection Ho as <-. rewrite Hge by lia. eexists. done. }
  split; [split|split; [done|]].
  - apply segs_mid in Hs as (S1 & _ & S2); [|done].
    eapply segs_text; [by apply Forall2_app|done].
  - intros k o Ho. destruct (decide (k = l)) as [->|Hkl].
    + destruct (Z.eq_dec r 1) as [->|Hr]; [by rewrite Heq in Ho|]. rewrite Hge in Ho by done. injection Ho as <-. cbn. lia.
    + rewrite Hne in Ho by done. pose proof (Hc _ _ Ho) as Hk. rewrite Hocc, decide_False in Hk by done. lia.
  - intros k o Ho. rewrite Hocc. destruct (decide (k = l)) as [->|Hkl].
    + rewrite Hl in Ho. injection Ho as <-. cbn. intros Hlt. rewrite Hge by lia. eexists. split; [done|]. cbn. split; [done|lia].
    + intros Hlt. rewrite Hne by done. exists o. split; [done|]. split; [done|lia].
Qed.

Lemma objs_length h ls l segs x : objs h (ls ++ [l]) (segs ++ [x]) -> length ls = length segs.
Proof. intros [Hs _]. apply Forall2_length in Hs. rewrite !length_app in Hs. cbn in Hs. lia. Qed.

Lemma objs_update h ls l segs x s s' y :
  objs h (ls ++ [l]) (segs ++ [x]) -> h !! l = Some (Obj (PRaw s) 1) -> repr s' y ->
  let h' := <[l := Obj (PRaw s') 1]> h in
  objs h' (ls ++ [l]) (segs ++ [Text y]) /\ same_text h h' ls /\ frame h (ls ++ [l]) h' (ls ++ [l]).
Proof.
  intros Hob Hl Hr h'.
  destruct (objs_fill h ls l [] segs x [] (PRaw s) s' y Hob (objs_length _ _ _ _ _ Hob) Hl Hr) as (H1 & T1 & _ & _ & _ & F1).
  done.
Qed.

(** A new object at the end of the list. *)
Lemma objs_new h ls segs l p g :
  objs h ls segs -> h !! l = None -> seg_ok {[l := Obj p 1]} l g ->
  let h' := <[l := Obj p 1]> h in
  objs h' (ls ++ [l]) (segs ++ [g]) /\ same_text h h' ls /\ frame h ls h' (ls ++ [l]).
Proof.
  intros [Hs Hc] Hl Hg h'.
  assert (l ∉ ls) as Hn by (intros Hin; destruct (segs_in _ _ _ _ Hs Hin); congruence).
  assert (same_text h h' ls) as Ht by (by apply same_text_notin).
  split; [split|split; [done|]].
  - apply Forall2_app; [by eapply segs_text|]. constructor; [|constructor].
    eapply seg_ok_text; [done|]. intros o. rewrite lookup_singleton_eq. intros [= <-]. unfold h'.
    rewrite lookup_insert_eq. eauto.
  - intros k o. unfold h'. rewrite occ_app, occ_one. destruct (decide (k = l)) as [->|Hk].
    + rewrite lookup_insert_eq. intros [= <-]. rewrite occ_notin by done. cbn. lia.
    + rewrite lookup_insert_ne by done. intros Ho. pose proof (Hc _ _ Ho). lia.
  - intros k o Ho _. exists o. unfold h'. rewrite occ_app, occ_one.
    assert (k <> l) by congruence. rewrite lookup_insert_ne, decide_False by done. split; [done|]. split; [done|lia].
Qed.

(** A shared object at the end of the list. *)
Lemma objs_share h ls segs l s r x :
  objs h ls segs -> h !! l = Some (Obj (PRaw s) r) -> occ l ls < r -> repr s x ->
  let h' := <[l := Obj (PRaw s) (r + 1)]> h in
  objs h' (ls ++ [l]) (segs ++ [Text x]) /\ same_text h h' ls /\ frame h ls h' (ls ++ [l]).
Proof.
  intros [Hs Hc] Hl Hlt Hr h'.
  assert (same_text h h' ls) as Ht.
  { intros k _ o Ho. unfold h'. destruct (decide (k = l)) as [->|Hk].
    - rewrite lookup_insert_eq. rewrite Hl in Ho. injection Ho as <-. cbn. eexists. done.
    - rewrite lookup_insert_ne by done. eauto. }
  split; [split|split; [done|]].
  - apply Forall2_app; [by eapply segs_text|]. constructor; [|constructor].
    eexists. unfold h'. rewrite lookup_insert_eq. split; [done|]. by exists s.
  - intros k o. unfold h'. rewrite occ_app, occ_one. destruct (decide (k = l)) as [->|Hk].
    + rewrite lookup_insert_eq. intros [= <-]. cbn. lia.
    + rewrite lookup_insert_ne by done. intros Ho. pose proof (Hc _ _ Ho). lia.
  - intros k o Ho Ho1. unfold h'. rewrite occ_app, occ_one. destruct (decide (k = l)) as [->|Hk].
    + rewrite Hl in Ho. injection Ho as <-. rewrite lookup_insert_eq. eexists. split; [done|]. cbn. split; [done|lia].
    + rewrite lookup_insert_ne by done. exists o. split; [done|]. split; [done|lia].
Qed.

(** The last reference is replaced by one to another object. *)
Lemma objs_replace h ls l segs g s r s' x l' :
  objs h (ls ++ [l]) (segs ++ [g]) -> h !! l = Some (Obj (PRaw s) r) -> 1 < r -> h !! l' = None -> repr s' x ->
  let h' := <[l := Obj (PRaw s) (r - 1)]> (<[l' := Obj (PRaw s') 1]> h) in
  objs h' (ls ++ [l']) (segs ++ [Text x]) /\ same_text h h' ls /\ frame h (ls ++ [l]) h' (ls ++ [l']).
Proof.
  intros Hob Hl Hr Hl' Hs' h'. assert (l <> l') as Hne by congruence.
  destruct (objs_drop h ls l [] segs g [] s r Hob (objs_length _ _ _ _ _ Hob) Hl) as (_ & H1 & T1 & F1).
  unfold decr_heap in *. rewrite (proj2 (Z.eqb_neq r 1)), !app_nil_r in * by lia.
  unfold h'. rewrite insert_insert_ne by done.
  destruct (objs_new _ ls segs l' (PRaw s') (Text x) H1) as (H2 & T2 & F2).
  - by rewrite lookup_insert_ne.
  - eexists. rewrite lookup_singleton_eq. split; [done|]. by exists s'.
  - split; [done|]. split; [by eapply same_text_trans|by eapply frame_compose].
Qed.

(** ** The operations of the output *)
Section Specs.
Context (uninit : nat -> Z) (unixtime : Z) (client_obuf_limits : Z -> limits).
Context (list_item_size : Z) (zs : sdshdr -> Z).
Hypothesis zs_bound : forall s, 0 <= zs s < 2 ^ 33.

Local Abbreviation outs := (outs zs).
Local Abbreviation limits_reached :=
  (asyncCloseClientOnOutputBufferLimitReached unixtime client_obuf_limits list_item_size).

(** After an operation the items [x] follow the others. *)
Definition post (n : Z) (s : st) (b : list Z) (segs : list seg) (x : list item) (s' : st) : Prop :=
  exists b' segs', outs n s' b' segs' /\ flat b' segs' = flat b segs ++ x /\
    frame (heap s) (reply (cl s)) (heap s') (reply (cl s')) /\ same_client (cl s) (cl s').

Lemma post_trans m n s b segs x s1 :
  post m s b segs x s1 ->
  forall y (P : st -> Prop),
  (forall b1 segs1, outs m s1 b1 segs1 -> flat b1 segs1 = flat b segs ++ x ->
    exists s2, P s2 /\ post n s1 b1 segs1 y s2) ->
  exists s2, P s2 /\ post n s b segs (x ++ y) s2.
Proof.
  intros (b1 & g1 & O1 & E1 & F1 & C1) y P H. destruct (H b1 g1 O1 E1) as (s2 & HP & b2 & g2 & O2 & E2 & F2 & C2).
  exists s2. split; [done|]. exists b2, g2. split; [done|].
  split; [by rewrite E2, E1, app_assoc|]. split; [by eapply frame_compose|by eapply same_client_trans].
Qed.

Lemma short_le m n segs : Forall (short m) segs -> n <= m -> Forall (short n) segs.
Proof. intros Hs Hn. eapply Forall_impl; [done|]. intros [x|l]; cbn; lia. Qed.

Lemma outs_le m n s b segs : outs m s b segs -> 0 <= n <= m -> outs n s b segs.
Proof.
  intros [] Hn. split; try done; [lia|]. eapply short_le; [done|lia].
Qed.

Lemma outs_reply_bytes n s b segs : outs n s b segs -> 0 <= reply_bytes (cl s) < 2 ^ 63.
Proof.
  intros [? ? ? Hu Hb]. pose proof (usage_pos zs (heap s) (reply (cl s)) ltac:(intros; apply zs_bound)). lia.
Qed.

Lemma has_lor c f : Z.land f REDIS_CLOSE_ASAP = 0 ->
  has (with_flags c (Z.lor (flags c) REDIS_CLOSE_ASAP)) f = has c f.
Proof.
  intros Hf. unfold has. cbn [flags with_flags]. rewrite Z.land_lor_distr_l, (Z.land_comm REDIS_CLOSE_ASAP f), Hf, Z.lor_0_r.
  done.
Qed.

Lemma limits_spec n s b segs :
  outs n s b segs ->
  exists s', limits_reached s = Some (tt, s') /\ outs n s' b segs /\
    heap s' = heap s /\ reply (cl s') = reply (cl s) /\ same_client (cl s) (cl s').
Proof.
  intros Ho. pose proof (outs_reply_bytes _ _ _ _ Ho) as Hrb.
  assert (forall t, outs n (St (heap s) (with_soft_time (cl s) t) (to_close s)) b segs) as Ht.
  { intros t. destruct Ho. by split. }
  assert (forall t, same_client (cl s) (with_soft_time (cl s) t)) as Hst by done.
  unfold asyncCloseClientOnOutputBufferLimitReached, checkClientOutputBufferLimits. rewrite get_run.
  rewrite (proj2 (Z.leb_gt _ _)) by lia. destruct ((reply_bytes (cl s) =? 0) || _); [by exists s|].
  rewrite bind_assoc, get_run. rewrite bind_assoc. set (lim := client_obuf_limits _). set (used := getClientOutputBufferMemoryUsage _ _).
  set (sf := negb (soft_limit_bytes lim =? 0) && (soft_limit_bytes lim <=? used)).
  assert (forall t (k : bool), exists s', (if k then freeClientAsync else mret tt)
             (St (heap s) (with_soft_time (cl s) t) (to_close s)) = Some (tt, s') /\ outs n s' b segs /\
             heap s' = heap s /\ reply (cl s') = reply (cl s) /\ same_client (cl s) (cl s')) as Hk.
  { intros t [|]; [|by eexists]. unfold freeClientAsync. rewrite get_run. destruct (has _ _); [by eexists|].
    eexists. split; [done|]. split; [destruct (Ht t); by split|]. split; [done|]. split; [done|].
    split; [done|]. split; [done|]. split; [done|]. split; [done|].
    intros f Hf. by apply (has_lor (with_soft_time (cl s) t)). }
  destruct sf; [destruct (obuf_soft_limit_reached_time (cl s) =? 0)|].
  - rewrite bind_assoc, put_run, ret_run, ret_run. apply Hk.
  - rewrite ret_run, ret_run. specialize (Hk (obuf_soft_limit_reached_time (cl s))).
    replace (St _ _ _) with s in Hk by (by destruct s as [? []]). apply Hk.
  - rewrite bind_assoc, put_run, ret_run, ret_run. apply Hk.
Qed.

Lemma decr_run {A} l p r (k : unit -> M A) s :
  heap s !! l = Some (Obj p r) -> 1 < r ->
  (decrRefCount l ≫= k) s = k tt (St (<[l := Obj p (r - 1)]> (heap s)) (cl s) (to_close s)).
Proof.
  intros E Hr. unfold decrRefCount. rewrite bind_assoc, (load_run _ _ _ _ E). cbn [refcount].
  rewrite (proj2 (Z.leb_gt _ _)), (proj2 (Z.eqb_neq _ _)) by lia. by rewrite store_run.
Qed.

Lemma repr_sds s x : repr s x -> zlen x < 2 ^ 31 /\ sdslen s = zlen x /\ exists t, buf s = x ++ 0 :: t.
Proof. intros (t & -> & Ht). split; [lia|]. split; [done|]. by exists t. Qed.

(** The last object belongs to the list alone after [dupLastObjectIfNeeded]. *)
Lemma dup_last_spec s ls l segs x :
  reply (cl s) = ls ++ [l] -> objs (heap s) (ls ++ [l]) (segs ++ [Text x]) ->
  exists l' sd h', let s' := St h' (with_reply (cl s) (ls ++ [l'])) (to_close s) in
    dupLastObjectIfNeeded uninit s = Some (l', s') /\
    objs h' (ls ++ [l']) (segs ++ [Text x]) /\ h' !! l' = Some (Obj (PRaw sd) 1) /\ repr sd x /\
    same_text (heap s) h' ls /\ frame (heap s) (ls ++ [l]) h' (ls ++ [l']).
Proof.
  intros El Hob. pose proof Hob as [Hs Hc]. apply segs_snoc in Hs as [_ ([p r] & Ho & sd & Hp & Hr)].
  cbn in Hp. subst p. unfold dupLastObjectIfNeeded. rewrite get_run, El.
  rewrite (lift_run _ l) by apply last_snoc. rewrite (load_run _ _ _ _ Ho). cbn [refcount].
  destruct (Z.ltb_spec 1 r) as [H1|H1].
  - rewrite (sds_run _ sd) by done. destruct (repr_sds _ _ Hr) as (Hx & -> & t & ->).
    destruct (newlen_spec uninit x (0 :: t)) as (sd' & E & Hr'); [lia|]. rewrite (lift_run _ _ _ _ E).
    set (l' := fresh (dom (heap s))).
    assert (heap s !! l' = None) as Hf by (apply not_elem_of_dom, is_fresh).
    rewrite (bind_run _ _ _ l' (St (<[l' := Obj (PRaw sd') 1]> (heap s)) (cl s) (to_close s))) by done.
    rewrite (decr_run l (PRaw sd) r); [|cbn; rewrite lookup_insert_ne by congruence; done|done].
    rewrite get_run, put_run. cbn [cl heap to_close]. rewrite El.
    replace (take _ _) with ls by (rewrite length_app; cbn; rewrite Nat.add_sub, take_app_length; done).
    exists l', sd'. eexists. split; [done|].
    destruct (objs_replace _ _ _ _ _ _ _ _ _ _ Hob Ho H1 Hf Hr') as (H2 & T2 & F2).
    split; [done|]. split; [by rewrite lookup_insert_ne, lookup_insert_eq by congruence|]. done.
  - destruct (sole_notin _ _ _ _ _ Hob Ho H1) as [_ E1]. cbn in E1. subst r.
    exists l, sd, (heap s). rewrite <- El. split; [by destruct s as [? []]|].
    rewrite El. split; [done|]. split; [done|]. split; [done|]. split; [apply same_text_refl|apply frame_refl].
Qed.

Lemma list_last_cases {A} (l : list A) : l = [] \/ exists l' x, l = l' ++ [x].
Proof. destruct l as [|x l _] using rev_ind; [by left|right; eauto]. Qed.

Lemma segs_last h ls segs :
  Forall2 (seg_ok h) ls segs ->
  (ls = [] /\ segs = []) \/
  exists ls' l segs' g, ls = ls' ++ [l] /\ segs = segs' ++ [g] /\ seg_ok h l g.
Proof.
  intros H. destruct (list_last_cases segs) as [->|(segs' & g & ->)].
  - apply Forall2_nil_inv_r in H as ->. by left.
  - right. apply Forall2_app_inv_r in H as (ls' & k & H1 & H2 & ->).
    apply Forall2_cons_inv_r in H2 as (l & k' & Hl & H3 & ->). apply Forall2_nil_inv_r in H3 as ->.
    by exists ls', l, segs', g.
Qed.

Lemma append_to_tail_spec n s b segs t x r :
  outs (n + 1) s b (segs ++ [Text t]) -> 0 <= n -> zlen t + zlen x <= REDIS_REPLY_CHUNK_BYTES ->
  exists s', append_to_tail uninit zs (x ++ r) (zlen x) s = Some (tt, s') /\
    post n s b (segs ++ [Text t]) (map B x) s'.
Proof.
  intros Ho Hn Hc. unfold REDIS_REPLY_CHUNK_BYTES in Hc. pose proof (outs_reply_bytes _ _ _ _ Ho) as Hrb.
  destruct Ho as [Hb Hp Hob Hu Hby Hsh Hsent].
  destruct (segs_last _ _ _ (objs_segs _ _ _ Hob)) as [[_ E]|(ls & l & segs' & g & El & Es & _)];
    [by destruct segs|].
  apply app_inj_tail in Es as [<- <-]. rewrite El in Hob, Hu.
  pose proof (segs_snoc _ _ _ _ _ (objs_segs _ _ _ Hob)) as [_ ([p rc] & Hl & sd & Hpd & Hr)]. cbn in Hpd. subst p.
  unfold append_to_tail. rewrite get_run, El, (lift_run _ l) by apply last_snoc.
  rewrite (load_run _ _ _ _ Hl), (sds_run _ sd), add_bytes_run by done.
  set (s1 := St _ _ _). destruct (dup_last_spec s1 ls l segs t) as (l1 & sd1 & h1 & Ed & Hob1 & Hl1 & Hr1 & T1 & F1);
    [exact El|exact Hob|].
  rewrite (bind_run _ _ _ _ _ Ed), (load_run l1 (Obj (PRaw sd1) 1)), (sds_run _ sd1) by done.
  destruct (catlen_spec uninit sd1 t x r (zlen x) Hr1) as (sd2 & E2 & Hr2); [done|lia|].
  rewrite (lift_run _ _ _ _ E2), store_run. cbn [refcount].
  destruct (objs_update _ _ _ _ _ _ _ _ Hob1 Hl1 Hr2) as (Hob2 & T2 & F2).
  eexists. split; [done|]. exists b, (segs ++ [Text (t ++ x)]). cbn [cl heap reply with_reply_bytes with_reply].
  pose proof (usage_pos zs (heap s) ls ltac:(intros; apply zs_bound)) as Hup.
  pose proof (zs_bound sd). pose proof (zs_bound sd2).
  pose proof (segs_snoc _ _ _ _ _ (objs_segs _ _ _ Hob)) as [Hss _].
  rewrite usage_app, (usage_one _ _ _ _ _ Hl) in Hu.
  assert (uint64 (uint64 (reply_bytes (cl s) + - zs sd) + zs sd2) = reply_bytes (cl s) - zs sd + zs sd2) as Ew
    by (rewrite (wrap_small 64 (_ + - _)), wrap_small by (unfold in_u; lia); lia).
  split; [split; cbn; rewrite ?Ew; try done|].
  - rewrite usage_app, (usage_one _ _ _ sd2 1) by apply lookup_insert_eq.
    rewrite (usage_text zs (heap s) _ ls segs Hss) by (by eapply same_text_trans). lia.
  - lia.
  - apply Forall_app in Hsh as [Hsh _]. apply Forall_app. split; [eapply short_le; [done|lia]|].
    constructor; [|done]. cbn. rewrite length_app. lia.
  - by apply sent_ok_last.
  - split; [apply flat_last|]. split; [|done]. rewrite El. by eapply frame_compose.
Qed.

Lemma buffer_spec n s b segs x r :
  outs (n + 1) s b segs -> 0 <= n -> has (cl s) REDIS_CLOSE_AFTER_REPLY = false -> zlen x <= 2 ^ 29 ->
  (exists s', _addReplyToBuffer (x ++ r) (zlen x) s = Some (true, s') /\ post n s b segs (map B x) s') \/
  _addReplyToBuffer (x ++ r) (zlen x) s = Some (false, s).
Proof.
  intros Ho Hn Hf Hx. unfold _addReplyToBuffer. rewrite get_run, Hf.
  destruct (Z.ltb_spec 0 (zlen (reply (cl s)))); [by right|].
  pose proof Ho as [(t & Hb & Hlb) Hp Hob Hu Hby Hsh Hsent]. rewrite Hb, Hlb, Hp in *. unfold REDIS_REPLY_CHUNK_BYTES in *.
  rewrite length_app in Hlb. rewrite wrap_small by (unfold in_u; lia).
  destruct (Z.ltb_spec (16 * 1024 - zlen b) (zlen x)); [by right|]. left.
  rewrite (lift_run _ x) by (by apply (rdn_app [] x r)).
  rewrite <- (take_drop (length x) t).
  rewrite (lift_run _ (b ++ x ++ drop (length x) t)) by (apply wrn_app; [done|rewrite length_take; lia]).
  rewrite put_run. eexists. split; [done|].
  assert (reply (cl s) = []) as Hnil by (destruct (reply (cl s)); [done|cbn in *; lia]).
  pose proof (objs_segs _ _ _ Hob) as Hseg. rewrite Hnil in Hseg. apply Forall2_nil_inv_l in Hseg as ->.
  exists (b ++ x), []. cbn [heap cl reply with_buf].
  split; [split; cbn; try done|].
  - exists (drop (length x) t). rewrite <- app_assoc. split; [done|].
    rewrite !length_app, length_drop. unfold REDIS_REPLY_CHUNK_BYTES. lia.
  - rewrite s32 by lia. rewrite length_app. lia.
  - lia.
  - by apply sent_ok_buf.
  - split; [unfold flat; cbn; by rewrite map_app, !app_nil_r|]. split; [apply frame_refl|done].
Qed.

(** A new last element of the list that is no more than [2 ^ 33] bytes. *)
Lemma snoc_post n s b segs h' l sd r x tc :
  outs (n + 1) s b segs -> 0 <= n -> zlen x <= 2 ^ 29 -> same_text (heap s) h' (reply (cl s)) ->
  objs h' (reply (cl s) ++ [l]) (segs ++ [Text x]) -> h' !! l = Some (Obj (PRaw sd) r) ->
  frame (heap s) (reply (cl s)) h' (reply (cl s) ++ [l]) ->
  post n s b segs (map B x)
    (St h' (with_reply_bytes (with_reply (cl s) (reply (cl s) ++ [l])) (uint64 (reply_bytes (cl s) + zs sd))) tc).
Proof.
  intros Ho Hn Hx Ht Hob' Hl Hf. pose proof (outs_reply_bytes _ _ _ _ Ho) as Hrb. destruct Ho as [Hb Hp Hob Hu Hby Hsh Hsent].
  pose proof (zs_bound sd). exists b, (segs ++ [Text x]). rewrite wrap_small by (unfold in_u; lia).
  split; [split; cbn; try done|].
  - rewrite usage_app, (usage_one _ _ _ _ _ Hl), (usage_text zs _ _ _ _ (objs_segs _ _ _ Hob) Ht). lia.
  - lia.
  - apply Forall_app. split; [eapply short_le; [done|lia]|]. constructor; [|done]. cbn. lia.
  - by apply sent_ok_snoc.
  - split; [apply flat_snoc|done].
Qed.

Lemma post_limits n s b segs x s1 :
  post n s b segs x s1 -> exists s', limits_reached s1 = Some (tt, s') /\ post n s b segs x s'.
Proof.
  intros (b1 & g1 & O1 & E1 & F1 & C1). destruct (limits_spec _ _ _ _ O1) as (s2 & E & O2 & Hh & Hr & C2).
  exists s2. split; [done|]. exists b1, g1. rewrite Hh, Hr. split; [done|]. split; [done|]. split; [done|].
  by eapply same_client_trans.
Qed.

Lemma room_spec n s b segs len :
  outs n s b segs -> 0 <= len < 2 ^ 31 ->
  (if zlen (reply (cl s)) =? 0 then mret false else tail_with_room len) s = Some (false, s) \/
  exists segs' t, segs = segs' ++ [Text t] /\ zlen t + len <= REDIS_REPLY_CHUNK_BYTES /\
    (if zlen (reply (cl s)) =? 0 then mret false else tail_with_room len) s = Some (true, s).
Proof.
  intros Ho Hlen. destruct (segs_last _ _ _ (objs_segs _ _ _ (out_objs _ _ _ _ _ Ho)))
    as [[E _]|(ls & l & segs' & g & El & -> & o & Hl & Hg)]; [left; by rewrite E|].
  destruct (Z.eqb_spec (zlen (reply (cl s))) 0); [by left|]. unfold tail_with_room.
  rewrite get_run, El, (lift_run _ l) by apply last_snoc. rewrite (load_run _ _ _ _ Hl).
  destruct g as [t|l']; [|destruct Hg as [_ ->]; by left].
  destruct o as [p rc], Hg as (sd & Hp & Hr). cbn in Hp. subst p. cbn [ptr]. rewrite (sds_run _ sd) by done. destruct (repr_sds _ _ Hr) as (Ht & -> & _).
  rewrite wrap_small by (unfold in_u; lia).
  destruct (Z.leb_spec (zlen t + len) REDIS_REPLY_CHUNK_BYTES) as [Hle|Hle]; [right|by left].
  exists segs', t. split; [done|]. split; [lia|done].
Qed.

(** What the three functions that add to the list have in common. *)
Lemma to_list_spec n s b segs x r (rest : M unit) :
  outs (n + 1) s b segs -> 0 <= n -> zlen x <= 2 ^ 29 ->
  (exists s1, rest s = Some (tt, s1) /\ post n s b segs (map B x) s1) ->
  exists s',
    (room ← (if zlen (reply (cl s)) =? 0 then mret false else tail_with_room (zlen x));
     _ ← (if room : bool then append_to_tail uninit zs (x ++ r) (zlen x) else rest);
     limits_reached) s = Some (tt, s') /\ post n s b segs (map B x) s'.
Proof.
  intros Ho Hn Hx (s1 & E1 & P1). destruct (room_spec _ s b segs (zlen x) Ho) as [E|(segs' & t & -> & Ht & E)]; [lia|..];
    rewrite (bind_run _ _ _ _ _ E).
  - rewrite (bind_run _ _ _ _ _ E1). by apply post_limits.
  - destruct (append_to_tail_spec n s b segs' t x r Ho Hn Ht) as (s2 & E2 & P2).
    rewrite (bind_run _ _ _ _ _ E2). by apply post_limits.
Qed.

(** An object that someone else has a reference to. *)
Definition keeps (s : st) (l : loc) (p : optr) : Prop :=
  exists r, heap s !! l = Some (Obj p r) /\ occ l (reply (cl s)) < r.

Lemma keeps_frame s s' l p :
  keeps s l p -> frame (heap s) (reply (cl s)) (heap s') (reply (cl s')) -> keeps s' l p.
Proof.
  intros (r & Hl & Hr) Hf. destruct (Hf _ _ Hl Hr) as ([p' r'] & Hl' & Hp & Hr'). cbn in *. subst p'.
  exists r'. split; [done|lia].
Qed.

Local Abbreviation object_to_list := (_addReplyObjectToList uninit unixtime client_obuf_limits list_item_size zs).
Local Abbreviation sds_to_list := (_addReplySdsToList uninit unixtime client_obuf_limits list_item_size zs).
Local Abbreviation string_to_list := (_addReplyStringToList uninit unixtime client_obuf_limits list_item_size zs).

Lemma object_to_list_spec n s b segs l sd x :
  outs (n + 1) s b segs -> 0 <= n -> has (cl s) REDIS_CLOSE_AFTER_REPLY = false ->
  keeps s l (PRaw sd) -> repr sd x -> zlen x <= 2 ^ 29 ->
  exists s', object_to_list l s = Some (tt, s') /\ post n s b segs (map B x) s'.
Proof.
  intros Ho Hn Hf (r & Hl & Hr) Hx Hlen. unfold _addReplyObjectToList. rewrite get_run, Hf.
  rewrite (load_run _ _ _ _ Hl), (sds_run _ sd) by done. destruct (repr_sds _ _ Hx) as (_ & -> & t & ->).
  apply to_list_spec; [done..|].
  eexists. unfold incrRefCount. rewrite bind_assoc, (load_run _ _ _ _ Hl), store_run. cbn [ptr refcount].
  split; [done|]. destruct (objs_share _ _ _ _ _ _ x (out_objs _ _ _ _ _ Ho) Hl Hr Hx) as (H1 & T1 & F1).
  apply (snoc_post n s b segs _ l sd (r + 1) x (to_close s) Ho Hn Hlen T1 H1); [|done]. by rewrite lookup_insert_eq.
Qed.

(** A new object of the reply list. *)
Lemma add_new_spec n s b segs sd x :
  outs (n + 1) s b segs -> 0 <= n -> repr sd x -> zlen x <= 2 ^ 29 ->
  exists s', (l ← alloc (Obj (PRaw sd) 1); _ ← add_node l; add_reply_bytes (zs sd)) s = Some (tt, s') /\
    post n s b segs (map B x) s'.
Proof.
  intros Ho Hn Hx Hlen. eexists. split; [done|].
  set (l := fresh (dom (heap s))).
  assert (heap s !! l = None) as Hfr by (apply not_elem_of_dom, is_fresh).
  destruct (objs_new _ _ _ l (PRaw sd) (Text x) (out_objs _ _ _ _ _ Ho) Hfr) as (H1 & T1 & F1).
  { eexists. rewrite lookup_singleton_eq. split; [done|]. by exists sd. }
  apply (snoc_post n s b segs _ l sd 1 x (to_close s) Ho Hn Hlen T1 H1); [|done]. by rewrite lookup_insert_eq.
Qed.

Lemma sds_to_list_spec n s b segs sd x :
  outs (n + 1) s b segs -> 0 <= n -> has (cl s) REDIS_CLOSE_AFTER_REPLY = false -> repr sd x -> zlen x <= 2 ^ 29 ->
  exists s', sds_to_list sd s = Some (tt, s') /\ post n s b segs (map B x) s'.
Proof.
  intros Ho Hn Hf Hx Hlen. unfold _addReplySdsToList. rewrite get_run, Hf.
  pose proof (add_new_spec n s b segs sd x Ho Hn Hx Hlen) as Hnew.
  destruct (repr_sds _ _ Hx) as (_ & -> & t & ->). by apply to_list_spec.
Qed.

Lemma string_to_list_spec n s b segs x r :
  outs (n + 1) s b segs -> 0 <= n -> has (cl s) REDIS_CLOSE_AFTER_REPLY = false -> zlen x <= 2 ^ 29 ->
  exists s', string_to_list (x ++ r) (zlen x) s = Some (tt, s') /\ post n s b segs (map B x) s'.
Proof.
  intros Ho Hn Hf Hlen. unfold _addReplyStringToList. rewrite get_run, Hf.
  apply to_list_spec; [done..|]. destruct (newlen_spec uninit x r) as (sd & E & Hx); [lia|].
  rewrite (lift_run _ _ _ _ E). by apply add_new_spec.
Qed.

(** ** Replies *)
Definition queue (n : Z) (s : st) (b : list Z) (segs : list seg) : Prop :=
  outs n s b segs /\ accepts (cl s) /\ (b <> [] \/ segs <> [] -> handled (cl s)).

Definition queued (n : Z) (s : st) (b : list Z) (segs : list seg) (x : list item) (s' : st) : Prop :=
  exists b' segs', queue n s' b' segs' /\ flat b' segs' = flat b segs ++ x /\
    frame (heap s) (reply (cl s)) (heap s') (reply (cl s')) /\ same_client (cl s) (cl s').

Local Abbreviation prepare := (prepareClientToWrite true).

Lemma prepare_spec n s b segs :
  queue n s b segs ->
  exists s1, prepare s = Some (true, s1) /\ outs n s1 b segs /\ accepts (cl s1) /\ handled (cl s1) /\
    heap s1 = heap s /\ reply (cl s1) = reply (cl s) /\ same_client (cl s) (cl s1).
Proof.
  intros (Ho & Ha & Hh). unfold prepareClientToWrite. rewrite get_run.
  destruct (has (cl s) REDIS_LUA_CLIENT) eqn:Elua.
  { exists s. split; [done|]. split; [done|]. split; [done|]. split; [|done].
    intros Hl. congruence. }
  destruct Ha as [Ha [Hl|[Hm Hfd]]]; [congruence|]. rewrite Hm.
  rewrite (proj2 (Z.leb_gt _ _)) by lia.
  assert (accepts (cl s)) as Hacc by (split; auto).
  destruct ((_ && _) && _) eqn:E.
  - eexists. rewrite put_run. split; [done|]. split; [destruct Ho; by split|]. done.
  - exists s. split; [done|]. split; [done|]. split; [done|]. split; [|done].
    intros Hlua Hst. apply Hh; [|done|done].
    assert (((replstate (cl s) =? REDIS_REPL_NONE) || (replstate (cl s) =? REDIS_REPL_ONLINE)) = true) as Er
      by (destruct Hst as [-> | ->]; done).
    rewrite Er, andb_true_r in E. apply andb_false_iff in E as [E%Z.eqb_neq|E%Z.eqb_neq].
    + left. intros ->. by rewrite (out_pos _ _ _ _ _ Ho) in E.
    + right. intros ->. apply E. pose proof (objs_segs _ _ _ (out_objs _ _ _ _ _ Ho)) as H.
      by apply Forall2_nil_inv_r in H as ->.
Qed.

(** An operation that does its work after [prepareClientToWrite]. *)
Lemma prepared n s b segs x {A} (m : M A) (a : A) k :
  queue (n + k) s b segs ->
  (forall s1, outs (n + k) s1 b segs -> accepts (cl s1) ->
    heap s1 = heap s -> reply (cl s1) = reply (cl s) ->
    exists s', m s1 = Some (a, s') /\ post n s1 b segs x s') ->
  exists s1 s', prepare s = Some (true, s1) /\ m s1 = Some (a, s') /\ queued n s b segs x s'.
Proof.
  intros Hq Hm. destruct (prepare_spec _ _ _ _ Hq) as (s1 & E1 & O1 & A1 & H1 & Hh & Hr & C1).
  destruct (Hm s1 O1 A1 Hh Hr) as (s' & E' & b' & g' & O' & E2 & F' & C').
  exists s1, s'. split; [done|]. split; [done|]. exists b', g'. split; [|rewrite Hh, Hr in F'; split; [done|]; split; [done|]].
  - split; [done|]. split; [by eapply accepts_same|]. intros _. by eapply handled_same.
  - by eapply same_client_trans.
Qed.

(** The buffer first, then the list. *)
Lemma buffer_or_list n s b segs x r (rest : M unit) :
  outs (n + 1) s b segs -> 0 <= n -> accepts (cl s) -> zlen x <= 2 ^ 29 ->
  (exists s', rest s = Some (tt, s') /\ post n s b segs (map B x) s') ->
  exists s', (ok ← _addReplyToBuffer (x ++ r) (zlen x); if ok : bool then mret tt else rest) s = Some (tt, s') /\
    post n s b segs (map B x) s'.
Proof.
  intros Ho Hn [Ha _] Hx Hrest. destruct (buffer_spec n s b segs x r Ho Hn Ha) as [(s1 & E & P)|E]; [lia|..];
    rewrite (bind_run _ _ _ _ _ E); [by exists s1|done].
Qed.

Local Abbreviation add_string := (addReplyString uninit unixtime client_obuf_limits list_item_size zs true).
Local Abbreviation add_sds := (addReplySds uninit unixtime client_obuf_limits list_item_size zs true).
Local Abbreviation add := (addReply uninit unixtime client_obuf_limits list_item_size zs true).

Lemma add_string_spec n s b segs x r :
  queue (n + 1) s b segs -> 0 <= n -> zlen x <= 2 ^ 29 ->
  exists s', add_string (x ++ r) (zlen x) s = Some (tt, s') /\ queued n s b segs (map B x) s'.
Proof.
  intros Hq Hn Hx. unfold addReplyString.
  destruct (prepared n s b segs (map B x)
    (ok ← _addReplyToBuffer (x ++ r) (zlen x); if ok : bool then mret tt else string_to_list (x ++ r) (zlen x)) tt 1 Hq)
    as (s1 & s' & E1 & E2 & P).
  { intros s1 O1 A1 Hh Hr. apply buffer_or_list; [done..|]. apply string_to_list_spec; try done. apply A1. }
  exists s'. rewrite (bind_run _ _ _ _ _ E1). done.
Qed.

Lemma add_sds_spec n s b segs sd x :
  queue (n + 1) s b segs -> 0 <= n -> repr sd x -> zlen x <= 2 ^ 29 ->
  exists s', add_sds sd s = Some (tt, s') /\ queued n s b segs (map B x) s'.
Proof.
  intros Hq Hn Hr Hx. unfold addReplySds.
  destruct (prepared n s b segs (map B x)
    (ok ← _addReplyToBuffer (buf sd) (sdslen sd); if ok : bool then mret tt else sds_to_list sd) tt 1 Hq)
    as (s1 & s' & E1 & E2 & P).
  { intros s1 O1 A1 Hh Hre. pose proof (sds_to_list_spec n s1 b segs sd x O1 Hn (proj1 A1) Hr Hx) as Hl.
    destruct (repr_sds _ _ Hr) as (_ & -> & t & ->). by apply buffer_or_list. }
  exists s'. rewrite (bind_run _ _ _ _ _ E1). done.
Qed.

Lemma add_raw_spec n s b segs l sd x :
  queue (n + 1) s b segs -> 0 <= n -> keeps s l (PRaw sd) -> repr sd x -> zlen x <= 2 ^ 29 ->
  exists s', add l s = Some (tt, s') /\ queued n s b segs (map B x) s'.
Proof.
  intros Hq Hn Hk Hr Hx. unfold addReply.
  destruct (prepared n s b segs (map B x)
    (ok ← _addReplyToBuffer (buf sd) (sdslen sd); if ok : bool then mret tt else object_to_list l) tt 1 Hq)
    as (s1 & s' & E1 & E2 & P).
  { intros s1 O1 A1 Hh Hre. assert (keeps s1 l (PRaw sd)) as Hk1 by (unfold keeps; by rewrite Hh, Hre).
    pose proof (object_to_list_spec n s1 b segs l sd x O1 Hn (proj1 A1) Hk1 Hr Hx) as Hl.
    destruct (repr_sds _ _ Hr) as (_ & -> & t & ->). by apply buffer_or_list. }
  exists s'. rewrite (bind_run _ _ _ _ _ E1). cbn [negb].
  destruct (prepare_spec _ _ _ _ Hq) as (s1' & E1' & _ & _ & _ & Hh & Hre & _).
  rewrite E1 in E1'. injection E1' as <-. destruct Hk as (rc & Hl & _). rewrite <- Hh in Hl.
  rewrite (load_run _ _ _ _ Hl). done.
Qed.

(** Giving up a reference that is not the list's. *)
Lemma release_ref n s b segs l p :
  outs n s b segs -> keeps s l p -> p <> PNull ->
  exists s', decrRefCount l s = Some (tt, s') /\ outs n s' b segs /\ cl s' = cl s /\
    forall k, k <> l -> heap s' !! k = heap s !! k.
Proof.
  intros Ho (r & Hl & Hr) Hp. pose proof (occ_pos l (reply (cl s))) as Hpos.
  assert (forall h', same_text (heap s) h' (reply (cl s)) ->
    (forall k o, h' !! k = Some o -> occ k (reply (cl s)) <= refcount o) ->
    outs n (St h' (cl s) (to_close s)) b segs) as Hk.
  { intros h' Ht Hc. destruct Ho as [Hb Hpo [Hs _] Hu Hby Hsh Hsent]. split; cbn; try done.
    - split; [by eapply segs_text|done].
    - by rewrite (usage_text zs _ _ _ _ Hs Ht). }
  pose proof (objs_refs _ _ _ (out_objs _ _ _ _ _ Ho)) as Hrefs.
  unfold decrRefCount. rewrite (load_run _ _ _ _ Hl). cbn [refcount ptr].
  rewrite (proj2 (Z.leb_gt _ _)) by lia. destruct (Z.eqb_spec r 1) as [->|H1]; eexists; (split; [done|]).
  - assert (l ∉ reply (cl s)) as Hn by (intros Hin%occ_in; lia). split; [apply Hk|split; [done|]].
    + intros k Hk' o Hko. exists o. assert (k <> l) by congruence. rewrite lookup_delete_ne by done. done.
    + intros k o [_ Hko]%lookup_delete_Some. by apply Hrefs.
    + intros k Hkl. cbn. by rewrite lookup_delete_ne.
  - split; [apply Hk|split; [done|]].
    + intros k _ o Hko. destruct (decide (k = l)) as [->|Hkl].
      * rewrite lookup_insert_eq. rewrite Hl in Hko. injection Hko as <-. eexists. done.
      * rewrite lookup_insert_ne by done. eauto.
    + intros k o. destruct (decide (k = l)) as [->|Hkl].
      * rewrite lookup_insert_eq. intros [= <-]. cbn. lia.
      * rewrite lookup_insert_ne by done. apply Hrefs.
    + intros k Hkl. cbn. by rewrite lookup_insert_ne.
Qed.

(** A new object, that the caller refers to. *)
Lemma alloc_spec n s b segs p (l := fresh (dom (heap s))) (s1 := St (<[l := Obj p 1]> (heap s)) (cl s) (to_close s)) :
  outs n s b segs ->
  outs n s1 b segs /\ keeps s1 l p /\ frame (heap s) (reply (cl s)) (heap s1) (reply (cl s1)) /\ heap s !! l = None.
Proof.
  intros Ho. assert (heap s !! l = None) as Hfr by (apply not_elem_of_dom, is_fresh).
  assert (l ∉ reply (cl s)) as Hn.
  { intros Hin. destruct (segs_in _ _ _ _ (objs_segs _ _ _ (out_objs _ _ _ _ _ Ho)) Hin). congruence. }
  split; [|split; [exists 1; cbn; rewrite lookup_insert_eq, occ_notin by done; split; [done|lia]|split; [|done]]].
  - destruct Ho as [Hb Hpo [Hs Hc] Hu Hby Hsh Hsent]. pose proof (same_text_notin (heap s) l (Obj p 1) _ Hn) as Ht.
    split; cbn; try done; [split|].
    + by eapply segs_text.
    + intros k o. destruct (decide (k = l)) as [->|Hkl].
      * rewrite lookup_insert_eq, occ_notin by done. intros [= <-]. cbn. lia.
      * rewrite lookup_insert_ne by done. apply Hc.
    + by rewrite (usage_text zs _ _ _ _ Hs Ht).
  - intros k o Ho' _. exists o. cbn. rewrite lookup_insert_ne by congruence. done.
Qed.

(** An object that lives no longer than the operation. *)
Lemma temporary_spec n s b segs sd x (m : loc -> M unit) (l := fresh (dom (heap s))) :
  outs (n + 1) s b segs ->
  (forall s1, outs (n + 1) s1 b segs -> cl s1 = cl s -> keeps s1 l (PRaw sd) ->
    exists s', m l s1 = Some (tt, s') /\ post n s1 b segs x s') ->
  exists s', (l ← alloc (Obj (PRaw sd) 1); _ ← m l; decrRefCount l) s = Some (tt, s') /\ post n s b segs x s'.
Proof.
  intros Ho Hm. destruct (alloc_spec _ _ _ _ (PRaw sd) Ho) as (O1 & Hk & F1 & Hfr). fold l in O1, Hk, F1, Hfr.
  set (s1 := St (<[l := Obj (PRaw sd) 1]> (heap s)) (cl s) (to_close s)) in *.
  destruct (Hm s1 O1 eq_refl Hk) as (s2 & E2 & b2 & g2 & O2 & F2 & Fr & C2).
  destruct (release_ref n s2 b2 g2 l (PRaw sd) O2) as (s3 & E3 & O3 & Ec & Hh3); [by eapply keeps_frame|done|].
  exists s3. rewrite (bind_run _ _ s l s1) by done. rewrite (bind_run _ _ _ _ _ E2). split; [done|].
  exists b2, g2. split; [done|]. split; [done|]. rewrite Ec. split; [|done].
  intros k o Hko Hlt. assert (k <> l) as Hkl by congruence. rewrite Hh3 by done. apply Fr; [|done].
  cbn. by rewrite lookup_insert_ne.
Qed.

Lemma ll2string_buf k v : 22 < k -> in_s 64 v ->
  exists t, ll2string (realloc uninit k []) k v = Some (dec v ++ 0 :: t, zlen (dec v)).
Proof.
  intros Hk Hv. pose proof (ll2string_spec (realloc uninit k []) v Hv) as E. pose proof (dec_length v Hv) as Hd.
  rewrite realloc_length in E by lia. rewrite E, (proj2 (Z.leb_gt _ _)) by lia. by eexists.
Qed.

Lemma add_int_spec n s b segs l v :
  queue (n + 1) s b segs -> 0 <= n -> keeps s l (PInt v) -> in_s 64 v ->
  exists s', add l s = Some (tt, s') /\ queued n s b segs (map B (dec v)) s'.
Proof.
  intros Hq Hn Hk Hv. unfold addReply. pose proof (dec_length v Hv) as Hd.
  destruct (ll2string_buf 32 v) as (t & Et); [lia|done|].
  destruct (newlen_spec uninit (dec v) (0 :: t)) as (sd & Esd & Hr); [lia|].
  set (rest := l ← alloc (Obj (PRaw sd) 1);
    _ ← (ok ← _addReplyToBuffer (buf sd) (sdslen sd); if ok : bool then mret tt else object_to_list l);
    decrRefCount l).
  assert (forall s1, outs (n + 1) s1 b segs -> accepts (cl s1) ->
    exists s', rest s1 = Some (tt, s') /\ post n s1 b segs (map B (dec v)) s') as Hrest.
  { intros s1 O1 A1. apply temporary_spec; [done|]. intros s2 O2 E2 Hk2. rewrite <- E2 in A1.
    pose proof (object_to_list_spec n s2 b segs _ sd (dec v) O2 Hn (proj1 A1) Hk2 Hr ltac:(lia)) as Hl.
    destruct (repr_sds _ _ Hr) as (_ & -> & t' & ->). apply buffer_or_list; [done..|lia|done]. }
  assert (forall s1, (('(b, _) ← lift (ll2string (realloc uninit 32 []) 32 v); len ← lift (strlen b);
    s ← lift (sdsnewlen uninit (Some b) len); l ← alloc (Obj (PRaw s) 1);
    ok ← _addReplyToBuffer (buf s) (sdslen s); _ ← (if ok : bool then mret tt else object_to_list l);
    decrRefCount l) : M unit) s1 = rest s1) as Eslow.
  { intros s1. rewrite (lift_run _ _ _ _ Et), (lift_run _ (zlen (dec v))) by (apply strlen_spec, Object.dec_nonzero).
    rewrite (lift_run _ _ _ _ Esd). unfold rest.
    rewrite !(bind_run (alloc (Obj (PRaw sd) 1)) _ s1 (fresh (dom (heap s1)))
      (St (<[fresh (dom (heap s1)) := Obj (PRaw sd) 1]> (heap s1)) (cl s1) (to_close s1))) by done.
    by rewrite bind_assoc. }
  destruct (prepared n s b segs (map B (dec v)) (c ← get;
        fast ← (if (zlen (reply c) =? 0) && (32 <=? uint64 (zlen (cbuf c) - bufpos c)) then
                  '(b, len) ← lift (ll2string (realloc uninit 32 []) 32 v);
                  _addReplyToBuffer b len
                else mret false);
        if fast : bool then mret tt else rest) tt 1 Hq)
    as (s1 & s' & E1 & E2 & P).
  { intros s1 O1 A1 Hh Hre. rewrite get_run. destruct (_ && _); [|rewrite ret_run; by apply Hrest].
    rewrite bind_assoc, (lift_run _ _ _ _ Et). apply buffer_or_list; [done..|lia|by apply Hrest]. }
  exists s'. rewrite (bind_run _ _ _ _ _ E1). cbn [negb].
  destruct (prepare_spec _ _ _ _ Hq) as (s1' & E1' & _ & _ & _ & Hh & Hre & _).
  rewrite E1 in E1'. injection E1' as <-. destruct Hk as (rc & Hl & _). rewrite <- Hh in Hl.
  rewrite (load_run _ _ _ _ Hl). cbn [ptr]. split; [|done]. rewrite get_run in *. rewrite <- E2.
  apply bind_ext. intros [|] s2; [done|]. apply Eslow.
Qed.

(** An object that stands for the text [x] and that someone else refers to. *)
Definition holds (s : st) (l : loc) (x : list Z) : Prop :=
  (exists sd, keeps s l (PRaw sd) /\ repr sd x) \/ (exists v, keeps s l (PInt v) /\ in_s 64 v /\ x = dec v).

(** Facts about objects that replies do not change. *)
Definition stable (P : st -> Prop) : Prop := forall s s',
  P s -> frame (heap s) (reply (cl s)) (heap s') (reply (cl s')) -> P s'.

Lemma holds_stable l x : stable (fun s => holds s l x).
Proof.
  intros s s' [(sd & Hk & Hr)|(v & Hk & Hv)] Hf; [left; exists sd|right; exists v];
    (split; [by eapply keeps_frame|done]).
Qed.

(** [m] writes the text [x] and nothing else, with at most [k] strings. *)
Definition says (k : Z) (P : st -> Prop) (m : M unit) (x : list Z) : Prop := forall n s b segs,
  queue (n + k) s b segs -> 0 <= n -> P s -> exists s', m s = Some (tt, s') /\ queued n s b segs (map B x) s'.

Lemma queue_le m n s b segs : queue m s b segs -> 0 <= n <= m -> queue n s b segs.
Proof. intros (Ho & Hq) Hn. split; [by eapply outs_le|done]. Qed.

Lemma says_mono k k' P Q m x : says k P m x -> 0 <= k <= k' -> (forall s, Q s -> P s) -> says k' Q m x.
Proof.
  intros Hm Hk HPQ n s b segs Hq Hn HQ. apply (Hm n); [|done|auto].
  eapply queue_le; [done|lia].
Qed.

Lemma queued_trans m n s b segs x s1 y P :
  queued m s b segs x s1 ->
  (forall b1 segs1, queue m s1 b1 segs1 -> flat b1 segs1 = flat b segs ++ x ->
    frame (heap s) (reply (cl s)) (heap s1) (reply (cl s1)) ->
    exists s2, P s2 /\ queued n s1 b1 segs1 y s2) ->
  exists s2, P s2 /\ queued n s b segs (x ++ y) s2.
Proof.
  intros (b1 & g1 & Q1 & E1 & F1 & C1) H. destruct (H b1 g1 Q1 E1 F1) as (s2 & HP & b2 & g2 & Q2 & E2 & F2 & C2).
  exists s2. split; [done|]. exists b2, g2. split; [done|].
  split; [by rewrite E2, E1, app_assoc|]. split; [by eapply frame_compose|by eapply same_client_trans].
Qed.

Lemma says_bind j k P m1 m2 x y :
  says j P m1 x -> says k P m2 y -> stable P -> 0 <= k -> says (j + k) P (_ ← m1; m2) (x ++ y).
Proof.
  intros H1 H2 HP Hk n s b segs Hq Hn Hs.
  destruct (H1 (n + k) s b segs) as (s1 & E1 & Q1); [by replace (n + k + j) with (n + (j + k)) by lia|lia|done|].
  rewrite (bind_run _ _ _ _ _ E1), map_app. eapply queued_trans; [done|].
  intros b1 g1 Hq1 _ F1. apply H2; [done..|]. by eapply HP.
Qed.

Lemma says_lift {A} k P (o : option A) a m x : o = Some a -> says k P (m a) x -> says k P (y ← lift o; m y) x.
Proof. intros E Hm n s b segs Hq Hn Hs. rewrite (lift_run _ _ _ _ E). by apply Hm. Qed.

Lemma says_string P x r : zlen x <= 2 ^ 29 -> says 1 P (add_string (x ++ r) (zlen x)) x.
Proof. intros Hx n s b segs Hq Hn _. by apply add_string_spec. Qed.

Lemma says_object P l x : zlen x <= 2 ^ 29 -> (forall s, P s -> holds s l x) -> says 1 P (add l) x.
Proof.
  intros Hx HP n s b segs Hq Hn Hs. destruct (HP s Hs) as [(sd & Hk & Hr)|(v & Hk & Hv & ->)].
  - by eapply add_raw_spec.
  - by eapply add_int_spec.
Qed.

Lemma says_sds P sd x : repr sd x -> zlen x <= 2 ^ 29 -> says 1 P (add_sds sd) x.
Proof. intros Hr Hx n s b segs Hq Hn _. by apply add_sds_spec. Qed.

(** ** The protocol *)
Definition CRLF : list Z := [13; 10].
Definition header (prefix v : Z) : list Z := prefix :: dec v ++ CRLF.
Definition bulk (x : list Z) : list Z := header 36 (zlen x) ++ x ++ CRLF.

Context (shared : shared_objects).

Record shared_ok (s : st) : Prop := SharedOk {
  ok_mbulkhdr : forall i, 0 <= i < REDIS_SHARED_BULKHDR_LEN ->
    exists l, rd (mbulkhdr shared) i = Some l /\ holds s l (header 42 i);
  ok_bulkhdr : forall i, 0 <= i < REDIS_SHARED_BULKHDR_LEN ->
    exists l, rd (bulkhdr shared) i = Some l /\ holds s l (header 36 i);
  ok_crlf : holds s (crlf shared) CRLF;
  ok_czero : holds s (czero shared) (header 58 0);
  ok_cone : holds s (cone shared) (header 58 1);
  ok_nullbulk : holds s (nullbulk shared) (header 36 (-1)) }.

Lemma shared_stable : stable shared_ok.
Proof.
  intros s s' [] Hf. split; try (by eapply holds_stable).
  - intros i Hi. destruct (ok_mbulkhdr0 i Hi) as (l & E & Hh). exists l. split; [done|]. by eapply holds_stable.
  - intros i Hi. destruct (ok_bulkhdr0 i Hi) as (l & E & Hh). exists l. split; [done|]. by eapply holds_stable.
Qed.

Lemma header_length p v : in_s 64 v -> zlen (header p v) <= 32.
Proof. intros Hv. pose proof (dec_length v Hv). unfold header. cbn. rewrite length_app. cbn. lia. Qed.

Local Abbreviation add_prefixed :=
  (addReplyLongLongWithPrefix uninit unixtime client_obuf_limits list_item_size zs true shared).

Lemma says_header_of P (ls : list loc) p i :
  0 <= i < REDIS_SHARED_BULKHDR_LEN ->
  (forall s, P s -> exists l, rd ls i = Some l /\ holds s l (header p i)) ->
  says 1 P (l ← lift (rd ls i); add l) (header p i).
Proof.
  intros Hi HP n s b segs Hq Hn Hs. destruct (HP s Hs) as (l & E & Hl). unfold REDIS_SHARED_BULKHDR_LEN in Hi.
  rewrite (lift_run _ _ _ _ E). apply (says_object (fun s => holds s l (header p i)) l); [|done..].
  pose proof (header_length p i ltac:(unfold in_s; lia)). lia.
Qed.

Lemma says_prefixed ll prefix :
  in_s 64 ll -> (prefix = 42 \/ prefix = 36 -> 0 <= ll) ->
  says 1 shared_ok (add_prefixed ll prefix) (header prefix ll).
Proof.
  intros Hll Hp. unfold addReplyLongLongWithPrefix.
  destruct ((prefix =? 42) && _) eqn:E1.
  { apply andb_true_iff in E1 as [->%Z.eqb_eq E1%Z.ltb_lt]. apply says_header_of; [lia|].
    intros s Hs. apply ok_mbulkhdr; [done|lia]. }
  destruct ((prefix =? 36) && _) eqn:E2.
  { apply andb_true_iff in E2 as [->%Z.eqb_eq E2%Z.ltb_lt]. apply says_header_of; [lia|].
    intros s Hs. apply ok_bulkhdr; [done|lia]. }
  destruct (realloc uninit 128 []) as [|z b0] eqn:Eb.
  { pose proof (realloc_length uninit 128 [] ltac:(lia)) as H. rewrite Eb in H. done. }
  assert (zlen b0 = 127) as Hb0.
  { pose proof (realloc_length uninit 128 [] ltac:(lia)) as H. rewrite Eb in H. cbn [length] in H. lia. }
  apply (says_lift _ _ _ (prefix :: b0)); [by apply (wr_app [])|]. change (drop 1 (prefix :: b0)) with b0.
  pose proof (dec_length ll Hll) as Hd. pose proof (ll2string_spec b0 ll Hll) as E. rewrite Hb0 in E.
  rewrite (proj2 (Z.leb_gt _ _)) in E by lia.
  apply (says_lift _ _ _ _ _ _ E). change (take 1 (prefix :: b0)) with [prefix].
  set (t := drop _ b0). assert (zlen t = 126 - zlen (dec ll)) as Ht by (unfold t; rewrite length_drop; lia).
  destruct t as [|c t]; [cbn in Ht; lia|].
  apply (says_lift _ _ _ ((prefix :: dec ll) ++ CRLF ++ t)).
  { change ([prefix] ++ dec ll ++ 0 :: c :: t) with ((prefix :: dec ll) ++ [0; c] ++ t).
    apply wrn_app; [cbn [length]; lia|done]. }
  rewrite app_assoc. replace (zlen (dec ll) + 3) with (zlen (header prefix ll)).
  - apply says_string. pose proof (header_length prefix ll Hll). lia.
  - unfold header. cbn [length]. rewrite length_app. cbn. lia.
Qed.

Local Abbreviation add_longlong := (addReplyLongLong uninit unixtime client_obuf_limits list_item_size zs true shared).
Local Abbreviation add_multilen := (addReplyMultiBulkLen uninit unixtime client_obuf_limits list_item_size zs true shared).
Local Abbreviation add_bulklen := (addReplyBulkLen uninit unixtime client_obuf_limits list_item_size zs true shared).
Local Abbreviation add_bulk := (addReplyBulk uninit unixtime client_obuf_limits list_item_size zs true shared).
Local Abbreviation add_cbuffer := (addReplyBulkCBuffer uninit unixtime client_obuf_limits list_item_size zs true shared).
Local Abbreviation add_cstring := (addReplyBulkCString uninit unixtime client_obuf_limits list_item_size zs true shared).
Local Abbreviation add_bulk_ll := (addReplyBulkLongLong uninit unixtime client_obuf_limits list_item_size zs true shared).
Local Abbreviation add_error := (addReplyError uninit unixtime client_obuf_limits list_item_size zs true).
Local Abbreviation add_status := (addReplyStatus uninit unixtime client_obuf_limits list_item_size zs true).

Lemma says_longlong ll : in_s 64 ll -> says 1 shared_ok (add_longlong ll) (header 58 ll).
Proof.
  intros Hll. unfold addReplyLongLong.
  destruct (Z.eqb_spec ll 0) as [->|]; [apply says_object; [done|]; intros s Hs; apply Hs|].
  destruct (Z.eqb_spec ll 1) as [->|]; [apply says_object; [done|]; intros s Hs; apply Hs|].
  apply says_prefixed; [done|lia].
Qed.

Lemma says_multilen n : 0 <= n < 2 ^ 63 -> says 1 shared_ok (add_multilen n) (header 42 n).
Proof.
  intros Hn. unfold addReplyMultiBulkLen. destruct (Z.ltb_spec n REDIS_SHARED_BULKHDR_LEN).
  - apply says_header_of; [lia|]. intros s Hs. apply ok_mbulkhdr; [done|lia].
  - apply says_prefixed; [unfold in_s; lia|lia].
Qed.

Lemma abs_quot_10 n : Z.abs (Z.quot n 10) = Z.abs n / 10.
Proof. rewrite <- Z.quot_abs by done. by rewrite Z.quot_div_nonneg by lia. Qed.

Lemma count_digits_step f n len :
  count_digits (S f) n len = if Z.quot n 10 =? 0 then Some len else count_digits f (Z.quot n 10) (len + 1).
Proof. done. Qed.

Lemma count_digits_spec f : forall n len, Z.abs n < 10 ^ Z.of_nat (S f) ->
  count_digits (S f) n len = Some (len + zlen (udec (S f) (Z.abs n)) - 1).
Proof.
  induction f as [|f IH]; intros n len Hn; rewrite count_digits_step; pose proof (abs_quot_10 n) as Eq;
    (destruct (Z.lt_ge_cases (Z.abs n) 10) as [Hs|Hs];
     [rewrite (Z.div_small (Z.abs n)) in Eq by lia; rewrite (proj2 (Z.eqb_eq _ _)) by lia;
      rewrite udec_small by done; f_equal; cbn; lia|]).
  - change (10 ^ Z.of_nat 1) with 10 in Hn. lia.
  - assert (1 <= Z.abs n / 10) by (apply Z.div_le_lower_bound; lia).
    rewrite (proj2 (Z.eqb_neq _ _)) by lia. rewrite IH.
    + rewrite Eq, (udec_step (S f)), length_app by done. cbn [length]. f_equal. lia.
    + rewrite Eq. apply Z.div_lt_upper_bound; [lia|].
      rewrite (Nat2Z.inj_succ (S f)), Z.pow_succ_r in Hn by lia. done.
Qed.

Lemma count_digits_dec n : in_s 64 n ->
  count_digits 20 (if n <? 0 then int64 (- n) else n) (if n <? 0 then 2 else 1) = Some (zlen (dec n)).
Proof.
  unfold in_s. change (2 ^ (64 - 1)) with (2 ^ 63). intros Hn. unfold dec.
  assert (2 ^ 63 < 10 ^ Z.of_nat 20) by done.
  destruct (Z.ltb_spec n 0).
  - assert (Z.abs (int64 (- n)) = - n) as Ea.
    { destruct (Z.eq_dec n (- 2 ^ 63)) as [->|]; [done|]. rewrite swrap_small by (unfold in_s; lia). lia. }
    rewrite (count_digits_spec 19), Ea by lia. f_equal. cbn [length]. lia.
  - rewrite (count_digits_spec 19) by lia. rewrite Z.abs_eq by lia. f_equal. lia.
Qed.

Lemma says_bulklen l x : zlen x <= 2 ^ 29 ->
  says 1 (fun s => shared_ok s /\ holds s l x) (add_bulklen l) (header 36 (zlen x)).
Proof.
  intros Hx n s b segs Hq Hn [Hs Hl]. unfold addReplyBulkLen.
  set (finish := fun len => if len <? REDIS_SHARED_BULKHDR_LEN then l ← lift (rd (bulkhdr shared) len); add l
                            else add_prefixed len 36).
  assert (exists s', finish (zlen x) s = Some (tt, s') /\ queued n s b segs (map B (header 36 (zlen x))) s') as Hf.
  { unfold finish. destruct (Z.ltb_spec (zlen x) REDIS_SHARED_BULKHDR_LEN) as [Hlt|Hlt].
    - apply (says_header_of shared_ok); [lia| |done..]. intros s1 Hs1. apply ok_bulkhdr; [done|lia].
    - apply says_prefixed; [unfold in_s; lia|lia|done..]. }
  destruct Hl as [(sd & (r & Hl & _) & Hr)|(v & (r & Hl & _) & Hv & ->)]; rewrite (load_run _ _ _ _ Hl); cbn [ptr].
  - destruct (repr_sds _ _ Hr) as (_ & -> & _). rewrite ret_run. exact Hf.
  - rewrite (lift_run _ _ _ _ (count_digits_dec v Hv)). exact Hf.
Qed.

Lemma both_stable P Q : stable P -> stable Q -> stable (fun s => P s /\ Q s).
Proof. intros HP HQ s s' [Hp Hq] Hf. split; [by eapply HP|by eapply HQ]. Qed.

Lemma says_bulk l x : zlen x <= 2 ^ 29 ->
  says 3 (fun s => shared_ok s /\ holds s l x) (add_bulk l) (bulk x).
Proof.
  intros Hx. unfold addReplyBulk, bulk.
  assert (stable (fun s => shared_ok s /\ holds s l x)) as Hst
    by (apply both_stable; [apply shared_stable|apply holds_stable]).
  apply (says_bind 1 2); [by apply says_bulklen| |done|lia].
  apply (says_bind 1 1); [|apply says_object; [done|]; intros s [Hs _]; apply Hs|done|lia].
  apply says_object; [done|]. by intros s [_ Hs].
Qed.

Lemma says_cbuffer x r : zlen x <= 2 ^ 29 -> says 3 shared_ok (add_cbuffer (x ++ r) (zlen x)) (bulk x).
Proof.
  intros Hx. unfold addReplyBulkCBuffer, bulk.
  apply (says_bind 1 2); [apply says_prefixed; [unfold in_s; lia|lia]| |apply shared_stable|lia].
  apply (says_bind 1 1); [by apply says_string| |apply shared_stable|lia].
  apply says_object; [done|]. intros s Hs. apply Hs.
Qed.

Lemma says_cstring x r : zlen x <= 2 ^ 29 -> Forall (fun c => c <> 0) x ->
  says 3 shared_ok (add_cstring (Some (x ++ 0 :: r))) (bulk x).
Proof.
  intros Hx Hz. eapply says_lift; [by apply strlen_spec|]. by apply says_cbuffer.
Qed.

Lemma says_null : says 1 shared_ok (add_cstring None) (header 36 (-1)).
Proof. apply says_object; [done|]. intros s Hs. apply Hs. Qed.

Lemma says_bulk_ll v : in_s 64 v -> says 3 shared_ok (add_bulk_ll v) (bulk (dec v)).
Proof.
  intros Hv. unfold addReplyBulkLongLong. destruct (ll2string_buf 64 v) as (t & E); [lia|done|].
  pose proof (dec_length v Hv). eapply says_lift; [done|]. apply says_cbuffer. lia.
Qed.

(** A line: a prefix, the text and the end. *)
Lemma says_line P pre x r : stable P -> zlen pre <= 2 ^ 29 -> zlen x <= 2 ^ 29 ->
  says 3 P (_ ← add_string (pre ++ [0]) (zlen pre); _ ← add_string (x ++ r) (zlen x); add_string [13; 10; 0] 2)
    (pre ++ x ++ CRLF).
Proof.
  intros HP Hpre Hx. apply (says_bind 1 2); [by apply says_string| |done|lia].
  apply (says_bind 1 1); [by apply says_string| |done|lia]. by apply (says_string P CRLF [0]).
Qed.

Lemma says_error P x r : stable P -> zlen x <= 2 ^ 29 -> Forall (fun c => c <> 0) x ->
  says 3 P (add_error (x ++ 0 :: r)) ([45; 69; 82; 82; 32] ++ x ++ CRLF).
Proof.
  intros HP Hx Hz. eapply says_lift; [by apply strlen_spec|]. by apply (says_line P [45; 69; 82; 82; 32]).
Qed.

Lemma says_status P x r : stable P -> zlen x <= 2 ^ 29 -> Forall (fun c => c <> 0) x ->
  says 3 P (add_status (x ++ 0 :: r)) ([43] ++ x ++ CRLF).
Proof.
  intros HP Hx Hz. eapply says_lift; [by apply strlen_spec|]. by apply (says_line P [43]).
Qed.

(** ** Lengths that are filled in later *)
Lemma flat_hole_split b segs p l q :
  flat b segs = p ++ Hole l :: q ->
  exists s1 s2, segs = s1 ++ Later l :: s2 /\ p = flat b s1 /\ q = s2 ≫= items.
Proof.
  assert (forall x rest p, map B x ++ rest = p ++ Hole l :: q ->
    exists p', p = map B x ++ p' /\ rest = p' ++ Hole l :: q) as Hx.
  { induction x as [|c x IH]; intros rest p' E; [by exists p'|]. destruct p' as [|i p']; [done|].
    injection E as <- E. destruct (IH _ _ E) as (p2 & -> & ->). by exists p2. }
  unfold flat. intros E. destruct (Hx _ _ _ E) as (p' & -> & E'). clear E.
  enough (exists s1 s2, segs = s1 ++ Later l :: s2 /\ p' = s1 ≫= items /\ q = s2 ≫= items) as (s1 & s2 & -> & -> & ->)
    by (by exists s1, s2).
  revert p' E'. induction segs as [|[x|k] segs IH]; intros p' E'; rewrite ?bind_cons in E'; cbn [items app] in E'.
  - by destruct p'.
  - destruct (Hx _ _ _ E') as (p2 & -> & E2). destruct (IH _ E2) as (s1 & s2 & -> & -> & ->).
    by exists (Text x :: s1), s2.
  - destruct p' as [|i p'].
    + injection E' as -> E2. by exists [], segs.
    + injection E' as <- E'. destruct (IH _ E') as (s1 & s2 & -> & -> & ->). by exists (Later k :: s1), s2.
Qed.

Lemma index_of_app l a c : l ∉ a -> index_of l (a ++ l :: c) = Some (length a).
Proof.
  intros Hl. unfold index_of. induction a as [|k a IH]; cbn [app list_find].
  - by rewrite decide_True.
  - rewrite decide_False by set_solver. specialize (IH ltac:(set_solver)).
    destruct (list_find (eq l) (a ++ l :: c)) as [[i y]|]; [|done]. cbn in *. by injection IH as ->.
Qed.

Lemma decrRefCount_run s l p r : heap s !! l = Some (Obj p r) -> 0 < r ->
  decrRefCount l s = Some (tt, St (decr_heap (heap s) l p r) (cl s) (to_close s)).
Proof.
  intros Hl Hr. unfold decrRefCount, decr_heap. rewrite (load_run _ _ _ _ Hl). cbn [refcount].
  rewrite (proj2 (Z.leb_gt _ _)) by lia. by destruct (r =? 1).
Qed.


Local Abbreviation add_deferred := (addDeferredMultiBulkLength true).
Local Abbreviation set_deferred :=
  (setDeferredMultiBulkLength uninit unixtime client_obuf_limits list_item_size zs).

Lemma add_deferred_spec n s b segs :
  queue (n + 1) s b segs -> 0 <= n ->
  exists l s', add_deferred s = Some (Some l, s') /\ queued n s b segs [Hole l] s'.
Proof.
  intros Hq Hn. set (l := fresh (dom (heap s))).
  assert (heap s !! l = None) as Hfr by (apply not_elem_of_dom, is_fresh).
  destruct (prepared n s b segs [Hole l] (l ← alloc (Obj PNull 1); _ ← add_node l; mret (Some l)) (Some l) 1 Hq)
    as (s1 & s' & E1 & E2 & P).
  - intros s1 O1 A1 Hh Hr.
    exists (St (<[l := Obj PNull 1]> (heap s1)) (with_reply (cl s1) (reply (cl s1) ++ [l])) (to_close s1)).
    split; [unfold l; by rewrite <- Hh|]. rewrite Hh, Hr.
    destruct O1 as [Hb Hp Hob Hu Hby Hsh Hsent]. rewrite Hh, Hr in *.
    destruct (objs_new _ _ _ l PNull (Later l) Hob Hfr) as (H1 & T1 & F1).
    { eexists. rewrite lookup_singleton_eq. done. }
    exists b, (segs ++ [Later l]). cbn. split; [split; cbn; try done|].
    + rewrite usage_app, (usage_text zs _ _ _ _ (objs_segs _ _ _ Hob) T1).
      unfold usage at 2, size_of. cbn. rewrite lookup_insert_eq. lia.
    + lia.
    + apply Forall_app. split; [eapply short_le; [done|lia]|]. by constructor.
    + by apply sent_ok_snoc.
    + split; [apply flat_snoc|]. split; [|done]. by rewrite Hh, Hr.
  - exists l, s'. unfold addDeferredMultiBulkLength. rewrite (bind_run _ _ _ _ _ E1). done.
Qed.

Lemma usage_mid h a l c sd r :
  h !! l = Some (Obj (PRaw sd) r) -> usage zs h (a ++ l :: c) = usage zs h a + zs sd + usage zs h c.
Proof.
  intros Hl. change (a ++ l :: c) with (a ++ [l] ++ c). rewrite !usage_app, (usage_one _ _ _ _ _ Hl). lia.
Qed.

Lemma usage_hole h a l c : h !! l = Some (Obj PNull 1) -> usage zs h (a ++ l :: c) = usage zs h a + usage zs h c.
Proof.
  intros Hl. change (a ++ l :: c) with (a ++ [l] ++ c). rewrite !usage_app. unfold usage at 2, size_of. cbn.
  rewrite Hl. lia.
Qed.

Lemma sent_ok_fill n b sa l sc y sc' : sent_ok n b (sa ++ Later l :: sc) -> sent_ok n b (sa ++ Text y :: sc').
Proof. unfold sent_ok. destruct b; [|done]. destruct sa as [|[]]; cbn; lia. Qed.

Lemma fill_spec n s b a l c sa sc sd y tc :
  outs (n + 1) s b (sa ++ Later l :: sc) -> 0 <= n -> reply (cl s) = a ++ l :: c -> length a = length sa ->
  heap s !! l = Some (Obj PNull 1) -> repr sd y -> zlen y <= 32 ->
  let s' := St (<[l := Obj (PRaw sd) 1]> (heap s)) (with_reply_bytes (cl s) (uint64 (reply_bytes (cl s) + zs sd))) tc in
  outs n s' b (sa ++ Text y :: sc) /\ frame (heap s) (reply (cl s)) (heap s') (reply (cl s')).
Proof.
  intros Ho Hn El Hlen Hl Hr Hy s'. pose proof (outs_reply_bytes _ _ _ _ Ho) as Hrb.
  destruct Ho as [Hb Hp Hob Hu Hby Hsh Hsent]. rewrite El in Hob, Hu. pose proof (zs_bound sd).
  destruct (objs_fill _ _ _ _ _ _ _ _ _ _ Hob Hlen Hl Hr) as (H1 & Ta & Tc & _ & _ & F1).
  destruct (segs_mid _ _ _ _ _ _ _ Hlen (objs_segs _ _ _ Hob)) as (Sa & _ & Sc).
  apply Forall_app in Hsh as [Hsa Hsc]. apply Forall_cons in Hsc as [_ Hsc].
  unfold s'. split; [split; cbn; rewrite ?El; try done|cbn; by rewrite El].
  - rewrite (usage_mid _ _ _ _ sd 1) by apply lookup_insert_eq. rewrite (usage_hole _ _ _ _ Hl) in Hu.
    rewrite (usage_text zs _ _ _ _ Sa Ta), (usage_text zs _ _ _ _ Sc Tc), wrap_small by (unfold in_u; lia). lia.
  - rewrite wrap_small by (unfold in_u; lia). lia.
  - apply Forall_app. split; [eapply short_le; [done|lia]|]. constructor; [cbn; lia|eapply short_le; [done|lia]].
  - by eapply sent_ok_fill.
Qed.

(** The text after the length moves into its object. *)
Lemma glue_spec n s b a l k c sa t sc sd td r y z tc :
  outs (n + 1) s b (sa ++ Later l :: Text t :: sc) -> 0 <= n -> reply (cl s) = a ++ l :: k :: c -> length a = length sa ->
  heap s !! l = Some (Obj PNull 1) -> heap s !! k = Some (Obj (PRaw td) r) -> repr sd (y ++ t) -> zlen y <= 32 ->
  z = reply_bytes (cl s) - zs td + zs sd ->
  let h' := decr_heap (<[l := Obj (PRaw sd) 1]> (heap s)) k (PRaw td) r in
  let s' := St h' (with_reply_bytes (with_reply (cl s) (a ++ l :: c)) z) tc in
  0 < r /\ zs td <= reply_bytes (cl s) /\ outs n s' b (sa ++ Text (y ++ t) :: sc) /\
  frame (heap s) (reply (cl s)) (heap s') (reply (cl s')).
Proof.
  intros Ho Hn El Hlen Hl Hk Hr Hy -> h' s'. pose proof (outs_reply_bytes _ _ _ _ Ho) as Hrb.
  destruct Ho as [Hb Hp Hob Hu Hby Hsh Hsent]. rewrite El in Hob, Hu. pose proof (zs_bound sd). pose proof (zs_bound td).
  destruct (objs_fill _ _ _ _ _ _ _ _ _ _ Hob Hlen Hl Hr) as (H1 & Ta & Tc & _ & Hlc & F1).
  assert (k <> l) as Hkl by set_solver.
  destruct (objs_drop (<[l := Obj (PRaw sd) 1]> (heap s)) (a ++ [l]) k c (sa ++ [Text (y ++ t)]) (Text t) sc td r)
    as (Hr0 & H2 & T2 & F2).
  { by rewrite <- !app_assoc. }
  { rewrite !length_app, Hlen. done. }
  { by rewrite lookup_insert_ne. }
  rewrite <- (app_assoc sa) in H2. rewrite <- (app_assoc a [l] c) in H2, T2, F2. rewrite <- (app_assoc a [l] (k :: c)) in F2.
  cbn [app] in H2, T2, F2.
  destruct (segs_mid _ _ _ _ _ _ _ Hlen (objs_segs _ _ _ Hob)) as (Sa & _ & Sc). apply Forall2_cons in Sc as [_ Sc].
  rewrite (usage_hole _ _ _ _ Hl) in Hu. change (k :: c) with ([] ++ k :: c) in Hu.
  rewrite (usage_mid _ [] k c _ _ Hk) in Hu. change (usage zs (heap s) []) with 0 in Hu.
  pose proof (usage_pos zs (heap s) a ltac:(intros; apply zs_bound)).
  pose proof (usage_pos zs (heap s) c ltac:(intros; apply zs_bound)).
  apply Forall_app in Hsh as [Hsa Hsc]. apply Forall_cons in Hsc as [_ Hsc]. apply Forall_cons in Hsc as [Ht Hsc]. cbn in Ht.
  split; [done|]. split; [lia|]. split; [split; cbn; try done|rewrite El; eapply frame_compose; [exact F1|exact F2]].
  - destruct (segs_mid _ _ _ _ _ _ _ Hlen (objs_segs _ _ _ H1)) as (Sa1 & Sl1 & Sc1).
    apply Forall2_cons in Sc1 as [_ Sc1].
    assert (same_text (heap s) (<[l := Obj (PRaw sd) 1]> (heap s)) c) as Tc' by (intros j Hj; apply Tc; set_solver).
    assert (Forall2 (seg_ok (<[l := Obj (PRaw sd) 1]> (heap s))) (a ++ l :: c) (sa ++ Text (y ++ t) :: sc)) as S1
      by (apply Forall2_app; [done|by constructor]).
    unfold h'. rewrite (usage_text zs _ _ _ _ S1 T2).
    rewrite (usage_mid _ _ _ _ sd 1) by apply lookup_insert_eq.
    rewrite (usage_text zs _ _ _ _ Sa Ta), (usage_text zs _ _ _ _ Sc Tc'). lia.
  - lia.
  - apply Forall_app. split; [eapply short_le; [done|lia]|]. constructor; [cbn; rewrite length_app; lia|eapply short_le; [done|lia]].
  - by eapply sent_ok_fill.
Qed.

Lemma queue_limits n s s1 b' segs' :
  accepts (cl s) -> handled (cl s) -> outs n s1 b' segs' ->
  frame (heap s) (reply (cl s)) (heap s1) (reply (cl s1)) -> same_client (cl s) (cl s1) ->
  forall x, flat b' segs' = x ->
  exists s', limits_reached s1 = Some (tt, s') /\ exists b' segs', queue n s' b' segs' /\ flat b' segs' = x /\
    frame (heap s) (reply (cl s)) (heap s') (reply (cl s')) /\ same_client (cl s) (cl s').
Proof.
  intros Ha Hh O1 F1 C1 x Hx. destruct (limits_spec _ _ _ _ O1) as (s2 & E & O2 & Hhe & Hr & C2).
  assert (same_client (cl s) (cl s2)) as C3 by (by eapply same_client_trans).
  exists s2. split; [done|]. exists b', segs'. rewrite Hhe, Hr. split; [|done]. split; [done|].
  split; [by eapply accepts_same|]. intros _. by eapply handled_same.
Qed.

Lemma set_deferred_spec n s b segs l v p q :
  queue (n + 1) s b segs -> 0 <= n -> in_s 64 v -> flat b segs = p ++ Hole l :: q ->
  exists s', set_deferred (Some l) v s = Some (tt, s') /\
    exists b' segs', queue n s' b' segs' /\ flat b' segs' = p ++ map B (header 42 v) ++ q /\
      frame (heap s) (reply (cl s)) (heap s') (reply (cl s')) /\ same_client (cl s) (cl s').
Proof.
  intros (Ho & Ha & Hh) Hn Hv Ef. destruct (flat_hole_split _ _ _ _ _ Ef) as (sa & sc & -> & -> & ->).
  assert (handled (cl s)) as Hhd by (apply Hh; right; by destruct sa).
  pose proof (out_objs _ _ _ _ _ Ho) as Hob.
  destruct (proj1 (Forall2_app_inv_r _ _ _ _) (objs_segs _ _ _ Hob)) as (a & k & Sa & Sk & El).
  apply Forall2_cons_inv_r in Sk as (l0 & c & (o & Hl & E & ->) & Sc & ->). subst l0.
  apply Forall2_length in Sa as Hlen. rewrite El in Hob.
  destruct (empty_spec uninit) as (s0 & E0 & R0).
  pose proof (header_length 42 v Hv) as Hhl.
  destruct (SdsText.catprintf_spec uninit s0 [] [42; 37; 108; 100; 13; 10] (header 42 v) [] R0) as (sd & E1 & R1).
  { repeat constructor; done. }
  { constructor; [done|]. apply Forall_app. split; [apply Object.dec_nonzero|repeat constructor; done]. }
  { cbn [length]. lia. }
  destruct (objs_fill _ _ _ _ _ _ _ _ _ _ Hob Hlen Hl R1) as (_ & _ & _ & Hna & Hnc & _).
  unfold setDeferredMultiBulkLength. rewrite get_run, El, (lift_run _ (length a)) by (by apply index_of_app).
  rewrite (load_run _ _ _ _ Hl), (lift_run _ _ _ _ E0), (lift_run _ _ _ _ E1), store_run, add_bytes_run.
  cbn [refcount heap cl to_close].
  destruct (fill_spec n s b a l c sa sc sd (header 42 v) (to_close s) Ho Hn El Hlen Hl R1 Hhl) as (O1 & F1).
  assert (forall y sc', flat b (sa ++ Text (header 42 v ++ y) :: sc') = flat b sa ++ map B (header 42 v) ++ (map B y ++ (sc' ≫= items)))
    as Efl.
  { intros y sc'. unfold flat. rewrite bind_app, bind_cons. cbn [items]. by rewrite map_app, <- !app_assoc. }
  rewrite list_lookup_middle_succ || replace ((a ++ l :: c) !! S (length a)) with (c !! 0%nat)
    by (change (a ++ l :: c) with (a ++ [l] ++ c); rewrite app_assoc, lookup_app_r by (rewrite length_app; cbn; lia);
        f_equal; rewrite length_app; cbn; lia).
  destruct Sc as [|k g c sc Hk Sc]; cbn [lookup list_lookup].
  - rewrite ret_run. rewrite <- El; eapply queue_limits; [done..|]. specialize (Efl [] []). rewrite app_nil_r in Efl. exact Efl.
  - destruct Hk as (ok & Hk & Hg). assert (k <> l) as Hkl by set_solver.
    rewrite bind_assoc, (load_run k ok) by (cbn; by rewrite lookup_insert_ne).
    destruct g as [t|l']; [|destruct Hg as [-> ->]; cbn [ptr]; rewrite ret_run; rewrite <- El; eapply queue_limits; [done..|];
      specialize (Efl [] (Later k :: sc)); rewrite app_nil_r in Efl; exact Efl].
    destruct ok as [pk rk], Hg as (td & Hpk & Rt). cbn in Hpk. subst pk. cbn [ptr].
    rewrite bind_assoc, add_bytes_run, bind_assoc, add_bytes_run. cbn [cl heap to_close reply_bytes with_reply_bytes].
    pose proof (out_short _ _ _ _ _ Ho) as Hsh. apply Forall_app in Hsh as [_ Hsh].
    apply Forall_cons in Hsh as [_ Hsh]. apply Forall_cons in Hsh as [Ht _]. cbn in Ht.
    destruct (repr_sds _ _ Rt) as (_ & -> & u & ->).
    destruct (catlen_spec uninit sd (header 42 v) t (0 :: u) (zlen t) R1) as (sd2 & E2 & R2); [done|lia|].
    rewrite bind_assoc, (lift_run _ _ _ _ E2), bind_assoc, store_run, bind_assoc, add_bytes_run, bind_assoc, get_run.
    rewrite bind_assoc, put_run. cbn [cl heap to_close reply_bytes with_reply_bytes reply]. rewrite El, insert_insert_eq.
    destruct (glue_spec n s b a l k c sa t sc sd2 td rk (header 42 v)
      (reply_bytes (cl s) - zs td + zs sd2) (to_close s) Ho Hn El Hlen Hl Hk R2 Hhl eq_refl) as (Hrk & Hzt & O2 & F2).
    rewrite (bind_run _ _ _ tt _ (decrRefCount_run (St _ _ _) k (PRaw td) rk
      ltac:(cbn; by rewrite lookup_insert_ne) Hrk)). cbn [heap cl to_close].
    pose proof (outs_reply_bytes _ _ _ _ Ho) as Hrb. pose proof (out_bytes _ _ _ _ _ Ho) as Hby.
    pose proof (zs_bound sd). pose proof (zs_bound sd2). pose proof (zs_bound td).
    assert (uint64 (uint64 (uint64 (uint64 (reply_bytes (cl s) + zs sd) + - zs sd) + - zs td) + zs sd2) =
            reply_bytes (cl s) - zs td + zs sd2) as ->.
    { rewrite (wrap_small 64 (reply_bytes (cl s) + zs sd)) by (unfold in_u; lia).
      rewrite (wrap_small 64 (_ + - zs sd)) by (unfold in_u; lia).
      rewrite (wrap_small 64 (_ + - zs td)) by (unfold in_u; lia). rewrite wrap_small by (unfold in_u; lia). lia. }
    replace (delete (S (length a)) (a ++ l :: k :: c)) with (a ++ l :: c)
      by (change (a ++ l :: k :: c) with (a ++ [l] ++ k :: c); rewrite app_assoc;
          replace (S (length a)) with (length (a ++ [l])) by (rewrite length_app; cbn; lia);
          rewrite delete_middle, <- app_assoc; done).
    rewrite <- El; eapply queue_limits; [done|done|exact O2|exact F2|done|]. apply Efl.
Qed.

(** ** Sending *)
Context (write : nat -> list Z -> Z) (relaxed : Z -> bool) (eagain : bool).
Hypothesis write_bound : forall k x, write k x <= zlen x.

Definition pend (s : st) (b : list Z) (xs : list (list Z)) : list Z :=
  drop (Z.to_nat (sentlen (cl s))) (b ++ concat xs).

Definition same_line (c c' : client) : Prop :=
  fd c' = fd c /\ replstate c' = replstate c /\ flags c' = flags c /\ writable c' = writable c.

(** The result of sending a part [out] of what is pending. *)
Definition sent (n : Z) (s : st) (b : list Z) (xs : list (list Z)) (out : list Z) (s' : st) : Prop :=
  exists b' xs', outs n s' b' (map Text xs') /\ pend s b xs = out ++ pend s' b' xs' /\
    (b' <> [] \/ xs' <> [] -> b <> [] \/ xs <> []) /\
    frame (heap s) (reply (cl s)) (heap s') (reply (cl s')) /\ same_line (cl s) (cl s').

Lemma sent_trans n s b xs out s1 b1 xs1 out2 s2 :
  pend s b xs = out ++ pend s1 b1 xs1 -> (b1 <> [] \/ xs1 <> [] -> b <> [] \/ xs <> []) ->
  frame (heap s) (reply (cl s)) (heap s1) (reply (cl s1)) -> same_line (cl s) (cl s1) ->
  sent n s1 b1 xs1 out2 s2 -> sent n s b xs (out ++ out2) s2.
Proof.
  intros Ep Hne F1 (A1 & A2 & A3 & A4) (b2 & xs2 & O2 & E2 & N2 & F2 & B1 & B2 & B3 & B4).
  exists b2, xs2. split; [done|]. split; [by rewrite Ep, E2, app_assoc|]. split; [auto|].
  split; [by eapply frame_compose|]. unfold same_line. by rewrite B1, B2, B3, B4.
Qed.

Lemma sent_nil n s b xs : outs n s b (map Text xs) -> sent n s b xs [] s.
Proof. intros Ho. exists b, xs. split; [done|]. split; [done|]. split; [done|]. split; [apply frame_refl|done]. Qed.

Lemma sent_len n s b segs : outs n s b segs -> 0 <= sentlen (cl s).
Proof. intros [_ _ _ _ _ _ Hs]. destruct Hs; lia. Qed.

Lemma take_pend (i n : nat) (l r : list Z) :
  (i + n <= length l)%nat -> drop i (l ++ r) = take n (drop i l) ++ drop (i + n) (l ++ r).
Proof.
  intros H. rewrite !drop_app_le by lia. rewrite <- drop_drop, app_assoc. by rewrite take_drop.
Qed.

(** [n] bytes of the buffer are sent. *)
Lemma send_buffer n s b xs k :
  outs n s b (map Text xs) -> 0 < k -> sentlen (cl s) + k <= zlen b ->
  let c := with_sentlen (cl s) (sentlen (cl s) + k) in
  let c := if sentlen c =? bufpos c then with_sentlen (with_buf c (cbuf c) 0) 0 else c in
  let s1 := St (heap s) c (to_close s) in
  exists b1, outs n s1 b1 (map Text xs) /\
    pend s b xs = take (Z.to_nat k) (drop (Z.to_nat (sentlen (cl s))) b) ++ pend s1 b1 xs /\
    frame (heap s) (reply (cl s)) (heap s1) (reply (cl s1)) /\ same_line (cl s) (cl s1).
Proof.
  intros Ho Hk Hle. pose proof (sent_len _ _ _ _ Ho) as Hs0. destruct Ho as [Hb Hp Hob Hu Hby Hsh Hsent].
  cbn [sentlen with_sentlen bufpos].
  assert (pend s b xs = take (Z.to_nat k) (drop (Z.to_nat (sentlen (cl s))) b) ++
    drop (Z.to_nat (sentlen (cl s) + k)) (b ++ concat xs)) as Ep.
  { unfold pend. rewrite (take_pend _ (Z.to_nat k)) by lia. do 2 f_equal. lia. }
  destruct (Z.eqb_spec (sentlen (cl s) + k) (bufpos (cl s))) as [E|E].
  - exists []. split; [split; cbn; try done|].
    + destruct Hb as (r & Hb & Hr). exists (cbuf (cl s)). rewrite Hb. done.
    + by left.
    + split; [|split; [apply frame_refl|done]]. rewrite Ep. f_equal. unfold pend. cbn [sentlen cl with_sentlen app].
      rewrite E, Hp, Nat2Z.id, drop_app_length. done.
  - exists b. split; [split; cbn; try done|].
    + right. destruct b; [cbn in Hle; lia|]. lia.
    + split; [done|split; [apply frame_refl|done]].
Qed.

(** The first object is left. *)
Lemma pop_spec n s x xs l ls sd r z tc :
  outs n s [] (map Text (x :: xs)) -> reply (cl s) = l :: ls -> heap s !! l = Some (Obj (PRaw sd) r) ->
  (z = reply_bytes (cl s) \/ z = reply_bytes (cl s) - zs sd) ->
  let s1 := St (decr_heap (heap s) l (PRaw sd) r) (with_reply_bytes (with_sentlen (with_reply (cl s) ls) 0) z) tc in
  0 < r /\ zs sd <= reply_bytes (cl s) /\ outs n s1 [] (map Text xs) /\
  frame (heap s) (reply (cl s)) (heap s1) (reply (cl s1)) /\ same_line (cl s) (cl s1).
Proof.
  intros Ho El Hl Hz s1. destruct Ho as [Hb Hp Hob Hu Hby Hsh Hsent]. rewrite El in Hob, Hu.
  destruct (objs_drop (heap s) [] l ls [] (Text x) (map Text xs) sd r Hob eq_refl Hl) as (Hr & H1 & T1 & F1).
  cbn [app] in H1, T1, F1. change (l :: ls) with ([] ++ l :: ls) in Hu. rewrite (usage_mid _ _ _ _ _ _ Hl) in Hu.
  change (usage zs (heap s) []) with 0 in Hu. pose proof (zs_bound sd).
  pose proof (usage_pos zs (heap s) ls ltac:(intros; apply zs_bound)).
  destruct (segs_mid _ [] l ls [] (Text x) (map Text xs) eq_refl (objs_segs _ _ _ Hob)) as (_ & _ & Sc).
  split; [done|]. split; [lia|]. split; [split; cbn; try done|split; [by rewrite El|done]].
  - rewrite (usage_text zs _ _ _ _ Sc T1). lia.
  - lia.
  - cbn [map] in Hsh. by apply Forall_cons in Hsh as [_ Hsh].
  - by left.
Qed.

Lemma advance_sent n s x xs k tc :
  outs n s [] (map Text (x :: xs)) -> 0 < k -> sentlen (cl s) + k < zlen x ->
  outs n (St (heap s) (with_sentlen (cl s) (sentlen (cl s) + k)) tc) [] (map Text (x :: xs)).
Proof.
  intros Ho Hk Hlt. pose proof (sent_len _ _ _ _ Ho) as Hs0. destruct Ho as [Hb Hp Hob Hu Hby Hsh Hsent].
  split; try done. right. cbn. lia.
Qed.

Local Abbreviation loop := (send_loop zs write relaxed).

(** What a round of the loop needs: bytes that are left and objects. *)
Definition left_over (s : st) (b : list Z) (xs : list (list Z)) : nat := length (pend s b xs) + length xs.

(** Every call of [write] takes at least a byte. *)
Definition ready : Prop := forall k x, x <> [] -> 0 < write k x.

Definition looped (n : Z) (s : st) (b : list Z) (xs : list (list Z)) (out : list Z) (res : option (Z * Z * list Z * st)) : Prop :=
  exists nw tot out' s', res = Some (nw, tot, out ++ out', s') /\ sent n s b xs out' s' /\
    (ready -> pend s b xs <> [] -> out' <> []).

Lemma rdn_drop (l r : list Z) i : 0 <= i <= zlen l -> rdn (l ++ r) i (zlen l - i) = Some (drop (Z.to_nat i) l).
Proof.
  intros Hi. rewrite <- (take_drop (Z.to_nat i) l) at 1. rewrite <- app_assoc.
  apply rdn_app; [rewrite length_take; lia|rewrite length_drop; lia].
Qed.

Lemma looped_next n s b xs out x s1 b1 xs1 res :
  pend s b xs = x ++ pend s1 b1 xs1 -> (b1 <> [] \/ xs1 <> [] -> b <> [] \/ xs <> []) ->
  frame (heap s) (reply (cl s)) (heap s1) (reply (cl s1)) -> same_line (cl s) (cl s1) ->
  looped n s1 b1 xs1 (out ++ x) res -> looped n s b xs out res.
Proof.
  intros Ep Hne F1 L1 (nw & tot & out2 & s2 & -> & S2 & Hr). exists nw, tot, (x ++ out2), s2.
  split; [by rewrite app_assoc|]. split; [by eapply sent_trans|].
  intros Hready Hp. destruct x as [|c x]; [|done]. cbn [app] in *. apply Hr; [done|]. by rewrite <- Ep.
Qed.

Lemma looped_stop n s b xs nw tot out : outs n s b (map Text xs) -> (ready -> pend s b xs = []) ->
  looped n s b xs out (Some (nw, tot, out, s)).
Proof.
  intros Ho Hp. exists nw, tot, [], s. rewrite app_nil_r. split; [done|]. split; [by apply sent_nil|].
  intros Hr. by rewrite Hp.
Qed.

(** The object at the head of the list. *)
Lemma head_object n s x xs : outs n s [] (map Text (x :: xs)) ->
  exists l ls sd r, reply (cl s) = l :: ls /\ heap s !! l = Some (Obj (PRaw sd) r) /\ repr sd x /\
    0 <= sentlen (cl s) /\ (zlen x = 0 -> sentlen (cl s) = 0) /\ (0 < zlen x -> sentlen (cl s) < zlen x).
Proof.
  intros Ho. pose proof (objs_segs _ _ _ (out_objs _ _ _ _ _ Ho)) as H. cbn [map] in H.
  apply Forall2_cons_inv_r in H as (l & ls & ([p r] & Hl & sd & Hp & Hr) & _ & El). cbn in Hp. subst p.
  exists l, ls, sd, r. destruct (out_sent _ _ _ _ _ Ho) as [E|E]; cbn in E; repeat split; try done; lia.
Qed.

Lemma pend_buffer n s c b xs : outs n s (c :: b) (map Text xs) -> sentlen (cl s) < zlen (c :: b).
Proof. intros [_ _ _ _ _ _ [E|E]]; [rewrite E; cbn; lia|]. cbn in *. lia. Qed.

Lemma send_loop_spec n fuel : forall s b xs k nw tot out,
  outs n s b (map Text xs) -> (left_over s b xs <= fuel)%nat -> looped n s b xs out (loop fuel k nw tot out s).
Proof.
  induction fuel as [|fuel IH]; intros s b xs k nw tot out Ho Hf;
    pose proof (sent_len _ _ _ _ Ho) as Hs0; pose proof (out_pos _ _ _ _ _ Ho) as Hpos;
    pose proof (out_buf _ _ _ _ _ Ho) as (rb & Hbuf & _).
  { destruct xs as [|x xs]; [|unfold left_over in Hf; cbn in Hf; lia].
    destruct b as [|c b].
    - cbn [send_loop]. rewrite get_run, Hpos. pose proof (objs_segs _ _ _ (out_objs _ _ _ _ _ Ho)) as H.
      apply Forall2_nil_inv_r in H as ->. apply looped_stop; [done|]. unfold pend. cbn. by rewrite drop_nil.
    - pose proof (pend_buffer _ _ _ _ _ Ho). unfold left_over, pend in Hf. cbn [concat] in Hf.
      rewrite app_nil_r, length_drop in Hf. lia. }
  (* What follows a round that wrote [x] and left the state [s1]. *)
  assert (forall x s1 b1 xs1, outs n s1 b1 (map Text xs1) -> pend s b xs = x ++ pend s1 b1 xs1 ->
    b <> [] \/ xs <> [] -> (length x + length xs > length xs1)%nat ->
    frame (heap s) (reply (cl s)) (heap s1) (reply (cl s1)) -> same_line (cl s) (cl s1) ->
    forall n1 tot1 k1 (stop : bool), (stop = true -> x <> []) ->
    looped n s b xs out ((if stop then mret (n1, tot1, out ++ x) else loop fuel k1 n1 tot1 (out ++ x)) s1)) as Hnext.
  { intros x s1 b1 xs1 O1 Ep Hne Hlt F1 L1 n1 tot1 k1 stop Hst. destruct stop.
    - exists n1, tot1, x, s1. split; [done|]. split; [|intros _ _; by apply Hst]. rewrite <- (app_nil_r x).
      eapply sent_trans; [done..|]. by apply sent_nil.
    - eapply looped_next; [done..|]. apply IH; [done|]. unfold left_over in *. rewrite Ep, length_app in Hf. lia. }
  cbn [send_loop]. rewrite get_run, Hpos. destruct b as [|c b].
  - destruct xs as [|x xs].
    { pose proof (objs_segs _ _ _ (out_objs _ _ _ _ _ Ho)) as H. apply Forall2_nil_inv_r in H as ->.
      apply looped_stop; [done|]. unfold pend. cbn. by rewrite drop_nil. }
    destruct (head_object _ _ _ _ Ho) as (l & ls & sd & r & El & Hl & Hr & _ & Hz & Hnz).
    rewrite El. cbn [length]. rewrite (proj2 (Z.ltb_ge 0 (Z.of_nat 0))), (proj2 (Z.ltb_lt 0 _)) by lia. cbn [orb].
    rewrite (lift_run _ l), (load_run _ _ _ _ Hl), (sds_run _ sd) by done.
    destruct (repr_sds _ _ Hr) as (_ & -> & u & ->).
    destruct (Z.eqb_spec (zlen x) 0) as [Ex|Ex].
    + rewrite put_run. destruct (pop_spec n s x xs l ls sd r (reply_bytes (cl s)) (to_close s) Ho El Hl) as (Hr0 & _ & O1 & F1 & L1);
        [by left|].
      rewrite (bind_run _ _ _ _ _ (decrRefCount_run (St _ _ _) l (PRaw sd) r Hl Hr0)). cbn [heap cl to_close].
      destruct x; [|done]. specialize (Hz Ex).
      replace (with_reply (cl s) (tail (l :: ls)))
        with (with_reply_bytes (with_sentlen (with_reply (cl s) ls) 0) (reply_bytes (cl s)))
        by (unfold with_reply_bytes, with_sentlen, with_reply; cbn; by rewrite Hz).
      replace (loop fuel k nw tot out) with (loop fuel k nw tot (out ++ [])) by (by rewrite app_nil_r).
      refine (Hnext [] _ [] xs O1 _ _ _ F1 L1 nw tot k false _); try done.
      * unfold pend. cbn. by rewrite Hz.
      * by right.
      * cbn. lia.
    + specialize (Hnz ltac:(lia)). rewrite (lift_run _ (drop (Z.to_nat (sentlen (cl s))) x)) by (apply rdn_drop; lia).
      set (y := drop _ x). assert (zlen y = zlen x - sentlen (cl s)) as Hy by (unfold y; rewrite length_drop; lia).
      destruct (Z.leb_spec (write k y) 0) as [Hw|Hw].
      { apply looped_stop; [done|]. intros Hready. exfalso. specialize (Hready k y).
        assert (y <> []) as Hyn by (intros E; rewrite E in Hy; change (zlen []) with 0 in Hy; lia).
        specialize (Hready Hyn). lia. }
      pose proof (write_bound k y) as Hwb. cbn [sentlen with_sentlen reply].
      assert (pend s [] (x :: xs) = take (Z.to_nat (write k y)) y ++
        drop (Z.to_nat (sentlen (cl s) + write k y)) (x ++ concat xs)) as Ep.
      { unfold pend. cbn [app concat]. rewrite (take_pend _ (Z.to_nat (write k y))) by lia. do 2 f_equal. lia. }
      assert (take (Z.to_nat (write k y)) y <> []) as Hne.
      { intros E. apply (f_equal length) in E. rewrite length_take in E. cbn in E. lia. }
      rewrite put_run. destruct (Z.eqb_spec (sentlen (cl s) + write k y) (zlen x)) as [Ef|Ef].
      * destruct (pop_spec n s x xs l ls sd r (reply_bytes (cl s) - zs sd) (to_close s) Ho El Hl) as (Hr0 & Hzs & O1 & F1 & L1);
          [by right|].
        rewrite bind_assoc, put_run. cbn [heap cl to_close].
        rewrite bind_assoc, (bind_run _ _ _ _ _ (decrRefCount_run (St _ _ _) l (PRaw sd) r Hl Hr0)). cbn [heap cl to_close].
        rewrite add_bytes_run. cbn [heap cl to_close].
        replace (with_reply_bytes _ _)
          with (with_reply_bytes (with_sentlen (with_reply (cl s) ls) 0) (reply_bytes (cl s) - zs sd)).
        2: { unfold with_reply_bytes, with_sentlen, with_reply. cbn. rewrite El. cbn. f_equal.
             pose proof (outs_reply_bytes _ _ _ _ Ho). pose proof (zs_bound sd). by rewrite wrap_small by (unfold in_u; lia). }
        refine (Hnext _ _ [] xs O1 _ _ _ F1 L1 _ _ _ _ _); [|by right|cbn; lia|done].
        rewrite Ep. f_equal. unfold pend. cbn [cl sentlen with_reply_bytes with_sentlen app].
        rewrite Ef, Nat2Z.id, drop_app_length. done.
      * rewrite ret_run. refine (Hnext _ _ [] (x :: xs) (advance_sent n s x xs (write k y) (to_close s) Ho Hw _) Ep _ _ _ _ _ _ _ _ _);
          [lia|by right|destruct (take _ y); [done|cbn; lia]|apply frame_refl|done|done].
  - pose proof (pend_buffer _ _ _ _ _ Ho) as Hsl. set (b0 := c :: b) in *.
    assert (0 < zlen b0) as Hb0 by (unfold b0; cbn; lia).
    rewrite (proj2 (Z.ltb_lt 0 (zlen b0))) by lia. cbn [orb]. rewrite Hbuf.
    rewrite (lift_run _ (drop (Z.to_nat (sentlen (cl s))) b0)) by (apply rdn_drop; lia).
    set (y := drop _ b0). assert (zlen y = zlen b0 - sentlen (cl s)) as Hy by (unfold y; rewrite length_drop; lia).
    destruct (Z.leb_spec (write k y) 0) as [Hw|Hw].
    { apply looped_stop; [done|]. intros Hready. exfalso. specialize (Hready k y).
      assert (y <> []) as Hyn by (intros E; rewrite E in Hy; change (zlen []) with 0 in Hy; lia).
      specialize (Hready Hyn). lia. }
    pose proof (write_bound k y) as Hwb.
    destruct (send_buffer n s b0 xs (write k y) Ho Hw) as (b1 & O1 & E1 & F1 & L1); [lia|].
    rewrite put_run.
    assert (take (Z.to_nat (write k y)) y <> []) as Hne.
    { intros E. apply (f_equal length) in E. rewrite length_take in E. cbn in E. lia. }
    refine (Hnext _ _ b1 xs O1 E1 _ _ F1 L1 _ _ _ _ _); [by left|fold y; rewrite length_take; lia|done].
Qed.

Lemma send_fuel_enough n s b xs : outs n s b (map Text xs) -> (left_over s b xs <= send_fuel s)%nat.
Proof.
  intros [_ Hp [Hs _] _ _ _ _]. unfold left_over, send_fuel, pend. rewrite length_drop, length_app, Hp, Nat2Z.id.
  assert (sum_list (map (text_length (heap s)) (reply (cl s))) = length (concat xs) /\ length (reply (cl s)) = length xs)
    as [-> ->]; [|lia].
  clear Hp. remember (map Text xs) as segs eqn:E. revert xs E.
  induction Hs as [|l g ls segs (o & Ho & Hg) _ IH]; intros [|x xs] E; try done.
  injection E as -> E. destruct (IH xs E) as [E1 E2]. destruct o as [p r], Hg as (sd & Hpd & Hr). cbn in Hpd. subst p.
  cbn [map concat length]. rewrite length_app.
  change (sum_list (text_length (heap s) l :: ?ls')) with (text_length (heap s) l + sum_list ls')%nat. rewrite E1.
  destruct (repr_sds _ _ Hr) as (_ & El & _). split; [|lia]. unfold text_length at 1. rewrite Ho, El. lia.
Qed.

Local Abbreviation send := (sendReplyToClient unixtime zs write relaxed eagain).

Lemma send_spec n s b xs :
  queue n s b (map Text xs) ->
  exists freed out s' b' xs', send s = Some (freed, out, s') /\
    queue n s' b' (map Text xs') /\ pend s b xs = out ++ pend s' b' xs' /\
    frame (heap s) (reply (cl s)) (heap s') (reply (cl s')) /\ replstate (cl s') = replstate (cl s) /\
    (ready -> pend s b xs <> [] -> out <> []).
Proof.
  intros (Ho & Ha & Hh). unfold sendReplyToClient. rewrite (bind_run _ _ _ (send_fuel s) s) by done.
  destruct (send_loop_spec n (send_fuel s) s b xs 0%nat 0 0 [] Ho (send_fuel_enough _ _ _ _ Ho))
    as (nw & tot & out & s1 & E & (b1 & xs1 & O1 & Ep & Hne & F1 & (L1 & L2 & L3 & L4)) & Hready).
  rewrite (bind_run _ _ _ _ _ E). cbn [app].
  assert (accepts (cl s1)) as A1 by (unfold accepts, has in *; by rewrite L1, L3).
  assert (b1 <> [] \/ xs1 <> [] -> handled (cl s1)) as H1.
  { intros Hn. unfold handled, has in *. rewrite L2, L3, L4. apply Hh. destruct (Hne Hn) as [?|Hx]; [by left|right].
    by destruct xs. }
  assert (b1 <> [] \/ map Text xs1 <> [] -> handled (cl s1)) as H1'.
  { intros [?|?]; apply H1; [by left|right]. by destruct xs1. }
  destruct ((nw =? -1) && _).
  { exists true, out, s1, b1, xs1. done. }
  rewrite get_run.
  set (c2 := if (0 <? tot) && negb (has (cl s1) REDIS_MASTER) then with_lastinteraction (cl s1) unixtime else cl s1).
  rewrite (bind_run _ _ _ tt (St (heap s1) c2 (to_close s1)))
    by (unfold c2; destruct (_ && _); [done|by destruct s1]).
  rewrite get_run. cbn [cl].
  assert (exists t w, c2 = with_writable (with_lastinteraction (cl s1) t) w /\ w = writable (cl s1)) as (t & w & Ec & Ew).
  { unfold c2. destruct (_ && _); [exists unixtime|exists (lastinteraction (cl s1))]; exists (writable (cl s1)); by destruct (cl s1). }
  clearbody c2. subst c2. destruct ((bufpos _ =? 0) && _) eqn:Eemp.
  - rewrite put_run. cbn in Eemp. apply andb_true_iff in Eemp as [Eb%Z.eqb_eq Er%Z.eqb_eq].
    rewrite (out_pos _ _ _ _ _ O1) in Eb. destruct b1; [|done].
    pose proof (objs_segs _ _ _ (out_objs _ _ _ _ _ O1)) as Hs. apply Forall2_length in Hs.
    destruct xs1; [|cbn in Hs, Er; rewrite length_map in Hs; lia].
    eexists _, out, _, [], []. split; [done|]. split; [|split; [|done]].
    + split; [destruct O1; split; try done; by left|]. split; [done|]. by intros [].
    + rewrite Ep. unfold pend. cbn [concat app]. by rewrite !drop_nil.
  - exists false, out. eexists _, b1, xs1. split; [done|]. split; [|done].
    split; [destruct O1; by split|]. split; [done|]. subst w. done.
Qed.

Lemma flat_texts b segs y : flat b segs = map B y -> exists xs, segs = map Text xs /\ y = b ++ concat xs.
Proof.
  assert (forall x rest y, map B x ++ rest = map B y -> exists y', y = x ++ y' /\ rest = map B y') as Hx.
  { induction x as [|c x IH]; intros rest [|d z] E; try done; [by exists []|by exists (d :: z)|].
    injection E as -> E. destruct (IH _ _ E) as (y' & -> & ->). by exists y'. }
  unfold flat. intros E. destruct (Hx _ _ _ E) as (y' & -> & E'). clear E.
  enough (exists xs, segs = map Text xs /\ y' = concat xs) as (xs & -> & ->) by (by exists xs).
  revert y' E'. induction segs as [|[x|k] segs IH]; intros y' E'; rewrite ?bind_cons in E'; cbn [items app] in E'.
  - exists []. by destruct y'.
  - destruct (Hx _ _ _ E') as (y2 & -> & E2). destruct (IH _ E2) as (xs & -> & ->). by exists (x :: xs).
  - by destruct y'.
Qed.

Lemma flat_map_text b xs : flat b (map Text xs) = map B (b ++ concat xs).
Proof.
  unfold flat. rewrite map_app. f_equal. induction xs as [|x xs IH]; [done|].
  cbn [map concat]. rewrite bind_cons, IH, map_app. done.
Qed.

(** A reply on a client without open lengths. *)
Lemma says_pend k P m x n s b xs :
  says k P m x -> queue (n + k) s b (map Text xs) -> 0 <= n -> P s ->
  exists s' b' xs', m s = Some (tt, s') /\ queue n s' b' (map Text xs') /\ pend s' b' xs' = pend s b xs ++ x /\
    frame (heap s) (reply (cl s)) (heap s') (reply (cl s')) /\ same_client (cl s) (cl s').
Proof.
  intros Hm Hq Hn Hs. destruct (Hm n s b _ Hq Hn Hs) as (s' & E & b' & segs' & Q' & Ef & F & C).
  rewrite flat_map_text, <- map_app in Ef. destruct (flat_texts _ _ _ Ef) as (xs' & -> & Ey).
  exists s', b', xs'. split; [done|]. split; [done|]. split; [|done]. unfold pend. rewrite <- Ey.
  destruct C as (_ & _ & -> & _). apply drop_app_le.
  destruct Hq as (Ho & _). pose proof (sent_len _ _ _ _ Ho). destruct (out_sent _ _ _ _ _ Ho) as [->|Hs']; [lia|].
  rewrite length_app. destruct b; [|cbn in *; lia]. destruct xs as [|y xs]; cbn in Hs' |- *; [lia|]. rewrite length_app. lia.
Qed.

Lemma says_deferred k P m x v :
  says k P m x -> 0 <= k -> stable P -> in_s 64 v ->
  says (k + 2) P (node ← add_deferred; _ ← m; set_deferred node v) (header 42 v ++ x).
Proof.
  intros Hm Hk HP Hv n s b segs Hq Hn Hs.
  destruct (add_deferred_spec (n + 1 + k) s b segs) as (l & s1 & E1 & b1 & g1 & Q1 & Ef1 & F1 & C1);
    [by replace (n + 1 + k + 1) with (n + (k + 2)) by lia|lia|].
  rewrite (bind_run _ _ _ _ _ E1).
  destruct (Hm (n + 1) s1 b1 g1 Q1) as (s2 & E2 & b2 & g2 & Q2 & Ef2 & F2 & C2); [lia|by eapply HP|].
  rewrite (bind_run _ _ _ _ _ E2).
  destruct (set_deferred_spec n s2 b2 g2 l v (flat b segs) (map B x) Q2 Hn Hv) as (s3 & E3 & b3 & g3 & Q3 & Ef3 & F3 & C3).
  { by rewrite Ef2, Ef1, <- app_assoc. }
  exists s3. split; [done|]. exists b3, g3. split; [done|]. split; [by rewrite Ef3, map_app|].
  split; [eapply frame_compose; [done|by eapply frame_compose]|]. eapply same_client_trans; [done|by eapply same_client_trans].
Qed.

(** ** The shared objects *)
Definition created {A} (n : Z) (m : M A) (s : st) (Q : A -> st -> Prop) : Prop :=
  exists a s', m s = Some (a, s') /\ queue n s' [] [] /\
    (frame (heap s) (reply (cl s)) (heap s') (reply (cl s')) /\ cl s' = cl s) /\ Q a s'.

Lemma created_bind {A C} n (m : M A) (k : A -> M C) s P Q :
  created n m s P ->
  (forall a s1, queue n s1 [] [] -> frame (heap s) (reply (cl s)) (heap s1) (reply (cl s1)) -> P a s1 ->
    created n (k a) s1 Q) ->
  created n (m ≫= k) s Q.
Proof.
  intros (a & s1 & E1 & Q1 & [F1 L1] & H1) Hk. destruct (Hk a s1 Q1 F1 H1) as (c & s2 & E2 & Q2 & [F2 L2] & H2).
  exists c, s2. rewrite (bind_run _ _ _ _ _ E1). split; [done|]. split; [done|]. split; [|done].
  split; [by eapply frame_compose|congruence].
Qed.

Lemma create_object_spec n s sd x : queue n s [] [] -> repr sd x ->
  created n (createObject sd) s (fun l s' => holds s' l x).
Proof.
  intros (Ho & Ha & Hh) Hr. destruct (alloc_spec _ _ _ _ (PRaw sd) Ho) as (O1 & Hk & F1 & _).
  eexists _, _. split; [done|]. split; [done|]. split; [done|]. left. by exists sd.
Qed.

Lemma create_text_spec n s x : queue n s [] [] -> Forall (fun c => c <> 0) x -> zlen x < 2 ^ 31 ->
  created n (create_text uninit (x ++ [0])) s (fun l s' => holds s' l x).
Proof.
  intros Hq Hz Hx. destruct (newlen_spec uninit x [0] Hx) as (sd & E & Hr).
  assert (sdsnew uninit (Some (x ++ [0])) = Some sd) as E' by (unfold sdsnew; by rewrite strlen_spec).
  destruct (create_object_spec n s sd x Hq Hr) as (l & s' & E2 & H). exists l, s'.
  unfold create_text. by rewrite (lift_run _ _ _ _ E').
Qed.

Lemma create_header_spec n s p j : queue n s [] [] -> in_s 64 j -> p <> 0 ->
  created n (create_header uninit p j) s (fun l s' => holds s' l (header p j)).
Proof.
  intros Hq Hj Hp. destruct (empty_spec uninit) as (s0 & E0 & R0). pose proof (header_length p j Hj).
  destruct (SdsText.catprintf_spec uninit s0 [] [p; 37; 100; 13; 10] (header p j) [] R0) as (sd & E1 & R1).
  { repeat constructor; done. }
  { constructor; [done|]. apply Forall_app. split; [apply Object.dec_nonzero|repeat constructor; done]. }
  { cbn [length]. lia. }
  destruct (create_object_spec n s sd (header p j) Hq R1) as (l & s' & E2 & H'). exists l, s'.
  unfold create_header. by rewrite (lift_run _ _ _ _ E0), (lift_run _ _ _ _ E1).
Qed.

(** The objects [ls] have the texts [f 0], [f 1] and so on. *)
Definition headers (f : Z -> list Z) (ls : list loc) (s : st) : Prop :=
  forall i, 0 <= i < zlen ls -> exists l, rd ls i = Some l /\ holds s l (f i).

Lemma headers_stable f ls : stable (headers f ls).
Proof.
  intros s s' H F i Hi. destruct (H i Hi) as (l & E & Hh). exists l. split; [done|]. by eapply holds_stable.
Qed.

Lemma headers_snoc f ls l s : headers f ls s -> holds s l (f (zlen ls)) -> headers f (ls ++ [l]) s.
Proof.
  intros H Hl i. rewrite length_app. cbn [length]. intros Hi.
  destruct (Z.eq_dec i (zlen ls)) as [->|Hne]; [exists l; split; [by apply rd_app|done]|].
  destruct (H i) as (l' & E & Hh); [lia|]. exists l'. split; [|done]. unfold rd in *.
  destruct (i <? 0); [done|]. by rewrite lookup_app_l by lia.
Qed.

Lemma create_headers_spec n k : forall s j mb bk,
  queue n s [] [] -> headers (header 42) mb s -> headers (header 36) bk s -> zlen mb = j -> zlen bk = j -> j + Z.of_nat k < 2 ^ 31 ->
  created n (create_headers uninit k j mb bk) s (fun '(mb', bk') s' =>
    headers (header 42) mb' s' /\ headers (header 36) bk' s' /\ zlen mb' = j + Z.of_nat k /\ zlen bk' = j + Z.of_nat k).
Proof.
  induction k as [|k IH]; intros s j mb bk Hq Hm Hb Lm Lb Hj; cbn [create_headers].
  - exists (mb, bk), s. split; [done|]. split; [done|]. split; [split; [apply frame_refl|done]|]. split_and!; [done|done|lia|lia].
  - eapply created_bind; [apply create_header_spec; [done|unfold in_s; lia|done]|]. intros l1 s1 Q1 F1 H1.
    eapply created_bind; [apply create_header_spec; [done|unfold in_s; lia|done]|]. intros l2 s2 Q2 F2 H2.
    destruct (IH s2 (j + 1) (mb ++ [l1]) (bk ++ [l2])) as ([mb' bk'] & s' & E & Q & F & R1 & R2 & R3 & R4).
    + done.
    + apply headers_snoc; [eapply headers_stable; [by eapply headers_stable|done]|]. rewrite Lm. exact (holds_stable _ _ _ _ H1 F2).
    + apply headers_snoc; [eapply headers_stable; [by eapply headers_stable|done]|]. by rewrite Lb.
    + rewrite length_app. cbn. lia.
    + rewrite length_app. cbn. lia.
    + lia.
    + exists (mb', bk'), s'. split; [done|]. split; [done|]. split; [done|]. split_and!; [done|done|lia|lia].
Qed.
End Specs.

Lemma create_shared_spec uninit zs n s :
  queue zs n s [] [] ->
  created zs n (createSharedObjects uninit) s (fun sh s' => shared_ok sh s').
Proof.
  intros Hq. unfold createSharedObjects.
  eapply created_bind; [apply (create_text_spec uninit zs n s [13; 10] Hq); [repeat constructor; done|done]|]. intros l1 s1 Q1 F1 H1.
  eapply created_bind; [apply (create_text_spec uninit zs n s1 [58; 48; 13; 10] Q1); [repeat constructor; done|done]|]. intros l2 s2 Q2 F2 H2.
  eapply created_bind; [apply (create_text_spec uninit zs n s2 [58; 49; 13; 10] Q2); [repeat constructor; done|done]|]. intros l3 s3 Q3 F3 H3.
  eapply created_bind; [apply (create_text_spec uninit zs n s3 [36; 45; 49; 13; 10] Q3); [repeat constructor; done|done]|]. intros l4 s4 Q4 F4 H4.
  eapply created_bind; [apply (create_headers_spec uninit zs n _ s4 0 [] [] Q4); try done; intros i Hi; cbn in Hi; lia|].
  intros [mb bk] s5 Q5 F5 (Hm & Hb & Lm & Lb). eexists _, s5. split; [done|]. split; [done|]. split; [split; [apply frame_refl|done]|].
  pose proof (frame_compose _ _ _ _ _ _ F4 F5) as G4. pose proof (frame_compose _ _ _ _ _ _ F3 G4) as G3.
  pose proof (frame_compose _ _ _ _ _ _ F2 G3) as G2.
  split; cbn [mbulkhdr bulkhdr crlf czero cone nullbulk].
  - intros i Hi. apply Hm. rewrite Lm. done.
  - intros i Hi. apply Hb. rewrite Lb. done.
  - exact (holds_stable _ _ _ _ H1 G2).
  - exact (holds_stable _ _ _ _ H2 G3).
  - exact (holds_stable _ _ _ _ H3 G4).
  - exact (holds_stable _ _ _ _ H4 F5).
Qed.

(** ** Replies of commands

    A reply is built by a sequence of calls; a multi bulk reply whose length
    is only known at the end encloses others. *)
Inductive call :=
  | CString (x r : list Z) | CObject (l : loc) | CError (x r : list Z) | CStatus (x r : list Z)
  | CLongLong (v : Z) | CMultiBulkLen (n : Z) | CBulk (l : loc) | CBulkCBuffer (x r : list Z)
  | CBulkCString (x r : list Z) | CNullBulk | CBulkLongLong (v : Z) | CDeferred (n : Z) (body : list call).

Section Calls.
Context (uninit : nat -> Z) (client_obuf_limits : Z -> limits) (list_item_size : Z) (zs : sdshdr -> Z).
Context (shared : shared_objects).
(** The objects that commands reply with, and the texts they stand for. *)
Context (db : gmap loc (list Z)).

Section At.
Context (now : Z).

Fixpoint perform (o : call) : M unit :=
  match o with
  | CString x r => addReplyString uninit now client_obuf_limits list_item_size zs true (x ++ r) (zlen x)
  | CObject l => addReply uninit now client_obuf_limits list_item_size zs true l
  | CError x r => addReplyError uninit now client_obuf_limits list_item_size zs true (x ++ 0 :: r)
  | CStatus x r => addReplyStatus uninit now client_obuf_limits list_item_size zs true (x ++ 0 :: r)
  | CLongLong v => addReplyLongLong uninit now client_obuf_limits list_item_size zs true shared v
  | CMultiBulkLen n => addReplyMultiBulkLen uninit now client_obuf_limits list_item_size zs true shared n
  | CBulk l => addReplyBulk uninit now client_obuf_limits list_item_size zs true shared l
  | CBulkCBuffer x r => addReplyBulkCBuffer uninit now client_obuf_limits list_item_size zs true shared (x ++ r) (zlen x)
  | CBulkCString x r => addReplyBulkCString uninit now client_obuf_limits list_item_size zs true shared (Some (x ++ 0 :: r))
  | CNullBulk => addReplyBulkCString uninit now client_obuf_limits list_item_size zs true shared None
  | CBulkLongLong v => addReplyBulkLongLong uninit now client_obuf_limits list_item_size zs true shared v
  | CDeferred n body =>
      node ← addDeferredMultiBulkLength true;
      _ ← (fix all l := match l with [] => mret tt | o :: l => _ ← perform o; all l end) body;
      setDeferredMultiBulkLength uninit now client_obuf_limits list_item_size zs node n
  end.
Definition perform_all : list call -> M unit :=
  fix all l := match l with [] => mret tt | o :: l => _ ← perform o; all l end.
End At.

(** What a client has to receive. *)
Fixpoint said (o : call) : list Z :=
  match o with
  | CString x _ => x
  | CObject l => default [] (db !! l)
  | CError x _ => [45; 69; 82; 82; 32] ++ x ++ CRLF
  | CStatus x _ => [43] ++ x ++ CRLF
  | CLongLong v => header 58 v
  | CMultiBulkLen n => header 42 n
  | CBulk l => bulk (default [] (db !! l))
  | CBulkCBuffer x _ | CBulkCString x _ => bulk x
  | CNullBulk => header 36 (-1)
  | CBulkLongLong v => bulk (dec v)
  | CDeferred n body => header 42 n ++ concat (map said body)
  end.

Definition small (x : list Z) : bool := zlen x <=? 2 ^ 29.
Definition in_ll (v : Z) : bool := (- 2 ^ 63 <=? v) && (v <? 2 ^ 63).
Definition nonzero (x : list Z) : bool := forallb (fun c => negb (c =? 0)) x.

Fixpoint call_ok (o : call) : bool :=
  match o with
  | CString x _ | CBulkCBuffer x _ => small x
  | CObject l | CBulk l => match db !! l with Some x => small x | None => false end
  | CError x _ | CStatus x _ | CBulkCString x _ => small x && nonzero x
  | CLongLong v | CBulkLongLong v => in_ll v
  | CMultiBulkLen n => (0 <=? n) && in_ll n
  | CNullBulk => true
  | CDeferred n body => in_ll n && forallb call_ok body
  end.

(** At most this many strings are added. *)
Fixpoint cost (o : call) : Z :=
  match o with CDeferred _ body => foldr (fun o n => cost o + n) 0 body + 2 | _ => 3 end.
Definition costs : list call -> Z := foldr (fun o n => cost o + n) 0.

Definition available (s : st) : Prop :=
  shared_ok shared s /\ forall l x, db !! l = Some x -> holds s l x.

Lemma available_stable : stable available.
Proof.
  intros s s' [Hs Hd] F. split; [by eapply shared_stable|]. intros l x E. eapply holds_stable; [by apply Hd|done].
Qed.

Hypothesis zs_bound : forall s, 0 <= zs s < 2 ^ 33.

Lemma cost_pos : forall o, 2 <= cost o.
Proof.
  fix cost_pos 1. intros [| | | | | | | | | | | n body]; cbn [cost]; try lia.
  assert (0 <= foldr (fun o n => cost o + n) 0 body); [|lia].
  induction body as [|o body IH]; cbn [foldr]; [lia|]. pose proof (cost_pos o). lia.
Qed.

Lemma costs_pos body : 0 <= costs body.
Proof. unfold costs. induction body as [|o body IH]; cbn [foldr]; [lia|]. pose proof (cost_pos o). lia. Qed.

Lemma in_ll_spec v : in_ll v = true -> in_s 64 v.
Proof. unfold in_ll, in_s. intros [H1 H2]%andb_true_iff. change (2 ^ (64 - 1)) with (2 ^ 63). lia. Qed.

Lemma small_spec x : small x = true -> zlen x <= 2 ^ 29.
Proof. apply Z.leb_le. Qed.

Lemma nonzero_spec x : nonzero x = true -> Forall (fun c => c <> 0) x.
Proof.
  unfold nonzero. intros H. apply Forall_forall. intros c Hc. rewrite forallb_forall in H.
  specialize (H c ltac:(by apply list_elem_of_In)). by apply negb_true_iff, Z.eqb_neq in H.
Qed.

(** A call whose text is added by at most three strings. *)
Lemma says_call k P m x : says zs k P m x -> 0 <= k <= 3 -> (forall s, available s -> P s) -> says zs 3 available m x.
Proof. intros H Hk HP. by eapply says_mono. Qed.

Lemma perform_says now : forall o, call_ok o = true -> says zs (cost o) available (perform now o) (said o).
Proof.
  assert (forall s, available s -> shared_ok shared s) as Hsh by (by intros s [H _]).
  fix perform_says 1. intros [x r|l|x r|x r|v|v|l|x r|x r| |v|v body] Hok; cbn [call_ok] in Hok; cbn [cost said perform].
  - apply (says_call 1 (fun _ => True)); [apply says_string; [done|by apply small_spec]|done..].
  - destruct (db !! l) as [x|] eqn:E; [|done]. apply (says_call 1 available); [|done..].
    apply says_object; [done|by apply small_spec|]. intros s [_ H]. by apply H.
  - apply andb_true_iff in Hok as [Hx%small_spec Hz%nonzero_spec]. by apply says_error; [|apply available_stable|..].
  - apply andb_true_iff in Hok as [Hx%small_spec Hz%nonzero_spec]. by apply says_status; [|apply available_stable|..].
  - eapply says_call; [apply says_longlong; [done|by apply in_ll_spec]|done..].
  - apply andb_true_iff in Hok as [Hv%Z.leb_le Hl%in_ll_spec]. eapply says_call; [apply says_multilen; [done|]|done..].
    unfold in_s in Hl. change (2 ^ (64 - 1)) with (2 ^ 63) in Hl. lia.
  - destruct (db !! l) as [x|] eqn:E; [|done]. eapply says_call; [apply says_bulk; [done|by apply small_spec]|done|].
    intros s [Hs H]. split; [done|]. by apply H.
  - eapply says_call; [apply says_cbuffer; [done|by apply small_spec]|done..].
  - apply andb_true_iff in Hok as [Hx%small_spec Hz%nonzero_spec]. eapply says_call; [by apply says_cstring|done..].
  - eapply says_call; [by apply says_null|done..].
  - eapply says_call; [apply says_bulk_ll; [done|by apply in_ll_spec]|done..].
  - apply andb_true_iff in Hok as [Hv%in_ll_spec Hb].
    apply says_deferred; [done| |apply costs_pos|apply available_stable|done].
    induction body as [|o body IH]; cbn [foldr map concat].
    + intros n s b segs Hq Hn _. exists s. split; [done|]. exists b, segs. rewrite Z.add_0_r in Hq. split; [done|].
      split; [by rewrite app_nil_r|]. split; [apply frame_refl|done].
    + cbn [forallb] in Hb. apply andb_true_iff in Hb as [Ho Hb].
      apply says_bind; [by apply perform_says|by apply IH|apply available_stable|apply costs_pos].
Qed.

(** ** The life of a connection

    Commands reply and the socket becomes writable, in any order. The flag of
    the result is [true] when the client was freed. *)
Inductive event :=
  | Replies (now : Z) (o : call)
  | Writable (now : Z) (write : nat -> list Z -> Z) (relaxed : Z -> bool) (eagain : bool).

Fixpoint run (es : list event) : M (bool * list Z) :=
  match es with
  | [] => mret (false, [])
  | Replies now o :: es => _ ← perform now o; run es
  | Writable now write relaxed eagain :: es =>
      '(freed, out) ← sendReplyToClient now zs write relaxed eagain;
      if freed : bool then mret (true, out)
      else '(freed, more) ← run es; mret (freed, out ++ more)
  end.

Definition event_ok (e : event) : Prop :=
  match e with Replies _ o => call_ok o = true | Writable _ write _ _ => forall k x, write k x <= zlen x end.
Definition event_cost (e : event) : Z := match e with Replies _ o => cost o | Writable _ _ _ _ => 0 end.
Definition event_text (e : event) : list Z := match e with Replies _ o => said o | Writable _ _ _ _ => [] end.
Definition event_costs : list event -> Z := foldr (fun e n => event_cost e + n) 0.

Lemma event_costs_pos es : 0 <= event_costs es.
Proof.
  unfold event_costs. induction es as [|[? o|] es IH]; cbn [foldr event_cost]; try lia. pose proof (cost_pos o). lia.
Qed.

Lemma run_spec es : forall n s b xs,
  Forall event_ok es -> queue zs (n + event_costs es) s b (map Text xs) -> 0 <= n -> available s ->
  exists freed out s' b' xs' rest, run es s = Some (freed, out, s') /\ queue zs n s' b' (map Text xs') /\
    pend s b xs ++ concat (map event_text es) = out ++ rest /\
    (freed = false -> rest = pend s' b' xs') /\ available s'.
Proof.
  induction es as [|[now o|now write relaxed eagain] es IH]; intros n s b xs Hok Hq Hn Hav.
  - exists false, [], s, b, xs, (pend s b xs). cbn. rewrite app_nil_r. cbn [event_costs foldr] in Hq. rewrite Z.add_0_r in Hq. done.
  - apply Forall_cons in Hok as [Ho Hok]. cbn [event_costs foldr event_cost run map event_text concat] in *.
    pose proof (event_costs_pos es) as Hpos. change (foldr _ 0 es) with (event_costs es) in Hq.
    destruct (says_pend zs (cost o) available (perform now o) (said o) (n + event_costs es) s b xs)
      as (s1 & b1 & xs1 & E1 & Q1 & P1 & F1 & _); [by apply perform_says|by rewrite <- Z.add_assoc, (Z.add_comm (event_costs es))|lia|done|].
    destruct (IH n s1 b1 xs1 Hok Q1 Hn) as (freed & out & s' & b' & xs' & rest & E & Q & P & Hr & Hav');
      [by eapply available_stable|].
    exists freed, out, s', b', xs', rest. rewrite (bind_run _ _ _ _ _ E1). split; [done|]. split; [done|].
    split; [|done]. by rewrite <- P, P1, <- app_assoc.
  - apply Forall_cons in Hok as [Ho Hok]. cbn [event_costs foldr event_cost run map event_text concat] in *.
    change (foldr _ 0 es) with (event_costs es) in Hq. rewrite Z.add_0_l in Hq. cbn [app].
    destruct (send_spec now zs zs_bound write relaxed eagain Ho _ _ _ _ Hq) as (fr & out & s1 & b1 & xs1 & E1 & Q1 & P1 & F1 & _).
    assert (available s1) as Hav1 by (by eapply available_stable). rewrite (bind_run _ _ _ _ _ E1). destruct fr.
    + exists true, out, s1, b1, xs1, (pend s1 b1 xs1 ++ concat (map event_text es)).
      split; [done|]. split; [eapply queue_le; [done|pose proof (event_costs_pos es); lia]|].
      split; [by rewrite P1, <- app_assoc|]. done.
    + destruct (IH n s1 b1 xs1 Hok Q1 Hn Hav1) as (freed & more & s' & b' & xs' & rest & E & Q & P & Hr & Hav').
      exists freed, (out ++ more), s', b', xs', rest. rewrite (bind_run _ _ _ _ _ E). split; [done|]. split; [done|].
      split; [by rewrite P1, <- !app_assoc, P|done].
Qed.

Lemma drain_spec es : forall n s b xs,
  Forall (fun e => match e with Replies _ _ => False | Writable _ w _ _ => (forall k x, w k x <= zlen x) /\ ready w end) es ->
  queue zs n s b (map Text xs) -> (length (pend s b xs) <= length es)%nat ->
  exists freed out s', run es s = Some (freed, out, s') /\ (freed = false -> out = pend s b xs).
Proof.
  induction es as [|[now o|now write relaxed eagain] es IH]; intros n s b xs Hok Hq Hl.
  - exists false, [], s. split; [done|]. intros _. destruct (pend s b xs); [done|cbn in Hl; lia].
  - by apply Forall_cons in Hok as [[] _].
  - apply Forall_cons in Hok as [[Hb Hw] Hok]. cbn [run].
    destruct (send_spec now zs zs_bound write relaxed eagain Hb _ _ _ _ Hq) as (fr & out & s1 & b1 & xs1 & E1 & Q1 & P1 & F1 & _ & Hr).
    rewrite (bind_run _ _ _ _ _ E1). destruct fr; [by eexists _, _, _|].
    destruct (IH n s1 b1 xs1 Hok Q1) as (freed & more & s2 & E2 & H2).
    + rewrite P1, length_app in Hl. cbn [length] in Hl. destruct out as [|c out]; [|cbn [length] in Hl; lia].
      destruct (pend s b xs) eqn:Ep; [|by exfalso; apply Hr]. cbn [app] in P1. rewrite <- P1. cbn. lia.
    + rewrite (bind_run _ _ _ _ _ E2). eexists _, _, _. split; [done|]. intros Hf. by rewrite H2, P1.
Qed.
End Calls.

(** A client that was just connected. *)
Definition new_client (fd : Z) (buf : list Z) : client := Client 0 fd REDIS_REPL_NONE buf 0 0 [] 0 0 0 false.

Lemma objs_nil : objs ∅ [] [].
Proof. split; [constructor|]. intros l o H. by rewrite lookup_empty in H. Qed.

Lemma new_client_queue zs n fd buf tc : 0 < fd -> zlen buf = REDIS_REPLY_CHUNK_BYTES -> 0 <= n <= 2 ^ 24 ->
  queue zs n (St ∅ (new_client fd buf) tc) [] [].
Proof.
  intros Hfd Hb Hn. split; [|split; [|by intros []]].
  - split; cbn; [by exists buf|done|apply objs_nil|done|lia|done|by left].
  - split; [done|]. right. done.
Qed.

(** C14: every reply of a connection arrives: however the calls that reply and
    the moments when the socket can be written are interleaved, and however
    many bytes each [write] takes, the bytes sent so far followed by the
    bytes that are still kept (in the buffer, in shared or own objects) are
    the replies in their order, with the lengths that were set afterwards in
    their places. When something is kept the write handler is installed. *)
Theorem connection_sends_replies uninit client_obuf_limits list_item_size zs shared db es n s b xs :
  (forall t, 0 <= zs t < 2 ^ 33) -> Forall (event_ok db) es ->
  queue zs (n + event_costs es) s b (map Text xs) -> 0 <= n -> available shared db s ->
  exists freed out s' b' xs' rest,
    run uninit client_obuf_limits list_item_size zs shared es s = Some (freed, out, s') /\
    queue zs n s' b' (map Text xs') /\
    pend s b xs ++ concat (map (event_text db) es) = out ++ rest /\
    (freed = false -> rest = pend s' b' xs').
Proof.
  intros Hz Hok Hq Hn Hav.
  destruct (run_spec uninit client_obuf_limits list_item_size zs shared db Hz es n s b xs Hok Hq Hn Hav)
    as (freed & out & s' & b' & xs' & rest & E & Q & P & Hr & _).
  by exists freed, out, s', b', xs', rest.
Qed.

(** pending replies are delivered: when each [write] takes at least one
    byte, as many writable events as there are bytes send all of them, unless
    the client is freed. *)
Theorem connection_drains uninit client_obuf_limits list_item_size zs shared es n s b xs :
  (forall t, 0 <= zs t < 2 ^ 33) ->
  Forall (fun e => match e with
                   | Replies _ _ => False
                   | Writable _ write _ _ => (forall k x, write k x <= zlen x) /\ ready write
                   end) es ->
  queue zs n s b (map Text xs) -> (length (pend s b xs) <= length es)%nat ->
  exists freed out s',
    run uninit client_obuf_limits list_item_size zs shared es s = Some (freed, out, s') /\
    (freed = false -> out = pend s b xs).
Proof. intros Hz Hok Hq Hl. by apply (drain_spec uninit client_obuf_limits list_item_size zs shared Hz es n s b xs). Qed.

(** The objects shared by all replies are those the replies expect, for a
    client that was just connected. *)
Theorem shared_objects_ready uninit zs n s :
  queue zs n s [] [] ->
  exists sh s', createSharedObjects uninit s = Some (sh, s') /\ shared_ok sh s' /\ queue zs n s' [] [].
Proof.
  intros Hq. destruct (create_shared_spec uninit zs n s Hq) as (sh & s' & E & Q & _ & H).
  exists sh, s'. split; [exact E|]. split; [exact H|exact Q].
Qed.

(** A small connection, with a buffer of eight bytes. *)
Definition example_limits (_ : Z) : limits := Limits 0 0 0.
Definition example_calls : list event :=
  [Replies 1 (CDeferred 2 [CLongLong 0; CBulkCBuffer [97; 98; 99] []]); Writable 2 (fun _ x => Z.min 9 (zlen x)) (fun _ => false) false;
   Replies 3 (CStatus [79; 75] [])].

Example small_buffer_example :
  (sh ← createSharedObjects (fun _ => 0);
   '(_, out) ← run (fun _ => 0) example_limits 40 (fun _ => 64) sh
     (example_calls ++ [Writable 4 (fun _ x => zlen x) (fun _ => false) false]);
   mret out) (St ∅ (new_client 5 (replicate 8 0)) 0) ≫= (fun '(out, s) => Some (out, reply (cl s), writable (cl s)))
  = Some ([42; 50; 13; 10; 58; 48; 13; 10; 36; 51; 13; 10; 97; 98; 99; 13; 10; 43; 79; 75; 13; 10], [], false).
Proof. vm_compute. reflexivity. Qed.

Lemma example_queue n : 0 <= n <= 2 ^ 24 -> queue (fun _ => 64) n (St ∅ (new_client 5 (replicate (Z.to_nat 16384) 0)) 0) [] [].
Proof.
  intros Hn. apply new_client_queue; [lia| |done]. rewrite length_replicate. vm_compute. reflexivity.
Qed.

Lemma example_ok : Forall (event_ok ∅) example_calls.
Proof.
  constructor; [done|]. constructor; [intros k x; cbn; lia|]. constructor; [done|constructor].
Qed.

Lemma example_available (uninit : nat -> Z) n :
  0 <= n <= 2 ^ 24 ->
  exists sh s, createSharedObjects uninit (St ∅ (new_client 5 (replicate (Z.to_nat 16384) 0)) 0) = Some (sh, s) /\
    queue (fun _ => 64) n s [] [] /\ available sh ∅ s.
Proof.
  intros Hn. destruct (create_shared_spec uninit (fun _ => 64) n (St ∅ (new_client 5 (replicate (Z.to_nat 16384) 0)) 0))
    as (sh & s & E & Q & _ & H); [by apply example_queue|].
  exists sh, s. split; [exact E|]. split; [exact Q|]. split; [exact H|]. intros l x Hx. by rewrite lookup_empty in Hx.
Qed.

Lemma connection_sends_replies_witness :
  exists sh s, createSharedObjects (fun _ => 0) (St ∅ (new_client 5 (replicate (Z.to_nat 16384) 0)) 0) = Some (sh, s) /\
  exists freed out s' b' xs' rest,
    run (fun _ => 0) example_limits 40 (fun _ => 64) sh example_calls s = Some (freed, out, s') /\
    queue (fun _ => 64) 0 s' b' (map Text xs') /\
    pend s [] [] ++ concat (map (event_text ∅) example_calls) = out ++ rest /\
    (freed = false -> rest = pend s' b' xs').
Proof.
  destruct (example_available (fun _ => 0) (0 + event_costs example_calls)) as (sh & s & E & Q & H); [done|].
  exists sh, s. split; [exact E|].
  exact (connection_sends_replies (fun _ => 0) example_limits 40 (fun _ => 64) sh ∅ example_calls 0 s [] []
    ltac:(lia) example_ok Q ltac:(lia) H).
Defined.

Lemma connection_drains_witness :
  let s := St ∅ (with_writable (with_buf (new_client 5 []) (58 :: 49 :: 13 :: 10 :: replicate (Z.to_nat 16380) 0) 4) true) 0 in
  queue (fun _ => 64) 0 s [58; 49; 13; 10] [] /\
  exists freed out s',
    run (fun _ => 0) example_limits 40 (fun _ => 64) (Shared [] [] 1 1 1 1)%positive
      (replicate 4 (Writable 1 (fun _ x => Z.min 1 (zlen x)) (fun _ => false) false)) s = Some (freed, out, s') /\
    (freed = false -> out = pend s [58; 49; 13; 10] []).
Proof.
  intros s. assert (queue (fun _ => 64) 0 s [58; 49; 13; 10] []) as Hq.
  { split; [|split; [split; [done|right; done]|done]].
    split; [|done|apply objs_nil|done|cbn; lia|by constructor|by left].
    exists (replicate (Z.to_nat 16380) 0). split; [reflexivity|]. rewrite length_app, length_replicate. vm_compute. reflexivity. }
  split; [exact Hq|].
  refine (connection_drains (fun _ => 0) example_limits 40 (fun _ => 64) _ _ 0 s [58; 49; 13; 10] [] ltac:(lia) _ Hq _).
  - repeat constructor; cbn; try (intros; lia); intros k [|c x] Hx; cbn; lia || done.
  - vm_compute. lia.
Defined.

Lemma shared_objects_ready_witness :
  queue (fun _ => 64) 8 (St ∅ (new_client 5 (replicate (Z.to_nat 16384) 0)) 0) [] [] /\
  exists sh s', createSharedObjects (fun _ => 0) (St ∅ (new_client 5 (replicate (Z.to_nat 16384) 0)) 0) = Some (sh, s') /\
    shared_ok sh s' /\ queue (fun _ => 64) 8 s' [] [].
Proof.
  assert (queue (fun _ => 64) 8 (St ∅ (new_client 5 (replicate (Z.to_nat 16384) 0)) 0) [] []) as Hq by (apply example_queue; lia).
  split; [exact Hq|]. exact (shared_objects_ready (fun _ => 0) (fun _ => 64) 8 _ Hq).
Defined.

End Reply.
