(* ===== verification/Replication.v ===== *)
(** * Replication: the master's side (src/redis-2.8/src/replication.c)

    The master keeps the last bytes of the stream it sends to its slaves in a
    circular buffer, the backlog, so that a slave that was disconnected for a
    short time can continue. The clients of the server share the heap of
    [Reply]; the output functions run on one of them. *)
From stdpp Require Import base tactics list numbers option gmap fin_maps.
From Stdlib Require Import ZArith Lia.
From S2P Require Import Prelude Util Sds SdsText Object Request Reply.
Import CInt CMem Bytes StateM Util Sds Reply.
Open Scope redis_scope.
Open Scope Z_scope.

Module Replication.

Definition REDIS_REPL_BACKLOG_MIN_SIZE : Z := 1024 * 16.
Definition REDIS_SHARED_SELECT_CMDS : Z := 10.
Definition REDIS_LONGSTR_SIZE : Z := 21.
Definition REDIS_REPL_WAIT_BGSAVE_START : Z := 6.

Record server := Server {
  world : gmap loc obj; clients : list client; closing : nat; slaves : list nat;
  repl_backlog : option (list Z); repl_backlog_size : Z; repl_backlog_histlen : Z;
  repl_backlog_idx : Z; repl_backlog_off : Z; master_repl_offset : Z; slaveseldb : Z }.

Definition with_backlog sv b h i o m := Server (world sv) (clients sv) (closing sv) (slaves sv)
  b (repl_backlog_size sv) h i o m (slaveseldb sv).
Definition with_backlog_size sv n := Server (world sv) (clients sv) (closing sv) (slaves sv)
  (repl_backlog sv) n (repl_backlog_histlen sv) (repl_backlog_idx sv) (repl_backlog_off sv)
  (master_repl_offset sv) (slaveseldb sv).
Definition with_world sv h cs n := Server h cs n (slaves sv)
  (repl_backlog sv) (repl_backlog_size sv) (repl_backlog_histlen sv) (repl_backlog_idx sv) (repl_backlog_off sv)
  (master_repl_offset sv) (slaveseldb sv).
Definition with_slaves sv l := Server (world sv) (clients sv) (closing sv) l
  (repl_backlog sv) (repl_backlog_size sv) (repl_backlog_histlen sv) (repl_backlog_idx sv) (repl_backlog_off sv)
  (master_repl_offset sv) (slaveseldb sv).
Definition with_seldb sv d := Server (world sv) (clients sv) (closing sv) (slaves sv)
  (repl_backlog sv) (repl_backlog_size sv) (repl_backlog_histlen sv) (repl_backlog_idx sv) (repl_backlog_off sv)
  (master_repl_offset sv) d.

Abbreviation R := (StateM.M server).

Definition ask : R server := fun sv => Some (sv, sv).
Definition set (sv : server) : R unit := fun _ => Some (tt, sv).

(** An operation on the output of a client. *)
Definition on_client {A} (i : nat) (m : Reply.M A) : R A := fun sv =>
  c ← clients sv !! i;
  '(x, s) ← m (St (world sv) c (closing sv));
  Some (x, with_world sv (heap s) (<[i := cl s]> (clients sv)) (to_close s)).

(** An operation on the heap alone. *)
Definition nobody : client := Client 0 0 0 [] 0 0 [] 0 0 0 false.
Definition on_heap {A} (m : Reply.M A) : R A := fun sv =>
  '(x, s) ← m (St (world sv) nobody (closing sv));
  Some (x, with_world sv (heap s) (clients sv) (closing sv)).

Section Master.
Context (uninit : nat -> Z).

(** ** The backlog *)
Definition createReplicationBacklog : R unit :=
  sv ← ask;
  match repl_backlog sv with
  | Some _ => fail
  | None =>
      let off := int64 (master_repl_offset sv + 1) in
      set (with_backlog sv (Some (realloc uninit (repl_backlog_size sv) [])) 0 0 (int64 (off + 1)) off)
  end.

Definition resizeReplicationBacklog (newsize : Z) : R unit :=
  sv ← ask;
  let newsize := if newsize <? REDIS_REPL_BACKLOG_MIN_SIZE then REDIS_REPL_BACKLOG_MIN_SIZE else newsize in
  if repl_backlog_size sv =? newsize then mret tt
  else
    let sv := with_backlog_size sv newsize in
    match repl_backlog sv with
    | None => set sv
    | Some _ =>
        set (with_backlog sv (Some (realloc uninit newsize [])) 0 0 (int64 (master_repl_offset sv + 1))
               (master_repl_offset sv))
    end.

Definition freeReplicationBacklog : R unit :=
  sv ← ask;
  match slaves sv with
  | _ :: _ => fail
  | [] => set (with_backlog sv None (repl_backlog_histlen sv) (repl_backlog_idx sv) (repl_backlog_off sv)
                 (master_repl_offset sv))
  end.

(** The loop writes at least a byte per round. *)
Fixpoint feed_loop (fuel : nat) (p : list Z) (len : Z) : R unit :=
  match fuel with
  | O => fail
  | S fuel =>
      if len =? 0 then mret tt
      else
        sv ← ask;
        let avail := uint64 (repl_backlog_size sv - repl_backlog_idx sv) in
        let thislen := if len <? avail then len else avail in
        b ← lift (repl_backlog sv);
        x ← lift (rdn p 0 thislen);
        b ← lift (wrn b (repl_backlog_idx sv) x);
        let idx := int64 (repl_backlog_idx sv + thislen) in
        let idx := if idx =? repl_backlog_size sv then 0 else idx in
        _ ← set (with_backlog sv (Some b) (int64 (repl_backlog_histlen sv + thislen)) idx (repl_backlog_off sv)
                   (master_repl_offset sv));
        feed_loop fuel (drop (Z.to_nat thislen) p) (len - thislen)
  end.

Definition feedReplicationBacklog (p : list Z) (len : Z) : R unit :=
  sv ← ask;
  _ ← set (with_backlog sv (repl_backlog sv) (repl_backlog_histlen sv) (repl_backlog_idx sv) (repl_backlog_off sv)
             (int64 (master_repl_offset sv + len)));
  _ ← feed_loop (S (Z.to_nat len)) p len;
  sv ← ask;
  let histlen := if repl_backlog_size sv <? repl_backlog_histlen sv then repl_backlog_size sv
                 else repl_backlog_histlen sv in
  set (with_backlog sv (repl_backlog sv) histlen (repl_backlog_idx sv)
         (int64 (int64 (master_repl_offset sv - histlen) + 1)) (master_repl_offset sv)).

Definition feedReplicationBacklogWithObject (o : loc) : R unit :=
  v ← on_heap (load o);
  match ptr v with
  | PInt n => '(b, len) ← lift (ll2string (realloc uninit REDIS_LONGSTR_SIZE []) REDIS_LONGSTR_SIZE n);
              feedReplicationBacklog b len
  | PRaw s => feedReplicationBacklog (buf s) (sdslen s)
  | PNull => fail
  end.

(** ** Feeding the slaves *)
Context (unixtime : Z) (client_obuf_limits : Z -> limits) (list_item_size : Z) (zs : sdshdr -> Z).
Context (shared : shared_objects) (select : list loc).

Definition stringObjectLen (o : loc) : R Z :=
  v ← on_heap (load o);
  match ptr v with
  | PRaw s => mret (sdslen s)
  | PInt n => '(_, len) ← lift (ll2string (realloc uninit 32 []) 32 n); mret len
  | PNull => fail
  end.

(** [SELECT dictid] as a request. *)
Definition select_text (dictid : Z) : list Z :=
  [42; 50; 13; 10; 36; 54; 13; 10; 83; 69; 76; 69; 67; 84; 13; 10; 36] ++
  dec (zlen (dec dictid)) ++ [13; 10] ++ dec dictid ++ [13; 10].

Definition select_format : list Z :=
  [42; 50; 13; 10; 36; 54; 13; 10; 83; 69; 76; 69; 67; 84; 13; 10; 36; 37; 100; 13; 10; 37; 115; 13; 10; 0].

(** A new object with it; [ll2string] writes to [size] bytes. *)
Definition create_select (size dictid : Z) : Reply.M loc :=
  '(b, len) ← lift (ll2string (realloc uninit size []) size dictid);
  s ← lift (sdsempty uninit);
  s ← lift (SdsText.sdscatprintf uninit s select_format (select_text dictid));
  createObject s.

(** The shared objects of the first databases. *)
Fixpoint create_selects (n : nat) (j : Z) (ls : list loc) : Reply.M (list loc) :=
  match n with
  | O => mret ls
  | S n => l ← create_select 64 j; create_selects n (j + 1) (ls ++ [l])
  end.

Definition selectcmd (dictid : Z) : R loc :=
  if (0 <=? dictid) && (dictid <? REDIS_SHARED_SELECT_CMDS) then lift (rd select dictid)
  else on_heap (create_select REDIS_LONGSTR_SIZE dictid).

(** [aux] with [prefix], a number and the end of the line. *)
Definition aux_line (prefix n : Z) : option (list Z * Z) :=
  let aux := realloc uninit (REDIS_LONGSTR_SIZE + 3) [] in
  aux ← wr aux 0 prefix;
  '(tl, len) ← ll2string (drop 1 aux) (REDIS_LONGSTR_SIZE + 2) n;
  aux ← wrn (take 1 aux ++ tl) (len + 1) [13; 10];
  Some (aux, len).

Fixpoint feed_args (argv : list loc) : R unit :=
  match argv with
  | [] => mret tt
  | a :: argv =>
      objlen ← stringObjectLen a;
      '(aux, len) ← lift (aux_line 36 objlen);
      _ ← feedReplicationBacklog aux (len + 3);
      _ ← feedReplicationBacklogWithObject a;
      _ ← feedReplicationBacklog (drop (Z.to_nat (len + 1)) aux) 2;
      feed_args argv
  end.

Fixpoint each_slave (ls : list nat) (m : nat -> R unit) : R unit :=
  match ls with [] => mret tt | i :: ls => _ ← m i; each_slave ls m end.

Fixpoint reply_bulks (argv : list loc) : Reply.M unit :=
  match argv with
  | [] => mret tt
  | a :: argv =>
      _ ← addReplyBulk uninit unixtime client_obuf_limits list_item_size zs true shared a; reply_bulks argv
  end.

Definition feed_slave (argv : list loc) (i : nat) : R unit :=
  sv ← ask;
  c ← lift (clients sv !! i);
  if replstate c =? REDIS_REPL_WAIT_BGSAVE_START then mret tt
  else
    on_client i (_ ← addReplyMultiBulkLen uninit unixtime client_obuf_limits list_item_size zs true shared (zlen argv);
                 reply_bulks argv).

Definition feed_select (ls : list nat) (dictid : Z) : R unit :=
  cmd ← selectcmd dictid;
  sv ← ask;
  _ ← match repl_backlog sv with Some _ => feedReplicationBacklogWithObject cmd | None => mret tt end;
  _ ← each_slave ls (fun i => on_client i (addReply uninit unixtime client_obuf_limits list_item_size zs true cmd));
  if (dictid <? 0) || (REDIS_SHARED_SELECT_CMDS <=? dictid) then on_heap (decrRefCount cmd) else mret tt.

Definition replicationFeedSlaves (ls : list nat) (dictid : Z) (argv : list loc) : R unit :=
  sv ← ask;
  match repl_backlog sv, ls with
  | None, [] => mret tt
  | None, _ :: _ => fail
  | Some _, _ =>
      _ ← (if negb (slaveseldb sv =? dictid) then feed_select ls dictid else mret tt);
      sv ← ask;
      _ ← set (with_seldb sv dictid);
      '(aux, len) ← lift (aux_line 42 (zlen argv));
      _ ← feedReplicationBacklog aux (len + 3);
      _ ← feed_args argv;
      each_slave ls (feed_slave argv)
  end.

(** ** Continuing a slave *)
Fixpoint send_backlog (fuel : nat) (i : nat) (j len : Z) : R unit :=
  if len =? 0 then mret tt
  else
    match fuel with
    | O => fail
    | S fuel =>
        sv ← ask;
        let thislen := if repl_backlog_size sv - j <? len then repl_backlog_size sv - j else len in
        b ← lift (repl_backlog sv);
        s ← lift (sdsnewlen uninit (Some (drop (Z.to_nat j) b)) thislen);
        _ ← on_client i (addReplySds uninit unixtime client_obuf_limits list_item_size zs true s);
        send_backlog fuel i 0 (len - thislen)
    end.

(** The data crosses the end of the buffer at most once: two rounds. *)
Definition addReplyReplicationBacklog (i : nat) (offset : Z) : R Z :=
  sv ← ask;
  if repl_backlog_histlen sv =? 0 then mret 0
  else
    let skip := offset - repl_backlog_off sv in
    let j := Z.rem (repl_backlog_idx sv + (repl_backlog_size sv - repl_backlog_histlen sv)) (repl_backlog_size sv) in
    let j := Z.rem (j + skip) (repl_backlog_size sv) in
    let len := repl_backlog_histlen sv - skip in
    _ ← send_backlog 2 i j len;
    mret (repl_backlog_histlen sv - skip).

(** [strcasecmp(a,b) == 0] *)
Fixpoint strcaseeq (a b : list Z) : option bool :=
  match a, b with
  | x :: a, y :: b =>
      if tolower x =? tolower y then if x =? 0 then Some true else strcaseeq a b else Some false
  | _, _ => None
  end.

(** An object of [Reply] as one of [Object]. *)
Definition robj_of (o : obj) : option Object.robj :=
  match ptr o with
  | PRaw s => Some (Object.Robj (Object.ENC_RAW s) (refcount o))
  | PInt v => Some (Object.Robj (Object.ENC_INT v) (refcount o))
  | PNull => None
  end.

Definition not_an_integer : list Z :=
  [118; 97; 108; 117; 101; 32; 105; 115; 32; 110; 111; 116; 32; 97; 110; 32; 105; 110; 116; 101; 103; 101; 114; 32;
   111; 114; 32; 111; 117; 116; 32; 111; 102; 32; 114; 97; 110; 103; 101; 0].

(** [None] is [REDIS_ERR]; [msg] is null. *)
Definition getLongLongFromObjectOrReply (i : nat) (o : loc) : R (option Z) :=
  v ← on_heap (load o);
  r ← lift (robj_of v);
  value ← lift (Object.getLongLongFromObject r);
  match value with
  | Some v => mret (Some v)
  | None =>
      _ ← on_client i (addReplyError uninit unixtime client_obuf_limits list_item_size zs true not_an_integer);
      mret None
  end.

Definition CONTINUE : list Z := [43; 67; 79; 78; 84; 73; 78; 85; 69; 13; 10].
Definition fullresync (runid : list Z) (offset : Z) : list Z :=
  [43; 70; 85; 76; 76; 82; 69; 83; 89; 78; 67; 32] ++ runid ++ [32] ++ dec offset ++ [13; 10].

(** What is written to the socket at once, besides the output of the client.
    [written] says whether [write] took all of it. *)
Context (runid : list Z) (written : bool).

Definition need_full_resync (i : nat) : R (bool * list Z) :=
  sv ← ask;
  let offset := master_repl_offset sv in
  let offset := match repl_backlog sv with None => int64 (offset + 1) | Some _ => offset end in
  if written then mret (false, fullresync runid offset)
  else _ ← on_client i freeClientAsync; mret (true, fullresync runid offset).

(** The flag is [true] for [REDIS_OK]. *)
Definition masterTryPartialResynchronization (i : nat) (argv1 argv2 : loc) : R (bool * list Z) :=
  v ← on_heap (load argv1);
  id ← on_heap (sds_of v);
  same ← lift (strcaseeq (buf id) (runid ++ [0]));
  if negb same then need_full_resync i
  else
    psync_offset ← getLongLongFromObjectOrReply i argv2;
    match psync_offset with
    | None => need_full_resync i
    | Some psync_offset =>
        sv ← ask;
        if match repl_backlog sv with None => true | Some _ => false end
           || (psync_offset <? repl_backlog_off sv)
           || (repl_backlog_off sv + repl_backlog_histlen sv <? psync_offset)
        then need_full_resync i
        else
          _ ← on_client i (c ← get; put (Client (Z.lor (flags c) REDIS_SLAVE) (fd c) REDIS_REPL_ONLINE (cbuf c) (bufpos c)
                 (sentlen c) (reply c) (reply_bytes c) (obuf_soft_limit_reached_time c) (lastinteraction c) (writable c)));
          sv ← ask;
          _ ← set (with_slaves sv (slaves sv ++ [i]));
          if written then
            _ ← addReplyReplicationBacklog i psync_offset;
            mret (true, CONTINUE)
          else _ ← on_client i freeClientAsync; mret (true, CONTINUE)
    end.

End Master.

(** ** The backlog is the end of the stream

    The buffer read from its index on, around its end, is the last bytes of
    what was written to it. *)
Definition ring (sv : server) (r : list Z) : Prop :=
  exists a b, repl_backlog sv = Some (a ++ b) /\ repl_backlog_idx sv = zlen a /\ b <> [] /\
    zlen (a ++ b) = repl_backlog_size sv /\ r = b ++ a.

(** [s] is the stream since the backlog was created, at the offset [base]. *)
Record backlog (base : Z) (s : list Z) (sv : server) : Prop := Backlog {
  bl_size : 0 < repl_backlog_size sv < 2 ^ 62;
  bl_ring : exists junk, zlen junk = repl_backlog_size sv /\ ring sv (drop (length s) (junk ++ s));
  bl_hist : repl_backlog_histlen sv = Z.min (repl_backlog_size sv) (zlen s);
  bl_master : master_repl_offset sv = base + zlen s;
  bl_off : repl_backlog_off sv = master_repl_offset sv - repl_backlog_histlen sv + 1;
  bl_base : 0 <= base }.

(** The parts of the server that the backlog does not touch. *)
Definition same_rest (sv sv' : server) : Prop :=
  world sv' = world sv /\ clients sv' = clients sv /\ closing sv' = closing sv /\ slaves sv' = slaves sv /\
  repl_backlog_size sv' = repl_backlog_size sv /\ slaveseldb sv' = slaveseldb sv.

Lemma same_rest_trans a b c : same_rest a b -> same_rest b c -> same_rest a c.
Proof. intros (A1&A2&A3&A4&A5&A6) (B1&B2&B3&B4&B5&B6). repeat split; congruence. Qed.

Lemma ask_run {A} (k : server -> R A) sv : (ask ≫= k) sv = k sv sv.
Proof. done. Qed.

Lemma set_run {A} sv' (k : unit -> R A) sv : (set sv' ≫= k) sv = k tt sv'.
Proof. done. Qed.

Lemma drop_drop_app (k n : nat) (r x1 x2 : list Z) :
  (k <= length (r ++ x1))%nat -> drop n (drop k (r ++ x1) ++ x2) = drop (k + n) (r ++ x1 ++ x2).
Proof. intros Hk. rewrite <- drop_drop. f_equal. rewrite app_assoc. by rewrite (drop_app_le (r ++ x1)). Qed.

Section Backlog.
Context (uninit : nat -> Z).

Lemma feed_loop_spec fuel : forall sv r x t,
  ring sv r -> 0 < repl_backlog_size sv < 2 ^ 62 -> (length x < fuel)%nat ->
  0 <= repl_backlog_histlen sv -> repl_backlog_histlen sv + zlen x < 2 ^ 63 ->
  exists sv', feed_loop fuel (x ++ t) (zlen x) sv = Some (tt, sv') /\ ring sv' (drop (length x) (r ++ x)) /\
    repl_backlog_histlen sv' = repl_backlog_histlen sv + zlen x /\
    repl_backlog_off sv' = repl_backlog_off sv /\ master_repl_offset sv' = master_repl_offset sv /\ same_rest sv sv'.
Proof.
  induction fuel as [|fuel IH]; intros sv r x t Hr Hsz Hf Hh0 Hh; [lia|]. cbn [feed_loop].
  destruct (Z.eqb_spec (zlen x) 0) as [Hx|Hx].
  { destruct x; [|done]. exists sv. rewrite app_nil_r. cbn [length] in *. split; [done|]. split; [done|].
    split; [lia|]. done. }
  rewrite ask_run. destruct Hr as (a & b & Eb & Ei & Hb & Hlen & ->).
  assert (0 < zlen b) as Hb0 by (destruct b; [done|cbn; lia]). rewrite length_app in Hlen.
  rewrite Ei, wrap_small by (unfold in_u; lia).
  replace (repl_backlog_size sv - zlen a) with (zlen b) by lia.
  set (k := if zlen x <? zlen b then zlen x else zlen b).
  assert (0 < k <= zlen x /\ k <= zlen b) as Hk by (unfold k; destruct (Z.ltb_spec (zlen x) (zlen b)); lia).
  clearbody k. rewrite (lift_run _ _ _ _ Eb).
  set (x1 := take (Z.to_nat k) x). set (x2 := drop (Z.to_nat k) x).
  assert (x = x1 ++ x2) as Ex by (symmetry; apply take_drop).
  assert (zlen x1 = k) as Lx1 by (unfold x1; rewrite length_take; lia).
  assert (zlen x2 = zlen x - k) as Lx2 by (unfold x2; rewrite length_drop; lia).
  set (b1 := take (Z.to_nat k) b). set (b2 := drop (Z.to_nat k) b).
  assert (b = b1 ++ b2) as Ebb by (symmetry; apply take_drop).
  assert (zlen b1 = k) as Lb1 by (unfold b1; rewrite length_take; lia).
  rewrite (lift_run _ x1) by (rewrite Ex, <- app_assoc; by apply (rdn_app [] x1 (x2 ++ t))).
  rewrite (lift_run _ (a ++ x1 ++ b2)) by (rewrite Ebb; apply wrn_app; [done|lia]).
  rewrite set_run. rewrite (swrap_small 64 (zlen a + k)) by (lia || (unfold in_s; lia)).
  rewrite (swrap_small 64 (repl_backlog_histlen sv + k)) by (lia || (unfold in_s; lia)).
  set (sv1 := with_backlog _ _ _ _ _ _).
  assert (ring sv1 (drop (length x1) ((b ++ a) ++ x1))) as Hr1.
  { replace (drop (length x1) ((b ++ a) ++ x1)) with (b2 ++ a ++ x1).
    2: { rewrite Ebb, <- !app_assoc. rewrite drop_app_length' by lia. done. }
    unfold ring, sv1. cbn [repl_backlog repl_backlog_idx repl_backlog_size with_backlog].
    destruct (Z.eqb_spec (zlen a + k) (repl_backlog_size sv)) as [E|E].
    - exists [], (a ++ x1). assert (b2 = []) as -> by (destruct b2; [done|]; rewrite Ebb, length_app in Hlen; cbn in Hlen; lia).
      rewrite app_nil_r. cbn [app]. split_and!; [done|done| |rewrite length_app; lia|by rewrite app_nil_r].
      intros E2. apply (f_equal length) in E2. rewrite length_app in E2. cbn in E2. lia.
    - exists (a ++ x1), b2. split_and!; [by rewrite <- app_assoc|rewrite length_app; lia| |rewrite !length_app in *; rewrite Ebb, length_app in Hlen; lia|done].
      intros E2. rewrite Ebb, E2, app_nil_r in Hlen. lia. }
  destruct (IH sv1 _ x2 t Hr1) as (sv' & E' & R' & H' & O' & M' & S'); [done|rewrite Ex, length_app in Hf; lia|cbn; lia|cbn; lia|].
  exists sv'. replace (drop (Z.to_nat k) (x ++ t)) with (x2 ++ t) by (unfold x2; rewrite drop_app_le by lia; done).
  rewrite <- Lx2. split; [done|]. split; [|cbn in *; split; [lia|]; split; [done|]; split; [done|]].
  - rewrite drop_drop_app in R' by (rewrite length_app; lia).
    replace (length x) with (length x1 + length x2)%nat by (rewrite Ex, length_app; done). by rewrite Ex.
  - eapply same_rest_trans; [|done]. done.
Qed.

Lemma feed_spec base s sv x t :
  backlog base s sv -> base + zlen s + zlen x < 2 ^ 62 ->
  exists sv', feedReplicationBacklog (x ++ t) (zlen x) sv = Some (tt, sv') /\
    backlog base (s ++ x) sv' /\ same_rest sv sv'.
Proof.
  intros [Hsz (junk & Hj & Hr) Hh Hm Ho Hb] Hx. unfold feedReplicationBacklog. rewrite ask_run, set_run.
  set (sv0 := with_backlog _ _ _ _ _ _).
  destruct (feed_loop_spec (S (Z.to_nat (zlen x))) sv0 _ x t Hr) as (sv1 & E1 & R1 & H1 & O1 & M1 & S1); [done|lia|cbn; lia|cbn; lia|].
  rewrite (bind_run _ _ _ _ _ E1), ask_run. eexists. split; [done|].
  unfold sv0 in H1, O1, M1, S1. cbn in H1, O1, M1. rewrite swrap_small in M1 by (lia || (unfold in_s; lia)).
  destruct S1 as (A1&A2&A3&A4&A5&A6). cbn in A1, A2, A3, A4, A5, A6.
  set (hl := if _ <? _ then _ else _).
  assert (hl = Z.min (repl_backlog_size sv) (zlen (s ++ x))) as Ehl.
  { unfold hl. rewrite A5, H1, Hh, length_app. destruct (Z.ltb_spec (repl_backlog_size sv) (Z.min (repl_backlog_size sv) (zlen s) + zlen x)); lia. }
  clearbody hl. split; [|done].
  split; cbn [with_backlog repl_backlog_size repl_backlog_histlen master_repl_offset repl_backlog_off]; rewrite ?A5.
  - done.
  - exists junk. split; [done|]. destruct R1 as (a & b & E2 & Hi & Hb2 & Hl2 & Er). exists a, b. cbn.
    split; [done|]. split; [done|]. split; [done|]. split; [done|]. rewrite <- Er.
    rewrite drop_drop_app by (rewrite length_app; lia). by rewrite length_app.
  - done.
  - rewrite M1, length_app. lia.
  - rewrite (swrap_small 64 (_ - hl)), swrap_small by (lia || (unfold in_s; rewrite ?M1; lia)). lia.
  - done.
Qed.
End Backlog.

(** ** The clients share a heap

    The references of all clients together are those of one client that has
    all their lists. *)
Definition everyone (cs : list client) : list loc := cs ≫= reply.
Arguments everyone : simpl never.
Definition view (sv : server) (c : client) : st := St (world sv) c (closing sv).
Definition overview (sv : server) : st := view sv (with_reply nobody (everyone (clients sv))).

(** A client with what it has to send: a buffer and texts. *)
Definition kept (c : client) (q : list Z * list (list Z)) : list Z :=
  drop (Z.to_nat (sentlen c)) (q.1 ++ concat q.2).

Section Clients.
Context (zs : sdshdr -> Z).

Definition line (n : Z) (sv : server) (c : client) (q : list Z * list (list Z)) : Prop :=
  outs zs n (view sv c) q.1 (map Text q.2) /\ (q.1 <> [] \/ q.2 <> [] -> handled c).

Record conns (n : Z) (sv : server) (qs : list (list Z * list (list Z))) : Prop := Conns {
  conn_lines : Forall2 (line n sv) (clients sv) qs;
  conn_refs : forall l o, world sv !! l = Some o -> occ l (everyone (clients sv)) <= refcount o }.

Lemma occ_everyone l cs i c : cs !! i = Some c ->
  exists r, 0 <= r /\ occ l (everyone cs) = occ l (reply c) + r /\
    forall c', occ l (everyone (<[i := c']> cs)) = occ l (reply c') + r.
Proof.
  intros Hi. apply list_elem_of_split_length in Hi as (a & b & -> & ->).
  exists (occ l (everyone a) + occ l (everyone b)). unfold everyone.
  pose proof (occ_pos l (a ≫= reply)). pose proof (occ_pos l (b ≫= reply)). split; [lia|].
  split; [|intros c']; rewrite ?insert_app_r_alt, ?Nat.sub_diag by lia; cbn [list_insert insert];
    rewrite bind_app, bind_cons, !occ_app; lia.
Qed.

Lemma occ_other l cs i j c d : cs !! i = Some c -> cs !! j = Some d -> i <> j ->
  occ l (reply c) + occ l (reply d) <= occ l (everyone cs).
Proof.
  intros Hi Hj Hij. destruct (occ_everyone l cs i c Hi) as (r & _ & E & Er).
  assert (<[i := with_reply c []]> cs !! j = Some d) as Hj' by (by rewrite list_lookup_insert_ne).
  destruct (occ_everyone l _ j d Hj') as (r' & Hr' & E' & _). rewrite Er in E'. cbn [reply with_reply] in E'.
  change (occ l []) with 0 in E'. lia.
Qed.

(** The output of a client does not change when another one's does. *)
Lemma line_other n sv h' tc c d q ls' :
  line n sv d q ->
  (forall l o, world sv !! l = Some o -> occ l (reply c) + occ l (reply d) <= refcount o) ->
  frame (world sv) (reply c) h' ls' ->
  (forall l o, h' !! l = Some o -> occ l (reply d) <= refcount o) ->
  outs zs n (St h' d tc) q.1 (map Text q.2).
Proof.
  intros [[Hb Hp [Hs _] Hu Hby Hsh Hsent] _] Hrefs Hf Hr. cbn [heap cl view] in *.
  assert (forall l, l ∈ reply d -> same_cell (world sv) h' l) as Ht.
  { intros l Hin o Ho. pose proof (occ_in _ _ Hin) as Hl. pose proof (Hrefs l o Ho) as Hle. destruct (Hf l o Ho) as (o' & Ho' & Hp' & _); [lia|].
    exists o'. split; [done|]. split; [done|]. intros Hn. exfalso.
    apply list_elem_of_lookup in Hin as (k & Hk). destruct (Forall2_lookup_l _ _ _ _ _ Hs Hk) as (g & Hg & o3 & Ho3 & Hseg).
    rewrite list_lookup_fmap in Hg. destruct (q.2 !! k) as [x|]; [|done]. injection Hg as <-.
    destruct Hseg as (sd & Hsd & _). rewrite Ho3 in Ho. injection Ho as <-. congruence. }
  split; cbn [heap cl]; try done.
  - split; [by eapply segs_text|done].
  - by rewrite (usage_text zs _ _ _ _ Hs Ht).
Qed.

Lemma conns_le m n sv qs : conns m sv qs -> 0 <= n <= m -> conns n sv qs.
Proof.
  intros [Hl Hr] Hn. split; [|done]. eapply Forall2_impl; [done|]. intros c q [Ho Hh]. split; [by eapply outs_le|done].
Qed.

(** The global frame of an operation on the [i]-th client. *)
Lemma frame_everyone h cs i c h' c' :
  cs !! i = Some c -> frame h (reply c) h' (reply c') ->
  frame h (everyone cs) h' (everyone (<[i := c']> cs)).
Proof.
  intros Hi Hf l o Ho Hlt. destruct (occ_everyone l cs i c Hi) as (r & Hr & E & E'). rewrite E in Hlt.
  destruct (Hf l o Ho) as (o' & Ho' & Hp & Hrc); [lia|]. exists o'. rewrite E, E'. split; [done|]. split; [done|lia].
Qed.

Lemma refs_everyone h cs i c h' c' :
  cs !! i = Some c -> frame h (reply c) h' (reply c') ->
  (forall d l, d ∈ cs -> l ∈ reply d -> is_Some (h !! l)) ->
  (forall l o, h !! l = Some o -> occ l (everyone cs) <= refcount o) ->
  (forall l o, h' !! l = Some o -> occ l (reply c') <= refcount o) ->
  forall l o, h' !! l = Some o -> occ l (everyone (<[i := c']> cs)) <= refcount o.
Proof.
  intros Hi Hf Hin Hr Hr' l o' Ho'. destruct (occ_everyone l cs i c Hi) as (r & Hr0 & E & ->).
  pose proof (Hr' l o' Ho') as H'. destruct (h !! l) as [o|] eqn:Ho.
  - pose proof (Hr l o Ho) as H. destruct (Z.lt_ge_cases (occ l (reply c)) (refcount o)) as [Hlt|Hge]; [|lia].
    destruct (Hf l o Ho Hlt) as (o2 & Ho2 & _ & Hrc). rewrite Ho2 in Ho'. injection Ho' as <-. lia.
  - assert (l ∉ everyone cs) as Hni.
    { intros Hl. apply list_elem_of_bind in Hl as (d & Hd & Hc). destruct (Hin d l Hc Hd) as [o Hs]. congruence. }
    rewrite occ_notin in E by done. pose proof (occ_pos l (reply c)). lia.
Qed.

(** Any operation on a client that keeps its own output in order. *)
Lemma on_client_conns {A} m n sv qs i c q (op : Reply.M A) a s' b' xs' :
  conns m sv qs -> 0 <= n <= m -> clients sv !! i = Some c -> qs !! i = Some q ->
  op (view sv c) = Some (a, s') -> queue zs n s' b' (map Text xs') ->
  frame (world sv) (reply c) (heap s') (reply (cl s')) ->
  let sv' := with_world sv (heap s') (<[i := cl s']> (clients sv)) (to_close s') in
  on_client i op sv = Some (a, sv') /\ conns n sv' (<[i := (b', xs')]> qs) /\
  frame (world sv) (everyone (clients sv)) (heap s') (everyone (clients sv')).
Proof.
  intros [Hl Hr] Hn Hc Hq E (O' & A' & H') F. cbn zeta.
  split; [unfold on_client; rewrite Hc; cbn; unfold view in E; rewrite E; done|].
  assert (forall l o, heap s' !! l = Some o -> occ l (reply (cl s')) <= refcount o) as Hr'
    by (apply (objs_refs _ _ _ (out_objs _ _ _ _ _ O'))).
  assert (forall d l, d ∈ clients sv -> l ∈ reply d -> is_Some (world sv !! l)) as Hin.
  { intros d l Hd Hld. apply list_elem_of_lookup in Hd as (j & Hj).
    destruct (Forall2_lookup_l _ _ _ _ _ Hl Hj) as (q2 & _ & [[_ _ [Hs _] _ _ _ _] _]). by eapply segs_in. }
  pose proof (refs_everyone _ _ _ _ _ _ Hc F Hin Hr Hr') as Hall.
  split; [split; cbn [clients world with_world]|by eapply frame_everyone].
  - apply Forall2_same_length_lookup. split; [by rewrite !length_insert; eapply Forall2_length|].
    intros j d q2 Hd Hq2. destruct (decide (i = j)) as [<-|Hij].
    + rewrite list_lookup_insert_eq in Hd by (by eapply lookup_lt_Some). injection Hd as <-.
      rewrite list_lookup_insert_eq in Hq2 by (by eapply lookup_lt_Some). injection Hq2 as <-.
      split; [by destruct s'|]. cbn. intros Hne. apply H'. destruct Hne as [?|Hne]; [by left|right]. by destruct xs'.
    + rewrite list_lookup_insert_ne in Hd by done. rewrite list_lookup_insert_ne in Hq2 by done.
      destruct (Forall2_lookup_l _ _ _ _ _ Hl Hd) as (q3 & Hq3 & Hline).
      rewrite Hq2 in Hq3. injection Hq3 as <-. split; [|apply Hline].
      apply (outs_le zs m); [|lia].
      eapply (line_other m sv _ _ c d); [done| |exact F|].
      * intros l o Hlo. pose proof (occ_other l _ _ _ _ _ Hc Hd Hij). pose proof (Hr l o Hlo). lia.
      * intros l o Hlo. pose proof (Hall l o Hlo) as Hal.
        assert (<[i := cl s']> (clients sv) !! j = Some d) as Hd' by (by rewrite list_lookup_insert_ne).
        destruct (occ_everyone l _ j d Hd') as (r & Hr0 & Er & _). rewrite Er in Hal. lia.
  - exact Hall.
Qed.

Lemma conns_line n sv qs i c q : conns n sv qs -> clients sv !! i = Some c -> qs !! i = Some q -> accepts c ->
  queue zs n (view sv c) q.1 (map Text q.2).
Proof.
  intros [Hl _] Hc Hq Ha. destruct (Forall2_lookup_l _ _ _ _ _ Hl Hc) as (q' & Hq' & [Ho Hh]).
  rewrite Hq in Hq'. injection Hq' as <-. split; [done|]. split; [done|]. intros Hne. apply Hh.
  destruct Hne as [?|Hne]; [by left|right]. by destruct q.2.
Qed.

Lemma on_client_says n k sv qs i c q P m x :
  conns (n + k) sv qs -> 0 <= n -> 0 <= k -> clients sv !! i = Some c -> qs !! i = Some q -> accepts c ->
  says zs k P m x -> P (view sv c) ->
  exists h' c' t' q', let sv' := with_world sv h' (<[i := c']> (clients sv)) t' in
    on_client i m sv = Some (tt, sv') /\ conns n sv' (<[i := q']> qs) /\ kept c' q' = kept c q ++ x /\
    frame (world sv) (everyone (clients sv)) h' (everyone (clients sv')) /\ same_client c c'.
Proof.
  intros Hcs Hn Hk Hc Hq Ha Hm HP.
  destruct (says_pend zs k P m x n (view sv c) q.1 q.2 Hm) as (s' & b' & xs' & E & Q' & Ep & F & C);
    [by eapply conns_line|done|done|].
  destruct (on_client_conns (n + k) n sv qs i c q m tt s' b' xs' Hcs ltac:(lia) Hc Hq E Q' F) as (E1 & C1 & F1).
  by exists (heap s'), (cl s'), (to_close s'), (b', xs').
Qed.
End Clients.

Lemma dec_length_20 v : in_s 64 v -> zlen (dec v) <= 20.
Proof.
  unfold in_s. change (2 ^ (64 - 1)) with (2 ^ 63). intros Hv.
  assert (forall u, 0 <= u <= 2 ^ 63 -> zlen (udec 20 u) <= 19) as Hu.
  { intros u Hu. destruct (digits_exist u 18) as (n & Hn & Hlo & Hhi); [change (10 ^ Z.of_nat 19) with 10000000000000000000; lia|].
    rewrite (udec_length 19 n) by (lia || done). lia. }
  unfold dec. destruct (Z.ltb_spec v 0); [|pose proof (Hu v); lia]. pose proof (Hu (- v)). cbn [length]. lia.
Qed.

Lemma ll2string_in uninit k v : 21 <= k -> in_s 64 v ->
  exists t, ll2string (realloc uninit k []) k v = Some (dec v ++ 0 :: t, zlen (dec v)).
Proof.
  intros Hk Hv. pose proof (ll2string_spec (realloc uninit k []) v Hv) as E. pose proof (dec_length_20 v Hv) as Hd.
  rewrite realloc_length in E by lia. rewrite E, (proj2 (Z.leb_gt _ _)) by lia. by eexists.
Qed.

Lemma select_text_small d : in_s 64 d -> zlen (select_text d) <= 100.
Proof.
  intros Hd. pose proof (dec_length_20 d Hd) as Hdl. unfold select_text.
  pose proof (dec_length_20 (zlen (dec d)) ltac:(unfold in_s; change (2 ^ (64 - 1)) with (2 ^ 63); lia)).
  rewrite !length_app. cbn [length]. lia.
Qed.

Lemma create_select_run uninit size d : 21 <= size -> in_s 64 d ->
  exists sd, (forall s, create_select uninit size d s = createObject sd s) /\ repr sd (select_text d).
Proof.
  intros Hs Hd. destruct (ll2string_in uninit size d Hs Hd) as (t & Et). destruct (empty_spec uninit) as (s0 & E0 & R0).
  destruct (SdsText.catprintf_spec uninit s0 [] (take 25 select_format) (select_text d) [] R0) as (sd & E1 & R1).
  { repeat constructor; done. }
  { unfold select_text. repeat (apply Forall_app; split); try apply Object.dec_nonzero; repeat constructor; done. }
  { pose proof (select_text_small d Hd). cbn [length]. lia. }
  exists sd. split; [|done]. intros s. unfold create_select.
  by rewrite (lift_run _ _ _ _ Et), (lift_run _ _ _ _ E0), (lift_run _ _ _ _ E1).
Qed.

(** An operation on clients leaves the backlog alone. *)
Lemma backlog_world base s sv h cs t : backlog base s sv -> backlog base s (with_world sv h cs t).
Proof. intros []. by split. Qed.

Section Psync.
Context (uninit : nat -> Z) (unixtime : Z) (client_obuf_limits : Z -> limits) (list_item_size : Z) (zs : sdshdr -> Z).
Hypothesis zs_bound : forall s, 0 <= zs s < 2 ^ 33.

(** The [i]-th client has [x] more to send; nothing else changed. *)
Definition told (n : Z) (sv : server) (qs : list (list Z * list (list Z))) (i : nat) (x : list Z) (sv' : server) : Prop :=
  exists h' c c' t' q q', clients sv !! i = Some c /\ qs !! i = Some q /\
    sv' = with_world sv h' (<[i := c']> (clients sv)) t' /\ conns zs n sv' (<[i := q']> qs) /\
    kept c' q' = kept c q ++ x /\ frame (world sv) (everyone (clients sv)) h' (everyone (clients sv')) /\ same_client c c'.

Lemma told_nil n sv qs i c q : conns zs n sv qs -> clients sv !! i = Some c -> qs !! i = Some q -> told n sv qs i [] sv.
Proof.
  intros Hc Hi Hq. exists (world sv), c, c, (closing sv), q, q. rewrite !list_insert_id by done.
  split; [done|]. split; [done|]. split; [by destruct sv|]. split; [done|]. split; [by rewrite app_nil_r|]. split; [apply frame_refl|done].
Qed.

Lemma told_says n k sv qs i c q P m x :
  conns zs (n + k) sv qs -> 0 <= n -> 0 <= k -> clients sv !! i = Some c -> qs !! i = Some q -> accepts c ->
  says zs k P m x -> P (view sv c) ->
  exists sv', on_client i m sv = Some (tt, sv') /\ told n sv qs i x sv'.
Proof.
  intros Hcs Hn Hk Hc Hq Ha Hm HP.
  destruct (on_client_says zs n k sv qs i c q P m x Hcs Hn Hk Hc Hq Ha Hm HP) as (h' & c' & t' & q' & E & Hcs' & Hkp & F & C).
  eexists. split; [exact E|]. by exists h', c, c', t', q, q'.
Qed.

Lemma told_trans m sv qs i x sv1 (P : server -> Prop) n y :
  told m sv qs i x sv1 ->
  (forall c c1 q1, clients sv !! i = Some c -> clients sv1 !! i = Some c1 -> same_client c c1 ->
    <[i := q1]> qs !! i = Some q1 -> conns zs m sv1 (<[i := q1]> qs) ->
    exists sv2, P sv2 /\ told n sv1 (<[i := q1]> qs) i y sv2) ->
  exists sv2, P sv2 /\ told n sv qs i (x ++ y) sv2.
Proof.
  intros (h1 & c & c1 & t1 & q & q1 & Hc & Hq & -> & H1 & K1 & F1 & C1) Hnext.
  pose proof (lookup_lt_Some _ _ _ Hc) as Hlc. pose proof (lookup_lt_Some _ _ _ Hq) as Hlq.
  destruct (Hnext c c1 q1) as (sv2 & HP & h2 & c1' & c2 & t2 & q1' & q2 & Hc1 & Hq1 & -> & H2 & K2 & F2 & C2);
    [done|by apply list_lookup_insert_eq|done|by apply list_lookup_insert_eq|done|].
  cbn [clients world with_world] in *. rewrite list_lookup_insert_eq in Hc1 by done.
  rewrite list_lookup_insert_eq in Hq1 by done. injection Hc1 as <-. injection Hq1 as <-.
  eexists. split; [exact HP|].
  exists h2, c, c2, t2, q, q2. rewrite !list_insert_insert_eq in *. split; [done|]. split; [done|]. split; [done|].
  split; [exact H2|]. split; [by rewrite K2, K1, app_assoc|]. split; [by eapply frame_compose|by eapply same_client_trans].
Qed.

Lemma told_backlog n sv qs i x sv' : told n sv qs i x sv' ->
  repl_backlog sv' = repl_backlog sv /\ repl_backlog_size sv' = repl_backlog_size sv /\
  forall base s, backlog base s sv -> backlog base s sv'.
Proof.
  intros (? & ? & ? & ? & ? & ? & _ & _ & -> & _). split; [done|]. split; [done|]. intros base s. apply backlog_world.
Qed.

Local Abbreviation add_sds := (addReplySds uninit unixtime client_obuf_limits list_item_size zs true).
Local Abbreviation send_data := (send_backlog uninit unixtime client_obuf_limits list_item_size zs).

(** One piece of the buffer. *)
Lemma send_piece n sv qs i c q x t k :
  conns zs (n + 1) sv qs -> 0 <= n -> clients sv !! i = Some c -> qs !! i = Some q -> accepts c ->
  zlen x <= 2 ^ 29 -> k = zlen x ->
  exists sd sv1, sdsnewlen uninit (Some (x ++ t)) k = Some sd /\ on_client i (add_sds sd) sv = Some (tt, sv1) /\
    told n sv qs i x sv1.
Proof.
  intros Hcs Hn Hc Hq Ha Hx ->. destruct (newlen_spec uninit x t) as (sd & E & Hr); [lia|].
  destruct (told_says n 1 sv qs i c q (fun _ => True) (add_sds sd) x Hcs Hn) as (sv1 & E1 & T1); [lia|done..| |done|].
  { by apply says_sds. }
  by exists sd, sv1.
Qed.

(** The buffer from the place [j] that stands for the position [p] of the ring,
    to its end. *)
Lemma send_ring n sv qs i c q r p :
  conns zs (n + 2) sv qs -> 0 <= n -> clients sv !! i = Some c -> qs !! i = Some q -> accepts c ->
  ring sv r -> repl_backlog_size sv <= 2 ^ 29 -> 0 <= p <= repl_backlog_size sv ->
  exists sv', send_data 2 i (Z.rem (repl_backlog_idx sv + p) (repl_backlog_size sv)) (repl_backlog_size sv - p) sv = Some (tt, sv') /\
    told n sv qs i (drop (Z.to_nat p) r) sv'.
Proof.
  intros Hcs Hn Hc Hq Ha (a & b & Eb & Ei & Hb & Hsz & ->) Hmax Hp. rewrite length_app in Hsz.
  assert (0 < zlen b) as Hb0 by (destruct b; [done|cbn; lia]).
  rewrite Ei. cbn [send_backlog].
  destruct (Z.eqb_spec (repl_backlog_size sv - p) 0) as [E0|E0].
  { exists sv. split; [done|]. rewrite drop_ge by (rewrite length_app; lia).
    eapply told_nil; [eapply conns_le; [exact Hcs|lia]|done|done]. }
  rewrite ask_run, (lift_run _ _ _ _ Eb).
  destruct (Z.lt_ge_cases p (zlen b)) as [Hlt|Hge].
  - rewrite Z.rem_small by lia. set (x := drop (Z.to_nat p) b).
    assert (zlen x = zlen b - p) as Lx by (unfold x; rewrite length_drop; lia).
    replace (if repl_backlog_size sv - (zlen a + p) <? repl_backlog_size sv - p then repl_backlog_size sv - (zlen a + p)
             else repl_backlog_size sv - p) with (zlen x)
      by (destruct (Z.ltb_spec (repl_backlog_size sv - (zlen a + p)) (repl_backlog_size sv - p)); lia).
    replace (drop (Z.to_nat (zlen a + p)) (a ++ b)) with (x ++ [])
      by (rewrite app_nil_r; unfold x; rewrite drop_app_ge by lia; f_equal; lia).
    destruct (send_piece (n + 1) sv qs i c q x [] (zlen x)) as (sd & sv1 & E1 & E2 & T1);
      [by replace (n + 1 + 1) with (n + 2) by lia|lia|done|done|done|lia|done|].
    rewrite (lift_run _ _ _ _ E1), (bind_run _ _ _ _ _ E2).
    replace (drop (Z.to_nat p) (b ++ a)) with (x ++ a) by (unfold x; by rewrite drop_app_le by lia).
    destruct (told_backlog _ _ _ _ _ _ T1) as (Eb1 & Es1 & _).
    replace (repl_backlog_size sv - p - zlen x) with (zlen a) by lia.
    eapply told_trans; [exact T1|]. intros c0 c1 q1 Hc0 Hc1 C1 Hq1 Hcs1.
    rewrite Hc in Hc0. injection Hc0 as <-.
    destruct (Z.eqb_spec (zlen a) 0) as [Ea|Ea].
    { destruct a; [|done]. exists sv1. split; [done|]. eapply told_nil; [eapply conns_le; [exact Hcs1|lia]|done|done]. }
    rewrite ask_run, Eb1, (lift_run _ _ _ _ Eb). rewrite Es1, (proj2 (Z.ltb_ge _ _)) by lia.
    change (drop (Z.to_nat 0) (a ++ b)) with (a ++ b).
    destruct (send_piece n sv1 (<[i := q1]> qs) i c1 q1 a b (zlen a)) as (sd2 & sv2 & E4 & E5 & T2);
      [done|done|done|done|by eapply accepts_same|lia|done|].
    rewrite (lift_run _ _ _ _ E4), (bind_run _ _ _ _ _ E5), Z.sub_diag. by exists sv2.
  - assert (Z.rem (zlen a + p) (repl_backlog_size sv) = p - zlen b) as ->.
    { rewrite Z.rem_mod_nonneg by lia. replace (zlen a + p) with ((p - zlen b) + 1 * repl_backlog_size sv) by lia.
      rewrite Z.mod_add by lia. by apply Z.mod_small; lia. }
    set (x := drop (Z.to_nat (p - zlen b)) a).
    assert (zlen x = repl_backlog_size sv - p) as Lx by (unfold x; rewrite length_drop; lia).
    rewrite (proj2 (Z.ltb_ge _ _)) by lia.
    replace (drop (Z.to_nat (p - zlen b)) (a ++ b)) with (x ++ b) by (unfold x; by rewrite drop_app_le by lia).
    destruct (send_piece n sv qs i c q x b (repl_backlog_size sv - p)) as (sd & sv1 & E1 & E2 & T1);
      [eapply conns_le; [exact Hcs|lia]|lia|done|done|done|lia|done|].
    rewrite (lift_run _ _ _ _ E1), (bind_run _ _ _ _ _ E2), Z.sub_diag. exists sv1. split; [done|].
    replace (drop (Z.to_nat p) (b ++ a)) with x; [done|].
    unfold x. rewrite drop_app_ge by lia. f_equal. lia.
Qed.
Lemma psync_data base s n sv qs i c q offset :
  conns zs (n + 2) sv qs -> 0 <= n -> clients sv !! i = Some c -> qs !! i = Some q -> accepts c ->
  backlog base s sv -> repl_backlog_size sv <= 2 ^ 29 ->
  repl_backlog_off sv <= offset <= repl_backlog_off sv + repl_backlog_histlen sv ->
  let x := drop (Z.to_nat (offset - base - 1)) s in
  exists sv', addReplyReplicationBacklog uninit unixtime client_obuf_limits list_item_size zs i offset sv = Some (zlen x, sv') /\
    told n sv qs i x sv'.
Proof.
  intros Hcs Hn Hc Hq Ha [Hsz (junk & Hj & Hr) Hh Hm Ho Hb] Hmax Hoff x. unfold addReplyReplicationBacklog. rewrite ask_run.
  assert (zlen x = repl_backlog_histlen sv - (offset - repl_backlog_off sv)) as Lx by (unfold x; rewrite length_drop; lia).
  destruct (Z.eqb_spec (repl_backlog_histlen sv) 0) as [E|E].
  { assert (x = []) as -> by (destruct x; [done|cbn in Lx; lia]). exists sv. split; [done|].
    eapply told_nil; [eapply conns_le; [exact Hcs|lia]|done|done]. }
  pose proof Hr as (a & b & _ & Ei & _ & Hab & _).
  set (skip := offset - repl_backlog_off sv) in *. set (p := repl_backlog_size sv - repl_backlog_histlen sv + skip).
  replace (Z.rem (Z.rem (repl_backlog_idx sv + (repl_backlog_size sv - repl_backlog_histlen sv)) (repl_backlog_size sv) + skip)
             (repl_backlog_size sv)) with (Z.rem (repl_backlog_idx sv + p) (repl_backlog_size sv)).
  2: { rewrite !Z.rem_mod_nonneg; try lia.
       - rewrite Zplus_mod_idemp_l. unfold p. f_equal. lia.
       - rewrite Z.rem_mod_nonneg by lia. pose proof (Z.mod_pos_bound (repl_backlog_idx sv + (repl_backlog_size sv - repl_backlog_histlen sv)) (repl_backlog_size sv)). lia. }
  replace (repl_backlog_histlen sv - skip) with (repl_backlog_size sv - p) by (unfold p; lia).
  destruct (send_ring n sv qs i c q _ p Hcs Hn Hc Hq Ha Hr Hmax) as (sv' & E1 & T1); [unfold p; lia|].
  rewrite (bind_run _ _ _ _ _ E1). exists sv'. split; [unfold p; rewrite Lx; unfold mret, M_ret; do 2 f_equal; lia|].
  replace x with (drop (Z.to_nat p) (drop (length s) (junk ++ s))); [done|].
  rewrite drop_drop, drop_app_ge by (unfold p; lia). unfold x. f_equal. unfold p. lia.
Qed.
End Psync.

(** Clients may have got more to send: the [j]-th the text [f j]. *)
Definition spoken (zs : sdshdr -> Z) (n : Z) (sv : server) (qs : list (list Z * list (list Z))) (f : nat -> list Z)
  (sv' : server) (qs' : list (list Z * list (list Z))) : Prop :=
  conns zs n sv' qs' /\
  (slaves sv' = slaves sv /\ slaveseldb sv' = slaveseldb sv /\ repl_backlog_size sv' = repl_backlog_size sv) /\
  frame (world sv) (everyone (clients sv)) (world sv') (everyone (clients sv')) /\
  forall j c q, clients sv !! j = Some c -> qs !! j = Some q ->
    exists c' q', clients sv' !! j = Some c' /\ qs' !! j = Some q' /\ kept c' q' = kept c q ++ f j /\ same_client c c'.

Section Feed.
Context (zs : sdshdr -> Z).

Lemma spoken_refl n sv qs : conns zs n sv qs -> spoken zs n sv qs (fun _ => []) sv qs.
Proof.
  intros Hc. split; [done|]. split; [done|]. split; [apply frame_refl|]. intros j c q Hj Hq.
  exists c, q. rewrite app_nil_r. done.
Qed.

Lemma spoken_trans m n sv qs f sv1 qs1 g sv2 qs2 :
  spoken zs m sv qs f sv1 qs1 -> spoken zs n sv1 qs1 g sv2 qs2 -> spoken zs n sv qs (fun j => f j ++ g j) sv2 qs2.
Proof.
  intros (_ & E1 & F1 & H1) (C2 & E2 & F2 & H2). split; [done|]. split; [destruct E1 as (?&?&?), E2 as (?&?&?); repeat split; congruence|]. split; [by eapply frame_compose|].
  intros j c q Hc Hq. destruct (H1 j c q Hc Hq) as (c1 & q1 & Hc1 & Hq1 & K1 & S1).
  destruct (H2 j c1 q1 Hc1 Hq1) as (c2 & q2 & Hc2 & Hq2 & K2 & S2). exists c2, q2. split; [done|]. split; [done|].
  split; [by rewrite K2, K1, app_assoc|by eapply same_client_trans].
Qed.

Lemma spoken_ext n sv qs f g sv' qs' :
  spoken zs n sv qs f sv' qs' -> (forall j c, clients sv !! j = Some c -> f j = g j) -> spoken zs n sv qs g sv' qs'.
Proof.
  intros (C & E & F & H) Hfg. split; [done|]. split; [done|]. split; [done|]. intros j c q Hc Hq. rewrite <- (Hfg j c) by done. by apply H.
Qed.

Lemma told_spoken n sv qs i x sv' : told zs n sv qs i x sv' ->
  exists qs', spoken zs n sv qs (fun j => if decide (j = i) then x else []) sv' qs'.
Proof.
  intros (h' & c & c' & t' & q & q' & Hc & Hq & -> & Hcs & K & F & C). exists (<[i := q']> qs).
  split; [done|]. split; [done|]. split; [done|]. intros j d p Hd Hp. cbn [clients with_world].
  destruct (decide (j = i)) as [->|Hj].
  - rewrite Hc in Hd. injection Hd as <-. rewrite Hq in Hp. injection Hp as <-. exists c', q'.
    rewrite !list_lookup_insert_eq by (by eapply lookup_lt_Some). done.
  - exists d, p. rewrite !list_lookup_insert_ne by done. rewrite app_nil_r. done.
Qed.

Context (uninit : nat -> Z) (unixtime : Z) (client_obuf_limits : Z -> limits) (list_item_size : Z).
Context (shared : shared_objects) (select : list loc) (db : gmap loc (list Z)).
Hypothesis zs_bound : forall s, 0 <= zs s < 2 ^ 33.

(** *** To the backlog *)
Lemma aux_line_spec p v : in_s 64 v -> exists t, aux_line uninit p v = Some (header p v ++ t, zlen (dec v)).
Proof.
  intros Hv. unfold aux_line. pose proof (realloc_length uninit (REDIS_LONGSTR_SIZE + 3) [] ltac:(done)) as Hl.
  destruct (realloc uninit (REDIS_LONGSTR_SIZE + 3) []) as [|z b0] eqn:Eb; [done|].
  change (wr (z :: b0) 0 p) with (Some (p :: b0)). osimpl. change (drop 1 (p :: b0)) with b0. change (take 1 (p :: b0)) with [p].
  assert (zlen b0 = 23) as Hb0 by (cbn [length] in Hl; unfold REDIS_LONGSTR_SIZE in Hl; lia).
  pose proof (dec_length_20 v Hv) as Hd. pose proof (ll2string_spec b0 v Hv) as E.
  rewrite Hb0, (proj2 (Z.leb_gt _ _)) in E by lia. change (REDIS_LONGSTR_SIZE + 2) with 23. rewrite E. osimpl.
  set (t := drop _ b0). assert (zlen t = 22 - zlen (dec v)) as Ht by (unfold t; rewrite length_drop; lia).
  destruct t as [|c t]; [cbn in Ht; lia|]. exists t.
  change ([p] ++ dec v ++ 0 :: c :: t) with ((p :: dec v) ++ [0; c] ++ t).
  rewrite wrn_app by (done || (cbn [length]; lia)). osimpl. unfold header. cbn [app]. by rewrite <- app_assoc.
Qed.

Lemma load_heap sv l o : world sv !! l = Some o -> on_heap (load l) sv = Some (o, sv).
Proof. intros E. unfold on_heap, load. cbn. rewrite E. cbn. by destruct sv. Qed.

Lemma feed_object_spec base s sv l x :
  backlog base s sv -> base + zlen s + zlen x < 2 ^ 62 -> holds (overview sv) l x ->
  exists sv', feedReplicationBacklogWithObject uninit l sv = Some (tt, sv') /\ backlog base (s ++ x) sv' /\ same_rest sv sv'.
Proof.
  intros Hb Hx Hl. unfold feedReplicationBacklogWithObject.
  destruct Hl as [(sd & (r & Hl & _) & Hr)|(v & (r & Hl & _) & Hv & ->)]; rewrite (bind_run _ _ _ _ _ (load_heap _ _ _ Hl)); cbn [ptr].
  - destruct (repr_sds _ _ Hr) as (_ & -> & t & ->). by apply feed_spec.
  - destruct (ll2string_in uninit REDIS_LONGSTR_SIZE v) as (t & E); [done|done|]. rewrite (lift_run _ _ _ _ E). by apply feed_spec.
Qed.

Lemma object_length_spec sv l x : holds (overview sv) l x -> stringObjectLen uninit l sv = Some (zlen x, sv).
Proof.
  intros Hl. unfold stringObjectLen.
  destruct Hl as [(sd & (r & Hl & _) & Hr)|(v & (r & Hl & _) & Hv & ->)]; rewrite (bind_run _ _ _ _ _ (load_heap _ _ _ Hl)); cbn [ptr].
  - by destruct (repr_sds _ _ Hr) as (_ & -> & _).
  - destruct (ll2string_in uninit 32 v) as (t & E); [done|done|]. by rewrite (lift_run _ _ _ _ E).
Qed.

Lemma overview_same sv sv' : same_rest sv sv' -> overview sv' = overview sv.
Proof. intros (E1 & E2 & E3 & _). unfold overview, view. by rewrite E1, E2, E3. Qed.

Lemma feed_args_spec argv : forall base s sv args,
  Forall2 (fun a x => db !! a = Some x /\ zlen x <= 2 ^ 29) argv args ->
  backlog base s sv -> base + zlen s + zlen (Request.bulks args) < 2 ^ 62 -> available shared db (overview sv) ->
  exists sv', feed_args uninit argv sv = Some (tt, sv') /\ backlog base (s ++ Request.bulks args) sv' /\ same_rest sv sv'.
Proof.
  induction argv as [|a argv IH]; intros base s sv args Hargs Hb Hlen Hav.
  - apply Forall2_nil_inv_l in Hargs as ->. exists sv. cbn. rewrite app_nil_r. done.
  - apply Forall2_cons_inv_l in Hargs as (x & args' & [Ha Hx] & Hargs & ->).
    assert (holds (overview sv) a x) as Hh by (by apply Hav).
    rewrite Request.bulks_cons in *. change (Request.bulk_header (zlen x)) with (header 36 (zlen x)) in *.
    change Request.crlf with CRLF in *. rewrite !length_app in Hlen.
    cbn [feed_args]. rewrite (bind_run _ _ _ _ _ (object_length_spec _ _ _ Hh)).
    destruct (aux_line_spec 36 (zlen x)) as (t & E); [unfold in_s; lia|]. rewrite (lift_run _ _ _ _ E).
    replace (zlen (dec (zlen x)) + 3) with (zlen (header 36 (zlen x))) by (unfold header; cbn [length]; rewrite length_app; cbn; lia).
    destruct (feed_spec base s sv (header 36 (zlen x)) t Hb) as (sv1 & E1 & B1 & S1); [lia|].
    rewrite (bind_run _ _ _ _ _ E1).
    destruct (feed_object_spec base _ sv1 a x B1) as (sv2 & E2 & B2 & S2); [rewrite length_app; lia|by rewrite (overview_same _ _ S1)|].
    rewrite (bind_run _ _ _ _ _ E2).
    assert (same_rest sv sv2) as S02 by (by eapply same_rest_trans).
    replace (drop (Z.to_nat (zlen (dec (zlen x)) + 1)) (header 36 (zlen x) ++ t)) with (CRLF ++ t).
    2: { unfold header. change (36 :: dec (zlen x) ++ CRLF) with ((36 :: dec (zlen x)) ++ CRLF). rewrite <- app_assoc.
         symmetry. apply drop_app_length'. cbn [length]. lia. }
    destruct (feed_spec base _ sv2 CRLF t B2) as (sv3 & E3 & B3 & S3); [rewrite !length_app; lia|].
    change (zlen CRLF) with 2 in E3. rewrite (bind_run _ _ _ _ _ E3).
    assert (same_rest sv sv3) as S03 by (by eapply same_rest_trans).
    destruct (IH base _ sv3 args' Hargs B3) as (sv4 & E4 & B4 & S4); [rewrite !length_app; lia|by rewrite (overview_same _ _ S03)|].
    exists sv4. split; [done|]. split; [by rewrite <- !app_assoc in B4|by eapply same_rest_trans].
Qed.

(** *** To the slaves *)
Lemma overview_view sv c P : c ∈ clients sv -> stable P ->
  (forall s, P s -> forall h cc tc, h = heap s -> (forall l, occ l (reply cc) <= occ l (reply (cl s))) -> P (St h cc tc)) ->
  P (overview sv) -> P (view sv c).
Proof.
  intros Hc _ Hsub HP. apply (Hsub _ HP); [done|]. intros l. cbn.
  apply list_elem_of_lookup in Hc as (i & Hi). destruct (occ_everyone l (clients sv) i c Hi) as (r & Hr & E & _).
  unfold everyone in *. lia.
Qed.

Lemma holds_sub s l x : holds s l x -> forall h cc tc, h = heap s ->
  (forall l, occ l (reply cc) <= occ l (reply (cl s))) -> holds (St h cc tc) l x.
Proof.
  intros Hh h cc tc -> Hocc. specialize (Hocc l).
  destruct Hh as [(sd & (r & Hl & Hr) & Hx)|(v & (r & Hl & Hr) & Hv)]; [left; exists sd|right; exists v];
    (split; [exists r; cbn; split; [done|lia]|done]).
Qed.

Lemma holds_view sv c l x : c ∈ clients sv -> holds (overview sv) l x -> holds (view sv c) l x.
Proof.
  intros Hc Hh. apply (overview_view sv c (fun s => holds s l x)); [done|apply holds_stable| |done].
  intros s Hs. by apply holds_sub.
Qed.

Lemma available_view sv c : c ∈ clients sv -> available shared db (overview sv) -> available shared db (view sv c).
Proof.
  intros Hc [[] Hd]. split; [split|]; try (by apply holds_view).
  - intros i Hi. destruct (ok_mbulkhdr0 i Hi) as (l & E & Hl). exists l. split; [done|]. by apply holds_view.
  - intros i Hi. destruct (ok_bulkhdr0 i Hi) as (l & E & Hl). exists l. split; [done|]. by apply holds_view.
  - intros l x E. apply holds_view; [done|]. by apply Hd.
Qed.

Lemma spoken_stable n sv qs f sv' qs' P : spoken zs n sv qs f sv' qs' -> stable P -> P (overview sv) -> P (overview sv').
Proof. intros (_ & _ & F & _) HP Hs. by eapply HP. Qed.

Lemma spoken_le m n sv qs f sv' qs' : spoken zs m sv qs f sv' qs' -> 0 <= n <= m -> spoken zs n sv qs f sv' qs'.
Proof. intros (C & H) Hn. split; [by eapply conns_le|done]. Qed.

(** A text for each of the slaves. *)
Lemma each_slave_spec k x m ls : forall n sv qs (P : server -> Prop),
  NoDup ls -> 0 <= n -> 0 <= k -> conns zs (n + k * zlen ls) sv qs ->
  (forall i, i ∈ ls -> exists c, clients sv !! i = Some c /\ accepts c) -> P sv ->
  (forall n i sv qs c, 0 <= n -> conns zs (n + k) sv qs -> clients sv !! i = Some c -> accepts c -> P sv ->
    exists sv' qs', m i sv = Some (tt, sv') /\
      spoken zs n sv qs (fun j => if decide (j = i) then x c else []) sv' qs' /\ P sv') ->
  (forall c c', same_client c c' -> x c' = x c) ->
  exists sv' qs', each_slave ls m sv = Some (tt, sv') /\ P sv' /\
    spoken zs n sv qs (fun j => if decide (j ∈ ls) then from_option x [] (clients sv !! j) else []) sv' qs'.
Proof.
  induction ls as [|i ls IH]; intros n sv qs P Hnd Hn Hk Hcs Hls HP Hm Hx.
  - exists sv, qs. split; [done|]. split; [done|]. eapply spoken_ext; [apply spoken_refl|].
    + change (zlen (@nil nat)) with 0 in Hcs. rewrite Z.mul_0_r, Z.add_0_r in Hcs. exact Hcs.
    + intros j c _. by rewrite decide_False by set_solver.
  - apply NoDup_cons in Hnd as [Hni Hnd]. destruct (Hls i) as (c & Hc & Ha); [set_solver|]. cbn [each_slave length] in *.
    destruct (Hm (n + k * zlen ls) i sv qs c) as (sv1 & qs1 & E1 & S1 & P1); [lia| |done|done|done|].
    { replace (n + k * zlen ls + k) with (n + k * Z.of_nat (S (length ls))) by lia. done. }
    rewrite (bind_run _ _ _ _ _ E1). pose proof S1 as (Hcs1 & _ & _ & Hall).
    pose proof (Forall2_length _ _ _ (conn_lines _ _ _ _ Hcs)) as Hlen.
    assert (forall j d, clients sv !! j = Some d -> exists d', clients sv1 !! j = Some d' /\ same_client d d') as Hcl.
    { intros j d Hd. destruct (lookup_lt_is_Some_2 qs j) as [q Hq]; [rewrite <- Hlen; by eapply lookup_lt_Some|].
      destruct (Hall j d q Hd Hq) as (d' & _ & Hd' & _ & _ & C). by exists d'. }
    destruct (IH n sv1 qs1 P Hnd Hn Hk Hcs1) as (sv2 & qs2 & E2 & P2 & S2); [|done|done|done|].
    { intros j Hj. destruct (Hls j) as (d & Hd & Had); [set_solver|]. destruct (Hcl j d Hd) as (d' & Hd' & C).
      exists d'. split; [done|]. by eapply accepts_same. }
    exists sv2, qs2. split; [done|]. split; [done|]. eapply spoken_ext; [by eapply spoken_trans|].
    intros j d Hd. cbn. destruct (Hcl j d Hd) as (d' & Hd' & C). rewrite Hd, Hd'. cbn.
    destruct (decide (j = i)) as [->|Hj].
    + rewrite (decide_False (P := i ∈ ls)), app_nil_r, decide_True by set_solver. rewrite Hc in Hd. by injection Hd as <-.
    + cbn [app]. destruct (decide (j ∈ ls)); [rewrite decide_True by set_solver|rewrite decide_False by set_solver; done]. by apply Hx.
Qed.

(** Feeding the backlog says nothing to clients. *)
Lemma same_rest_spoken n sv qs sv' : conns zs n sv qs -> same_rest sv sv' -> spoken zs n sv qs (fun _ => []) sv' qs.
Proof.
  intros [Hl Hr] (E1 & E2 & E3 & E4 & E5 & E6). split; [split|split; [done|]].
  - rewrite E2. eapply Forall2_impl; [exact Hl|]. intros c q [Ho Hh]. split; [|done]. unfold view in *. by rewrite E1, E3.
  - by rewrite E1, E2.
  - rewrite E1, E2. split; [apply frame_refl|]. intros j c q Hc Hq. exists c, q. by rewrite app_nil_r.
Qed.

Lemma said_command argv args : Forall2 (fun a x => db !! a = Some x /\ zlen x <= 2 ^ 29) argv args -> zlen argv < 2 ^ 31 ->
  says zs (1 + 3 * zlen argv) (available shared db)
    (_ ← addReplyMultiBulkLen uninit unixtime client_obuf_limits list_item_size zs true shared (zlen argv);
     reply_bulks uninit unixtime client_obuf_limits list_item_size zs shared argv)
    (Request.request args).
Proof.
  intros Hargs Hn. unfold Request.request. pose proof (Forall2_length _ _ _ Hargs) as Hlen. rewrite <- Hlen.
  apply says_bind; [|clear Hn Hlen|apply available_stable|lia].
  { eapply says_mono; [by apply (says_multilen uninit unixtime client_obuf_limits list_item_size zs zs_bound shared); lia|lia|by intros s [Hs _]]. }
  induction Hargs as [|a x argv args [Ha Hx] _ IH].
  - intros n s b segs Hq _ _. exists s. split; [done|]. exists b, segs. cbn in Hq. rewrite Z.add_0_r in Hq.
    split; [done|]. split; [by rewrite app_nil_r|]. split; [apply frame_refl|done].
  - replace (3 * zlen (a :: argv)) with (3 + 3 * zlen argv) by (cbn [length]; lia).
    unfold Request.bulks. rewrite bind_cons. apply says_bind; [|exact IH|apply available_stable|lia].
    eapply says_mono; [by apply (says_bulk uninit unixtime client_obuf_limits list_item_size zs zs_bound shared a x)|lia|].
    intros s [Hs Hd]. split; [done|]. by apply Hd.
Qed.

(** The state of the stream while a command is fed. *)
Definition feeding (base : Z) (s : list Z) (sv : server) : Prop :=
  backlog base s sv /\ available shared db (overview sv).

Definition command_for (args : list (list Z)) (c : client) : list Z :=
  if replstate c =? REDIS_REPL_WAIT_BGSAVE_START then [] else Request.request args.

Lemma qs_lookup n sv qs i c : conns zs n sv qs -> clients sv !! i = Some c -> exists q, qs !! i = Some q.
Proof. intros [Hl _] Hc. destruct (Forall2_lookup_l _ _ _ _ _ Hl Hc) as (q & Hq & _). by exists q. Qed.

Lemma told_says_spoken n k sv qs i c P m x :
  conns zs (n + k) sv qs -> 0 <= n -> 0 <= k -> clients sv !! i = Some c -> accepts c ->
  says zs k P m x -> P (view sv c) ->
  exists sv' qs', on_client i m sv = Some (tt, sv') /\
    spoken zs n sv qs (fun j => if decide (j = i) then x else []) sv' qs' /\
    (forall base s, backlog base s sv -> backlog base s sv').
Proof.
  intros Hcs Hn Hk Hc Ha Hm HP. destruct (qs_lookup _ _ _ _ _ Hcs Hc) as (q & Hq).
  destruct (told_says zs n k sv qs i c q P m x Hcs Hn Hk Hc Hq Ha Hm HP) as (sv' & E & T).
  destruct (told_spoken _ _ _ _ _ _ T) as (qs' & S). destruct (told_backlog _ _ _ _ _ _ _ T) as (_ & _ & Hb).
  by exists sv', qs'.
Qed.

Lemma feed_slave_spec base s argv args n i sv qs c :
  Forall2 (fun a x => db !! a = Some x /\ zlen x <= 2 ^ 29) argv args -> zlen argv < 2 ^ 31 -> 0 <= n ->
  conns zs (n + (1 + 3 * zlen argv)) sv qs -> clients sv !! i = Some c -> accepts c -> feeding base s sv ->
  exists sv' qs', feed_slave uninit unixtime client_obuf_limits list_item_size zs shared argv i sv = Some (tt, sv') /\
    spoken zs n sv qs (fun j => if decide (j = i) then command_for args c else []) sv' qs' /\ feeding base s sv'.
Proof.
  intros Hargs Hlen Hn Hcs Hc Ha [Hb Hav]. unfold feed_slave, command_for. rewrite ask_run, (lift_run _ _ _ _ Hc).
  destruct (Z.eqb_spec (replstate c) REDIS_REPL_WAIT_BGSAVE_START).
  { exists sv, qs. split; [done|]. split; [|done]. eapply spoken_ext; [apply spoken_refl; eapply conns_le; [exact Hcs|lia]|].
    intros j d _. by destruct (decide (j = i)). }
  destruct (told_says_spoken n _ sv qs i c (available shared db) _ _ Hcs Hn ltac:(lia) Hc Ha (said_command argv args Hargs Hlen))
    as (sv' & qs' & E & S & Hb').
  { apply available_view; [|done]. by eapply list_elem_of_lookup_2. }
  exists sv', qs'. split; [exact E|]. split; [exact S|]. split; [by apply Hb'|].
  eapply spoken_stable; [exact S|apply available_stable|exact Hav].
Qed.

(** *** The database of the stream *)
Definition SELECT : list Z := [83; 69; 76; 69; 67; 84].

Lemma select_text_request d : select_text d = Request.request [SELECT; dec d].
Proof.
  unfold Request.request, Request.bulks. cbn [mbind list_bind]. unfold Request.bulk, Request.bulk_header, Request.count_header.
  rewrite app_nil_r. change (dec (zlen [SELECT; dec d])) with [50]. change (dec (zlen SELECT)) with [54].
  unfold select_text. cbn [app]. by rewrite <- !app_assoc.
Qed.

Definition select_ok (s : st) : Prop := forall j, 0 <= j < REDIS_SHARED_SELECT_CMDS ->
  exists l, rd select j = Some l /\ holds s l (select_text j).

Lemma Forall2_in {A C} (P Q : A -> C -> Prop) l k :
  Forall2 P l k -> (forall x y, x ∈ l -> P x y -> Q x y) -> Forall2 Q l k.
Proof.
  induction 1 as [|x y l k H _ IH]; intros HQ; [constructor|]. constructor; [apply HQ; [set_solver|done]|].
  apply IH. intros a b Ha. apply HQ. set_solver.
Qed.

Lemma create_heap n sv qs sd (l := fresh (dom (world sv)))
    (sv1 := with_world sv (<[l := Obj (PRaw sd) 1]> (world sv)) (clients sv) (closing sv)) :
  conns zs n sv qs ->
  on_heap (createObject sd) sv = Some (l, sv1) /\ conns zs n sv1 qs /\ keeps (overview sv1) l (PRaw sd) /\ world sv !! l = None.
Proof.
  intros [Hl Hr]. assert (world sv !! l = None) as Hfr by (apply not_elem_of_dom, is_fresh).
  assert (occ l (everyone (clients sv)) = 0) as H0.
  { apply occ_notin. intros Hin. apply list_elem_of_bind in Hin as (d & Hd & Hc). apply list_elem_of_lookup in Hc as (j & Hj).
    destruct (Forall2_lookup_l _ _ _ _ _ Hl Hj) as (q2 & _ & [[_ _ [Hs _] _ _ _ _] _]).
    destruct (segs_in _ _ _ _ Hs Hd) as [o Ho]. cbn in Ho. congruence. }
  split; [done|]. split; [split|split; [|done]].
  - eapply Forall2_impl; [exact Hl|]. intros c q [Ho Hh]. split; [|done].
    by destruct (alloc_spec zs n (view sv c) q.1 (map Text q.2) (PRaw sd) Ho) as (O1 & _).
  - intros k o. cbn. destruct (decide (k = l)) as [->|Hk].
    + rewrite lookup_insert_eq, H0. intros [= <-]. cbn. lia.
    + rewrite lookup_insert_ne by done. apply Hr.
  - exists 1. cbn. rewrite lookup_insert_eq, H0. split; [done|lia].
Qed.

Lemma release_heap n sv qs l sd :
  conns zs n sv qs -> keeps (overview sv) l (PRaw sd) ->
  exists h', let sv1 := with_world sv h' (clients sv) (closing sv) in
    on_heap (decrRefCount l) sv = Some (tt, sv1) /\ conns zs n sv1 qs /\ (forall k, k <> l -> h' !! k = world sv !! k).
Proof.
  intros [Hl Hr] (r & Hlr & Hlt). cbn in Hlr, Hlt. pose proof (occ_pos l (everyone (clients sv))) as Hp.
  pose proof (decrRefCount_run (view sv nobody) l (PRaw sd) r Hlr ltac:(lia)) as Ed. cbn [heap cl to_close view] in Ed.
  exists (decr_heap (world sv) l (PRaw sd) r).
  assert (forall k, k <> l -> decr_heap (world sv) l (PRaw sd) r !! k = world sv !! k) as Hne.
  { intros k Hk. unfold decr_heap. destruct (r =? 1); [by rewrite lookup_delete_ne|by rewrite lookup_insert_ne]. }
  split; [unfold on_heap; unfold view in Ed; rewrite Ed; done|]. split; [split|done].
  - eapply Forall2_in; [exact Hl|]. intros c q Hc [Ho Hh]. split; [|done].
    assert (keeps (view sv c) l (PRaw sd)) as Hk.
    { exists r. cbn. split; [done|]. apply list_elem_of_lookup in Hc as (i & Hi).
      destruct (occ_everyone l (clients sv) i c Hi) as (r0 & Hr0 & E & _). unfold everyone in *. lia. }
    destruct (release_ref zs n (view sv c) q.1 (map Text q.2) l (PRaw sd) Ho Hk ltac:(done)) as (s' & E' & O' & _).
    rewrite (decrRefCount_run (view sv c) l (PRaw sd) r Hlr ltac:(lia)) in E'. injection E' as <-. exact O'.
  - intros k o. cbn. destruct (decide (k = l)) as [->|Hk]; [|rewrite Hne by done; apply Hr].
    unfold decr_heap. destruct (Z.eqb_spec r 1); [by rewrite lookup_delete_eq|]. rewrite lookup_insert_eq.
    intros [= <-]. cbn. lia.
Qed.

Local Abbreviation add_reply := (addReply uninit unixtime client_obuf_limits list_item_size zs true).

Lemma feed_select_with base s n sv qs ls cmd x :
  NoDup ls -> 0 <= n -> conns zs (n + zlen ls) sv qs ->
  (forall i, i ∈ ls -> exists c, clients sv !! i = Some c /\ accepts c) ->
  backlog base s sv -> base + zlen s + zlen x < 2 ^ 62 -> zlen x <= 2 ^ 29 -> holds (overview sv) cmd x ->
  exists sv' qs',
    (forall k : R unit,
     (sv ← ask;
      _ ← match repl_backlog sv with Some _ => feedReplicationBacklogWithObject uninit cmd | None => mret tt end;
      _ ← each_slave ls (fun i => on_client i (add_reply cmd));
      k) sv = k sv') /\
    spoken zs n sv qs (fun j => if decide (j ∈ ls) then x else []) sv' qs' /\ backlog base (s ++ x) sv'.
Proof.
  intros Hnd Hn Hcs Hls Hb Hlen Hx Hh. destruct (bl_ring _ _ _ Hb) as (_ & _ & (a & b & Eb & _)).
  destruct (feed_object_spec base s sv cmd x Hb Hlen Hh) as (sv1 & E1 & B1 & S1).
  pose proof (same_rest_spoken _ _ _ _ Hcs S1) as Sp1. pose proof S1 as (_ & Ecl & _).
  destruct (each_slave_spec 1 (fun _ => x) (fun i => on_client i (add_reply cmd)) ls n sv1 qs
    (fun sv => backlog base (s ++ x) sv /\ holds (overview sv) cmd x)) as (sv2 & qs2 & E2 & [B2 _] & Sp2).
  { done. } { done. } { lia. } { rewrite Z.mul_1_l. by destruct Sp1. } { by rewrite Ecl. }
  { split; [done|]. by rewrite (overview_same _ _ S1). }
  { intros n0 i sv0 qs0 c Hn0 Hcs0 Hc0 Ha0 [B0 H0].
    destruct (told_says_spoken n0 1 sv0 qs0 i c (fun s => holds s cmd x) (add_reply cmd) x Hcs0 Hn0 ltac:(lia) Hc0 Ha0)
      as (sv' & qs' & E & S & Hb').
    - by apply says_object.
    - apply holds_view; [|done]. by eapply list_elem_of_lookup_2.
    - exists sv', qs'. split; [exact E|]. split; [exact S|]. split; [by apply Hb'|].
      exact (spoken_stable _ _ _ _ _ _ _ S (holds_stable cmd x) H0). }
  { done. }
  exists sv2, qs2. split; [intros k; by rewrite ask_run, Eb, (bind_run _ _ _ _ _ E1), (bind_run _ _ _ _ _ E2)|].
  split; [|done]. eapply spoken_ext; [by eapply spoken_trans|]. intros j c Hc. cbn. rewrite Ecl, Hc. done.
Qed.

Local Abbreviation feed_db := (feed_select uninit unixtime client_obuf_limits list_item_size zs select).

Lemma feed_select_spec base s n sv qs ls d :
  NoDup ls -> 0 <= n -> conns zs (n + zlen ls) sv qs ->
  (forall i, i ∈ ls -> exists c, clients sv !! i = Some c /\ accepts c) ->
  backlog base s sv -> base + zlen s + zlen (select_text d) < 2 ^ 62 -> in_s 32 d -> select_ok (overview sv) ->
  exists sv' qs', feed_db ls d sv = Some (tt, sv') /\
    spoken zs n sv qs (fun j => if decide (j ∈ ls) then select_text d else []) sv' qs' /\ backlog base (s ++ select_text d) sv'.
Proof.
  intros Hnd Hn Hcs Hls Hb Hlen Hd Hsel. unfold feed_select, selectcmd.
  assert (in_s 64 d) as Hd64 by (unfold in_s in *; change (2 ^ (32 - 1)) with (2 ^ 31) in Hd; change (2 ^ (64 - 1)) with (2 ^ 63); lia).
  assert (zlen (select_text d) <= 2 ^ 29) as Hx by (pose proof (select_text_small d Hd64); lia).
  destruct ((0 <=? d) && (d <? REDIS_SHARED_SELECT_CMDS)) eqn:Er.
  - destruct (Hsel d) as (l & El & Hl); [lia|]. rewrite (lift_run _ _ _ _ El).
    destruct (feed_select_with base s n sv qs ls l (select_text d) Hnd Hn Hcs Hls Hb Hlen Hx Hl) as (sv' & qs' & E & S & B).
    exists sv', qs'. rewrite E. assert ((d <? 0) || (REDIS_SHARED_SELECT_CMDS <=? d) = false) as -> by lia. done.
  - destruct (create_select_run uninit REDIS_LONGSTR_SIZE d) as (sd & Ecr & R1); [done|done|].
    assert (on_heap (create_select uninit REDIS_LONGSTR_SIZE d) sv = on_heap (createObject sd) sv) as Eon
      by (unfold on_heap; by rewrite Ecr).
    destruct (create_heap _ sv qs sd Hcs) as (E2 & C2 & K2 & Hfr). set (l := fresh (dom (world sv))) in *.
    set (sv1 := with_world sv _ _ _) in *. rewrite <- Eon in E2. rewrite (bind_run _ _ _ _ _ E2).
    destruct (feed_select_with base s n sv1 qs ls l (select_text d) Hnd Hn C2) as (sv2 & qs2 & E3 & S3 & B3);
      [done|by apply backlog_world|done|done|left; by exists sd|].
    rewrite E3. assert ((d <? 0) || (REDIS_SHARED_SELECT_CMDS <=? d) = true) as -> by lia.
    pose proof S3 as (C3 & R3 & F3 & H3).
    destruct (release_heap n sv2 qs2 l sd C3) as (h' & E4 & C4 & Hne); [exact (keeps_frame (overview sv1) (overview sv2) l (PRaw sd) K2 F3)|].
    eexists _, qs2. split; [exact E4|]. split; [|by apply backlog_world].
    split; [exact C4|]. split; [exact R3|]. split; [|exact H3].
    intros k o Ho Hlt. assert (k <> l) as Hkl by congruence. cbn. rewrite Hne by done. apply F3; [|exact Hlt].
    unfold sv1. cbn. by rewrite lookup_insert_ne.
Qed.

(** *** A command *)
Local Abbreviation feed_slaves :=
  (replicationFeedSlaves uninit unixtime client_obuf_limits list_item_size zs shared select).

(** The database is selected first when it is another one. *)
Definition select_for (sv : server) (d : Z) : list Z := if slaveseldb sv =? d then [] else Request.request [SELECT; dec d].

Definition feed_cost (ls : list nat) (argv : list loc) : Z := (2 + 3 * zlen argv) * zlen ls.

Lemma set_seldb_spoken n sv qs d : conns zs n sv qs ->
  conns zs n (with_seldb sv d) qs /\ overview (with_seldb sv d) = overview sv.
Proof. intros [Hl Hr]. split; [|done]. split; [|done]. exact Hl. Qed.

Lemma feed_slaves_spec base s n sv qs ls d argv args :
  NoDup ls -> 0 <= n -> conns zs (n + feed_cost ls argv) sv qs ->
  (forall i, i ∈ ls -> exists c, clients sv !! i = Some c /\ accepts c) ->
  Forall2 (fun a x => db !! a = Some x /\ zlen x <= 2 ^ 29) argv args -> zlen argv < 2 ^ 31 -> in_s 32 d ->
  backlog base s sv -> available shared db (overview sv) -> select_ok (overview sv) ->
  let x := select_for sv d ++ Request.request args in
  base + zlen s + zlen x < 2 ^ 62 ->
  exists sv' qs', feed_slaves ls d argv sv = Some (tt, sv') /\ backlog base (s ++ x) sv' /\ slaveseldb sv' = d /\
    slaves sv' = slaves sv /\ repl_backlog_size sv' = repl_backlog_size sv /\
    conns zs n sv' qs' /\ frame (world sv) (everyone (clients sv)) (world sv') (everyone (clients sv')) /\
    forall j c q, clients sv !! j = Some c -> qs !! j = Some q ->
      exists c' q', clients sv' !! j = Some c' /\ qs' !! j = Some q' /\ same_client c c' /\
        kept c' q' = kept c q ++ if decide (j ∈ ls) then select_for sv d ++ command_for args c else [].
Proof.
  intros Hnd Hn Hcs Hls Hargs Hlen Hd Hb Hav Hsel x Hx. unfold replicationFeedSlaves. rewrite ask_run.
  destruct (bl_ring _ _ _ Hb) as (_ & _ & (ra & rb & Eb & _)). rewrite Eb.
  unfold x in *. rewrite length_app in Hx. unfold feed_cost in Hcs.
  set (m := n + (1 + 3 * zlen argv) * zlen ls).
  assert (exists sv1 qs1, (if negb (slaveseldb sv =? d)
      then feed_db ls d else mret tt) sv = Some (tt, sv1) /\
    spoken zs m sv qs (fun j => if decide (j ∈ ls) then select_for sv d else []) sv1 qs1 /\
    backlog base (s ++ select_for sv d) sv1) as (sv1 & qs1 & E1 & S1 & B1).
  { unfold select_for in *. destruct (Z.eqb_spec (slaveseldb sv) d) as [_|_]; cbn [negb].
    - exists sv, qs. split; [done|]. rewrite app_nil_r. split; [|done]. eapply spoken_ext.
      + apply spoken_refl. eapply conns_le; [exact Hcs|]. unfold m. nia.
      + intros j c _. by destruct (decide (j ∈ ls)).
    - rewrite <- select_text_request in *. apply feed_select_spec; [done|unfold m; nia| |done|done|lia|done|done].
      replace (m + zlen ls) with (n + (2 + 3 * zlen argv) * zlen ls) by (unfold m; lia). done. }
  rewrite (bind_run _ _ _ _ _ E1), ask_run, set_run. pose proof S1 as (C1 & R1 & F1 & H1).
  destruct (set_seldb_spoken m sv1 qs1 d C1) as [C1' O1']. set (sv1' := with_seldb sv1 d) in *.
  assert (backlog base (s ++ select_for sv d) sv1') as B1' by (destruct B1; by split).
  assert (available shared db (overview sv1')) as A1'.
  { rewrite O1'. eapply spoken_stable; [exact S1|apply available_stable|exact Hav]. }
  pose proof (Forall2_length _ _ _ Hargs) as Hal.
  destruct (aux_line_spec 42 (zlen argv)) as (t & Ea); [unfold in_s; change (2 ^ (64 - 1)) with (2 ^ 63); lia|].
  rewrite (lift_run _ _ _ _ Ea).
  replace (zlen (dec (zlen argv)) + 3) with (zlen (header 42 (zlen argv))) by (unfold header; cbn [length]; rewrite length_app; cbn; lia).
  assert (Request.request args = header 42 (zlen argv) ++ Request.bulks args) as Ereq by (unfold Request.request; by rewrite <- Hal).
  rewrite Ereq, length_app in Hx.
  destruct (feed_spec base _ sv1' (header 42 (zlen argv)) t B1') as (sv2 & E2 & B2 & S2); [rewrite length_app; lia|].
  rewrite (bind_run _ _ _ _ _ E2).
  destruct (feed_args_spec argv base _ sv2 args Hargs B2) as (sv3 & E3 & B3 & S3);
    [rewrite !length_app; lia|by rewrite (overview_same _ _ S2)|].
  rewrite (bind_run _ _ _ _ _ E3). assert (same_rest sv1' sv3) as S13 by (by eapply same_rest_trans).
  pose proof (same_rest_spoken _ _ _ _ C1' S13) as Sp3. pose proof Sp3 as (C3 & R3 & F3 & H3).
  assert (clients sv3 = clients sv1) as Ecl by (destruct S13 as (_ & -> & _); done).
  assert (forall j c, clients sv !! j = Some c -> exists c', clients sv3 !! j = Some c' /\ same_client c c') as Hcl.
  { intros j c Hc. destruct (qs_lookup _ _ _ _ _ Hcs Hc) as (q & Hq). destruct (H1 j c q Hc Hq) as (c' & _ & Hc' & _ & _ & HC).
    exists c'. by rewrite Ecl. }
  destruct (each_slave_spec (1 + 3 * zlen argv) (command_for args)
    (feed_slave uninit unixtime client_obuf_limits list_item_size zs shared argv) ls n sv3 qs1
    (feeding base ((s ++ select_for sv d) ++ Request.request args))) as (sv4 & qs4 & E4 & [B4 _] & Sp4).
  { done. } { done. } { lia. } { exact C3. }
  { intros i Hi. destruct (Hls i Hi) as (c & Hc & Ha). destruct (Hcl i c Hc) as (c' & Hc' & HC). exists c'. split; [done|]. by eapply accepts_same. }
  { split; [by rewrite Ereq, app_assoc|]. by rewrite (overview_same _ _ S13). }
  { intros n0 i sv0 qs0 c Hn0 Hcs0 Hc0 Ha0 Hf0. by apply feed_slave_spec. }
  { intros c c' (_ & Hr & _). unfold command_for. by rewrite Hr. }
  exists sv4, qs4. split; [exact E4|]. split; [by rewrite app_assoc|]. pose proof Sp4 as (C4 & R4 & F4 & H4).
  destruct R1 as (A1 & A2 & A3), R3 as (A4 & A5 & A6), R4 as (A7 & A8 & A9). cbn in A4, A5, A6.
  split; [by rewrite A8, A5|]. split; [by rewrite A7, A4, A1|]. split; [by rewrite A9, A6, A3|]. split; [done|].
  split; [eapply frame_compose; [exact F1|eapply frame_compose; [exact F3|exact F4]]|].
  intros j c q Hc Hq. destruct (H1 j c q Hc Hq) as (c1 & q1 & Hc1 & Hq1 & K1 & HC1).
  assert (clients sv3 !! j = Some c1) as Hc3 by (by rewrite Ecl).
  destruct (H4 j c1 q1 Hc3 Hq1) as (c4 & q4 & Hc4 & Hq4 & K4 & HC4). exists c4, q4. split; [done|]. split; [done|].
  split; [by eapply same_client_trans|]. rewrite K4, K1, <- app_assoc. f_equal. destruct (decide (j ∈ ls)); [|done]. f_equal.
  rewrite Hc3. cbn. unfold command_for. destruct HC1 as (_ & -> & _). done.
Qed.
End Feed.

(** ** Partial resynchronization *)
Section Resync.
Context (uninit : nat -> Z) (unixtime : Z) (client_obuf_limits : Z -> limits) (list_item_size : Z) (zs : sdshdr -> Z).
Context (runid : list Z).
Hypothesis zs_bound : forall s, 0 <= zs s < 2 ^ 33.

Lemma strcaseeq_spec a : forall b t u,
  Forall (fun c => 0 < c) a -> Forall (fun c => 0 < c) b ->
  strcaseeq (a ++ 0 :: t) (b ++ 0 :: u) = Some (bool_decide (map tolower a = map tolower b)).
Proof.
  assert (forall c, 0 < c -> 0 < tolower c) as Ht by (intros c Hc; unfold tolower; destruct (_ && _); lia).
  change (tolower 0) with 0. induction a as [|x a IH]; intros [|y b] t u Ha Hb; cbn [app strcaseeq map].
  - done.
  - apply Forall_cons in Hb as [Hy _]. pose proof (Ht y Hy). change (tolower 0) with 0.
    rewrite (proj2 (Z.eqb_neq _ _)) by lia. done.
  - apply Forall_cons in Ha as [Hx _]. pose proof (Ht x Hx). change (tolower 0) with 0.
    rewrite (proj2 (Z.eqb_neq _ _)) by lia. done.
  - apply Forall_cons in Ha as [Hx Ha]. apply Forall_cons in Hb as [Hy Hb].
    destruct (Z.eqb_spec (tolower x) (tolower y)) as [E|E].
    + rewrite (proj2 (Z.eqb_neq _ _)) by lia. rewrite IH by done. f_equal. apply bool_decide_ext. rewrite E.
      split; [congruence|]. by intros [= ->].
    + f_equal. symmetry. apply bool_decide_eq_false. congruence.
Qed.

(** The connection becomes a slave's. *)
Definition as_slave (c : client) : client :=
  Client (Z.lor (flags c) REDIS_SLAVE) (fd c) REDIS_REPL_ONLINE (cbuf c) (bufpos c)
    (sentlen c) (reply c) (reply_bytes c) (obuf_soft_limit_reached_time c) (lastinteraction c) (writable c).

Lemma as_slave_accepts c : accepts c -> accepts (as_slave c).
Proof.
  intros [H1 H2].
  assert (forall f, Z.land f REDIS_SLAVE = 0 -> has (as_slave c) f = has c f) as Hf.
  { intros f Hf. unfold has. cbn [flags as_slave].
    rewrite Z.land_lor_distr_l, (Z.land_comm REDIS_SLAVE f), Hf, Z.lor_0_r. done. }
  unfold accepts. rewrite !Hf by done. done.
Qed.

Local Abbreviation master_psync := (masterTryPartialResynchronization uninit unixtime client_obuf_limits list_item_size zs runid true).

(** What the request of a slave is answered with. *)
Definition continues (sv : server) (id : list Z) (offset : Z) : Prop :=
  map tolower id = map tolower runid /\
  repl_backlog_off sv <= offset <= repl_backlog_off sv + repl_backlog_histlen sv.

Lemma mark_slave n sv qs i c :
  conns zs n sv qs -> clients sv !! i = Some c -> qs !! i = Some ([], []) -> accepts c -> 0 <= n ->
  let sv' := with_world sv (world sv) (<[i := as_slave c]> (clients sv)) (closing sv) in
  on_client i (c ← get; put (as_slave c)) sv = Some (tt, sv') /\ conns zs n sv' qs.
Proof.
  intros Hcs Hc Hq Ha Hn.
  destruct (conns_line zs n sv qs i c ([], []) Hcs Hc Hq Ha) as (Ho & _ & _).
  destruct (on_client_conns zs n n sv qs i c ([], []) (c ← get; put (as_slave c)) tt (view sv (as_slave c)) [] [] Hcs ltac:(lia) Hc Hq)
    as (E & C & _).
  - done.
  - split; [destruct Ho; by split|]. split; [by apply as_slave_accepts|]. by intros [].
  - apply frame_refl.
  - rewrite (list_insert_id qs i ([], [])) in C by done. by split.
Qed.

Lemma psync_spec base s n sv qs i c a1 a2 sd id offset :
  conns zs (n + 2) sv qs -> 0 <= n -> clients sv !! i = Some c -> qs !! i = Some ([], []) -> accepts c ->
  backlog base s sv -> repl_backlog_size sv <= 2 ^ 29 ->
  keeps (overview sv) a1 (PRaw sd) -> repr sd id -> Forall (fun c => 0 < c) id -> Forall (fun c => 0 < c) runid ->
  holds (overview sv) a2 (dec offset) -> in_s 64 offset ->
  (continues sv id offset ->
   exists sv' c' q', master_psync i a1 a2 sv = Some (true, CONTINUE, sv') /\
     clients sv' !! i = Some c' /\ replstate c' = REDIS_REPL_ONLINE /\ accepts c' /\ slaves sv' = slaves sv ++ [i] /\
     kept c' q' = drop (Z.to_nat (offset - base - 1)) s /\
     conns zs n sv' (<[i := q']> qs) /\ backlog base s sv' /\
     frame (world sv) (everyone (clients sv)) (world sv') (everyone (clients sv'))) /\
  (~ continues sv id offset ->
   master_psync i a1 a2 sv = Some (false, fullresync runid (master_repl_offset sv), sv)).
Proof.
  intros Hcs Hn Hc Hq Ha Hb Hmax (r1 & Hl1 & _) Hid Hidz Hrz Hoff Hv.
  destruct (bl_ring _ _ _ Hb) as (_ & _ & (ra & rb & Eb & _)).
  assert (forall A (k : bool -> R A), (v ← on_heap (load a1); id ← on_heap (sds_of v);
    same ← lift (strcaseeq (buf id) (runid ++ [0])); k same) sv = k (bool_decide (map tolower id = map tolower runid)) sv) as Hsame.
  { intros A k. rewrite (bind_run _ _ _ _ _ (load_heap _ _ _ Hl1)).
    rewrite (bind_run _ _ _ sd sv) by (unfold on_heap; cbn; by destruct sv).
    destruct Hid as (t & -> & _). cbn [buf]. by rewrite (lift_run _ _ _ _ (strcaseeq_spec id runid t [] Hidz Hrz)). }
  assert (need_full_resync runid true i sv = Some (false, fullresync runid (master_repl_offset sv), sv)) as Hfull.
  { unfold need_full_resync. rewrite ask_run, Eb. done. }
  assert (getLongLongFromObjectOrReply uninit unixtime client_obuf_limits list_item_size zs i a2 sv = Some (Some offset, sv)) as Hget.
  { unfold getLongLongFromObjectOrReply.
    destruct Hoff as [(sd2 & (r2 & Hl2 & _) & Hr2)|(v & (r2 & Hl2 & _) & Hv2 & E2)]; cbn in Hl2;
      rewrite (bind_run _ _ _ _ _ (load_heap _ _ _ Hl2)); unfold robj_of; cbn [ptr refcount];
      (erewrite lift_run; [|reflexivity]).
    - by rewrite (lift_run _ _ _ _ (Object.getLongLong_dec (Object.Robj (Object.ENC_RAW sd2) r2) offset Hv Hr2)).
    - by rewrite (lift_run _ _ _ _ (Object.getLongLong_dec (Object.Robj (Object.ENC_INT v) r2) offset Hv (conj Hv2 E2))). }
  unfold masterTryPartialResynchronization. rewrite Hsame. unfold continues.
  destruct (decide (map tolower id = map tolower runid)) as [Es|Es].
  2: { rewrite bool_decide_eq_false_2 by done. cbn [negb]. split; [by intros []|]. by intros _. }
  rewrite bool_decide_eq_true_2 by done. cbn [negb]. rewrite (bind_run _ _ _ _ _ Hget), ask_run, Eb. cbn [orb].
  destruct ((offset <? repl_backlog_off sv) || _) eqn:Ew.
  { split; [intros [_ ?]; lia|]. by intros _. }
  split; [|intros Hn'; exfalso; apply Hn'; split; [done|lia]]. intros [_ Hwin].
  destruct (mark_slave (n + 2) sv qs i c Hcs Hc Hq Ha ltac:(lia)) as (E1 & C1).
  change (c0 ← get; put (Client _ _ _ _ _ _ _ _ _ _ _)) with (c0 ← get; put (as_slave c0)).
  rewrite (bind_run _ _ _ _ _ E1), ask_run, set_run. cbn [slaves with_world].
  set (sv2 := with_slaves _ _).
  assert (conns zs (n + 2) sv2 qs) as C2 by (destruct C1; by split).
  assert (backlog base s sv2) as B2 by (destruct Hb; by split).
  assert (clients sv2 !! i = Some (as_slave c)) as Hc2 by (unfold sv2; cbn; apply list_lookup_insert_eq; by eapply lookup_lt_Some).
  destruct (psync_data uninit unixtime client_obuf_limits list_item_size zs zs_bound base s n sv2 qs i (as_slave c) ([], []) offset
    C2 Hn Hc2 Hq (as_slave_accepts _ Ha) B2 Hmax Hwin) as (sv3 & E3 & T3).
  rewrite (bind_run _ _ _ _ _ E3). destruct (told_backlog _ _ _ _ _ _ _ T3) as (_ & _ & B3).
  destruct T3 as (h' & c2 & c3 & t' & q2 & q3 & Hc2' & Hq2 & -> & C3 & K3 & F3 & S3).
  rewrite Hc2 in Hc2'. injection Hc2' as <-. rewrite Hq in Hq2. injection Hq2 as <-.
  eexists _, c3, q3. split; [done|]. cbn [clients slaves with_world].
  split; [apply list_lookup_insert_eq; by eapply lookup_lt_Some|]. pose proof S3 as (_ & Hst & _).
  split; [by rewrite Hst|]. split; [by eapply accepts_same, as_slave_accepts|]. split; [done|].
  split; [rewrite K3; unfold kept; cbn; by rewrite drop_nil|]. split; [done|]. split; [by apply B3|].
  cbn [world with_world]. intros l o Hlo Hlt. destruct (F3 l o Hlo) as (o' & Ho' & Hp & Hrc).
  - unfold sv2. cbn. destruct (occ_everyone l (clients sv) i c Hc) as (r & _ & E & Er). rewrite Er. cbn. by rewrite <- E.
  - exists o'. split; [done|]. split; [done|]. etrans; [exact Hrc|]. unfold sv2. cbn.
    destruct (occ_everyone l (clients sv) i c Hc) as (r & _ & E & Er). rewrite Er, E. done.
Qed.
End Resync.

(** ** Creation and resizing *)
Lemma fresh_ring uninit sv :
  repl_backlog sv = Some (realloc uninit (repl_backlog_size sv) []) -> repl_backlog_idx sv = 0 -> 0 < repl_backlog_size sv ->
  exists junk, zlen junk = repl_backlog_size sv /\ ring sv (drop (length (@nil Z)) (junk ++ [])).
Proof.
  intros Eb Ei Hs. exists (realloc uninit (repl_backlog_size sv) []). pose proof (realloc_length uninit (repl_backlog_size sv) [] ltac:(lia)) as Hl.
  split; [done|]. exists [], (realloc uninit (repl_backlog_size sv) []). rewrite app_nil_r. cbn [app drop length].
  split_and!; [done|done| |done|done]. intros E. rewrite E in Hl. cbn in Hl. lia.
Qed.

Lemma create_backlog_spec uninit sv :
  repl_backlog sv = None -> 0 < repl_backlog_size sv < 2 ^ 62 -> 0 <= master_repl_offset sv < 2 ^ 62 ->
  exists sv', createReplicationBacklog uninit sv = Some (tt, sv') /\ backlog (master_repl_offset sv + 1) [] sv' /\ same_rest sv sv'.
Proof.
  intros Eb Hs Hm. unfold createReplicationBacklog. rewrite ask_run, Eb. eexists. split; [done|]. split; [|done].
  rewrite (swrap_small 64 (master_repl_offset sv + 1)) by (lia || (unfold in_s; change (2 ^ (64 - 1)) with (2 ^ 63); lia)).
  rewrite swrap_small by (lia || (unfold in_s; change (2 ^ (64 - 1)) with (2 ^ 63); lia)).
  split; [cbn; lia|apply (fresh_ring uninit); cbn; done || lia|cbn; lia..].
Qed.

Lemma resize_spec uninit base s sv newsize :
  backlog base s sv -> base + zlen s < 2 ^ 62 -> newsize < 2 ^ 62 ->
  let size := if newsize <? REDIS_REPL_BACKLOG_MIN_SIZE then REDIS_REPL_BACKLOG_MIN_SIZE else newsize in
  exists sv', resizeReplicationBacklog uninit newsize sv = Some (tt, sv') /\ repl_backlog_size sv' = size /\
    (size = repl_backlog_size sv -> sv' = sv) /\
    (size <> repl_backlog_size sv -> backlog (base + zlen s) [] sv' /\ repl_backlog_histlen sv' = 0).
Proof.
  intros Hb Hlt Hn size. unfold resizeReplicationBacklog. rewrite ask_run. fold size.
  destruct (bl_ring _ _ _ Hb) as (_ & _ & (ra & rb & Eb & _)). pose proof (bl_master _ _ _ Hb) as Hm. pose proof (bl_base _ _ _ Hb).
  assert (0 < size < 2 ^ 62) as Hsz.
  { unfold size, REDIS_REPL_BACKLOG_MIN_SIZE. destruct (Z.ltb_spec newsize (1024 * 16)); lia. }
  destruct (Z.eqb_spec (repl_backlog_size sv) size) as [E|E].
  { exists sv. split; [done|]. split; [done|]. split; [done|]. intros ?. congruence. }
  cbn [repl_backlog with_backlog_size]. rewrite Eb. eexists. split; [done|]. split; [done|]. split; [congruence|].
  intros _. cbn. rewrite Hm, swrap_small by (lia || (unfold in_s; change (2 ^ (64 - 1)) with (2 ^ 63); lia)). split; [|done].
  split; [cbn; lia|apply (fresh_ring uninit); cbn; done || lia|cbn; lia..].
Qed.

(** ** The life of a master

    Commands are executed and the connections of slaves become writable, in
    any order. The result has what was written to each connection. *)
Inductive event :=
  | Command (now d : Z) (argv : list loc)
  | Writable (i : nat) (now : Z) (write : nat -> list Z -> Z) (relaxed : Z -> bool) (eagain : bool).

Definition bytes_for (i : nat) (outs : list (nat * list Z)) : list Z :=
  outs ≫= fun '(j, x) => if decide (j = i) then x else [].

Section Life.
Context (uninit : nat -> Z) (client_obuf_limits : Z -> limits) (list_item_size : Z) (zs : sdshdr -> Z).
Context (shared : shared_objects) (select : list loc) (db : gmap loc (list Z)).

Fixpoint run_master (es : list event) : R (bool * list (nat * list Z)) :=
  match es with
  | [] => mret (false, [])
  | Command now d argv :: es =>
      sv ← ask;
      _ ← replicationFeedSlaves uninit now client_obuf_limits list_item_size zs shared select (slaves sv) d argv;
      run_master es
  | Writable i now write relaxed eagain :: es =>
      '(freed, x) ← on_client i (sendReplyToClient now zs write relaxed eagain);
      if freed : bool then mret (true, [(i, x)])
      else '(freed, outs) ← run_master es; mret (freed, (i, x) :: outs)
  end.

(** The arguments of a command and the stream of a sequence of commands. *)
Definition texts (argv : list loc) : list (list Z) := map (fun a => default [] (db !! a)) argv.
Fixpoint stream_of (seldb : Z) (es : list event) : list Z :=
  match es with
  | [] => []
  | Command _ d argv :: es =>
      ((if seldb =? d then [] else Request.request [SELECT; dec d]) ++ Request.request (texts argv)) ++ stream_of d es
  | Writable _ _ _ _ _ :: es => stream_of seldb es
  end.

Definition event_ok (ls : list nat) (e : event) : Prop :=
  match e with
  | Command _ d argv => in_s 32 d /\ zlen argv < 2 ^ 31 /\ Forall (fun a => exists x, db !! a = Some x /\ zlen x <= 2 ^ 29) argv
  | Writable i _ write _ _ => i ∈ ls /\ forall k x, write k x <= zlen x
  end.
Definition event_cost (ls : list nat) (e : event) : Z :=
  match e with Command _ _ argv => feed_cost ls argv | Writable _ _ _ _ _ => 0 end.
Definition event_costs (ls : list nat) : list event -> Z := foldr (fun e n => event_cost ls e + n) 0.

(** The slaves are connections that commands are sent to. *)
Definition online (sv : server) : Prop := NoDup (slaves sv) /\ forall i, i ∈ slaves sv ->
  exists c, clients sv !! i = Some c /\ accepts c /\ replstate c <> REDIS_REPL_WAIT_BGSAVE_START.

Record master (n base : Z) (s : list Z) (sv : server) (qs : list (list Z * list (list Z))) : Prop := Master {
  m_conns : conns zs n sv qs;
  m_backlog : backlog base s sv;
  m_online : online sv;
  m_available : available shared db (overview sv);
  m_select : select_ok select (overview sv) }.

Hypothesis zs_bound : forall s, 0 <= zs s < 2 ^ 33.

Lemma master_costs_pos ls es : 0 <= event_costs ls es.
Proof.
  unfold event_costs. induction es as [|[now d argv|] es IH]; cbn [foldr event_cost]; try lia. unfold feed_cost. nia.
Qed.

Lemma texts_args argv : Forall (fun a => exists x, db !! a = Some x /\ zlen x <= 2 ^ 29) argv ->
  Forall2 (fun a x => db !! a = Some x /\ zlen x <= 2 ^ 29) argv (texts argv).
Proof.
  induction 1 as [|a argv (x & Ha & Hx) _ IH]; [constructor|]. cbn [texts map]. constructor; [by rewrite Ha|done].
Qed.

Lemma select_stable : stable (select_ok select).
Proof. intros s s' H F j Hj. destruct (H j Hj) as (l & E & Hl). exists l. split; [done|]. by eapply holds_stable. Qed.

(** A command reaches the backlog and every slave. *)
Lemma master_command n base s sv qs now d argv :
  master (n + feed_cost (slaves sv) argv) base s sv qs -> 0 <= n -> event_ok (slaves sv) (Command now d argv) ->
  let x := select_for sv d ++ Request.request (texts argv) in
  base + zlen s + zlen x < 2 ^ 62 ->
  exists sv' qs', replicationFeedSlaves uninit now client_obuf_limits list_item_size zs shared select (slaves sv) d argv sv = Some (tt, sv') /\
    master n base (s ++ x) sv' qs' /\ slaves sv' = slaves sv /\ slaveseldb sv' = d /\
    forall i c q, i ∈ slaves sv -> clients sv !! i = Some c -> qs !! i = Some q ->
      exists c' q', clients sv' !! i = Some c' /\ qs' !! i = Some q' /\ kept c' q' = kept c q ++ x.
Proof.
  intros [Hcs Hb [Hnd Hon] Hav Hsel] Hn (Hd & Hlen & Hargs) x Hx.
  destruct (feed_slaves_spec zs uninit now client_obuf_limits list_item_size shared select db zs_bound base s n sv qs (slaves sv) d argv
    (texts argv)) as (sv' & qs' & E & B & Hdb & Hsl & Hsz & C & F & Hall); try done.
  { intros i Hi. destruct (Hon i Hi) as (c & Hc & Ha & _). by exists c. }
  { by apply texts_args. }
  exists sv', qs'. split; [done|]. split; [|split; [done|]; split; [done|]].
  - split; [done|done| | |].
    + split; [by rewrite Hsl|]. rewrite Hsl. intros i Hi. destruct (Hon i Hi) as (c & Hc & Ha & Hr).
      destruct (qs_lookup _ _ _ _ _ _ Hcs Hc) as (q & Hq). destruct (Hall i c q Hc Hq) as (c' & _ & Hc' & _ & HC & _).
      exists c'. split; [done|]. split; [by eapply accepts_same|]. by destruct HC as (_ & -> & _).
    + by eapply available_stable.
    + by eapply select_stable.
  - intros i c q Hi Hc Hq. destruct (Hall i c q Hc Hq) as (c' & q' & Hc' & Hq' & _ & K). exists c', q'. split; [done|]. split; [done|].
    rewrite K, decide_True by done. destruct (Hon i Hi) as (c0 & Hc0 & _ & Hr). rewrite Hc in Hc0. injection Hc0 as <-.
    unfold command_for. by rewrite (proj2 (Z.eqb_neq _ _)).
Qed.

(** The connection of a slave is written to. *)
Lemma master_send n base s sv qs i now write relaxed eagain :
  master n base s sv qs -> 0 <= n -> i ∈ slaves sv -> (forall k x, write k x <= zlen x) ->
  exists freed x sv' qs', on_client i (sendReplyToClient now zs write relaxed eagain) sv = Some (freed, x, sv') /\
    master n base s sv' qs' /\ slaves sv' = slaves sv /\ slaveseldb sv' = slaveseldb sv /\
    forall j c q, clients sv !! j = Some c -> qs !! j = Some q ->
      exists c' q', clients sv' !! j = Some c' /\ qs' !! j = Some q' /\
        kept c q = (if decide (i = j) then x else []) ++ kept c' q'.
Proof.
  intros [Hcs Hb [Hnd Hon] Hav Hsel] Hn Hi Hw. destruct (Hon i Hi) as (c & Hc & Ha & Hr).
  destruct (qs_lookup _ _ _ _ _ _ Hcs Hc) as (q & Hq).
  destruct (send_spec now zs zs_bound write relaxed eagain Hw n (view sv c) q.1 q.2) as (freed & x & s' & b' & xs' & E & Q & P & F & Hst & _);
    [by eapply conns_line|].
  destruct (on_client_conns zs n n sv qs i c q _ (freed, x) s' b' xs' Hcs ltac:(lia) Hc Hq E Q F) as (E1 & C1 & F1).
  eexists freed, x, _, _. split; [exact E1|]. split; [split; [exact C1|by apply backlog_world| | |]|].
  - split; [done|]. cbn. intros j Hj. destruct (decide (i = j)) as [<-|Hij].
    + exists (cl s'). rewrite list_lookup_insert_eq by (by eapply lookup_lt_Some). split; [done|]. split; [apply Q|].
      by rewrite Hst.
    + rewrite list_lookup_insert_ne by done. by apply Hon.
  - apply (available_stable shared db (overview sv)); [exact Hav|exact F1].
  - apply (select_stable (overview sv)); [exact Hsel|exact F1].
  - split; [done|]. split; [done|]. intros j d p Hd Hp. cbn. destruct (decide (i = j)) as [<-|Hij].
    + exists (cl s'), (b', xs'). rewrite !list_lookup_insert_eq by (by eapply lookup_lt_Some). split; [done|]. split; [done|].
      rewrite Hc in Hd. injection Hd as <-. rewrite Hq in Hp. injection Hp as <-. exact P.
    + exists d, p. by rewrite !list_lookup_insert_ne.
Qed.
Lemma run_master_spec es : forall n base s sv qs (x := stream_of (slaveseldb sv) es),
  Forall (event_ok (slaves sv)) es -> master (n + event_costs (slaves sv) es) base s sv qs -> 0 <= n ->
  base + zlen s + zlen x < 2 ^ 62 ->
  exists freed outs sv' qs', run_master es sv = Some (freed, outs, sv') /\
    (freed = false -> master n base (s ++ x) sv' qs') /\
    forall i c q, i ∈ slaves sv -> clients sv !! i = Some c -> qs !! i = Some q ->
      exists rest, kept c q ++ x = bytes_for i outs ++ rest /\
        (freed = false -> exists c' q', clients sv' !! i = Some c' /\ qs' !! i = Some q' /\ rest = kept c' q').
Proof.
  induction es as [|[now d argv|j now write relaxed eagain] es IH]; intros n base s sv qs x Hok Hm Hn Hx.
  - exists false, [], sv, qs. split; [done|]. cbn in Hm. rewrite Z.add_0_r in Hm. unfold x. cbn. rewrite app_nil_r. split; [done|].
    intros i c q _ Hc Hq. exists (kept c q). rewrite app_nil_r. split; [done|]. intros _. by exists c, q.
  - apply Forall_cons in Hok as [Ho Hok]. cbn [event_costs foldr event_cost] in Hm. change (foldr _ 0 es) with (event_costs (slaves sv) es) in Hm.
    pose proof (master_costs_pos (slaves sv) es) as Hpos. unfold x in *. cbn [stream_of] in *.
    change (if slaveseldb sv =? d then [] else Request.request [SELECT; dec d]) with (select_for sv d) in *.
    set (y := select_for sv d ++ Request.request (texts argv)) in *. rewrite length_app in Hx.
    destruct (master_command (n + event_costs (slaves sv) es) base s sv qs now d argv) as (sv1 & qs1 & E1 & M1 & Sl & Db & H1);
      [by rewrite <- Z.add_assoc, (Z.add_comm (event_costs _ _))|lia|done|unfold y in *; lia|]. fold y in M1, H1.
    cbn [run_master]. rewrite ask_run, (bind_run _ _ _ _ _ E1).
    rewrite <- Sl in Hok, M1. rewrite <- Db in Hx.
    destruct (IH n base (s ++ y) sv1 qs1 Hok M1 Hn) as (freed & outs & sv' & qs' & E & Mf & H); [rewrite length_app; lia|]. rewrite Db in *.
    exists freed, outs, sv', qs'. split; [done|]. split; [by rewrite app_assoc|]. intros i c q Hi Hc Hq.
    destruct (H1 i c q Hi Hc Hq) as (c1 & q1 & Hc1 & Hq1 & K1). destruct (H i c1 q1) as (rest & Er & Hr); [by rewrite Sl|done|done|].
    exists rest. split; [|done]. by rewrite <- Er, K1, <- app_assoc.
  - apply Forall_cons in Hok as [[Hj Hw] Hok]. cbn [event_costs foldr event_cost] in Hm. change (foldr _ 0 es) with (event_costs (slaves sv) es) in Hm.
    rewrite Z.add_0_l in Hm. pose proof (master_costs_pos (slaves sv) es) as Hpos. unfold x in *. cbn [stream_of] in *.
    destruct (master_send _ base s sv qs j now write relaxed eagain Hm) as (fr & y & sv1 & qs1 & E1 & M1 & Sl & Db & H1); [lia|done|done|].
    cbn [run_master]. rewrite (bind_run _ _ _ _ _ E1). destruct fr.
    + exists true, [(j, y)], sv1, qs1. split; [done|]. split; [done|]. intros i c q Hi Hc Hq.
      destruct (H1 i c q Hc Hq) as (c1 & q1 & _ & _ & K1). exists (kept c1 q1 ++ stream_of (slaveseldb sv) es).
      split; [|done]. unfold bytes_for. cbn. rewrite app_nil_r, K1, <- app_assoc. done.
    + rewrite <- Sl in Hok, M1. rewrite <- Db in Hx.
      destruct (IH n base s sv1 qs1 Hok M1 Hn Hx) as (freed & outs & sv' & qs' & E & Mf & H). rewrite Db in *.
      exists freed, ((j, y) :: outs), sv', qs'. rewrite (bind_run _ _ _ _ _ E). split; [done|]. split; [done|].
      intros i c q Hi Hc Hq. destruct (H1 i c q Hc Hq) as (c1 & q1 & Hc1 & Hq1 & K1).
      destruct (H i c1 q1) as (rest & Er & Hr); [by rewrite Sl|done|done|]. exists rest. split; [|done].
      unfold bytes_for in *. rewrite bind_cons, K1, <- !app_assoc. f_equal. exact Er.
Qed.
End Life.

(** C15: the replicas follow the master: whatever commands are executed and
    however the connections of the slaves become writable in between, what is
    written to a slave's connection followed by what is kept for it is what
    it had to receive before followed by the stream, the very bytes that the
    backlog was fed with: the commands as requests, with a SELECT where the
    database changes. *)
Theorem replicas_follow uninit client_obuf_limits list_item_size zs shared select db es n base s sv qs :
  (forall t, 0 <= zs t < 2 ^ 33) -> Forall (event_ok db (slaves sv)) es ->
  master zs shared select db (n + event_costs (slaves sv) es) base s sv qs -> 0 <= n ->
  base + zlen s + zlen (stream_of db (slaveseldb sv) es) < 2 ^ 62 ->
  exists freed outs sv' (qs' : list (list Z * list (list Z))),
    run_master uninit client_obuf_limits list_item_size zs shared select es sv = Some (freed, outs, sv') /\
    (freed = false -> backlog base (s ++ stream_of db (slaveseldb sv) es) sv') /\
    forall i c q k, i ∈ slaves sv -> clients sv !! i = Some c -> qs !! i = Some q ->
      kept c q = drop k s -> (k <= length s)%nat ->
      exists rest, drop k (s ++ stream_of db (slaveseldb sv) es) = bytes_for i outs ++ rest /\
        (freed = false -> exists c' q', clients sv' !! i = Some c' /\ qs' !! i = Some q' /\ rest = kept c' q').
Proof.
  intros Hz Hok Hm Hn Hx.
  destruct (run_master_spec uninit client_obuf_limits list_item_size zs shared select db Hz es n base s sv qs Hok Hm Hn Hx)
    as (freed & outs & sv' & qs' & E & Hf & H).
  exists freed, outs, sv', qs'. split; [done|]. split; [intros Hfr; apply (m_backlog _ _ _ _ _ _ _ _ _ (Hf Hfr))|].
  intros i c q k Hi Hc Hq Hk Hlen. destruct (H i c q Hi Hc Hq) as (rest & Er & Hr). exists rest. split; [|done].
  by rewrite drop_app_le, <- Hk.
Qed.

(** C16: a slave that asks to continue after the first [k] bytes of the stream
    gets exactly the bytes that it is missing, when the master still has them
    and the slave names the same master; otherwise it is told to start anew
    and nothing changes. *)
Theorem psync_sends_missing uninit unixtime client_obuf_limits list_item_size zs runid base s n sv qs i c a1 a2 sd id k :
  (forall t, 0 <= zs t < 2 ^ 33) ->
  conns zs (n + 2) sv qs -> 0 <= n -> clients sv !! i = Some c -> qs !! i = Some ([], []) -> accepts c ->
  backlog base s sv -> repl_backlog_size sv <= 2 ^ 29 -> base + zlen s < 2 ^ 62 ->
  keeps (overview sv) a1 (PRaw sd) -> repr sd id -> Forall (fun c => 0 < c) id -> Forall (fun c => 0 < c) runid ->
  holds (overview sv) a2 (dec (base + Z.of_nat k + 1)) -> (k <= length s)%nat ->
  if decide (map tolower id = map tolower runid /\ zlen s - Z.of_nat k <= repl_backlog_size sv) then
    exists sv' c' q',
      masterTryPartialResynchronization uninit unixtime client_obuf_limits list_item_size zs runid true i a1 a2 sv =
        Some (true, CONTINUE, sv') /\
      clients sv' !! i = Some c' /\ replstate c' = REDIS_REPL_ONLINE /\ slaves sv' = slaves sv ++ [i] /\
      kept c' q' = drop k s /\ conns zs n sv' (<[i := q']> qs) /\ backlog base s sv'
  else
    masterTryPartialResynchronization uninit unixtime client_obuf_limits list_item_size zs runid true i a1 a2 sv =
      Some (false, fullresync runid (base + zlen s), sv).
Proof.
  intros Hz Hcs Hn Hc Hq Ha Hb Hmax Hlt Hk1 Hid Hidz Hrz Hoff Hk. pose proof (bl_base _ _ _ Hb) as Hbase.
  destruct (psync_spec uninit unixtime client_obuf_limits list_item_size zs runid Hz base s n sv qs i c a1 a2 sd id
    (base + Z.of_nat k + 1) Hcs Hn Hc Hq Ha Hb Hmax Hk1 Hid Hidz Hrz Hoff) as [H1 H2];
    [unfold in_s; change (2 ^ (64 - 1)) with (2 ^ 63); lia|].
  assert (continues runid sv id (base + Z.of_nat k + 1) <->
    (map tolower id = map tolower runid /\ zlen s - Z.of_nat k <= repl_backlog_size sv)) as Hiff.
  { unfold continues. rewrite (bl_off _ _ _ Hb), (bl_master _ _ _ Hb), (bl_hist _ _ _ Hb).
    pose proof (bl_size _ _ _ Hb). split; intros [E Hw]; (split; [done|lia]). }
  destruct (decide _) as [Hd|Hd].
  - destruct (H1 (proj2 Hiff Hd)) as (sv' & c' & q' & E & Hc' & Hr & _ & Hs & Hkp & C & B & _).
    exists sv', c', q'. split; [done|]. split; [done|]. split; [done|]. split; [done|]. split; [|done].
    rewrite Hkp. f_equal. lia.
  - rewrite <- (bl_master _ _ _ Hb). apply H2. by rewrite Hiff.
Qed.

(** changing the size of the backlog throws away what it holds, for a
    larger size too: afterwards a slave can only continue at the very end. *)
Theorem resize_flushes_backlog uninit base s sv newsize :
  backlog base s sv -> base + zlen s < 2 ^ 62 -> REDIS_REPL_BACKLOG_MIN_SIZE <= newsize < 2 ^ 62 ->
  newsize <> repl_backlog_size sv ->
  exists sv', resizeReplicationBacklog uninit newsize sv = Some (tt, sv') /\ repl_backlog_size sv' = newsize /\
    repl_backlog_histlen sv' = 0 /\ repl_backlog_off sv' = base + zlen s + 1.
Proof.
  intros Hb Hlt Hn Hne. destruct (resize_spec uninit base s sv newsize Hb Hlt) as (sv' & E & Hs & _ & H); [lia|].
  rewrite (proj2 (Z.ltb_ge _ _)) in * by lia. destruct (H Hne) as [B Hh]. exists sv'.
  split; [done|]. split; [done|]. split; [done|]. rewrite (bl_off _ _ _ B), (bl_master _ _ _ B), Hh. cbn. lia.
Qed.

(** ** A small master *)
Lemma create_selects_spec uninit zs n k : forall s j ls,
  queue zs n s [] [] -> headers select_text ls s -> zlen ls = j -> j + Z.of_nat k < 2 ^ 31 ->
  created zs n (create_selects uninit k j ls) s (fun ls' s' => headers select_text ls' s' /\ zlen ls' = j + Z.of_nat k).
Proof.
  induction k as [|k IH]; intros s j ls Hq Hl Lj Hj; cbn [create_selects].
  - exists ls, s. split; [done|]. split; [done|]. split; [split; [apply frame_refl|done]|]. split; [done|lia].
  - assert (in_s 64 j) as Hj64 by (unfold in_s; change (2 ^ (64 - 1)) with (2 ^ 63); lia).
    destruct (create_select_run uninit 64 j ltac:(lia) Hj64) as (sd & Ec & Hr).
    eapply created_bind.
    { destruct (create_object_spec zs n s sd (select_text j) Hq Hr) as (l & s1 & E1 & H). exists l, s1. rewrite Ec. split; [done|exact H]. }
    intros l s1 Q1 F1 H1. destruct (IH s1 (j + 1) (ls ++ [l]) Q1) as (ls' & s' & E & Q & F & H2 & L2).
    + apply headers_snoc; [by eapply headers_stable|]. by rewrite Lj.
    + rewrite length_app. cbn. lia.
    + lia.
    + exists ls', s'. split; [done|]. split; [done|]. split; [done|]. split; [done|lia].
Qed.

(** A server with one client, the shared objects, a run id, an offset and a
    backlog that has three bytes. *)
Definition example_setup : Reply.M (shared_objects * list loc * loc * loc) :=
  sh ← createSharedObjects (fun _ => 0);
  sel ← create_selects (fun _ => 0) (Z.to_nat REDIS_SHARED_SELECT_CMDS) 0 [];
  a1 ← create_text (fun _ => 0) [82; 117; 78; 0];
  a2 ← create_text (fun _ => 0) [51; 0];
  mret (sh, sel, a1, a2).

Definition example_server (ls : list nat) (s : st) : server :=
  Server (heap s) [cl s] (to_close s) ls None 16384 0 0 0 0 (-1).

Lemma example_master ls n :
  0 <= n <= 2 ^ 24 -> (ls = [] \/ ls = [0%nat]) ->
  exists sh sel a1 a2 sv, let db := {[crlf sh := CRLF]} in
    master (fun _ => 64) sh sel db n 1 [7; 8; 9] sv [([], [])] /\ slaves sv = ls /\ slaveseldb sv = -1 /\
    repl_backlog_size sv = 16384 /\ clients sv = [new_client 5 (replicate (Z.to_nat 16384) 0)] /\
    holds (overview sv) a1 [82; 117; 78] /\ holds (overview sv) a2 [51].
Proof.
  intros Hn Hls. set (s0 := St ∅ (new_client 5 (replicate (Z.to_nat 16384) 0)) 0).
  assert (created (fun _ => 64) n example_setup s0 (fun '(sh, sel, a1, a2) s =>
    shared_ok sh s /\ select_ok sel s /\ holds s a1 [82; 117; 78] /\ holds s a2 [51])) as
    ([[[sh sel] a1] a2] & s & _ & Q & [_ Ecl] & Hsh & Hsel & Ha1 & Ha2).
  { unfold example_setup.
    eapply created_bind; [apply create_shared_spec; by apply example_queue|]. intros sh s1 Q1 F1 H1.
    eapply created_bind; [apply create_selects_spec; [done|intros i Hi; cbn in Hi; lia|done|done]|]. intros sel s2 Q2 F2 [H2 L2].
    eapply created_bind; [apply (create_text_spec _ _ _ _ [82; 117; 78] Q2); [repeat constructor; done|done]|]. intros a1 s3 Q3 F3 H3.
    eapply created_bind; [apply (create_text_spec _ _ _ _ [51] Q3); [repeat constructor; done|done]|]. intros a2 s4 Q4 F4 H4.
    eexists _, s4. split; [done|]. split; [done|]. split; [split; [apply frame_refl|done]|].
    pose proof (frame_compose _ _ _ _ _ _ F3 F4) as G3. pose proof (frame_compose _ _ _ _ _ _ F2 G3) as G2.
    split; [exact (shared_stable _ _ _ H1 G2)|]. split; [|split; [exact (holds_stable _ _ _ _ H3 F4)|exact H4]].
    intros j Hj. apply (headers_stable _ _ _ _ H2 G3). rewrite L2. done. }
  cbn [cl s0] in Ecl.
  assert (forall sv, world sv = heap s -> clients sv = [cl s] -> closing sv = to_close s ->
    conns (fun _ => 64) n sv [([], [])] /\ heap (overview sv) = heap s /\ (forall l, occ l (reply (cl (overview sv))) <= occ l (reply (cl s)))) as Hconn.
  { intros sv E1 E2 E3. assert (everyone (clients sv) = reply (cl s)) as Ev by (rewrite E2; unfold everyone; cbn; by rewrite app_nil_r).
    split; [split|split; [done|intros l; cbn; rewrite Ev; lia]].
    - rewrite E2. constructor; [|constructor]. unfold line, view. rewrite E1, E3. split; [destruct s; apply Q|by intros []].
    - rewrite E1, Ev. apply (objs_refs _ _ _ (out_objs _ _ _ _ _ (proj1 Q))). }
  destruct (create_backlog_spec (fun _ => 0) (example_server ls s)) as (sv1 & _ & B1 & S1); [done|cbn; lia|cbn; lia|].
  destruct (feed_spec (0 + 1) [] sv1 [7; 8; 9] [] B1) as (sv & _ & B & S); [cbn; lia|].
  pose proof (same_rest_trans _ _ _ S1 S) as (E1 & E2 & E3 & E4 & E5 & E6). cbn in E1, E2, E3, E4, E5, E6.
  destruct (Hconn sv E1 E2 E3) as (C & Ho & Hocc).
  assert (forall l x, holds s l x -> holds (overview sv) l x) as Hh by (intros l x H; by apply (holds_sub s l x H)).
  exists sh, sel, a1, a2, sv. cbn zeta. rewrite E2, E4, E5, E6, Ecl. split; [|repeat split; auto].
  split; [done|done| | |].
  - unfold online. rewrite E4, E2, Ecl. destruct Hls as [-> | ->].
    + split; [constructor|]. intros i Hi. inversion Hi.
    + split; [apply NoDup_singleton|]. intros i ->%list_elem_of_singleton. eexists. split; [done|].
      rewrite <- Ecl. split; [apply Q|]. by rewrite Ecl.
  - split.
    + destruct Hsh. split; try (by apply Hh).
      * intros i Hi. destruct (ok_mbulkhdr0 i Hi) as (l & E & Hl). exists l. split; [done|]. by apply Hh.
      * intros i Hi. destruct (ok_bulkhdr0 i Hi) as (l & E & Hl). exists l. split; [done|]. by apply Hh.
    + intros l x. intros [<- <-]%lookup_singleton_Some. apply Hh, Hsh.
  - intros j Hj. destruct (Hsel j Hj) as (l & E & Hl). exists l. split; [done|]. by apply Hh.
Qed.

Definition example_events (a : loc) : list event :=
  [Command 1 0 [a]; Writable 0 2 (fun _ x => Z.min 5 (zlen x)) (fun _ => false) false; Command 3 12 [a; a]].

Lemma replicas_follow_witness :
  exists sh sel sv, let es := example_events (crlf sh) in let db := {[crlf sh := CRLF]} in
  slaves sv = [0%nat] /\
  exists freed outs sv' (qs' : list (list Z * list (list Z))),
    run_master (fun _ => 0) example_limits 40 (fun _ => 64) sh sel es sv = Some (freed, outs, sv') /\
    (freed = false -> backlog 1 ([7; 8; 9] ++ stream_of db (slaveseldb sv) es) sv') /\
    forall i c q k, i ∈ slaves sv -> clients sv !! i = Some c -> [([], [])] !! i = Some q ->
      kept c q = drop k [7; 8; 9] -> (k <= 3)%nat ->
      exists rest, drop k ([7; 8; 9] ++ stream_of db (slaveseldb sv) es) = bytes_for i outs ++ rest /\
        (freed = false -> exists c' q', clients sv' !! i = Some c' /\ qs' !! i = Some q' /\ rest = kept c' q').
Proof.
  destruct (example_master [0%nat] (0 + 100)) as (sh & sel & a1 & a2 & sv & Hm & Hs & Hd & _); [lia|by right|].
  exists sh, sel, sv. cbn zeta. split; [exact Hs|].
  assert ((({[crlf sh := CRLF]} : gmap loc (list Z)) !! crlf sh) = Some CRLF) as Hdb by apply lookup_singleton_eq.
  apply (replicas_follow (fun _ => 0) example_limits 40 (fun _ => 64) sh sel {[crlf sh := CRLF]} (example_events (crlf sh))
    (100 - event_costs (slaves sv) (example_events (crlf sh))) 1 [7; 8; 9] sv [([], [])]).
  - intros t. lia.
  - rewrite Hs. repeat constructor; cbn; try (unfold in_s; lia); try (intros; lia); try lia; try (by exists CRLF).
  - rewrite Z.sub_add. exact Hm.
  - rewrite Hs. vm_compute. discriminate.
  - rewrite Hd. cbn [example_events stream_of texts map]. rewrite Hdb. vm_compute. reflexivity.
Defined.

Lemma psync_sends_missing_witness :
  exists sv a1 a2 sd c, let runid := [114; 85; 110] in
  backlog 1 [7; 8; 9] sv /\ keeps (overview sv) a1 (PRaw sd) /\
  exists sv' c' q',
    masterTryPartialResynchronization (fun _ => 0) 1 example_limits 40 (fun _ => 64) runid true 0 a1 a2 sv =
      Some (true, CONTINUE, sv') /\
    clients sv' !! 0%nat = Some c' /\ replstate c' = REDIS_REPL_ONLINE /\ slaves sv' = slaves sv ++ [0%nat] /\
    kept c' q' = drop 1 [7; 8; 9] /\ conns (fun _ => 64) 0 sv' (<[0%nat := q']> [([], [])]) /\ backlog 1 [7; 8; 9] sv' /\
    clients sv = [c].
Proof.
  destruct (example_master [] (0 + 2)) as (sh & sel & a1 & a2 & sv & Hm & Hs & _ & Hsz & Hc & Ha1 & Ha2); [lia|by left|].
  assert (exists sd, keeps (overview sv) a1 (PRaw sd) /\ repr sd [82; 117; 78]) as (sd & Hk & Hr).
  { destruct Ha1 as [H|(v & _ & Hv & E)]; [exact H|]. exfalso.
    assert (Forall (fun c => c = 45 \/ digit c) (dec v)) as Hd.
    { unfold dec. destruct (Z.ltb_spec v 0); [constructor; [by left|]|];
        (eapply Forall_impl; [apply udec_digits; lia|]); by right. }
    rewrite <- E in Hd. apply Forall_cons in Hd as [[Hd|Hd] _]; [lia|]. unfold digit in Hd. lia. }
  exists sv, a1, a2, sd, (new_client 5 (replicate (Z.to_nat 16384) 0)). cbn zeta.
  split; [exact (m_backlog _ _ _ _ _ _ _ _ _ Hm)|]. split; [exact Hk|].
  assert (accepts (new_client 5 (replicate (Z.to_nat 16384) 0))) as Ha by (split; [reflexivity|right; split; [reflexivity|cbn; lia]]).
  assert (clients sv !! 0%nat = Some (new_client 5 (replicate (Z.to_nat 16384) 0))) as Hc0 by (rewrite Hc; reflexivity).
  pose proof (psync_sends_missing (fun _ => 0) 1 example_limits 40 (fun _ => 64) [114; 85; 110] 1 [7; 8; 9] 0 sv [([], [])] 0 _ a1 a2 sd
    [82; 117; 78] 1 ltac:(intros; lia) (m_conns _ _ _ _ _ _ _ _ _ Hm) ltac:(lia) Hc0 eq_refl Ha
    (m_backlog _ _ _ _ _ _ _ _ _ Hm) ltac:(rewrite Hsz; lia) ltac:(cbn; lia) Hk Hr ltac:(repeat constructor) ltac:(repeat constructor)
    Ha2 ltac:(cbn; lia)) as H.
  rewrite decide_True in H by (split; [reflexivity|rewrite Hsz; cbn; lia]).
  destruct H as (sv' & c' & q' & H1 & H2 & H3 & H4 & H5 & H6 & H7). exists sv', c', q'.
  exact (conj H1 (conj H2 (conj H3 (conj H4 (conj H5 (conj H6 (conj H7 Hc))))))).
Defined.

Lemma resize_flushes_backlog_witness :
  exists sv, backlog 1 [7; 8; 9] sv /\
  exists sv', resizeReplicationBacklog (fun _ => 0) 32768 sv = Some (tt, sv') /\ repl_backlog_size sv' = 32768 /\
    repl_backlog_histlen sv' = 0 /\ repl_backlog_off sv' = 5.
Proof.
  destruct (example_master [] 2) as (sh & sel & a1 & a2 & sv & Hm & _ & _ & Hsz & _); [lia|by left|].
  pose proof (m_backlog _ _ _ _ _ _ _ _ _ Hm) as Hb. exists sv. split; [exact Hb|].
  exact (resize_flushes_backlog (fun _ => 0) 1 [7; 8; 9] sv 32768 Hb ltac:(cbn; lia)
    ltac:(unfold REDIS_REPL_BACKLOG_MIN_SIZE; lia) ltac:(rewrite Hsz; lia)).
Defined.

End Replication.
