(* ===== verification/Multi.v ===== *)
(** * Commands and transactions (src/redis-2.8/src/multi.c, redis.c)

    A command that a client sent is checked by [processCommand] and either
    run by [call] or, after MULTI, kept in the queue of the client until EXEC
    runs the queue. WATCH records keys; a client whose keys were touched by
    anyone is marked and its EXEC runs nothing.

    The objects of arguments are shared between the client, the queue and the
    lists of watched keys, and counted. A list is the list of its values and a
    dictionary a finite map, as [Adlist] and [Dict] show that they behave.
    The commands of the data types are any sequences of the steps of [act]. *)
From stdpp Require Import base tactics list numbers option gmap fin_maps strings.
From Stdlib Require Import ZArith Lia.
From S2P Require Import Prelude Glob.
Import CInt StateM.
Open Scope redis_scope.
Open Scope Z_scope.

Module Multi.

(** ** Constants *)
Definition REDIS_MASTER : Z := 2.
Definition REDIS_MULTI : Z := 8.
Definition REDIS_BLOCKED : Z := 16.
Definition REDIS_DIRTY_CAS : Z := 32.
Definition REDIS_CLOSE_AFTER_REPLY : Z := 64.
Definition REDIS_LUA_CLIENT : Z := 256.
Definition REDIS_ASKING : Z := 512.
Definition REDIS_DIRTY_EXEC : Z := 4096.
Definition REDIS_FORCE_AOF : Z := 16384.
Definition REDIS_FORCE_REPL : Z := 32768.
Definition REDIS_PUBSUB : Z := 262144.

Definition REDIS_CMD_WRITE : Z := 1.
Definition REDIS_CMD_READONLY : Z := 2.
Definition REDIS_CMD_DENYOOM : Z := 4.
Definition REDIS_CMD_LOADING : Z := 512.
Definition REDIS_CMD_STALE : Z := 1024.
Definition REDIS_CMD_SKIP_MONITOR : Z := 2048.
Definition REDIS_CMD_FAST : Z := 8192.

Definition REDIS_CALL_SLOWLOG : Z := 1.
Definition REDIS_CALL_STATS : Z := 2.
Definition REDIS_CALL_PROPAGATE : Z := 4.
Definition REDIS_CALL_FULL : Z := Z.lor (Z.lor REDIS_CALL_SLOWLOG REDIS_CALL_STATS) REDIS_CALL_PROPAGATE.
Definition REDIS_PROPAGATE_NONE : Z := 0.
Definition REDIS_PROPAGATE_AOF : Z := 1.
Definition REDIS_PROPAGATE_REPL : Z := 2.

(** [x & m] as a condition, and [x &= ~m]. *)
Definition has (x m : Z) : bool := negb (Z.land x m =? 0).
Definition clear (x m : Z) : Z := Z.land x (Z.lnot m).

Definition text (s : string) : list Z := map (fun a => Z.of_N (Ascii.N_of_ascii a)) (String.list_ascii_of_string s).

(** ** Data *)
Definition loc := positive.

(** An object of an argument: the string it holds and its count. *)
Record obj := Obj { o_text : list Z; o_refs : Z }.

(** The functions that the code compares with, and all others. *)
Inductive proc :=
  | authCommand_ | pingCommand_ | subscribeCommand_ | unsubscribeCommand_ | psubscribeCommand_ | punsubscribeCommand_
  | replconfCommand_ | shutdownCommand_ | scriptCommand_
  | multiCommand_ | execCommand_ | discardCommand_ | watchCommand_ | unwatchCommand_
  | other (f : string).

#[export] Instance proc_eq : EqDecision proc.
Proof. solve_decision. Defined.

Record redisCommand := Cmd { cmd_name : list Z; cmd_proc : proc; cmd_arity : Z; cmd_flags : Z }.

Inductive shared_reply :=
  | ok | queued | nullmultibulk | execaborterr | noautherr | oomerr | bgsaveerr | noreplicaserr
  | roslaveerr | masterdownerr | loadingerr | slowscripterr.
Inductive reply := Shared (r : shared_reply) | Error (s : list Z) | MultiBulkLen (n : Z) | Bytes (s : list Z).

Record multiCmd := MultiCmd { mc_argv : list loc; mc_cmd : option redisCommand }.
Record watchedKey := WatchedKey { wk_key : loc; wk_db : nat }.

Record client := Client {
  flags : Z; db : nat; argv : list loc; cmd : option redisCommand; lastcmd : option redisCommand;
  authenticated : bool; watched_keys : list watchedKey; mstate : list multiCmd; out : list reply }.

Definition with_flags c x := Client x (db c) (argv c) (cmd c) (lastcmd c) (authenticated c) (watched_keys c) (mstate c) (out c).
Definition with_db c x := Client (flags c) x (argv c) (cmd c) (lastcmd c) (authenticated c) (watched_keys c) (mstate c) (out c).
Definition with_argv c x := Client (flags c) (db c) x (cmd c) (lastcmd c) (authenticated c) (watched_keys c) (mstate c) (out c).
Definition with_cmd c x := Client (flags c) (db c) (argv c) x (lastcmd c) (authenticated c) (watched_keys c) (mstate c) (out c).
Definition with_lastcmd c x := Client (flags c) (db c) (argv c) (cmd c) x (authenticated c) (watched_keys c) (mstate c) (out c).
Definition with_auth c x := Client (flags c) (db c) (argv c) (cmd c) (lastcmd c) x (watched_keys c) (mstate c) (out c).
Definition with_watched c x := Client (flags c) (db c) (argv c) (cmd c) (lastcmd c) (authenticated c) x (mstate c) (out c).
Definition with_mstate c x := Client (flags c) (db c) (argv c) (cmd c) (lastcmd c) (authenticated c) (watched_keys c) x (out c).
Definition with_out c x := Client (flags c) (db c) (argv c) (cmd c) (lastcmd c) (authenticated c) (watched_keys c) (mstate c) x.

(** [db->watched_keys]: for the text of a key, the object that is the key and
    the clients that watch it. *)
Abbreviation watch_table := (gmap (list Z) (loc * list nat)).

(** A command as it goes to the file and to the slaves. *)
Record entry := Entry { e_cmd : option redisCommand; e_db : nat; e_args : list (list Z) }.
Record redisOp := RedisOp { op_cmd : option redisCommand; op_db : nat; op_argv : list loc; op_target : Z }.

(** The fields of the server that decide about commands. *)
Record config := Config {
  requirepass : bool; maxmemory : bool; stop_writes_on_bgsave_err : bool; saveparamslen : Z;
  lastbgsave_failed : bool; aof_last_write_failed : bool; aof_last_write_error : list Z; masterhost : bool;
  repl_min_slaves_to_write : Z; repl_min_slaves_max_lag : Z; repl_good_slaves_count : Z; repl_slave_ro : bool;
  repl_connected : bool; repl_serve_stale_data : bool; loading : bool; lua_timedout : bool;
  lua_caller : option nat; aof_on : bool; monitors : Z; ready_keys : Z }.

Section Server.
(** [E] is the rest of the server: the keyspace, the configuration, the slow
    log. *)
Context {E : Type}.
Context (conf : E -> config) (exists_key : E -> nat -> list Z -> bool).
Context (commands orig_commands : list Z -> option redisCommand).
Context (ustime : E -> Z * E) (latencyAddSampleIfNeeded : list Z -> Z -> E -> E).
Context (slowlogPushEntryIfNeeded : list (list Z) -> Z -> E -> E).

(** The calls that touch keys, as they happened. *)
Inductive touch := TouchKey (d : nat) (key : list Z) | TouchFlush (dbid : Z) (e : E).

Record rest := Rest {
  dirty : Z; stream : list entry; aof : list entry; monitored : list (nat * entry); numcommands : Z;
  cmdstats : gmap (list Z) (Z * Z); touches : list touch; env : E }.

Definition r_dirty (f : Z -> Z) r := Rest (f (dirty r)) (stream r) (aof r) (monitored r) (numcommands r) (cmdstats r) (touches r) (env r).
Definition r_monitored x r := Rest (dirty r) (stream r) (aof r) (monitored r ++ [x]) (numcommands r) (cmdstats r) (touches r) (env r).
Definition r_numcommands r := Rest (dirty r) (stream r) (aof r) (monitored r) (numcommands r + 1) (cmdstats r) (touches r) (env r).
Definition r_cmdstats f r := Rest (dirty r) (stream r) (aof r) (monitored r) (numcommands r) (f (cmdstats r)) (touches r) (env r).
Definition r_touches x r := Rest (dirty r) (stream r) (aof r) (monitored r) (numcommands r) (cmdstats r) (touches r ++ [x]) (env r).
Definition r_env f r := Rest (dirty r) (stream r) (aof r) (monitored r) (numcommands r) (cmdstats r) (touches r) (f (env r)).

Record server := Server {
  heap : gmap loc obj; clients : gmap nat client; dbs : list watch_table; kept : list loc;
  also_propagate : list redisOp; the_rest : rest }.

Abbreviation M := (StateM.M server).

Definition ask : M server := fun s => Some (s, s).
Definition set_heap h : M unit := fun s => Some (tt, Server h (clients s) (dbs s) (kept s) (also_propagate s) (the_rest s)).
Definition set_clients m : M unit := fun s => Some (tt, Server (heap s) m (dbs s) (kept s) (also_propagate s) (the_rest s)).
Definition set_dbs l : M unit := fun s => Some (tt, Server (heap s) (clients s) l (kept s) (also_propagate s) (the_rest s)).
Definition set_kept l : M unit := fun s => Some (tt, Server (heap s) (clients s) (dbs s) l (also_propagate s) (the_rest s)).
Definition set_also l : M unit := fun s => Some (tt, Server (heap s) (clients s) (dbs s) (kept s) l (the_rest s)).
Definition on_rest f : M unit := fun s => Some (tt, Server (heap s) (clients s) (dbs s) (kept s) (also_propagate s) (f (the_rest s))).

Definition load (l : loc) : M obj := s ← ask; lift (heap s !! l).
Definition get_client (i : nat) : M client := s ← ask; lift (clients s !! i).
Definition upd (i : nat) (f : client -> client) : M unit :=
  c ← get_client i; s ← ask; set_clients (<[i := f c]> (clients s)).
Definition configuration : M config := s ← ask; mret (conf (env (the_rest s))).

Fixpoint each {A} (f : A -> M unit) (l : list A) : M unit :=
  match l with [] => mret tt | x :: l => _ ← f x; each f l end.
Fixpoint collect {A B} (f : A -> M B) (l : list A) : M (list B) :=
  match l with [] => mret [] | x :: l => y ← f x; ys ← collect f l; mret (y :: ys) end.

(** ** Objects *)
Definition createStringObject (x : list Z) : M loc :=
  s ← ask; let l := fresh (dom (heap s)) in _ ← set_heap (<[l := Obj x 1]> (heap s)); mret l.

Definition incrRefCount (l : loc) : M unit :=
  o ← load l; s ← ask; set_heap (<[l := Obj (o_text o) (o_refs o + 1)]> (heap s)).

Definition decrRefCount (l : loc) : M unit :=
  o ← load l; s ← ask;
  if o_refs o <=? 0 then fail
  else if o_refs o =? 1 then set_heap (delete l (heap s))
  else set_heap (<[l := Obj (o_text o) (o_refs o - 1)]> (heap s)).

Definition value (l : loc) : M (list Z) := o ← load l; mret (o_text o).
Definition values (ls : list loc) : M (list (list Z)) := collect value ls.

(** ** Replies *)
Definition addReply (i : nat) (r : reply) : M unit := upd i (fun c => with_out c (out c ++ [r])).
Definition addReplyError (i : nat) (s : string) : M unit := addReply i (Error (text s)).

(** [%s] prints up to the first zero byte; line ends become spaces. *)
Definition c_string : list Z -> list Z := fix go l := match l with [] => [] | c :: l => if c =? 0 then [] else c :: go l end.
Definition no_newlines : list Z -> list Z := map (fun c => if (c =? 13) || (c =? 10) then 32 else c).

(** ** Propagation *)
Definition feed (cmd : option redisCommand) (dbid : nat) (args : list (list Z)) (fl : Z) (r : rest) : rest :=
  let x := Entry cmd dbid args in
  let a := if aof_on (conf (env r)) && has fl REDIS_PROPAGATE_AOF then aof r ++ [x] else aof r in
  let t := if has fl REDIS_PROPAGATE_REPL then stream r ++ [x] else stream r in
  Rest (dirty r) t a (monitored r) (numcommands r) (cmdstats r) (touches r) (env r).

Definition propagate (cmd : option redisCommand) (dbid : nat) (argv : list loc) (fl : Z) : M unit :=
  args ← values argv; on_rest (feed cmd dbid args fl).

Definition redisOpArrayAppend (op : redisOp) : M unit := s ← ask; set_also (also_propagate s ++ [op]).
(** No command of this version calls it: the step [Propagate] stands for the
    commands that call [propagate], and the queue of [alsoPropagate] stays empty. *)
Definition alsoPropagate (cmd : option redisCommand) (dbid : nat) (argv : list loc) (target : Z) : M unit :=
  redisOpArrayAppend (RedisOp cmd dbid argv target).
Definition redisOpArrayInit : M unit := set_also [].

(** [while(oa->numops) ...]: the operations from the last to the first. *)
Definition redisOpArrayFree : M unit :=
  s ← ask; _ ← each (fun op => each decrRefCount (op_argv op)) (rev (also_propagate s)); set_also [].

Definition forceCommandPropagation (i : nat) (fl : Z) : M unit :=
  _ ← (if has fl REDIS_PROPAGATE_REPL then upd i (fun c => with_flags c (Z.lor (flags c) REDIS_FORCE_REPL)) else mret tt);
  if has fl REDIS_PROPAGATE_AOF then upd i (fun c => with_flags c (Z.lor (flags c) REDIS_FORCE_AOF)) else mret tt.

Definition feed_monitors (i : nat) (dbid : nat) (args : list (list Z)) (r : rest) : rest :=
  r_monitored (i, Entry None dbid args) r.

(** ** The arguments of a client *)
Definition freeClientArgv (i : nat) : M unit :=
  c ← get_client i;
  _ ← each decrRefCount (argv c);
  upd i (fun c => with_cmd (with_argv c []) None).

Definition resetClient (i : nat) : M unit :=
  _ ← freeClientArgv i;
  upd i (fun c => if has (flags c) REDIS_MULTI then c else with_flags c (clear (flags c) REDIS_ASKING)).

Definition lookupCommand (name : list Z) : option redisCommand := commands name.
Definition lookupCommandOrOriginal (name : list Z) : option redisCommand :=
  match commands name with None => orig_commands name | c => c end.

(** [server.multiCommand], which is looked up before commands are renamed. *)
Definition server_multiCommand : option redisCommand := orig_commands (text "multi").

Definition rewriteClientCommandVector (i : nat) (new : list loc) : M unit :=
  _ ← each incrRefCount new;
  c ← get_client i;
  _ ← each decrRefCount (argv c);
  name ← lift (head new);
  x ← value name;
  found ← lift (lookupCommandOrOriginal x);
  upd i (fun c => with_cmd (with_argv c new) (Some found)).

Definition rewriteClientCommandArgument (i j : nat) (newval : loc) : M unit :=
  c ← get_client i;
  oldval ← lift (argv c !! j);
  _ ← upd i (fun c => with_argv c (<[j := newval]> (argv c)));
  _ ← incrRefCount newval;
  _ ← decrRefCount oldval;
  match j with
  | O => x ← value newval;
         found ← lift (lookupCommandOrOriginal x);
         upd i (fun c => with_cmd c (Some found))
  | _ => mret tt
  end.

Definition selectDb (i : nat) (id : Z) : M bool :=
  s ← ask;
  if (id <? 0) || (Z.of_nat (length (dbs s)) <=? id) then mret false
  else _ ← upd i (fun c => with_db c (Z.to_nat id)); mret true.

(** ** Watched keys *)
Definition watch_entry (d : nat) (k : list Z) : M (option (loc * list nat)) :=
  s ← ask; t ← lift (dbs s !! d); mret (t !! k).
Definition set_watch_entry (d : nat) (k : list Z) (v : option (loc * list nat)) : M unit :=
  s ← ask; set_dbs (alter (partial_alter (fun _ => v) k) d (dbs s)).

Fixpoint already_watched (d : nat) (k : list Z) (l : list watchedKey) : M bool :=
  match l with
  | [] => mret false
  | wk :: l => x ← value (wk_key wk);
               if bool_decide (wk_db wk = d) && bool_decide (k = x) then mret true else already_watched d k l
  end.

Definition watchForKey (i : nat) (key : loc) : M unit :=
  c ← get_client i;
  k ← value key;
  seen ← already_watched (db c) k (watched_keys c);
  if seen : bool then mret tt
  else
    found ← watch_entry (db c) k;
    _ ← match found with
        | None => _ ← set_watch_entry (db c) k (Some (key, [i])); incrRefCount key
        | Some (o, ws) => set_watch_entry (db c) k (Some (o, ws ++ [i]))
        end;
    _ ← incrRefCount key;
    upd i (fun c => with_watched c (watched_keys c ++ [WatchedKey key (db c)])).

(** [listDelNode(clients,listSearchKey(clients,c))]: the first node that holds
    the client. *)
Fixpoint remove_first (i : nat) (l : list nat) : option (list nat) :=
  match l with
  | [] => None
  | j :: l => if bool_decide (i = j) then Some l else l ← remove_first i l; Some (j :: l)
  end.

Definition unwatch_key (i : nat) (wk : watchedKey) : M unit :=
  k ← value (wk_key wk);
  found ← watch_entry (wk_db wk) k;
  match found with
  | None => fail
  | Some (o, ws) =>
      ws ← lift (remove_first i ws);
      _ ← match ws with
          | [] => _ ← set_watch_entry (wk_db wk) k None; decrRefCount o
          | _ => set_watch_entry (wk_db wk) k (Some (o, ws))
          end;
      _ ← upd i (fun c => with_watched c (tail (watched_keys c)));
      decrRefCount (wk_key wk)
  end.

Definition unwatchAllKeys (i : nat) : M unit :=
  c ← get_client i; each (unwatch_key i) (watched_keys c).

Definition mark_dirty (c : client) : client := with_flags c (Z.lor (flags c) REDIS_DIRTY_CAS).

Definition touchWatchedKey (d : nat) (key : list Z) : M unit :=
  _ ← on_rest (r_touches (TouchKey d key));
  s ← ask;
  t ← lift (dbs s !! d);
  if bool_decide (size t = 0%nat) then mret tt
  else match t !! key with
       | None => mret tt
       | Some (_, ws) => each (fun j => upd j mark_dirty) ws
       end.
Definition signalModifiedKey := touchWatchedKey.

(** The keys of one client, when the databases [dbid] are flushed. *)
Fixpoint touch_on_flush (dbid : Z) (j : nat) (l : list watchedKey) : M unit :=
  match l with
  | [] => mret tt
  | wk :: l =>
      _ ← (if (dbid =? -1) || (Z.of_nat (wk_db wk) =? dbid) then
             k ← value (wk_key wk);
             s ← ask;
             if exists_key (env (the_rest s)) (wk_db wk) k then upd j mark_dirty else mret tt
           else mret tt);
      touch_on_flush dbid j l
  end.

Definition touchWatchedKeysOnFlush (dbid : Z) : M unit :=
  s ← ask;
  _ ← on_rest (r_touches (TouchFlush dbid (env (the_rest s))));
  each (fun j => c ← get_client j; touch_on_flush dbid j (watched_keys c)) (map fst (map_to_list (clients s))).
Definition signalFlushedDb := touchWatchedKeysOnFlush.

(** ** The queue of a transaction *)
Definition initClientMultiState (i : nat) : M unit := upd i (fun c => with_mstate c []).

Definition freeClientMultiState (i : nat) : M unit :=
  c ← get_client i; each (fun mc => each decrRefCount (mc_argv mc)) (mstate c).

Definition queueMultiCommand (i : nat) : M unit :=
  c ← get_client i;
  _ ← upd i (fun c => with_mstate c (mstate c ++ [MultiCmd (argv c) (cmd c)]));
  each incrRefCount (argv c).

Definition discardTransaction (i : nat) : M unit :=
  _ ← freeClientMultiState i;
  _ ← initClientMultiState i;
  _ ← upd i (fun c => with_flags c (clear (flags c) (Z.lor (Z.lor REDIS_MULTI REDIS_DIRTY_CAS) REDIS_DIRTY_EXEC)));
  unwatchAllKeys i.

Definition flagTransaction (i : nat) : M unit :=
  upd i (fun c => if has (flags c) REDIS_MULTI then with_flags c (Z.lor (flags c) REDIS_DIRTY_EXEC) else c).

Definition multiCommand (i : nat) : M unit :=
  c ← get_client i;
  if has (flags c) REDIS_MULTI then addReplyError i "MULTI calls can not be nested"
  else
    _ ← upd i (fun c => with_flags c (Z.lor (flags c) REDIS_MULTI));
    addReply i (Shared ok).

Definition discardCommand (i : nat) : M unit :=
  c ← get_client i;
  if negb (has (flags c) REDIS_MULTI) then addReplyError i "DISCARD without MULTI"
  else _ ← discardTransaction i; addReply i (Shared ok).

Definition watchCommand (i : nat) : M unit :=
  c ← get_client i;
  if has (flags c) REDIS_MULTI then addReplyError i "WATCH inside MULTI is not allowed"
  else _ ← each (watchForKey i) (tail (argv c)); addReply i (Shared ok).

Definition unwatchCommand (i : nat) : M unit :=
  _ ← unwatchAllKeys i;
  _ ← upd i (fun c => with_flags c (clear (flags c) REDIS_DIRTY_CAS));
  addReply i (Shared ok).

Definition execCommandPropagateMulti (i : nat) : M unit :=
  multistring ← createStringObject (text "MULTI");
  c ← get_client i;
  _ ← propagate server_multiCommand (db c) [multistring]
        (Z.lor REDIS_PROPAGATE_AOF REDIS_PROPAGATE_REPL);
  decrRefCount multistring.

(** ** EXEC

    [call] runs the command of a client; it is an argument because EXEC is
    itself run by it. *)
Section Exec.
Context (call : nat -> Z -> M unit).

(** The commands from the [j]-th on; the flag says that MULTI was propagated. *)
Fixpoint exec_loop (i : nat) (n j : nat) (must_propagate : bool) : M bool :=
  match n with
  | O => mret must_propagate
  | S n =>
      c ← get_client i;
      mc ← lift (mstate c !! j);
      _ ← upd i (fun c => with_cmd (with_argv c (mc_argv mc)) (mc_cmd mc));
      k ← lift (mc_cmd mc);
      must_propagate ← (if negb must_propagate && negb (has (cmd_flags k) REDIS_CMD_READONLY)
                        then _ ← execCommandPropagateMulti i; mret true
                        else mret must_propagate);
      _ ← call i REDIS_CALL_FULL;
      _ ← upd i (fun c => with_mstate c (<[j := MultiCmd (argv c) (cmd c)]> (mstate c)));
      exec_loop i n (S j) must_propagate
  end.

Definition handle_monitor (i : nat) : M unit :=
  cf ← configuration;
  if negb (monitors cf =? 0) && negb (loading cf) then
    c ← get_client i;
    args ← values (argv c);
    on_rest (feed_monitors i (db c) args)
  else mret tt.

Definition execCommand (i : nat) : M unit :=
  c ← get_client i;
  if negb (has (flags c) REDIS_MULTI) then addReplyError i "EXEC without MULTI"
  else if has (flags c) (Z.lor REDIS_DIRTY_CAS REDIS_DIRTY_EXEC) then
    _ ← addReply i (Shared (if has (flags c) REDIS_DIRTY_EXEC then execaborterr else nullmultibulk));
    _ ← discardTransaction i;
    handle_monitor i
  else
    _ ← unwatchAllKeys i;
    c ← get_client i;
    _ ← addReply i (MultiBulkLen (Z.of_nat (length (mstate c))));
    must_propagate ← exec_loop i (length (mstate c)) 0 false;
    _ ← upd i (fun c' => with_cmd (with_argv c' (argv c)) (cmd c));
    _ ← discardTransaction i;
    _ ← (if must_propagate : bool then on_rest (r_dirty (fun d => int64 (d + 1))) else mret tt);
    handle_monitor i.
End Exec.

(** ** A connection ends: the parts of [freeClient] that concern commands *)
Definition freeClient (i : nat) : M unit :=
  _ ← unwatchAllKeys i;
  _ ← freeClientArgv i;
  _ ← freeClientMultiState i;
  s ← ask; set_clients (delete i (clients s)).

(** ** Commands

    A command sees its client and the rest of the server and does a sequence
    of steps: it changes the keyspace, replies, signals keys, rewrites its
    arguments, keeps references to them. *)
Inductive arg := Argument (j : nat) | New (x : list Z).
Inductive act :=
  | Change (e : E) | Reply (j : nat) (r : reply) | Signal (d : nat) (k : list Z) | Flush (dbid : Z) | Dirty (f : Z -> Z)
  | Select (id : Z) | Flag (m : Z) (on : bool) | Force (fl : Z) | Auth (b : bool)
  | Rewrite (args : list arg) | RewriteArgument (j : nat) (a : arg) | Keep (j : nat) | Drop (j : nat)
  | Propagate (cmd : option redisCommand) (dbid : nat) (args : list (list Z)) (fl : Z) | Kill (j : nat).

(** The flags of transactions are not a command's to change, and a client that
    is to be closed stays so. *)
Definition tx_flags : Z := Z.lor (Z.lor REDIS_MULTI REDIS_DIRTY_CAS) REDIS_DIRTY_EXEC.
Definition set_flag (m : Z) (on : bool) (x : Z) : Z :=
  if on then Z.lor x (clear m tx_flags) else clear x (clear m (Z.lor tx_flags REDIS_CLOSE_AFTER_REPLY)).

(** The object of an argument, with a reference of the caller. *)
Definition take_arg (i : nat) (a : arg) : M loc :=
  match a with
  | Argument j => c ← get_client i; l ← lift (argv c !! j); _ ← incrRefCount l; mret l
  | New x => createStringObject x
  end.

(** The text that an argument will have. *)
Definition arg_text (args : list (list Z)) (a : arg) : option (list Z) :=
  match a with Argument j => args !! j | New x => Some x end.

Definition do_act (i : nat) (a : act) : M unit :=
  match a with
  | Change e => on_rest (r_env (fun _ => e))
  | Reply j r => s ← ask; match clients s !! j with None => mret tt | Some _ => addReply j r end
  | Signal d k => s ← ask; if bool_decide (d < length (dbs s))%nat then signalModifiedKey d k else mret tt
  | Flush dbid => signalFlushedDb dbid
  | Dirty f => on_rest (r_dirty (fun d => int64 (f d)))
  | Select id => _ ← selectDb i id; mret tt
  | Flag m on => upd i (fun c => with_flags c (set_flag m on (flags c)))
  | Force fl => forceCommandPropagation i fl
  | Auth b => upd i (fun c => with_auth c b)
  | Rewrite args =>
      c ← get_client i;
      vals ← values (argv c);
      match mapM (arg_text vals) args with
      | Some (name :: _) =>
          match lookupCommandOrOriginal name with
          | Some _ =>
              new ← collect (take_arg i) args;
              _ ← rewriteClientCommandVector i new;
              each decrRefCount new
          | None => mret tt
          end
      | _ => mret tt
      end
  | RewriteArgument j a =>
      c ← get_client i;
      vals ← values (argv c);
      match arg_text vals a with
      | Some x =>
          if bool_decide (j < length (argv c))%nat && (bool_decide (j <> 0%nat) || bool_decide (is_Some (lookupCommandOrOriginal x))) then
            l ← take_arg i a;
            _ ← rewriteClientCommandArgument i j l;
            decrRefCount l
          else mret tt
      | None => mret tt
      end
  | Keep j =>
      c ← get_client i;
      match argv c !! j with
      | Some l => _ ← incrRefCount l; s ← ask; set_kept (l :: kept s)
      | None => mret tt
      end
  | Drop j =>
      s ← ask;
      match kept s !! j with
      | Some l => _ ← set_kept (delete j (kept s)); decrRefCount l
      | None => mret tt
      end
  | Propagate cmd dbid args fl => on_rest (feed cmd dbid args fl)
  | Kill j =>
      s ← ask;
      if bool_decide (j <> i) && bool_decide (is_Some (clients s !! j)) then freeClient j else mret tt
  end.

(** The steps of work that the server does by itself: none is about the client
    whose command is being processed. *)
Definition background (v : act) : bool :=
  match v with
  | Change _ | Reply _ _ | Signal _ _ | Flush _ | Dirty _ | Drop _ | Propagate _ _ _ _ | Kill _ => true
  | _ => false
  end.
Definition server_acts : list act -> list act := List.filter background.

Record view := View { v_client : nat; v_db : nat; v_flags : Z; v_args : list (list Z); v_auth : bool }.
Context (command : proc -> view -> E -> list act).
Context (freeMemoryIfNeeded : E -> list act * bool) (handleClientsBlockedOnLists : E -> list act).

Definition run_proc (call : nat -> Z -> M unit) (i : nat) (p : proc) : M unit :=
  match p with
  | execCommand_ => execCommand call i
  | discardCommand_ => discardCommand i
  | multiCommand_ => multiCommand i
  | watchCommand_ => watchCommand i
  | unwatchCommand_ => unwatchCommand i
  | _ =>
      c ← get_client i;
      args ← values (argv c);
      s ← ask;
      each (do_act i) (command p (View i (db c) (flags c) args (authenticated c)) (env (the_rest s)))
  end.

Definition now : M Z :=
  s ← ask; let '(t, e) := ustime (env (the_rest s)) in _ ← on_rest (r_env (fun _ => e)); mret t.

(** The time of a command, in the slow log and in the statistics. *)
Definition log_slow (k : redisCommand) (args : list (list Z)) (duration : Z) (r : rest) : rest :=
  r_env (fun e =>
    slowlogPushEntryIfNeeded args duration
      (latencyAddSampleIfNeeded
         (if has (cmd_flags k) REDIS_CMD_FAST then text "fast-command" else text "command")
         (Z.quot duration 1000) e)) r.
Definition count_call (k : redisCommand) (duration : Z) (r : rest) : rest :=
  r_cmdstats (partial_alter (fun x =>
    let '(micro, calls) := default (0, 0) x in Some (int64 (micro + duration), int64 (calls + 1))) (cmd_name k)) r.

(** The flags to propagate with: forced, or because the data set changed. *)
Definition propagate_flags (client_flags dirty : Z) : Z :=
  let fl := REDIS_PROPAGATE_NONE in
  let fl := if has client_flags REDIS_FORCE_REPL then Z.lor fl REDIS_PROPAGATE_REPL else fl in
  let fl := if has client_flags REDIS_FORCE_AOF then Z.lor fl REDIS_PROPAGATE_AOF else fl in
  if dirty =? 0 then fl else Z.lor fl (Z.lor REDIS_PROPAGATE_REPL REDIS_PROPAGATE_AOF).

Definition FORCE : Z := Z.lor REDIS_FORCE_AOF REDIS_FORCE_REPL.

Definition force_caller (client_flags : Z) (c : client) : client :=
  let c := if has client_flags REDIS_FORCE_REPL then with_flags c (Z.lor (flags c) REDIS_FORCE_REPL) else c in
  if has client_flags REDIS_FORCE_AOF then with_flags c (Z.lor (flags c) REDIS_FORCE_AOF) else c.

(** What [call] does once the command has run, for [dirty] changes. *)
Definition after_call (i : nat) (fl dirty duration client_old_flags : Z) : M unit :=
  c ← get_client i;
  cf ← configuration;
  let fl := if loading cf && has (flags c) REDIS_LUA_CLIENT
            then clear fl (Z.lor REDIS_CALL_SLOWLOG REDIS_CALL_STATS) else fl in
  s ← ask;
  _ ← (if has (flags c) REDIS_LUA_CLIENT then
         match lua_caller cf with
         | Some j => set_clients (alter (force_caller (flags c)) j (clients s))
         | None => mret tt
         end
       else mret tt);
  c ← get_client i;
  k ← lift (cmd c);
  args ← values (argv c);
  _ ← (if has fl REDIS_CALL_SLOWLOG && negb (bool_decide (cmd_proc k = execCommand_))
       then on_rest (log_slow k args duration) else mret tt);
  _ ← (if has fl REDIS_CALL_STATS then on_rest (count_call k duration) else mret tt);
  _ ← (if has fl REDIS_CALL_PROPAGATE && negb (propagate_flags (flags c) dirty =? REDIS_PROPAGATE_NONE)
       then propagate (cmd c) (db c) (argv c) (propagate_flags (flags c) dirty) else mret tt);
  _ ← upd i (fun c => with_flags c (Z.lor (clear (flags c) FORCE) (Z.land client_old_flags FORCE)));
  s ← ask;
  _ ← match also_propagate s with
      | [] => mret tt
      | ops =>
          _ ← each (fun rop => propagate (op_cmd rop) (op_db rop) (op_argv rop) (op_target rop)) ops;
          redisOpArrayFree
      end;
  on_rest r_numcommands.

Definition call_with (call : nat -> Z -> M unit) (i : nat) (fl : Z) : M unit :=
  c ← get_client i;
  k ← lift (cmd c);
  cf ← configuration;
  args ← values (argv c);
  _ ← (if negb (monitors cf =? 0) && negb (loading cf) && negb (has (cmd_flags k) REDIS_CMD_SKIP_MONITOR)
       then on_rest (feed_monitors i (db c) args) else mret tt);
  _ ← upd i (fun c => with_flags c (clear (flags c) FORCE));
  _ ← redisOpArrayInit;
  s ← ask;
  start ← now;
  _ ← run_proc call i (cmd_proc k);
  t ← now;
  s' ← ask;
  let dirty := int64 (dirty (the_rest s') - dirty (the_rest s)) in
  after_call i fl (if dirty <? 0 then 0 else dirty) (int64 (t - start)) (flags c).

(** EXEC calls [call] again for commands that do not. *)
Fixpoint call (depth : nat) (i : nat) (fl : Z) : M unit :=
  match depth with
  | O => fail
  | S depth => call_with (call depth) i fl
  end.

(** ** Checking a command *)
Inductive verdict := Accept | Reject (flag : bool) (r : reply).

Definition first_check (cf : config) (auth : bool) (name : list Z) (argc : Z) (k : option redisCommand) : verdict :=
  match k with
  | None => Reject true (Error (no_newlines (text "unknown command '" ++ c_string name ++ text "'")))
  | Some k =>
      if (0 <? cmd_arity k) && negb (cmd_arity k =? argc) || (argc <? - cmd_arity k) then
        Reject true (Error (no_newlines (text "wrong number of arguments for '" ++ cmd_name k ++ text "' command")))
      else if requirepass cf && negb auth && negb (bool_decide (cmd_proc k = authCommand_)) then
        Reject true (Shared noautherr)
      else Accept
  end.

(** The lower case of the first character of the second of two arguments. *)
Definition second_is (args : list (list Z)) (c : Z) : bool :=
  match args with
  | [_; x] => Glob.tolower (default 0 (head x)) =? c
  | _ => false
  end.

Definition second_check (cf : config) (fl : Z) (args : list (list Z)) (k : redisCommand) : verdict :=
  let writes := has (cmd_flags k) REDIS_CMD_WRITE in
  let p := cmd_proc k in
  if ((stop_writes_on_bgsave_err cf && (0 <? saveparamslen cf) && lastbgsave_failed cf) || aof_last_write_failed cf)
     && negb (masterhost cf) && (writes || bool_decide (p = pingCommand_)) then
    Reject true (if aof_last_write_failed cf
                 then Bytes (text "-MISCONF Errors writing to the AOF file: " ++ aof_last_write_error cf ++ [13; 10])
                 else Shared bgsaveerr)
  else if negb (masterhost cf) && negb (repl_min_slaves_to_write cf =? 0) && negb (repl_min_slaves_max_lag cf =? 0)
          && writes && (repl_good_slaves_count cf <? repl_min_slaves_to_write cf) then
    Reject true (Shared noreplicaserr)
  else if masterhost cf && repl_slave_ro cf && negb (has fl REDIS_MASTER) && writes then
    Reject false (Shared roslaveerr)
  else if has fl REDIS_PUBSUB
          && negb (bool_decide (p = pingCommand_)) && negb (bool_decide (p = subscribeCommand_))
          && negb (bool_decide (p = unsubscribeCommand_)) && negb (bool_decide (p = psubscribeCommand_))
          && negb (bool_decide (p = punsubscribeCommand_)) then
    Reject false (Error (text "only (P)SUBSCRIBE / (P)UNSUBSCRIBE / QUIT allowed in this context"))
  else if masterhost cf && negb (repl_connected cf) && negb (repl_serve_stale_data cf)
          && negb (has (cmd_flags k) REDIS_CMD_STALE) then
    Reject true (Shared masterdownerr)
  else if loading cf && negb (has (cmd_flags k) REDIS_CMD_LOADING) then
    Reject false (Shared loadingerr)
  else if lua_timedout cf && negb (bool_decide (p = authCommand_)) && negb (bool_decide (p = replconfCommand_))
          && negb (bool_decide (p = shutdownCommand_) && second_is args 110)
          && negb (bool_decide (p = scriptCommand_) && second_is args 107) then
    Reject true (Shared slowscripterr)
  else Accept.

Definition reject (i : nat) (flag : bool) (r : reply) : M unit :=
  _ ← (if flag then flagTransaction i else mret tt); addReply i r.

(** The commands that are not queued. *)
Definition immediate (p : proc) : bool :=
  bool_decide (p = execCommand_) || bool_decide (p = discardCommand_)
  || bool_decide (p = multiCommand_) || bool_decide (p = watchCommand_).

Definition dispatch (i : nat) (k : redisCommand) : M unit :=
  c ← get_client i;
  if has (flags c) REDIS_MULTI && negb (immediate (cmd_proc k)) then
    _ ← queueMultiCommand i; addReply i (Shared queued)
  else
    _ ← call 2 i REDIS_CALL_FULL;
    s ← ask;
    let e := env (the_rest s) in
    if negb (ready_keys (conf e) =? 0) then each (do_act i) (server_acts (handleClientsBlockedOnLists e)) else mret tt.

Definition is_quit (name : list Z) : bool :=
  bool_decide (map Glob.tolower (c_string name) = text "quit").

(** The result is [REDIS_OK]. *)
Definition processCommand (i : nat) : M bool :=
  c ← get_client i;
  args ← values (argv c);
  name ← lift (head args);
  if is_quit name then
    _ ← addReply i (Shared ok);
    _ ← upd i (fun c => with_flags c (Z.lor (flags c) REDIS_CLOSE_AFTER_REPLY));
    mret false
  else
    let found := lookupCommand name in
    _ ← upd i (fun c => with_cmd (with_lastcmd c found) found);
    cf ← configuration;
    match first_check cf (authenticated c) name (Z.of_nat (length args)) found, found with
    | Accept, Some _ =>
        retval ← (if maxmemory cf then
                    s ← ask;
                    let '(acts, retval) := freeMemoryIfNeeded (env (the_rest s)) in
                    _ ← each (do_act i) (server_acts acts); mret retval
                  else mret true);
        c ← get_client i;
        k ← lift (cmd c);
        args ← values (argv c);
        cf ← configuration;
        _ ← (if has (cmd_flags k) REDIS_CMD_DENYOOM && negb retval then reject i true (Shared oomerr)
             else match second_check cf (flags c) args k with
                  | Reject flag r => reject i flag r
                  | Accept => dispatch i k
                  end);
        mret true
    | Reject flag r, _ => _ ← reject i flag r; mret true
    | Accept, None => fail
    end.

(** ** What happens to a server *)
Inductive event := Connect (i : nat) | Disconnect (i : nat) | Request (i : nat) (args : list (list Z)).

Definition createClient (i : nat) : M unit :=
  s ← ask; set_clients (<[i := Client 0 0 [] None None false [] [] []]> (clients s)).

(** A request that was read: the round of [processInputBuffer]. *)
Definition process_request (i : nat) (args : list (list Z)) : M unit :=
  c ← get_client i;
  if has (flags c) REDIS_BLOCKED then mret tt
  else if has (flags c) REDIS_CLOSE_AFTER_REPLY then mret tt
  else
    new ← collect createStringObject args;
    _ ← upd i (fun c => with_argv c new);
    match new with
    | [] => resetClient i
    | _ => done ← processCommand i; if done : bool then resetClient i else mret tt
    end.

Definition step (e : event) : M unit :=
  s ← ask;
  match e with
  | Connect i => if bool_decide (is_Some (clients s !! i)) then mret tt else createClient i
  | Disconnect i => if bool_decide (is_Some (clients s !! i)) then freeClient i else mret tt
  | Request i args => if bool_decide (is_Some (clients s !! i)) then process_request i args else mret tt
  end.

Definition run : list event -> M unit := each step.

(** ** The specification

    The same server without objects, counts and tables: arguments are texts, a
    client has the set of the keys it watches, and touching a key marks every
    client that watches it. Its operations are total. *)
Record aclient := AClient {
  a_flags : Z; a_db : nat; a_args : list (list Z); a_cmd : option redisCommand; a_lastcmd : option redisCommand;
  a_auth : bool; a_watched : list (nat * list Z); a_queue : list (option redisCommand * list (list Z)); a_out : list reply }.
Record aserver := AServer { a_clients : gmap nat aclient; a_dbs : nat; a_rest : rest }.

Definition nobody : aclient := AClient 0 0 [] None None false [] [] [].

Definition a_with_flags c x := AClient x (a_db c) (a_args c) (a_cmd c) (a_lastcmd c) (a_auth c) (a_watched c) (a_queue c) (a_out c).
Definition a_with_db c x := AClient (a_flags c) x (a_args c) (a_cmd c) (a_lastcmd c) (a_auth c) (a_watched c) (a_queue c) (a_out c).
Definition a_with_args c x k := AClient (a_flags c) (a_db c) x k (a_lastcmd c) (a_auth c) (a_watched c) (a_queue c) (a_out c).
Definition a_with_lastcmd c x := AClient (a_flags c) (a_db c) (a_args c) (a_cmd c) x (a_auth c) (a_watched c) (a_queue c) (a_out c).
Definition a_with_auth c x := AClient (a_flags c) (a_db c) (a_args c) (a_cmd c) (a_lastcmd c) x (a_watched c) (a_queue c) (a_out c).
Definition a_with_watched c x := AClient (a_flags c) (a_db c) (a_args c) (a_cmd c) (a_lastcmd c) (a_auth c) x (a_queue c) (a_out c).
Definition a_with_queue c x := AClient (a_flags c) (a_db c) (a_args c) (a_cmd c) (a_lastcmd c) (a_auth c) (a_watched c) x (a_out c).
Definition a_with_out c x := AClient (a_flags c) (a_db c) (a_args c) (a_cmd c) (a_lastcmd c) (a_auth c) (a_watched c) (a_queue c) x.

Definition the_client (i : nat) (a : aserver) : aclient := default nobody (a_clients a !! i).
Definition a_upd (i : nat) (f : aclient -> aclient) (a : aserver) : aserver :=
  AServer (alter f i (a_clients a)) (a_dbs a) (a_rest a).
Definition a_on_rest (f : rest -> rest) (a : aserver) : aserver := AServer (a_clients a) (a_dbs a) (f (a_rest a)).
Definition a_env (a : aserver) : E := env (a_rest a).

Definition a_reply (i : nat) (r : reply) : aserver -> aserver := a_upd i (fun c => a_with_out c (a_out c ++ [r])).
Definition a_set_flags (i : nat) (f : Z -> Z) : aserver -> aserver := a_upd i (fun c => a_with_flags c (f (a_flags c))).
Definition a_mark (c : aclient) : aclient := a_with_flags c (Z.lor (a_flags c) REDIS_DIRTY_CAS).

(** Touching a key, or the keys of a database. *)
Definition hits (x : touch) (w : nat * list Z) : bool :=
  match x with
  | TouchKey d k => bool_decide (w = (d, k))
  | TouchFlush dbid e => ((dbid =? -1) || (Z.of_nat w.1 =? dbid)) && exists_key e w.1 w.2
  end.
Definition a_touch (x : touch) (a : aserver) : aserver :=
  AServer ((fun c => if existsb (hits x) (a_watched c) then a_mark c else c) <$> a_clients a) (a_dbs a)
    (r_touches x (a_rest a)).

Definition a_watch (i : nat) (k : list Z) : aserver -> aserver :=
  a_upd i (fun c => if bool_decide ((a_db c, k) ∈ a_watched c) then c
                    else a_with_watched c (a_watched c ++ [(a_db c, k)])).
Definition a_unwatch (i : nat) : aserver -> aserver := a_upd i (fun c => a_with_watched c []).

Definition a_force (i : nat) (fl : Z) : aserver -> aserver :=
  a_set_flags i (fun x =>
    let x := if has fl REDIS_PROPAGATE_REPL then Z.lor x REDIS_FORCE_REPL else x in
    if has fl REDIS_PROPAGATE_AOF then Z.lor x REDIS_FORCE_AOF else x).

Definition a_act (i : nat) (x : act) (a : aserver) : aserver :=
  let c := the_client i a in
  match x with
  | Change e => a_on_rest (r_env (fun _ => e)) a
  | Reply j r => a_reply j r a
  | Signal d k => if bool_decide (d < a_dbs a)%nat then a_touch (TouchKey d k) a else a
  | Flush dbid => a_touch (TouchFlush dbid (a_env a)) a
  | Dirty f => a_on_rest (r_dirty (fun d => int64 (f d))) a
  | Select id => if (id <? 0) || (Z.of_nat (a_dbs a) <=? id) then a
                 else a_upd i (fun c => a_with_db c (Z.to_nat id)) a
  | Flag m on => a_set_flags i (set_flag m on) a
  | Force fl => a_force i fl a
  | Auth b => a_upd i (fun c => a_with_auth c b) a
  | Rewrite args =>
      match mapM (arg_text (a_args c)) args with
      | Some ((name :: _) as new) =>
          match lookupCommandOrOriginal name with
          | Some k => a_upd i (fun c => a_with_args c new (Some k)) a
          | None => a
          end
      | _ => a
      end
  | RewriteArgument j v =>
      match arg_text (a_args c) v with
      | Some x =>
          match j with
          | O => match lookupCommandOrOriginal x, a_args c with
                 | Some k, _ :: _ => a_upd i (fun c => a_with_args c (<[j := x]> (a_args c)) (Some k)) a
                 | _, _ => a
                 end
          | _ => a_upd i (fun c => a_with_args c (<[j := x]> (a_args c)) (a_cmd c)) a
          end
      | None => a
      end
  | Keep _ | Drop _ => a
  | Propagate cmd dbid args fl => a_on_rest (feed cmd dbid args fl) a
  | Kill j => if bool_decide (j = i) then a else AServer (delete j (a_clients a)) (a_dbs a) (a_rest a)
  end.
Definition a_acts (i : nat) (xs : list act) (a : aserver) : aserver := foldl (fun a x => a_act i x a) a xs.

Definition a_now (a : aserver) : Z * aserver := let '(t, e) := ustime (a_env a) in (t, a_on_rest (r_env (fun _ => e)) a).

Definition a_discard (i : nat) : aserver -> aserver :=
  a_upd i (fun c => a_with_watched (a_with_queue (a_with_flags c (clear (a_flags c) tx_flags)) []) []).

Definition a_monitor (i : nat) (a : aserver) : aserver :=
  let c := the_client i a in
  if negb (monitors (conf (a_env a)) =? 0) && negb (loading (conf (a_env a)))
  then a_on_rest (feed_monitors i (a_db c) (a_args c)) a else a.

(** The commands of a queue, one after the other. *)
Section AExec.
Context (a_call : nat -> Z -> aserver -> aserver).

Fixpoint a_exec (i : nat) (q : list (option redisCommand * list (list Z))) (must_propagate : bool) (a : aserver)
  : bool * aserver :=
  match q with
  | [] => (must_propagate, a)
  | (k, args) :: q =>
      let a := a_upd i (fun c => a_with_args c args k) a in
      let first := negb must_propagate && negb (has (default 0 (cmd_flags <$> k)) REDIS_CMD_READONLY) in
      let a := if first then
                 a_on_rest (feed server_multiCommand (a_db (the_client i a)) [text "MULTI"]
                              (Z.lor REDIS_PROPAGATE_AOF REDIS_PROPAGATE_REPL)) a
               else a in
      a_exec i q (must_propagate || first) (a_call i REDIS_CALL_FULL a)
  end.

Definition a_execCommand (i : nat) (a : aserver) : aserver :=
  let c := the_client i a in
  if negb (has (a_flags c) REDIS_MULTI) then a_reply i (Error (text "EXEC without MULTI")) a
  else if has (a_flags c) (Z.lor REDIS_DIRTY_CAS REDIS_DIRTY_EXEC) then
    a_monitor i (a_discard i (a_reply i (Shared (if has (a_flags c) REDIS_DIRTY_EXEC then execaborterr else nullmultibulk)) a))
  else
    let a := a_upd i (fun c => a_with_queue c []) (a_unwatch i a) in
    let '(must_propagate, a) :=
      a_exec i (a_queue c) false (a_reply i (MultiBulkLen (Z.of_nat (length (a_queue c)))) a) in
    let a := a_discard i (a_upd i (fun x => a_with_args x (a_args c) (a_cmd c)) a) in
    a_monitor i (if must_propagate : bool then a_on_rest (r_dirty (fun d => int64 (d + 1))) a else a).

Definition a_run_proc (i : nat) (p : proc) (a : aserver) : aserver :=
  let c := the_client i a in
  match p with
  | execCommand_ => a_execCommand i a
  | discardCommand_ =>
      if negb (has (a_flags c) REDIS_MULTI) then a_reply i (Error (text "DISCARD without MULTI")) a
      else a_reply i (Shared ok) (a_discard i a)
  | multiCommand_ =>
      if has (a_flags c) REDIS_MULTI then a_reply i (Error (text "MULTI calls can not be nested")) a
      else a_reply i (Shared ok) (a_set_flags i (fun x => Z.lor x REDIS_MULTI) a)
  | watchCommand_ =>
      if has (a_flags c) REDIS_MULTI then a_reply i (Error (text "WATCH inside MULTI is not allowed")) a
      else a_reply i (Shared ok) (foldl (fun a k => a_watch i k a) a (tail (a_args c)))
  | unwatchCommand_ =>
      a_reply i (Shared ok) (a_set_flags i (fun x => clear x REDIS_DIRTY_CAS) (a_unwatch i a))
  | _ => a_acts i (command p (View i (a_db c) (a_flags c) (a_args c) (a_auth c)) (a_env a)) a
  end.

Definition a_force_caller (client_flags : Z) (c : aclient) : aclient :=
  let c := if has client_flags REDIS_FORCE_REPL then a_with_flags c (Z.lor (a_flags c) REDIS_FORCE_REPL) else c in
  if has client_flags REDIS_FORCE_AOF then a_with_flags c (Z.lor (a_flags c) REDIS_FORCE_AOF) else c.

Definition a_after_call (i : nat) (fl dirty duration client_old_flags : Z) (a : aserver) : aserver :=
  let c := the_client i a in
  let cf := conf (a_env a) in
  let fl := if loading cf && has (a_flags c) REDIS_LUA_CLIENT
            then clear fl (Z.lor REDIS_CALL_SLOWLOG REDIS_CALL_STATS) else fl in
  let a := if has (a_flags c) REDIS_LUA_CLIENT then
             match lua_caller cf with Some j => a_upd j (a_force_caller (a_flags c)) a | None => a end
           else a in
  let c := the_client i a in
  let k := default (Cmd [] execCommand_ 0 0) (a_cmd c) in
  let a := if has fl REDIS_CALL_SLOWLOG && negb (bool_decide (cmd_proc k = execCommand_))
           then a_on_rest (log_slow k (a_args c) duration) a else a in
  let a := if has fl REDIS_CALL_STATS then a_on_rest (count_call k duration) a else a in
  let a := if has fl REDIS_CALL_PROPAGATE && negb (propagate_flags (a_flags c) dirty =? REDIS_PROPAGATE_NONE)
           then a_on_rest (feed (a_cmd c) (a_db c) (a_args c) (propagate_flags (a_flags c) dirty)) a else a in
  a_on_rest r_numcommands (a_set_flags i (fun x => Z.lor (clear x FORCE) (Z.land client_old_flags FORCE)) a).

Definition a_call_with (i : nat) (fl : Z) (a : aserver) : aserver :=
  let c := the_client i a in
  let cf := conf (a_env a) in
  let k := default (Cmd [] execCommand_ 0 0) (a_cmd c) in
  let a := if negb (monitors cf =? 0) && negb (loading cf) && negb (has (cmd_flags k) REDIS_CMD_SKIP_MONITOR)
           then a_on_rest (feed_monitors i (a_db c) (a_args c)) a else a in
  let a := a_set_flags i (fun x => clear x FORCE) a in
  let before := dirty (a_rest a) in
  let '(start, a) := a_now a in
  let '(t, a) := a_now (a_run_proc i (cmd_proc k) a) in
  let dirty := int64 (dirty (a_rest a) - before) in
  a_after_call i fl (if dirty <? 0 then 0 else dirty) (int64 (t - start)) (a_flags c) a.
End AExec.

Fixpoint a_call (depth : nat) (i : nat) (fl : Z) (a : aserver) : aserver :=
  match depth with
  | O => a
  | S depth => a_call_with (a_call depth) i fl a
  end.

Definition a_reject (i : nat) (flag : bool) (r : reply) (a : aserver) : aserver :=
  a_reply i r (if flag then a_set_flags i (fun x => if has x REDIS_MULTI then Z.lor x REDIS_DIRTY_EXEC else x) a else a).

Definition a_dispatch (i : nat) (k : redisCommand) (a : aserver) : aserver :=
  let c := the_client i a in
  if has (a_flags c) REDIS_MULTI && negb (immediate (cmd_proc k)) then
    a_reply i (Shared queued) (a_upd i (fun c => a_with_queue c (a_queue c ++ [(a_cmd c, a_args c)])) a)
  else
    let a := a_call 2 i REDIS_CALL_FULL a in
    let e := a_env a in
    if negb (ready_keys (conf e) =? 0) then a_acts i (server_acts (handleClientsBlockedOnLists e)) a else a.

Definition a_processCommand (i : nat) (a : aserver) : bool * aserver :=
  let c := the_client i a in
  let name := default [] (head (a_args c)) in
  if is_quit name then (false, a_set_flags i (fun x => Z.lor x REDIS_CLOSE_AFTER_REPLY) (a_reply i (Shared ok) a))
  else
    let found := lookupCommand name in
    let a := a_upd i (fun c => a_with_lastcmd (a_with_args c (a_args c) found) found) a in
    let cf := conf (a_env a) in
    (true, match first_check cf (a_auth c) name (Z.of_nat (length (a_args c))) found, found with
           | Accept, Some _ =>
               let '(acts, retval) := if maxmemory cf then freeMemoryIfNeeded (a_env a) else ([], true) in
               let a := a_acts i (server_acts acts) a in
               let c := the_client i a in
               let k := default (Cmd [] execCommand_ 0 0) (a_cmd c) in
               if has (cmd_flags k) REDIS_CMD_DENYOOM && negb retval then a_reject i true (Shared oomerr) a
               else match second_check (conf (a_env a)) (a_flags c) (a_args c) k with
                    | Reject flag r => a_reject i flag r a
                    | Accept => a_dispatch i k a
                    end
           | Reject flag r, _ => a_reject i flag r a
           | Accept, None => a
           end).

Definition a_reset (i : nat) : aserver -> aserver :=
  a_upd i (fun c => let c := a_with_args c [] None in
                    if has (a_flags c) REDIS_MULTI then c else a_with_flags c (clear (a_flags c) REDIS_ASKING)).

Definition a_request (i : nat) (args : list (list Z)) (a : aserver) : aserver :=
  let c := the_client i a in
  if has (a_flags c) REDIS_BLOCKED then a
  else if has (a_flags c) REDIS_CLOSE_AFTER_REPLY then a
  else
    let a := a_upd i (fun c => a_with_args c args (a_cmd c)) a in
    match args with
    | [] => a_reset i a
    | _ => let '(done, a) := a_processCommand i a in if done : bool then a_reset i a else a
    end.

Definition a_step (e : event) (a : aserver) : aserver :=
  match e with
  | Connect i => if bool_decide (is_Some (a_clients a !! i)) then a
                 else AServer (<[i := nobody]> (a_clients a)) (a_dbs a) (a_rest a)
  | Disconnect i => AServer (delete i (a_clients a)) (a_dbs a) (a_rest a)
  | Request i args => if bool_decide (is_Some (a_clients a !! i)) then a_request i args a else a
  end.
Definition a_run (es : list event) (a : aserver) : aserver := foldl (fun a e => a_step e a) a es.

(** ** References and counts

    [counted h ls]: the objects of the heap are those of [ls], and the count of
    each is the number of its occurrences. *)
Fixpoint cnt (l : loc) (ls : list loc) : Z :=
  match ls with [] => 0 | x :: ls => (if bool_decide (x = l) then 1 else 0) + cnt l ls end.

Definition counted (h : gmap loc obj) (ls : list loc) : Prop := forall l,
  match h !! l with Some o => o_refs o = cnt l ls /\ 0 < cnt l ls | None => cnt l ls = 0 end.

Definition txt (h : gmap loc obj) (l : loc) : list Z := default [] (o_text <$> h !! l).

(** The objects of [ls] are the same in both heaps. *)
Definition agree (h h' : gmap loc obj) (ls : list loc) : Prop := forall l, l ∈ ls -> txt h' l = txt h l.

Lemma cnt_app l a b : cnt l (a ++ b) = cnt l a + cnt l b.
Proof. induction a as [|x a IH]; cbn; [done|]. rewrite IH. lia. Qed.
Lemma cnt_nonneg l a : 0 <= cnt l a.
Proof. induction a as [|x a IH]; cbn; [done|]. case_bool_decide; lia. Qed.
Lemma cnt_pos l a : l ∈ a <-> 0 < cnt l a.
Proof.
  induction a as [|x a IH]; cbn.
  - split; [intros H; inversion H|lia].
  - rewrite elem_of_cons, IH. pose proof (cnt_nonneg l a). case_bool_decide; naive_solver lia.
Qed.
Lemma cnt_perm l a b : a ≡ₚ b -> cnt l a = cnt l b.
Proof. induction 1; cbn; lia. Qed.

#[local] Instance counted_perm h : Proper ((≡ₚ) ==> iff) (counted h).
Proof.
  intros a b H. split; intros Hc l; specialize (Hc l).
  - by rewrite (cnt_perm l _ _ H) in Hc.
  - by rewrite <- (cnt_perm l _ _ H) in Hc.
Qed.

Lemma counted_live h ls l : counted h ls -> l ∈ ls -> exists o, h !! l = Some o /\ o_refs o = cnt l ls.
Proof.
  intros H Hl%cnt_pos. specialize (H l). destruct (h !! l) as [o|]; [|lia]. exists o. naive_solver.
Qed.

Lemma agree_refl h ls : agree h h ls.
Proof. done. Qed.
Lemma agree_trans h h' h'' ls : agree h h' ls -> agree h' h'' ls -> agree h h'' ls.
Proof. intros H H' l Hl. by rewrite H', H. Qed.
Lemma agree_sub h h' ls ls' : (forall l, l ∈ ls -> l ∈ ls') -> agree h h' ls' -> agree h h' ls.
Proof. intros H H' l Hl. by apply H', H. Qed.
Lemma agree_app h h' a b : agree h h' (a ++ b) <-> agree h h' a /\ agree h h' b.
Proof. unfold agree. setoid_rewrite elem_of_app. naive_solver. Qed.

Definition heaped (s : server) h : server := Server h (clients s) (dbs s) (kept s) (also_propagate s) (the_rest s).

Lemma incr_spec s ls l :
  counted (heap s) ls -> l ∈ ls ->
  exists h, incrRefCount l s = Some (tt, heaped s h) /\ counted h (l :: ls) /\ agree (heap s) h (l :: ls).
Proof.
  intros H Hl. destruct (counted_live _ _ _ H Hl) as (o & Ho & Hr). eexists. split; [|split].
  - unfold incrRefCount, load, ask, lift, mbind, M_bind, mret. cbn. rewrite Ho. reflexivity.
  - intros l'. cbn. destruct (decide (l = l')) as [<-|Hn].
    + rewrite lookup_insert_eq, bool_decide_eq_true_2 by done. cbn. pose proof (cnt_nonneg l ls). lia.
    + rewrite lookup_insert_ne, bool_decide_eq_false_2 by done. apply H.
  - intros l' _. unfold txt. destruct (decide (l = l')) as [<-|Hn].
    + by rewrite lookup_insert_eq, Ho.
    + by rewrite lookup_insert_ne.
Qed.

Lemma decr_spec s ls l :
  counted (heap s) (l :: ls) ->
  exists h, decrRefCount l s = Some (tt, heaped s h) /\ counted h ls /\ agree (heap s) h ls.
Proof.
  intros H. destruct (counted_live _ _ l H) as (o & Ho & Hr); [set_solver|].
  cbn in Hr. rewrite bool_decide_eq_true_2 in Hr by done.
  pose proof (cnt_nonneg l ls) as Hc.
  unfold decrRefCount, load, ask, lift, mbind, M_bind, mret, fail. cbn. rewrite Ho. cbn.
  destruct (Z.leb_spec (o_refs o) 0); [lia|]. destruct (Z.eqb_spec (o_refs o) 1) as [E1|E1].
  - eexists. split; [reflexivity|]. split.
    + intros l'. specialize (H l'). cbn in H. destruct (decide (l = l')) as [<-|Hn].
      * rewrite lookup_delete_eq. lia.
      * rewrite lookup_delete_ne by done. by rewrite bool_decide_eq_false_2 in H.
    + intros l' Hl'%cnt_pos. unfold txt. rewrite lookup_delete_ne; [done|]. intros ->. lia.
  - eexists. split; [reflexivity|]. split.
    + intros l'. specialize (H l'). cbn in H. destruct (decide (l = l')) as [<-|Hn].
      * rewrite lookup_insert_eq. cbn. lia.
      * rewrite lookup_insert_ne by done. by rewrite bool_decide_eq_false_2 in H.
    + intros l' _. unfold txt. destruct (decide (l = l')) as [<-|Hn].
      * by rewrite lookup_insert_eq, Ho.
      * by rewrite lookup_insert_ne.
Qed.

Lemma create_obj_spec s ls x :
  counted (heap s) ls ->
  exists l h, createStringObject x s = Some (l, heaped s h) /\ counted h (l :: ls) /\ agree (heap s) h ls /\ txt h l = x.
Proof.
  intros H. set (l := fresh (dom (heap s))).
  assert (heap s !! l = None) as Hl by (apply not_elem_of_dom, is_fresh).
  assert (cnt l ls = 0) as Hc by (specialize (H l); by rewrite Hl in H).
  exists l, (<[l := Obj x 1]> (heap s)). split; [reflexivity|]. split; [|split].
  - intros l'. cbn. destruct (decide (l = l')) as [<-|Hn].
    + rewrite lookup_insert_eq, bool_decide_eq_true_2 by done. cbn. lia.
    + rewrite lookup_insert_ne, bool_decide_eq_false_2 by done. apply H.
  - intros l' Hl'%cnt_pos. unfold txt. rewrite lookup_insert_ne; [done|]. intros ->. lia.
  - unfold txt. by rewrite lookup_insert_eq.
Qed.

Lemma heaped_heaped s h h' : heaped (heaped s h) h' = heaped s h'.
Proof. done. Qed.

Lemma each_decr s ls gone :
  counted (heap s) (gone ++ ls) ->
  exists h, each decrRefCount gone s = Some (tt, heaped s h) /\ counted h ls /\ agree (heap s) h ls.
Proof.
  revert s. induction gone as [|l gone IH]; intros s H; cbn.
  - exists (heap s). split; [by destruct s|]. done.
  - destruct (decr_spec s _ _ H) as (h & E1 & C1 & A1). rewrite (bind_run _ _ _ _ _ E1).
    destruct (IH (heaped s h) C1) as (h' & E2 & C2 & A2). exists h'. rewrite E2. split; [done|]. split; [done|].
    apply agree_app in A1 as [_ A1]. by eapply agree_trans.
Qed.

Lemma each_incr s ls more :
  counted (heap s) ls -> (forall l, l ∈ more -> l ∈ ls) ->
  exists h, each incrRefCount more s = Some (tt, heaped s h) /\ counted h (more ++ ls) /\ agree (heap s) h (more ++ ls).
Proof.
  revert s ls. induction more as [|l more IH]; intros s ls H Hm; cbn.
  - exists (heap s). split; [by destruct s|]. done.
  - destruct (incr_spec s ls l H) as (h & E1 & C1 & A1); [set_solver|]. rewrite (bind_run _ _ _ _ _ E1).
    destruct (IH (heaped s h) (l :: ls)) as (h' & E2 & C2 & A2); [done|set_solver|].
    exists h'. rewrite E2. split; [done|]. rewrite <- Permutation_middle in C2. split; [done|].
    assert (forall l', l' ∈ l :: more ++ ls -> l' ∈ l :: ls) as Hs.
    { intros l' Hl'. apply elem_of_cons in Hl' as [->|[Hl'|Hl']%elem_of_app]; set_solver. }
    eapply agree_trans; [exact (agree_sub _ _ _ _ Hs A1)|].
    eapply agree_sub; [|exact A2]. intros l' Hl'%Hs. set_solver.
Qed.

Lemma each_app {A} (f : A -> M unit) a b s : each f (a ++ b) s = (each f a ≫= fun _ => each f b) s.
Proof.
  revert s. induction a as [|x a IH]; intros s; [done|]. cbn [each app].
  rewrite bind_assoc. apply bind_ext. intros _ s'. apply IH.
Qed.

Lemma each_concat {A} (f : A -> list loc) (g : loc -> M unit) l s :
  each (fun x => each g (f x)) l s = each g (l ≫= f) s.
Proof.
  revert s. induction l as [|x l IH]; intros s; [done|]. cbn. rewrite each_app. apply bind_ext. intros _ s'. apply IH.
Qed.

(** Reading the texts of live objects. *)
Lemma value_spec s ls l : counted (heap s) ls -> l ∈ ls -> value l s = Some (txt (heap s) l, s).
Proof.
  intros H Hl. destruct (counted_live _ _ _ H Hl) as (o & Ho & _).
  unfold value, load, ask, lift, txt, mbind, M_bind, mret, M_ret. cbn. by rewrite Ho.
Qed.
Lemma values_spec s ls a : counted (heap s) ls -> (forall l, l ∈ a -> l ∈ ls) -> values a s = Some (map (txt (heap s)) a, s).
Proof.
  intros H Ha. unfold values. induction a as [|l a IH]; [done|]. cbn.
  rewrite (bind_run _ _ _ _ _ (value_spec _ _ _ H (Ha l ltac:(set_solver)))).
  rewrite (bind_run _ _ _ _ _ (IH ltac:(set_solver))). done.
Qed.

Lemma map_agree h h' ls : agree h h' ls -> map (txt h') ls = map (txt h) ls.
Proof. intros H. apply map_ext_in. intros l Hl. apply H. by apply list_elem_of_In. Qed.

(** ** The invariant

    [x] is the client whose queue EXEC is running; the references of that queue
    and those of the running functions are the list [t]. *)
Definition client_refs (x : option nat) (i : nat) (c : client) : list loc :=
  argv c ++ map wk_key (watched_keys c) ++ (if decide (x = Some i) then [] else mstate c ≫= mc_argv).
Definition clients_refs x (m : gmap nat client) : list loc := map_to_list m ≫= fun p => client_refs x p.1 p.2.
Definition entry_refs (v : option (loc * list nat)) : list loc := match v with Some (o, _) => [o] | None => [] end.
Definition table_refs (ds : list watch_table) : list loc :=
  ds ≫= fun t => map_to_list t ≫= fun p => entry_refs (Some p.2).
Definition refs x (s : server) : list loc := clients_refs x (clients s) ++ table_refs (dbs s) ++ kept s.

Definition wkey (h : gmap loc obj) (wk : watchedKey) : nat * list Z := (wk_db wk, txt h (wk_key wk)).
Definition watchers (ds : list watch_table) (d : nat) (k : list Z) : option (loc * list nat) := t ← ds !! d; t !! k.

(** The lists of clients in the tables and the lists of keys in the clients
    are two views of one relation. *)
Record watch_ok (h : gmap loc obj) (cs : gmap nat client) (ds : list watch_table) : Prop := WatchOk {
  wo_client : forall i c d k, cs !! i = Some c -> (d, k) ∈ map (wkey h) (watched_keys c) ->
    exists o ws, watchers ds d k = Some (o, ws) /\ i ∈ ws;
  wo_table : forall d k o ws, watchers ds d k = Some (o, ws) -> txt h o = k /\ ws <> [] /\ NoDup ws;
  wo_listed : forall d k o ws i, watchers ds d k = Some (o, ws) -> i ∈ ws ->
    exists c, cs !! i = Some c /\ (d, k) ∈ map (wkey h) (watched_keys c);
  wo_nodup : forall i c, cs !! i = Some c -> NoDup (map (wkey h) (watched_keys c)) }.

Definition queueable (mc : multiCmd) : Prop := exists k, mc_cmd mc = Some k /\ immediate (cmd_proc k) = false.

Record wf (x : option nat) (t : list loc) (s : server) : Prop := Wf {
  wf_counted : counted (heap s) (refs x s ++ t);
  wf_watch : watch_ok (heap s) (clients s) (dbs s);
  wf_also : also_propagate s = [];
  wf_queue : forall i c, clients s !! i = Some c -> x <> Some i -> Forall queueable (mstate c);
  wf_db : forall i c, clients s !! i = Some c -> (db c < length (dbs s))%nat;
  wf_dbs : (0 < length (dbs s))%nat }.

(** ** The abstraction *)
Definition abs_client (h : gmap loc obj) (x : option nat) (i : nat) (c : client) : aclient :=
  AClient (flags c) (db c) (map (txt h) (argv c)) (cmd c) (lastcmd c) (authenticated c)
    (map (wkey h) (watched_keys c))
    (if decide (x = Some i) then [] else map (fun mc => (mc_cmd mc, map (txt h) (mc_argv mc))) (mstate c)) (out c).

Record rel (x : option nat) (s : server) (a : aserver) : Prop := Rel {
  rel_rest : a_rest a = the_rest s;
  rel_dbs : a_dbs a = length (dbs s);
  rel_clients : forall i, a_clients a !! i = abs_client (heap s) x i <$> clients s !! i }.

(** The objects of [t] and the queue that EXEC runs stay as they are. *)
Definition quiet (x : option nat) (t : list loc) (s s' : server) : Prop :=
  agree (heap s) (heap s') t /\
  forall i c, x = Some i -> clients s !! i = Some c -> exists c', clients s' !! i = Some c' /\ mstate c' = mstate c.

Lemma quiet_refl x t s : quiet x t s s.
Proof. split; [done|]. eauto. Qed.
Lemma quiet_trans x t s s' s'' : quiet x t s s' -> quiet x t s' s'' -> quiet x t s s''.
Proof.
  intros [G1 Q1] [G2 Q2]. split; [by eapply agree_trans|]. intros i c Hx Hc.
  destruct (Q1 i c Hx Hc) as (c1 & Hc1 & E1). destruct (Q2 i c1 Hx Hc1) as (c2 & Hc2 & E2). exists c2. split; congruence.
Qed.
Lemma quiet_same x t s s' : clients s' = clients s -> agree (heap s) (heap s') t -> quiet x t s s'.
Proof. intros H G. split; [done|]. rewrite H. eauto. Qed.
Lemma quiet_client x t s s' i c c' :
  clients s !! i = Some c -> clients s' = <[i := c']> (clients s) -> (x = Some i -> mstate c' = mstate c) ->
  agree (heap s) (heap s') t -> quiet x t s s'.
Proof.
  intros Hc H Hm G. split; [done|]. rewrite H. intros j c0 Hx Hc0. destruct (decide (i = j)) as [<-|Hn].
  - exists c'. rewrite lookup_insert_eq. simplify_eq. eauto.
  - exists c0. by rewrite lookup_insert_ne.
Qed.
Lemma quiet_sub x t t' s s' : (forall l, l ∈ t -> l ∈ t') -> quiet x t' s s' -> quiet x t s s'.
Proof. intros H [G Q]. split; [by eapply agree_sub|done]. Qed.
Lemma quiet_agree x t s s' : quiet x t s s' -> agree (heap s) (heap s') t.
Proof. by intros []. Qed.

(** The computation runs, keeps the invariant and ends in a state of [a']. *)
Definition does x t (s : server) (m : M unit) (a' : aserver) : Prop :=
  exists s', m s = Some (tt, s') /\ quiet x t s s' /\ wf x t s' /\ rel x s' a'.

Lemma does_bind x t s (m : M unit) (k : unit -> M unit) a1 a2 :
  does x t s m a1 -> (forall s1, wf x t s1 -> rel x s1 a1 -> does x t s1 (k tt) a2) -> does x t s (m ≫= k) a2.
Proof.
  intros (s1 & E1 & G1 & W1 & R1) H. destruct (H s1 W1 R1) as (s2 & E2 & G2 & W2 & R2).
  exists s2. rewrite (bind_run _ _ _ _ _ E1). split; [done|]. split; [by eapply quiet_trans|done].
Qed.
Lemma does_ret x t s a : wf x t s -> rel x s a -> does x t s (mret tt) a.
Proof. intros. exists s. split; [done|]. split; [apply quiet_refl|done]. Qed.
Lemma does_eq x t s (m m' : M unit) a : m s = m' s -> does x t s m' a -> does x t s m a.
Proof. intros E1 (s' & E2 & H). exists s'. by rewrite E1. Qed.
Lemma does_eq_and x t s (m m' : M unit) a (P : Prop) : m s = m' s -> does x t s m' a /\ P -> does x t s m a /\ P.
Proof. intros E1 [H ?]. split; [by eapply does_eq|done]. Qed.

(** *** References *)
Lemma elem_of_bind_list {A B} (f : A -> list B) l y : y ∈ l ≫= f <-> exists x, y ∈ f x /\ x ∈ l.
Proof. apply list_elem_of_bind. Qed.

Lemma clients_refs_delete x m i c :
  m !! i = Some c -> clients_refs x m ≡ₚ client_refs x i c ++ clients_refs x (delete i m).
Proof. intros H. unfold clients_refs. by rewrite <- (map_to_list_delete m i c H). Qed.
Lemma clients_refs_insert x m i c :
  clients_refs x (<[i := c]> m) ≡ₚ client_refs x i c ++ clients_refs x (delete i m).
Proof. rewrite (clients_refs_delete x _ i c) by apply lookup_insert_eq. by rewrite delete_insert_eq. Qed.

Definition others x (i : nat) (s : server) : list loc :=
  clients_refs x (delete i (clients s)) ++ table_refs (dbs s) ++ kept s.
Lemma refs_client x s i c : clients s !! i = Some c -> refs x s ≡ₚ client_refs x i c ++ others x i s.
Proof. intros H. unfold refs, others. rewrite (clients_refs_delete x _ i c H). by rewrite <- app_assoc. Qed.

Lemma client_refs_sub x s i c l : clients s !! i = Some c -> l ∈ client_refs x i c -> l ∈ refs x s.
Proof. intros H Hl. rewrite (refs_client x s i c H). set_solver. Qed.

Lemma table_refs_entry ds d t k :
  ds !! d = Some t -> table_refs ds ≡ₚ entry_refs (t !! k) ++ table_refs (alter (delete k) d ds).
Proof.
  intros H. unfold table_refs.
  assert (alter (delete k) d ds = <[d := delete k t]> ds) as ->.
  { apply list_eq. intros j. destruct (decide (d = j)) as [<-|Hn].
    - rewrite list_lookup_alter_eq, H. cbn. rewrite list_lookup_insert_eq; [done|]. by apply lookup_lt_is_Some; exists t.
    - by rewrite list_lookup_alter_ne, list_lookup_insert_ne. }
  rewrite <- (take_drop_middle ds d t H) at 1.
  rewrite (insert_take_drop ds d) by (by apply lookup_lt_is_Some; exists t).
  rewrite !bind_app, !bind_cons.
  assert ((map_to_list t ≫= fun p => entry_refs (Some p.2)) ≡ₚ
          entry_refs (t !! k) ++ (map_to_list (delete k t) ≫= fun p => entry_refs (Some p.2))) as ->.
  { destruct (t !! k) as [v|] eqn:E1.
    - by rewrite <- (map_to_list_delete t k v E1).
    - by rewrite delete_id. }
  rewrite <- !app_assoc. rewrite !app_assoc. f_equiv. f_equiv. apply Permutation_app_comm.
Qed.

Definition set_entry (ds : list watch_table) (d : nat) (k : list Z) (v : option (loc * list nat)) : list watch_table := alter (partial_alter (fun _ => v) k) d ds.

Lemma watchers_set ds d k v d' k' :
  (d < length ds)%nat ->
  watchers (set_entry ds d k v) d' k' = if decide ((d, k) = (d', k')) then v else watchers ds d' k'.
Proof.
  intros H. unfold watchers, set_entry. apply lookup_lt_is_Some in H as [t Ht].
  destruct (decide ((d, k) = (d', k'))) as [[= <- <-]|Hn].
  - rewrite list_lookup_alter_eq, Ht. cbn. apply lookup_partial_alter_eq.
  - destruct (decide (d = d')) as [<-|Hd]; [|by rewrite list_lookup_alter_ne].
    rewrite list_lookup_alter_eq, Ht. cbn. rewrite lookup_partial_alter_ne; [done|]. congruence.
Qed.

Lemma length_set_entry ds d k v : length (set_entry ds d k v) = length ds.
Proof. apply length_alter. Qed.

Lemma table_refs_set ds d k v :
  (d < length ds)%nat ->
  exists r, table_refs ds ≡ₚ entry_refs (watchers ds d k) ++ r /\ table_refs (set_entry ds d k v) ≡ₚ entry_refs v ++ r.
Proof.
  intros H. apply lookup_lt_is_Some in H as [t Ht]. exists (table_refs (alter (delete k) d ds)). split.
  - rewrite (table_refs_entry ds d t k Ht). unfold watchers. by rewrite Ht.
  - assert (set_entry ds d k v !! d = Some (partial_alter (fun _ => v) k t)) as Hd.
    { unfold set_entry. by rewrite list_lookup_alter_eq, Ht. }
    rewrite (table_refs_entry _ _ _ k Hd), lookup_partial_alter_eq. unfold set_entry.
    f_equiv.
    replace (alter (delete k) d (alter (partial_alter (fun _ => v) k) d ds)) with (alter (delete k) d ds); [done|].
    apply list_eq. intros j. destruct (decide (d = j)) as [<-|Hj].
    + rewrite !list_lookup_alter_eq, Ht. cbn. f_equal. apply map_eq. intros k'. destruct (decide (k = k')) as [<-|Hk].
      * by rewrite !lookup_delete_eq.
      * by rewrite !lookup_delete_ne, lookup_partial_alter_ne.
    + by rewrite !list_lookup_alter_ne.
Qed.

Lemma watchers_refs ds d k o ws : watchers ds d k = Some (o, ws) -> o ∈ table_refs ds.
Proof.
  unfold watchers. destruct (ds !! d) as [t|] eqn:Ht; [|done]. cbn. intros H.
  rewrite (table_refs_entry ds d t k Ht), H. set_solver.
Qed.

(** *** Frames *)
Lemma watched_refs x i c l : l ∈ map wk_key (watched_keys c) -> l ∈ client_refs x i c.
Proof. intros H. apply elem_of_app. right. apply elem_of_app. by left. Qed.
Lemma argv_refs x i c l : l ∈ argv c -> l ∈ client_refs x i c.
Proof. intros H. apply elem_of_app. by left. Qed.

Lemma wkeys_agree h h' l : agree h h' (map wk_key l) -> map (wkey h') l = map (wkey h) l.
Proof.
  intros H. apply map_ext_in. intros wk Hwk%list_elem_of_In. unfold wkey. f_equal. apply H. by apply list_elem_of_fmap_2.
Qed.

Lemma abs_agree h h' x i c : agree h h' (client_refs x i c) -> abs_client h' x i c = abs_client h x i c.
Proof.
  unfold client_refs, abs_client. intros [Ha [Hw Hq]%agree_app]%agree_app.
  rewrite (map_agree _ _ _ Ha), (wkeys_agree _ _ _ Hw). f_equal. destruct (decide _); [done|].
  apply map_ext_in. intros mc Hmc%list_elem_of_In. f_equal. apply map_agree. eapply agree_sub; [|exact Hq].
  intros l Hl. apply elem_of_bind_list. eauto.
Qed.

Lemma watch_ok_frame h h' cs cs' ds :
  (forall i c', cs' !! i = Some c' -> exists c, cs !! i = Some c /\ watched_keys c' = watched_keys c) ->
  (forall i c, cs !! i = Some c -> exists c', cs' !! i = Some c') ->
  (forall i c, cs !! i = Some c -> agree h h' (map wk_key (watched_keys c))) ->
  agree h h' (table_refs ds) -> watch_ok h cs ds -> watch_ok h' cs' ds.
Proof.
  intros Hb Hf Ha Ht [W1 W2 W3 W4].
  assert (forall i c', cs' !! i = Some c' -> exists c, cs !! i = Some c /\
            map (wkey h') (watched_keys c') = map (wkey h) (watched_keys c)) as Hk.
  { intros i c' Hc'. destruct (Hb _ _ Hc') as (c & Hc & Hw). exists c. split; [done|].
    rewrite Hw. apply wkeys_agree. eauto. }
  split.
  - intros i c' d k Hc' Hin. destruct (Hk _ _ Hc') as (c & Hc & Hw). rewrite Hw in Hin. eauto.
  - intros d k o ws H. destruct (W2 _ _ _ _ H) as (H1 & H2). split; [|done].
    rewrite Ht; [done|]. by eapply watchers_refs.
  - intros d k o ws i H Hi. destruct (W3 _ _ _ _ _ H Hi) as (c & Hc & Hin).
    destruct (Hf _ _ Hc) as (c' & Hc'). exists c'. split; [done|].
    destruct (Hk _ _ Hc') as (c0 & Hc0 & ->). congruence.
  - intros i c' Hc'. destruct (Hk _ _ Hc') as (c & Hc & ->). eauto.
Qed.

Lemma heap_frame x t t' s a h :
  wf x t s -> rel x s a -> counted h (refs x s ++ t') -> agree (heap s) h (refs x s) ->
  wf x t' (heaped s h) /\ rel x (heaped s h) a.
Proof.
  intros [C W A Q D N] [R1 R2 R3] C' G. split; split; try done.
  - cbn. eapply watch_ok_frame; [| | | |exact W]; [eauto..| |].
    + intros i c Hc. eapply agree_sub; [|exact G]. intros l Hl.
      apply (client_refs_sub x s i c); [done|]. by apply watched_refs.
    + eapply agree_sub; [|exact G]. intros l Hl. apply elem_of_app. right. apply elem_of_app. by left.
  - intros i. rewrite R3. cbn. destruct (clients s !! i) as [c|] eqn:Hc; [|done]. cbn. f_equal. symmetry.
    apply abs_agree. eapply agree_sub; [|exact G]. intros l Hl. by eapply client_refs_sub.
Qed.

Definition clientd (s : server) h i c : server :=
  Server h (<[i := c]> (clients s)) (dbs s) (kept s) (also_propagate s) (the_rest s).

Lemma alter_insert_some {V} (m : gmap nat V) i f v : m !! i = Some v -> alter f i m = <[i := f v]> m.
Proof.
  intros H. apply map_eq. intros j. destruct (decide (i = j)) as [<-|Hn].
  - by rewrite lookup_alter_eq, H, lookup_insert_eq.
  - by rewrite lookup_alter_ne, lookup_insert_ne.
Qed.

Lemma refs_clientd x s h i c' : refs x (clientd s h i c') ≡ₚ client_refs x i c' ++ others x i s.
Proof. unfold refs, others. cbn. rewrite clients_refs_insert. by rewrite <- app_assoc. Qed.

Lemma others_clientd x s h i c' : others x i (clientd s h i c') = others x i s.
Proof. unfold others. cbn. by rewrite delete_insert_eq. Qed.

Lemma others_client x s i j c : i <> j -> clients s !! j = Some c -> forall l, l ∈ client_refs x j c -> l ∈ others x i s.
Proof.
  intros Hn Hc l Hl. unfold others.
  rewrite (clients_refs_delete x (delete i (clients s)) j c); [apply elem_of_app; left; by apply elem_of_app; left|]. by rewrite lookup_delete_ne.
Qed.

(** A client, the tables and the heap change. *)
Definition stated (s : server) h i c ds : server :=
  Server h (<[i := c]> (clients s)) ds (kept s) (also_propagate s) (the_rest s).

Lemma state_frame x t t' s a h i c c' ds g :
  wf x t s -> rel x s a -> clients s !! i = Some c -> length ds = length (dbs s) ->
  counted h (client_refs x i c' ++ clients_refs x (delete i (clients s)) ++ table_refs ds ++ kept s ++ t') ->
  agree (heap s) h (map wk_key (watched_keys c') ++ clients_refs x (delete i (clients s)) ++ table_refs ds) ->
  watch_ok (heap s) (<[i := c']> (clients s)) ds ->
  (x <> Some i -> Forall queueable (mstate c')) -> (db c' < length ds)%nat ->
  g (abs_client (heap s) x i c) = abs_client h x i c' ->
  wf x t' (stated s h i c' ds) /\ rel x (stated s h i c' ds) (a_upd i g a).
Proof.
  intros [C W A Q D N] [R1 R2 R3] Hc Hl C' [G1 [G2 G3]%agree_app]%agree_app W' Hq Hd Hg.
  assert (forall j c0 l, i <> j -> clients s !! j = Some c0 -> l ∈ client_refs x j c0 ->
            l ∈ clients_refs x (delete i (clients s))) as Hin.
  { intros j c0 l Hn Hc0 H0. rewrite (clients_refs_delete x (delete i (clients s)) j c0).
    - apply elem_of_app. by left.
    - by rewrite lookup_delete_ne. }
  split; split; cbn; rewrite ?Hl; try done.
  - unfold refs. cbn. rewrite clients_refs_insert. by rewrite <- !app_assoc.
  - eapply watch_ok_frame; [| | |exact G3|exact W']; [eauto..|].
    intros j c0. destruct (decide (i = j)) as [<-|Hn].
    + rewrite lookup_insert_eq. by intros [= <-].
    + rewrite lookup_insert_ne by done. intros Hc0. eapply agree_sub; [|exact G2].
      intros l H0. eapply Hin; [done..|]. by apply watched_refs.
  - intros j c0. destruct (decide (i = j)) as [<-|Hn].
    + rewrite lookup_insert_eq. by intros [= <-].
    + rewrite lookup_insert_ne by done. apply Q.
  - intros j c0. destruct (decide (i = j)) as [<-|Hn].
    + rewrite lookup_insert_eq. intros [= <-]. lia.
    + rewrite lookup_insert_ne by done. apply D.
  - intros j. destruct (decide (i = j)) as [<-|Hn].
    + rewrite lookup_alter_eq, lookup_insert_eq, R3, Hc. cbn. by rewrite Hg.
    + rewrite lookup_alter_ne, lookup_insert_ne, R3 by done.
      destruct (clients s !! j) as [c0|] eqn:Hc0; [|done]. cbn. f_equal. symmetry. apply abs_agree.
      eapply agree_sub; [|exact G2]. intros l H0. by eapply Hin.
Qed.

(** A client, and the heap, change. *)
Lemma client_frame x t t' s a h i c c' g :
  wf x t s -> rel x s a -> clients s !! i = Some c ->
  counted h (client_refs x i c' ++ others x i s ++ t') ->
  agree (heap s) h (map wk_key (watched_keys c) ++ others x i s) ->
  watched_keys c' = watched_keys c -> (x <> Some i -> Forall queueable (mstate c')) -> (db c' < length (dbs s))%nat ->
  g (abs_client (heap s) x i c) = abs_client h x i c' ->
  wf x t' (clientd s h i c') /\ rel x (clientd s h i c') (a_upd i g a).
Proof.
  intros W R Hc C' G Hw Hq Hd Hg. eapply (state_frame x t t' s a h i c c' (dbs s) g); try done.
  - unfold others in C'. by rewrite <- !app_assoc in C'.
  - rewrite Hw. eapply agree_sub; [|exact G]. unfold others. intros l. rewrite !elem_of_app. tauto.
  - eapply (watch_ok_frame _ _ (clients s)); [| |done..|exact (wf_watch _ _ _ W)].
    + intros j c0. destruct (decide (i = j)) as [<-|Hn].
      * rewrite lookup_insert_eq. intros [= <-]. eauto.
      * rewrite lookup_insert_ne by done. eauto.
    + intros j c0 Hc0. destruct (decide (i = j)) as [<-|Hn].
      * rewrite lookup_insert_eq. eauto.
      * rewrite lookup_insert_ne by done. eauto.
Qed.

(** *** Clients *)
Definition here (i : nat) (a : aserver) : Prop := is_Some (a_clients a !! i).

Lemma here_upd i j f a : here i (a_upd j f a) <-> here i a.
Proof.
  unfold here. cbn. destruct (decide (i = j)) as [<-|Hn].
  - rewrite lookup_alter_eq. by destruct (a_clients a !! i); cbn.
  - by rewrite lookup_alter_ne.
Qed.
Lemma here_rest i f a : here i (a_on_rest f a) <-> here i a.
Proof. done. Qed.

Lemma rel_get x s a i :
  rel x s a -> here i a -> exists c, clients s !! i = Some c /\ the_client i a = abs_client (heap s) x i c.
Proof.
  intros [_ _ R] [ac Hac]. unfold the_client. rewrite R in *. destruct (clients s !! i) as [c|]; [|done]. eauto.
Qed.
Lemma rel_here x s a i c : rel x s a -> clients s !! i = Some c -> here i a.
Proof. intros [_ _ R] H. unfold here. rewrite R, H. cbn. eauto. Qed.

Lemma ask_bind {B} (k : server -> M B) s : (ask ≫= k) s = k s s.
Proof. done. Qed.
Lemma client_spec s i c : clients s !! i = Some c -> get_client i s = Some (c, s).
Proof. intros H. unfold get_client, ask, lift, mbind, M_bind. cbn. by rewrite H. Qed.
Lemma upd_spec s i c f : clients s !! i = Some c -> upd i f s = Some (tt, clientd s (heap s) i (f c)).
Proof. intros H. unfold upd. by rewrite (bind_run _ _ _ _ _ (client_spec _ _ _ H)). Qed.
Lemma conf_spec x s a : rel x s a -> configuration s = Some (conf (a_env a), s).
Proof. intros [R _ _]. unfold a_env. by rewrite R. Qed.

Lemma does_upd x t s a i c f g :
  wf x t s -> rel x s a -> clients s !! i = Some c ->
  argv (f c) = argv c -> watched_keys (f c) = watched_keys c -> mstate (f c) = mstate c ->
  (db (f c) < length (dbs s))%nat -> g (abs_client (heap s) x i c) = abs_client (heap s) x i (f c) ->
  does x t s (upd i f) (a_upd i g a).
Proof.
  intros W R Hc Ha Hw Hm Hd Hg. exists (clientd s (heap s) i (f c)). split; [by apply upd_spec|]. split; [by eapply quiet_client|].
  assert (client_refs x i (f c) = client_refs x i c) as Hr by (unfold client_refs; by rewrite Ha, Hw, Hm).
  eapply client_frame; try done.
  - rewrite Hr, app_assoc, <- (refs_client x s i c Hc). apply W.
  - intros Hx. rewrite Hm. by eapply (wf_queue _ _ _ W).
Qed.

Lemma does_rest x t s a f : wf x t s -> rel x s a -> does x t s (on_rest f) (a_on_rest f a).
Proof.
  intros [C W A Q D N] [R1 R2 R3]. eexists. split; [reflexivity|]. split; [by apply quiet_same|]. split; split; try done. cbn. by rewrite R1.
Qed.

(** The common cases: flags, replies. *)
Lemma does_flags x t s a i f :
  wf x t s -> rel x s a -> here i a -> does x t s (upd i (fun c => with_flags c (f (flags c)))) (a_set_flags i f a).
Proof.
  intros W R H. destruct (rel_get _ _ _ _ R H) as (c & Hc & _). eapply (does_upd _ _ _ _ _ c); try done.
  exact (wf_db _ _ _ W i c Hc).
Qed.
Lemma does_reply x t s a i r : wf x t s -> rel x s a -> here i a -> does x t s (addReply i r) (a_reply i r a).
Proof.
  intros W R H. destruct (rel_get _ _ _ _ R H) as (c & Hc & _). eapply (does_upd _ _ _ _ _ c); try done.
  exact (wf_db _ _ _ W i c Hc).
Qed.

(** *** Watched keys *)
Lemma already_spec s ls d k l :
  counted (heap s) ls -> (forall wk, wk ∈ l -> wk_key wk ∈ ls) ->
  already_watched d k l s = Some (bool_decide ((d, k) ∈ map (wkey (heap s)) l), s).
Proof.
  intros C. induction l as [|wk l IH]; intros Hl.
  - cbn. rewrite bool_decide_eq_false_2 by apply not_elem_of_nil. done.
  - cbn. rewrite (bind_run _ _ _ _ _ (value_spec _ _ _ C (Hl wk ltac:(set_solver)))).
    assert (bool_decide ((d, k) ∈ wkey (heap s) wk :: map (wkey (heap s)) l) =
            bool_decide (wk_db wk = d) && bool_decide (k = txt (heap s) (wk_key wk))
            || bool_decide ((d, k) ∈ map (wkey (heap s)) l)) as ->.
    { rewrite (bool_decide_ext _ ((wk_db wk = d /\ k = txt (heap s) (wk_key wk)) \/ (d, k) ∈ map (wkey (heap s)) l)).
      - by rewrite bool_decide_or, bool_decide_and.
      - rewrite elem_of_cons. unfold wkey at 1. naive_solver. }
    destruct (bool_decide _ && bool_decide _); [done|]. apply IH. set_solver.
Qed.

Lemma remove_first_spec i ws :
  i ∈ ws -> NoDup ws -> exists ws', remove_first i ws = Some ws' /\ NoDup ws' /\ forall j, j ∈ ws' <-> j ∈ ws /\ j <> i.
Proof.
  induction ws as [|j ws IH]; intros Hi Hn; [by inversion Hi|]. cbn. apply NoDup_cons in Hn as [Hj Hn].
  case_bool_decide as E1.
  - subst. exists ws. split; [done|]. split; [done|]. intros j'. rewrite elem_of_cons. naive_solver.
  - apply elem_of_cons in Hi as [->|Hi]; [done|]. destruct (IH Hi Hn) as (ws' & -> & Hn' & Hin).
    exists (j :: ws'). split; [done|]. split.
    + apply NoDup_cons. rewrite Hin. naive_solver.
    + intros j'. rewrite !elem_of_cons, Hin. naive_solver.
Qed.

Lemma watch_ok_add h cs ds i c d k key o ws :
  watch_ok h cs ds -> cs !! i = Some c -> ~ (d, k) ∈ map (wkey h) (watched_keys c) -> txt h key = k -> (d < length ds)%nat ->
  watchers ds d k = Some (o, ws) \/ watchers ds d k = None /\ ws = [] /\ o = key ->
  watch_ok h (<[i := with_watched c (watched_keys c ++ [WatchedKey key d])]> cs) (set_entry ds d k (Some (o, ws ++ [i]))).
Proof.
  intros [W1 W2 W3 W4] Hc Hk Ht Hd Hw.
  assert (map (wkey h) (watched_keys c ++ [WatchedKey key d]) = map (wkey h) (watched_keys c) ++ [(d, k)]) as Hm.
  { rewrite map_app. cbn. unfold wkey at 2. cbn. by rewrite Ht. }
  assert (i ∉ ws) as Hi.
  { intros Hi. destruct Hw as [Hw|(_ & -> & _)]; [|by inversion Hi].
    destruct (W3 _ _ _ _ _ Hw Hi) as (c0 & Hc0 & Hin). by simplify_eq. }
  split.
  - intros j c0 d' k'. destruct (decide (i = j)) as [<-|Hn].
    + rewrite lookup_insert_eq. intros [= <-]. cbn [watched_keys with_watched]. rewrite Hm, elem_of_app, list_elem_of_singleton.
      intros Hin. rewrite watchers_set by done. destruct (decide _) as [|Hdk].
      * exists o, (ws ++ [i]). set_solver.
      * destruct Hin as [Hin|Hin]; [eauto|congruence].
    + rewrite lookup_insert_ne by done. intros Hc0 Hin. destruct (W1 _ _ _ _ Hc0 Hin) as (o' & ws' & Hw' & Hj).
      rewrite watchers_set by done. destruct (decide _) as [[= -> ->]|Hdk]; [|eauto].
      exists o, (ws ++ [i]). split; [done|]. destruct Hw as [Hw|(Hw & _)]; [|congruence].
      simplify_eq. set_solver.
  - intros d' k' o' ws'. rewrite watchers_set by done. destruct (decide _) as [[= <- <-]|]; [|apply W2].
    intros [= <- <-]. destruct Hw as [Hw|(_ & -> & ->)].
    + destruct (W2 _ _ _ _ Hw) as (H1 & H2 & H3). split; [done|]. split; [by destruct ws|].
      apply NoDup_app. split; [done|]. split; [set_solver|]. apply NoDup_singleton.
    + split; [done|]. split; [done|]. apply NoDup_singleton.
  - intros d' k' o' ws' j. rewrite watchers_set by done. destruct (decide _) as [[= <- <-]|Hdk].
    + intros [= <- <-]. rewrite elem_of_app, list_elem_of_singleton. intros Hj. destruct (decide (i = j)) as [<-|Hn].
      * rewrite lookup_insert_eq. eexists. split; [done|]. cbn [watched_keys with_watched]. rewrite Hm. set_solver.
      * rewrite lookup_insert_ne by done. destruct Hj as [Hj| ->]; [|done].
        destruct Hw as [Hw|(_ & -> & _)]; [eauto|by inversion Hj].
    + intros Hw' Hj. destruct (W3 _ _ _ _ _ Hw' Hj) as (c0 & Hc0 & Hin). destruct (decide (i = j)) as [<-|Hn].
      * rewrite lookup_insert_eq. eexists. split; [done|]. cbn [watched_keys with_watched]. rewrite Hm. simplify_eq. set_solver.
      * rewrite lookup_insert_ne by done. eauto.
  - intros j c0. destruct (decide (i = j)) as [<-|Hn].
    + rewrite lookup_insert_eq. intros [= <-]. cbn [watched_keys with_watched]. rewrite Hm.
      apply NoDup_app. split; [by eapply W4|]. split; [set_solver|]. apply NoDup_singleton.
    + rewrite lookup_insert_ne by done. apply W4.
Qed.

Definition remaining (o : loc) (ws : list nat) : option (loc * list nat) :=
  match ws with [] => None | _ => Some (o, ws) end.

Lemma watch_ok_del h cs ds i c d k wk l o ws ws' :
  watch_ok h cs ds -> cs !! i = Some c -> watched_keys c = wk :: l -> wkey h wk = (d, k) -> (d < length ds)%nat ->
  watchers ds d k = Some (o, ws) -> NoDup ws' -> (forall j, j ∈ ws' <-> j ∈ ws /\ j <> i) ->
  watch_ok h (<[i := with_watched c l]> cs) (set_entry ds d k (remaining o ws')).
Proof.
  intros [W1 W2 W3 W4] Hc Hl Hk Hd Hw Hnd Hin.
  assert ((~ (d, k) ∈ map (wkey h) l) /\ NoDup (map (wkey h) l)) as [Hkl Hnl].
  { specialize (W4 _ _ Hc). rewrite Hl in W4. cbn in W4. rewrite Hk in W4. by apply NoDup_cons in W4. }
  assert (forall d' k', (d', k') ∈ map (wkey h) (watched_keys c) <-> (d', k') = (d, k) \/ (d', k') ∈ map (wkey h) l) as Hwk.
  { intros d' k'. rewrite Hl. cbn. rewrite Hk. apply elem_of_cons. }
  assert (forall j, j ∈ ws' -> remaining o ws' = Some (o, ws')) as Hrem by (intros j Hj; destruct ws'; [by inversion Hj|done]).
  split.
  - intros j c0 d' k'. destruct (decide (i = j)) as [<-|Hn].
    + rewrite lookup_insert_eq. intros [= <-] Hin'. rewrite watchers_set by done.
      destruct (decide _) as [[= <- <-]|Hdk]; [done|]. eapply W1; [done|]. apply Hwk. by right.
    + rewrite lookup_insert_ne by done. intros Hc0 Hin'. destruct (W1 _ _ _ _ Hc0 Hin') as (o' & ws0 & Hw' & Hj).
      rewrite watchers_set by done. destruct (decide _) as [[= <- <-]|Hdk]; [|eauto].
      rewrite Hw in Hw'. simplify_eq. assert (j ∈ ws') as Hj' by (apply Hin; done).
      exists o', ws'. split; [by eapply Hrem|done].
  - intros d' k' o' ws0. rewrite watchers_set by done. destruct (decide _) as [[= <- <-]|]; [|apply W2].
    destruct (W2 _ _ _ _ Hw) as (H1 & _). unfold remaining. destruct ws'; [done|]. by intros [= <- <-].
  - intros d' k' o' ws0 j. rewrite watchers_set by done. destruct (decide _) as [[= <- <-]|Hdk].
    + destruct ws' as [|j0 ws']; [done|]. intros [= <- <-] [Hj Hji]%Hin.
      rewrite lookup_insert_ne by done. eauto.
    + intros Hw' Hj. destruct (W3 _ _ _ _ _ Hw' Hj) as (c0 & Hc0 & Hin'). destruct (decide (i = j)) as [<-|Hn].
      * rewrite lookup_insert_eq. eexists. split; [done|]. simplify_eq. apply Hwk in Hin' as [?|?]; [congruence|done].
      * rewrite lookup_insert_ne by done. eauto.
  - intros j c0. destruct (decide (i = j)) as [<-|Hn].
    + rewrite lookup_insert_eq. by intros [= <-].
    + rewrite lookup_insert_ne by done. apply W4.
Qed.

Lemma counted_cnt h a b : (forall l, cnt l a = cnt l b) -> counted h a -> counted h b.
Proof. intros H C l. specialize (C l). by rewrite H in C. Qed.

Lemma watch_entry_spec s d k :
  (d < length (dbs s))%nat -> watch_entry d k s = Some (watchers (dbs s) d k, s).
Proof.
  intros [t Ht]%lookup_lt_is_Some. unfold watch_entry, watchers, ask, lift, mbind, M_bind, mret, M_ret. cbn. by rewrite Ht.
Qed.

Definition tabled (s : server) ds : server := Server (heap s) (clients s) ds (kept s) (also_propagate s) (the_rest s).
Lemma set_entry_run s d k v (f : unit -> M unit) :
  (set_watch_entry d k v ≫= f) s = f tt (tabled s (set_entry (dbs s) d k v)).
Proof. done. Qed.

Lemma rel_upd_id x s a i c g :
  rel x s a -> clients s !! i = Some c -> g (abs_client (heap s) x i c) = abs_client (heap s) x i c -> rel x s (a_upd i g a).
Proof.
  intros [R1 R2 R3] Hc Hg. split; try done. intros j. cbn. destruct (decide (i = j)) as [<-|Hn].
  - rewrite lookup_alter_eq, R3, Hc. cbn. by rewrite Hg.
  - by rewrite lookup_alter_ne.
Qed.

Lemma wf_live x t s i c l : wf x t s -> clients s !! i = Some c -> l ∈ client_refs x i c -> l ∈ refs x s ++ t.
Proof. intros W Hc Hl. apply elem_of_app. left. by eapply client_refs_sub. Qed.

(** The keys of a client are keys of databases that exist. *)
Lemma watched_db x t s i c wk :
  wf x t s -> clients s !! i = Some c -> wk ∈ watched_keys c ->
  (wk_db wk < length (dbs s))%nat /\
  exists o ws, watchers (dbs s) (wk_db wk) (txt (heap s) (wk_key wk)) = Some (o, ws) /\ i ∈ ws.
Proof.
  intros W Hc Hwk.
  destruct (wo_client _ _ _ (wf_watch _ _ _ W) i c (wk_db wk) (txt (heap s) (wk_key wk)) Hc) as (o & ws & Hw & Hi).
  { by apply (list_elem_of_fmap_2 (wkey (heap s))) in Hwk. }
  split; [|eauto]. unfold watchers in Hw. destruct (dbs s !! wk_db wk) eqn:E1; [|done]. by apply lookup_lt_Some in E1.
Qed.

(** What a step that changes the client [i] keeps of it. *)
Definition keeps (s : server) (i : nat) (c : client) (s' : server) (c' : client) : Prop :=
  clients s' !! i = Some c' /\ argv c' = argv c /\ agree (heap s) (heap s') (argv c).

Lemma keeps_trans s i c s' c' s'' c'' : keeps s i c s' c' -> keeps s' i c' s'' c'' -> keeps s i c s'' c''.
Proof.
  intros (H1 & H2 & H3) (H4 & H5 & H6). split; [done|]. split; [congruence|].
  rewrite H2 in H6. by eapply agree_trans.
Qed.

(** The state after the key was added to the table and to the client. *)
Lemma watch_end x t s a i c key o ws h :
  wf x t s -> rel x s a -> clients s !! i = Some c -> key ∈ argv c ->
  let d := db c in let k := txt (heap s) key in
  let c' := with_watched c (watched_keys c ++ [WatchedKey key d]) in
  let ds := set_entry (dbs s) d k (Some (o, ws ++ [i])) in
  (~ (d, k) ∈ map (wkey (heap s)) (watched_keys c)) ->
  watchers (dbs s) d k = Some (o, ws) \/ watchers (dbs s) d k = None /\ ws = [] /\ o = key ->
  counted h (client_refs x i c' ++ clients_refs x (delete i (clients s)) ++ table_refs ds ++ kept s ++ t) ->
  agree (heap s) h (refs x s) ->
  let s' := stated s h i c' ds in wf x t s' /\ rel x s' (a_watch i k a) /\ keeps s i c s' c'.
Proof.
  intros W R Hc Hkey d k c' ds Hseen Hw C' G s'.
  pose proof (wf_db _ _ _ W i c Hc) as Hd.
  assert (agree (heap s) h (client_refs x i c)) as Gc.
  { eapply agree_sub; [|exact G]. intros l. by apply client_refs_sub. }
  assert (agree (heap s) h (map wk_key (watched_keys c'))) as Gw.
  { intros l. cbn. rewrite map_app, elem_of_app. cbn. rewrite list_elem_of_singleton.
    intros [Hl| ->]; apply Gc; [by apply watched_refs|by apply argv_refs]. }
  apply and_assoc. split; [|split; [apply lookup_insert_eq|split; [done|]]].
  - eapply state_frame; try done.
    + apply length_set_entry.
    + apply agree_app. split; [done|]. apply agree_app. split.
      * eapply agree_sub; [|exact G]. intros l Hl. rewrite (refs_client x s i c Hc).
        apply elem_of_app. right. apply elem_of_app. by left.
      * destruct (table_refs_set (dbs s) d k (Some (o, ws ++ [i])) Hd) as (r & P1 & P2).
        intros l. unfold ds. rewrite P2. cbn. rewrite elem_of_cons. intros [->|Hl].
        -- destruct Hw as [Hw|(_ & _ & ->)]; [|by apply Gc, argv_refs].
           apply G, elem_of_app. right. apply elem_of_app. left. by eapply watchers_refs.
        -- apply G, elem_of_app. right. apply elem_of_app. left. rewrite P1. apply elem_of_app. by right.
    + eapply watch_ok_add; try done. apply W.
    + intros Hx. exact (wf_queue _ _ _ W i c Hc Hx).
    + unfold ds. by rewrite length_set_entry.
    + rewrite <- (abs_agree _ _ _ _ _ Gc). unfold abs_client, c'. cbn. fold d.
      rewrite (wkeys_agree (heap s) h (watched_keys c)) by (intros l Hl; by apply Gc, watched_refs).
      rewrite bool_decide_eq_false_2 by done. unfold a_with_watched. cbn. f_equal. rewrite map_app.
      rewrite (wkeys_agree (heap s) h (watched_keys c)) by (intros l Hl; by apply Gc, watched_refs).
      f_equal. cbn. unfold wkey. cbn. unfold k. rewrite (Gc key); [done|by apply argv_refs].
  - intros l Hl. by apply Gc, argv_refs.
Qed.

(** The counts after a key was added. *)
Lemma watch_counts x t s i c key o ws l :
  clients s !! i = Some c -> (db c < length (dbs s))%nat ->
  let k := txt (heap s) key in
  let c' := with_watched c (watched_keys c ++ [WatchedKey key (db c)]) in
  cnt l (client_refs x i c' ++ clients_refs x (delete i (clients s)) ++
         table_refs (set_entry (dbs s) (db c) k (Some (o, ws))) ++ kept s ++ t)
  + cnt l (entry_refs (watchers (dbs s) (db c) k)) = cnt l [key] + cnt l [o] + cnt l (refs x s ++ t).
Proof.
  intros Hc Hd k c'. destruct (table_refs_set (dbs s) (db c) k (Some (o, ws)) Hd) as (r & P1 & P2).
  pose proof (cnt_perm l _ _ (refs_client x s i c Hc)) as P0. apply (cnt_perm l) in P1, P2.
  unfold client_refs, others, c' in *. cbn in *. rewrite map_app in *. rewrite !cnt_app in *. cbn in *. lia.
Qed.

Lemma watch_spec x t s a i c key :
  wf x t s -> rel x s a -> clients s !! i = Some c -> key ∈ argv c ->
  exists s' c', watchForKey i key s = Some (tt, s') /\ quiet x t s s' /\ wf x t s' /\ rel x s' (a_watch i (txt (heap s) key) a) /\ keeps s i c s' c'.
Proof.
  intros W R Hc Hkey. set (k := txt (heap s) key). set (d := db c).
  pose proof (wf_db _ _ _ W i c Hc) as Hd. pose proof (wf_counted _ _ _ W) as C.
  assert (key ∈ refs x s ++ t) as Hlive by (eapply wf_live; [done..|by apply argv_refs]).
  unfold watchForKey. rewrite (bind_run _ _ _ _ _ (client_spec _ _ _ Hc)).
  rewrite (bind_run _ _ _ _ _ (value_spec _ _ _ C Hlive)). fold k d.
  rewrite (bind_run _ _ _ _ _ (already_spec _ _ d k (watched_keys c) C ltac:(intros wk Hwk; eapply wf_live;
    [done..|apply watched_refs; by apply list_elem_of_fmap_2]))).
  case_bool_decide as Hseen.
  - exists s, c. split; [done|]. split; [apply quiet_refl|]. split; [done|]. split; [|done]. eapply rel_upd_id; [done..|]. cbn. fold d.
    by rewrite bool_decide_eq_true_2.
  - rewrite (bind_run _ _ _ _ _ (watch_entry_spec s d k Hd)).
    set (c' := with_watched c (watched_keys c ++ [WatchedKey key d])).
    destruct (watchers (dbs s) d k) as [[o ws]|] eqn:Hw.
    + destruct (incr_spec (tabled s (set_entry (dbs s) d k (Some (o, ws ++ [i])))) _ key C Hlive) as (h & E1 & C1 & G1).
      destruct (watch_end x t s a i c key o ws h) as (W' & R' & K'); [done..|by left| | |].
      * eapply counted_cnt; [|exact C1]. intros l.
        pose proof (watch_counts x t s i c key o (ws ++ [i]) l Hc Hd) as P. cbn zeta in P. fold k d in P |- *.
        rewrite Hw in P. cbn [cnt entry_refs] in *. lia.
      * eapply agree_sub; [|exact G1]. intros l Hl. apply elem_of_cons. right. apply elem_of_app. by left.
      * eexists _, c'. split; [|split; [|done]].
        2: { eapply (quiet_client x t s _ i c c'); try done. eapply agree_sub; [|exact G1]. intros l Hl. right. apply elem_of_app. by right. }
        rewrite set_entry_run, (bind_run _ _ _ _ _ E1).
        rewrite (upd_spec _ i c) by done. done.
    + destruct (incr_spec (tabled s (set_entry (dbs s) d k (Some (key, [i])))) _ key C Hlive) as (h1 & E1 & C1 & G1).
      destruct (incr_spec (heaped (tabled s (set_entry (dbs s) d k (Some (key, [i])))) h1) _ key C1) as (h & E2 & C2 & G2); [set_solver|].
      destruct (watch_end x t s a i c key key [] h) as (W' & R' & K'); [done..|by right| | |].
      * eapply counted_cnt; [|exact C2]. intros l.
        pose proof (watch_counts x t s i c key key ([] ++ [i]) l Hc Hd) as P. cbn zeta in P. fold k d in P |- *.
        rewrite Hw in P. cbn [cnt entry_refs] in *. lia.
      * eapply agree_trans; [eapply agree_sub; [|exact G1]|eapply agree_sub; [|exact G2]]; intros l Hl;
          rewrite ?elem_of_cons, elem_of_app; tauto.
      * eexists _, c'. split; [|split; [|done]].
        2: { eapply (quiet_client x t s _ i c c'); try done. eapply agree_trans; [eapply agree_sub; [|exact G1]|eapply agree_sub; [|exact G2]]; intros l Hl;
               rewrite ?elem_of_cons, elem_of_app; tauto. }
        rewrite bind_assoc, set_entry_run, (bind_run _ _ _ _ _ E1).
        rewrite (bind_run _ _ _ _ _ E2). rewrite (upd_spec _ i c) by done. done.
Qed.

Lemma each_watch x t keys : forall s a i c,
  wf x t s -> rel x s a -> clients s !! i = Some c -> (forall l, l ∈ keys -> l ∈ argv c) ->
  exists s' c', each (watchForKey i) keys s = Some (tt, s') /\ quiet x t s s' /\ wf x t s' /\
    rel x s' (foldl (fun a k => a_watch i k a) a (map (txt (heap s)) keys)) /\ keeps s i c s' c'.
Proof.
  induction keys as [|key keys IH]; intros s a i c W R Hc Hk.
  - exists s, c. split; [done|]. split; [apply quiet_refl|done].
  - destruct (watch_spec x t s a i c key W R Hc (Hk key ltac:(set_solver))) as (s1 & c1 & E1 & T1 & W1 & R1 & K1).
    destruct K1 as (Hc1 & Ha & G).
    destruct (IH s1 _ i c1 W1 R1 Hc1) as (s2 & c2 & E2 & T2 & W2 & R2 & K2).
    { intros l Hl. rewrite Ha. set_solver. }
    exists s2, c2. cbn [each]. rewrite (bind_run _ _ _ _ _ E1). split; [done|]. split; [by eapply quiet_trans|]. split; [done|].
    split; [|by eapply keeps_trans; [|exact K2]].
    cbn. rewrite (map_agree (heap s) (heap s1)) in R2; [done|]. intros l Hl. apply G, Hk. set_solver.
Qed.

Lemma unwatch_counts x t s i c wk l o ws ws' n :
  clients s !! i = Some c -> watched_keys c = wk :: l -> (wk_db wk < length (dbs s))%nat ->
  let k := txt (heap s) (wk_key wk) in
  watchers (dbs s) (wk_db wk) k = Some (o, ws) ->
  cnt n (client_refs x i (with_watched c l) ++ clients_refs x (delete i (clients s)) ++
         table_refs (set_entry (dbs s) (wk_db wk) k (remaining o ws')) ++ kept s ++ t)
  + cnt n [wk_key wk] + cnt n [o] = cnt n (entry_refs (remaining o ws')) + cnt n (refs x s ++ t).
Proof.
  intros Hc Hl Hd k Hw. destruct (table_refs_set (dbs s) (wk_db wk) k (remaining o ws') Hd) as (r & P1 & P2).
  rewrite Hw in P1. pose proof (cnt_perm n _ _ (refs_client x s i c Hc)) as P0. apply (cnt_perm n) in P1, P2.
  unfold client_refs, others in *. cbn in *. rewrite Hl in P0. cbn in P0.
  rewrite !cnt_app in *. cbn in P0. rewrite !cnt_app in *. lia.
Qed.

Lemma agree_cnt h h' a b : (forall l, cnt l b <= cnt l a) -> agree h h' a -> agree h h' b.
Proof. intros H G. eapply agree_sub; [|exact G]. intros l Hl%cnt_pos. apply cnt_pos. specialize (H l). lia. Qed.

Lemma unwatch_spec x t s a i c wk l :
  wf x t s -> rel x s a -> clients s !! i = Some c -> watched_keys c = wk :: l ->
  exists s', unwatch_key i wk s = Some (tt, s') /\ quiet x t s s' /\ wf x t s' /\
    rel x s' (a_upd i (fun c => a_with_watched c (tail (a_watched c))) a) /\ clients s' !! i = Some (with_watched c l).
Proof.
  intros W R Hc Hl. pose proof (wf_counted _ _ _ W) as C.
  destruct (watched_db x t s i c wk W Hc) as (Hd & o & ws & Hw & Hi); [rewrite Hl; by left|].
  set (k := txt (heap s) (wk_key wk)) in *.
  destruct (wo_table _ _ _ (wf_watch _ _ _ W) _ _ _ _ Hw) as (Ho & _ & Hnd).
  destruct (remove_first_spec i ws Hi Hnd) as (ws' & Er & Hnd' & Hin).
  unfold unwatch_key. rewrite (bind_run _ _ _ _ _ (value_spec _ _ (wk_key wk) C
    ltac:(eapply wf_live; [done..|apply watched_refs; rewrite Hl; by left]))). fold k.
  rewrite (bind_run _ _ _ _ _ (watch_entry_spec s _ k Hd)), Hw, (lift_run _ _ _ _ Er).
  set (ds := set_entry (dbs s) (wk_db wk) k (remaining o ws')).
  set (c' := with_watched c l).
  set (F := client_refs x i c' ++ clients_refs x (delete i (clients s)) ++ table_refs ds ++ kept s ++ t).
  pose proof (fun n => unwatch_counts x t s i c wk l o ws ws' n Hc Hl Hd Hw) as P. cbn zeta in P. fold k c' ds F in P.
  assert (exists h, (match ws' with
                     | [] => _ ← set_watch_entry (wk_db wk) k None; decrRefCount o
                     | _ => set_watch_entry (wk_db wk) k (Some (o, ws'))
                     end) s = Some (tt, heaped (tabled s ds) h) /\ counted h (wk_key wk :: F) /\
                    agree (heap s) h (wk_key wk :: F)) as (h1 & E1 & C1 & G1).
  { unfold ds. destruct ws' as [|j ws'].
    - destruct (decr_spec (tabled s (set_entry (dbs s) (wk_db wk) k None)) (wk_key wk :: F) o) as (h & E1 & C1 & G1).
      { eapply counted_cnt; [|exact C]. intros n. specialize (P n). cbn in *. lia. }
      exists h. by rewrite set_entry_run.
    - exists (heap s). split; [done|]. split; [|done].
      eapply counted_cnt; [|exact C]. intros n. specialize (P n). cbn in *. lia. }
  rewrite (bind_run _ _ _ _ _ E1).
  destruct (decr_spec (clientd (heaped (tabled s ds) h1) h1 i c') F (wk_key wk) C1) as (h2 & E2 & C2 & G2).
  exists (stated s h2 i c' ds).
  assert (agree (heap s) h2 F) as G.
  { eapply agree_trans; [|exact G2]. cbn. eapply agree_sub; [|exact G1]. intros n Hn. by right. }
  assert (agree (heap s) h2 (client_refs x i c')) as Gc by (by apply agree_app in G as [G _]).
  split; [|split; [|apply and_assoc; split; [|apply lookup_insert_eq]]].
  - rewrite (bind_run _ (fun _ => decrRefCount (wk_key wk)) _ tt (clientd (heaped (tabled s ds) h1) h1 i c')); [exact E2|].
    rewrite (upd_spec _ i c) by done. do 3 f_equal. unfold c'. by rewrite Hl.
  - eapply (quiet_client x t s _ i c c'); try done.
    eapply agree_sub; [|exact G]. intros n Hn. unfold F. rewrite !elem_of_app. tauto.
  - eapply state_frame; try done.
    + apply length_set_entry.
    + eapply agree_sub; [|exact G]. unfold F, client_refs. intros n. rewrite !elem_of_app. tauto.
    + eapply (watch_ok_del _ _ _ _ c _ _ wk l o ws); try done. apply W.
    + intros Hx. exact (wf_queue _ _ _ W i c Hc Hx).
    + unfold ds. rewrite length_set_entry. exact (wf_db _ _ _ W i c Hc).
    + rewrite (abs_agree _ _ _ _ _ Gc). unfold abs_client, a_with_watched, c'. cbn. by rewrite Hl.
Qed.

Lemma a_upd_upd i f g a : a_upd i f (a_upd i g a) = a_upd i (fun c => f (g c)) a.
Proof.
  unfold a_upd. cbn. f_equal. apply map_eq. intros j. destruct (decide (i = j)) as [<-|Hn].
  - rewrite !lookup_alter_eq. by destruct (a_clients a !! i).
  - by rewrite !lookup_alter_ne.
Qed.
Lemma a_upd_ext i f g a : (forall c, a_clients a !! i = Some c -> f c = g c) -> a_upd i f a = a_upd i g a.
Proof. intros H. unfold a_upd. f_equal. by apply alter_ext. Qed.

Lemma unwatch_all_spec x t s a i :
  wf x t s -> rel x s a -> here i a -> does x t s (unwatchAllKeys i) (a_unwatch i a).
Proof.
  intros W R H. destruct (rel_get _ _ _ _ R H) as (c & Hc & _). unfold unwatchAllKeys, does.
  rewrite (bind_run _ _ _ _ _ (client_spec _ _ _ Hc)). clear H.
  remember (watched_keys c) as l eqn:Hl. symmetry in Hl. revert s a c W R Hc Hl.
  induction l as [|wk l IH]; intros s a c W R Hc Hl.
  - exists s. split; [done|]. split; [apply quiet_refl|]. split; [done|]. eapply rel_upd_id; [done..|]. unfold abs_client. cbn. by rewrite Hl.
  - destruct (unwatch_spec x t s a i c wk l W R Hc Hl) as (s1 & E1 & G1 & W1 & R1 & Hc1).
    destruct (IH s1 _ _ W1 R1 Hc1) as (s2 & E2 & G2 & W2 & R2); [done|].
    exists s2. cbn [each]. rewrite (bind_run _ _ _ _ _ E1). split; [done|]. split; [by eapply quiet_trans|]. split; [done|].
    unfold a_unwatch in R2. by rewrite a_upd_upd in R2.
Qed.

(** *** Touching keys *)
Lemma rel_ext x s a a' :
  rel x s a -> a_rest a' = a_rest a -> a_dbs a' = a_dbs a -> (forall i, a_clients a' !! i = a_clients a !! i) -> rel x s a'.
Proof. intros [R1 R2 R3] H1 H2 H3. split; [congruence..|]. intros i. by rewrite H3. Qed.

Lemma mark_spec x t s a j :
  wf x t s -> rel x s a -> here j a -> does x t s (upd j mark_dirty) (a_upd j a_mark a).
Proof. intros W R H. by apply (does_flags x t s a j (fun f => Z.lor f REDIS_DIRTY_CAS)). Qed.

Lemma marks_spec x t ws : forall s a,
  wf x t s -> rel x s a -> (forall j, j ∈ ws -> here j a) ->
  does x t s (each (fun j => upd j mark_dirty) ws) (foldl (fun a j => a_upd j a_mark a) a ws).
Proof.
  induction ws as [|j ws IH]; intros s a W R H; [by apply does_ret|]. cbn [each foldl].
  eapply does_bind; [apply mark_spec; [done..|apply H; set_solver]|]. intros s1 W1 R1. apply IH; [done..|].
  intros j' Hj'. apply here_upd, H. set_solver.
Qed.

(** Marking the clients of a list that satisfy a test. *)
Definition mark_if (p : aclient -> bool) (a : aserver) (j : nat) : aserver :=
  if p (the_client j a) then a_upd j a_mark a else a.
Lemma mark_if_lookup p ws a :
  NoDup ws -> let a' := foldl (mark_if p) a ws in a_rest a' = a_rest a /\ a_dbs a' = a_dbs a /\
  forall j, a_clients a' !! j = (fun c => if bool_decide (j ∈ ws) && p c then a_mark c else c) <$> a_clients a !! j.
Proof.
  revert a. induction ws as [|i ws IH]; intros a Hn; cbn zeta.
  - split; [done|]. split; [done|]. intros j. cbn. rewrite bool_decide_eq_false_2 by apply not_elem_of_nil.
    by destruct (a_clients a !! j).
  - apply NoDup_cons in Hn as [Hi Hn]. cbn [foldl]. destruct (IH (mark_if p a i) Hn) as (I1 & I2 & I3).
    rewrite I1, I2. split; [unfold mark_if; by case_match|]. split; [unfold mark_if; by case_match|].
    intros j. rewrite I3. unfold mark_if, the_client. destruct (decide (i = j)) as [<-|Hj].
    + rewrite (bool_decide_eq_false_2 (i ∈ ws)), (bool_decide_eq_true_2 (i ∈ i :: ws)) by set_solver. cbn.
      destruct (a_clients a !! i) as [c|] eqn:Hc; cbn.
      * destruct (p c); cbn; [|by rewrite Hc]. by rewrite lookup_alter_eq, Hc.
      * destruct (p nobody); cbn; [|by rewrite Hc]. by rewrite lookup_alter_eq, Hc.
    + rewrite (bool_decide_ext (j ∈ i :: ws) (j ∈ ws)) by set_solver.
      destruct (p (default nobody _)); cbn; [|done]. by rewrite lookup_alter_ne.
Qed.

Lemma existsb_key d k l : existsb (hits (TouchKey d k)) l = bool_decide ((d, k) ∈ l).
Proof.
  induction l as [|w l IH]; cbn.
  - by rewrite bool_decide_eq_false_2 by apply not_elem_of_nil.
  - rewrite IH, <- bool_decide_or. apply bool_decide_ext. rewrite elem_of_cons. naive_solver.
Qed.

Lemma touch_spec x t s a d k :
  wf x t s -> rel x s a -> (d < length (dbs s))%nat ->
  does x t s (touchWatchedKey d k) (a_touch (TouchKey d k) a).
Proof.
  intros W R Hd. unfold touchWatchedKey.
  eapply does_bind; [by apply does_rest|]. intros s1 W1 R1.
  rename a into a0. set (a := a_on_rest (r_touches (TouchKey d k)) a0) in *.
  assert (length (dbs s1) = length (dbs s)) as Hlen by (rewrite <- (rel_dbs _ _ _ R1), <- (rel_dbs _ _ _ R); done).
  assert (exists tb, dbs s1 !! d = Some tb) as [tb Htb] by (apply lookup_lt_is_Some; lia).
  eapply does_eq; [rewrite ask_bind, (lift_run _ tb _ _ Htb); reflexivity|].
  assert (forall j, a_clients (a_touch (TouchKey d k) a0) !! j =
    (fun c => if bool_decide ((d, k) ∈ a_watched c) then a_mark c else c) <$> a_clients a !! j) as Ht.
  { intros j. cbn. rewrite lookup_fmap. destruct (a_clients a0 !! j) as [ac|]; [|done]. cbn [fmap option_fmap option_map].
    by rewrite existsb_key. }
  assert (watchers (dbs s1) d k = tb !! k) as Hw by (unfold watchers; by rewrite Htb).
  destruct W1 as [C1 [V1 V2 V3 V4] A1 Q1 D1 N1].
  assert (forall (m : M unit), watchers (dbs s1) d k = None -> m = mret tt -> does x t s1 m (a_touch (TouchKey d k) a0)) as Hnone.
  { intros m Hn ->. apply does_ret; [by split|]. eapply rel_ext; [exact R1|done..|]. intros j. rewrite Ht.
    destruct (a_clients a !! j) as [ac|] eqn:Hj; [|done]. cbn. rewrite bool_decide_eq_false_2; [done|]. intros Hin.
    rewrite (rel_clients _ _ _ R1) in Hj. destruct (clients s1 !! j) as [c|] eqn:Hc; [|done]. injection Hj as <-. cbn in Hin.
    destruct (V1 _ _ _ _ Hc Hin) as (o & ws & E1 & _). congruence. }
  case_bool_decide as Hsz.
  { apply Hnone; [|done]. rewrite Hw. apply map_size_empty_iff in Hsz. by rewrite Hsz, lookup_empty. }
  destruct (tb !! k) as [[o ws]|] eqn:Hk; [|by apply Hnone].
  destruct (V2 _ _ _ _ Hw) as (_ & _ & Hnd).
  assert (forall j, j ∈ ws -> here j a) as Hh.
  { intros j Hj. destruct (V3 _ _ _ _ _ Hw Hj) as (c & Hc & _). by eapply rel_here. }
  destruct (marks_spec x t ws s1 a) as (s2 & E2 & G2 & W2 & R2); [by split|done..|].
  exists s2. split; [done|]. split; [done|]. split; [done|].
  destruct (mark_if_lookup (fun _ => true) ws a Hnd) as (I1 & I2 & I3).
  eapply rel_ext; [exact R2|exact (eq_sym I1)|exact (eq_sym I2)|].
  intros j. rewrite Ht. etrans; [|symmetry; apply I3].
  destruct (a_clients a !! j) as [ac|] eqn:Hj; [|done]. cbn. rewrite andb_true_r.
  rewrite (bool_decide_ext ((d, k) ∈ a_watched ac) (j ∈ ws)); [done|].
  rewrite (rel_clients _ _ _ R1) in Hj. destruct (clients s1 !! j) as [c|] eqn:Hc; [|done]. injection Hj as <-. cbn. split.
  - intros Hin. destruct (V1 _ _ _ _ Hc Hin) as (o' & ws' & E1 & Hj). rewrite Hw in E1. by simplify_eq.
  - intros Hj. destruct (V3 _ _ _ _ _ Hw Hj) as (c0 & Hc0 & Hin). by simplify_eq.
Qed.

Lemma does_run x t s m a s' : does x t s m a -> m s = Some (tt, s') -> wf x t s' /\ rel x s' a.
Proof. intros (s1 & E1 & _ & H) E2. rewrite E1 in E2. by simplify_eq. Qed.

Lemma a_mark_idem c : a_mark (a_mark c) = a_mark c.
Proof. unfold a_mark. cbn. by rewrite <- Z.lor_assoc, Z.lor_diag. Qed.

Lemma flush_client x t dbid j l : forall s a c,
  wf x t s -> rel x s a -> clients s !! j = Some c -> (forall wk, wk ∈ l -> wk ∈ watched_keys c) ->
  does x t s (touch_on_flush dbid j l)
    (if existsb (hits (TouchFlush dbid (a_env a))) (map (wkey (heap s)) l) then a_upd j a_mark a else a).
Proof.
  induction l as [|wk l IH]; intros s a c W R Hc Hl; [by apply does_ret|]. cbn [touch_on_flush map existsb].
  assert ((value (wk_key wk)) s = Some (txt (heap s) (wk_key wk), s)) as Hv.
  { eapply value_spec; [apply W|]. eapply wf_live; [done..|]. apply watched_refs. apply list_elem_of_fmap_2, Hl. by left. }
  assert (hits (TouchFlush dbid (a_env a)) (wkey (heap s) wk) =
          ((dbid =? -1) || (Z.of_nat (wk_db wk) =? dbid)) && exists_key (env (the_rest s)) (wk_db wk) (txt (heap s) (wk_key wk))) as ->.
  { unfold a_env. by rewrite (rel_rest _ _ _ R). }
  destruct ((dbid =? -1) || _); cbn [andb orb].
  - eapply does_eq; [rewrite bind_assoc, (bind_run _ _ _ _ _ Hv); reflexivity|].
    eapply does_eq; [rewrite bind_assoc, ask_bind; reflexivity|].
    destruct (exists_key _ _ _); cbn [andb orb].
    + destruct (does_run _ _ _ _ _ _ (mark_spec x t s a j W R (rel_here _ _ _ _ _ R Hc)) (upd_spec s j c mark_dirty Hc)) as (W1 & R1).
      destruct (IH _ _ (mark_dirty c) W1 R1) as (s2 & E2 & G2 & W2 & R2); [by apply lookup_insert_eq|set_solver|].
      exists s2. rewrite (bind_run _ _ _ _ _ (upd_spec s j c mark_dirty Hc)). split; [done|].
      split; [eapply quiet_trans; [|exact G2]; by eapply quiet_client|]. split; [done|].
      change (a_env (a_upd j a_mark a)) with (a_env a) in R2. cbn [heap clientd] in R2.
      destruct (existsb _ _); [|done].
      rewrite a_upd_upd in R2. erewrite a_upd_ext; [exact R2|]. intros c0 _. cbn. by rewrite a_mark_idem.
    + eapply does_eq; [rewrite ret_run; reflexivity|]. eapply IH; [done..|set_solver].
  - eapply does_eq; [rewrite ret_run; reflexivity|]. eapply IH; [done..|set_solver].
Qed.

Lemma flush_clients x t dbid js e : forall s a,
  wf x t s -> rel x s a -> (forall j, j ∈ js -> here j a) -> a_env a = e ->
  does x t s (each (fun j => c ← get_client j; touch_on_flush dbid j (watched_keys c)) js)
    (foldl (mark_if (fun c => existsb (hits (TouchFlush dbid e)) (a_watched c))) a js).
Proof.
  induction js as [|j js IH]; intros s a W R H He; [by apply does_ret|]. cbn [each foldl].
  destruct (rel_get _ _ _ j R (H j ltac:(by left))) as (c & Hc & Hac).
  eapply does_bind.
  - eapply does_eq; [rewrite (bind_run _ _ _ _ _ (client_spec _ _ _ Hc)); reflexivity|].
    eapply (flush_client x t dbid j); done.
  - rewrite He. intros s1 W1 R1.
    assert (mark_if (fun c => existsb (hits (TouchFlush dbid e)) (a_watched c)) a j =
      if existsb (hits (TouchFlush dbid e)) (map (wkey (heap s)) (watched_keys c)) then a_upd j a_mark a else a) as ->.
    { unfold mark_if. by rewrite Hac. }
    apply IH; [done..| |by case_match].
    intros j' Hj'. case_match; [apply here_upd|]; apply H; by right.
Qed.

Lemma flush_spec x t s a dbid :
  wf x t s -> rel x s a -> does x t s (touchWatchedKeysOnFlush dbid) (a_touch (TouchFlush dbid (a_env a)) a).
Proof.
  intros W R. unfold touchWatchedKeysOnFlush. eapply does_eq; [rewrite ask_bind; reflexivity|].
  assert (env (the_rest s) = a_env a) as He by (unfold a_env; by rewrite (rel_rest _ _ _ R)).
  rewrite He. eapply does_bind; [by apply does_rest|]. intros s1 W1 R1.
  set (js := map fst (map_to_list (clients s))).
  assert (forall j, j ∈ js <-> is_Some (clients s !! j)) as Hjs.
  { intros j. unfold js. split.
    - intros ([j' c] & -> & Hin%elem_of_map_to_list)%list_elem_of_fmap. cbn. eauto.
    - intros [c Hc]. apply (list_elem_of_fmap_2' fst _ (j, c)); [by apply elem_of_map_to_list|done]. }
  destruct (flush_clients x t dbid js (a_env a) s1 _ W1 R1) as (s2 & E2 & G2 & W2 & R2); [|done|].
  { intros j [c Hc]%Hjs. apply here_rest. by eapply rel_here. }
  exists s2. split; [done|]. split; [exact G2|]. split; [done|].
  edestruct (mark_if_lookup (fun c => existsb (hits (TouchFlush dbid (a_env a))) (a_watched c)) js
    (a_on_rest (r_touches (TouchFlush dbid (a_env a))) a)) as (I1 & I2 & I3); [apply NoDup_fst_map_to_list|].
  eapply rel_ext; [exact R2|by rewrite I1|by rewrite I2|].
  intros j. rewrite I3. cbn. rewrite lookup_fmap. destruct (a_clients a !! j) as [ac|] eqn:Hj; [|done]. cbn.
  rewrite bool_decide_eq_true_2; [done|]. apply Hjs. rewrite (rel_clients _ _ _ R) in Hj.
  destruct (clients s !! j); [eauto|done].
Qed.

(** *** Arguments and queues *)
Lemma client_counted x t s i c :
  wf x t s -> clients s !! i = Some c -> counted (heap s) (client_refs x i c ++ others x i s ++ t).
Proof. intros W Hc. rewrite app_assoc, <- (refs_client x s i c Hc). apply W. Qed.

(** References that a running function holds. *)
Lemma drop_refs x t s a gone :
  wf x (gone ++ t) s -> rel x s a ->
  exists h, each decrRefCount gone s = Some (tt, heaped s h) /\ agree (heap s) h t /\ wf x t (heaped s h) /\ rel x (heaped s h) a.
Proof.
  intros W R. destruct (each_decr s (refs x s ++ t) gone) as (h & E1 & C1 & G1).
  { eapply counted_cnt; [|apply W]. intros l. rewrite !cnt_app. lia. }
  exists h. split; [done|]. apply agree_app in G1 as [G1 G2]. split; [done|]. by eapply heap_frame.
Qed.
Lemma drop_ref x t s a l :
  wf x (l :: t) s -> rel x s a -> does x t s (decrRefCount l) a.
Proof.
  intros W R. destruct (drop_refs x t s a [l] W R) as (h & E1 & H). exists (heaped s h). destruct H as [G1 H]. split; [|split; [by apply quiet_same|done]].
  rewrite <- E1. cbn. unfold mbind, M_bind. by destruct (decrRefCount l s) as [[[] ?]|].
Qed.
Lemma add_ref x t s a l :
  wf x t s -> rel x s a -> l ∈ refs x s ++ t ->
  exists h, incrRefCount l s = Some (tt, heaped s h) /\ wf x (l :: t) (heaped s h) /\ rel x (heaped s h) a /\
    agree (heap s) h (refs x s ++ t).
Proof.
  intros W R Hl. destruct (incr_spec s _ l (wf_counted _ _ _ W) Hl) as (h & E1 & C1 & G1).
  exists h. split; [done|]. apply and_assoc. split.
  - eapply heap_frame; [done..| |].
    + eapply counted_cnt; [|exact C1]. intros l'. cbn. rewrite !cnt_app. cbn. lia.
    + eapply agree_sub; [|exact G1]. intros l' Hl'. right. apply elem_of_app. by left.
  - eapply agree_sub; [|exact G1]. intros l' Hl'. by right.
Qed.

Lemma args_frame x t t' s a i c h new k :
  wf x t s -> rel x s a -> clients s !! i = Some c ->
  counted h (new ++ map wk_key (watched_keys c) ++ (if decide (x = Some i) then [] else mstate c ≫= mc_argv) ++ others x i s ++ t') ->
  agree (heap s) h (map wk_key (watched_keys c) ++ (if decide (x = Some i) then [] else mstate c ≫= mc_argv) ++ others x i s) ->
  let s' := clientd s h i (with_cmd (with_argv c new) k) in
  wf x t' s' /\ rel x s' (a_upd i (fun ac => a_with_args ac (map (txt h) new) k) a).
Proof.
  intros W R Hc C [G1 [G2 G3]%agree_app]%agree_app s'. eapply client_frame; try done.
  - unfold client_refs. cbn. by rewrite <- !app_assoc.
  - apply agree_app. by split.
  - intros Hx. exact (wf_queue _ _ _ W i c Hc Hx).
  - exact (wf_db _ _ _ W i c Hc).
  - unfold abs_client, a_with_args. cbn. rewrite (wkeys_agree (heap s) h) by done. f_equal.
    destruct (decide _); [done|]. apply map_ext_in. intros mc Hmc%list_elem_of_In. f_equal. symmetry. apply map_agree.
    eapply agree_sub; [|exact G2]. intros l Hl. apply elem_of_bind_list. eauto.
Qed.

Lemma free_argv_spec x t s a i :
  wf x t s -> rel x s a -> here i a -> does x t s (freeClientArgv i) (a_upd i (fun c => a_with_args c [] None) a).
Proof.
  intros W R H. destruct (rel_get _ _ _ _ R H) as (c & Hc & _).
  destruct (each_decr s (map wk_key (watched_keys c) ++ (if decide (x = Some i) then [] else mstate c ≫= mc_argv) ++
    others x i s ++ t) (argv c)) as (h & E1 & C1 & G1).
  { eapply counted_cnt; [|apply (client_counted x t s i c W Hc)]. intros l. unfold client_refs. by rewrite <- !app_assoc. }
  exists (clientd s h i (with_cmd (with_argv c []) None)). split.
  - unfold freeClientArgv. rewrite (bind_run _ _ _ _ _ (client_spec _ _ _ Hc)), (bind_run _ _ _ _ _ E1). exact (upd_spec (heaped s h) i c _ Hc).
  - rewrite !app_assoc in G1. apply agree_app in G1 as [G1 G2]. split; [by eapply quiet_client|].
    eapply (args_frame x t t s a i c h []); try done.
    by rewrite <- !app_assoc in G1.
Qed.

Lemma reset_spec x t s a i :
  wf x t s -> rel x s a -> here i a -> does x t s (resetClient i) (a_reset i a).
Proof.
  intros W R H. unfold resetClient. eapply does_bind; [by apply free_argv_spec|]. intros s1 W1 R1.
  destruct (rel_get x s1 _ i R1) as (c & Hc & _); [by apply here_upd|].
  unfold a_reset. rewrite <- (a_upd_upd i (fun c => if has (a_flags c) REDIS_MULTI then c else a_with_flags c (clear (a_flags c) REDIS_ASKING))).
  eapply (does_upd _ _ _ _ _ c); try done; destruct (has (flags c) REDIS_MULTI) eqn:Hm; try done;
    try exact (wf_db _ _ _ W1 i c Hc); unfold abs_client; cbn; by rewrite Hm.
Qed.

Lemma queue_spec x t s a i k :
  wf x t s -> rel x s a -> here i a -> x <> Some i -> a_cmd (the_client i a) = Some k -> immediate (cmd_proc k) = false ->
  does x t s (queueMultiCommand i) (a_upd i (fun c => a_with_queue c (a_queue c ++ [(a_cmd c, a_args c)])) a).
Proof.
  intros W R H Hx Hk Hp. destruct (rel_get _ _ _ _ R H) as (c & Hc & Hac). rewrite Hac in Hk. cbn in Hk.
  set (c' := with_mstate c (mstate c ++ [MultiCmd (argv c) (cmd c)])).
  destruct (each_incr (clientd s (heap s) i c') (client_refs x i c ++ others x i s ++ t) (argv c)) as (h & E1 & C1 & G1).
  { exact (client_counted x t s i c W Hc). }
  { intros l Hl. apply elem_of_app. left. by apply argv_refs. }
  exists (clientd s h i c'). cbn [heap clientd] in G1.
  assert (agree (heap s) h (client_refs x i c ++ others x i s)) as G.
  { eapply agree_sub; [|exact G1]. intros l. rewrite !elem_of_app. tauto. }
  assert (agree (heap s) h (client_refs x i c)) as Gc by (by apply agree_app in G as [G _]).
  split.
  - unfold queueMultiCommand. rewrite (bind_run _ _ _ _ _ (client_spec _ _ _ Hc)), (bind_run _ _ _ _ _ (upd_spec _ _ _ _ Hc)). done.
  - split; [eapply quiet_client; [exact Hc|done..|]; eapply agree_sub; [|exact G1]; intros l; rewrite !elem_of_app; tauto|].
    eapply client_frame; try done.
    + eapply counted_cnt; [|exact C1]. intros l. unfold client_refs. cbn. rewrite !decide_False by done.
      rewrite bind_app. cbn. rewrite !cnt_app. cbn. lia.
    + eapply agree_sub; [|exact G]. intros l. rewrite !elem_of_app. intros [Hl|Hl]; [left; by apply watched_refs|by right].
    + intros _. cbn. apply Forall_app. split; [exact (wf_queue _ _ _ W i c Hc Hx)|]. constructor; [|done]. exists k. done.
    + exact (wf_db _ _ _ W i c Hc).
    + rewrite <- (abs_agree _ _ _ _ _ Gc). unfold abs_client, a_with_queue, c'. cbn. rewrite !decide_False by done. f_equal.
      by rewrite map_app.
Qed.

Lemma free_multi_spec t s i c :
  counted (heap s) ((mstate c ≫= mc_argv) ++ t) -> clients s !! i = Some c ->
  exists h, freeClientMultiState i s = Some (tt, heaped s h) /\ counted h t /\ agree (heap s) h t.
Proof.
  intros C Hc. unfold freeClientMultiState. rewrite (bind_run _ _ _ _ _ (client_spec _ _ _ Hc)), each_concat. by apply each_decr.
Qed.


Lemma wf_frame_cnt x t t' s : (forall l, cnt l t = cnt l t') -> wf x t s -> wf x t' s.
Proof.
  intros H [C W A Q D N]. split; try done. eapply counted_cnt; [|exact C]. intros l. by rewrite !cnt_app, H.
Qed.

(** *** Discarding a transaction *)
Lemma free_queue_spec x t s a i c t0 :
  wf x t0 s -> rel x s a -> clients s !! i = Some c ->
  counted (heap s) ((mstate c ≫= mc_argv) ++ client_refs x i (with_mstate c []) ++ others x i s ++ t) ->
  exists h, (_ ← freeClientMultiState i; initClientMultiState i) s = Some (tt, clientd s h i (with_mstate c [])) /\
    agree (heap s) h t /\ wf x t (clientd s h i (with_mstate c [])) /\ rel x (clientd s h i (with_mstate c [])) (a_upd i (fun c => a_with_queue c []) a).
Proof.
  intros W R Hc C. destruct (free_multi_spec _ s i c C Hc) as (h & E1 & C1 & G1).
  exists h. split.
  - rewrite (bind_run _ _ _ _ _ E1). exact (upd_spec (heaped s h) i c _ Hc).
  - apply agree_app in G1 as [G1 [G2 G3]%agree_app]. split; [done|]. unfold client_refs in G1. cbn in G1.
    apply agree_app in G1 as [Ga [Gw _]%agree_app].
    eapply client_frame; try done.
    + apply agree_app. by split.
    + exact (wf_db _ _ _ W i c Hc).
    + unfold abs_client, a_with_queue. cbn. rewrite (wkeys_agree _ _ _ Gw), (map_agree _ _ _ Ga).
      by destruct (decide _).
Qed.

Lemma discard_tail x t s a i :
  wf x t s -> rel x s (a_upd i (fun c => a_with_queue c []) a) -> here i a ->
  does x t s (_ ← upd i (fun c => with_flags c (clear (flags c) (Z.lor (Z.lor REDIS_MULTI REDIS_DIRTY_CAS) REDIS_DIRTY_EXEC)));
              unwatchAllKeys i) (a_discard i a).
Proof.
  intros W R H. eapply does_bind.
  - eapply (does_flags x t s _ i (fun f => clear f tx_flags)); [done..|]. by apply here_upd.
  - intros s1 W1 R1.
    destruct (unwatch_all_spec x t s1 _ i W1 R1) as (s2 & E2 & G2 & W2 & R2); [by do 2 apply here_upd|].
    exists s2. split; [done|]. split; [done|]. split; [done|]. unfold a_unwatch, a_set_flags in R2. by rewrite !a_upd_upd in R2.
Qed.

Lemma discard_spec x t s a i :
  wf x t s -> rel x s a -> here i a -> x <> Some i -> does x t s (discardTransaction i) (a_discard i a).
Proof.
  intros W R H Hx. destruct (rel_get _ _ _ _ R H) as (c & Hc & _).
  destruct (free_queue_spec x t s a i c t W R Hc) as (h & E1 & G1 & W1 & R1).
  { eapply counted_cnt; [|apply (client_counted x t s i c W Hc)]. intros l. unfold client_refs. cbn.
    rewrite !decide_False by done. cbn. rewrite !cnt_app. cbn. lia. }
  unfold discardTransaction. eapply does_eq; [rewrite <- bind_assoc; reflexivity|].
  eapply does_bind; [|intros s1 W2 R2; by apply discard_tail].
  eexists. split; [exact E1|]. split; [by eapply quiet_client|done].
Qed.

Lemma list_bind_eq {A B} (f g : A -> list B) l : (forall x, x ∈ l -> f x = g x) -> l ≫= f = l ≫= g.
Proof. induction l as [|x l IH]; intros H; [done|]. cbn. by rewrite (H x), IH by set_solver. Qed.

(** The queue of the client that runs EXEC is counted apart. *)
Lemma clients_refs_exec i m : clients_refs (Some i) (delete i m) = clients_refs None (delete i m).
Proof.
  unfold clients_refs. apply list_bind_eq. intros [j c] Hj%elem_of_map_to_list. cbn.
  unfold client_refs. rewrite decide_False; [done|]. intros [= ->]. by rewrite lookup_delete_eq in Hj.
Qed.

Lemma client_refs_exec i c : client_refs (Some i) i c = argv c ++ map wk_key (watched_keys c).
Proof. unfold client_refs. rewrite decide_True by done. by rewrite app_nil_r. Qed.
Lemma client_refs_none i c : client_refs None i c = argv c ++ map wk_key (watched_keys c) ++ (mstate c ≫= mc_argv).
Proof. unfold client_refs. by rewrite decide_False. Qed.

Lemma abs_exec h i c : abs_client h (Some i) i c = a_with_queue (abs_client h None i c) [].
Proof. unfold abs_client, a_with_queue. by rewrite decide_True. Qed.
Lemma abs_exec_other h i j c : i <> j -> abs_client h (Some i) j c = abs_client h None j c.
Proof. intros H. unfold abs_client. by rewrite !decide_False by congruence. Qed.

Lemma exec_start t s a i c :
  wf None t s -> rel None s a -> clients s !! i = Some c ->
  wf (Some i) ((mstate c ≫= mc_argv) ++ t) s /\ rel (Some i) s (a_upd i (fun c => a_with_queue c []) a).
Proof.
  intros [C W A Q D N] [R1 R2 R3] Hc. split; split; try done.
  - eapply counted_cnt; [|exact C]. intros l. rewrite !cnt_app.
    rewrite (cnt_perm l _ _ (refs_client None s i c Hc)), (cnt_perm l _ _ (refs_client (Some i) s i c Hc)).
    unfold others. rewrite clients_refs_exec, client_refs_exec, client_refs_none. rewrite !cnt_app. lia.
  - intros j c0 Hc0 _. by eapply Q.
  - intros j. cbn. destruct (decide (i = j)) as [<-|Hn].
    + rewrite lookup_alter_eq, R3, Hc. cbn [fmap option_fmap option_map]. by rewrite abs_exec.
    + rewrite lookup_alter_ne, R3 by done. destruct (clients s !! j); [|done]. cbn [fmap option_fmap option_map].
      by rewrite abs_exec_other.
Qed.

Lemma exec_end t s a i c :
  wf (Some i) t s -> rel (Some i) s a -> clients s !! i = Some c -> mstate c = [] -> wf None t s /\ rel None s a.
Proof.
  intros [C W A Q D N] [R1 R2 R3] Hc Hm. split; split; try done.
  - eapply counted_cnt; [|exact C]. intros l. rewrite !cnt_app.
    rewrite (cnt_perm l _ _ (refs_client None s i c Hc)), (cnt_perm l _ _ (refs_client (Some i) s i c Hc)).
    unfold others. rewrite clients_refs_exec, client_refs_exec, client_refs_none, Hm. cbn. by rewrite app_nil_r.
  - intros j c0 Hc0 _. destruct (decide (i = j)) as [<-|Hn].
    + simplify_eq. rewrite Hm. constructor.
    + eapply Q; [done|]. congruence.
  - intros j. rewrite R3. destruct (clients s !! j) as [c0|] eqn:Hc0; [|done]. cbn [fmap option_fmap option_map]. f_equal.
    destruct (decide (i = j)) as [->|Hn]; [|by apply abs_exec_other].
    simplify_eq. rewrite abs_exec. unfold a_with_queue, abs_client. cbn. by rewrite Hm.
Qed.

Lemma discard_exec t s a i c :
  wf (Some i) ((mstate c ≫= mc_argv) ++ t) s -> rel (Some i) s a -> clients s !! i = Some c ->
  does None t s (discardTransaction i) (a_discard i a).
Proof.
  intros W R Hc. pose proof (rel_here _ _ _ _ _ R Hc) as H.
  destruct (free_queue_spec (Some i) t s a i c _ W R Hc) as (h & E1 & G1 & W1 & R1).
  { eapply counted_cnt; [|apply (client_counted _ _ s i c W Hc)]. intros l.
    rewrite !client_refs_exec. cbn. rewrite !cnt_app. lia. }
  destruct (exec_end t _ _ i _ W1 R1 (lookup_insert_eq _ _ _) eq_refl) as (W2 & R2).
  destruct (discard_tail None t _ a i W2 R2 H) as (s3 & E3 & G3 & W3 & R3).
  exists s3. split; [|split; [|done]].
  2: { apply quiet_agree in G3. split; [by eapply agree_trans|done]. }
  unfold discardTransaction. rewrite <- bind_assoc, (bind_run _ _ _ _ _ E1). exact E3.
Qed.

(** *** The end of a connection *)
Lemma free_client_spec x t s a i :
  wf x t s -> rel x s a -> here i a -> x <> Some i ->
  does x t s (freeClient i) (AServer (delete i (a_clients a)) (a_dbs a) (a_rest a)).
Proof.
  intros W R H Hx. unfold freeClient. eapply does_bind; [by apply unwatch_all_spec|]. intros s1 W1 R1.
  eapply does_bind; [apply free_argv_spec; [done..|by apply here_upd]|]. intros s2 W2 R2.
  destruct (rel_get _ _ _ i R2) as (c & Hc & Hac); [by do 2 apply here_upd|].
  assert (argv c = [] /\ watched_keys c = []) as [Ha Hw].
  { destruct H as [ac0 Hac0]. unfold the_client, a_unwatch in Hac. cbn in Hac.
    rewrite !lookup_alter_eq, Hac0 in Hac. cbn in Hac. unfold abs_client in Hac.
    injection Hac as _ _ H1 _ _ _ H2 _ _. split; by eapply map_eq_nil. }
  destruct (free_multi_spec (others x i s2 ++ t) s2 i c) as (h & E3 & C3 & G3); [|done|].
  { eapply counted_cnt; [|apply (client_counted x t s2 i c W2 Hc)]. intros l. unfold client_refs.
    rewrite Ha, Hw. by destruct (decide (x = Some i)). }
  rename s2 into s0. exists (Server h (delete i (clients s0)) (dbs s0) (kept s0) (also_propagate s0) (the_rest s0)).
  split; [by rewrite (bind_run _ _ _ _ _ E3)|]. apply agree_app in G3 as [G3 G4].
  split; [split; [done|]; intros j c0 Hj Hc0; exists c0; cbn; rewrite lookup_delete_ne by congruence; done|].
  assert (forall j c0, delete i (clients s0) !! j = Some c0 -> clients s0 !! j = Some c0 /\ agree (heap s0) h (client_refs x j c0)) as Hd.
  { intros j c0 Hj. apply lookup_delete_Some in Hj as [Hn Hj]. split; [done|]. eapply agree_sub; [|exact G3].
    intros l Hl. by eapply others_client. }
  destruct W2 as [C2 [V1 V2 V3 V4] A2 Q2 D2 N2]. destruct R2 as [S1 S2 S3]. split; split; try done.
  - cbn. eapply (watch_ok_frame (heap s0) h (delete i (clients s0)) (delete i (clients s0))); [eauto..| | |].
    + intros j c0 [_ Gj]%Hd. intros l Hl. by apply Gj, watched_refs.
    + eapply agree_sub; [|exact G3]. intros l Hl. apply elem_of_app. right. apply elem_of_app. by left.
    + split; [|done| |]; [intros j c0 d k [Hj _]%Hd; by apply V1| |intros j c0 [Hj _]%Hd; by eapply V4].
      intros d k o ws j Hj Hin. destruct (V3 _ _ _ _ _ Hj Hin) as (c0 & Hc0 & Hk). exists c0. split; [|done].
      rewrite lookup_delete_ne; [done|]. intros <-. simplify_eq. rewrite Hw in Hk. by inversion Hk.
  - cbn. intros j c0 [Hj _]%Hd. by apply Q2.
  - cbn. intros j c0 [Hj _]%Hd. by eapply D2.
  - intros j. cbn. destruct (decide (i = j)) as [<-|Hn]; [by rewrite !lookup_delete_eq|].
    rewrite !lookup_delete_ne by done. pose proof (S3 j) as Sj. cbn in Sj. rewrite !lookup_alter_ne in Sj by done. rewrite Sj.
    destruct (clients s0 !! j) as [c0|] eqn:Hc0; [|done]. cbn. f_equal. symmetry. apply abs_agree.
    eapply (Hd j). by rewrite lookup_delete_ne.
Qed.

(** *** The steps of a command *)
Lemma take_spec x t s a i c v y :
  wf x t s -> rel x s a -> clients s !! i = Some c -> arg_text (map (txt (heap s)) (argv c)) v = Some y ->
  exists l h, take_arg i v s = Some (l, heaped s h) /\ wf x (l :: t) (heaped s h) /\ rel x (heaped s h) a /\
    txt h l = y /\ agree (heap s) h (refs x s ++ t).
Proof.
  intros W R Hc Hv. destruct v as [j|z]; cbn in Hv.
  - change (map (txt (heap s)) (argv c)) with (txt (heap s) <$> argv c) in Hv. rewrite list_lookup_fmap in Hv.
    destruct (argv c !! j) as [l|] eqn:Hl; [|done]. injection Hv as <-.
    assert (l ∈ refs x s ++ t) as Hin by (eapply wf_live; [done..|]; apply argv_refs; by eapply list_elem_of_lookup_2).
    destruct (add_ref x t s a l W R Hin) as (h & E1 & W1 & R1 & G1).
    exists l, h. split; [|split; [done|split; [done|split; [by apply G1|done]]]].
    cbn. rewrite (bind_run _ _ _ _ _ (client_spec _ _ _ Hc)), (lift_run _ _ _ _ Hl), (bind_run _ _ _ _ _ E1). done.
  - injection Hv as ->. destruct (create_obj_spec s _ y (wf_counted _ _ _ W)) as (l & h & E1 & C1 & G1 & Ht).
    exists l, h. split; [done|]. apply and_assoc. split; [|done]. eapply heap_frame; [done..| |].
    + eapply counted_cnt; [|exact C1]. intros n. cbn. rewrite !cnt_app. cbn. lia.
    + eapply agree_sub; [|exact G1]. intros n Hn. apply elem_of_app. by left.
Qed.

Lemma take_all_spec x args i : forall t s a c ys,
  wf x t s -> rel x s a -> clients s !! i = Some c -> mapM (arg_text (map (txt (heap s)) (argv c))) args = Some ys ->
  exists new h, collect (take_arg i) args s = Some (new, heaped s h) /\ wf x (new ++ t) (heaped s h) /\
    rel x (heaped s h) a /\ map (txt h) new = ys /\ agree (heap s) h (refs x s ++ t).
Proof.
  induction args as [|v args IH]; intros t s a c ys W R Hc Hm.
  - injection Hm as <-. exists [], (heap s). by destruct s.
  - cbn in Hm. destruct (arg_text _ v) as [y|] eqn:Hv; [|done]. cbn in Hm.
    destruct (mapM _ args) as [zs|] eqn:Hzs; [|done]. injection Hm as <-.
    destruct (take_spec x t s a i c v y W R Hc Hv) as (l & h & E1 & W1 & R1 & Ht & G1).
    destruct (IH (l :: t) (heaped s h) a c zs W1 R1 Hc) as (new & h' & E2 & W2 & R2 & Hn & G2).
    { cbn. rewrite (map_agree (heap s) h); [done|]. intros n Hn'. apply G1. eapply wf_live; [done..|by apply argv_refs]. }
    exists (l :: new), h'. cbn [collect]. rewrite (bind_run _ _ _ _ _ E1), (bind_run _ _ _ _ _ E2).
    split; [done|]. split; [|split; [done|split]].
    + eapply wf_frame_cnt; [|exact W2]. intros n. cbn. rewrite !cnt_app. cbn. lia.
    + cbn. rewrite Hn. f_equal. rewrite (G2 l); [done|]. apply elem_of_app. right. by left.
    + eapply agree_trans; [exact G1|]. eapply agree_sub; [|exact G2]. intros n. rewrite !elem_of_app, elem_of_cons. cbn. tauto.
Qed.

Lemma rewrite_vector_spec x t s a i c new name k :
  wf x (new ++ t) s -> rel x s a -> clients s !! i = Some c -> head (map (txt (heap s)) new) = Some name ->
  lookupCommandOrOriginal name = Some k ->
  does x (new ++ t) s (rewriteClientCommandVector i new)
    (a_upd i (fun c => a_with_args c (map (txt (heap s)) new) (Some k)) a).
Proof.
  intros W R Hc Hh Hk. pose proof (wf_counted _ _ _ W) as C.
  set (q := if decide (x = Some i) then [] else mstate c ≫= mc_argv).
  set (F := new ++ map wk_key (watched_keys c) ++ q ++ others x i s ++ new ++ t).
  destruct (each_incr s _ new C) as (h1 & E1 & C1 & G1); [set_solver|].
  destruct (each_decr (heaped s h1) F (argv c)) as (h2 & E2 & C2 & G2).
  { eapply counted_cnt; [|exact C1]. intros l. pose proof (cnt_perm l _ _ (refs_client x s i c Hc)) as P.
    unfold F, client_refs in *. fold q in P. rewrite !cnt_app in *. lia. }
  cbn [heap heaped] in G2.
  assert (agree (heap s) h2 F) as G.
  { eapply agree_trans; [|exact G2]. eapply agree_sub; [|exact G1]. intros l Hl. apply cnt_pos in Hl. apply cnt_pos.
    pose proof (cnt_perm l _ _ (refs_client x s i c Hc)) as P. unfold F, client_refs in *. fold q in P.
    rewrite !cnt_app in *. pose proof (cnt_nonneg l (argv c)). lia. }
  destruct new as [|n0 new0]; [done|]. cbn in Hh. injection Hh as Hh.
  assert (txt h2 n0 = name) as Hn0 by (rewrite (G n0); [done|by left]).
  destruct (args_frame x _ (n0 :: new0 ++ t) s a i c h2 (n0 :: new0) (Some k) W R Hc C2) as (W3 & R3).
  { apply agree_app in G as [_ G]. eapply agree_sub; [|exact G]. intros l. rewrite !elem_of_app. tauto. }
  exists (clientd s h2 i (with_cmd (with_argv c (n0 :: new0)) (Some k))). split; [|split; [|split; [done|]]].
  - unfold rewriteClientCommandVector. rewrite (bind_run _ _ _ _ _ E1), (bind_run _ _ _ _ _ (client_spec (heaped s h1) i c Hc)).
    rewrite (bind_run _ _ _ _ _ E2). rewrite (lift_run (head (n0 :: new0)) n0) by done.
    rewrite (bind_run _ _ _ _ _ (value_spec (heaped (heaped s h1) h2) F n0 C2 ltac:(by left))). cbn [heap heaped]. rewrite Hn0.
    rewrite (lift_run _ _ _ _ Hk). exact (upd_spec (heaped s h2) i c _ Hc).
  - eapply quiet_client; [exact Hc|done..|]. eapply agree_sub; [|exact G]. intros l Hl. unfold F. rewrite !elem_of_app. do 4 right. by apply elem_of_app.
  - rewrite (map_agree (heap s) h2) in R3; [done|]. apply agree_app in G as [G _]. exact G.
Qed.

Lemma cnt_insert n j old l (ls : list loc) :
  ls !! j = Some old -> cnt n (<[j := l]> ls) + cnt n [old] = cnt n ls + cnt n [l].
Proof.
  intros H. rewrite <- (take_drop_middle ls j old H) at 2.
  rewrite insert_take_drop by (by eapply lookup_lt_Some). rewrite !cnt_app. cbn. lia.
Qed.

Lemma rewrite_argument_spec x t s a i j c l k :
  wf x (l :: t) s -> rel x s a -> clients s !! i = Some c -> (j < length (argv c))%nat ->
  (j = 0%nat -> lookupCommandOrOriginal (txt (heap s) l) = Some k) ->
  does x (l :: t) s (rewriteClientCommandArgument i j l)
    (a_upd i (fun c => a_with_args c (<[j := txt (heap s) l]> (a_args c)) (match j with O => Some k | _ => a_cmd c end)) a).
Proof.
  intros W R Hc Hj Hk. apply lookup_lt_is_Some in Hj as [old Hold].
  pose proof (wf_counted _ _ _ W) as C.
  set (q := if decide (x = Some i) then [] else mstate c ≫= mc_argv).
  set (new := <[j := l]> (argv c)). set (c1 := with_argv c new).
  set (F := new ++ map wk_key (watched_keys c) ++ q ++ others x i s ++ l :: t).
  destruct (incr_spec (clientd s (heap s) i c1) _ l C) as (h1 & E1 & C1 & G1); [set_solver|].
  assert (forall n, cnt n (old :: F) = cnt n (l :: refs x s ++ l :: t)) as HF.
  { intros n. pose proof (cnt_perm n _ _ (refs_client x s i c Hc)) as P. pose proof (cnt_insert n j old l _ Hold) as P'.
    unfold F, client_refs in *. fold q in P. fold new in P'. cbn in *. rewrite !cnt_app in *. cbn in *. lia. }
  destruct (decr_spec (heaped (clientd s (heap s) i c1) h1) F old) as (h2 & E2 & C2 & G2).
  { eapply counted_cnt; [|exact C1]. intros n. by rewrite HF. }
  cbn [heap heaped clientd] in G1, G2.
  assert (agree (heap s) h2 F) as G.
  { eapply agree_trans; [|exact G2]. eapply agree_cnt; [|exact G1]. intros n. rewrite <- HF. cbn. case_bool_decide; lia. }
  assert (l ∈ F) as HlF by (unfold F; set_solver).
  set (k' := match j with O => Some k | _ => cmd c end).
  destruct (args_frame x _ (l :: t) s a i c h2 new k' W R Hc C2) as (W3 & R3).
  { apply agree_app in G as [_ G]. eapply agree_sub; [|exact G]. intros n. rewrite !elem_of_app. tauto. }
  assert (rel x (clientd s h2 i (with_cmd (with_argv c new) k'))
    (a_upd i (fun c0 => a_with_args c0 (<[j := txt (heap s) l]> (a_args c0)) (match j with O => Some k | _ => a_cmd c0 end)) a)) as R4.
  { erewrite a_upd_ext; [exact R3|]. intros ac Hac. rewrite (rel_clients _ _ _ R), Hc in Hac. injection Hac as <-.
    unfold a_with_args. cbn. f_equal.
    rewrite (map_agree (heap s) h2) by (apply agree_app in G as [G _]; exact G).
    unfold new. symmetry. exact (list_fmap_insert (txt (heap s)) (argv c) j l). }
  eexists. split; [|split; [|split; [exact W3|exact R4]]].
  2: { eapply quiet_client; [exact Hc|done..|]. eapply agree_sub; [|exact G]. intros n Hn. unfold F. rewrite !elem_of_app. by do 4 right. }
  unfold rewriteClientCommandArgument. rewrite (bind_run _ _ _ _ _ (client_spec _ _ _ Hc)), (lift_run _ _ _ _ Hold).
  rewrite (bind_run _ _ _ _ _ (upd_spec s i c (fun c => with_argv c (<[j := l]> (argv c))) Hc)).
  rewrite (bind_run _ _ _ _ _ E1), (bind_run _ _ _ _ _ E2). unfold k'. destruct j as [|j]; [|by destruct c].
  rewrite (bind_run _ _ _ _ _ (value_spec (heaped (heaped (clientd s (heap s) i c1) h1) h2) F l C2 HlF)). cbn [heap heaped].
  rewrite (G l HlF), (lift_run _ _ _ _ (Hk eq_refl)).
  rewrite (upd_spec _ i c1 (fun c => with_cmd c (Some k))) by apply lookup_insert_eq.
  unfold clientd, heaped. cbn. by rewrite insert_insert_eq.
Qed.

Lemma argv_values x t s i c :
  wf x t s -> clients s !! i = Some c -> values (argv c) s = Some (map (txt (heap s)) (argv c), s).
Proof.
  intros W Hc. eapply values_spec; [apply W|]. intros l Hl. eapply wf_live; [done..|by apply argv_refs].
Qed.

Definition kepts (s : server) ks : server := Server (heap s) (clients s) (dbs s) ks (also_propagate s) (the_rest s).
Lemma kept_frame x t t' s a ks :
  (forall n, cnt n (kept s) + cnt n t = cnt n ks + cnt n t') -> wf x t s -> rel x s a ->
  wf x t' (kepts s ks) /\ rel x (kepts s ks) a.
Proof.
  intros H [C W A Q D N] [R1 R2 R3]. split; split; try done. eapply counted_cnt; [|exact C].
  intros n. specialize (H n). unfold refs. cbn [clients dbs kept kepts]. rewrite !cnt_app. lia.
Qed.

Lemma does_select x t s a i id :
  wf x t s -> rel x s a -> here i a ->
  does x t s (_ ← selectDb i id; mret tt)
    (if (id <? 0) || (Z.of_nat (a_dbs a) <=? id) then a else a_upd i (fun c => a_with_db c (Z.to_nat id)) a).
Proof.
  intros W R H. unfold selectDb. eapply does_eq; [rewrite bind_assoc, ask_bind; reflexivity|].
  rewrite <- (rel_dbs _ _ _ R). destruct ((id <? 0) || _) eqn:Hid; [by apply does_ret|].
  destruct (rel_get _ _ _ _ R H) as (c & Hc & _). eapply does_eq; [rewrite bind_assoc; reflexivity|].
  eapply does_bind; [|intros s1 W1 R1; by apply does_ret].
  eapply (does_upd _ _ _ _ _ c); try done. rewrite <- (rel_dbs _ _ _ R). cbn.
  apply orb_false_elim in Hid as [?%Z.ltb_ge ?%Z.leb_gt]. lia.
Qed.

Lemma does_force x t s a i fl :
  wf x t s -> rel x s a -> here i a -> does x t s (forceCommandPropagation i fl) (a_force i fl a).
Proof.
  intros W R H. destruct (rel_get _ _ _ _ R H) as (c & Hc & _). unfold forceCommandPropagation, a_force.
  eapply does_eq; [reflexivity|].
  destruct (has fl REDIS_PROPAGATE_REPL), (has fl REDIS_PROPAGATE_AOF).
  - eapply does_bind; [by eapply (does_flags x t s a i (fun f => Z.lor f REDIS_FORCE_REPL))|]. intros s1 W1 R1.
    destruct (does_flags x t s1 _ i (fun f => Z.lor f REDIS_FORCE_AOF) W1 R1) as (s2 & E2 & G2 & W2 & R2); [by apply here_upd|].
    exists s2. split; [done|]. split; [done|]. split; [done|]. unfold a_set_flags in *. by rewrite a_upd_upd in R2.
  - eapply does_bind; [by eapply (does_flags x t s a i (fun f => Z.lor f REDIS_FORCE_REPL))|]. intros s1 W1 R1. by apply does_ret.
  - eapply does_eq; [rewrite ret_run; reflexivity|]. by apply (does_flags x t s a i (fun f => Z.lor f REDIS_FORCE_AOF)).
  - eapply does_eq; [rewrite ret_run; reflexivity|]. apply does_ret; [done|]. eapply rel_upd_id; [done..|]. by destruct c.
Qed.

Lemma act_rewrite x t s a i args :
  wf x t s -> rel x s a -> here i a -> does x t s (do_act i (Rewrite args)) (a_act i (Rewrite args) a).
Proof.
  intros W R H. destruct (rel_get _ _ _ _ R H) as (c & Hc & Hac). cbn [do_act a_act].
  eapply does_eq; [rewrite (bind_run _ _ _ _ _ (client_spec _ _ _ Hc)), (bind_run _ _ _ _ _ (argv_values _ _ _ _ _ W Hc)); reflexivity|].
  rewrite Hac. cbn [a_args abs_client]. destruct (mapM _ args) as [[|name vs]|] eqn:Hm; [by apply does_ret| |by apply does_ret].
  destruct (lookupCommandOrOriginal name) as [k|] eqn:Hk; [|by apply does_ret].
  destruct (take_all_spec x args i t s a c _ W R Hc Hm) as (new & h & E1 & W1 & R1 & Hn & G1).
  destruct (rewrite_vector_spec x t (heaped s h) a i c new name k W1 R1 Hc) as (s2 & E2 & G2 & W2 & R2); [|done|].
  { cbn. by rewrite Hn. }
  cbn [heap heaped] in R2. rewrite Hn in R2.
  destruct (drop_refs x t s2 _ new W2 R2) as (h3 & E3 & G3 & W3 & R3).
  eexists. split; [|split; [|done]].
  2: { apply agree_app in G1 as [_ G1]. eapply quiet_trans; [by eapply (quiet_same x t s (heaped s h))|].
       eapply quiet_trans; [eapply quiet_sub; [|exact G2]|by apply quiet_same]. intros n Hin. apply elem_of_app. by right. }
  by rewrite (bind_run _ _ _ _ _ E1), (bind_run _ _ _ _ _ E2).
Qed.

Lemma act_rewrite_argument x t s a i j v :
  wf x t s -> rel x s a -> here i a -> does x t s (do_act i (RewriteArgument j v)) (a_act i (RewriteArgument j v) a).
Proof.
  intros W R H. destruct (rel_get _ _ _ _ R H) as (c & Hc & Hac). cbn [do_act a_act].
  eapply does_eq; [rewrite (bind_run _ _ _ _ _ (client_spec _ _ _ Hc)), (bind_run _ _ _ _ _ (argv_values _ _ _ _ _ W Hc)); reflexivity|].
  rewrite Hac. cbn [a_args abs_client]. destruct (arg_text _ v) as [y|] eqn:Hv; [|by apply does_ret].
  case_bool_decide as Hj; cbn [andb].
  - assert (forall k, (j = 0%nat -> lookupCommandOrOriginal y = Some k) ->
      does x t s (l ← take_arg i v; _ ← rewriteClientCommandArgument i j l; decrRefCount l)
        (a_upd i (fun c => a_with_args c (<[j := y]> (a_args c)) (match j with O => Some k | _ => a_cmd c end)) a)) as Hgo.
    { intros k Hk. destruct (take_spec x t s a i c v y W R Hc Hv) as (l & h & E1 & W1 & R1 & Ht & G1).
      destruct (rewrite_argument_spec x t (heaped s h) a i j c l k W1 R1 Hc Hj) as (s2 & E2 & G2 & W2 & R2).
      { cbn. by rewrite Ht. }
      cbn [heap heaped] in R2. rewrite Ht in R2.
      destruct (drop_ref x t s2 _ l W2 R2) as (s3 & E3 & G3 & H3). exists s3. split; [|split; [|done]].
      2: { apply agree_app in G1 as [_ G1]. eapply quiet_trans; [by eapply (quiet_same x t s (heaped s h))|].
           eapply quiet_trans; [|exact G3]. eapply quiet_sub; [|exact G2]. intros n Hn. by right. }
     
      by rewrite (bind_run _ _ _ _ _ E1), (bind_run _ _ _ _ _ E2). }
    destruct j as [|j]; cbn [orb].
    + rewrite (bool_decide_eq_false_2 (0 <> 0)%nat) by lia. cbn [orb].
      destruct (lookupCommandOrOriginal y) as [k|]; [|by apply does_ret].
      destruct (argv c) as [|l0 ls]; [cbn in Hj; lia|]. cbn [map]. by apply Hgo.
    + rewrite bool_decide_eq_true_2 by done. cbn [orb]. apply (Hgo (Cmd [] execCommand_ 0 0)). done.
  - apply does_ret; [done|]. destruct j as [|j].
    + destruct (argv c); [|cbn in Hj; lia]. cbn. by destruct (lookupCommandOrOriginal y).
    + eapply rel_upd_id; [done..|]. unfold a_with_args. cbn. rewrite list_insert_ge; [done|].
      rewrite length_map. lia.
Qed.

Lemma act_keep x t s a i j : wf x t s -> rel x s a -> here i a -> does x t s (do_act i (Keep j)) a.
Proof.
  intros W R H. destruct (rel_get _ _ _ _ R H) as (c & Hc & Hac). cbn [do_act].
  eapply does_eq; [rewrite (bind_run _ _ _ _ _ (client_spec _ _ _ Hc)); reflexivity|].
  destruct (argv c !! j) as [l|] eqn:Hl; [|by apply does_ret].
  destruct (add_ref x t s a l W R) as (h & E1 & W1 & R1 & G1).
  { eapply wf_live; [done..|]. apply argv_refs. by eapply list_elem_of_lookup_2. }
  exists (kepts (heaped s h) (l :: kept s)). split; [by rewrite (bind_run _ _ _ _ _ E1)|].
  split; [apply agree_app in G1 as [_ G1]; by apply quiet_same|]. eapply (kept_frame x (l :: t)); [|done..]. intros n. cbn. lia.
Qed.

Lemma act_drop x t s a i j : wf x t s -> rel x s a -> does x t s (do_act i (Drop j)) a.
Proof.
  intros W R. cbn [do_act]. eapply does_eq; [rewrite ask_bind; reflexivity|].
  destruct (kept s !! j) as [l|] eqn:Hl; [|by apply does_ret].
  destruct (kept_frame x t (l :: t) s a (delete j (kept s))) as (W1 & R1); [|done..|].
  { intros n. apply delete_Permutation, (cnt_perm n) in Hl. cbn in *. lia. }
  destruct (drop_ref x t _ a l W1 R1) as (s2 & E2 & H2). by exists s2.
Qed.

Lemma act_spec x t s a i v :
  wf x t s -> rel x s a -> here i a -> (forall j, x = Some j -> j = i) -> does x t s (do_act i v) (a_act i v a).
Proof.
  intros W R H Hx. destruct (rel_get _ _ _ _ R H) as (c & Hc & Hac).
  destruct v as [e|j r|d k|dbid|n|id|m on|fl|b|args|j v|j|j|k dbid args fl|j].
  - by apply does_rest.
  - cbn [do_act a_act]. eapply does_eq; [rewrite ask_bind; reflexivity|].
    destruct (clients s !! j) as [c0|] eqn:Hc0; [apply does_reply; [done..|by eapply rel_here]|].
    apply does_ret; [done|]. eapply rel_ext; [exact R|done..|]. intros j'. cbn. destruct (decide (j = j')) as [<-|Hn].
    + by rewrite lookup_alter_eq, (rel_clients _ _ _ R), Hc0.
    + by rewrite lookup_alter_ne.
  - cbn [do_act a_act]. eapply does_eq; [rewrite ask_bind; reflexivity|]. rewrite <- (rel_dbs _ _ _ R).
    case_bool_decide as Hd; [|by apply does_ret]. apply touch_spec; [done..|]. by rewrite <- (rel_dbs _ _ _ R).
  - by apply flush_spec.
  - by apply does_rest.
  - by apply does_select.
  - by apply (does_flags x t s a i (set_flag m on)).
  - by apply does_force.
  - eapply (does_upd _ _ _ _ _ c); try done. exact (wf_db _ _ _ W i c Hc).
  - by apply act_rewrite.
  - by apply act_rewrite_argument.
  - by apply act_keep.
  - by apply act_drop.
  - by apply does_rest.
  - cbn [do_act a_act]. eapply does_eq; [rewrite ask_bind; reflexivity|]. case_bool_decide as Hj; cbn [andb].
    + rewrite (bool_decide_eq_false_2 (j = i)) by done. case_bool_decide as Hs.
      * destruct Hs as [c0 Hc0]. apply free_client_spec; [done..|by eapply rel_here|]. intros E1. by apply Hx in E1.
      * apply does_ret; [done|]. eapply rel_ext; [exact R|done..|]. intros j'. cbn. destruct (decide (j = j')) as [<-|Hn].
        -- rewrite lookup_delete_eq, (rel_clients _ _ _ R). destruct (clients s !! j); [|done]. by destruct Hs.
        -- by rewrite lookup_delete_ne.
    + rewrite bool_decide_eq_true_2 by done. by apply does_ret.
Qed.

Lemma here_act i v a : here i a -> here i (a_act i v a).
Proof.
  intros H. destruct v as [e|j r|d k|dbid|n|id|m on|fl|b|args|j v|j|j|k dbid args fl|j]; cbn [a_act]; try done;
    try (by apply here_upd).
  - case_match; [|done]. unfold here. cbn. by rewrite lookup_fmap, fmap_is_Some.
  - unfold here. cbn. by rewrite lookup_fmap, fmap_is_Some.
  - case_match; [done|by apply here_upd].
  - repeat case_match; try done; by apply here_upd.
  - repeat case_match; try done; by apply here_upd.
  - case_bool_decide; [done|]. unfold here. cbn. by rewrite lookup_delete_ne.
Qed.

Lemma here_acts i vs a : here i a -> here i (a_acts i vs a).
Proof. revert a. induction vs as [|v vs IH]; intros a H; [done|]. cbn. by apply IH, here_act. Qed.

Lemma acts_spec x t i vs : forall s a,
  wf x t s -> rel x s a -> here i a -> (forall j, x = Some j -> j = i) -> does x t s (each (do_act i) vs) (a_acts i vs a).
Proof.
  induction vs as [|v vs IH]; intros s a W R H Hx; [by apply does_ret|]. cbn.
  eapply does_bind; [by apply act_spec|]. intros s1 W1 R1. apply IH; [done..|by apply here_act|done].
Qed.

(** *** Running a command *)
Definition rested (s : server) (f : rest -> rest) : server :=
  Server (heap s) (clients s) (dbs s) (kept s) (also_propagate s) (f (the_rest s)).
Lemma rest_frame x t s a f : wf x t s -> rel x s a -> wf x t (rested s f) /\ rel x (rested s f) (a_on_rest f a).
Proof. intros W R. by apply (does_run _ _ _ _ _ _ (does_rest x t s a f W R)). Qed.

(** A client that runs a command. *)
Definition busy (i : nat) (a : aserver) : Prop := exists c k, a_clients a !! i = Some c /\ a_cmd c = Some k.

Lemma busy_here i a : busy i a -> here i a.
Proof. intros (c & k & H & _). by exists c. Qed.
Lemma busy_upd i j f a : (forall c, is_Some (a_cmd c) -> is_Some (a_cmd (f c))) -> busy i a -> busy i (a_upd j f a).
Proof.
  intros Hf (c & k & Hc & Hk). unfold busy. cbn. destruct (decide (i = j)) as [<-|Hn].
  - rewrite lookup_alter_eq, Hc. destruct (Hf c) as [k' Hk']; [by rewrite Hk|]. exists (f c), k'. done.
  - rewrite lookup_alter_ne by done. eauto.
Qed.
Lemma busy_touch i y a : busy i a -> busy i (a_touch y a).
Proof.
  intros (c & k & Hc & Hk). unfold busy. cbn. rewrite lookup_fmap, Hc. cbn. do 2 eexists. split; [done|]. by case_match.
Qed.
Lemma busy_act i v a : busy i a -> busy i (a_act i v a).
Proof.
  intros H. destruct v as [e|j r|d k|dbid|n|id|m on|fl|b|args|j v|j|j|k dbid args fl|j]; cbn [a_act]; try done;
    try (by apply busy_upd); try (by apply busy_touch).
  - case_match; [by apply busy_touch|done].
  - case_match; [done|by apply busy_upd].
  - repeat case_match; try done; by apply busy_upd.
  - repeat case_match; try done; by apply busy_upd.
  - case_bool_decide; [done|]. destruct H as (c & k & Hc & Hk). exists c, k. split; [|done]. cbn. by rewrite lookup_delete_ne.
Qed.
Lemma busy_acts i vs a : busy i a -> busy i (a_acts i vs a).
Proof. revert a. induction vs as [|v vs IH]; intros a H; [done|]. cbn. by apply IH, busy_act. Qed.

Lemma now_spec x t s a :
  wf x t s -> rel x s a ->
  exists s', now s = Some ((a_now a).1, s') /\ quiet x t s s' /\ wf x t s' /\ rel x s' (a_now a).2.
Proof.
  intros W R. unfold now, a_now, a_env. rewrite (rel_rest _ _ _ R). rewrite ask_bind.
  destruct (ustime (env (the_rest s))) as [n e]. exists (rested s (r_env (fun _ => e))). split; [done|]. split; [by apply quiet_same|].
  by apply rest_frame.
Qed.

Lemma rest_if (s : server) (b : bool) (f : rest -> rest) : (if b then on_rest f else mret tt) s = Some (tt, rested s (if b then f else fun r => r)).
Proof. destruct b; [done|]. by destruct s. Qed.
Lemma a_rest_if (b : bool) (f : rest -> rest) (a : aserver) : (if b then a_on_rest f a else a) = a_on_rest (if b then f else fun r => r) a.
Proof. destruct b; [done|]. by destruct a. Qed.

Lemma does_alter x t s a j f g :
  wf x t s -> rel x s a ->
  (forall c, argv (f c) = argv c /\ watched_keys (f c) = watched_keys c /\ mstate (f c) = mstate c /\ db (f c) = db c) ->
  (forall h c, g (abs_client h x j c) = abs_client h x j (f c)) ->
  does x t s (set_clients (alter f j (clients s))) (a_upd j g a).
Proof.
  intros W R Hf Hg. destruct (clients s !! j) as [c|] eqn:Hc.
  - destruct (Hf c) as (H1 & H2 & H3 & H4).
    eapply does_eq; [|eapply (does_upd x t s a j c f g W R Hc H1 H2 H3)]; [| |apply Hg].
    + rewrite (upd_spec s j c) by done. unfold set_clients, clientd. by rewrite (alter_insert_some _ _ _ _ Hc).
    + rewrite H4. by eapply (wf_db _ _ _ W).
  - exists s. split; [|split; [apply quiet_refl|split; [done|]]].
    + unfold set_clients. rewrite alter_id by (intros c Hc'; congruence). by destruct s.
    + eapply rel_ext; [exact R|done..|]. intros i. cbn. destruct (decide (j = i)) as [<-|Hn].
      * by rewrite lookup_alter_eq, (rel_clients _ _ _ R), Hc.
      * by rewrite lookup_alter_ne.
Qed.

Lemma rested_rested s f g : rested (rested s f) g = rested s (fun r => g (f r)).
Proof. done. Qed.

(** The part that logs, counts and propagates only reads the client. *)
Lemma log_spec x t s a i c k fl dirty duration :
  wf x t s -> rel x s a -> clients s !! i = Some c -> cmd c = Some k ->
  let ac := abs_client (heap s) x i c in
  does x t s
    (args ← values (argv c);
     _ ← (if has fl REDIS_CALL_SLOWLOG && negb (bool_decide (cmd_proc k = execCommand_))
          then on_rest (log_slow k args duration) else mret tt);
     _ ← (if has fl REDIS_CALL_STATS then on_rest (count_call k duration) else mret tt);
     if has fl REDIS_CALL_PROPAGATE && negb (propagate_flags (flags c) dirty =? REDIS_PROPAGATE_NONE)
     then propagate (cmd c) (db c) (argv c) (propagate_flags (flags c) dirty) else mret tt)
    (let a := if has fl REDIS_CALL_SLOWLOG && negb (bool_decide (cmd_proc k = execCommand_))
              then a_on_rest (log_slow k (a_args ac) duration) a else a in
     let a := if has fl REDIS_CALL_STATS then a_on_rest (count_call k duration) a else a in
     if has fl REDIS_CALL_PROPAGATE && negb (propagate_flags (a_flags ac) dirty =? REDIS_PROPAGATE_NONE)
     then a_on_rest (feed (a_cmd ac) (a_db ac) (a_args ac) (propagate_flags (a_flags ac) dirty)) a else a).
Proof.
  intros W R Hc Hk ac. cbn zeta. rewrite !a_rest_if.
  set (f1 := if _ && _ then log_slow _ _ _ else _). set (f2 := if has fl REDIS_CALL_STATS then count_call k duration else _).
  set (f3 := if _ && _ then feed _ _ _ _ else _).
  exists (rested (rested (rested s f1) f2) f3). split; [|split; [by apply quiet_same|]].
  2: { destruct (rest_frame _ _ _ _ f1 W R) as [W1 R1]. destruct (rest_frame _ _ _ _ f2 W1 R1) as [W2 R2]. by apply rest_frame. }
  rewrite (bind_run _ _ _ _ _ (argv_values _ _ _ _ _ W Hc)), (bind_run _ _ _ _ _ (rest_if _ _ _)), (bind_run _ _ _ _ _ (rest_if _ _ _)).
  unfold f3, ac. cbn [a_flags a_cmd a_db a_args abs_client]. destruct (has fl REDIS_CALL_PROPAGATE && _); [|done].
  unfold propagate. assert (values (argv c) (rested (rested s f1) f2) = Some (map (txt (heap s)) (argv c), rested (rested s f1) f2)) as Hv.
  { eapply (values_spec (rested (rested s f1) f2)); [exact (wf_counted _ _ _ W)|].
    intros l Hl. eapply wf_live; [done..|by apply argv_refs]. }
  rewrite (bind_run _ _ _ _ _ Hv). done.
Qed.

Lemma after_call_spec x t s a i fl dirty duration old :
  wf x t s -> rel x s a -> busy i a ->
  does x t s (after_call i fl dirty duration old) (a_after_call i fl dirty duration old a).
Proof.
  intros W R Hb. destruct (rel_get _ _ _ _ R (busy_here _ _ Hb)) as (c0 & Hc0 & Hac0).
  unfold after_call, a_after_call. rewrite Hac0. cbn [a_flags abs_client].
  eapply does_eq.
  { rewrite (bind_run _ _ _ _ _ (client_spec _ _ _ Hc0)), (bind_run _ _ _ _ _ (conf_spec _ _ _ R)), ask_bind. reflexivity. }
  cbv zeta. set (cf := conf (a_env a)). set (fl' := if loading cf && _ then _ else fl).
  set (a1 := if has (flags c0) REDIS_LUA_CLIENT then _ else a).
  assert (busy i a1) as Hb1.
  { unfold a1. repeat case_match; try done. apply busy_upd; [|done]. intros c. unfold a_force_caller. by repeat case_match. }
  eapply does_bind with (a1 := a1).
  { unfold a1. destruct (has (flags c0) REDIS_LUA_CLIENT); [|by apply does_ret].
    destruct (lua_caller cf) as [j|]; [|by apply does_ret]. apply does_alter; [done..| |].
    - intros c. unfold force_caller. by repeat case_match.
    - intros h c. unfold a_force_caller, force_caller, abs_client, a_with_flags. by repeat case_match. }
  clearbody a1. intros s1 W1 R1. destruct (rel_get _ _ _ _ R1 (busy_here _ _ Hb1)) as (c & Hc & Hac).
  assert (exists k, cmd c = Some k) as [k Hk].
  { destruct Hb1 as (ac & k & E1 & E2). exists k. unfold the_client in Hac. rewrite E1 in Hac. cbn in Hac. by rewrite Hac in E2. }
  eapply does_eq; [rewrite (bind_run _ _ _ _ _ (client_spec _ _ _ Hc)), (lift_run _ _ _ _ Hk); reflexivity|].
  rewrite Hac. cbn [a_cmd abs_client]. rewrite Hk. cbn [default].
  pose proof (log_spec x t s1 a1 i c k fl' dirty duration W1 R1 Hc Hk) as Hlog. cbv zeta in Hlog.
  cbn [a_args a_cmd a_flags a_db abs_client] in *. rewrite !Hk in Hlog.
  match type of Hlog with does _ _ _ _ ?A => set (a2 := A) in * end.
  assert (here i a2) as Hh by (unfold a2; repeat case_match; by apply busy_here).
  eapply does_eq with (m' := _ ← (args ← values (argv c); _ ← _; _ ← _; _); _ ← _; _).
  { rewrite !bind_assoc. apply bind_ext. intros args s'. rewrite !bind_assoc. apply bind_ext. intros _ s''.
    rewrite !bind_assoc. apply bind_ext. intros _ s3. reflexivity. }
  eapply does_bind; [exact Hlog|]. intros s2 W2 R2.
  eapply does_bind; [by apply (does_flags x t s2 a2 i (fun f => Z.lor (clear f FORCE) (Z.land old FORCE)))|].
  intros s3 W3 R3. eapply does_eq; [rewrite ask_bind, (wf_also _ _ _ W3), ret_run; reflexivity|].
  by apply does_rest.
Qed.

Lemma does_error x t s a i e : wf x t s -> rel x s a -> here i a -> does x t s (addReplyError i e) (a_reply i (Error (text e)) a).
Proof. apply does_reply. Qed.

Lemma here_reply i j r a : here i (a_reply j r a) <-> here i a.
Proof. apply here_upd. Qed.

Lemma bind_assoc_unit {A B} (m1 m2 : M unit) (m3 : M A) (k : A -> M B) s :
  ((_ ← m1; _ ← m2; m3) ≫= k) s = (_ ← m1; _ ← m2; x ← m3; k x) s.
Proof. rewrite !bind_assoc. apply bind_ext. intros _ s'. by rewrite bind_assoc. Qed.

(** The commands that do not concern transactions, and UNWATCH. *)
Definition plain (p : proc) : Prop := immediate p = false.

Lemma run_plain x t s a i p callf acallf :
  wf x t s -> rel x s a -> busy i a -> (forall j, x = Some j -> j = i) -> plain p ->
  does x t s (run_proc callf i p) (a_run_proc acallf i p a).
Proof.
  intros W R Hb Hx Hp. pose proof (busy_here _ _ Hb) as H.
  destruct (decide (p = unwatchCommand_)) as [->|Hu].
  - cbn. unfold unwatchCommand. eapply does_bind; [by apply unwatch_all_spec|]. intros s1 W1 R1.
    eapply does_bind; [apply (does_flags x t s1 _ i (fun f => clear f REDIS_DIRTY_CAS) W1 R1); by apply here_upd|].
    intros s2 W2 R2. apply does_reply; [done..|]. by do 2 apply here_upd.
  - destruct (rel_get _ _ _ _ R H) as (c & Hc & Hac).
    assert (does x t s (c ← get_client i; args ← values (argv c); s ← ask;
        each (do_act i) (command p (View i (db c) (flags c) args (authenticated c)) (env (the_rest s))))
      (a_acts i (command p (let c := the_client i a in View i (a_db c) (a_flags c) (a_args c) (a_auth c)) (a_env a)) a)) as Hd.
    { eapply does_eq.
      { rewrite (bind_run _ _ _ _ _ (client_spec _ _ _ Hc)), (bind_run _ _ _ _ _ (argv_values _ _ _ _ _ W Hc)), ask_bind. reflexivity. }
      rewrite Hac. unfold a_env. rewrite (rel_rest _ _ _ R). by apply acts_spec. }
    destruct p; try done; exact Hd.
Qed.

Lemma busy_plain i p a acallf : busy i a -> plain p -> busy i (a_run_proc acallf i p a).
Proof.
  intros Hb Hp. destruct p; try done; try (by apply busy_acts). cbn. by repeat (apply busy_upd; [done|]).
Qed.

(** Running a command, given that its function runs. *)
Definition proc_ok x t i p callf acallf : Prop := forall s a,
  wf x t s -> rel x s a -> busy i a ->
  does x t s (run_proc callf i p) (a_run_proc acallf i p a) /\ busy i (a_run_proc acallf i p a).

Lemma busy_now i a : busy i a -> busy i (a_now a).2.
Proof. intros H. unfold a_now. by destruct (ustime _). Qed.

Lemma call_with_spec x t s a i fl k callf acallf :
  wf x t s -> rel x s a -> here i a -> a_cmd (the_client i a) = Some k -> proc_ok x t i (cmd_proc k) callf acallf ->
  does x t s (call_with callf i fl) (a_call_with acallf i fl a) /\ busy i (a_call_with acallf i fl a).
Proof.
  intros W R H Hk Hp. destruct (rel_get _ _ _ _ R H) as (c & Hc & Hac). rewrite Hac in Hk. cbn in Hk.
  unfold call_with, a_call_with. rewrite Hac. cbn [a_cmd a_args a_db a_flags abs_client]. rewrite Hk.
  change (default (Cmd [] execCommand_ 0 0) (Some k)) with k.
  assert (busy i a) as Hb.
  { destruct H as [ac Hac']. exists ac, k. split; [done|]. unfold the_client in Hac. rewrite Hac' in Hac. cbn in Hac. by rewrite Hac. }
  rewrite a_rest_if. set (a1 := a_set_flags i _ _).
  assert (busy i a1) as Hb1 by (unfold a1; by apply busy_upd).
  cut (exists s1, (_ ← (if negb (monitors (conf (a_env a)) =? 0) && negb (loading (conf (a_env a))) && negb (has (cmd_flags k) REDIS_CMD_SKIP_MONITOR)
       then on_rest (feed_monitors i (db c) (map (txt (heap s)) (argv c))) else mret tt);
     _ ← upd i (fun c => with_flags c (clear (flags c) FORCE)); redisOpArrayInit) s = Some (tt, s1) /\ quiet x t s s1 /\ wf x t s1 /\ rel x s1 a1).
  - intros (s1 & E1 & Q1 & W1 & R1).
    destruct (now_spec x t s1 a1 W1 R1) as (s2 & E2 & Q2 & W2 & R2).
    destruct (a_now a1) as [start a2] eqn:Ea2. cbn in E2, R2.
    assert (busy i a2) as Hb2 by (pose proof (busy_now i a1 Hb1) as X; by rewrite Ea2 in X).
    destruct (Hp s2 a2 W2 R2 Hb2) as [(s3 & E3 & Q3 & W3 & R3) Hb3].
    destruct (now_spec x t s3 _ W3 R3) as (s4 & E4 & Q4 & W4 & R4).
    destruct (a_now (a_run_proc acallf i (cmd_proc k) a2)) as [fin a4] eqn:Ea4. cbn in E4, R4.
    assert (busy i a4) as Hb4 by (pose proof (busy_now i _ Hb3) as X; by rewrite Ea4 in X).
    cbv beta iota zeta. rewrite (rel_rest _ _ _ R4), (rel_rest _ _ _ R1).
    set (d := int64 _). split.
    + destruct (after_call_spec x t s4 a4 i fl (if d <? 0 then 0 else d) (int64 (fin - start)) (flags c) W4 R4 Hb4) as (s5 & E5 & Q5 & W5 & R5).
      exists s5. split; [|split; [|done]].
      * rewrite (bind_run _ _ _ _ _ (client_spec _ _ _ Hc)), (lift_run _ _ _ _ Hk), (bind_run _ _ _ _ _ (conf_spec _ _ _ R)).
        rewrite (bind_run _ _ _ _ _ (argv_values _ _ _ _ _ W Hc)). rewrite <- !bind_assoc_unit.
        rewrite (bind_run _ _ _ _ _ E1), ask_bind, (bind_run _ _ _ _ _ E2), (bind_run _ _ _ _ _ E3), (bind_run _ _ _ _ _ E4), ask_bind.
        exact E5.
      * eapply quiet_trans; [exact Q1|]. eapply quiet_trans; [exact Q2|]. eapply quiet_trans; [exact Q3|]. eapply quiet_trans; [exact Q4|exact Q5].
    + unfold a_after_call. cbv zeta. apply busy_upd; [done|]. repeat case_match; try done; apply busy_upd; try done;
        intros c'; unfold a_force_caller; by repeat case_match.
  - destruct (rest_frame x t s a (if negb (monitors (conf (a_env a)) =? 0) && negb (loading (conf (a_env a))) && negb (has (cmd_flags k) REDIS_CMD_SKIP_MONITOR)
       then feed_monitors i (db c) (map (txt (heap s)) (argv c)) else fun r => r) W R) as (W1 & R1).
    destruct (does_flags x t _ _ i (fun f => clear f FORCE) W1 R1) as (s2 & E2 & Q2 & W2 & R2); [done|].
    exists s2. split; [|split; [|done]].
    + rewrite (bind_run _ _ _ _ _ (rest_if _ _ _)), (bind_run _ _ _ _ _ E2). unfold redisOpArrayInit, set_also.
      pose proof (wf_also _ _ _ W2) as HA. destruct s2; cbn in *. by rewrite HA.
    + eapply quiet_trans; [|exact Q2]. by apply quiet_same.
Qed.

(** *** EXEC *)
Lemma a_upd_id i a : a_upd i (fun c => c) a = a.
Proof. unfold a_upd. rewrite alter_id by done. by destruct a. Qed.

Definition qrefs (ms : list multiCmd) : list loc := ms ≫= mc_argv.
Definition abs_queue (h : gmap loc obj) (ms : list multiCmd) : list (option redisCommand * list (list Z)) :=
  map (fun mc => (mc_cmd mc, map (txt h) (mc_argv mc))) ms.
Definition strip (i : nat) : aserver -> aserver := a_upd i (fun c => a_with_args c [] None).
Definition stripped (s : server) i c : server := clientd s (heap s) i (with_cmd (with_argv c []) None).

Lemma qrefs_middle ms j mc n :
  ms !! j = Some mc -> cnt n (qrefs ms) = cnt n (mc_argv mc) + cnt n (qrefs (take j ms) ++ qrefs (drop (S j) ms)).
Proof.
  intros H. rewrite <- (take_drop_middle ms j mc H) at 1. unfold qrefs. rewrite bind_app, bind_cons, !cnt_app. lia.
Qed.

Lemma abs_queue_agree h h' ms : agree h h' (qrefs ms) -> abs_queue h' ms = abs_queue h ms.
Proof.
  intros G. apply map_ext_in. intros mc Hmc%list_elem_of_In. f_equal. apply map_agree. eapply agree_sub; [|exact G].
  intros l Hl. apply elem_of_bind_list. eauto.
Qed.

(** Between two commands of the loop the arguments of the client are those of
    the queue; the state without them is well formed. [orig] are the arguments
    of EXEC itself. *)
Record between i orig s a c : Prop := Between {
  bt_client : clients s !! i = Some c;
  bt_wf : wf (Some i) (orig ++ qrefs (mstate c)) (stripped s i c);
  bt_rel : rel (Some i) (stripped s i c) (strip i a) }.

(** The client takes the arguments [new], which were counted in [t]. *)
Lemma take_args i t t' s a c new k :
  clients s !! i = Some c -> wf (Some i) t (stripped s i c) -> rel (Some i) (stripped s i c) (strip i a) ->
  (forall n, cnt n t = cnt n new + cnt n t') ->
  let s' := clientd s (heap s) i (with_cmd (with_argv c new) k) in
  wf (Some i) t' s' /\ rel (Some i) s' (a_upd i (fun ac => a_with_args ac (map (txt (heap s)) new) k) a).
Proof.
  intros Hc W R Hn s'. set (c0 := with_cmd (with_argv c []) None).
  assert (clients (stripped s i c) !! i = Some c0) as Hc0 by apply lookup_insert_eq.
  destruct (args_frame (Some i) t t' (stripped s i c) (strip i a) i c0 (heap s) new k W R Hc0) as (W1 & R1).
  - eapply counted_cnt; [|exact (client_counted _ _ _ _ _ W Hc0)]. intros n. unfold client_refs. cbn [argv c0 with_argv with_cmd].
    rewrite !cnt_app. cbn [cnt]. specialize (Hn n). lia.
  - done.
  - unfold strip in R1. rewrite a_upd_upd in R1.
    assert (clientd (stripped s i c) (heap s) i (with_cmd (with_argv c0 new) k) = s') as Es.
    { unfold s', clientd, stripped. cbn. by rewrite insert_insert_eq. }
    rewrite Es in W1, R1. done.
Qed.

(** The client gives its arguments back. *)
Lemma give_args i t t' s a c :
  clients s !! i = Some c -> wf (Some i) t s -> rel (Some i) s a -> (forall n, cnt n t' = cnt n (argv c) + cnt n t) ->
  wf (Some i) t' (stripped s i c) /\ rel (Some i) (stripped s i c) (strip i a).
Proof.
  intros Hc W R Hn. apply (args_frame (Some i) t t' s a i c (heap s) [] None W R Hc); [|done].
  eapply counted_cnt; [|exact (client_counted _ _ _ _ _ W Hc)]. intros n. unfold client_refs.
  rewrite !cnt_app. cbn [cnt]. specialize (Hn n). lia.
Qed.

(** The queue of the client that runs EXEC may change. *)
Lemma requeue i t s a c ms :
  wf (Some i) t s -> rel (Some i) s a -> clients s !! i = Some c ->
  let s' := clientd s (heap s) i (with_mstate c ms) in wf (Some i) t s' /\ rel (Some i) s' a.
Proof.
  intros W R Hc s'. rewrite <- (a_upd_id i a).
  assert (client_refs (Some i) i (with_mstate c ms) = client_refs (Some i) i c) as Hr by by rewrite !client_refs_exec.
  eapply (client_frame (Some i) t t s a _ i c); try done.
  - rewrite Hr. exact (client_counted _ _ _ _ _ W Hc).
  - exact (wf_db _ _ _ W _ _ Hc).
  - by rewrite !abs_exec.
Qed.

Section Loop.
Context (i : nat) (callf : nat -> Z -> M unit) (acallf : nat -> Z -> aserver -> aserver).
Context (Hcall : forall t s a k, wf (Some i) t s -> rel (Some i) s a -> here i a ->
  a_cmd (the_client i a) = Some k -> plain (cmd_proc k) ->
  does (Some i) t s (callf i REDIS_CALL_FULL) (acallf i REDIS_CALL_FULL a) /\ busy i (acallf i REDIS_CALL_FULL a)).

Lemma propagate_multi_spec t s a :
  wf (Some i) t s -> rel (Some i) s a -> here i a ->
  does (Some i) t s (execCommandPropagateMulti i)
    (a_on_rest (feed server_multiCommand (a_db (the_client i a)) [text "MULTI"]
       (Z.lor REDIS_PROPAGATE_AOF REDIS_PROPAGATE_REPL)) a).
Proof.
  intros W R H. destruct (rel_get _ _ _ _ R H) as (c & Hc & Hac). rewrite Hac. cbn [a_db abs_client].
  destruct (take_spec (Some i) t s a i c (New (text "MULTI")) (text "MULTI") W R Hc eq_refl) as (l & h & E1 & W1 & R1 & Ht & G1).
  set (f := feed _ _ _ _). destruct (rest_frame _ _ _ _ f W1 R1) as (W2 & R2).
  destruct (drop_ref _ _ _ _ l W2 R2) as (s3 & E3 & Q3 & W3 & R3).
  exists s3. split; [|split; [|done]].
  - unfold execCommandPropagateMulti. rewrite (bind_run _ _ _ _ _ E1), (bind_run _ _ _ _ _ (client_spec (heaped s h) i c Hc)).
    unfold propagate. assert (values [l] (heaped s h) = Some ([text "MULTI"], heaped s h)) as Hv.
    { rewrite (values_spec (heaped s h) _ [l] (wf_counted _ _ _ W1)).
      - cbn. by rewrite Ht.
      - intros n Hn. apply list_elem_of_singleton in Hn as ->. apply elem_of_app. right. by left. }
    rewrite bind_assoc, (bind_run _ _ _ _ _ Hv). exact E3.
  - eapply quiet_trans; [|exact Q3]. apply agree_app in G1 as [_ G1]. by apply quiet_same.
Qed.

(** One command of the queue. *)
Lemma exec_one orig s a c j mc k must :
  between i orig s a c -> mstate c !! j = Some mc -> mc_cmd mc = Some k -> plain (cmd_proc k) ->
  let first := negb must && negb (has (cmd_flags k) REDIS_CMD_READONLY) in
  let a1 := a_upd i (fun c => a_with_args c (map (txt (heap s)) (mc_argv mc)) (Some k)) a in
  let a2 := if first then a_on_rest (feed server_multiCommand (a_db (the_client i a1)) [text "MULTI"]
                            (Z.lor REDIS_PROPAGATE_AOF REDIS_PROPAGATE_REPL)) a1 else a1 in
  exists s' c',
    (_ ← upd i (fun c => with_cmd (with_argv c (mc_argv mc)) (mc_cmd mc));
     must ← (if first then _ ← execCommandPropagateMulti i; mret true else mret must);
     _ ← callf i REDIS_CALL_FULL;
     _ ← upd i (fun c => with_mstate c (<[j := MultiCmd (argv c) (cmd c)]> (mstate c)));
     mret must) s = Some (must || first, s') /\
    between i orig s' (acallf i REDIS_CALL_FULL a2) c' /\ agree (heap s) (heap s') (orig ++ qrefs (drop (S j) (mstate c))) /\
    drop (S j) (mstate c') = drop (S j) (mstate c) /\ length (mstate c') = length (mstate c).
Proof.
  intros [Hc W R] Hmc Hk Hp first a1 a2. set (T := orig ++ qrefs (take j (mstate c)) ++ qrefs (drop (S j) (mstate c))).
  destruct (take_args i _ T s a c (mc_argv mc) (Some k) Hc W R) as (W1 & R1).
  { intros n. unfold T. rewrite !cnt_app, (qrefs_middle _ _ _ n Hmc), !cnt_app. lia. }
  fold a1 in R1. set (s1 := clientd _ _ _ _) in W1, R1.
  assert (a_clients a1 !! i = Some (abs_client (heap s) (Some i) i (with_cmd (with_argv c (mc_argv mc)) (Some k)))) as Ha1.
  { rewrite (rel_clients _ _ _ R1). cbn. by rewrite lookup_insert_eq. }
  assert (here i a1) as H1 by (eexists; exact Ha1).
  assert (does (Some i) T s1 (if first then execCommandPropagateMulti i else mret tt) a2) as (s2 & E2 & Q2 & W2 & R2).
  { unfold a2. destruct first; [by apply propagate_multi_spec|by apply does_ret]. }
  destruct (Hcall T s2 a2 k W2 R2) as [(s3 & E3 & Q3 & W3 & R3) Hb].
  { unfold a2. by destruct first. }
  { unfold the_client, a2. destruct first; cbn [a_clients a_on_rest]; by rewrite Ha1. }
  { done. }
  destruct (proj2 (quiet_trans _ _ _ _ _ Q2 Q3) i _ eq_refl (lookup_insert_eq _ _ _)) as (c3 & Hc3 & Hm3). cbn in Hm3.
  set (c' := with_mstate c3 (<[j := MultiCmd (argv c3) (cmd c3)]> (mstate c3))).
  assert (j < length (mstate c))%nat as Hj by (by eapply lookup_lt_Some).
  exists (clientd s3 (heap s3) i c'), c'. split; [|split; [|split; [|split]]].
  - rewrite (bind_run _ _ _ _ _ (upd_spec s i c _ Hc)). rewrite Hk. fold s1.
    assert ((if first then _ ← execCommandPropagateMulti i; mret true else mret must) s1 = Some (must || first, s2)) as E2'.
    { unfold first in *. destruct must; cbn [negb andb orb] in *.
      - injection E2 as <-. done.
      - destruct (negb (has (cmd_flags k) REDIS_CMD_READONLY)); [by rewrite (bind_run _ _ _ _ _ E2)|]. by injection E2 as <-. }
    rewrite (bind_run _ _ _ _ _ E2'), (bind_run _ _ _ _ _ E3), (bind_run _ _ _ _ _ (upd_spec s3 i c3 _ Hc3)). done.
  - destruct (requeue i T s3 _ c3 (mstate c') W3 R3 Hc3) as (W3' & R3').
    destruct (give_args i T (orig ++ qrefs (mstate c')) _ _ c' (lookup_insert_eq _ _ _) W3' R3') as (W4 & R4).
    { intros n. unfold T. cbn [mstate c' with_mstate]. rewrite Hm3. rewrite !cnt_app.
      rewrite (qrefs_middle _ j (MultiCmd (argv c3) (cmd c3)) n) by (rewrite list_lookup_insert_eq; done).
      rewrite take_insert_ge, drop_insert_lt by lia. cbn. rewrite !cnt_app. lia. }
    split; [apply lookup_insert_eq|done|done].
  - cbn [heap clientd]. eapply agree_sub; [|exact (quiet_agree _ _ _ _ (quiet_trans _ _ _ _ _ Q2 Q3))].
    intros l. unfold T. rewrite !elem_of_app. tauto.
  - cbn. rewrite Hm3. by rewrite drop_insert_lt by lia.
  - cbn. by rewrite length_insert, Hm3.
Qed.
End Loop.

Section Exec_proofs.
Context (i : nat) (callf : nat -> Z -> M unit) (acallf : nat -> Z -> aserver -> aserver).
Context (Hcall : forall t s a k, wf (Some i) t s -> rel (Some i) s a -> here i a ->
  a_cmd (the_client i a) = Some k -> plain (cmd_proc k) ->
  does (Some i) t s (callf i REDIS_CALL_FULL) (acallf i REDIS_CALL_FULL a) /\ busy i (acallf i REDIS_CALL_FULL a)).

Lemma exec_loop_spec orig n : forall j must s a c,
  between i orig s a c -> length (mstate c) = (j + n)%nat -> Forall queueable (drop j (mstate c)) ->
  exists s' c', exec_loop callf i n j must s = Some ((a_exec acallf i (abs_queue (heap s) (drop j (mstate c))) must a).1, s') /\
    between i orig s' (a_exec acallf i (abs_queue (heap s) (drop j (mstate c))) must a).2 c' /\ agree (heap s) (heap s') orig.
Proof.
  induction n as [|n IH]; intros j must s a c B Hl Hq.
  - rewrite drop_ge by lia. exists s, c. done.
  - destruct (lookup_lt_is_Some_2 (mstate c) j) as [mc Hmc]; [lia|].
    rewrite (drop_S _ mc j Hmc) in *. apply Forall_cons in Hq as [(k & Hk & Hp) Hq].
    destruct (exec_one i callf acallf Hcall orig s a c j mc k must B Hmc Hk Hp) as (s1 & c1 & E1 & B1 & G1 & Hd & Hn).
    destruct (IH (S j) (must || negb must && negb (has (cmd_flags k) REDIS_CMD_READONLY)) s1 _ c1 B1) as (s2 & c2 & E2 & B2 & G2).
    { lia. } { by rewrite Hd. }
    apply agree_app in G1 as [G1 G1'].
    rewrite Hd, (abs_queue_agree _ _ _ G1') in E2, B2.
    exists s2, c2. cbn [abs_queue map a_exec]. rewrite Hk. cbn [fmap option_fmap option_map].
    change (default 0 (Some (cmd_flags k))) with (cmd_flags k). split; [|split; [exact B2|by eapply agree_trans]].
    etrans; [|exact E2]. cbn [exec_loop]. rewrite (bind_run _ _ _ _ _ (client_spec _ _ _ (bt_client _ _ _ _ _ B))).
    rewrite (lift_run _ _ _ _ Hmc). rewrite Hk in E1. rewrite Hk. cbn [lift].
    etrans; [|exact (bind_run _ (fun must => exec_loop callf i n (S j) must) _ _ _ E1)].
    rewrite !bind_assoc. apply bind_ext. intros _ s3. rewrite (lift_run (Some k) k) by done.
    rewrite bind_assoc. apply bind_ext. intros m s4. rewrite bind_assoc. apply bind_ext. intros _ s5.
    rewrite bind_assoc. apply bind_ext. intros _ s6. done.
Qed.

Lemma monitor_spec t s a : wf None t s -> rel None s a -> here i a -> does None t s (handle_monitor i) (a_monitor i a).
Proof.
  intros W R H. destruct (rel_get _ _ _ _ R H) as (c & Hc & Hac). unfold handle_monitor, a_monitor.
  eapply does_eq; [rewrite (bind_run _ _ _ _ _ (conf_spec _ _ _ R)); reflexivity|].
  destruct (_ && _); [|by apply does_ret]. rewrite Hac.
  eapply does_eq; [rewrite (bind_run _ _ _ _ _ (client_spec _ _ _ Hc)), (bind_run _ _ _ _ _ (argv_values _ _ _ _ _ W Hc)); reflexivity|].
  by apply does_rest.
Qed.

Lemma busy_args a args k : here i a -> busy i (a_upd i (fun c => a_with_args c args (Some k)) a).
Proof. intros [c Hc]. exists (a_with_args c args (Some k)), k. split; [|done]. cbn. by rewrite lookup_alter_eq, Hc. Qed.

(** Running the queue: from the start of EXEC to the end of its loop. *)
Lemma exec_body t s a c :
  wf None t s -> rel None s a -> clients s !! i = Some c ->
  let q := a_queue (abs_client (heap s) None i c) in
  let a0 := a_upd i (fun c => a_with_queue c []) a in
  let r := a_exec acallf i q false (a_reply i (MultiBulkLen (Z.of_nat (length q))) a0) in
  exists s',
    (_ ← addReply i (MultiBulkLen (Z.of_nat (length (mstate c))));
     must_propagate ← exec_loop callf i (length (mstate c)) 0 false;
     _ ← upd i (fun c' => with_cmd (with_argv c' (argv c)) (cmd c));
     _ ← discardTransaction i; mret must_propagate) s = Some (r.1, s') /\ agree (heap s) (heap s') t /\
    here i r.2 /\ wf None t s' /\ rel None s' (a_discard i (a_upd i (fun x => a_with_args x (map (txt (heap s)) (argv c)) (cmd c)) r.2)).
Proof.
  intros W R Hc q a0 r. assert (q = abs_queue (heap s) (mstate c)) as Hq.
  { unfold q, abs_client. cbn. by rewrite decide_False. }
  destruct (exec_start t s a i c W R Hc) as (W1 & R1). fold a0 in R1.
  destruct (does_reply _ _ _ _ i (MultiBulkLen (Z.of_nat (length (mstate c)))) W1 R1 (rel_here _ _ _ _ _ R1 Hc)) as (s2 & E2 & Q2 & W2 & R2).
  assert (s2 = clientd s (heap s) i (with_out c (out c ++ [MultiBulkLen (Z.of_nat (length (mstate c)))]))) as ->.
  { unfold addReply in E2. rewrite (upd_spec s i c _ Hc) in E2. by injection E2 as <-. }
  set (c2 := with_out c _) in *. set (s2 := clientd s (heap s) i c2) in *.
  assert (clients s2 !! i = Some c2) as Hc2 by apply lookup_insert_eq.
  set (a2 := a_reply i _ a0) in R2.
  destruct (give_args i _ ((argv c ++ t) ++ qrefs (mstate c2)) s2 a2 c2 Hc2 W2 R2) as (W3 & R3).
  { intros n. cbn. unfold qrefs. rewrite !cnt_app. lia. }
  destruct (exec_loop_spec (argv c ++ t) (length (mstate c)) 0 false s2 a2 c2) as (s3 & c3 & E3 & [Hc3 W4 R4] & G3); [by split|done| |].
  { exact (wf_queue _ _ _ W i c Hc ltac:(done)). }
  change (drop 0 (mstate c2)) with (mstate c) in E3, R4. change (heap s2) with (heap s) in E3, R4, G3.
  assert (r = a_exec acallf i (abs_queue (heap s) (mstate c)) false a2) as Hr.
  { unfold r, a2. rewrite Hq. unfold abs_queue. by rewrite length_map. }
  rewrite <- Hr in E3, R4.
  destruct (take_args i _ (qrefs (mstate c3) ++ t) s3 _ c3 (argv c) (cmd c) Hc3 W4 R4) as (W5 & R5).
  { intros n. rewrite !cnt_app. lia. }
  destruct (discard_exec t _ _ i (with_cmd (with_argv c3 (argv c)) (cmd c)) W5 R5 (lookup_insert_eq _ _ _)) as (s6 & E6 & Q6 & W6 & R6).
  apply agree_app in G3 as [G3 G3'].
  exists s6. split; [|split; [|split; [|split; [exact W6|]]]].
  - rewrite (bind_run _ _ _ _ _ E2), (bind_run _ _ _ _ _ E3), (bind_run _ _ _ _ _ (upd_spec s3 i c3 _ Hc3)), (bind_run _ _ _ _ _ E6). done.
  - eapply agree_trans; [exact G3'|]. exact (quiet_agree _ _ _ _ Q6).
  - eapply here_upd. by eapply (rel_here _ _ (strip i r.2) i _ R4), lookup_insert_eq.
  - by rewrite (map_agree _ _ _ G3) in R6.
Qed.

Lemma exec_spec t s a :
  wf None t s -> rel None s a -> busy i a ->
  does None t s (execCommand callf i) (a_execCommand acallf i a) /\ busy i (a_execCommand acallf i a).
Proof.
  intros W R Hb. pose proof (busy_here _ _ Hb) as H. destruct (rel_get _ _ _ _ R H) as (c & Hc & Hac).
  unfold execCommand, a_execCommand. rewrite Hac. cbn [a_flags abs_client].
  destruct (negb (has (flags c) REDIS_MULTI)) eqn:Em; [|destruct (has (flags c) (Z.lor REDIS_DIRTY_CAS REDIS_DIRTY_EXEC)) eqn:Ed].
  - split; [|by apply busy_upd]. eapply does_eq; [rewrite (bind_run _ _ _ _ _ (client_spec _ _ _ Hc)), Em; reflexivity|].
    by apply does_error.
  - split; [|unfold a_monitor; case_match; by repeat (apply busy_upd; [done|])].
    eapply does_eq; [rewrite (bind_run _ _ _ _ _ (client_spec _ _ _ Hc)), Em, Ed; reflexivity|].
    eapply does_bind; [by apply does_reply|]. intros s1 W1 R1.
    eapply does_bind; [apply discard_spec; [done|done|by apply here_upd|done]|]. intros s2 W2 R2.
    apply monitor_spec; [done..|]. by do 2 apply here_upd.
  - destruct (unwatch_all_spec None t s a i W R H) as (s1 & E1 & Q1 & W1 & R1).
    destruct (rel_get _ _ _ i R1) as (c1 & Hc1 & Hac1); [by apply here_upd|].
    destruct (exec_body t s1 _ c1 W1 R1 Hc1) as (s2 & E2 & G2 & H2 & W2 & R2).
    assert (abs_client (heap s1) None i c1 = a_with_watched (abs_client (heap s) None i c) []) as Hsame.
    { rewrite <- Hac1, <- Hac. unfold the_client, a_unwatch. cbn. rewrite lookup_alter_eq. destruct H as [ac Hc0]. by rewrite Hc0. }
    cbv zeta in *. rewrite Hsame in E2, R2, H2. cbn [a_queue a_with_watched] in E2, R2, H2.
    assert (map (txt (heap s1)) (argv c1) = a_args (abs_client (heap s) None i c) /\ cmd c1 = a_cmd (abs_client (heap s) None i c)) as [Ha Hcmd].
    { change (map (txt (heap s1)) (argv c1)) with (a_args (abs_client (heap s1) None i c1)).
      change (cmd c1) with (a_cmd (abs_client (heap s1) None i c1)). by rewrite Hsame. }
    rewrite Ha, Hcmd in R2. destruct (a_exec _ _ _ _ _) as [must a2] eqn:Ea. cbn [fst snd] in E2, R2, H2.
    set (a3 := a_discard i _) in R2. assert (here i a3) as H3 by (unfold a3; by do 2 apply here_upd).
    assert (does None t s2 (_ ← (if must then on_rest (r_dirty (fun d => int64 (d + 1))) else mret tt); handle_monitor i)
      (a_monitor i (if must then a_on_rest (r_dirty (fun d => int64 (d + 1))) a3 else a3))) as (s4 & E4 & Q4 & W4 & R4).
    { eapply does_bind with (a1 := if must then a_on_rest (r_dirty (fun d => int64 (d + 1))) a3 else a3);
        [destruct must; [by apply does_rest|by apply does_ret]|]. intros s3 W3 R3.
      apply monitor_spec; [done..|]. by destruct must. }
    split; [exists s4; split; [|split; [|done]]|].
    + rewrite (bind_run _ _ _ _ _ (client_spec _ _ _ Hc)), Em, Ed, (bind_run _ _ _ _ _ E1), (bind_run _ _ _ _ _ (client_spec _ _ _ Hc1)).
      etrans; [|exact E4]. etrans; [|exact (bind_run _ (fun must => _ ← (if must : bool then _ else _); handle_monitor i) _ _ _ E2)].
      rewrite !bind_assoc. apply bind_ext. intros _ s5. rewrite bind_assoc. apply bind_ext. intros m s6.
      rewrite bind_assoc. apply bind_ext. intros _ s7. rewrite bind_assoc. done.
    + split; [|done]. eapply agree_trans; [exact (quiet_agree _ _ _ _ Q1)|]. eapply agree_trans; [exact G2|].
      exact (quiet_agree _ _ _ _ Q4).
    + assert (busy i a3) as Hb3.
      { destruct Hb as (ac & k & Hac' & Hk). unfold the_client in Hac. rewrite Hac' in Hac. cbn in Hac. subst ac.
        unfold a3. rewrite Hk. apply busy_upd; [done|]. by apply busy_args. }
      unfold a_monitor. destruct must; by case_match.
Qed.
End Exec_proofs.

(** *** Every command *)
Lemma call_one t s a i k :
  wf (Some i) t s -> rel (Some i) s a -> here i a -> a_cmd (the_client i a) = Some k -> plain (cmd_proc k) ->
  does (Some i) t s (call 1 i REDIS_CALL_FULL) (a_call 1 i REDIS_CALL_FULL a) /\ busy i (a_call 1 i REDIS_CALL_FULL a).
Proof.
  intros W R H Hk Hp. eapply call_with_spec; [done..|]. intros s' a' W' R' Hb. split.
  - apply run_plain; [done..| |done]. by intros j [= ->].
  - by apply busy_plain.
Qed.


Lemma watch_command_spec t s a i :
  wf None t s -> rel None s a -> here i a ->
  does None t s (watchCommand i) (a_run_proc (a_call 1) i watchCommand_ a).
Proof.
  intros W R H. destruct (rel_get _ _ _ _ R H) as (c & Hc & Hac). cbn [a_run_proc]. rewrite Hac. cbn [a_flags a_args abs_client].
  unfold watchCommand. eapply does_eq; [rewrite (bind_run _ _ _ _ _ (client_spec _ _ _ Hc)); reflexivity|].
  destruct (has (flags c) REDIS_MULTI); [by apply does_error|].
  destruct (each_watch None t (tail (argv c)) s a i c W R Hc) as (s1 & c1 & E1 & Q1 & W1 & R1 & K1).
  { intros l Hl. destruct (argv c); [by inversion Hl|by right]. }
  assert (map (txt (heap s)) (tail (argv c)) = tail (map (txt (heap s)) (argv c))) as Ht by by destruct (argv c).
  rewrite Ht in R1. eapply does_bind; [by exists s1|]. intros s2 W2 R2. apply does_reply; [done..|].
  destruct K1 as (Hc1 & _). by eapply (rel_here _ s1).
Qed.

Lemma busy_foldl_watch i ks a : busy i a -> busy i (foldl (fun a k => a_watch i k a) a ks).
Proof.
  revert a. induction ks as [|k ks IH]; intros a H; [done|]. cbn. apply IH, busy_upd; [|done]. intros c. by case_match.
Qed.

Lemma proc_all t i p : proc_ok None t i p (call 1) (a_call 1).
Proof.
  intros s a W R Hb. pose proof (busy_here _ _ Hb) as H. destruct (rel_get _ _ _ _ R H) as (c & Hc & Hac).
  destruct (immediate p) eqn:Hp; [|split; [by apply run_plain|by apply busy_plain]].
  destruct p; try done; cbn [run_proc].
  - cbn [a_run_proc]. unfold multiCommand. rewrite Hac. cbn [a_flags abs_client]. split.
    + eapply does_eq; [rewrite (bind_run _ _ _ _ _ (client_spec _ _ _ Hc)); reflexivity|].
      destruct (has (flags c) REDIS_MULTI); [by apply does_error|].
      eapply does_bind; [by apply (does_flags None t s a i (fun f => Z.lor f REDIS_MULTI))|]. intros s1 W1 R1.
      apply does_reply; [done..|]. by apply here_upd.
    + case_match; by repeat (apply busy_upd; [done|]).
  - apply exec_spec; [|done..]. intros t' s' a' k' W' R' H' Hk' Hp'. by eapply call_one.
  - cbn [a_run_proc]. unfold discardCommand. rewrite Hac. cbn [a_flags abs_client]. split.
    + eapply does_eq; [rewrite (bind_run _ _ _ _ _ (client_spec _ _ _ Hc)); reflexivity|].
      destruct (negb (has (flags c) REDIS_MULTI)); [by apply does_error|].
      eapply does_bind; [by apply discard_spec|]. intros s1 W1 R1. apply does_reply; [done..|]. by apply here_upd.
    + case_match; by repeat (apply busy_upd; [done|]).
  - split; [by apply watch_command_spec|]. cbn [a_run_proc]. case_match; [by apply busy_upd|].
    apply busy_upd; [done|]. by apply busy_foldl_watch.
Qed.

Lemma call_two t s a i k :
  wf None t s -> rel None s a -> here i a -> a_cmd (the_client i a) = Some k ->
  does None t s (call 2 i REDIS_CALL_FULL) (a_call 2 i REDIS_CALL_FULL a) /\ busy i (a_call 2 i REDIS_CALL_FULL a).
Proof. intros W R H Hk. eapply call_with_spec; [done..|]. apply proc_all. Qed.

Lemma dispatch_spec t s a i k :
  wf None t s -> rel None s a -> here i a -> a_cmd (the_client i a) = Some k ->
  does None t s (dispatch i k) (a_dispatch i k a) /\ here i (a_dispatch i k a).
Proof.
  intros W R H Hk. destruct (rel_get _ _ _ _ R H) as (c & Hc & Hac). unfold dispatch, a_dispatch. rewrite Hac.
  cbn [a_flags abs_client].
  destruct (has (flags c) REDIS_MULTI && negb (immediate (cmd_proc k))) eqn:Hm.
  - split; [|by do 2 apply here_upd].
    eapply does_eq; [rewrite (bind_run _ _ _ _ _ (client_spec _ _ _ Hc)), Hm; reflexivity|].
    apply andb_prop in Hm as [_ Hp%negb_true_iff].
    eapply does_bind; [by eapply queue_spec|]. intros s1 W1 R1. apply does_reply; [done..|]. by apply here_upd.
  - destruct (call_two t s a i k W R H Hk) as [D Hb]. cbv zeta.
    assert (here i (a_call 2 i REDIS_CALL_FULL a)) as H1 by by apply busy_here.
    set (a1 := a_call 2 i REDIS_CALL_FULL a) in *. split; [|case_match; [by apply here_acts|done]].
    eapply does_eq; [rewrite (bind_run _ _ _ _ _ (client_spec _ _ _ Hc)), Hm; reflexivity|].
    eapply does_bind; [exact D|]. intros s1 W1 R1. eapply does_eq; [rewrite ask_bind; reflexivity|].
    unfold a_env. rewrite (rel_rest _ _ _ R1). destruct (negb (ready_keys _ =? 0)); [|by apply does_ret]. by apply acts_spec.
Qed.

Lemma reject_spec t s a i flag r :
  wf None t s -> rel None s a -> here i a -> does None t s (reject i flag r) (a_reject i flag r a).
Proof.
  intros W R H. unfold reject, a_reject. eapply does_bind with (a1 := if flag then
    a_set_flags i (fun x => if has x REDIS_MULTI then Z.lor x REDIS_DIRTY_EXEC else x) a else a).
  - destruct flag; [|by apply does_ret]. destruct (rel_get _ _ _ _ R H) as (c & Hc & _). unfold flagTransaction.
    eapply (does_upd None t s a i c _ _ W R Hc); try (by destruct (has (flags c) REDIS_MULTI)).
    + case_match; exact (wf_db _ _ _ W i c Hc).
    + unfold abs_client, a_with_flags. cbn. by destruct (has (flags c) REDIS_MULTI).
  - intros s1 W1 R1. apply does_reply; [done..|]. destruct flag; [by apply here_upd|done].
Qed.

(** A command that passed the first checks. *)
Lemma memory_spec t s a i :
  wf None t s -> rel None s a -> busy i a ->
  let cf := conf (a_env a) in
  let r := if maxmemory cf then freeMemoryIfNeeded (a_env a) else ([], true) in
  exists s', (if maxmemory cf then
                s ← ask;
                let '(acts, retval) := freeMemoryIfNeeded (env (the_rest s)) in
                _ ← each (do_act i) (server_acts acts); mret retval
              else mret true) s = Some (r.2, s') /\ quiet None t s s' /\
    wf None t s' /\ rel None s' (a_acts i (server_acts r.1) a) /\ busy i (a_acts i (server_acts r.1) a).
Proof.
  intros W R Hb cf r. unfold r. clear r. destruct (maxmemory cf).
  - rewrite ask_bind. unfold a_env. rewrite (rel_rest _ _ _ R). destruct (freeMemoryIfNeeded _) as [acts retval]. cbn [fst snd].
    destruct (acts_spec None t i (server_acts acts) s a W R (busy_here _ _ Hb) ltac:(done)) as (s1 & E1 & Q1 & W1 & R1).
    exists s1. split; [exact (bind_run _ (fun _ => mret retval) _ _ _ E1)|]. split; [done|]. split; [done|]. split; [done|].
    by apply busy_acts.
  - exists s. split; [done|]. split; [apply quiet_refl|done].
Qed.

Lemma here_reject i flag r a : here i a -> here i (a_reject i flag r a).
Proof. intros H. unfold a_reject. apply here_upd. destruct flag; [by apply here_upd|done]. Qed.

Lemma second_spec t s a i retval :
  wf None t s -> rel None s a -> busy i a ->
  let c := the_client i a in
  let k := default (Cmd [] execCommand_ 0 0) (a_cmd c) in
  let a' := if has (cmd_flags k) REDIS_CMD_DENYOOM && negb retval then a_reject i true (Shared oomerr) a
            else match second_check (conf (a_env a)) (a_flags c) (a_args c) k with
                 | Reject flag r => a_reject i flag r a
                 | Accept => a_dispatch i k a
                 end in
  exists s', (c ← get_client i; k ← lift (cmd c); args ← values (argv c); cf ← configuration;
              _ ← (if has (cmd_flags k) REDIS_CMD_DENYOOM && negb retval then reject i true (Shared oomerr)
                   else match second_check cf (flags c) args k with
                        | Reject flag r => reject i flag r
                        | Accept => dispatch i k
                        end);
              mret true) s = Some (true, s') /\ quiet None t s s' /\ here i a' /\ wf None t s' /\ rel None s' a'.
Proof.
  intros W R Hb c0 k0 a'. pose proof (busy_here _ _ Hb) as H. destruct (rel_get _ _ _ _ R H) as (c & Hc & Hac).
  destruct Hb as (ac & k & Hac' & Hk). assert (ac = abs_client (heap s) None i c) as ->.
  { unfold the_client in Hac. by rewrite Hac' in Hac. }
  cbn in Hk. assert (k0 = k) as Hk0 by (unfold k0, c0; rewrite Hac; cbn [a_cmd abs_client]; by rewrite Hk).
  rewrite (bind_run _ _ _ _ _ (client_spec _ _ _ Hc)), (lift_run _ _ _ _ Hk), (bind_run _ _ _ _ _ (argv_values _ _ _ _ _ W Hc)).
  rewrite (bind_run _ _ _ _ _ (conf_spec _ _ _ R)).
  assert (does None t s (if has (cmd_flags k) REDIS_CMD_DENYOOM && negb retval then reject i true (Shared oomerr)
    else match second_check (conf (a_env a)) (flags c) (map (txt (heap s)) (argv c)) k with
         | Reject flag r => reject i flag r | Accept => dispatch i k end) a' /\ here i a') as [(s1 & E1 & Q1 & W1 & R1) H1].
  { unfold a'. clear a'. rewrite Hk0. unfold c0. rewrite Hac. cbn [a_flags a_args abs_client].
    destruct (_ && _); [split; [by apply reject_spec|by apply here_reject]|].
    destruct (second_check _ _ _ _); [|split; [by apply reject_spec|by apply here_reject]].
    apply dispatch_spec; [done..|]. rewrite Hac. by cbn. }
  exists s1. rewrite (bind_run _ _ _ _ _ E1). done.
Qed.

Lemma process_spec t s a i :
  wf None t s -> rel None s a -> here i a -> a_args (the_client i a) <> [] ->
  exists s', processCommand i s = Some ((a_processCommand i a).1, s') /\ quiet None t s s' /\
    here i (a_processCommand i a).2 /\ wf None t s' /\ rel None s' (a_processCommand i a).2.
Proof.
  intros W R H Hne. destruct (rel_get _ _ _ _ R H) as (c & Hc & Hac). unfold processCommand, a_processCommand.
  rewrite Hac in *. cbn [a_args a_auth abs_client] in *. set (args := map (txt (heap s)) (argv c)) in *.
  destruct args as [|name rest] eqn:Hargs; [done|]. cbn [head from_option default]. rewrite <- Hargs. unfold id.
  rewrite (bind_run _ _ _ _ _ (client_spec _ _ _ Hc)), (bind_run _ _ _ _ _ (argv_values _ _ _ _ _ W Hc)). fold args.
  rewrite (lift_run (head args) name) by (by rewrite Hargs).
  destruct (is_quit name).
  - destruct (does_reply None t s a i (Shared ok) W R H) as (s1 & E1 & Q1 & W1 & R1).
    destruct (does_flags None t s1 _ i (fun f => Z.lor f REDIS_CLOSE_AFTER_REPLY) W1 R1) as (s2 & E2 & Q2 & W2 & R2); [by apply here_upd|].
    exists s2. rewrite (bind_run _ _ _ _ _ E1), (bind_run _ _ _ _ _ E2). split; [done|]. split; [by eapply quiet_trans|].
    split; [by do 2 apply here_upd|done].
  - cbv zeta. set (found := lookupCommand name).
    assert (does None t s (upd i (fun c => with_cmd (with_lastcmd c found) found))
      (a_upd i (fun c => a_with_lastcmd (a_with_args c (a_args c) found) found) a)) as (s1 & E1 & Q1 & W1 & R1).
    { eapply (does_upd None t s a i c); try done. exact (wf_db _ _ _ W i c Hc). }
    set (a1 := a_upd i _ a) in *. assert (here i a1) as H1 by (unfold a1; by apply here_upd).
    rewrite (bind_run _ _ _ _ _ E1), (bind_run _ _ _ _ _ (conf_spec _ _ _ R1)). cbn [fst snd].
    destruct (first_check _ _ _ _ _) as [|flag r] eqn:Hf.
    + destruct found as [k0|] eqn:Hk0; [|done].
      assert (busy i a1) as Hb1.
      { unfold a1. destruct H as [ac Hc0]. eexists _, k0. cbn. rewrite lookup_alter_eq, Hc0. done. }
      destruct (memory_spec t s1 a1 i W1 R1 Hb1) as (s2 & E2 & Q2 & W2 & R2 & Hb2). cbv zeta in E2, R2, Hb2.
      destruct (if maxmemory (conf (a_env a1)) then freeMemoryIfNeeded (a_env a1) else ([], true)) as [acts retval] eqn:Hmem.
      cbn [fst snd] in E2, R2, Hb2. rewrite (bind_run _ _ _ _ _ E2).
      destruct (second_spec t s2 _ i retval W2 R2 Hb2) as (s3 & E3 & Q3 & H3 & W3 & R3).
      exists s3. split; [exact E3|]. split; [|done]. eapply quiet_trans; [exact Q1|]. by eapply quiet_trans.
    + destruct (reject_spec t s1 a1 i flag r W1 R1 H1) as (s2 & E2 & Q2 & W2 & R2).
      exists s2. rewrite (bind_run _ _ _ _ _ E2). split; [done|]. split; [by eapply quiet_trans|].
      split; [by apply here_reject|done].
Qed.

(** *** Requests *)
Lemma collect_new i args s : collect (take_arg i) (map New args) s = collect createStringObject args s.
Proof.
  revert s. induction args as [|x args IH]; intros s; [done|]. cbn [map collect]. apply bind_ext. intros l s1.
  unfold mbind, M_bind. by rewrite IH.
Qed.
Lemma mapM_new vals args : mapM (arg_text vals) (map New args) = Some args.
Proof. induction args as [|x args IH]; [done|]. cbn. by rewrite IH. Qed.

(** A client that may send a request has no arguments left. *)
Definition idle_client (c : aclient) : Prop := a_args c = [] \/ has (a_flags c) REDIS_CLOSE_AFTER_REPLY = true.

Lemma request_spec t s a i args :
  wf None t s -> rel None s a -> here i a -> idle_client (the_client i a) ->
  does None t s (process_request i args) (a_request i args a) /\ here i (a_request i args a).
Proof.
  intros W R H Hid. destruct (rel_get _ _ _ _ R H) as (c & Hc & Hac). unfold process_request, a_request.
  rewrite Hac in *. cbn [a_flags abs_client].
  eapply does_eq_and; [rewrite (bind_run _ _ _ _ _ (client_spec _ _ _ Hc)); reflexivity|].
  destruct (has (flags c) REDIS_BLOCKED); [split; [by apply does_ret|done]|].
  destruct (has (flags c) REDIS_CLOSE_AFTER_REPLY) eqn:Hcl; [split; [by apply does_ret|done]|].
  assert (argv c = []) as Hargv.
  { destruct Hid as [Hid|Hid]; cbn in Hid; [by eapply map_eq_nil|congruence]. }
  destruct (take_all_spec None (map New args) i t s a c args W R Hc (mapM_new _ _)) as (new & h & E1 & W1 & R1 & Hn & G1).
  rewrite collect_new in E1. apply agree_app in G1 as [_ G1].
  assert (with_cmd (with_argv c new) (cmd c) = with_argv c new) as Hw by by destruct c.
  destruct (args_frame None (new ++ t) t (heaped s h) a i c h new (cmd c) W1 R1 Hc) as (W2 & R2).
  { eapply counted_cnt; [|exact (client_counted _ _ _ _ _ W1 Hc)]. intros n. unfold client_refs. rewrite Hargv, !cnt_app. cbn [cnt]. lia. }
  { done. }
  rewrite Hw in W2, R2. set (s2 := clientd (heaped s h) h i (with_argv c new)) in *.
  assert (rel None s2 (a_upd i (fun c => a_with_args c args (a_cmd c)) a)) as R2'.
  { erewrite a_upd_ext; [exact R2|]. intros ac Hac'. rewrite (rel_clients _ _ _ R), Hc in Hac'. injection Hac' as <-. by rewrite Hn. }
  set (a2 := a_upd i _ a) in R2'. assert (here i a2) as H2 by (unfold a2; by apply here_upd).
  assert (quiet None t s s2) as Q2 by (by eapply quiet_client).
  assert (forall m a', does None t s2 m a' /\ here i a' ->
    does None t s (new ← collect createStringObject args; _ ← upd i (fun c => with_argv c new); match new with [] => m | _ => m end) a' /\ here i a') as Hgo.
  { intros m a' [(s3 & E3 & Q3 & H3) Hh]. split; [|done]. exists s3. split; [|split; [by eapply quiet_trans|done]].
    rewrite (bind_run _ _ _ _ _ E1), (bind_run _ _ _ _ _ (upd_spec (heaped s h) i c _ Hc)). by destruct new. }
  assert (a_args (the_client i a2) = args) as Ha2.
  { unfold a2, the_client. cbn. rewrite lookup_alter_eq. destruct H as [ac Hc0]. by rewrite Hc0. }
  destruct args as [|name args].
  - destruct (Hgo (resetClient i) (a_reset i a2)) as [(s3 & E3 & H3) Hh]; [split; [by apply reset_spec|by apply here_upd]|].
    split; [|done]. exists s3. split; [|done]. etrans; [|exact E3].
    rewrite !(bind_run _ _ _ _ _ E1). by destruct new.
  - destruct (process_spec t s2 a2 i W2 R2' H2) as (s3 & E3 & Q3 & H3 & W3 & R3); [by rewrite Ha2|].
    cbv zeta. fold a2. destruct (a_processCommand i a2) as [fine a3] eqn:Ep. cbn [fst snd] in *.
    assert (does None t s2 (done ← processCommand i; if done : bool then resetClient i else mret tt)
      (if fine then a_reset i a3 else a3) /\ here i (if fine then a_reset i a3 else a3)) as D.
    { split; [|destruct fine; [by apply here_upd|done]]. destruct fine.
      - destruct (reset_spec None t s3 a3 i W3 R3 H3) as (s4 & E4 & Q4 & H4). exists s4. rewrite (bind_run _ _ _ _ _ E3).
        split; [done|]. split; [by eapply quiet_trans|done].
      - exists s3. rewrite (bind_run _ _ _ _ _ E3). done. }
    destruct (Hgo _ _ D) as [(s4 & E4 & H4) Hh]. split; [|done]. exists s4. split; [|done]. etrans; [|exact E4].
    rewrite !(bind_run _ _ _ _ _ E1). apply bind_ext. intros _ s5. by destruct new.
Qed.

Lemma connect_frame t s a i :
  wf None t s -> rel None s a -> clients s !! i = None ->
  does None t s (createClient i) (AServer (<[i := nobody]> (a_clients a)) (a_dbs a) (a_rest a)).
Proof.
  intros [C W A Q D N] [R1 R2 R3] Hi. set (c := Client 0 0 [] None None false [] [] []).
  exists (Server (heap s) (<[i := c]> (clients s)) (dbs s) (kept s) (also_propagate s) (the_rest s)).
  split; [done|]. split; [by split|]. split; split; try done.
  - eapply counted_cnt; [|exact C]. intros l. unfold refs. cbn [clients dbs kept]. rewrite !cnt_app.
    rewrite (cnt_perm l _ _ (clients_refs_insert None (clients s) i c)), delete_id by done. done.
  - cbn. destruct W as [W1 W2 W3 W4]. split.
    + intros j c0 d k. destruct (decide (i = j)) as [<-|Hn].
      * rewrite lookup_insert_eq. intros [= <-] Hin. by inversion Hin.
      * rewrite lookup_insert_ne by done. apply W1.
    + done.
    + intros d k o ws j Hj Hin. destruct (W3 _ _ _ _ _ Hj Hin) as (c0 & Hc0 & Hk). exists c0.
      rewrite lookup_insert_ne by (intros <-; congruence). done.
    + intros j c0. destruct (decide (i = j)) as [<-|Hn].
      * rewrite lookup_insert_eq. intros [= <-]. constructor.
      * rewrite lookup_insert_ne by done. apply W4.
  - cbn. intros j c0. destruct (decide (i = j)) as [<-|Hn].
    + rewrite lookup_insert_eq. by intros [= <-].
    + rewrite lookup_insert_ne by done. apply Q.
  - cbn. intros j c0. destruct (decide (i = j)) as [<-|Hn].
    + rewrite lookup_insert_eq. by intros [= <-].
    + rewrite lookup_insert_ne by done. apply D.
  - intros j. cbn. destruct (decide (i = j)) as [<-|Hn]; [by rewrite !lookup_insert_eq|]. by rewrite !lookup_insert_ne.
Qed.

Definition idle (a : aserver) : Prop := forall i c, a_clients a !! i = Some c -> idle_client c.

Lemma step_spec t s a e :
  wf None t s -> rel None s a -> idle a -> does None t s (step e) (a_step e a).
Proof.
  intros W R Hid. unfold step. eapply does_eq; [rewrite ask_bind; reflexivity|].
  assert (forall i, here i a <-> is_Some (clients s !! i)) as Hh.
  { intros i. unfold here. rewrite (rel_clients _ _ _ R). by rewrite fmap_is_Some. }
  assert (forall i, bool_decide (is_Some (clients s !! i)) = bool_decide (is_Some (a_clients a !! i))) as Hb.
  { intros i. apply bool_decide_ext. symmetry. apply Hh. }
  destruct e as [i|i|i args]; cbn [a_step]; rewrite Hb.
  - case_bool_decide as Hi; [by apply does_ret|]. apply connect_frame; [done..|].
    destruct (clients s !! i) eqn:E1; [|done]. exfalso. apply Hi, Hh. by rewrite E1.
  - case_bool_decide as Hi; [by apply free_client_spec|]. apply does_ret; [done|].
    eapply rel_ext; [exact R|done..|]. intros j. cbn. destruct (decide (i = j)) as [<-|Hn]; [|by rewrite lookup_delete_ne].
    rewrite lookup_delete_eq. symmetry. by apply eq_None_not_Some.
  - case_bool_decide as Hi; [|by apply does_ret]. apply (request_spec t); [done..|].
    destruct Hi as [c Hc]. unfold the_client. rewrite Hc. by eapply Hid.
Qed.

(** ** What the specification does to the state of a transaction

    Flags, bit by bit. *)
Lemma has_bit n x : 0 <= n -> has x (2 ^ n) = Z.testbit x n.
Proof.
  intros Hn. unfold has. destruct (Z.testbit x n) eqn:Hb.
  - apply negb_true_iff, Z.eqb_neq. intros E0. apply (f_equal (fun z => Z.testbit z n)) in E0.
    rewrite Z.land_spec, Hb, Z.pow2_bits_true, Z.bits_0 in E0 by done. done.
  - apply negb_false_iff, Z.eqb_eq, Z.bits_inj'. intros m Hm. rewrite Z.land_spec, Z.bits_0.
    destruct (decide (n = m)) as [<-|Hne]; [by rewrite Hb|]. rewrite Z.pow2_bits_false by done. apply andb_false_r.
Qed.
Lemma has_multi x : has x REDIS_MULTI = Z.testbit x 3.
Proof. by apply (has_bit 3). Qed.
Lemma has_cas x : has x REDIS_DIRTY_CAS = Z.testbit x 5.
Proof. by apply (has_bit 5). Qed.
Lemma has_close x : has x REDIS_CLOSE_AFTER_REPLY = Z.testbit x 6.
Proof. by apply (has_bit 6). Qed.
Lemma has_dirty_exec x : has x REDIS_DIRTY_EXEC = Z.testbit x 12.
Proof. by apply (has_bit 12). Qed.

Lemma testbit_clear x m n : 0 <= n -> Z.testbit (clear x m) n = Z.testbit x n && negb (Z.testbit m n).
Proof. intros Hn. unfold clear. by rewrite Z.land_spec, Z.lnot_spec. Qed.

(** Whether one of the touches concerns one of the keys. *)
Definition hit (ys : list touch) (w : list (nat * list Z)) : bool := existsb (fun y => existsb (hits y) w) ys.

(** The bits of flags that others do not change, and those they do. *)
Definition same_flags (x x' : Z) : Prop :=
  Z.testbit x' 3 = Z.testbit x 3 /\ Z.testbit x' 12 = Z.testbit x 12 /\ (Z.testbit x 6 = true -> Z.testbit x' 6 = true).

Record kept_client (args : bool) (ys : list touch) (c c' : aclient) : Prop := KeptClient {
  kc_watched : a_watched c' = a_watched c;
  kc_queue : a_queue c' = a_queue c;
  kc_args : args = true -> a_args c' = a_args c /\ a_cmd c' = a_cmd c;
  kc_flags : same_flags (a_flags c) (a_flags c');
  kc_cas : Z.testbit (a_flags c') 5 = Z.testbit (a_flags c) 5 || hit ys (a_watched c);
  kc_out : exists rs, a_out c' = a_out c ++ rs }.

Definition framed (args : bool) (j : nat) (a a' : aserver) : Prop :=
  exists ys, touches (a_rest a') = touches (a_rest a) ++ ys /\
    forall c', a_clients a' !! j = Some c' -> exists c, a_clients a !! j = Some c /\ kept_client args ys c c'.

Lemma same_flags_refl x : same_flags x x.
Proof. done. Qed.

Lemma kept_refl args c : kept_client args [] c c.
Proof. split; try done. { by rewrite orb_false_r. } exists []. by rewrite app_nil_r. Qed.

Lemma framed_refl args j a : framed args j a a.
Proof. exists []. split; [by rewrite app_nil_r|]. intros c Hc. exists c. split; [done|apply kept_refl]. Qed.

Lemma framed_trans args j a a' a'' : framed args j a a' -> framed args j a' a'' -> framed args j a a''.
Proof.
  intros (ys & T & H) (ys' & T' & H'). exists (ys ++ ys'). split; [by rewrite T', T, app_assoc|].
  intros c'' Hc''. destruct (H' _ Hc'') as (c' & Hc' & [K1 K2 K3 K4 K5 (rs' & K6)]).
  destruct (H _ Hc') as (c & Hc & [L1 L2 L3 L4 L5 (rs & L6)]). exists c. split; [done|].
  split; [congruence..| | | |].
  - intros Ha. destruct (K3 Ha), (L3 Ha). split; congruence.
  - destruct K4 as (? & ? & ?), L4 as (? & ? & ?). split; [congruence|]. split; [congruence|eauto].
  - rewrite K5, L5, L1. unfold hit. by rewrite existsb_app, orb_assoc.
  - exists (rs ++ rs'). by rewrite K6, L6, app_assoc.
Qed.

Lemma framed_upd args i j f a :
  (i = j -> forall c, kept_client args [] c (f c)) -> framed args j a (a_upd i f a).
Proof.
  intros Hf. exists []. split; [by rewrite app_nil_r|]. intros c'. cbn. destruct (decide (i = j)) as [<-|Hn].
  - rewrite lookup_alter_eq. destruct (a_clients a !! i) as [c|]; [|done]. intros [= <-]. eauto.
  - rewrite lookup_alter_ne by done. intros Hc. exists c'. split; [done|apply kept_refl].
Qed.
Lemma framed_other args i j f a : i <> j -> framed args j a (a_upd i f a).
Proof. intros H. apply framed_upd. by intros ->. Qed.

Lemma framed_rest args j f a : touches (f (a_rest a)) = touches (a_rest a) -> framed args j a (a_on_rest f a).
Proof. intros H. exists []. split; [by rewrite app_nil_r|]. intros c Hc. exists c. split; [done|apply kept_refl]. Qed.

Lemma same_flags_lor x m : Z.testbit m 3 = false -> Z.testbit m 12 = false -> same_flags x (Z.lor x m).
Proof.
  intros H3 H12. split; [by rewrite Z.lor_spec, H3, orb_false_r|]. split; [by rewrite Z.lor_spec, H12, orb_false_r|].
  intros H6. by rewrite Z.lor_spec, H6.
Qed.

Lemma framed_touch args j y a : framed args j a (a_touch y a).
Proof.
  exists [y]. split; [done|]. intros c'. cbn. rewrite lookup_fmap. destruct (a_clients a !! j) as [c|]; [|done].
  intros [= <-]. exists c. split; [done|]. destruct (existsb (hits y) (a_watched c)) eqn:Ey.
  - split; try done.
    + by apply same_flags_lor.
    + cbn [a_flags a_mark a_with_flags hit existsb]. rewrite Z.lor_spec, Ey. cbn [orb]. rewrite !orb_true_r. done.
    + exists []. by rewrite app_nil_r.
  - split; try done.
    + cbn. rewrite Ey. by rewrite !orb_false_r.
    + exists []. by rewrite app_nil_r.
Qed.

Lemma kept_flags args f c :
  same_flags (a_flags c) (f (a_flags c)) -> Z.testbit (f (a_flags c)) 5 = Z.testbit (a_flags c) 5 ->
  kept_client args [] c (a_with_flags c (f (a_flags c))).
Proof. intros H H5. split; try done. { cbn [a_flags a_with_flags]. by rewrite H5, orb_false_r. } exists []. by rewrite app_nil_r. Qed.

(** Adding flags that are not those of transactions. *)
Lemma kept_lor args m c :
  Z.testbit m 3 = false -> Z.testbit m 12 = false -> Z.testbit m 5 = false ->
  kept_client args [] c (a_with_flags c (Z.lor (a_flags c) m)).
Proof.
  intros H3 H12 H5. apply (kept_flags args (fun x => Z.lor x m)).
  - by apply same_flags_lor.
  - by rewrite Z.lor_spec, H5, orb_false_r.
Qed.

Lemma kept_set_flag args m on c : kept_client args [] c (a_with_flags c (set_flag m on (a_flags c))).
Proof.
  unfold set_flag. destruct on.
  - apply kept_lor; rewrite testbit_clear by done; apply andb_false_r.
  - set (t := Z.lor tx_flags REDIS_CLOSE_AFTER_REPLY).
    assert (forall n, 0 <= n -> Z.testbit t n = true -> Z.testbit (clear (a_flags c) (clear m t)) n = Z.testbit (a_flags c) n) as Hb.
    { intros n Hn Ht. rewrite !testbit_clear, Ht by done. by rewrite andb_false_r, andb_true_r. }
    apply (kept_flags args (fun x => clear x (clear m t))); [split; [|split]|]; rewrite Hb by done; done.
Qed.

Lemma kept_trans args c c' c'' : kept_client args [] c c' -> kept_client args [] c' c'' -> kept_client args [] c c''.
Proof.
  intros [L1 L2 L3 L4 L5 (rs & L6)] [K1 K2 K3 K4 K5 (rs' & K6)]. split; [congruence..| | | |].
  - intros Ha. destruct (K3 Ha), (L3 Ha). split; congruence.
  - destruct K4 as (? & ? & ?), L4 as (? & ? & ?). split; [congruence|]. split; [congruence|eauto].
  - by rewrite K5, L5, !orb_false_r.
  - exists (rs ++ rs'). by rewrite K6, L6, app_assoc.
Qed.

Lemma kept_out args r c : kept_client args [] c (a_with_out c (a_out c ++ [r])).
Proof. split; try done. { by rewrite orb_false_r. } by exists [r]. Qed.

(** Fields that no transaction looks at. *)
Ltac kept_plain := split; try done; [by rewrite orb_false_r|by exists []; rewrite app_nil_r].

Lemma framed_act i j v a : framed (negb (bool_decide (i = j)) || background v) j a (a_act i v a).
Proof.
  set (b := negb _ || _).
  assert (b = true -> background v = false -> i <> j) as Hne.
  { unfold b. intros Hb Hv. rewrite Hv, orb_false_r in Hb. by apply negb_true_iff, bool_decide_eq_false_1 in Hb. }
  destruct v as [e|j' r|d k|dbid|n|id|m on|fl|bb|args|j' v|j'|j'|k dbid args fl|j']; cbn [a_act].
  - by apply framed_rest.
  - apply framed_upd. intros _ c. apply kept_out.
  - case_match; [apply framed_touch|apply framed_refl].
  - apply framed_touch.
  - by apply framed_rest.
  - case_match; [apply framed_refl|]. apply framed_upd. intros _ c. kept_plain.
  - apply framed_upd. intros _ c. apply kept_set_flag.
  - apply framed_upd. intros _ c. destruct (has fl REDIS_PROPAGATE_REPL), (has fl REDIS_PROPAGATE_AOF);
      rewrite <- ?Z.lor_assoc; try (by apply kept_lor). destruct c. apply kept_refl.
  - apply framed_upd. intros _ c. kept_plain.
  - destruct b eqn:Hb; [by repeat case_match; try apply framed_refl; apply framed_other, Hne|].
    repeat case_match; try apply framed_refl; apply framed_upd; intros _ c; kept_plain.
  - destruct b eqn:Hb; [by repeat case_match; try apply framed_refl; apply framed_other, Hne|].
    repeat case_match; try apply framed_refl; apply framed_upd; intros _ c; kept_plain.
  - apply framed_refl.
  - apply framed_refl.
  - by apply framed_rest.
  - case_bool_decide; [apply framed_refl|]. exists []. split; [by rewrite app_nil_r|]. intros c'. cbn.
    intros [_ Hc]%lookup_delete_Some. exists c'. split; [done|apply kept_refl].
Qed.

(** *** What a command of one client does to the others *)
Lemma framed_acts i j vs a :
  (i <> j \/ forallb background vs = true) -> framed true j a (a_acts i vs a).
Proof.
  revert a. induction vs as [|v vs IH]; intros a H; [apply framed_refl|]. cbn.
  eapply framed_trans; [|apply IH; destruct H as [H|H]; [by left|right; by apply andb_prop in H as [_ H]]].
  pose proof (framed_act i j v a) as F. destruct H as [H|H].
  - by rewrite bool_decide_eq_false_2 in F.
  - cbn in H. apply andb_prop in H as [H _]. by rewrite H, orb_true_r in F.
Qed.

Lemma server_acts_background vs : forallb background (server_acts vs) = true.
Proof. induction vs as [|v vs IH]; [done|]. cbn. destruct (background v) eqn:Hv; [|done]. cbn. by rewrite Hv. Qed.

Lemma framed_rest_if (b : bool) j f a :
  touches (f (a_rest a)) = touches (a_rest a) -> framed true j a (if b then a_on_rest f a else a).
Proof. intros H. destruct b; [by apply framed_rest|apply framed_refl]. Qed.

Lemma framed_now j a : framed true j a (a_now a).2.
Proof. unfold a_now. destruct (ustime _). by apply framed_rest. Qed.

Lemma kept_force args fl c : kept_client args [] c (a_force_caller fl c).
Proof.
  unfold a_force_caller.
  apply (kept_trans _ _ (if has fl REDIS_FORCE_REPL then a_with_flags c (Z.lor (a_flags c) REDIS_FORCE_REPL) else c)).
  - destruct (has fl REDIS_FORCE_REPL); [by apply kept_lor|apply kept_refl].
  - set (c1 := if has fl REDIS_FORCE_REPL then _ else c). destruct (has fl REDIS_FORCE_AOF); [by apply kept_lor|apply kept_refl].
Qed.

Lemma framed_after_call i j fl dirty duration old a : i <> j -> framed true j a (a_after_call i fl dirty duration old a).
Proof.
  intros H. unfold a_after_call. cbv zeta.
  set (a1 := if has _ REDIS_LUA_CLIENT then _ else a).
  assert (framed true j a a1) as F1.
  { unfold a1. repeat case_match; try apply framed_refl. apply framed_upd. intros _ c. apply kept_force. }
  eapply framed_trans; [exact F1|]. clearbody a1.
  eapply framed_trans; [|by apply framed_rest]. eapply framed_trans; [|by apply framed_other].
  eapply framed_trans; [|by apply framed_rest_if]. eapply framed_trans; by apply framed_rest_if.
Qed.

Section Others.
Context (acallf : nat -> Z -> aserver -> aserver) (i j : nat) (Hij : i <> j).
Context (Hcall : forall fl a, framed true j a (acallf i fl a)).

Lemma framed_exec q must a : framed true j a (a_exec acallf i q must a).2.
Proof.
  revert must a. induction q as [|[k args] q IH]; intros must a; [apply framed_refl|]. cbn [a_exec].
  eapply framed_trans; [|apply IH]. eapply framed_trans; [|apply Hcall].
  eapply framed_trans; [|by apply framed_rest_if]. by apply framed_other.
Qed.

Lemma framed_monitor a : framed true j a (a_monitor i a).
Proof. by apply framed_rest_if. Qed.

Lemma framed_execCommand a : framed true j a (a_execCommand acallf i a).
Proof.
  unfold a_execCommand. case_match; [by apply framed_other|]. case_match.
  - eapply framed_trans; [|apply framed_monitor]. eapply framed_trans; by apply framed_other.
  - destruct (a_exec _ _ _ _ _) as [must a1] eqn:Ea.
    eapply framed_trans; [|apply framed_monitor]. eapply framed_trans; [|by apply framed_rest_if].
    eapply framed_trans; [|by apply framed_other]. eapply framed_trans; [|by apply framed_other].
    change a1 with (must, a1).2. rewrite <- Ea. eapply framed_trans; [|apply framed_exec].
    eapply framed_trans; [|by apply framed_other]. eapply framed_trans; by apply framed_other.
Qed.

Lemma framed_run_proc p a : framed true j a (a_run_proc acallf i p a).
Proof.
  assert (forall vs, framed true j a (a_acts i vs a)) as Ha by (intros vs; apply framed_acts; by left).
  destruct p; cbn [a_run_proc]; try apply Ha.
  - case_match; [by apply framed_other|]. eapply framed_trans; by apply framed_other.
  - apply framed_execCommand.
  - case_match; [by apply framed_other|]. eapply framed_trans; by apply framed_other.
  - case_match; [by apply framed_other|]. eapply framed_trans; [|by apply framed_other].
    generalize (tail (a_args (the_client i a))). intros ks. clear Ha H. revert a. induction ks as [|k ks IH]; intros a; [apply framed_refl|].
    cbn. eapply framed_trans; [|apply IH]. by apply framed_other.
  - eapply framed_trans; [|by apply framed_other]. eapply framed_trans; by apply framed_other.
Qed.

Lemma framed_call_with fl a : framed true j a (a_call_with acallf i fl a).
Proof.
  unfold a_call_with. cbv zeta. set (a1 := a_set_flags i _ _).
  assert (framed true j a a1) as F1.
  { unfold a1. eapply framed_trans; [|by apply framed_other]. by apply framed_rest_if. }
  eapply framed_trans; [exact F1|]. clearbody a1.
  pose proof (framed_now j a1) as F2. destruct (a_now a1) as [start a2]. cbn in F2. eapply framed_trans; [exact F2|].
  match goal with |- framed _ _ _ (let '(t, a) := a_now ?X in _) => pose proof (framed_now j X) as F3; destruct (a_now X) as [fin a3] end.
  eapply framed_trans; [apply framed_run_proc|]. eapply framed_trans; [exact F3|]. by apply framed_after_call.
Qed.
End Others.

Lemma framed_call n i j fl a : i <> j -> framed true j a (a_call n i fl a).
Proof.
  intros H. revert fl a. induction n as [|n IH]; intros fl a; [apply framed_refl|]. cbn. by apply framed_call_with.
Qed.

Lemma framed_dispatch i j k a : i <> j -> framed true j a (a_dispatch i k a).
Proof.
  intros H. unfold a_dispatch. case_match; [eapply framed_trans; by apply framed_other|].
  eapply framed_trans; [by apply framed_call|]. case_match; [|apply framed_refl]. apply framed_acts. by left.
Qed.

Lemma framed_reject i j flag r a : i <> j -> framed true j a (a_reject i flag r a).
Proof.
  intros H. unfold a_reject. eapply framed_trans; [|by apply framed_other]. case_match; [by apply framed_other|apply framed_refl].
Qed.

Lemma framed_process i j a : i <> j -> framed true j a (a_processCommand i a).2.
Proof.
  intros H. unfold a_processCommand. case_match; [eapply framed_trans; by apply framed_other|]. cbn [snd].
  set (a1 := a_upd i _ a). apply (framed_trans _ _ _ a1); [by apply framed_other|]. clearbody a1. cbv zeta.
  destruct (first_check _ _ _ _ _) as [|flag r]; [|by apply framed_reject].
  case_match; [|apply framed_refl]. destruct (if maxmemory _ then _ else _) as [acts retval].
  apply (framed_trans _ _ _ (a_acts i (server_acts acts) a1)); [apply framed_acts; by left|].
  set (a2 := a_acts _ _ _). clearbody a2. case_match; [by apply framed_reject|]. case_match; [by apply framed_dispatch|by apply framed_reject].
Qed.

(** An event of another client. *)
Definition by_client (i : nat) (e : event) : bool :=
  match e with Connect j | Disconnect j | Request j _ => bool_decide (j = i) end.

Lemma framed_step j e a : by_client j e = false -> framed true j a (a_step e a).
Proof.
  destruct e as [i|i|i args]; cbn; intros H%bool_decide_eq_false_1.
  - case_match; [apply framed_refl|]. exists []. split; [by rewrite app_nil_r|]. intros c. cbn.
    rewrite lookup_insert_ne by done. intros Hc. exists c. split; [done|apply kept_refl].
  - exists []. split; [by rewrite app_nil_r|]. intros c. cbn. rewrite lookup_delete_ne by done. intros Hc. exists c.
    split; [done|apply kept_refl].
  - case_match; [|apply framed_refl]. unfold a_request. case_match; [apply framed_refl|]. case_match; [apply framed_refl|].
    cbv zeta. set (a1 := a_upd i _ a). apply (framed_trans _ _ _ a1); [by apply framed_other|]. clearbody a1.
    case_match; [by apply framed_other|]. pose proof (framed_process i j a1 H) as F.
    destruct (a_processCommand i a1) as [fine a2]. cbn in F. eapply framed_trans; [exact F|].
    destruct fine; [by apply framed_other|apply framed_refl].
Qed.

(** After a request its client has no arguments left, unless it quits. *)
Lemma idle_request i args a :
  here i a -> idle_client (the_client i a) -> forall c, a_clients (a_request i args a) !! i = Some c -> idle_client c.
Proof.
  intros [c0 Hc0] Hid c. unfold a_request, the_client in *. rewrite Hc0 in *. cbn [default from_option] in *. unfold id in *.
  assert (forall a', a_clients (a_reset i a') !! i = Some c -> idle_client c) as Hreset.
  { intros a'. cbn. rewrite lookup_alter_eq. destruct (a_clients a' !! i); [|done]. intros [= <-]. left. by case_match. }
  case_match; [congruence|]. case_match; [congruence|]. cbv zeta. set (a1 := a_upd i _ a).
  destruct args as [|name args]; [apply Hreset|].
  destruct (a_processCommand i a1) as [fine a2] eqn:Ep. destruct fine; [apply Hreset|].
  unfold a_processCommand in Ep. case_match; [|done]. injection Ep as <-. cbn. rewrite lookup_alter_eq.
  destruct (alter _ _ _ !! i); [|done]. cbn. intros [= <-]. right. rewrite has_close. cbn [a_flags a_with_flags].
  rewrite Z.lor_spec. apply orb_true_r.
Qed.

Lemma idle_step e a : idle a -> idle (a_step e a).
Proof.
  intros Hid j c Hc. destruct (by_client j e) eqn:Hb.
  - destruct e as [i|i|i args]; cbn in Hb; apply bool_decide_eq_true_1 in Hb as ->; cbn in Hc.
    + case_bool_decide; [by eapply Hid|]. cbn in Hc. rewrite lookup_insert_eq in Hc. injection Hc as <-. by left.
    + by rewrite lookup_delete_eq in Hc.
    + case_bool_decide as Hh; [|by eapply Hid]. eapply idle_request; [exact Hh| |exact Hc].
      destruct Hh as [c0 Hc0]. unfold the_client. rewrite Hc0. by eapply Hid.
  - destruct (framed_step j e a Hb) as (ys & _ & Hf). destruct (Hf c Hc) as (c0 & Hc0 & [_ _ K3 K4 _ _]).
    destruct (Hid j c0 Hc0) as [Ha|Ha]; [left; destruct (K3 eq_refl); congruence|right].
    rewrite has_close in *. by apply K4.
Qed.

Lemma idle_run es a : idle a -> idle (a_run es a).
Proof. revert a. induction es as [|e es IH]; intros a H; [done|]. cbn. by apply IH, idle_step. Qed.

Lemma events_spec es : forall t s a, wf None t s -> rel None s a -> idle a -> does None t s (run es) (a_run es a).
Proof.
  induction es as [|e es IH]; intros t s a W R Hid; [by apply does_ret|]. unfold run. cbn [each].
  eapply does_bind; [by apply step_spec|]. intros s1 W1 R1. apply IH; [done..|by apply idle_step].
Qed.

(** *** What a client in a transaction does to itself *)
Definition answer_queued (rs : list reply) : bool := match last rs with Some (Shared queued) => true | _ => false end.

Record own (ys : list touch) (q : list (option redisCommand * list (list Z))) (c c' : aclient) : Prop := Own {
  ow_watched : a_watched c' = a_watched c;
  ow_multi : Z.testbit (a_flags c') 3 = Z.testbit (a_flags c) 3;
  ow_cas : Z.testbit (a_flags c') 5 = Z.testbit (a_flags c) 5 || hit ys (a_watched c);
  ow_queue : a_queue c' = a_queue c ++ q;
  ow_out : exists rs, a_out c' = a_out c ++ rs /\ answer_queued rs = bool_decide (q <> []) }.

(** A request for a command that a transaction queues. *)
Definition plain_request (args : list (list Z)) : bool :=
  match lookupCommand (default [] (head args)) with Some k => negb (immediate (cmd_proc k)) | None => true end.

Definition entered i (ys : list touch) q c (a a' : aserver) : Prop :=
  touches (a_rest a') = touches (a_rest a) ++ ys /\ exists c', a_clients a' !! i = Some c' /\ own ys q c c'.

Lemma last_snoc_reply rs r : answer_queued (rs ++ [r]) = match r with Shared queued => true | _ => false end.
Proof. unfold answer_queued. by rewrite last_snoc. Qed.

(** A client [c1] that was kept, and then refused. *)
Lemma own_reject i ys c c1 a a1 flag r :
  a_clients a1 !! i = Some c1 -> kept_client false ys c c1 -> touches (a_rest a1) = touches (a_rest a) ++ ys ->
  r <> Shared queued -> entered i ys [] c a (a_reject i flag r a1).
Proof.
  intros Hc1 [K1 K2 K3 (K4 & _) K5 (rs & K6)] HT Hr. unfold entered, a_reject.
  assert (answer_queued (rs ++ [r]) = false) as Hq by (rewrite last_snoc_reply; by destruct r as [[]| | |]).
  destruct flag; (split; [done|]).
  - eexists. split; [cbn; rewrite !lookup_alter_eq, Hc1; reflexivity|].
    cbn [a_flags a_with_flags a_with_out a_out]. rewrite has_multi.
    split; cbn [a_watched a_flags a_queue a_out a_with_flags a_with_out];
      [done|..|by rewrite app_nil_r|exists (rs ++ [r]); by rewrite K6, app_assoc].
    + rewrite <- K4. destruct (Z.testbit (a_flags c1) 3) eqn:E3; [|done]. rewrite Z.lor_spec, E3. done.
    + rewrite <- K5. case_match; [|done]. rewrite Z.lor_spec. apply orb_false_r.
  - eexists. split; [cbn; rewrite lookup_alter_eq, Hc1; reflexivity|].
    split; cbn [a_watched a_flags a_queue a_out a_with_out]; [done|done|done|by rewrite app_nil_r|].
    exists (rs ++ [r]). by rewrite K6, app_assoc.
Qed.

Lemma first_check_reply cf auth name argc k flag r : first_check cf auth name argc k = Reject flag r -> r <> Shared queued.
Proof. unfold first_check. repeat case_match; intros [= <- <-]; done. Qed.
Lemma second_check_reply cf fl args k flag r : second_check cf fl args k = Reject flag r -> r <> Shared queued.
Proof. unfold second_check. repeat case_match; intros [= <- <-]; done. Qed.

Lemma own_process i c a :
  a_clients a !! i = Some c -> Z.testbit (a_flags c) 3 = true -> a_args c <> [] -> plain_request (a_args c) = true ->
  exists ys q, entered i ys q c a (a_processCommand i a).2 /\
    (q = [] \/ q = [(lookupCommand (default [] (head (a_args c))), a_args c)]).
Proof.
  intros Hc Hm Hne Hp. unfold a_processCommand, the_client. rewrite Hc. change (default nobody (Some c)) with c.
  set (name := default [] (head (a_args c))) in *.
  destruct (is_quit name).
  { exists [], []. split; [|by left]. split; [by rewrite app_nil_r|]. eexists. split; [cbn; rewrite !lookup_alter_eq, Hc; reflexivity|].
    split; cbn [a_watched a_flags a_queue a_out a_with_flags a_with_out]; [done|..|by rewrite app_nil_r|by exists [Shared ok]].
    - rewrite Z.lor_spec. apply orb_false_r.
    - rewrite Z.lor_spec. by rewrite !orb_false_r. }
  cbn [snd]. cbv zeta. set (found := lookupCommand name).
  set (c1 := a_with_lastcmd (a_with_args c (a_args c) found) found). set (a1 := a_upd i _ a).
  assert (a_clients a1 !! i = Some c1) as Hc1 by (cbn; by rewrite lookup_alter_eq, Hc).
  assert (forall ys c2, kept_client true ys c1 c2 -> kept_client false ys c c2) as Hkc by (intros ys c2 []; by split).
  destruct (first_check _ _ _ _ _) as [|flag r] eqn:Hf.
  2: { exists [], []. split; [|by left]. eapply (own_reject i [] c c1 a a1); [done|apply Hkc, kept_refl| |].
       - by rewrite app_nil_r.
       - by eapply first_check_reply. }
  unfold plain_request in Hp. fold name found in Hp. destruct found as [k|] eqn:Hk; [|done].
  destruct (if maxmemory _ then _ else _) as [acts retval]. set (a2 := a_acts i (server_acts acts) a1).
  destruct (framed_acts i i (server_acts acts) a1) as (ys & HT & Hfr); [right; apply server_acts_background|]. fold a2 in HT, Hfr.
  assert (here i a2) as [c2 Hc2] by (apply here_acts; by exists c1).
  destruct (Hfr c2 Hc2) as (c1' & Hc1' & K). assert (c1' = c1) as -> by congruence.
  pose proof (Hkc _ _ K) as K'. rewrite Hc2. change (default nobody (Some c2)) with c2.
  destruct (kc_args _ _ _ _ K eq_refl) as [Ha Hcm]. cbn in Ha, Hcm. rewrite Hcm. change (default (Cmd [] execCommand_ 0 0) (Some k)) with k.
  destruct (_ && _).
  { exists ys, []. split; [|by left]. by eapply own_reject. }
  destruct (second_check _ _ _ _) as [|flag r] eqn:Hs.
  2: { exists ys, []. split; [|by left]. eapply own_reject; [done..|]. by eapply second_check_reply. }
  exists ys, [(Some k, a_args c)]. split; [|by right]. unfold a_dispatch, the_client. rewrite Hc2. change (default nobody (Some c2)) with c2.
  destruct K' as [K1 K2 _ (K4 & _) K5 (rs & K6)]. rewrite has_multi, K4, Hm, Hp. cbn [andb]. split; [done|].
  eexists. split; [cbn; rewrite !lookup_alter_eq, Hc2; reflexivity|].
  split; cbn [a_watched a_flags a_queue a_out a_with_out a_with_queue]; [done..| |].
  - by rewrite K2, Hcm, Ha.
  - exists (rs ++ [Shared queued]). split; [by rewrite K6, app_assoc|]. by rewrite last_snoc_reply.
Qed.

Lemma own_request i c args a :
  a_clients a !! i = Some c -> Z.testbit (a_flags c) 3 = true -> plain_request args = true ->
  exists ys q, entered i ys q c a (a_request i args a) /\ (q = [] \/ q = [(lookupCommand (default [] (head args)), args)]).
Proof.
  intros Hc Hm Hp. unfold a_request, the_client. rewrite Hc. change (default nobody (Some c)) with c.
  assert (own [] [] c c) as Hself.
  { split; [done..|by rewrite orb_false_r|by rewrite app_nil_r|]. exists []. by rewrite app_nil_r. }
  case_match; [|case_match].
  1-2: exists [], []; split; [|by left]; split; [by rewrite app_nil_r|]; by exists c.
  cbv zeta. set (c1 := a_with_args c args (a_cmd c)). set (a1 := a_upd i _ a).
  assert (a_clients a1 !! i = Some c1) as Hc1 by (cbn; by rewrite lookup_alter_eq, Hc).
  assert (forall ys q a2, entered i ys q c1 a1 a2 -> entered i ys q c a (a_reset i a2)) as Hreset.
  { intros ys q a2 [HT (c2 & Hc2 & [W1 W2 W3 W4 W5])]. split; [done|].
    eexists. split; [cbn; rewrite lookup_alter_eq, Hc2; reflexivity|]. cbn [a_flags a_with_args].
    case_match; split; cbn [a_watched a_flags a_queue a_out a_with_args a_with_flags]; try done.
    - rewrite testbit_clear, W2 by done. apply andb_true_r.
    - rewrite testbit_clear, W3 by done. apply andb_true_r. }
  destruct args as [|name args].
  - exists [], []. split; [|by left]. apply Hreset. split; [by rewrite app_nil_r|]. exists c1. split; [done|]. by destruct Hself.
  - destruct (own_process i c1 a1 Hc1 Hm) as (ys & q & He & Hq); [done|done|].
    destruct (a_processCommand i a1) as [fine a2] eqn:Ep. cbn [snd] in He. exists ys, q. split; [|done].
    destruct fine; [by apply Hreset|]. destruct He as [HT (c2 & Hc2 & [])]. split; [done|]. exists c2. split; [done|by split].
Qed.

(** ** The theorems *)
Definition initial (n : nat) (r : rest) : server := Server ∅ ∅ (replicate n ∅) [] [] r.
Definition a_initial (n : nat) (r : rest) : aserver := AServer ∅ n r.

Lemma table_refs_empty n : table_refs (replicate n ∅) = [].
Proof. unfold table_refs. induction n as [|n IH]; [done|]. cbn [replicate]. by rewrite bind_cons, map_to_list_empty, IH. Qed.

Lemma initial_ok n r : (0 < n)%nat -> wf None [] (initial n r) /\ rel None (initial n r) (a_initial n r) /\ idle (a_initial n r).
Proof.
  intros Hn. split; [|split].
  - split; try done.
    + intros l. change (refs None (initial n r)) with ([] ++ table_refs (replicate n ∅) ++ []).
      by rewrite table_refs_empty.
    + assert (forall d k, watchers (replicate n ∅) d k = None) as Hw.
      { intros d k. unfold watchers. destruct (replicate n ∅ !! d) as [t|] eqn:Ht; [|done].
        apply lookup_replicate in Ht as [-> _]. apply lookup_empty. }
      split; cbn; intros *; by rewrite ?lookup_empty, ?Hw.
    + cbn. by rewrite length_replicate.
  - split; cbn; [done|by rewrite length_replicate|]. intros i. by rewrite !lookup_empty.
  - intros i c. cbn. by rewrite lookup_empty.
Qed.

(** C8: from its start, whatever the clients send and in whatever order they
    come and go, the server runs: no object is used after it was freed, no
    assertion fails and EXEC returns. Every object is counted exactly, the
    tables of watched keys and the lists of the clients agree, and the state is
    the one of the specification, in which a command sees texts instead of
    counted objects, a touch marks every client that watches the key and EXEC
    runs the queued commands one after the other. *)
Theorem server_refines n r es :
  (0 < n)%nat ->
  exists s, run es (initial n r) = Some (tt, s) /\ wf None [] s /\ rel None s (a_run es (a_initial n r)).
Proof.
  intros Hn. destruct (initial_ok n r Hn) as (W & R & Hid).
  destruct (events_spec es [] _ _ W R Hid) as (s & E1 & _ & W1 & R1). eauto.
Qed.

(** The replies that a client got, and the commands it was told are queued. *)
Definition new_replies (i : nat) (s s' : server) : list reply :=
  match clients s !! i, clients s' !! i with
  | Some c, Some c' => drop (length (out c)) (out c')
  | _, _ => []
  end.
Definition queued_request (i : nat) (e : event) (s s' : server) : list (option redisCommand * list (list Z)) :=
  match e with
  | Request j args => if bool_decide (j = i) && answer_queued (new_replies i s s')
                      then [(lookupCommand (default [] (head args)), args)] else []
  | _ => []
  end.
Fixpoint queued_by (i : nat) (es : list event) (s : server) : list (option redisCommand * list (list Z)) :=
  match es with
  | [] => []
  | e :: es => match step e s with
               | Some (_, s') => queued_request i e s s' ++ queued_by i es s'
               | None => []
               end
  end.

(** The events of others, and requests of the client for commands that a
    transaction queues. *)
Definition queues_only (i : nat) (e : event) : bool :=
  match e with
  | Request j args => negb (bool_decide (j = i)) || plain_request args
  | Connect j | Disconnect j => negb (bool_decide (j = i))
  end.

Definition tracked (i : nat) (es : list event) (s s' : server) (ys : list touch) : Prop :=
  touches (the_rest s') = touches (the_rest s) ++ ys /\ (clients s !! i = None -> clients s' !! i = None) /\
  forall c c', clients s !! i = Some c -> Z.testbit (flags c) 3 = true -> clients s' !! i = Some c' ->
    map (wkey (heap s')) (watched_keys c') = map (wkey (heap s)) (watched_keys c) /\
    Z.testbit (flags c') 3 = true /\
    Z.testbit (flags c') 5 = Z.testbit (flags c) 5 || hit ys (map (wkey (heap s)) (watched_keys c)) /\
    abs_queue (heap s') (mstate c') = abs_queue (heap s) (mstate c) ++ queued_by i es s.

Lemma abs_client_none h i c :
  abs_client h None i c = AClient (flags c) (db c) (map (txt h) (argv c)) (cmd c) (lastcmd c) (authenticated c)
    (map (wkey h) (watched_keys c)) (abs_queue h (mstate c)) (out c).
Proof. unfold abs_client. by rewrite decide_False. Qed.

Lemma request_absent i args a : a_clients a !! i = None -> a_step (Request i args) a = a.
Proof. intros H. cbn. rewrite bool_decide_eq_false_2; [done|]. rewrite H. by intros []. Qed.

Lemma tracked_step i e s a s1 :
  wf None [] s -> rel None s a -> step e s = Some (tt, s1) -> rel None s1 (a_step e a) -> queues_only i e = true ->
  exists ys, tracked i [e] s s1 ys.
Proof.
  intros W R E1 R1 Hq. pose proof (rel_rest _ _ _ R) as T. pose proof (rel_rest _ _ _ R1) as T1.
  pose proof (rel_clients _ _ _ R i) as Ci. pose proof (rel_clients _ _ _ R1 i) as C1i.
  unfold tracked. cbn [queued_by]. rewrite E1, app_nil_r, <- T, <- T1.
  destruct (by_client i e) eqn:Hb.
  - destruct e as [j|j|j args]; cbn in Hb, Hq; rewrite Hb in Hq; try done. apply bool_decide_eq_true_1 in Hb as ->. cbn in Hq.
    destruct (clients s !! i) as [c|] eqn:Hc; cbn in Ci.
    + destruct (Z.testbit (flags c) 3) eqn:Hm.
      * destruct (own_request i (abs_client (heap s) None i c) args a Ci Hm Hq) as (ys & q & [HT (ac & Hac & [O1 O2 O3 O4 (rs & O5 & O6)])] & Hqs).
        cbn [a_step] in *. rewrite bool_decide_eq_true_2 in * by (by rewrite Ci). exists ys. split; [done|]. split; [done|].
        intros c0 c1 [= <-] _ Hc1. rewrite Hc1, Hac in C1i. injection C1i as ->. rewrite !abs_client_none in *.
        cbn [a_watched a_flags a_queue a_out] in *. rewrite O1, O2, O3, O4. split; [done|]. split; [done|]. split; [done|]. f_equal.
        cbn [queued_request]. rewrite bool_decide_eq_true_2 by done. unfold new_replies. rewrite Hc, Hc1, O5, drop_app_length, O6.
        by destruct Hqs as [->| ->].
      * destruct (framed_step (S i) (Request i args) a) as (ys & HT & _); [apply bool_decide_eq_false_2; lia|].
        exists ys. split; [done|]. split; [done|]. intros c0 c1 [= <-]. by rewrite Hm.
    + rewrite request_absent in * by done. exists []. rewrite app_nil_r. split; [done|]. split; [|done].
      intros _. rewrite Ci in C1i. by destruct (clients s1 !! i).
  - destruct (framed_step i e a Hb) as (ys & HT & Hf). exists ys. split; [done|]. split.
    + intros Hc. rewrite Hc in Ci. cbn in Ci. destruct (clients s1 !! i) as [c1|] eqn:Hc1; [|done].
      cbn in C1i. destruct (Hf _ C1i) as (c & Hc' & _). congruence.
    + intros c c1 Hc Hm Hc1. rewrite Hc in Ci. rewrite Hc1 in C1i. cbn in Ci, C1i.
      destruct (Hf _ C1i) as (ac & Hac & [K1 K2 _ (K4 & _) K5 _]). rewrite Ci in Hac. injection Hac as <-.
      rewrite !abs_client_none in *. cbn [a_watched a_flags a_queue] in *. rewrite K1, K4, K5, K2. split; [done|].
      split; [done|]. split; [done|]. assert (queued_request i e s s1 = []) as ->; [|by rewrite app_nil_r].
      destruct e as [j|j|j args]; try done. cbn in Hb. cbn [queued_request]. by rewrite Hb.
Qed.

Lemma tracked_cons i e es s s1 s2 ys ys' :
  step e s = Some (tt, s1) -> tracked i [e] s s1 ys -> tracked i es s1 s2 ys' -> tracked i (e :: es) s s2 (ys ++ ys').
Proof.
  intros E1 (T1 & N1 & H1) (T2 & N2 & H2). split; [by rewrite T2, T1, app_assoc|]. split; [auto|].
  intros c c2 Hc Hm Hc2. destruct (clients s1 !! i) as [c1|] eqn:Hc1; [|by rewrite N2 in Hc2].
  destruct (H1 c c1 Hc Hm eq_refl) as (W1 & M1 & C1 & Q1). destruct (H2 c1 c2 eq_refl M1 Hc2) as (W2 & M2 & C2 & Q2).
  split; [congruence|]. split; [done|]. cbn [queued_by] in *. rewrite E1, app_nil_r in *. split.
  - rewrite C2, C1, W1. unfold hit. by rewrite existsb_app, orb_assoc.
  - by rewrite Q2, Q1, app_assoc.
Qed.

Lemma tracked_run i es : forall s a,
  wf None [] s -> rel None s a -> idle a -> forallb (queues_only i) es = true ->
  exists s' ys, run es s = Some (tt, s') /\ tracked i es s s' ys.
Proof.
  induction es as [|e es IH]; intros s a W R Hid Hq.
  - exists s, []. split; [done|]. split; [by rewrite app_nil_r|]. split; [done|]. intros c c' Hc Hm Hc'. rewrite Hc in Hc'.
    injection Hc' as <-. cbn. by rewrite orb_false_r, app_nil_r.
  - cbn in Hq. apply andb_prop in Hq as [He Hq]. destruct (step_spec [] s a e W R Hid) as (s1 & E1 & _ & W1 & R1).
    destruct (tracked_step i e s a s1 W R E1 R1 He) as (ys & T1).
    destruct (IH s1 _ W1 R1 (idle_step e a Hid) Hq) as (s2 & ys' & E2 & T2).
    exists s2, (ys ++ ys'). split; [|by eapply tracked_cons]. unfold run. cbn [each]. by rewrite (bind_run _ _ _ _ _ E1).
Qed.

(** C10: while a client is between MULTI and EXEC it is marked as soon as, and
    only if, one of the keys it watches is touched, by any client, in any order
    of the requests of all clients; and its queue holds exactly the requests
    that were answered QUEUED, in their order. *)
Theorem watched_keys_are_guarded n r es0 es i s c :
  (0 < n)%nat -> run es0 (initial n r) = Some (tt, s) -> clients s !! i = Some c ->
  has (flags c) REDIS_MULTI = true -> forallb (queues_only i) es = true ->
  exists s' ys, run es s = Some (tt, s') /\ touches (the_rest s') = touches (the_rest s) ++ ys /\
    forall c', clients s' !! i = Some c' ->
      has (flags c') REDIS_DIRTY_CAS =
        has (flags c) REDIS_DIRTY_CAS || hit ys (map (wkey (heap s)) (watched_keys c)) /\
      abs_queue (heap s') (mstate c') = abs_queue (heap s) (mstate c) ++ queued_by i es s.
Proof.
  intros Hn E0 Hc Hm Hq. destruct (initial_ok n r Hn) as (W0 & R0 & I0).
  destruct (events_spec es0 [] _ _ W0 R0 I0) as (s0 & E0' & _ & W & R). rewrite E0' in E0. injection E0 as ->.
  destruct (tracked_run i es s _ W R (idle_run es0 _ I0) Hq) as (s' & ys & E1 & T & _ & H).
  exists s', ys. split; [done|]. split; [done|]. intros c' Hc'. rewrite has_multi in Hm.
  destruct (H c c' Hc Hm Hc') as (_ & _ & H5 & HQ). by rewrite !has_cas.
Qed.

Lemma land_clear x m : Z.land (clear x m) m = 0.
Proof.
  apply Z.bits_inj'. intros n Hn. rewrite Z.land_spec, testbit_clear, Z.bits_0 by done.
  destruct (Z.testbit x n), (Z.testbit m n); done.
Qed.

Lemma monitor_rest i a :
  let a' := a_monitor i a in a_clients a' = a_clients a /\ env (a_rest a') = env (a_rest a) /\
  dirty (a_rest a') = dirty (a_rest a) /\ stream (a_rest a') = stream (a_rest a) /\ aof (a_rest a') = aof (a_rest a) /\
  touches (a_rest a') = touches (a_rest a).
Proof. unfold a_monitor. by case_match. Qed.

(** The state of the data set and of its propagation. *)
Definition effects (r : rest) : E * Z * list entry * list entry * list touch :=
  (env r, dirty r, stream r, aof r, touches r).

(** The state in which EXEC starts to run the queue. *)
Definition exec_start_state (i : nat) (n : nat) (a : aserver) : aserver :=
  a_reply i (MultiBulkLen (Z.of_nat n)) (a_upd i (fun c => a_with_queue (a_with_watched c []) []) a).

Lemma exec_unfold i a ac :
  a_clients a !! i = Some ac -> has (a_flags ac) REDIS_MULTI = true ->
  a_execCommand (a_call 1) i a =
    if has (a_flags ac) (Z.lor REDIS_DIRTY_CAS REDIS_DIRTY_EXEC) then
      a_monitor i (a_discard i (a_reply i (Shared (if has (a_flags ac) REDIS_DIRTY_EXEC then execaborterr else nullmultibulk)) a))
    else
      let '(written, a') := a_exec (a_call 1) i (a_queue ac) false (exec_start_state i (length (a_queue ac)) a) in
      a_monitor i (a_on_rest (if written : bool then r_dirty (fun d => int64 (d + 1)) else fun r => r)
        (a_discard i (a_upd i (fun x => a_with_args x (a_args ac) (a_cmd ac)) a'))).
Proof.
  intros H Hm. unfold a_execCommand, the_client. rewrite H. change (default nobody (Some ac)) with ac. rewrite Hm. cbn [negb].
  destruct (has _ (Z.lor _ _)); [done|]. unfold exec_start_state, a_unwatch. rewrite a_upd_upd.
  destruct (a_exec _ _ _ _ _) as [written a']. by rewrite a_rest_if.
Qed.

(** A client that left its transaction. *)
Lemma left_transaction h i c c2 :
  abs_client h None i c = a_with_watched (a_with_queue (a_with_flags c2 (clear (a_flags c2) tx_flags)) []) [] ->
  mstate c = [] /\ watched_keys c = [] /\ Z.land (flags c) tx_flags = 0 /\ out c = a_out c2.
Proof.
  intros H. rewrite abs_client_none in H. injection H as -> _ _ _ _ _ X1%map_eq_nil X2%map_eq_nil ->.
  split; [done|]. split; [done|]. split; [apply land_clear|done].
Qed.

(** C11: EXEC runs all commands of the queue, each on the state that the one
    before left and with nothing in between, or none of them when the client is
    marked: then it changes neither data nor replication and replies nil, or an
    error when a command was refused. In both cases the client is out of the
    transaction, with an empty queue and no watched key. *)
Theorem exec_all_or_nothing t s a i c :
  wf None t s -> rel None s a -> busy i a -> clients s !! i = Some c -> has (flags c) REDIS_MULTI = true ->
  exists s' c', execCommand (call 1) i s = Some (tt, s') /\ clients s' !! i = Some c' /\ wf None t s' /\
    mstate c' = [] /\ watched_keys c' = [] /\ Z.land (flags c') tx_flags = 0 /\
    if has (flags c) (Z.lor REDIS_DIRTY_CAS REDIS_DIRTY_EXEC) then
      effects (the_rest s') = effects (the_rest s) /\
      out c' = out c ++ [Shared (if has (flags c) REDIS_DIRTY_EXEC then execaborterr else nullmultibulk)]
    else
      let '(written, a') := a_exec (a_call 1) i (abs_queue (heap s) (mstate c)) false
                              (exec_start_state i (length (mstate c)) a) in
      effects (the_rest s') = effects (if written : bool then r_dirty (fun d => int64 (d + 1)) (a_rest a') else a_rest a') /\
      out c' = a_out (the_client i a').
Proof.
  intros W R Hb Hc Hm. destruct (exec_spec i (call 1) (a_call 1)) with (t := t) (s := s) (a := a) as [(s' & E1 & _ & W1 & R1) Hb1]; try done.
  { intros t' s' a' k' W' R' H' Hk' Hp'. by eapply call_one. }
  assert (a_clients a !! i = Some (abs_client (heap s) None i c)) as Hac by (by rewrite (rel_clients _ _ _ R), Hc).
  destruct Hb1 as (ac' & k' & Hac' & _). pose proof (rel_clients _ _ _ R1 i) as C1. rewrite Hac' in C1.
  destruct (clients s' !! i) as [c'|] eqn:Hc'; [|done]. injection C1 as C1.
  exists s', c'. split; [done|]. split; [done|]. split; [done|]. subst ac'.
  pose proof (rel_rest _ _ _ R1) as T1. pose proof (rel_rest _ _ _ R) as T.
  rewrite (exec_unfold i a _ Hac Hm) in Hac', T1. rewrite abs_client_none in Hac', T1. cbn [a_flags a_queue a_args a_cmd] in Hac', T1.
  destruct (has (flags c) (Z.lor REDIS_DIRTY_CAS REDIS_DIRTY_EXEC)).
  - destruct (monitor_rest i (a_discard i (a_reply i (Shared (if has (flags c) REDIS_DIRTY_EXEC then execaborterr else nullmultibulk)) a)))
      as (M0 & M1 & M2 & M3 & M4 & M5).
    rewrite M0 in Hac'. cbn in Hac'. rewrite !lookup_alter_eq, Hac in Hac'. apply (inj Some) in Hac' as X.
    destruct (left_transaction _ _ _ _ (eq_sym X)) as (H1 & H2 & H3 & H4). split; [done|]. split; [done|]. split; [done|]. split; [|done].
    unfold effects. by rewrite <- T1, <- T, M1, M2, M3, M4, M5.
  - replace (length (abs_queue (heap s) (mstate c))) with (length (mstate c)) in Hac', T1 by (symmetry; apply length_map). destruct (a_exec _ _ _ _ _) as [written a'].
    set (a2 := a_on_rest _ _) in *. destruct (monitor_rest i a2) as (M0 & M1 & M2 & M3 & M4 & M5).
    rewrite M0 in Hac'. cbn in Hac'. rewrite !lookup_alter_eq in Hac'. destruct (a_clients a' !! i) as [c2|] eqn:Hc2; [|done].
    apply (inj Some) in Hac' as X. destruct (left_transaction _ _ _ _ (eq_sym X)) as (H1 & H2 & H3 & H4).
    split; [done|]. split; [done|]. split; [done|]. split.
    + unfold effects. rewrite <- T1, M1, M2, M3, M4, M5. by destruct written.
    + unfold the_client. by rewrite Hc2.
Qed.

End Server.
End Multi.
