(* ===== verification/Commands.v ===== *)
(** * The command table (src/redis-2.8/src/redis.c)

    The table of commands with their arity and flags, [populateCommandTable]
    that builds the dictionaries [server.commands] and [server.orig_commands],
    and a server with this table on which the theorems of [Multi] are applied.
    It is a server for the witnesses: SET and GET work on a small keyspace of
    names, SAVE is [saveCommand] of rdb.c, and the other commands do nothing. *)
From stdpp Require Import base tactics list numbers option gmap fin_maps strings.
From Stdlib Require Import ZArith Ascii Lia.
From S2P Require Import Prelude Glob Multi.
Import CInt StateM Multi.
Open Scope redis_scope.
Open Scope Z_scope.

Module Commands.

Definition REDIS_CMD_ADMIN : Z := 16.
Definition REDIS_CMD_PUBSUB : Z := 32.
Definition REDIS_CMD_NOSCRIPT : Z := 64.
Definition REDIS_CMD_RANDOM : Z := 128.
Definition REDIS_CMD_SORT_FOR_SCRIPT : Z := 256.

(** Name, function, arity and flags of a command. *)
Record row := Row { r_name : string; r_proc : proc; r_arity : Z; r_sflags : string }.
Definition redisCommandTable : list row :=
  [ Row "get" (other "getCommand") 2 "rF"; Row "set" (other "setCommand") (-3) "wm";
    Row "setnx" (other "setnxCommand") 3 "wmF"; Row "setex" (other "setexCommand") 4 "wm";
    Row "psetex" (other "psetexCommand") 4 "wm"; Row "append" (other "appendCommand") 3 "wm";
    Row "strlen" (other "strlenCommand") 2 "rF"; Row "del" (other "delCommand") (-2) "w";
    Row "exists" (other "existsCommand") 2 "rF"; Row "setbit" (other "setbitCommand") 4 "wm";
    Row "getbit" (other "getbitCommand") 3 "rF"; Row "setrange" (other "setrangeCommand") 4 "wm";
    Row "getrange" (other "getrangeCommand") 4 "r"; Row "substr" (other "getrangeCommand") 4 "r";
    Row "incr" (other "incrCommand") 2 "wmF"; Row "decr" (other "decrCommand") 2 "wmF";
    Row "mget" (other "mgetCommand") (-2) "r"; Row "rpush" (other "rpushCommand") (-3) "wmF";
    Row "lpush" (other "lpushCommand") (-3) "wmF"; Row "rpushx" (other "rpushxCommand") 3 "wmF";
    Row "lpushx" (other "lpushxCommand") 3 "wmF"; Row "linsert" (other "linsertCommand") 5 "wm";
    Row "rpop" (other "rpopCommand") 2 "wF"; Row "lpop" (other "lpopCommand") 2 "wF";
    Row "brpop" (other "brpopCommand") (-3) "ws"; Row "brpoplpush" (other "brpoplpushCommand") 4 "wms";
    Row "blpop" (other "blpopCommand") (-3) "ws"; Row "llen" (other "llenCommand") 2 "rF";
    Row "lindex" (other "lindexCommand") 3 "r"; Row "lset" (other "lsetCommand") 4 "wm";
    Row "lrange" (other "lrangeCommand") 4 "r"; Row "ltrim" (other "ltrimCommand") 4 "w";
    Row "lrem" (other "lremCommand") 4 "w"; Row "rpoplpush" (other "rpoplpushCommand") 3 "wm";
    Row "sadd" (other "saddCommand") (-3) "wmF"; Row "srem" (other "sremCommand") (-3) "wF";
    Row "smove" (other "smoveCommand") 4 "wF"; Row "sismember" (other "sismemberCommand") 3 "rF";
    Row "scard" (other "scardCommand") 2 "rF"; Row "spop" (other "spopCommand") 2 "wRsF";
    Row "srandmember" (other "srandmemberCommand") (-2) "rR"; Row "sinter" (other "sinterCommand") (-2) "rS";
    Row "sinterstore" (other "sinterstoreCommand") (-3) "wm"; Row "sunion" (other "sunionCommand") (-2) "rS";
    Row "sunionstore" (other "sunionstoreCommand") (-3) "wm"; Row "sdiff" (other "sdiffCommand") (-2) "rS";
    Row "sdiffstore" (other "sdiffstoreCommand") (-3) "wm"; Row "smembers" (other "sinterCommand") 2 "rS";
    Row "sscan" (other "sscanCommand") (-3) "rR"; Row "zadd" (other "zaddCommand") (-4) "wmF";
    Row "zincrby" (other "zincrbyCommand") 4 "wmF"; Row "zrem" (other "zremCommand") (-3) "wF";
    Row "zremrangebyscore" (other "zremrangebyscoreCommand") 4 "w";
    Row "zremrangebyrank" (other "zremrangebyrankCommand") 4 "w";
    Row "zremrangebylex" (other "zremrangebylexCommand") 4 "w";
    Row "zunionstore" (other "zunionstoreCommand") (-4) "wm";
    Row "zinterstore" (other "zinterstoreCommand") (-4) "wm"; Row "zrange" (other "zrangeCommand") (-4) "r";
    Row "zrangebyscore" (other "zrangebyscoreCommand") (-4) "r";
    Row "zrevrangebyscore" (other "zrevrangebyscoreCommand") (-4) "r";
    Row "zrangebylex" (other "zrangebylexCommand") (-4) "r";
    Row "zrevrangebylex" (other "zrevrangebylexCommand") (-4) "r"; Row "zcount" (other "zcountCommand") 4 "rF";
    Row "zlexcount" (other "zlexcountCommand") 4 "rF"; Row "zrevrange" (other "zrevrangeCommand") (-4) "r";
    Row "zcard" (other "zcardCommand") 2 "rF"; Row "zscore" (other "zscoreCommand") 3 "rF";
    Row "zrank" (other "zrankCommand") 3 "rF"; Row "zrevrank" (other "zrevrankCommand") 3 "rF";
    Row "zscan" (other "zscanCommand") (-3) "rR"; Row "hset" (other "hsetCommand") 4 "wmF";
    Row "hsetnx" (other "hsetnxCommand") 4 "wmF"; Row "hget" (other "hgetCommand") 3 "rF";
    Row "hmset" (other "hmsetCommand") (-4) "wm"; Row "hmget" (other "hmgetCommand") (-3) "r";
    Row "hincrby" (other "hincrbyCommand") 4 "wmF"; Row "hincrbyfloat" (other "hincrbyfloatCommand") 4 "wmF";
    Row "hdel" (other "hdelCommand") (-3) "wF"; Row "hlen" (other "hlenCommand") 2 "rF";
    Row "hkeys" (other "hkeysCommand") 2 "rS"; Row "hvals" (other "hvalsCommand") 2 "rS";
    Row "hgetall" (other "hgetallCommand") 2 "r"; Row "hexists" (other "hexistsCommand") 3 "rF";
    Row "hscan" (other "hscanCommand") (-3) "rR"; Row "incrby" (other "incrbyCommand") 3 "wmF";
    Row "decrby" (other "decrbyCommand") 3 "wmF"; Row "incrbyfloat" (other "incrbyfloatCommand") 3 "wmF";
    Row "getset" (other "getsetCommand") 3 "wm"; Row "mset" (other "msetCommand") (-3) "wm";
    Row "msetnx" (other "msetnxCommand") (-3) "wm"; Row "randomkey" (other "randomkeyCommand") 1 "rR";
    Row "select" (other "selectCommand") 2 "rlF"; Row "move" (other "moveCommand") 3 "wF";
    Row "rename" (other "renameCommand") 3 "w"; Row "renamenx" (other "renamenxCommand") 3 "wF";
    Row "expire" (other "expireCommand") 3 "wF"; Row "expireat" (other "expireatCommand") 3 "wF";
    Row "pexpire" (other "pexpireCommand") 3 "wF"; Row "pexpireat" (other "pexpireatCommand") 3 "wF";
    Row "keys" (other "keysCommand") 2 "rS"; Row "scan" (other "scanCommand") (-2) "rR";
    Row "dbsize" (other "dbsizeCommand") 1 "rF"; Row "auth" authCommand_ 2 "rsltF";
    Row "ping" pingCommand_ (-1) "rtF"; Row "echo" (other "echoCommand") 2 "rF";
    Row "save" (other "saveCommand") 1 "ars"; Row "bgsave" (other "bgsaveCommand") 1 "ar";
    Row "bgrewriteaof" (other "bgrewriteaofCommand") 1 "ar"; Row "shutdown" shutdownCommand_ (-1) "arlt";
    Row "lastsave" (other "lastsaveCommand") 1 "rRF"; Row "type" (other "typeCommand") 2 "rF";
    Row "multi" multiCommand_ 1 "rsF"; Row "exec" execCommand_ 1 "sM"; Row "discard" discardCommand_ 1 "rsF";
    Row "sync" (other "syncCommand") 1 "ars"; Row "psync" (other "syncCommand") 3 "ars";
    Row "replconf" replconfCommand_ (-1) "arslt"; Row "flushdb" (other "flushdbCommand") 1 "w";
    Row "flushall" (other "flushallCommand") 1 "w"; Row "sort" (other "sortCommand") (-2) "wm";
    Row "info" (other "infoCommand") (-1) "rlt"; Row "monitor" (other "monitorCommand") 1 "ars";
    Row "ttl" (other "ttlCommand") 2 "rF"; Row "pttl" (other "pttlCommand") 2 "rF";
    Row "persist" (other "persistCommand") 2 "wF"; Row "slaveof" (other "slaveofCommand") 3 "ast";
    Row "role" (other "roleCommand") 1 "last"; Row "debug" (other "debugCommand") (-2) "as";
    Row "config" (other "configCommand") (-2) "art"; Row "subscribe" subscribeCommand_ (-2) "rpslt";
    Row "unsubscribe" unsubscribeCommand_ (-1) "rpslt"; Row "psubscribe" psubscribeCommand_ (-2) "rpslt";
    Row "punsubscribe" punsubscribeCommand_ (-1) "rpslt"; Row "publish" (other "publishCommand") 3 "pltrF";
    Row "pubsub" (other "pubsubCommand") (-2) "pltrR"; Row "watch" watchCommand_ (-2) "rsF";
    Row "unwatch" unwatchCommand_ 1 "rsF"; Row "restore" (other "restoreCommand") 4 "awm";
    Row "migrate" (other "migrateCommand") 6 "aw"; Row "dump" (other "dumpCommand") 2 "ar";
    Row "object" (other "objectCommand") 3 "r"; Row "client" (other "clientCommand") (-2) "ars";
    Row "eval" (other "evalCommand") (-3) "s"; Row "evalsha" (other "evalShaCommand") (-3) "s";
    Row "slowlog" (other "slowlogCommand") (-2) "r"; Row "script" scriptCommand_ (-2) "ras";
    Row "time" (other "timeCommand") 1 "rRF"; Row "bitop" (other "bitopCommand") (-4) "wm";
    Row "bitcount" (other "bitcountCommand") (-2) "r"; Row "bitpos" (other "bitposCommand") (-3) "r";
    Row "command" (other "commandCommand") 0 "rlt"; Row "pfselftest" (other "pfselftestCommand") 1 "r";
    Row "pfadd" (other "pfaddCommand") (-2) "wmF"; Row "pfcount" (other "pfcountCommand") (-2) "w";
    Row "pfmerge" (other "pfmergeCommand") (-2) "wm"; Row "pfdebug" (other "pfdebugCommand") (-3) "w";
    Row "latency" (other "latencyCommand") (-2) "arslt" ].

(** The name of a command is found whatever its case. *)
Definition key_of (name : list Z) : list Z := map Glob.tolower name.
Definition table := gmap (list Z) redisCommand.

(** [*f] of [sflags]; [redisPanic] for any other. *)
Definition flag_of (f : Ascii.ascii) : option Z :=
  match f with
  | "w" => Some REDIS_CMD_WRITE
  | "r" => Some REDIS_CMD_READONLY
  | "m" => Some REDIS_CMD_DENYOOM
  | "a" => Some REDIS_CMD_ADMIN
  | "p" => Some REDIS_CMD_PUBSUB
  | "s" => Some REDIS_CMD_NOSCRIPT
  | "R" => Some REDIS_CMD_RANDOM
  | "S" => Some REDIS_CMD_SORT_FOR_SCRIPT
  | "l" => Some REDIS_CMD_LOADING
  | "t" => Some REDIS_CMD_STALE
  | "M" => Some REDIS_CMD_SKIP_MONITOR
  | "F" => Some REDIS_CMD_FAST
  | _ => None
  end%char.

Definition parse_flags : list Ascii.ascii -> Z -> option Z :=
  fix go f fl := match f with [] => Some fl | x :: f => m ← flag_of x; go f (Z.lor fl m) end.

(** [dictAdd]: [None] when the key is there. *)
Definition table_add (t : table) (name : list Z) (k : redisCommand) : option table :=
  match t !! key_of name with Some _ => None | None => Some (<[key_of name := k]> t) end.

Definition populate_row (r : row) (ts : table * table) : option (table * table) :=
  fl ← parse_flags (String.list_ascii_of_string (r_sflags r)) 0;
  let k := Cmd (text (r_name r)) (r_proc r) (r_arity r) fl in
  t1 ← table_add ts.1 (text (r_name r)) k;
  t2 ← table_add ts.2 (text (r_name r)) k;
  Some (t1, t2).

Fixpoint populate_rows (l : list row) (ts : table * table) : option (table * table) :=
  match l with [] => Some ts | r :: l => ts ← populate_row r ts; populate_rows l ts end.
Definition populateCommandTable : option (table * table) := populate_rows redisCommandTable (∅, ∅).

Definition server_commands : table := default ∅ (fst <$> populateCommandTable).

(** ** A server with this table *)
Record keyspace := Keyspace { k_conf : config; k_clock : Z; k_keys : list (nat * list Z) }.

Definition k_exists (e : keyspace) (d : nat) (k : list Z) : bool := bool_decide ((d, k) ∈ k_keys e).
Definition k_ustime (e : keyspace) : Z * keyspace := (k_clock e, Keyspace (k_conf e) (k_clock e + 1) (k_keys e)).
Definition k_set (e : keyspace) (d : nat) (k : list Z) : keyspace := Keyspace (k_conf e) (k_clock e) ((d, k) :: k_keys e).

(** SAVE, with the answer of [rdbSave], which sets [server.dirty] to zero once
    the file is in its place. *)
Definition saveCommand (rdb_child saved : bool) (i : nat) : list (act (E := keyspace)) :=
  if rdb_child then [Reply i (Error (text "Background save already in progress"))]
  else if saved then [Dirty (fun _ => 0); Reply i (Shared ok)]
  else [Reply i (Bytes (text "-ERR" ++ [13; 10]))].

(** A few commands for the witnesses; SAVE succeeds. *)
Definition k_command (p : proc) (v : view) (e : keyspace) : list act :=
  if bool_decide (p = other "setCommand") then
    match v_args v with
    | _ :: k :: _ => [Change (k_set e (v_db v) k); Signal (v_db v) k; Dirty (fun d => d + 1); Reply (v_client v) (Shared ok)]
    | _ => []
    end
  else if bool_decide (p = other "saveCommand") then saveCommand false true (v_client v)
  else if bool_decide (p = other "getCommand") then [Reply (v_client v) (Bytes (text "$-1"))]
  else [].

Definition find (name : list Z) : option redisCommand := server_commands !! key_of name.

Definition serve : list event -> StateM.M (server (E := keyspace)) unit :=
  run k_conf k_exists find find k_ustime (fun _ _ e => e) (fun _ _ e => e) k_command (fun _ => ([], true)) (fun _ => []).

(** A master, and a slave that only reads, with three changes to be saved. *)
Definition settings (slave : bool) : config :=
  Config false false true 3 false false [] slave 0 10 0 true true true false false None true 0 0.
Definition before (slave : bool) : rest := Rest 3 [] [] [] 0 ∅ [] (Keyspace (settings slave) 0 []).

Definition request (i : nat) (words : list string) : event := Request i (map text words).
Definition names (l : list entry) : list (option (list Z)) := map (fun x => head (e_args x)) l.

Definition after (slave : bool) (es : list event) : server := default (initial 1 (before slave)) (snd <$> serve es (initial 1 (before slave))).
Definition client_of (i : nat) (s : server (E := keyspace)) : client :=
  default (Client 0 0 [] None None false [] [] []) (clients s !! i).

Lemma serve_after slave es :
  bool_decide (is_Some (serve es (initial 1 (before slave)))) = true ->
  serve es (initial 1 (before slave)) = Some (tt, after slave es).
Proof. intros H%bool_decide_eq_true_1. unfold after. by destruct H as [[[] s] ->]. Qed.
Lemma client_of_spec i s : bool_decide (is_Some (clients s !! i)) = true -> clients s !! i = Some (client_of i s).
Proof. intros H%bool_decide_eq_true_1. unfold client_of. by destruct H as [c ->]. Qed.

Lemma after_ok slave es :
  bool_decide (is_Some (serve es (initial 1 (before slave)))) = true ->
  exists a, wf None [] (after slave es) /\ rel None (after slave es) a.
Proof.
  intros H%serve_after.
  destruct (initial_ok 1 (before slave) ltac:(lia)) as (W & R & I).
  destruct (events_spec k_conf k_exists find find k_ustime (fun _ _ e => e) (fun _ _ e => e) k_command
    (fun _ => ([], true)) (fun _ => []) es [] _ _ W R I) as (s & E1 & _ & W1 & R1).
  unfold serve in H. rewrite H in E1. injection E1 as <-. eauto.
Qed.

(** The client whose command EXEC was looked up. *)
Definition about_to_exec (s : server (E := keyspace)) : server :=
  clientd s (heap s) 0 (with_cmd (client_of 0 s) (find (text "EXEC"))).

Lemma found (o : option redisCommand) : bool_decide (is_Some o) = true -> exists k, o = Some k.
Proof. by intros H%bool_decide_eq_true_1. Qed.

Lemma about_to_exec_ok es :
  bool_decide (is_Some (serve es (initial 1 (before false)))) = true ->
  bool_decide (is_Some (clients (after false es) !! 0%nat)) = true ->
  exists a, wf None [] (about_to_exec (after false es)) /\ rel None (about_to_exec (after false es)) a /\ busy 0 a.
Proof.
  intros (a & W & R)%after_ok Hc%client_of_spec. generalize dependent (after false es). intros s W R Hc. unfold about_to_exec.
  destruct (found (find (text "EXEC"))) as [k ->]; [vm_compute; reflexivity|].
  destruct (does_upd find find (fun _ _ e => e) None [] s a 0 (client_of 0 s) (fun c => with_cmd c (Some k))
    (fun c => a_with_args c (a_args c) (Some k)) W R Hc) as (s1 & E1 & _ & W1 & R1); try done.
  { exact (wf_db _ _ _ W _ _ Hc). }
  rewrite (upd_spec _ _ _ _ Hc) in E1. injection E1 as <-. eexists. split; [exact W1|]. split; [exact R1|].
  unfold busy. cbn. rewrite lookup_alter_eq, (rel_clients _ _ _ R), Hc. cbn. by eexists _, k.
Qed.

(** ** The theorems of [Multi] on this server *)
Definition session : list event :=
  [Connect 0; Connect 1; request 0 ["WATCH"; "a"]; request 0 ["MULTI"]; request 0 ["SET"; "b"; "1"]].

Lemma server_refines_witness :
  exists s a, serve session (initial 1 (before false)) = Some (tt, s) /\ wf None [] s /\ rel None s a.
Proof.
  destruct (server_refines k_conf k_exists find find k_ustime (fun _ _ e => e) (fun _ _ e => e) k_command
    (fun _ => ([], true)) (fun _ => []) 1 (before false) session) as (s & H); [lia|]. eauto.
Defined.

(** Another client sets the key that is watched. *)
Lemma watched_keys_are_guarded_witness :
  let s := after false session in
  exists s' ys, serve [request 1 ["SET"; "a"; "1"]; request 0 ["GET"; "a"]] s = Some (tt, s') /\
    touches (the_rest s') = touches (the_rest s) ++ ys /\
    forall c', clients s' !! 0%nat = Some c' ->
      has (flags c') REDIS_DIRTY_CAS =
        has (flags (client_of 0 s)) REDIS_DIRTY_CAS || hit k_exists ys (map (wkey (heap s)) (watched_keys (client_of 0 s))) /\
      abs_queue (heap s') (mstate c') = abs_queue (heap s) (mstate (client_of 0 s)) ++ 
        queued_by k_conf k_exists find find k_ustime (fun _ _ e => e) (fun _ _ e => e) k_command
          (fun _ => ([], true)) (fun _ => []) 0 [request 1 ["SET"; "a"; "1"]; request 0 ["GET"; "a"]] s.
Proof.
  apply (watched_keys_are_guarded k_conf k_exists find find k_ustime (fun _ _ e => e) (fun _ _ e => e) k_command
    (fun _ => ([], true)) (fun _ => []) 1 (before false) session).
  - lia.
  - apply serve_after. vm_compute; reflexivity.
  - apply client_of_spec. vm_compute; reflexivity.
  - vm_compute; reflexivity.
  - vm_compute; reflexivity.
Defined.

Lemma exec_all_or_nothing_witness :
  let s := about_to_exec (after false session) in
  exists s' c', execCommand k_conf find
      (call k_conf k_exists find find k_ustime (fun _ _ e => e) (fun _ _ e => e) k_command 1) 0 s = Some (tt, s') /\
    clients s' !! 0%nat = Some c' /\ mstate c' = [] /\ watched_keys c' = [].
Proof.
  destruct (about_to_exec_ok session) as (a & W & R & B); [vm_compute; reflexivity..|].
  destruct (exec_all_or_nothing k_conf k_exists find find k_ustime (fun _ _ e => e) (fun _ _ e => e) k_command
    [] (about_to_exec (after false session)) a 0 (client_of 0 (about_to_exec (after false session))) W R B)
    as (s' & c' & H1 & H2 & _ & H3 & H4 & _).
  - apply client_of_spec. vm_compute; reflexivity.
  - vm_compute; reflexivity.
  - eauto 6.
Defined.

(** ** What was found *)

(** A transaction that holds SAVE may leave MULTI without EXEC: SAVE sets
    [server.dirty] to zero, and when there were unsaved changes before, here
    three, the one that EXEC adds after its queue does not make up for them, so
    that [call] sees no change. A slave then stays in the transaction. Without
    SAVE the block is complete. *)
Example exec_not_propagated_after_save :
  names (stream (the_rest (after false [Connect 0; request 0 ["MULTI"]; request 0 ["SET"; "a"; "1"]; request 0 ["SAVE"]; request 0 ["EXEC"]])))
    = [Some (text "MULTI"); Some (text "SET")] /\
  names (stream (the_rest (after false [Connect 0; request 0 ["MULTI"]; request 0 ["SET"; "a"; "1"]; request 0 ["EXEC"]])))
    = [Some (text "MULTI"); Some (text "SET"); Some (text "EXEC")].
Proof. split; vm_compute; reflexivity. Qed.

(** a command that is refused while it should be queued does not always
    abort the transaction: on a slave that only reads, SET is refused and EXEC
    runs the rest, whereas an unknown command makes EXEC fail. *)
Theorem refused_write_does_not_abort :
  out (client_of 0 (after true [Connect 0; request 0 ["MULTI"]; request 0 ["SET"; "a"; "1"]; request 0 ["GET"; "a"]; request 0 ["EXEC"]]))
    = [Shared ok; Shared roslaveerr; Shared queued; MultiBulkLen 1; Bytes (text "$-1")] /\
  last (out (client_of 0 (after true [Connect 0; request 0 ["MULTI"]; request 0 ["SETT"; "a"; "1"]; request 0 ["GET"; "a"]; request 0 ["EXEC"]])))
    = Some (Shared execaborterr).
Proof. split; vm_compute; reflexivity. Qed.

End Commands.
