(* ===== verification/Server.v ===== *)
(** * From the bytes of a client to the commands of the server
    (src/redis-2.8/src/networking.c, src/redis-2.8/src/redis.c)

    The parser of [Request] with the [processCommand] of [Multi] in its place:
    [readQueryFromClient] reads bytes into the query buffer of a client, its loop
    cuts them into requests, and every request is processed by the server with
    its counted objects, its transactions and its watched keys. The theorem is
    the composition of the two refinements. *)
From stdpp Require Import base tactics list numbers option relations gmap fin_maps strings.
From Stdlib Require Import ZArith Lia.
From S2P Require Import Prelude Object Request Multi Commands.
Import CInt StateM.
Open Scope redis_scope.
Open Scope Z_scope.

Module Server.

Section Bridge.
Context {E : Type} (conf : E -> Multi.config) (exists_key : E -> nat -> list Z -> bool).
Context (commands orig_commands : list Z -> option Multi.redisCommand).
Context (ustime : E -> Z * E) (latency : list Z -> Z -> E -> E) (slowlog : list (list Z) -> Z -> E -> E).
Context (command : Multi.proc -> Multi.view -> E -> list (Multi.act (E := E))).
Context (freeMemory : E -> list (Multi.act (E := E)) * bool) (unblock : E -> list (Multi.act (E := E))).

Abbreviation server := (Multi.server (E := E)).
Abbreviation step := (Multi.step conf exists_key commands orig_commands ustime latency slowlog command freeMemory unblock).
Abbreviation run := (Multi.run conf exists_key commands orig_commands ustime latency slowlog command freeMemory unblock).
Abbreviation a_request := (Multi.a_request conf exists_key commands orig_commands ustime latency slowlog command freeMemory unblock).
Abbreviation a_run := (Multi.a_run conf exists_key commands orig_commands ustime latency slowlog command freeMemory unblock).

Definition flags_of (i : nat) (w : server) : option Z := Multi.flags <$> Multi.clients w !! i.

(** The answer of [processCommand] is [REDIS_OK] unless the command is QUIT. *)
Definition fine (args : list (list Z)) : bool := negb (Multi.is_quit (default [] (head args))).

(** [processCommand] of the client [i], on the arguments that the parser left
    in it. The step of the server resets its side of the client, the parser the
    other one. *)
Definition processRequest (i : nat) (c : Request.client) (w : server) : option (Request.client * server * bool) :=
  let args := map Request.arg_text (Request.argv c) in
  '(_, w) ← step (Multi.Request i args) w;
  f ← flags_of i w;
  Some (Request.with_flags c f, w, fine args).

(** One request, as the server does it. *)
Definition exec (i : nat) (args : list (list Z)) (x : Z * server) (y : Z * server * bool) : Prop :=
  let '(f', w', ok) := y in
  step (Multi.Request i args) x.2 = Some (tt, w') /\ flags_of i w' = Some f' /\ ok = fine args.

(** The server is in a state that the specification [a] describes, and the
    flags that the parser sees are those of its client. *)
Definition in_state (i : nat) (x : Z * server) (a : Multi.aserver) : Prop :=
  Multi.wf None [] x.2 /\ Multi.rel None x.2 a /\ Multi.idle a /\ flags_of i x.2 = Some x.1.
Definition inv (i : nat) (x : Z * server) : Prop := exists a, in_state i x a.

Lemma flags_abstract i w a f :
  Multi.rel None w a -> flags_of i w = Some f <-> Multi.a_flags <$> Multi.a_clients a !! i = Some f.
Proof. intros R. unfold flags_of. rewrite (Multi.rel_clients _ _ _ R). by destruct (Multi.clients w !! i). Qed.

Lemma has_land x m : Multi.has x m = true <-> Z.land x m <> 0.
Proof. unfold Multi.has. destruct (Z.eqb_spec (Z.land x m) 0); [done|]. by split. Qed.

Lemma reset_twice f :
  Request.reset_flags (if Multi.has f Multi.REDIS_MULTI then f else Multi.clear f Multi.REDIS_ASKING) =
  (if Multi.has f Multi.REDIS_MULTI then f else Multi.clear f Multi.REDIS_ASKING).
Proof.
  unfold Request.reset_flags, Multi.has, Multi.clear, Request.REDIS_MULTI, Multi.REDIS_MULTI, Request.REDIS_ASKING, Multi.REDIS_ASKING.
  destruct (Z.eqb_spec (Z.land f 8) 0) as [H|H]; cbn [negb]; [|by rewrite (proj2 (Z.eqb_neq _ _))].
  case_match; [|done]. rewrite Z.ldiff_land, <- Z.land_assoc. f_equal.
Qed.

(** What a request leaves in the flags of its client. *)
Lemma request_flags i a f name args :
  Multi.a_flags <$> Multi.a_clients a !! i = Some f -> Request.open_word f -> Multi.here i (a_request i (name :: args) a) ->
  exists f', Multi.a_flags <$> Multi.a_clients (a_request i (name :: args) a) !! i = Some f' /\
    if fine (name :: args) then Request.reset_flags f' = f' else ~ Request.open_word f'.
Proof.
  intros Hf [H1 H2]. unfold Multi.a_request, Multi.the_client.
  destruct (Multi.a_clients a !! i) as [c|] eqn:Hc; [|done]. injection Hf as <-. change (default Multi.nobody (Some c)) with c.
  unfold Multi.has. change Multi.REDIS_BLOCKED with Request.REDIS_BLOCKED.
  change Multi.REDIS_CLOSE_AFTER_REPLY with Request.REDIS_CLOSE_AFTER_REPLY.
  rewrite H1, H2. cbn [Z.eqb negb]. set (a1 := Multi.a_upd i _ a).
  destruct (Multi.a_processCommand _ _ _ _ _ _ _ _ _ _ i a1) as [ok a2] eqn:Ep. intros Hh.
  assert (ok = fine (name :: args) /\ (ok = false -> forall c2, Multi.a_clients a2 !! i = Some c2 ->
    Multi.has (Multi.a_flags c2) Multi.REDIS_CLOSE_AFTER_REPLY = true)) as [-> Hq].
  { revert Ep. unfold Multi.a_processCommand, Multi.the_client.
    replace (Multi.a_clients a1 !! i) with (Some (Multi.a_with_args c (name :: args) (Multi.a_cmd c)))
      by (unfold a1; cbn; by rewrite lookup_alter_eq, Hc).
    cbn [default from_option Multi.a_args Multi.a_with_args head id]. unfold fine. cbn [default from_option head id].
    destruct (Multi.is_quit name); intros [= <- <-]; (split; [done|]); [|done]. intros _ c2. cbn.
    rewrite lookup_alter_eq. destruct (alter _ _ _ !! i); [|done]. cbn. intros [= <-]. rewrite Multi.has_close. cbn [Multi.a_flags Multi.a_with_flags].
    rewrite Z.lor_spec. apply orb_true_r. }
  destruct (fine (name :: args)).
  - revert Hh. unfold Multi.here. cbn. rewrite lookup_alter_eq. destruct (Multi.a_clients a2 !! i) as [c2|]; [|by intros []].
    intros _.
    exists (if Multi.has (Multi.a_flags c2) Multi.REDIS_MULTI then Multi.a_flags c2
            else Multi.clear (Multi.a_flags c2) Multi.REDIS_ASKING).
    split; [|apply reset_twice]. cbn [fmap option_fmap option_map Multi.a_flags Multi.a_with_args]. by case_match.
  - destruct Hh as [c2 Hc2]. rewrite Hc2. cbn. eexists. split; [done|]. intros [_ H]. specialize (Hq eq_refl c2 Hc2).
    apply has_land in Hq. by apply Hq.
Qed.

Lemma processRequest_ok i c w a args :
  Forall2 Object.has_text (Request.argv c) args -> args <> [] -> Request.open_flags c ->
  in_state i (Request.flags c, w) a ->
  exists c' w', processRequest i c w = Some (c', w', fine args) /\
    exec i args (Request.flags c, w) (Request.flags c', w', fine args) /\
    in_state i (Request.settled (fine args) (Request.flags c'), w') (a_request i args a) /\
    c' = Request.with_flags c (Request.flags c') /\ (fine args = false -> ~ Request.open_flags c').
Proof.
  intros Hv Hne Hop (W & R & Hid & Hf). cbn [fst snd] in *. unfold processRequest. rewrite (Request.arg_texts _ _ Hv).
  pose proof (proj1 (flags_abstract i w a _ R) Hf) as Hfa. assert (Multi.here i a) as Hh by (unfold Multi.here; by destruct (_ !! i)).
  assert (is_Some (Multi.clients w !! i)) as Hc by (unfold flags_of in Hf; by destruct (_ !! i)).
  assert (Multi.idle_client (Multi.the_client i a)) as Hic.
  { destruct Hh as [c0 Hc0]. unfold Multi.the_client. rewrite Hc0. by eapply Hid. }
  destruct (Multi.request_spec conf exists_key commands orig_commands ustime latency slowlog command freeMemory unblock
    [] w a i args W R Hh Hic) as [(w' & Ew & _ & W' & R') Hh'].
  assert (step (Multi.Request i args) w = Some (tt, w')) as Es.
  { unfold Multi.step. rewrite Multi.ask_bind. by rewrite bool_decide_eq_true_2. }
  destruct args as [|name args]; [done|].
  destruct (request_flags i a _ name args Hfa Hop Hh') as (f' & Hf' & Hset).
  pose proof (proj2 (flags_abstract i w' _ _ R') Hf') as Hfw. rewrite Es. osimpl. rewrite Hfw. osimpl.
  eexists _, w'. split; [done|]. cbn [Request.flags Request.with_flags]. split; [done|].
  assert (Multi.idle (a_request i (name :: args) a)) as Hid'.
  { pose proof (Multi.idle_step conf exists_key commands orig_commands ustime latency slowlog command freeMemory unblock
      (Multi.Request i (name :: args)) a Hid) as H. cbn [Multi.a_step] in H. by rewrite bool_decide_eq_true_2 in H. }
  split; [|split; [done|]].
  - split; [done|]. split; [done|]. split; [done|]. cbn [fst snd]. rewrite Hfw. f_equal.
    destruct (fine _); [by rewrite <- Hset at 1|done].
  - intros Hno. rewrite Hno in Hset. done.
Qed.

(** The parser may be used with this server. *)
Lemma bridge_runs i : Request.runs_commands (exec i) (inv i) (processRequest i).
Proof.
  intros c w args Hv Hne Hop [a Hin].
  destruct (processRequest_ok i c w a args Hv Hne Hop Hin) as (c' & w' & Ep & He & Hin' & Hc' & Hno).
  exists c', w', (fine args). split; [done|]. split; [done|]. split; [by eexists|]. rewrite Hc'. by cbn.
Qed.

Lemma run_app es1 es2 : forall s s1, run es1 s = Some (tt, s1) -> run (es1 ++ es2) s = run es2 s1.
Proof.
  unfold Multi.run. induction es1 as [|e es1 IH]; intros s s1 H; [by injection H as <-|]. cbn [Multi.each app] in *.
  destruct (step e s) as [[[] s2]|] eqn:Es.
  - rewrite (bind_run _ _ _ _ _ Es) in H. rewrite (bind_run _ _ _ _ _ Es). by apply IH.
  - unfold mbind, M_bind in H. by rewrite Es in H.
Qed.

Lemma runs_events i ran x y :
  Request.runs (exec i) ran x y -> run (map (Multi.Request i) ran) x.2 = Some (tt, y.2).
Proof.
  induction 1 as [x|args cmds f w f' w' ok y _ (Es & _) _ IH]; [done|]. cbn [map snd] in *.
  unfold Multi.run. cbn [Multi.each]. by rewrite (bind_run _ _ _ _ _ Es).
Qed.

(** A server that has been through some events, and one of its clients. *)
Lemma served_inv n r es i w f :
  (0 < n)%nat -> run es (Multi.initial n r) = Some (tt, w) -> flags_of i w = Some f -> inv i (f, w).
Proof.
  intros Hn Hw Hf. destruct (Multi.initial_ok n r Hn) as (W & R & I).
  destruct (Multi.events_spec conf exists_key commands orig_commands ustime latency slowlog command freeMemory unblock
    es [] _ _ W R I) as (s & E1 & _ & W1 & R1). rewrite Hw in E1. injection E1 as <-.
  exists (a_run es (Multi.a_initial n r)). split; [done|]. split; [done|]. split; [by apply Multi.idle_run|done].
Qed.

(** C9: A server on which anything may have happened, and a client of it that
    has sent nothing so far and now sends requests, cut into reads of any size:
    the server ends where it is after exactly the first of these requests, in
    order and with their arguments as texts, on the state of the specification,
    whatever the commands are: also inside a transaction, and up to a QUIT or to
    a command that blocks the client. The parser sees the flags that the server
    gave the client and reports no protocol error; when all bytes have been read
    every request has been processed, unless the client is blocked or closing;
    and as long as it is neither, the next read succeeds. The requests are within
    the limits of the protocol, and the limit of the query buffer is between
    512 MB and 1 GB. *)
Theorem reads_drive_server uninit unixtime max n r es i w cmds c c' w' net :
  (0 < n)%nat -> run es (Multi.initial n r) = Some (tt, w) -> flags_of i w = Some (Request.flags c) ->
  Request.idle c -> 512 * 1024 * 1024 + 2 <= max <= Request.REDIS_MAX_QUERYBUF_LEN -> Forall Request.args_ok cmds ->
  rtc (Request.read_step uninit unixtime (processRequest i) max) (c, w, Request.stream cmds) (c', w', net) ->
  exists ran left, cmds = ran ++ left /\
    run (es ++ map (Multi.Request i) ran) (Multi.initial n r) = Some (tt, w') /\
    Multi.wf None [] w' /\ Multi.rel None w' (a_run (es ++ map (Multi.Request i) ran) (Multi.a_initial n r)) /\
    flags_of i w' = Some (Request.flags c') /\ Request.errors c' = Request.errors c /\
    (net = [] -> left = [] \/ ~ Request.open_flags c') /\
    (Request.open_flags c' -> forall bs rest, net = bs ++ rest -> bs <> [] -> zlen bs <= Request.readlen c' ->
      exists c2 w2, Request.read_step uninit unixtime (processRequest i) max (c', w', net) (c2, w2, rest)).
Proof.
  intros Hn Hw Hf Hidle Hmax Hok Hsteps. pose proof (served_inv n r es i w _ Hn Hw Hf) as Hi.
  pose proof (Request.reads_between uninit unixtime (exec i) (inv i) (processRequest i) (bridge_runs i) max Hmax c w cmds
    _ _ Hok Hsteps (Request.idle_between (exec i) (inv i) max c w cmds Hidle Hi))
    as (ran & left & cur & E1 & Hruns & [a Hin] & Hr & He & todo & Et & Hset).
  pose proof Hin as (_ & _ & _ & Hf').
  pose proof (run_app es (map (Multi.Request i) ran) _ _ Hw) as Hrun. pose proof (runs_events i ran _ _ Hruns) as Hev.
  cbn [snd] in Hev. rewrite Hev in Hrun. clear Hev.
  destruct (Multi.initial_ok n r Hn) as (W & R & I).
  destruct (Multi.events_spec conf exists_key commands orig_commands ustime latency slowlog command freeMemory unblock
    (es ++ map (Multi.Request i) ran) [] _ _ W R I) as (s & E2 & _ & W2 & R2).
  rewrite Hrun in E2. injection E2 as <-.
  exists ran, left. split_and!; try done.
  - intros Hnet. destruct Hset as [(_ & _ & Hend)|[(Hno & _) _]]; [left; by apply Hend|by right].
  - intros Hopen bs rest -> Hne Hbs. destruct Hset as [(Hses & Hleft & _)|[(Hno & _) _]]; [|done]. subst todo.
    destruct (Request.read_open uninit unixtime (exec i) (inv i) (processRequest i) (bridge_runs i) max Hmax c w cmds
      c' w' bs rest ran left cur) as (c3 & w3 & E3 & _); try done; [by eexists|]. exists c3, w3. by constructor.
Qed.
End Bridge.

(** ** Witnesses: the server of [Commands] *)
Definition world := Multi.server (E := Commands.keyspace).
Definition bridge0 (c : Request.client) (w : world) : option (Request.client * world * bool) :=
  processRequest Commands.k_conf Commands.k_exists Commands.find Commands.find Commands.k_ustime (fun _ _ e => e)
    (fun _ _ e => e) Commands.k_command (fun _ => ([], true)) (fun _ => []) 0 c w.
Definition w0 : world := Commands.after false [Multi.Connect 0].

(** A transaction, QUIT, and a request that comes too late. *)
Definition cmds0 : list (list (list Z)) :=
  map (map Multi.text) [["MULTI"]; ["SET"; "a"; "1"]; ["EXEC"]; ["QUIT"]; ["GET"; "a"]]%string.

Definition state := (Request.client * world * list Z)%type.
Definition read0 (n : nat) (s : state) : state :=
  let '(c, w, net) := s in
  match Request.readQueryFromClient (fun _ => 7) 0 bridge0 (2 ^ 30) (fun _ => Request.ReadBytes (take n net)) c w with
  | Some (Some (c, w)) => (c, w, drop n net)
  | _ => s
  end.
Definition s1 : state := read0 20 (Request.client0, w0, Request.stream cmds0).
Definition s2 : state := read0 200 s1.
Definition final : world := s2.1.2.

(** What the client was told. *)
Definition told (w : world) : list Multi.reply := Multi.out (Commands.client_of 0 w).

Lemma read0_step n s :
  bool_decide (length (read0 n s).2 <> length s.2 /\ take n s.2 <> [] /\ zlen (take n s.2) <= Request.readlen s.1.1) = true ->
  Request.read_step (fun _ => 7) 0 bridge0 (2 ^ 30) s (read0 n s).
Proof.
  intros (Hlen & Hne & Hl)%bool_decide_eq_true_1. destruct s as [[c w] net]. cbn [fst snd] in *. unfold read0 in *.
  destruct (Request.readQueryFromClient _ _ _ _ _ c w) as [[[c1 w1]|]|] eqn:Er; [|done|done].
  rewrite <- (take_drop n net) at 1. by constructor.
Qed.

Lemma first_read : Request.read_step (fun _ => 7) 0 bridge0 (2 ^ 30) (Request.client0, w0, Request.stream cmds0) s1.
Proof. exact (read0_step 20 (Request.client0, w0, Request.stream cmds0) ltac:(vm_compute; reflexivity)). Qed.
Lemma second_read : Request.read_step (fun _ => 7) 0 bridge0 (2 ^ 30) s1 s2.
Proof. exact (read0_step 200 s1 ltac:(vm_compute; reflexivity)). Qed.

Lemma state_parts (s : state) : s = (s.1.1, s.1.2, s.2).
Proof. by destruct s as [[? ?] ?]. Qed.

Lemma steps0 : rtc (Request.read_step (fun _ => 7) 0 bridge0 (2 ^ 30)) (Request.client0, w0, Request.stream cmds0)
  (s2.1.1, final, s2.2).
Proof.
  unfold final. rewrite <- (state_parts s2). apply (rtc_l _ _ s1); [exact first_read|]. apply rtc_once. exact second_read.
Qed.

Lemma cmds0_ok : Forall Request.args_ok cmds0.
Proof.
  unfold cmds0. cbn [map]. repeat apply Forall_cons_2; try apply Forall_nil_2; (split; [done|]); (split; [cbn; lia|]);
    repeat apply Forall_cons_2; try apply Forall_nil_2; unfold Request.arg_ok; cbn; lia.
Qed.

Example quit_ends_the_session :
  (told final, s2.2, Request.flags s2.1.1) =
    ([Multi.Shared Multi.ok; Multi.Shared Multi.queued; Multi.MultiBulkLen 1; Multi.Shared Multi.ok; Multi.Shared Multi.ok],
     [], Request.REDIS_CLOSE_AFTER_REPLY).
Proof. vm_compute. reflexivity. Qed.

Definition exec0 : list (list Z) -> Z * world -> Z * world * bool -> Prop :=
  exec Commands.k_conf Commands.k_exists Commands.find Commands.find Commands.k_ustime (fun _ _ e => e)
    (fun _ _ e => e) Commands.k_command (fun _ => ([], true)) (fun _ => []) 0.

Lemma w0_reached : Commands.serve [Multi.Connect 0] (Multi.initial 1 (Commands.before false)) = Some (tt, w0).
Proof. apply Commands.serve_after. vm_compute. reflexivity. Qed.
Lemma w0_flags : flags_of 0 w0 = Some 0.
Proof. vm_compute. reflexivity. Qed.
Lemma w0_inv : inv 0 (0, w0).
Proof. exact (served_inv Commands.k_conf Commands.k_exists Commands.find Commands.find Commands.k_ustime (fun _ _ e => e)
    (fun _ _ e => e) Commands.k_command (fun _ => ([], true)) (fun _ => [])
    1 _ [Multi.Connect 0] 0 w0 0 ltac:(lia) w0_reached w0_flags). Qed.

(** The transaction and QUIT are run, the last request is not. *)
Lemma requests_any_reads_witness :
  told w0 = [] /\ length (told final) = 5%nat /\ s2.2 = [] /\
  exists ran left, cmds0 = ran ++ left /\ Request.runs exec0 ran (0, w0) (Request.flags s2.1.1, final) /\
    Request.errors s2.1.1 = [] /\ (s2.2 = [] -> left = [] \/ ~ Request.open_flags s2.1.1).
Proof.
  split; [vm_compute; reflexivity|]. split; [vm_compute; reflexivity|]. split; [vm_compute; reflexivity|].
  refine (proj1 (Request.requests_any_reads (fun _ => 7) world 0 exec0 (inv 0) bridge0 (2 ^ 30) cmds0 Request.client0 w0
    s2.1.1 final s2.2 (bridge_runs Commands.k_conf Commands.k_exists Commands.find Commands.find Commands.k_ustime (fun _ _ e => e)
    (fun _ _ e => e) Commands.k_command (fun _ => ([], true)) (fun _ => []) 0) _ cmds0_ok Request.idle0 w0_inv steps0)).
  unfold Request.REDIS_MAX_QUERYBUF_LEN. lia.
Defined.

Lemma reads_drive_server_witness :
  s2.2 = [] /\
  exists ran left, cmds0 = ran ++ left /\
    Commands.serve ([Multi.Connect 0] ++ map (Multi.Request 0) ran) (Multi.initial 1 (Commands.before false)) = Some (tt, final) /\
    Multi.wf None [] final.
Proof.
  split; [vm_compute; reflexivity|].
  destruct (reads_drive_server Commands.k_conf Commands.k_exists Commands.find Commands.find Commands.k_ustime (fun _ _ e => e)
    (fun _ _ e => e) Commands.k_command (fun _ => ([], true)) (fun _ => []) (fun _ => 7) 0 (2 ^ 30) 1 (Commands.before false)
    [Multi.Connect 0] 0 w0 cmds0 Request.client0 s2.1.1 final s2.2)
    as (ran & left & H1 & H2 & H3 & _).
  - lia.
  - exact w0_reached.
  - exact w0_flags.
  - exact Request.idle0.
  - unfold Request.REDIS_MAX_QUERYBUF_LEN. lia.
  - exact cmds0_ok.
  - exact steps0.
  - exists ran, left. split; [exact H1|]. split; [exact H2|exact H3].
Defined.

End Server.
