(* ===== verification/Bitops.v ===== *)
(** * Bit operations on strings (src/redis-2.8/src/bitops.c)

    Counting the bits of a string, finding the first bit with a value, setting
    and reading single bits and combining strings bit by bit. The loops over
    words are proved equal to what they compute on the sequence of bits, the
    first bit of a string being the most significant one of its first byte. *)
From stdpp Require Import strings base tactics list numbers option.
From Stdlib Require Import ZArith Lia.
From S2P Require Import Prelude Util Glob Sds Object Multi.
Import CInt CMem Bytes Util Sds Object.
Open Scope redis_scope.
Open Scope Z_scope.

Module Bitops.

(** ** Counting bits *)
Definition bitsinbyte : list Z := [
    0; 1; 1; 2; 1; 2; 2; 3; 1; 2; 2; 3; 2; 3; 3; 4; 1; 2; 2; 3; 2; 3; 3; 4; 2; 3; 3; 4; 3; 4; 4; 5;
    1; 2; 2; 3; 2; 3; 3; 4; 2; 3; 3; 4; 3; 4; 4; 5; 2; 3; 3; 4; 3; 4; 4; 5; 3; 4; 4; 5; 4; 5; 5; 6;
    1; 2; 2; 3; 2; 3; 3; 4; 2; 3; 3; 4; 3; 4; 4; 5; 2; 3; 3; 4; 3; 4; 4; 5; 3; 4; 4; 5; 4; 5; 5; 6;
    2; 3; 3; 4; 3; 4; 4; 5; 3; 4; 4; 5; 4; 5; 5; 6; 3; 4; 4; 5; 4; 5; 5; 6; 4; 5; 5; 6; 5; 6; 6; 7;
    1; 2; 2; 3; 2; 3; 3; 4; 2; 3; 3; 4; 3; 4; 4; 5; 2; 3; 3; 4; 3; 4; 4; 5; 3; 4; 4; 5; 4; 5; 5; 6;
    2; 3; 3; 4; 3; 4; 4; 5; 3; 4; 4; 5; 4; 5; 5; 6; 3; 4; 4; 5; 4; 5; 5; 6; 4; 5; 5; 6; 5; 6; 6; 7;
    2; 3; 3; 4; 3; 4; 4; 5; 3; 4; 4; 5; 4; 5; 5; 6; 3; 4; 4; 5; 4; 5; 5; 6; 4; 5; 5; 6; 5; 6; 6; 7;
    3; 4; 4; 5; 4; 5; 5; 6; 4; 5; 5; 6; 5; 6; 6; 7; 4; 5; 5; 6; 5; 6; 6; 7; 5; 6; 6; 7; 6; 7; 7; 8].

Section Words.
(** [strict]: the machine does not read words from unaligned addresses.
    [ulong] is [sizeof(unsigned long)]: 8, or 4 on Windows. *)
Context (strict : bool) (ulong : Z).

(** A word at [p] in the string [s], which is stored at the address [base]. *)
Definition load (w : Z) (base : Z) (s : list Z) (p : Z) : option Z :=
  if strict && negb (Z.land (base + p) (w - 1) =? 0) then None else bs ← rdn s p w; Some (unle bs).

(** [while((unsigned long)p & 3 && count)] *)
Fixpoint count_head (fuel : nat) (base : Z) (s : list Z) (p count bits : Z) : option (Z * Z * Z) :=
  if negb (Z.land (base + p) 3 =? 0) && negb (count =? 0) then
    match fuel with
    | O => None
    | S fuel => b ← rd s p; n ← rd bitsinbyte b; count_head fuel base s (p + 1) (count - 1) (uint64 (bits + n))
    end
  else Some (p, count, bits).

Definition sum_pairs (aux : Z) : Z := uint32 (aux - Z.land (Z.shiftr aux 1) 0x55555555).
Definition sum_nibbles (aux : Z) : Z := uint32 (Z.land aux 0x33333333 + Z.land (Z.shiftr aux 2) 0x33333333).
Definition sum_word (aux : Z) : Z :=
  Z.shiftr (uint32 (Z.land (uint32 (aux + Z.shiftr aux 4)) 0x0F0F0F0F * 0x01010101)) 24.
Definition count_word (aux : Z) : Z := sum_word (sum_nibbles (sum_pairs aux)).

(** [while(count>=16)] *)
Fixpoint count_words (fuel : nat) (base : Z) (s : list Z) (p count bits : Z) : option (Z * Z * Z) :=
  if 16 <=? count then
    match fuel with
    | O => None
    | S fuel =>
        aux1 ← load 4 base s p;
        aux2 ← load 4 base s (p + 4);
        aux3 ← load 4 base s (p + 8);
        aux4 ← load 4 base s (p + 12);
        count_words fuel base s (p + 16) (count - 16)
          (uint64 (bits + uint32 (uint32 (uint32 (count_word aux1 + count_word aux2) + count_word aux3) + count_word aux4)))
    end
  else Some (p, count, bits).

(** [while(count--)] *)
Fixpoint count_tail (fuel : nat) (s : list Z) (p count bits : Z) : option Z :=
  if count =? 0 then Some bits
  else
    match fuel with
    | O => None
    | S fuel => b ← rd s p; n ← rd bitsinbyte b; count_tail fuel s (p + 1) (count - 1) (uint64 (bits + n))
    end.

(** The string starts at the position [p] of [s]. *)
Definition redisPopcount (base : Z) (s : list Z) (p count : Z) : option Z :=
  let fuel := Z.to_nat count in
  '(p, count, bits) ← count_head fuel base s p count 0;
  '(p, count, bits) ← count_words fuel base s p count bits;
  count_tail fuel s p count bits.

(** ** The first bit with a value *)
Definition ULONG_MAX : Z := 2 ^ (8 * ulong) - 1.
Definition to_ulong (x : Z) : Z := wrap (8 * ulong) x.
Definition to_long (x : Z) : Z := swrap (8 * ulong) x.

(** [while((unsigned long)c & (sizeof *l-1) && count)] *)
Fixpoint skip_bytes (fuel : nat) (base : Z) (s : list Z) (skipval c count pos : Z) : option (Z * Z * Z) :=
  if negb (Z.land (base + c) (ulong - 1) =? 0) && negb (count =? 0) then
    b ← rd s c;
    if negb (b =? skipval) then Some (c, count, pos)
    else match fuel with
         | O => None
         | S fuel => skip_bytes fuel base s skipval (c + 1) (count - 1) (to_long (pos + 8))
         end
  else Some (c, count, pos).

(** [while (count >= sizeof *l)] *)
Fixpoint skip_words (fuel : nat) (base : Z) (s : list Z) (skipval l count pos : Z) : option (Z * Z * Z) :=
  if ulong <=? count then
    x ← load ulong base s l;
    if negb (x =? skipval) then Some (l, count, pos)
    else match fuel with
         | O => None
         | S fuel => skip_words fuel base s skipval (l + ulong) (count - ulong) (to_long (pos + ulong * 8))
         end
  else Some (l, count, pos).

(** [for (j = 0; j < sizeof *l; j++)], with [n] rounds to go. *)
Fixpoint load_word (n : nat) (s : list Z) (c count word : Z) : option Z :=
  match n with
  | O => Some word
  | S n =>
      let word := to_ulong (Z.shiftl word 8) in
      if negb (count =? 0) then b ← rd s c; load_word n s (c + 1) (count - 1) (Z.lor word b)
      else load_word n s c count word
  end.

(** [while(one)]; after it there is the panic. *)
Fixpoint scan_word (fuel : nat) (one word bit pos : Z) : option Z :=
  if one =? 0 then None
  else if Z.b2z (negb (Z.land one word =? 0)) =? bit then Some pos
  else match fuel with
       | O => None
       | S fuel => scan_word fuel (Z.shiftr one 1) word bit (to_long (pos + 1))
       end.

Definition redisBitpos (base : Z) (s : list Z) (p count bit : Z) : option Z :=
  let fuel := Z.to_nat count in
  '(c, count, pos) ← skip_bytes fuel base s (if bit =? 0 then 255 else 0) p count 0;
  '(l, count, pos) ← skip_words fuel base s (if bit =? 0 then ULONG_MAX else 0) c count pos;
  word ← load_word (Z.to_nat ulong) s l count 0;
  if (bit =? 1) && (word =? 0) then Some (-1)
  else
    let one := to_ulong (Z.lnot (Z.shiftr ULONG_MAX 1)) in
    scan_word (Z.to_nat (8 * ulong)) one word bit pos.
End Words.

(** ** Combining strings: BITOP *)
Inductive bitop := BITOP_AND | BITOP_OR | BITOP_XOR | BITOP_NOT.

(** [output &= byte] and so on; no case of the switch is for NOT. *)
Definition bop (op : bitop) : Z -> Z -> Z :=
  match op with BITOP_AND => Z.land | BITOP_OR => Z.lor | BITOP_XOR => Z.lxor | BITOP_NOT => fun x _ => x end.

(** The longest and the shortest length of the sources; a missing key makes
    the shortest one zero. *)
Fixpoint lengths (j : nat) (srcs : list (option (list Z))) (maxlen minlen : Z) : Z * Z :=
  match srcs with
  | [] => (maxlen, minlen)
  | None :: srcs => lengths (S j) srcs maxlen 0
  | Some s :: srcs =>
      let len := zlen s in
      lengths (S j) srcs (if maxlen <? len then len else maxlen) (if Nat.eqb j 0 || (len <? minlen) then len else minlen)
  end.

Section Bitop.
Context (ulong : Z).

(** [lres[k] &= lp[i][k]], and [lres[k] = ~lres[k]], for the word at [p]. *)
Definition word_op (op : bitop) (res src : list Z) (p : Z) : option (list Z) :=
  a ← rdn res p ulong;
  b ← rdn src p ulong;
  wrn res p (le (Z.to_nat ulong) (bop op (unle a) (unle b))).
Definition word_not (res : list Z) (p : Z) : option (list Z) :=
  a ← rdn res p ulong;
  wrn res p (le (Z.to_nat ulong) (wrap (8 * ulong) (Z.lnot (unle a)))).

(** Four words, for one of the sources. *)
Definition block_op (op : bitop) (j : Z) (res src : list Z) : option (list Z) :=
  res ← word_op op res src j;
  res ← word_op op res src (j + ulong);
  res ← word_op op res src (j + 2 * ulong);
  word_op op res src (j + 3 * ulong).
Definition block_not (j : Z) (res : list Z) : option (list Z) :=
  res ← word_not res j;
  res ← word_not res (j + ulong);
  res ← word_not res (j + 2 * ulong);
  word_not res (j + 3 * ulong).

Fixpoint blocks_op (op : bitop) (j : Z) (srcs : list (list Z)) (res : list Z) : option (list Z) :=
  match srcs with [] => Some res | s :: srcs => res ← block_op op j res s; blocks_op op j srcs res end.

(** [while(minlen >= sizeof(unsigned long)*4)] *)
Fixpoint fast_loop (fuel : nat) (op : bitop) (srcs : list (list Z)) (res : list Z) (j minlen : Z) : option (list Z * Z) :=
  if 4 * ulong <=? minlen then
    match fuel with
    | O => None
    | S fuel =>
        res ← match op with BITOP_NOT => block_not j res | _ => blocks_op op j srcs res end;
        fast_loop fuel op srcs res (j + 4 * ulong) (minlen - 4 * ulong)
    end
  else Some (res, j).

(** [(len[i] <= j) ? 0 : src[i][j]] *)
Definition src_byte (s : list Z) (j : Z) : option Z := if zlen s <=? j then Some 0 else rd s j.

Fixpoint fold_bytes (op : bitop) (srcs : list (list Z)) (j output : Z) : option Z :=
  match srcs with [] => Some output | s :: srcs => b ← src_byte s j; fold_bytes op srcs j (bop op output b) end.

Fixpoint slow_loop (n : nat) (op : bitop) (src0 : list Z) (srcs : list (list Z)) (res : list Z) (j : Z) : option (list Z) :=
  match n with
  | O => Some res
  | S n =>
      output ← src_byte src0 j;
      let output := match op with BITOP_NOT => wrap 8 (Z.lnot output) | _ => output end in
      output ← fold_bytes op srcs j output;
      res ← wr res j output;
      slow_loop n op src0 srcs res (j + 1)
  end.

(** The result for the sources, a missing key being [None]. *)
Definition bitop_result (op : bitop) (keys : list (option (list Z))) : option (list Z) :=
  let '(maxlen, minlen) := lengths 0 keys 0 0 in
  if maxlen =? 0 then Some []
  else
    match map (default []) keys with
    | [] => None
    | src0 :: srcs =>
        let res := replicate (Z.to_nat maxlen) 0 in
        '(res, j) ← (if negb (minlen =? 0) && (zlen keys <=? 16) then
                       first ← rdn src0 0 minlen;
                       res ← wrn res 0 first;
                       fast_loop (Z.to_nat minlen) op srcs res 0 minlen
                     else Some (res, 0));
        slow_loop (Z.to_nat (maxlen - j)) op src0 srcs res j
    end.
End Bitop.

(** ** The commands

    A command gets what the lookup of its key returned, and its arguments as
    objects. *)
Inductive value := StringValue (o : robj) | OtherValue.
Inductive bit_reply := cone | czero | syntaxerr | wrongtypeerr | LongLong (n : Z) | Err (s : string).

Section Commands.
Context (uninit : nat -> Z) (strict : bool) (ulong : Z).

(** The address of the string of an object or of the buffer [llbuf]. *)
Context (address : robj -> Z).

Definition getLongLongFromObjectOrReply (o : robj) (msg : option string) : option (Z + bit_reply) :=
  v ← getLongLongFromObject o;
  Some (match v with
        | Some v => inl v
        | None => inr (Err (default "value is not an integer or out of range"%string msg))
        end).

Definition getLongFromObjectOrReply (o : robj) (msg : option string) : option (Z + bit_reply) :=
  v ← getLongLongFromObjectOrReply o msg;
  Some (match v with
        | inl v => if (v <? - 2 ^ (8 * ulong - 1)) || (2 ^ (8 * ulong - 1) - 1 <? v)
                   then inr (Err (default "value is out of range"%string msg)) else inl v
        | inr r => inr r
        end).

Definition getBitOffsetFromArgument (o : robj) : option (Z + bit_reply) :=
  let err := "bit offset is not an integer or out of range"%string in
  v ← getLongLongFromObjectOrReply o (Some err);
  Some (match v with
        | inl loffset => if (loffset <? 0) || (512 * 1024 * 1024 <=? Z.shiftr loffset 3) then inr (Err err) else inl loffset
        | inr r => inr r
        end).

(** The string, or the digits of an integer in [llbuf]. *)
Definition string_bytes (o : robj) : option (list Z * Z) := text_of uninit 32 o.

Definition getbitCommand (found : option value) (offset : robj) : option bit_reply :=
  r ← getBitOffsetFromArgument offset;
  match r with
  | inr r => Some r
  | inl bitoffset =>
      match found with
      | None => Some czero
      | Some OtherValue => Some wrongtypeerr
      | Some (StringValue o) =>
          let byte := Z.shiftr bitoffset 3 in
          let bit := 7 - Z.land bitoffset 7 in
          '(p, n) ← string_bytes o;
          bitval ← (if byte <? n then b ← rd p byte; Some (Z.land b (Z.shiftl 1 bit)) else Some 0);
          Some (if bitval =? 0 then czero else cone)
      end
  end.

(** The object that a command may change: the one that is stored, or a copy
    that replaces it when it is shared or encoded. *)
Definition dbUnshareStringValue (o : robj) : option robj :=
  match o_ptr o with
  | ENC_RAW _ =>
      if negb (o_refcount o =? 1) then
        decoded ← getDecodedObject uninit o;
        match o_ptr decoded with ENC_RAW s => createStringObject uninit (buf s) (sdslen s) | ENC_INT _ => None end
      else Some o
  | ENC_INT _ =>
      decoded ← getDecodedObject uninit o;
      match o_ptr decoded with ENC_RAW s => createStringObject uninit (buf s) (sdslen s) | ENC_INT _ => None end
  end.

(** The reply and, when the key was changed, the object it holds now. *)
Definition setbitCommand (found : option value) (offset on : robj) : option (bit_reply * option robj) :=
  let err := "bit is not an integer or out of range"%string in
  r ← getBitOffsetFromArgument offset;
  match r with
  | inr r => Some (r, None)
  | inl bitoffset =>
      v ← getLongFromObjectOrReply on (Some err);
      match v with
      | inr r => Some (r, None)
      | inl on =>
          if negb (Z.land on (Z.lnot 1) =? 0) then Some (Err err, None)
          else
            o ← match found with
                | None => s ← sdsnewlen uninit (Some []) 0; Some (Some (createObject (ENC_RAW s)))
                | Some OtherValue => Some None
                | Some (StringValue o) => o ← dbUnshareStringValue o; Some (Some o)
                end;
            match o with
            | None => Some (wrongtypeerr, None)
            | Some o =>
                match o_ptr o with
                | ENC_INT _ => None
                | ENC_RAW s =>
                    let byte := swrap 32 (Z.shiftr bitoffset 3) in
                    s ← sdsgrowzero uninit s (byte + 1);
                    byteval ← rd (buf s) byte;
                    let bit := 7 - Z.land bitoffset 7 in
                    let bitval := Z.land byteval (Z.shiftl 1 bit) in
                    let byteval := Z.lor (Z.land byteval (Z.lnot (Z.shiftl 1 bit))) (Z.shiftl (Z.land on 1) bit) in
                    b ← wr (buf s) byte (wrap 8 byteval);
                    Some (if bitval =? 0 then czero else cone, Some (Robj (ENC_RAW (Sdshdr (len s) (free s) b)) (o_refcount o)))
                end
            end
      end
  end.

(** Indexes of a range: negative ones count from the end. *)
Definition clip_range (strlen start end_ : Z) : Z * Z :=
  let start := if start <? 0 then strlen + start else start in
  let end_ := if end_ <? 0 then strlen + end_ else end_ in
  let start := if start <? 0 then 0 else start in
  let end_ := if end_ <? 0 then 0 else end_ in
  (start, if strlen <=? end_ then strlen - 1 else end_).

Definition bitcountCommand (found : option value) (args : list robj) : option bit_reply :=
  match found with
  | None => Some czero
  | Some OtherValue => Some wrongtypeerr
  | Some (StringValue o) =>
      '(p, strlen) ← string_bytes o;
      range ← match args with
              | [a; b] =>
                  start ← getLongFromObjectOrReply a None;
                  match start with
                  | inr r => Some (inr r)
                  | inl start =>
                      end_ ← getLongFromObjectOrReply b None;
                      Some (match end_ with inr r => inr r | inl end_ => inl (clip_range strlen start end_) end)
                  end
              | [] => Some (inl (0, strlen - 1))
              | _ => Some (inr syntaxerr)
              end;
      match range with
      | inr r => Some r
      | inl (start, end_) =>
          if end_ <? start then Some czero
          else n ← redisPopcount strict (address o) p start (end_ - start + 1); Some (LongLong n)
      end
  end.

Definition bitposCommand (found : option value) (bit : robj) (args : list robj) : option bit_reply :=
  v ← getLongFromObjectOrReply bit None;
  match v with
  | inr r => Some r
  | inl bit =>
      if negb (bit =? 0) && negb (bit =? 1) then Some (Err "The bit argument must be 1 or 0."%string)
      else
        match found with
        | None => Some (LongLong (if bit =? 0 then 0 else -1))
        | Some OtherValue => Some wrongtypeerr
        | Some (StringValue o) =>
            '(p, strlen) ← string_bytes o;
            range ← match args with
                    | [a] =>
                        start ← getLongFromObjectOrReply a None;
                        Some (match start with inr r => inr r | inl start => inl (clip_range strlen start (strlen - 1), false) end)
                    | [a; b] =>
                        start ← getLongFromObjectOrReply a None;
                        match start with
                        | inr r => Some (inr r)
                        | inl start =>
                            end_ ← getLongFromObjectOrReply b None;
                            Some (match end_ with inr r => inr r | inl end_ => inl (clip_range strlen start end_, true) end)
                        end
                    | [] => Some (inl ((0, strlen - 1), false))
                    | _ => Some (inr syntaxerr)
                    end;
            match range with
            | inr r => Some r
            | inl ((start, end_), end_given) =>
                if end_ <? start then Some (LongLong (-1))
                else
                  let bytes := end_ - start + 1 in
                  pos ← redisBitpos strict ulong (address o) p start bytes bit;
                  if end_given && (bit =? 0) && (pos =? to_long ulong (bytes * 8)) then Some (LongLong (-1))
                  else Some (LongLong (if pos =? -1 then pos else to_long ulong (pos + to_long ulong (start * 8))))
            end
        end
  end.

(** The name of the operation. *)
Definition word_is (w : string) (name : list Z) : bool :=
  bool_decide (map Glob.tolower (Multi.c_string name) = Multi.text w).
Definition parse_op (opname : list Z) : option bitop :=
  if word_is "and" opname then Some BITOP_AND
  else if word_is "or" opname then Some BITOP_OR
  else if word_is "xor" opname then Some BITOP_XOR
  else if word_is "not" opname then Some BITOP_NOT
  else None.

(** What BITOP does with its target: [None] leaves it, an empty string deletes
    it. The sources are what the lookups of their keys returned. *)
Definition source (k : option value) : option (option (list Z) + bit_reply) :=
  match k with
  | None => Some (inl None)
  | Some OtherValue => Some (inr wrongtypeerr)
  | Some (StringValue o) =>
      d ← getDecodedObject uninit o;
      match o_ptr d with
      | ENC_RAW s => x ← rdn (buf s) 0 (sdslen s); Some (inl (Some x))
      | ENC_INT _ => None
      end
  end.
Fixpoint sources (keys : list (option value)) : option (list (option (list Z)) + bit_reply) :=
  match keys with
  | [] => Some (inl [])
  | k :: keys =>
      s ← source k;
      match s with
      | inr r => Some (inr r)
      | inl s => l ← sources keys; Some (match l with inl l => inl (s :: l) | inr r => inr r end)
      end
  end.

Definition bitopCommand (opname : list Z) (keys : list (option value)) : option (bit_reply * option (list Z)) :=
  match parse_op opname with
  | None => Some (syntaxerr, None)
  | Some op =>
      if match op with BITOP_NOT => negb (Nat.eqb (length keys) 1) | _ => false end
      then Some (Err "BITOP NOT must be called with a single source key."%string, None)
      else
        l ← sources keys;
        match l with
        | inr r => Some (r, None)
        | inl srcs => res ← bitop_result ulong op srcs; Some (LongLong (zlen res), Some res)
        end
  end.
End Commands.

(** ** The bits of a string *)
Definition byte_bits (b : Z) : list bool := Z.testbit b <$> [7; 6; 5; 4; 3; 2; 1; 0].
Definition bits_of (s : list Z) : list bool := s ≫= byte_bits.
Fixpoint ones (l : list bool) : Z := match l with [] => 0 | x :: l => Z.b2z x + ones l end.

Lemma ones_app a b : ones (a ++ b) = ones a + ones b.
Proof. induction a as [|x a IH]; [done|]. cbn [app ones]. rewrite IH. lia. Qed.
Lemma bits_of_app a b : bits_of (a ++ b) = bits_of a ++ bits_of b.
Proof. apply bind_app. Qed.
Lemma ones_bound l : 0 <= ones l <= zlen l.
Proof. induction l as [|x l IH]; cbn [ones length]; [lia|]. destruct x; cbn; lia. Qed.
Lemma bits_of_length s : zlen (bits_of s) = 8 * zlen s.
Proof. induction s as [|b s IH]; [done|]. change (bits_of (b :: s)) with (byte_bits b ++ bits_of s). rewrite length_app. cbn [byte_bits fmap list_fmap length]. lia. Qed.

(** *** Digits *)
Fixpoint dig (B : Z) (l : list Z) : Z := match l with [] => 0 | x :: l => x + B * dig B l end.
Fixpoint evens (l : list Z) : list Z := match l with a :: _ :: l => a :: evens l | _ => [] end.
Fixpoint odds (l : list Z) : list Z := match l with _ :: b :: l => b :: odds l | _ => [] end.
Fixpoint psum (l : list Z) : list Z := match l with a :: b :: l => a + b :: psum l | _ => [] end.
Fixpoint total (l : list Z) : Z := match l with [] => 0 | x :: l => x + total l end.
Definition below (n : Z) (x : Z) : Prop := 0 <= x < n.

(** The mask of the lower of every two digits of [k] bits. *)
Fixpoint mask (k : Z) (n : nat) : Z := match n with O => 0 | S n => (2 ^ k - 1) + 2 ^ (2 * k) * mask k n end.

Lemma pairs_ind (P : list Z -> Prop) :
  P [] -> (forall a, P [a]) -> (forall a b l, P l -> P (a :: b :: l)) -> forall l, P l.
Proof.
  intros H0 H1 H2. refine (fix go l := match l with [] => H0 | [a] => H1 a | a :: b :: l => H2 a b l (go l) end).
Qed.

Lemma land_split n a b c d : 0 <= n -> 0 <= a < 2 ^ n -> 0 <= c < 2 ^ n ->
  Z.land (a + 2 ^ n * b) (c + 2 ^ n * d) = Z.land a c + 2 ^ n * Z.land b d.
Proof.
  intros Hn Ha Hc.
  assert (forall x y, 0 <= x < 2 ^ n -> x + 2 ^ n * y = Z.lor (Z.shiftl y n) x) as E.
  { intros x y Hx. rewrite lor_shiftl by lia. lia. }
  assert (forall x i, 0 <= x < 2 ^ n -> n <= i -> Z.testbit x i = false) as Hs.
  { intros x i Hx Hi. rewrite <- (wrap_small n x) by exact Hx. unfold wrap. apply Z.mod_pow2_bits_high. lia. }
  assert (0 <= Z.land a c < 2 ^ n) as Hac.
  { rewrite <- (wrap_small n a), <- land_ones_wrap, <- Z.land_assoc, (Z.land_comm (2 ^ n - 1)), Z.land_assoc, land_ones_wrap by done.
    by apply wrap_range. }
  rewrite !E by done. apply Z.bits_inj'. intros i Hi. rewrite !Z.land_spec, !Z.lor_spec, !Z.land_spec, !Z.shiftl_spec by lia.
  destruct (Z.lt_ge_cases i n) as [Hl|Hl].
  - by rewrite !(Z.testbit_neg_r _ (i - n)) by lia.
  - rewrite (Hs a i), (Hs c i) by done. cbn. by rewrite !orb_false_r, Z.land_spec.
Qed.

Lemma dig_nonneg B l n : 0 <= B -> Forall (below n) l -> 0 <= dig B l.
Proof. intros HB. induction 1 as [|x l [Hx _] _ IH]; cbn; [lia|]. nia. Qed.

Lemma dig_bound B l : 0 < B -> Forall (below B) l -> 0 <= dig B l < B ^ zlen l.
Proof.
  intros HB. induction 1 as [|x l Hx _ IH]; cbn [dig length]; [done|]. unfold below in Hx.
  rewrite Nat2Z.inj_succ, Z.pow_succ_r by lia. nia.
Qed.

Lemma dig_weaken n m l : n <= m -> Forall (below n) l -> Forall (below m) l.
Proof. intros Hnm. apply Forall_impl. unfold below. lia. Qed.

Lemma dig_evens k n : forall l, 0 <= k -> length l = (2 * n)%nat -> Forall (below (2 ^ k)) l ->
  Z.land (dig (2 ^ k) l) (mask k n) = dig (2 ^ (2 * k)) (evens l).
Proof.
  induction n as [|n IH]; intros l Hk Hl HF.
  - destruct l; [|cbn in Hl; lia]. by cbn.
  - destruct l as [|a [|b l]]; cbn in Hl; [lia..|].
    apply Forall_cons_1 in HF as [Ha [Hb HF]%Forall_cons_1]. cbn [dig mask evens].
    assert (2 ^ (2 * k) = 2 ^ k * 2 ^ k) as Hp by (replace (2 * k) with (k + k) by lia; by rewrite Z.pow_add_r).
    assert (0 < 2 ^ k) by by apply Z.pow_pos_nonneg. unfold below in Ha, Hb.
    rewrite Hp at 1. rewrite <- Z.mul_assoc. rewrite land_split by lia.
    replace (2 ^ k * mask k n) with (0 + 2 ^ k * mask k n) by lia. rewrite land_split by lia.
    rewrite Z.land_0_r, IH by (done || lia). rewrite land_ones_wrap by done. rewrite wrap_small by (unfold in_u; lia). rewrite Hp. lia.
Qed.

Lemma dig_snoc B l : dig B (l ++ [0]) = dig B l.
Proof. induction l as [|x l IH]; cbn; [lia|]. by rewrite IH. Qed.

Lemma evens_tail l : forall a, Nat.Even (length (a :: l)) -> evens (l ++ [0]) = odds (a :: l).
Proof.
  induction l as [| b | b c l IH] using pairs_ind; intros a [n Hn]; [cbn in Hn; lia|done|].
  cbn [app evens odds]. f_equal. apply (IH c). exists (n - 1)%nat. cbn in *. lia.
Qed.

Lemma dig_odds k n l : 0 <= k -> length l = (2 * n)%nat -> Forall (below (2 ^ k)) l ->
  Z.land (Z.shiftr (dig (2 ^ k) l) k) (mask k n) = dig (2 ^ (2 * k)) (odds l).
Proof.
  intros Hk Hl HF. assert (0 < 2 ^ k) by by apply Z.pow_pos_nonneg. destruct l as [|a l].
  - destruct n; [|cbn in Hl; lia]. cbn. by rewrite Z.land_0_r.
  - apply Forall_cons_1 in HF as [Ha HF]. unfold below in Ha. rewrite Z.shiftr_div_pow2 by done. cbn [dig].
    rewrite (Z.mul_comm (2 ^ k)), Z.div_add, Z.div_small by lia. rewrite Z.add_0_l, <- dig_snoc, <- (evens_tail l a) by (exists n; exact Hl).
    apply dig_evens; [done| |].
    + rewrite length_app. cbn in *. lia.
    + apply Forall_app. split; [done|]. constructor; [unfold below; lia|constructor].
Qed.

Lemma dig_pairs B l : Nat.Even (length l) -> dig B l = dig (B * B) (evens l) + B * dig (B * B) (odds l).
Proof.
  induction l as [| b | b c l IH] using pairs_ind; intros [n Hn]; [cbn; lia|cbn in Hn; lia|].
  cbn [dig evens odds]. rewrite IH by (exists (n - 1)%nat; cbn in Hn; lia). lia.
Qed.

Lemma dig_psum B l : dig B (psum l) = dig B (evens l) + dig B (odds l).
Proof. induction l as [| b | b c l IH] using pairs_ind; [done..|]. cbn [dig psum evens odds]. rewrite IH. lia. Qed.

Lemma psum_spec l n m : length l = (2 * m)%nat -> Forall (below n) l ->
  total (psum l) = total l /\ length (psum l) = m /\ Forall (below (2 * n - 1)) (psum l).
Proof.
  revert m. induction l as [| b | b c l IH] using pairs_ind; intros m Hm HF; [cbn in *; by destruct m|cbn in Hm; lia|].
  apply Forall_cons_1 in HF as [Hb [Hc HF]%Forall_cons_1]. destruct m as [|m]; [cbn in Hm; lia|].
  destruct (IH m) as (I1 & I2 & I3); [cbn in Hm; lia|done|]. cbn [total psum length]. unfold below in Hb, Hc. split; [lia|]. split; [lia|].
  constructor; [unfold below; lia|done].
Qed.

(** The sums of neighbours, all of them. *)
Fixpoint adj (l : list Z) : list Z := match l with [] => [] | a :: l => a + default 0 (head l) :: adj l end.

Lemma adj_spec l n : 0 < n -> Forall (below n) l -> length (adj l) = length l /\ Forall (below (2 * n - 1)) (adj l).
Proof.
  intros Hn. induction 1 as [|x l Hx HF IH]; [done|]. destruct IH as [I1 I2]. cbn [adj length]. split; [by rewrite I1|].
  constructor; [|done]. unfold below in *. destruct HF as [|y l Hy _]; cbn; unfold id; lia.
Qed.

Lemma adj_dig B l : dig B (adj l) = dig B l + dig B (tail l).
Proof. induction l as [|x l IH]; [done|]. cbn [adj dig tail]. rewrite IH. destruct l as [|y l]; cbn; unfold id; lia. Qed.

Lemma evens_adj l : evens (adj l) = psum l.
Proof. induction l as [| b | b c l IH] using pairs_ind; [done..|]. cbn [adj evens psum head from_option default]. unfold id. by rewrite IH. Qed.

(** *** The sum of the bits of a word *)
Lemma count_word_digits l : length l = 32%nat -> Forall (below 2) l -> count_word (dig 2 l) = total l.
Proof.
  intros Hl HF. unfold count_word.
  destruct (psum_spec l 2 16 Hl HF) as (T1 & L1 & F1). destruct (psum_spec _ _ 8 L1 F1) as (T2 & L2 & F2).
  destruct (psum_spec _ _ 4 L2 F2) as (T3 & L3 & F3). cbn in F1, F2, F3.
  set (p1 := psum l) in *. set (p2 := psum p1) in *. set (p3 := psum p2) in *.
  assert (sum_pairs (dig 2 l) = dig 4 p1) as ->.
  { unfold sum_pairs. change 0x55555555 with (mask 1 16).
    pose proof (dig_odds 1 16 l ltac:(lia) Hl HF : Z.land (Z.shiftr (dig 2 l) 1) (mask 1 16) = dig 4 (odds l)) as ->.
    rewrite (dig_pairs 2 l) by (exists 16%nat; lia). pose proof (dig_psum 4 l) as E. fold p1 in E. change (2 * 2) with 4.
    replace (dig 4 (evens l) + 2 * dig 4 (odds l) - dig 4 (odds l)) with (dig 4 p1) by lia.
    apply wrap_small. pose proof (dig_bound 4 p1 ltac:(lia) (dig_weaken 3 4 _ ltac:(lia) F1)) as Hb. by rewrite L1 in Hb. }
  assert (sum_nibbles (dig 4 p1) = dig 16 p2) as ->.
  { pose proof (dig_weaken 3 4 p1 ltac:(lia) F1) as F1'.
    unfold sum_nibbles. change 0x33333333 with (mask 2 8). 
    pose proof (dig_odds 2 8 p1 ltac:(lia) L1 F1' : Z.land (Z.shiftr (dig 4 p1) 2) (mask 2 8) = dig 16 (odds p1)) as ->.
    pose proof (dig_evens 2 8 p1 ltac:(lia) L1 F1' : Z.land (dig 4 p1) (mask 2 8) = dig 16 (evens p1)) as ->.
    rewrite <- dig_psum. fold p2. apply wrap_small.
    pose proof (dig_bound 16 p2 ltac:(lia) (dig_weaken 5 16 _ ltac:(lia) F2)) as Hb. by rewrite L2 in Hb. }
  assert (Z.shiftr (dig 16 p2) 4 = dig 16 (tail p2)) as Hs.
  { rewrite Z.shiftr_div_pow2 by lia. change (2 ^ 4) with 16. destruct F2 as [|x q Hx _]; [done|]. unfold below in Hx. cbn [dig tail].
    rewrite (Z.mul_comm 16), Z.div_add, Z.div_small by lia. lia. }
  destruct (adj_spec p2 5 ltac:(lia) F2) as [LA FA]. unfold sum_word. rewrite Hs, <- adj_dig.
  pose proof (dig_bound 16 (adj p2) ltac:(lia) (dig_weaken 9 16 _ ltac:(lia) FA)) as Hb. rewrite LA, L2 in Hb.
  rewrite (wrap_small 32 (dig 16 (adj p2))) by exact Hb.
  change 0x0F0F0F0F with (mask 4 4). 
  pose proof (dig_evens 4 4 (adj p2) ltac:(lia) ltac:(lia) (dig_weaken 9 16 _ ltac:(lia) FA)
    : Z.land (dig 16 (adj p2)) (mask 4 4) = dig 256 (evens (adj p2))) as ->.
  rewrite evens_adj. fold p3. rewrite <- T1, <- T2, <- T3.
  destruct p3 as [|a [|b [|c [|d [|]]]]]; try (cbn in L3; lia).
  apply Forall_cons_1 in F3 as [Ha [Hb' [Hc [Hd _]%Forall_cons_1]%Forall_cons_1]%Forall_cons_1]. unfold below in *. clear - Ha Hb' Hc Hd.
  cbn [total dig] in *. rewrite Z.shiftr_div_pow2 by lia. unfold wrap. change (2 ^ 32) with 4294967296. change (2 ^ 24) with 16777216.
  Z.to_euclidean_division_equations. lia.
Qed.

(** *** Bytes *)
Lemma all_bytes (P : Z -> Prop) `{forall b, Decision (P b)} b :
  forallb (fun n => bool_decide (P (Z.of_nat n))) (seq 0 256) = true -> is_byte b -> P b.
Proof.
  intros Ht Hb. unfold is_byte in Hb. eapply bool_decide_eq_true_1. rewrite <- (Z2Nat.id b) by lia. apply (proj1 (forallb_forall _ _) Ht). apply in_seq. lia.
Qed.

Lemma bitsinbyte_spec b : is_byte b -> rd bitsinbyte b = Some (ones (byte_bits b)).
Proof.
  apply (all_bytes (fun b => rd bitsinbyte b = Some (ones (byte_bits b)))).
  vm_compute; reflexivity.
Qed.

Definition bit_digits (b : Z) : list Z := (fun i => Z.b2z (Z.testbit b i)) <$> [0; 1; 2; 3; 4; 5; 6; 7].

Lemma bit_digits_spec b : is_byte b -> dig 2 (bit_digits b) = b /\ total (bit_digits b) = ones (byte_bits b).
Proof.
  apply (all_bytes (fun b => dig 2 (bit_digits b) = b /\ total (bit_digits b) = ones (byte_bits b))).
  vm_compute; reflexivity.
Qed.

Lemma dig_app B a b : dig B (a ++ b) = dig B a + B ^ zlen a * dig B b.
Proof. induction a as [|x a IH]; cbn [app dig length]; [lia|]. rewrite IH, Nat2Z.inj_succ, Z.pow_succ_r by lia. lia. Qed.
Lemma digit_total_app a b : total (a ++ b) = total a + total b.
Proof. induction a as [|x a IH]; cbn [app total]; [done|]. rewrite IH. lia. Qed.

Lemma word_digits bs : Forall is_byte bs ->
  dig 2 (bs ≫= bit_digits) = unle bs /\ total (bs ≫= bit_digits) = ones (bits_of bs) /\
  length (bs ≫= bit_digits) = (8 * length bs)%nat /\ Forall (below 2) (bs ≫= bit_digits).
Proof.
  induction 1 as [|b bs Hb _ (I1 & I2 & I3 & I4)]; [done|]. destruct (bit_digits_spec b Hb) as [B1 B2].
  change ((b :: bs) ≫= bit_digits) with (bit_digits b ++ bs ≫= bit_digits).
  change (bits_of (b :: bs)) with (byte_bits b ++ bits_of bs).
  rewrite dig_app, digit_total_app, ones_app, length_app, B1, B2, I1, I2, I3. split; [done|]. split; [done|]. split; [cbn; lia|].
  apply Forall_app. split; [|done]. unfold bit_digits. apply Forall_fmap, Forall_true. intros i. unfold compose, below.
  destruct (Z.testbit b i); cbn; lia.
Qed.

Lemma count_word_spec bs : Forall is_byte bs -> length bs = 4%nat -> count_word (unle bs) = ones (bits_of bs).
Proof.
  intros HF Hl. destruct (word_digits bs HF) as (E1 & E2 & E3 & E4). rewrite <- E1, <- E2. apply count_word_digits; [|done]. rewrite E3, Hl. done.
Qed.

(** *** The loops, on the bytes that are left: [t] at position [p] of [s] *)
Definition at_pos (s : list Z) (p : Z) (t : list Z) : Prop := exists a, s = a ++ t /\ zlen a = p.

Lemma at_pos_app s p a t : at_pos s p (a ++ t) -> rdn s p (zlen a) = Some a /\ at_pos s (p + zlen a) t.
Proof.
  intros (x & -> & <-). split; [by apply rdn_app|]. exists (x ++ a). rewrite length_app, app_assoc. split; [done|lia].
Qed.
Lemma at_pos_cons s p b t : at_pos s p (b :: t) -> rd s p = Some b /\ at_pos s (p + 1) t.
Proof.
  intros (x & -> & <-). split; [by apply rd_app|]. exists (x ++ [b]). rewrite length_app, <- app_assoc. cbn. split; [done|lia].
Qed.

Lemma uint64_ones n l : 0 <= n -> n + ones l < 2 ^ 63 -> uint64 (n + ones l) = n + ones l.
Proof. intros Hn Hb. pose proof (ones_bound l). apply wrap_small. unfold in_u. lia. Qed.

Lemma count_tail_spec s t : forall r fuel p bits,
  at_pos s p (t ++ r) -> Forall is_byte t -> (length t <= fuel)%nat -> 0 <= bits -> bits + ones (bits_of t) < 2 ^ 63 ->
  count_tail fuel s p (zlen t) bits = Some (bits + ones (bits_of t)).
Proof.
  induction t as [|b t IH]; intros r fuel p bits Hp HF Hf Hb Ho.
  - cbn. destruct fuel; cbn; f_equal; lia.
  - apply Forall_cons_1 in HF as [Hbb HF]. destruct (at_pos_cons _ _ _ _ Hp) as [Hr Hp']. destruct fuel as [|fuel]; [cbn in Hf; lia|].
    change (bits_of (b :: t)) with (byte_bits b ++ bits_of t) in *. rewrite ones_app in *. cbn [count_tail].
    pose proof (ones_bound (bits_of t)). pose proof (ones_bound (byte_bits b)).
    rewrite (proj2 (Z.eqb_neq _ _)) by (cbn; lia). rewrite Hr. cbn [mbind option_bind]. rewrite (bitsinbyte_spec b Hbb). cbn [mbind option_bind].
    rewrite uint64_ones by lia. replace (zlen (b :: t) - 1) with (zlen t) by (cbn; lia).
    rewrite (IH r); [f_equal; lia|done|done|cbn in Hf; lia|lia|lia].
Qed.

Lemma take_word {A} n (t : list A) : (n <= length t)%nat -> exists w u, t = w ++ u /\ length w = n.
Proof. intros H. exists (take n t), (drop n t). rewrite take_drop, length_take. split; [done|lia]. Qed.

Definition aligned (w base p : Z) : Prop := Z.land (base + p) (w - 1) = 0.

Lemma aligned_step k w base p n : 0 <= k -> w = 2 ^ k -> aligned w base p -> aligned w base (p + n * w).
Proof.
  intros Hk -> H. unfold aligned in *. rewrite land_ones_wrap in * by done. unfold wrap in *.
  rewrite Z.add_assoc, Z.mod_add; [done|]. apply Z.pow_nonzero; lia.
Qed.

Lemma load_spec strict w base s p a t : zlen a = w -> aligned w base p -> at_pos s p (a ++ t) ->
  load strict w base s p = Some (unle a) /\ at_pos s (p + w) t.
Proof.
  intros <- Ha Hp. destruct (at_pos_app _ _ _ _ Hp) as [E1 E2]. unfold load. rewrite Ha, E1. by rewrite andb_false_r.
Qed.

Lemma count_words_end strict s r fuel t base p bits : at_pos s p (t ++ r) -> zlen t < 16 ->
  exists a b, t = a ++ b /\ at_pos s (p + zlen a) (b ++ r) /\
    count_words strict fuel base s p (zlen t) bits = Some (p + zlen a, zlen b, bits + ones (bits_of a)).
Proof.
  intros Hp Ht. exists [], t. rewrite Z.add_0_r. split; [done|]. split; [done|].
  destruct fuel; cbn [count_words]; rewrite (proj2 (Z.leb_gt _ _)) by lia; do 2 f_equal; cbn; lia.
Qed.

Lemma count_words_spec strict s r fuel : forall t base p bits,
  at_pos s p (t ++ r) -> Forall is_byte t -> (length t <= fuel)%nat -> (16 <= zlen t -> aligned 4 base p) ->
  0 <= bits -> bits + ones (bits_of t) < 2 ^ 63 ->
  exists a b, t = a ++ b /\ at_pos s (p + zlen a) (b ++ r) /\
    count_words strict fuel base s p (zlen t) bits = Some (p + zlen a, zlen b, bits + ones (bits_of a)).
Proof.
  induction fuel as [|fuel IH]; intros t base p bits Hp HF Hf Ha Hb Ho; [by apply count_words_end; [|lia]|].
  destruct (Z.lt_ge_cases (zlen t) 16) as [Hlt|Hge]; [by apply count_words_end|]. specialize (Ha Hge).
  destruct (take_word 4 t) as (w1 & t1 & -> & L1); [lia|]. rewrite length_app in Hge.
  destruct (take_word 4 t1) as (w2 & t2 & -> & L2); [lia|]. rewrite length_app in Hge.
  destruct (take_word 4 t2) as (w3 & t3 & -> & L3); [lia|]. rewrite length_app in Hge.
  destruct (take_word 4 t3) as (w4 & u & -> & L4); [lia|]. rewrite length_app in Hge.
  rewrite <- !app_assoc in Hp. rewrite !Forall_app in HF. destruct HF as (F1 & F2 & F3 & F4 & HF).
  destruct (load_spec strict 4 base s p w1 _ ltac:(lia) Ha Hp) as [E1 P1].
  destruct (load_spec strict 4 base s (p + 4) w2 _ ltac:(lia) (aligned_step 2 4 base p 1 ltac:(lia) eq_refl Ha) P1) as [E2 P2].
  destruct (load_spec strict 4 base s (p + 8) w3 (w4 ++ u ++ r) ltac:(lia) (aligned_step 2 4 base p 2 ltac:(lia) eq_refl Ha)) as [E3 P3].
  { by replace (p + 8) with (p + 4 + 4) by lia. }
  destruct (load_spec strict 4 base s (p + 12) w4 (u ++ r) ltac:(lia) (aligned_step 2 4 base p 3 ltac:(lia) eq_refl Ha)) as [E4 P4].
  { by replace (p + 12) with (p + 8 + 4) by lia. }
  rewrite !bits_of_app, !ones_app in Ho. cbn [count_words].
  rewrite (proj2 (Z.leb_le _ _)) by (rewrite !length_app; lia). rewrite E1, E2, E3, E4. cbn [mbind option_bind].
  rewrite !count_word_spec by done.
  pose proof (fun l => ones_bound (bits_of l)) as Hob. pose proof (Hob w1) as H1. pose proof (Hob w2) as H2. pose proof (Hob w3) as H3.
  pose proof (Hob w4) as H4. pose proof (Hob u). rewrite bits_of_length in H1, H2, H3, H4.
  rewrite (wrap_small 32 (ones (bits_of w1) + _)), (wrap_small 32 (_ + ones (bits_of w3))), (wrap_small 32) by (unfold in_u; lia).
  rewrite (wrap_small 64) by (unfold in_u; lia).
  replace (zlen (w1 ++ w2 ++ w3 ++ w4 ++ u) - 16) with (zlen u) by (rewrite !length_app; lia).
  replace (p + 12 + 4) with (p + 16) in P4 by lia.
  destruct (IH u base (p + 16) (bits + (ones (bits_of w1) + ones (bits_of w2) + ones (bits_of w3) + ones (bits_of w4))))
    as (a & b & -> & Q1 & Q2); [done|done|rewrite !length_app in Hf; lia|intros _; by apply (aligned_step 2 4 base p 4)|lia|lia|].
  exists (w1 ++ w2 ++ w3 ++ w4 ++ a), b. split; [by rewrite <- !app_assoc|].
  replace (p + zlen (w1 ++ w2 ++ w3 ++ w4 ++ a)) with (p + 16 + zlen a) by (rewrite !length_app; lia).
  split; [done|]. rewrite Q2, !bits_of_app, !ones_app. do 2 f_equal. lia.
Qed.

Lemma count_head_spec s r fuel : forall t base p bits,
  at_pos s p (t ++ r) -> Forall is_byte t -> (length t <= fuel)%nat -> 0 <= bits -> bits + ones (bits_of t) < 2 ^ 63 ->
  exists a b, t = a ++ b /\ at_pos s (p + zlen a) (b ++ r) /\ (b = [] \/ aligned 4 base (p + zlen a)) /\
    count_head fuel base s p (zlen t) bits = Some (p + zlen a, zlen b, bits + ones (bits_of a)).
Proof.
  induction fuel as [|fuel IH]; intros t base p bits Hp HF Hf Hb Ho; cbn [count_head].
  all: destruct t as [|b t]; [|cbn [length] in *].
  1,3: exists [], []; cbn; rewrite andb_false_r, !Z.add_0_r; auto.
  - lia.
  - destruct (Z.land (base + p) 3 =? 0) eqn:Ha; cbn [negb andb].
    { exists [], (b :: t). cbn. rewrite !Z.add_0_r. split; [done|]. split; [done|]. split; [right; by apply Z.eqb_eq|done]. }
    apply Forall_cons_1 in HF as [Hbb HF]. destruct (at_pos_cons _ _ _ _ Hp) as [Hr Hp'].
    change (bits_of (b :: t)) with (byte_bits b ++ bits_of t) in *. rewrite ones_app in Ho.
    pose proof (ones_bound (bits_of t)). pose proof (ones_bound (byte_bits b)).
    rewrite (proj2 (Z.eqb_neq _ _)) by lia. rewrite Hr. cbn [negb mbind option_bind]. rewrite (bitsinbyte_spec b Hbb). cbn [mbind option_bind].
    rewrite uint64_ones by lia. replace (Z.of_nat (S (length t)) - 1) with (zlen t) by lia.
    destruct (IH t base (p + 1) (bits + ones (byte_bits b))) as (x & y & -> & Q1 & Q2 & Q3); [done|done|lia|lia|lia|].
    exists (b :: x), y. replace (p + zlen (b :: x)) with (p + 1 + zlen x) by (cbn [length]; lia).
    split; [done|]. split; [done|]. split; [done|]. rewrite Q3. change (bits_of (b :: x)) with (byte_bits b ++ bits_of x). rewrite ones_app.
    do 2 f_equal. lia.
Qed.

Lemma redisPopcount_part strict base x t r :
  Forall is_byte t -> zlen t < 2 ^ 59 ->
  redisPopcount strict base (x ++ t ++ r) (zlen x) (zlen t) = Some (ones (bits_of t)).
Proof.
  intros HF Hl. pose proof (fun l => ones_bound (bits_of l)) as Hob. pose proof (Hob t) as Ht. rewrite bits_of_length in Ht.
  unfold redisPopcount.
  destruct (count_head_spec (x ++ t ++ r) r (Z.to_nat (zlen t)) t base (zlen x) 0) as (a & b & -> & P1 & Ha & ->);
    [by exists x|done|lia|lia|lia|].
  cbn [mbind option_bind]. rewrite Forall_app in HF. destruct HF as [_ HF]. rewrite bits_of_app, ones_app, length_app in *.
  pose proof (Hob a). pose proof (Hob b).
  destruct (count_words_spec strict (x ++ (a ++ b) ++ r) r (Z.to_nat (Z.of_nat (length a + length b))) b base (zlen x + zlen a) (0 + ones (bits_of a)))
    as (c & d & -> & P2 & ->); [done|done|lia| |lia|lia|].
  { intros H16. destruct Ha as [->|Ha]; [cbn in H16; lia|done]. }
  cbn [mbind option_bind]. rewrite Forall_app in HF. destruct HF as [_ HF]. rewrite bits_of_app, ones_app, length_app in *.
  pose proof (Hob c). pose proof (Hob d).
  rewrite (count_tail_spec _ d r) by (done || lia). f_equal. lia.
Qed.

(** C33: the number that redisPopcount returns for a part of a string, at any
    address, is the number of the bits that are set in it: a byte at a time up
    to the first aligned word, then four words at a time by adding neighbouring
    digits within the words, then the rest by the table; every word is read
    from an aligned address inside the string. *)
Theorem redisPopcount_counts strict base x t r :
  Forall is_byte t -> zlen t < 2 ^ 59 ->
  redisPopcount strict base (x ++ t ++ r) (zlen x) (zlen t) = Some (ones (bits_of t)).
Proof. apply redisPopcount_part. Qed.

Lemma redisPopcount_counts_witness : redisPopcount true 3 [1; 2; 3; 255; 7] 1 3 = Some 11.
Proof.
  change (redisPopcount true 3 ([1] ++ [2; 3; 255] ++ [7]) (zlen [1]) (zlen [2; 3; 255]) = Some (ones (bits_of [2; 3; 255]))).
  apply redisPopcount_counts; [|done]. repeat constructor; unfold is_byte; lia.
Defined.

(** ** The first bit with a value *)
Fixpoint first_bit (v : bool) (l : list bool) : option Z :=
  match l with [] => None | x :: l => if Bool.eqb x v then Some 0 else (Z.add 1) <$> first_bit v l end.

Lemma first_bit_app v a b :
  first_bit v (a ++ b) = match first_bit v a with Some i => Some i | None => (Z.add (zlen a)) <$> first_bit v b end.
Proof.
  induction a as [|x a IH]; cbn [app first_bit]; [by destruct (first_bit v b)|].
  destruct (Bool.eqb x v); [done|]. rewrite IH. destruct (first_bit v a); [done|]. destruct (first_bit v b); [|done].
  cbn. f_equal. cbn [length]. lia.
Qed.

(** The byte with no bit of that value. *)
Definition skip_byte (v : bool) : Z := if v then 0 else 255.

Lemma first_bit_byte v b : is_byte b -> first_bit v (byte_bits b) = None <-> b = skip_byte v.
Proof.
  intros Hb. split; [|by intros ->; destruct v].
  destruct v; [apply (all_bytes (fun b => first_bit true (byte_bits b) = None -> b = skip_byte true) b)|
    apply (all_bytes (fun b => first_bit false (byte_bits b) = None -> b = skip_byte false) b)]; try done; vm_compute; reflexivity.
Qed.

Lemma first_bit_skip v s : Forall is_byte s -> first_bit v (bits_of s) = None <-> Forall (eq (skip_byte v)) s.
Proof.
  induction 1 as [|b s Hb _ IH]; [done|]. change (bits_of (b :: s)) with (byte_bits b ++ bits_of s). rewrite first_bit_app. split.
  - intros H. destruct (first_bit v (byte_bits b)) eqn:E; [done|]. apply first_bit_byte in E as ->; [|done].
    constructor; [done|]. apply IH. by destruct (first_bit v (bits_of s)).
  - intros [<- H]%Forall_cons_1. rewrite (proj2 (first_bit_byte v _ Hb) eq_refl). by rewrite (proj2 IH H).
Qed.

Lemma unle_skip (v : bool) a : Forall is_byte a -> unle a = (if v then 0 else 256 ^ zlen a - 1) <-> Forall (eq (skip_byte v)) a.
Proof.
  induction 1 as [|b a Hb HF IH]; [by destruct v|]. pose proof (unle_bound a HF) as Hu. unfold is_byte in Hb.
  cbn [unle length]. rewrite Nat2Z.inj_succ, Z.pow_succ_r by lia. split.
  - intros H. assert (b = skip_byte v /\ unle a = (if v then 0 else 256 ^ zlen a - 1)) as [-> Ha].
    { destruct v; cbn [skip_byte]; lia. }
    constructor; [done|]. by apply IH.
  - intros [<- Ha%IH]%Forall_cons_1. rewrite Ha. destruct v; cbn [skip_byte]; lia.
Qed.

(** The bytes of a word, the first the most significant. *)
Fixpoint be (q : list Z) : Z := match q with [] => 0 | b :: q => b * 2 ^ (8 * zlen q) + be q end.

Lemma be_bound q : Forall is_byte q -> 0 <= be q < 2 ^ (8 * zlen q).
Proof.
  induction 1 as [|b q Hb _ IH]; [done|]. unfold is_byte in Hb. cbn [be length].
  replace (8 * Z.of_nat (S (length q))) with (8 + 8 * zlen q) by lia. rewrite Z.pow_add_r by lia. change (2 ^ 8) with 256. nia.
Qed.
Lemma be_snoc q b : be (q ++ [b]) = be q * 256 + b.
Proof.
  induction q as [|x q IH]; cbn [app be length]; [lia|]. rewrite IH, length_app. cbn [length].
  replace (8 * Z.of_nat (length q + 1)) with (8 * zlen q + 8) by lia. rewrite Z.pow_add_r by lia. lia.
Qed.
Lemma be_zero q : Forall is_byte q -> be q = 0 <-> Forall (eq 0) q.
Proof.
  induction 1 as [|b q Hb HF IH]; [done|]. pose proof (be_bound q HF). unfold is_byte in Hb. cbn [be]. split.
  - intros H1. assert (b = 0 /\ be q = 0) as [-> H2%IH] by nia. by constructor.
  - intros [<- H1%IH]%Forall_cons_1. lia.
Qed.

(** The lowest [n] bits, from the highest of them. *)
Fixpoint bits_down (n : nat) (x : Z) : list bool :=
  match n with O => [] | S n => Z.testbit x (Z.of_nat n) :: bits_down n x end.

Lemma bits_down_high n m b y : 0 <= y < 2 ^ Z.of_nat n ->
  bits_down (m + n) (b * 2 ^ Z.of_nat n + y) = bits_down m b ++ bits_down n y.
Proof.
  intros Hy. assert (b * 2 ^ Z.of_nat n + y = Z.lor (Z.shiftl b (Z.of_nat n)) y) as E by (by rewrite lor_shiftl by lia).
  induction m as [|m IH]; cbn [Nat.add bits_down app].
  - clear -E Hy. rewrite E. clear E. assert (forall k, (k <= n)%nat -> bits_down k (Z.lor (Z.shiftl b (Z.of_nat n)) y) = bits_down k y) as H; [|by apply H].
    induction k as [|k IH]; intros Hk; [done|]. cbn [bits_down]. rewrite IH by lia. f_equal.
    rewrite Z.lor_spec, Z.shiftl_spec_low by lia. done.
  - rewrite IH. f_equal. rewrite E, Z.lor_spec, Z.shiftl_spec by lia.
    rewrite <- (wrap_small (Z.of_nat n) y) by done. unfold wrap. rewrite Z.mod_pow2_bits_high by lia. rewrite orb_false_r. f_equal. lia.
Qed.

Lemma bits_down_be q : Forall is_byte q -> bits_down (8 * length q) (be q) = bits_of q.
Proof.
  induction 1 as [|b q Hb HF IH]; [done|]. change (bits_of (b :: q)) with (byte_bits b ++ bits_of q). cbn [be length].
  pose proof (be_bound q HF) as Hb'. replace (8 * S (length q))%nat with (8 + 8 * length q)%nat by lia.
  replace (8 * zlen q) with (Z.of_nat (8 * length q)) in * by lia. by rewrite bits_down_high, IH.
Qed.

Section Bitpos.
Context (strict : bool) (k : Z) (Hk : 0 <= k).
Let ulong := 2 ^ k.

Lemma ulong_pos : 0 < ulong.
Proof. by apply Z.pow_pos_nonneg. Qed.

(** Positions that fit in a [long]. *)
Definition fits (n : Z) : Prop := 0 <= n < 2 ^ (8 * ulong - 1).

Lemma to_long_fits n : fits n -> to_long ulong n = n.
Proof. pose proof ulong_pos. intros Hn. apply swrap_small; [lia|]. unfold in_s, fits in *. lia. Qed.

Lemma skip_bytes_spec v s r fuel : forall t base c pos,
  at_pos s c (t ++ r) -> (length t <= fuel)%nat -> 0 <= pos -> fits (pos + 8 * zlen t) ->
  exists a b, t = a ++ b /\ at_pos s (c + zlen a) (b ++ r) /\ Forall (eq (skip_byte v)) a /\ (aligned ulong base c -> a = []) /\
    skip_bytes ulong fuel base s (skip_byte v) c (zlen t) pos = Some (c + zlen a, zlen b, pos + 8 * zlen a).
Proof.
  induction fuel as [|fuel IH]; intros t base c pos Hp Hf H0 Hfit; cbn [skip_bytes].
  all: destruct t as [|b t]; [|cbn [length] in *].
  1,3: exists [], []; cbn; rewrite andb_false_r, !Z.add_0_r; auto.
  - lia.
  - assert (exists a b0, b :: t = a ++ b0 /\ at_pos s (c + zlen a) (b0 ++ r) /\ Forall (eq (skip_byte v)) a /\ (aligned ulong base c -> a = []) /\
      Some (c, Z.of_nat (S (length t)), pos) = Some (c + zlen a, zlen b0, pos + 8 * zlen a)) as Hstop.
    { exists [], (b :: t). cbn. rewrite !Z.add_0_r. auto. }
    destruct (at_pos_cons _ _ _ _ Hp) as [Hr Hp'].
    destruct (Z.land (base + c) (ulong - 1) =? 0) eqn:Ha; cbn [negb andb]; [done|].
    rewrite (proj2 (Z.eqb_neq _ _)) by lia. cbn [negb]. rewrite Hr. cbn [mbind option_bind].
    destruct (b =? skip_byte v) eqn:Hb; cbn [negb]; [|done]. clear Hstop. apply Z.eqb_eq in Hb as ->.
    rewrite to_long_fits by (unfold fits in *; lia). replace (Z.of_nat (S (length t)) - 1) with (zlen t) by lia.
    destruct (IH t base (c + 1) (pos + 8)) as (x & y & -> & Q1 & Q2 & Q3 & Q4); [done|lia|lia|unfold fits in *; lia|].
    exists (skip_byte v :: x), y. replace (c + zlen (skip_byte v :: x)) with (c + 1 + zlen x) by (cbn [length]; lia).
    split; [done|]. split; [done|]. split; [by constructor|]. split; [|rewrite Q4; do 2 f_equal; cbn [length]; lia].
    intros Hal. unfold aligned in Hal. rewrite Hal in Ha. done.
Qed.

Lemma skip_words_spec v s r base fuel : forall t l pos,
  at_pos s l (t ++ r) -> Forall is_byte t -> (length t <= fuel)%nat -> 0 <= pos -> fits (pos + 8 * zlen t) ->
  strict = false \/ aligned ulong base l ->
  exists a b, t = a ++ b /\ at_pos s (l + zlen a) (b ++ r) /\ Forall (eq (skip_byte v)) a /\
    (zlen b < ulong \/ ~ Forall (eq (skip_byte v)) (take (Z.to_nat ulong) b)) /\
    skip_words strict ulong fuel base s (if v then 0 else ULONG_MAX ulong) l (zlen t) pos = Some (l + zlen a, zlen b, pos + 8 * zlen a).
Proof.
  pose proof ulong_pos as Hu. induction fuel as [|fuel IH]; intros t l pos Hp HF Hf H0 Hfit Ha; cbn [skip_words].
  all: destruct (Z.leb_spec ulong (zlen t)) as [Hle|Hlt];
    [|exists [], t; cbn; rewrite !Z.add_0_r; auto 7].
  { lia. }
  destruct (take_word (Z.to_nat ulong) t) as (w & u & -> & Hw); [lia|]. rewrite <- app_assoc in Hp.
  apply Forall_app in HF as [HFw HFu]. rewrite length_app in *.
  assert (load strict ulong base s l = Some (unle w) /\ at_pos s (l + ulong) (u ++ r)) as [-> Hp'].
  { destruct Ha as [->|Ha]; [|by apply load_spec; [lia|..]]. destruct (at_pos_app _ _ _ _ Hp) as [E1 E2].
    replace (zlen w) with ulong in * by lia. unfold load. cbn [andb]. by rewrite E1. }
  cbn [mbind option_bind].
  assert ((if v then 0 else ULONG_MAX ulong) = (if v then 0 else 256 ^ zlen w - 1)) as ->.
  { destruct v; [done|]. unfold ULONG_MAX. replace (zlen w) with ulong by lia. rewrite pow256 by lia. done. }
  destruct (Z.eqb_spec (unle w) (if v then 0 else 256 ^ zlen w - 1)) as [Heq|Hne]; cbn [negb].
  - apply unle_skip in Heq; [|done]. rewrite to_long_fits by (unfold fits in *; lia).
    replace (Z.of_nat (length w + length u) - ulong) with (zlen u) by lia. replace (pos + ulong * 8) with (pos + 8 * zlen w) by lia.
    assert ((if v then 0 else 256 ^ zlen w - 1) = (if v then 0 else ULONG_MAX ulong)) as ->.
    { destruct v; [done|]. unfold ULONG_MAX. replace (zlen w) with ulong by lia. rewrite pow256 by lia. done. }
    destruct (IH u (l + ulong) (pos + 8 * zlen w)) as (x & y & -> & Q1 & Q2 & Q3 & Q4);
      [done|done|lia|lia|unfold fits in *; lia|destruct Ha as [?|Ha]; [by left|right; rewrite <- (Z.mul_1_l ulong) at 2; by apply (aligned_step k)]|].
    exists (w ++ x), y. replace (l + zlen (w ++ x)) with (l + ulong + zlen x) by (rewrite length_app; lia).
    split; [by rewrite app_assoc|]. split; [done|]. split; [by apply Forall_app|]. split; [done|].
    rewrite Q4. do 2 f_equal. rewrite length_app. lia.
  - exists [], (w ++ u). rewrite !Z.add_0_r, length_app. split; [done|]. split; [by rewrite <- app_assoc|]. split; [done|]. split; [|do 3 f_equal; cbn; lia].
    right. rewrite take_app_length' by done. by rewrite <- unle_skip.
Qed.

Lemma load_word_spec s r : forall n t q c,
  at_pos s c (t ++ r) -> Forall is_byte (q ++ t) -> zlen q + Z.of_nat n = ulong ->
  load_word ulong n s c (zlen t) (be q) = Some (be (q ++ take n t ++ replicate (n - length t) 0)).
Proof.
  induction n as [|n IH]; intros t q c Hp HF Hn; cbn [load_word].
  - cbn. by rewrite app_nil_r.
  - apply Forall_app in HF as [HFq HF]. pose proof (be_bound q HFq) as Hq.
    assert (to_ulong ulong (Z.shiftl (be q) 8) = be (q ++ [0])) as ->.
    { rewrite be_snoc, Z.shiftl_mul_pow2, Z.add_0_r by lia. apply wrap_small. unfold in_u. change (2 ^ 8) with 256. split; [lia|].
      replace (8 * ulong) with (8 * zlen q + (8 + 8 * Z.of_nat n)) by lia. rewrite Z.pow_add_r by lia.
      assert (256 <= 2 ^ (8 + 8 * Z.of_nat n)); [|nia]. change 256 with (2 ^ 8). apply Z.pow_le_mono_r; lia. }
    destruct t as [|b t]; cbn [length]; [cbn [negb Z.of_nat Z.eqb]|rewrite (proj2 (Z.eqb_neq _ _)) by lia; cbn [negb]].
    + etrans; [apply (IH [] (q ++ [0]) c Hp)|].
      * rewrite app_nil_r in *. apply Forall_app. split; [done|]. constructor; [done|constructor].
      * rewrite length_app. cbn. lia.
      * rewrite <- app_assoc. cbn. by rewrite Nat.sub_0_r, take_nil.
    + destruct (at_pos_cons _ _ _ _ Hp) as [-> Hp']. cbn [mbind option_bind]. apply Forall_cons_1 in HF as [Hb HF].
      assert (Z.lor (be (q ++ [0])) b = be (q ++ [b])) as ->.
      { rewrite !be_snoc, Z.add_0_r. change 256 with (2 ^ 8). rewrite <- (lor_shiftl (be q) b 8) by (lia || exact Hb).
        by rewrite Z.shiftl_mul_pow2. }
      replace (Z.of_nat (S (length t)) - 1) with (zlen t) by lia. rewrite (IH t (q ++ [b]) (c + 1) Hp').
      * by rewrite <- app_assoc.
      * rewrite <- app_assoc. apply Forall_app. split; [done|]. by constructor.
      * rewrite length_app. cbn. lia.
Qed.

Lemma land_pow2 x n : 0 <= n -> negb (Z.land (2 ^ n) x =? 0) = Z.testbit x n.
Proof.
  intros Hn. rewrite Z.land_comm. destruct (Z.testbit x n) eqn:E.
  - apply negb_true_iff, Z.eqb_neq. intros H. apply (f_equal (fun y => Z.testbit y n)) in H.
    rewrite Z.land_spec, Z.pow2_bits_true, E, Z.bits_0 in H by done. done.
  - apply negb_false_iff, Z.eqb_eq, Z.bits_inj'. intros i Hi. rewrite Z.land_spec, Z.bits_0. destruct (Z.eq_dec i n) as [->|Hne].
    + by rewrite E.
    + rewrite Z.pow2_bits_false by done. apply andb_false_r.
Qed.

Lemma scan_word_spec v word : forall n fuel pos i, (n <= fuel)%nat -> 0 <= pos -> fits (pos + Z.of_nat n) ->
  first_bit v (bits_down (S n) word) = Some i ->
  scan_word ulong fuel (2 ^ Z.of_nat n) word (Z.b2z v) pos = Some (pos + i).
Proof.
  induction n as [|n IH]; intros fuel pos i Hf H0 Hfit H; cbn [bits_down first_bit] in H.
  all: pose proof (land_pow2 word) as Hl; destruct fuel as [|fuel]; cbn [scan_word];
    rewrite (proj2 (Z.eqb_neq _ _)) by (apply Z.pow_nonzero; lia); rewrite Hl by lia.
  1,2: destruct (Z.testbit word (Z.of_nat 0)), v; try done; injection H as <-; by rewrite Z.add_0_r.
  - lia.
  - cbn [bits_down first_bit] in IH. destruct (Bool.eqb (Z.testbit word (Z.of_nat (S n))) v) eqn:E.
    + apply eqb_prop in E as ->. rewrite Z.eqb_refl. injection H as <-. by rewrite Z.add_0_r.
    + replace (Z.b2z (Z.testbit word (Z.of_nat (S n))) =? Z.b2z v) with false by (destruct (Z.testbit word (Z.of_nat (S n))), v; done).
      rewrite to_long_fits by (unfold fits in *; lia).
      replace (Z.shiftr (2 ^ Z.of_nat (S n)) 1) with (2 ^ Z.of_nat n).
      2: { rewrite Z.shiftr_div_pow2, Nat2Z.inj_succ, Z.pow_succ_r by lia. change (2 ^ 1) with 2. by rewrite Z.mul_comm, Z.div_mul. }
      change (if Bool.eqb (Z.testbit word (Z.of_nat n)) v then Some 0 else Z.add 1 <$> first_bit v (bits_down n word))
        with (first_bit v (bits_down (S n) word)) in H.
      destruct (first_bit v (bits_down (S n) word)) as [j|] eqn:Ej; [|done]. injection H as <-.
      rewrite (IH fuel (pos + 1) j); [f_equal; lia|lia|lia|unfold fits in *; lia|done].
Qed.

Lemma top_bit : to_ulong ulong (Z.lnot (Z.shiftr (ULONG_MAX ulong) 1)) = 2 ^ Z.of_nat (8 * Z.to_nat ulong - 1).
Proof.
  pose proof ulong_pos as Hu. unfold ULONG_MAX, to_ulong, Z.lnot. replace (Z.of_nat (8 * Z.to_nat ulong - 1)) with (8 * ulong - 1) by lia.
  assert (2 ^ (8 * ulong) = 2 * 2 ^ (8 * ulong - 1)) as Hp by (rewrite <- Z.pow_succ_r by lia; f_equal; lia).
  assert (0 < 2 ^ (8 * ulong - 1)) as H0 by (apply Z.pow_pos_nonneg; lia). set (n := 2 ^ (8 * ulong - 1)) in *.
  rewrite Hp, Z.shiftr_div_pow2 by lia. change (2 ^ 1) with 2. replace (2 * n - 1) with (1 + (n - 1) * 2) by lia.
  rewrite Z.div_add, Z.div_small by lia. unfold wrap. rewrite Hp. replace (Z.pred (- (0 + (n - 1)))) with (n + (-1) * (2 * n)) by lia.
  rewrite Z.mod_add by lia. apply Z.mod_small. lia.
Qed.

(** The bytes of the last word, padded with zeros. *)
Definition last_word (d : list Z) : list Z := take (Z.to_nat ulong) d ++ replicate (Z.to_nat ulong - length d) 0.

Lemma last_word_ok d : Forall is_byte d -> Forall is_byte (last_word d) /\ length (last_word d) = Z.to_nat ulong.
Proof.
  intros HF. unfold last_word. split.
  - apply Forall_app. split; [by apply Forall_take|]. apply Forall_replicate. unfold is_byte. lia.
  - rewrite length_app, length_take, length_replicate. lia.
Qed.

(** Looking for the bit in the last word is looking for it in the rest of the
    string, with zeros behind it. *)
Lemma last_word_first v d : Forall is_byte d -> zlen d < ulong \/ ~ Forall (eq (skip_byte v)) (take (Z.to_nat ulong) d) ->
  first_bit v (bits_of (last_word d)) =
    match first_bit v (bits_of d) with Some i => Some i | None => if v then None else Some (8 * zlen d) end.
Proof.
  intros HF [Hl|Hn].
  - unfold last_word. rewrite take_ge by lia. rewrite bits_of_app, first_bit_app, bits_of_length.
    destruct (first_bit v (bits_of d)); [done|]. destruct (Z.to_nat ulong - length d)%nat as [|n] eqn:E; [lia|].
    assert (Forall is_byte (replicate (S n) 0)) as HF0 by (apply Forall_replicate; unfold is_byte; lia).
    destruct v.
    + rewrite (proj2 (first_bit_skip true _ HF0)); [done|]. by apply Forall_replicate.
    + change (bits_of (replicate (S n) 0)) with (byte_bits 0 ++ bits_of (replicate n 0)). rewrite first_bit_app. cbn. f_equal. lia.
  - rewrite <- (take_drop (Z.to_nat ulong) d) at 2. rewrite bits_of_app, first_bit_app.
    assert (first_bit v (bits_of (take (Z.to_nat ulong) d)) <> None) as Hs by (rewrite first_bit_skip; [done|by apply Forall_take]).
    unfold last_word. rewrite bits_of_app, first_bit_app. by destruct (first_bit v (bits_of (take _ d))).
Qed.

Lemma redisBitpos_part base x t r v :
  Forall is_byte t -> fits (8 * zlen t + 8 * ulong) -> strict = false \/ aligned ulong base (zlen x) ->
  redisBitpos strict ulong base (x ++ t ++ r) (zlen x) (zlen t) (Z.b2z v) =
    Some (match first_bit v (bits_of t) with Some i => i | None => if v then -1 else 8 * zlen t end).
Proof.
  pose proof ulong_pos as Hu. intros HF Hfit Hst. unfold redisBitpos.
  assert ((if Z.b2z v =? 0 then 255 else 0) = skip_byte v) as -> by by destruct v.
  assert ((if Z.b2z v =? 0 then ULONG_MAX ulong else 0) = (if v then 0 else ULONG_MAX ulong)) as -> by by destruct v.
  destruct (skip_bytes_spec v (x ++ t ++ r) r (Z.to_nat (zlen t)) t base (zlen x) 0) as (a & b & -> & P1 & Fa & Ha & ->);
    [by exists x|lia|lia|unfold fits in *; lia|].
  cbn [mbind option_bind]. apply Forall_app in HF as [HFa HFb]. rewrite length_app in *.
  destruct (skip_words_spec v (x ++ (a ++ b) ++ r) r base (Z.to_nat (Z.of_nat (length a + length b))) b (zlen x + zlen a) (0 + 8 * zlen a))
    as (c & d & -> & P2 & Fc & Hd & ->); [done|done|lia|lia|unfold fits in *; lia| |].
  { destruct Hst as [?|Hal]; [by left|]. right. rewrite (Ha Hal). by rewrite Z.add_0_r. }
  cbn [mbind option_bind]. apply Forall_app in HFb as [HFc HFd]. rewrite length_app in *.
  pose proof (load_word_spec _ r (Z.to_nat ulong) d [] _ P2 HFd ltac:(cbn; lia)) as E. cbn [be app] in E. rewrite E. clear E.
  fold (last_word d). cbn [mbind option_bind]. destruct (last_word_ok d HFd) as [HFw Hlw].
  pose proof (last_word_first v d HFd Hd) as Hw. rewrite !bits_of_app, !first_bit_app.
  rewrite (proj2 (first_bit_skip v a HFa) Fa), (proj2 (first_bit_skip v c HFc) Fc), !bits_of_length.
  pose proof (first_bit_skip v (last_word d) HFw) as Hskip. pose proof (bits_down_be _ HFw) as Hbd. rewrite Hlw in Hbd.
  destruct (Z.to_nat ulong) as [|n] eqn:En; [lia|]. replace (8 * S n)%nat with (S (8 * S n - 1)) in Hbd by lia.
  destruct (first_bit v (bits_of (last_word d))) as [i|] eqn:Ei.
  - assert ((Z.b2z v =? 1) && (be (last_word d) =? 0) = false) as ->.
    { destruct v; [|done]. apply Z.eqb_neq. intros H0%be_zero; [|done]. by apply (proj2 Hskip) in H0. }
    rewrite top_bit, En. rewrite (scan_word_spec v (be (last_word d)) (8 * S n - 1) _ _ i); [|lia|lia|unfold fits in *; lia|by rewrite Hbd].
    destruct (first_bit v (bits_of d)) as [j|]; [injection Hw as ->; cbn; f_equal; lia|].
    destruct v; [done|]. injection Hw as ->. cbn. f_equal. lia.
  - destruct v; [|by destruct (first_bit false (bits_of d))]. assert (be (last_word d) = 0) as -> by (by apply be_zero, Hskip).
    cbn. by destruct (first_bit true (bits_of d)).
Qed.

(** C34: redisBitpos returns the position of the first bit with the value that
    is looked for, the bits of a byte taken from the most significant one; when
    there is none it returns -1 for a set bit, and for a clear bit the position
    behind the string, which is taken to be followed by zeros. The panic is not
    reached. Machines that do not read words at every address need an aligned
    string, and positions have to fit in a long. *)
Theorem redisBitpos_finds base x t r v :
  Forall is_byte t -> fits (8 * zlen t + 8 * ulong) -> strict = false \/ aligned ulong base (zlen x) ->
  redisBitpos strict ulong base (x ++ t ++ r) (zlen x) (zlen t) (Z.b2z v) =
    Some (match first_bit v (bits_of t) with Some i => i | None => if v then -1 else 8 * zlen t end).
Proof. apply redisBitpos_part. Qed.
End Bitpos.

Lemma redisBitpos_finds_witness :
  redisBitpos true 8 0 ([] ++ [0; 0; 0; 0; 0; 0; 0; 0; 0; 4; 7] ++ [0]) 0 11 1 = Some 77.
Proof.
  apply (redisBitpos_finds true 3 ltac:(lia) 0 [] [0; 0; 0; 0; 0; 0; 0; 0; 0; 4; 7] [0] true); [|split; [done|done]|right; reflexivity].
  repeat constructor; unfold is_byte; lia.
Defined.

(** when the string does not start at an aligned address and one of its
    first bytes already holds the bit, redisBitpos leaves the loop over bytes
    there and reads a word from that unaligned address all the same; on a
    machine without unaligned reads it fails on a string of nine bytes, whose
    second bit is set. *)
Theorem redisBitpos_reads_unaligned :
  redisBitpos true 8 1 [64; 0; 0; 0; 0; 0; 0; 0; 0] 0 9 1 = None /\
  redisBitpos false 8 1 [64; 0; 0; 0; 0; 0; 0; 0; 0] 0 9 1 = Some 1.
Proof. split; vm_compute; reflexivity. Qed.

(** ** BITOP *)
Lemma le_step op x y : op <> BITOP_NOT -> 
  bop op x y mod 256 = bop op (x mod 256) (y mod 256) /\ bop op x y / 256 = bop op (x / 256) (y / 256).
Proof.
  intros Hop. change 256 with (2 ^ 8). rewrite <- !Z.land_ones, <- !Z.shiftr_div_pow2 by lia.
  destruct op; cbn [bop]; [| | |done]; rewrite ?Z.shiftr_land, ?Z.shiftr_lor, ?Z.shiftr_lxor; (split; [|done]); apply Z.bits_inj'; intros n Hn.
  all: repeat rewrite ?Z.land_spec, ?Z.lor_spec, ?Z.lxor_spec; destruct (Z.testbit x n), (Z.testbit y n), (Z.testbit (Z.ones 8) n); done.
Qed.

Lemma le_bop op n : forall x y, op <> BITOP_NOT -> le n (bop op x y) = zip_with (bop op) (le n x) (le n y).
Proof.
  induction n as [|n IH]; intros x y Hop; [done|]. cbn [le zip_with]. destruct (le_step op x y Hop) as [-> ->]. by rewrite IH.
Qed.

Lemma le_not n : forall x, le n (Z.lnot x) = (fun b => 255 - b) <$> le n x.
Proof.
  induction n as [|n IH]; intros x; [done|]. cbn [le fmap list_fmap]. f_equal.
  - unfold Z.lnot. Z.to_euclidean_division_equations. lia.
  - change (list_fmap Z Z (fun b => 255 - b) (le n (x / 256))) with ((fun b => 255 - b) <$> le n (x / 256)). rewrite <- IH. f_equal.
    unfold Z.lnot. Z.to_euclidean_division_equations. lia.
Qed.

Lemma le_mod n z : le n (wrap (8 * Z.of_nat n) z) = le n z.
Proof.
  pose proof (le_unle (le n z) (le_bytes n z)) as H. rewrite unle_le, le_length, pow256 in H by lia. exact H.
Qed.

Section BitopSpec.
Context (ulong : Z) (Hu : 0 < ulong).

(** A range of a block that is written, cell by cell. *)
Lemma wrn_lookup (m : list Z) p bs m' : wrn m p bs = Some m' -> 
  length m' = length m /\ forall i : nat, m' !! i = if bool_decide (p <= Z.of_nat i < p + zlen bs) then bs !! (i - Z.to_nat p)%nat else m !! i.
Proof.
  intros H. split; [by eapply wrn_length|]. unfold wrn in H.
  destruct (Z.leb_spec 0 p), (Z.leb_spec (p + zlen bs) (zlen m)); try done. injection H as <-. intros i.
  assert (length (take (Z.to_nat p) m) = Z.to_nat p) as Hl by (rewrite length_take; lia). case_bool_decide as Hi.
  - rewrite lookup_app_r by lia. rewrite Hl. rewrite lookup_app_l by lia. done.
  - destruct (decide (Z.of_nat i < p)).
    + rewrite lookup_app_l by lia. apply lookup_take_lt. lia.
    + rewrite lookup_app_r, lookup_app_r by lia. rewrite Hl, lookup_drop. f_equal. lia.
Qed.

Lemma rdn_lookup (m : list Z) p n : 0 <= p -> 0 <= n -> p + n <= zlen m ->
  exists bs, rdn m p n = Some bs /\ zlen bs = n /\ forall i : nat, Z.of_nat i < n -> bs !! i = m !! (Z.to_nat p + i)%nat.
Proof.
  intros H1 H2 H3. unfold rdn. rewrite !(proj2 (Z.leb_le _ _)) by lia. eexists. split; [done|]. split; [rewrite length_take, length_drop; lia|].
  intros i Hi. rewrite lookup_take_lt by lia. by rewrite lookup_drop.
Qed.

Lemma rdn_bytes m p n bs : Forall is_byte m -> rdn m p n = Some bs -> Forall is_byte bs.
Proof. intros HF H. unfold rdn in H. case_match; [|done]. injection H as <-. by apply Forall_take, Forall_drop. Qed.

Lemma bop_byte op a b : is_byte a -> is_byte b -> is_byte (bop op a b).
Proof.
  intros Ha Hb. destruct op; cbn [bop]; [| | |done]; unfold is_byte in *.
  - rewrite <- (wrap_small 8 a), <- land_ones_wrap, <- Z.land_assoc, (Z.land_comm _ b), Z.land_assoc, land_ones_wrap by (done || lia).
    by apply (wrap_range 8).
  - split; [apply Z.lor_nonneg; lia|]. rewrite <- (wrap_small 8 a), <- (wrap_small 8 b) by done. unfold wrap.
    rewrite <- !Z.land_ones, <- Z.land_lor_distr_l, Z.land_ones by lia. apply (wrap_range 8). lia.
  - split; [apply Z.lxor_nonneg; lia|]. rewrite <- (wrap_small 8 a), <- (wrap_small 8 b) by done. unfold wrap.
    rewrite <- !Z.land_ones by lia. assert (Z.lxor (Z.land a (Z.ones 8)) (Z.land b (Z.ones 8)) = Z.land (Z.lxor a b) (Z.ones 8)) as ->.
    { apply Z.bits_inj'. intros n _. rewrite !Z.lxor_spec, !Z.land_spec, Z.lxor_spec.
      destruct (Z.testbit a n), (Z.testbit b n), (Z.testbit (Z.ones 8) n); done. }
    rewrite Z.land_ones by lia. apply (wrap_range 8). lia.
Qed.

(** A step that changes the cells of a range by [f] and no other. *)
Definition maps (p n : Z) (f : nat -> Z -> option Z) (res res' : list Z) : Prop :=
  length res' = length res /\ Forall is_byte res' /\
  forall i : nat, res' !! i = if bool_decide (p <= Z.of_nat i < p + n) then res !! i ≫= f i else res !! i.

Lemma maps_join p n m f a b c : 0 <= n -> 0 <= m -> maps p n f a b -> maps (p + n) m f b c -> maps p (n + m) f a c.
Proof.
  intros Hn Hm (L1 & F1 & M1) (L2 & F2 & M2). split; [congruence|]. split; [done|]. intros i. rewrite M2, M1.
  repeat case_bool_decide; try done; lia.
Qed.

Lemma maps_bytes res p bs f : Forall is_byte res -> Forall is_byte bs -> 0 <= p -> p + zlen bs <= zlen res ->
  (forall i : nat, Z.of_nat i < zlen bs -> bs !! i = res !! (Z.to_nat p + i)%nat ≫= f (Z.to_nat p + i)%nat) ->
  exists res', wrn res p bs = Some res' /\ maps p (zlen bs) f res res'.
Proof.
  intros HF HFb Hp Hl Hf. destruct (wrn res p bs) as [res'|] eqn:E.
  - exists res'. split; [done|]. destruct (wrn_lookup _ _ _ _ E) as [L M].
    assert (forall i : nat, res' !! i = if bool_decide (p <= Z.of_nat i < p + zlen bs) then res !! i ≫= f i else res !! i) as M'.
    { intros i. rewrite M. case_bool_decide as Hi; [|done]. rewrite Hf by lia. by replace (Z.to_nat p + (i - Z.to_nat p))%nat with i by lia. }
    split; [done|]. split; [|done]. apply Forall_lookup. intros i x Hx. rewrite M in Hx. case_bool_decide.
    + by eapply Forall_lookup_1 in Hx.
    + by eapply Forall_lookup_1 in Hx.
  - unfold wrn in E. rewrite !(proj2 (Z.leb_le _ _)) in E by lia. done.
Qed.

Definition with_src (op : bitop) (src : list Z) (i : nat) (x : Z) : option Z := bop op x <$> src !! i.

Lemma le_unle_word a : zlen a = ulong -> Forall is_byte a -> le (Z.to_nat ulong) (unle a) = a.
Proof. intros <- HF. rewrite Nat2Z.id. by apply le_unle. Qed.

Lemma word_op_spec op res src p : op <> BITOP_NOT -> Forall is_byte res -> Forall is_byte src ->
  0 <= p -> p + ulong <= zlen res -> p + ulong <= zlen src ->
  exists res', word_op ulong op res src p = Some res' /\ maps p ulong (with_src op src) res res'.
Proof.
  intros Hop HF HFs Hp Hr Hs. unfold word_op.
  destruct (rdn_lookup res p ulong) as (a & Ea & La & Ma); [lia..|]. destruct (rdn_lookup src p ulong) as (b & Eb & Lb & Mb); [lia..|].
  rewrite Ea, Eb. cbn [mbind option_bind]. pose proof (rdn_bytes _ _ _ _ HF Ea) as HFa. pose proof (rdn_bytes _ _ _ _ HFs Eb) as HFb.
  rewrite le_bop by done. rewrite (le_unle_word a), (le_unle_word b) by done. assert (zlen (zip_with (bop op) a b) = ulong) as Hz by (rewrite length_zip_with; lia). rewrite <- Hz.
  apply maps_bytes; [done| |lia|lia|].
  - apply Forall_lookup. intros i x Hx. apply lookup_zip_with_Some in Hx as (u & v & -> & Hu' & Hv).
    apply bop_byte; [by eapply Forall_lookup_1 in Hu'|by eapply Forall_lookup_1 in Hv].
  - intros i Hi. rewrite lookup_zip_with, Ma, Mb by lia. unfold with_src.
    destruct (res !! _); [|done]. cbn. by destruct (src !! _).
Qed.

Lemma word_not_spec res p : Forall is_byte res -> 0 <= p -> p + ulong <= zlen res ->
  exists res', word_not ulong res p = Some res' /\ maps p ulong (fun _ x => Some (255 - x)) res res'.
Proof.
  intros HF Hp Hr. unfold word_not. destruct (rdn_lookup res p ulong) as (a & Ea & La & Ma); [lia..|].
  rewrite Ea. cbn [mbind option_bind]. pose proof (rdn_bytes _ _ _ _ HF Ea) as HFa.
  replace (8 * ulong) with (8 * Z.of_nat (Z.to_nat ulong)) by lia. rewrite le_mod, le_not.
  rewrite (le_unle_word a) by done.
  assert (zlen ((fun b => 255 - b) <$> a) = ulong) as Hz by (rewrite length_fmap; lia). rewrite <- Hz.
  apply maps_bytes; [done| |lia|lia|].
  - apply Forall_fmap. eapply Forall_impl; [|exact HFa]. unfold is_byte, compose. intros; lia.
  - intros i Hi. rewrite list_lookup_fmap, Ma by lia. by destruct (res !! _).
Qed.

(** Four words. *)
Lemma block_not_spec res j : Forall is_byte res -> 0 <= j -> j + 4 * ulong <= zlen res ->
  exists res', block_not ulong j res = Some res' /\ maps j (4 * ulong) (fun _ x => Some (255 - x)) res res'.
Proof.
  intros HF Hj Hr. unfold block_not.
  destruct (word_not_spec res j HF) as (r1 & -> & M1); [lia..|]. pose proof M1 as (L1 & F1 & _). cbn [mbind option_bind].
  destruct (word_not_spec r1 (j + ulong) F1) as (r2 & -> & M2); [lia..|]. pose proof M2 as (L2 & F2 & _). cbn [mbind option_bind].
  destruct (word_not_spec r2 (j + 2 * ulong) F2) as (r3 & -> & M3); [lia..|]. pose proof M3 as (L3 & F3 & _). cbn [mbind option_bind].
  destruct (word_not_spec r3 (j + 3 * ulong) F3) as (r4 & -> & M4); [lia..|]. exists r4. split; [done|].
  replace (4 * ulong) with (ulong + ulong + ulong + ulong) by lia.
  repeat (eapply maps_join; [lia|lia| |first [exact M2|replace (j + (ulong + ulong)) with (j + 2 * ulong) by lia; exact M3|
    replace (j + (ulong + ulong + ulong)) with (j + 3 * ulong) by lia; exact M4]]). exact M1.
Qed.

Lemma block_op_spec op res src j : op <> BITOP_NOT -> Forall is_byte res -> Forall is_byte src ->
  0 <= j -> j + 4 * ulong <= zlen res -> j + 4 * ulong <= zlen src ->
  exists res', block_op ulong op j res src = Some res' /\ maps j (4 * ulong) (with_src op src) res res'.
Proof.
  intros Hop HF HFs Hj Hr Hs. unfold block_op.
  destruct (word_op_spec op res src j Hop HF HFs) as (r1 & -> & M1); [lia..|]. pose proof M1 as (L1 & F1 & _). cbn [mbind option_bind].
  destruct (word_op_spec op r1 src (j + ulong) Hop F1 HFs) as (r2 & -> & M2); [lia..|]. pose proof M2 as (L2 & F2 & _). cbn [mbind option_bind].
  destruct (word_op_spec op r2 src (j + 2 * ulong) Hop F2 HFs) as (r3 & -> & M3); [lia..|]. pose proof M3 as (L3 & F3 & _). cbn [mbind option_bind].
  destruct (word_op_spec op r3 src (j + 3 * ulong) Hop F3 HFs) as (r4 & -> & M4); [lia..|]. exists r4. split; [done|].
  replace (4 * ulong) with (ulong + ulong + ulong + ulong) by lia.
  repeat (eapply maps_join; [lia|lia| |first [exact M2|replace (j + (ulong + ulong)) with (j + 2 * ulong) by lia; exact M3|
    replace (j + (ulong + ulong + ulong)) with (j + 3 * ulong) by lia; exact M4]]). exact M1.
Qed.

(** The bytes that the other sources add to one of the first. *)
Fixpoint with_srcs (op : bitop) (srcs : list (list Z)) (i : nat) (x : Z) : option Z :=
  match srcs with [] => Some x | s :: srcs => x ← with_src op s i x; with_srcs op srcs i x end.

Lemma blocks_op_spec op j : forall srcs res, op <> BITOP_NOT -> Forall is_byte res ->
  Forall (fun s => Forall is_byte s /\ j + 4 * ulong <= zlen s) srcs -> 0 <= j -> j + 4 * ulong <= zlen res ->
  exists res', blocks_op ulong op j srcs res = Some res' /\ maps j (4 * ulong) (with_srcs op srcs) res res'.
Proof.
  induction srcs as [|s srcs IH]; intros res Hop HF HFs Hj Hr; cbn [blocks_op].
  - exists res. split; [done|]. split; [done|]. split; [done|]. intros i. cbn. case_bool_decide; [|done]. by destruct (res !! i).
  - apply Forall_cons_1 in HFs as [[Hs Hl] HFs].
    destruct (block_op_spec op res s j) as (r1 & -> & L1 & F1 & M1); [done..|]. cbn [mbind option_bind].
    destruct (IH r1) as (r2 & -> & L2 & F2 & M2); [done|done|done|lia|lia|]. exists r2. split; [done|].
    split; [congruence|]. split; [done|]. intros i. rewrite M2, M1. case_bool_decide; [|done]. cbn [with_srcs].
    by destruct (res !! i).
Qed.

(** The byte at [i] of the result. *)
Definition pad (s : list Z) (i : nat) : Z := default 0 (s !! i).
Definition ref_byte (op : bitop) (src0 : list Z) (srcs : list (list Z)) (i : nat) : Z :=
  foldl (fun x s => bop op x (pad s i)) (match op with BITOP_NOT => 255 - pad src0 i | _ => pad src0 i end) srcs.

Lemma with_srcs_in op : forall srcs i x, Forall (fun s => (i < length s)%nat) srcs ->
  with_srcs op srcs i x = Some (foldl (fun x s => bop op x (pad s i)) x srcs).
Proof.
  induction srcs as [|s srcs IH]; intros i x H; [done|]. apply Forall_cons_1 in H as [Hs H]. cbn [with_srcs foldl]. unfold with_src, pad at 2.
  destruct (lookup_lt_is_Some_2 s i Hs) as [y ->]. cbn. by apply IH.
Qed.

(** What the fast path leaves: the first [j] bytes are done, the others are as
    they were copied. *)
Definition done_to (op : bitop) (src0 : list Z) (srcs : list (list Z)) (n : nat) (res : list Z) (j : Z) : Prop :=
  length res = n /\ Forall is_byte res /\ 0 <= j <= Z.of_nat n /\
  forall i : nat, Z.of_nat i < j -> res !! i = Some (ref_byte op src0 srcs i).

Lemma fast_loop_spec op src0 srcs n (m : Z) : (op = BITOP_NOT -> srcs = []) -> Forall is_byte src0 ->
  Forall (fun s => Forall is_byte s /\ m <= zlen s) (src0 :: srcs) -> m <= Z.of_nat n ->
  forall fuel res j minlen, done_to op src0 srcs n res j -> (forall i : nat, j <= Z.of_nat i < m -> res !! i = src0 !! i) ->
  j + minlen = m -> minlen <= Z.of_nat fuel -> 0 <= minlen ->
  exists res' j', fast_loop ulong fuel op srcs res j minlen = Some (res', j') /\ done_to op src0 srcs n res' j'.
Proof.
  intros Hop HF0 HF Hm. induction fuel as [|fuel IH]; intros res j minlen HD Hrest Hj Hf Hml; cbn [fast_loop].
  all: destruct (Z.leb_spec (4 * ulong) minlen) as [Hle|Hlt]; [|by exists res, j].
  { lia. }
  destruct HD as (L & F & Hjn & HD). apply Forall_cons_1 in HF as [[_ H0] HFs].
  assert (Forall (fun s => Forall is_byte s /\ j + 4 * ulong <= zlen s) srcs) as HFs'.
  { eapply Forall_impl; [|exact HFs]. cbn. intros s [? ?]. split; [done|lia]. }
  assert (exists r1, match op with BITOP_NOT => block_not ulong j res | _ => blocks_op ulong op j srcs res end = Some r1 /\
    length r1 = n /\ Forall is_byte r1 /\ (forall i : nat, r1 !! i = if bool_decide (j <= Z.of_nat i < j + 4 * ulong)
      then Some (ref_byte op src0 srcs i) else res !! i)) as (r1 & -> & L1 & F1 & M1).
  { assert (op = BITOP_NOT \/ op <> BITOP_NOT) as [->|Hn] by (destruct op; auto).
    - destruct (block_not_spec res j) as (r1 & E1 & L1 & F1 & M1); [done|lia|lia|]. exists r1. split; [done|]. split; [congruence|]. split; [done|].
      intros i. rewrite M1. case_bool_decide; [|done]. rewrite Hrest by lia. rewrite (Hop eq_refl). unfold ref_byte, pad. cbn [foldl].
      destruct (lookup_lt_is_Some_2 src0 i) as [x Hx]; [lia|]. by rewrite Hx.
    - destruct (blocks_op_spec op j srcs res) as (r1 & E1 & L1 & F1 & M1); [done|done|done|lia|lia|].
      exists r1. split; [by destruct op|]. split; [congruence|]. split; [done|].
      intros i. rewrite M1. case_bool_decide as Hi; [|done]. rewrite Hrest by lia.
      destruct (lookup_lt_is_Some_2 src0 i) as [x Hx]; [lia|]. rewrite Hx. cbn [mbind option_bind]. rewrite with_srcs_in.
      + assert (pad src0 i = x) as Hp by (unfold pad; by rewrite Hx). unfold ref_byte. rewrite Hp. f_equal. f_equal. by destruct op.
      + eapply Forall_impl; [|exact HFs']. cbn. intros s [_ ?]. lia. }
  cbn [mbind option_bind]. apply IH; try lia.
  - split; [done|]. split; [done|]. split; [lia|]. intros i Hi. rewrite M1. case_bool_decide; [done|]. apply HD. lia.
  - intros i Hi. rewrite M1, bool_decide_eq_false_2 by lia. apply Hrest. lia.
Qed.

Lemma pad_byte s i : Forall is_byte s -> is_byte (pad s i).
Proof. intros HF. unfold pad. destruct (s !! i) as [x|] eqn:E; [by eapply Forall_lookup_1 in E|done]. Qed.

Lemma ref_byte_ok op src0 srcs i : Forall is_byte src0 -> Forall (Forall is_byte) srcs -> is_byte (ref_byte op src0 srcs i).
Proof.
  intros H0 HF. unfold ref_byte.
  assert (is_byte (match op with BITOP_NOT => 255 - pad src0 i | _ => pad src0 i end)) as Hx.
  { pose proof (pad_byte src0 i H0). destruct op; try done. unfold is_byte in *. lia. }
  revert Hx. generalize (match op with BITOP_NOT => 255 - pad src0 i | _ => pad src0 i end). induction HF as [|s srcs Hs _ IH]; intros x Hx; [done|].
  cbn [foldl]. apply IH, bop_byte; [done|by apply pad_byte].
Qed.

Lemma src_byte_spec s (i : nat) : src_byte s (Z.of_nat i) = Some (pad s i).
Proof.
  unfold src_byte, pad. destruct (Z.leb_spec (zlen s) (Z.of_nat i)).
  - by rewrite lookup_ge_None_2 by lia.
  - rewrite rd_nat. destruct (lookup_lt_is_Some_2 s i) as [x ->]; [lia|done].
Qed.

Lemma fold_bytes_spec op i : forall srcs x, fold_bytes op srcs (Z.of_nat i) x = Some (foldl (fun x s => bop op x (pad s i)) x srcs).
Proof. induction srcs as [|s srcs IH]; intros x; [done|]. cbn [fold_bytes foldl]. rewrite src_byte_spec. cbn. apply IH. Qed.

Lemma slow_loop_spec op src0 srcs n : Forall is_byte src0 -> Forall (Forall is_byte) srcs -> forall k res j,
  done_to op src0 srcs n res j -> j + Z.of_nat k = Z.of_nat n ->
  exists res', slow_loop k op src0 srcs res j = Some res' /\ done_to op src0 srcs n res' (Z.of_nat n).
Proof.
  intros H0 HF. induction k as [|k IH]; intros res j HD Hk; cbn [slow_loop].
  - exists res. split; [done|]. by replace (Z.of_nat n) with j by lia.
  - destruct HD as (L & F & Hj & HD). rewrite <- (Z2Nat.id j) by lia. set (i := Z.to_nat j). rewrite src_byte_spec. cbn [mbind option_bind].
    rewrite fold_bytes_spec. cbn [mbind option_bind].
    assert (foldl (fun x s => bop op x (pad s i)) (match op with BITOP_NOT => wrap 8 (Z.lnot (pad src0 i)) | _ => pad src0 i end) srcs = ref_byte op src0 srcs i) as ->.
    { unfold ref_byte. f_equal. destruct op; try done. pose proof (pad_byte src0 i H0) as Hb. unfold is_byte in Hb. unfold wrap, Z.lnot. change (2 ^ 8) with 256.
      Z.to_euclidean_division_equations. lia. }
    unfold wr. rewrite (proj2 (Z.leb_le _ _)), (proj2 (Z.ltb_lt _ _)) by lia. cbn [andb mbind option_bind]. rewrite Nat2Z.id.
    apply IH; [|lia]. split; [by rewrite length_insert|]. split.
    { apply Forall_insert; [done|]. by apply ref_byte_ok. }
    split; [lia|]. intros i' Hi'. destruct (decide (i' = i)) as [->|Hne].
    + apply list_lookup_insert_eq. lia.
    + rewrite list_lookup_insert_ne by done. apply HD. lia.
Qed.

(** The length of the longest source. *)
Definition longest (keys : list (option (list Z))) : Z := foldr (fun k => Z.max (zlen (default [] k))) 0 keys.

Lemma lengths_spec : forall keys j maxlen minlen, 0 <= maxlen -> 0 <= minlen ->
  exists m, lengths (S j) keys maxlen minlen = (Z.max maxlen (longest keys), m) /\ 0 <= m <= minlen /\
    Forall (fun k => m <= zlen (default [] k)) keys.
Proof.
  induction keys as [|k keys IH]; intros j mx mn Hx Hn; cbn [lengths longest foldr].
  - exists mn. split; [f_equal; lia|]. done.
  - destruct k as [s|]; cbn [default from_option].
    + destruct (IH (S j) (if mx <? zlen s then zlen s else mx) (if Nat.eqb (S j) 0 || (zlen s <? mn) then zlen s else mn)) as (m & -> & Hm & HF).
      { destruct (Z.ltb_spec mx (zlen s)); lia. }
      { cbn. destruct (Z.ltb_spec (zlen s) mn); lia. }
      exists m. cbn in Hm. split; [f_equal; unfold longest; unfold id; destruct (Z.ltb_spec mx (zlen s)); lia|].
      split; [destruct (Z.ltb_spec (zlen s) mn); lia|]. constructor; [cbn; unfold id; destruct (Z.ltb_spec (zlen s) mn); lia|done].
    + destruct (IH (S j) mx 0 Hx ltac:(lia)) as (m & -> & Hm & HF). exists m. split; [f_equal; unfold longest; cbn; lia|]. split; [lia|].
      constructor; [cbn; lia|done].
Qed.

Lemma lengths_first k keys : exists m, lengths 0 (k :: keys) 0 0 = (longest (k :: keys), m) /\ 0 <= m /\
  Forall (fun k => m <= zlen (default [] k)) (k :: keys).
Proof.
  cbn [lengths longest foldr]. destruct k as [s|].
  - destruct (lengths_spec keys 0 (if 0 <? zlen s then zlen s else 0) (if Nat.eqb 0 0 || (zlen s <? 0) then zlen s else 0)) as (m & -> & Hm & HF).
    { destruct (Z.ltb_spec 0 (zlen s)); lia. }
    { cbn. lia. }
    exists m. cbn in Hm. split; [f_equal; unfold longest; cbn; unfold id; destruct (Z.ltb_spec 0 (zlen s)); lia|]. split; [lia|].
    constructor; [cbn; unfold id; lia|done].
  - destruct (lengths_spec keys 0 0 0 ltac:(lia) ltac:(lia)) as (m & -> & Hm & HF). exists m.
    split; [f_equal; unfold longest; cbn; lia|]. split; [lia|]. constructor; [cbn; lia|done].
Qed.

Lemma longest_ge keys k : In k keys -> zlen (default [] k) <= longest keys.
Proof. induction keys as [|x keys IH]; [done|]. cbn. intros [->|H]; [lia|]. specialize (IH H). unfold longest in IH. lia. Qed.

(** C35: BITOP, with its path for four words of all sources at a time and the
    path for single bytes behind it, computes every byte of the longest source
    from the bytes of all the sources at that place, zero where a source is
    shorter or missing; it never reads behind the end of a source. *)
Theorem bitop_pointwise op key keys :
  Forall (fun k => Forall is_byte (default [] k)) (key :: keys) -> (op = BITOP_NOT -> keys = []) ->
  bitop_result ulong op (key :: keys) =
    Some (ref_byte op (default [] key) (map (default []) keys) <$> seq 0 (Z.to_nat (longest (key :: keys)))).
Proof.
  intros HF Hop. unfold bitop_result. destruct (lengths_first key keys) as (m & -> & Hm & Hml).
  set (M := longest (key :: keys)). assert (zlen (default [] key) <= M) as HM0 by (apply longest_ge; by left).
  assert (0 <= M) as HM by lia. destruct (Z.eqb_spec M 0) as [->|HM1]; [done|]. cbn [map].
  set (src0 := default [] key) in *. set (srcs := map (default []) keys).
  apply Forall_cons_1 in HF as [H0 HF], Hml as [Hm0 Hml]. fold src0 in H0, Hm0.
  assert (Forall (Forall is_byte) srcs) as HFs by by apply Forall_fmap.
  assert (Forall (fun s => Forall is_byte s /\ m <= zlen s) (src0 :: srcs)) as HFm.
  { constructor; [done|]. apply Forall_and; [done|by apply Forall_fmap]. }
  set (n := Z.to_nat M). set (res := replicate n 0).
  assert (length res = n) as Hlen by apply length_replicate.
  assert (Forall is_byte res) as Hres by (apply Forall_replicate; done).
  assert (done_to op src0 srcs n res 0) as Hstart by (split; [done|]; split; [done|]; split; [lia|]; intros i Hi; lia).
  assert (exists res' j, (if negb (m =? 0) && (zlen (key :: keys) <=? 16) then
      first ← rdn src0 0 m; res0 ← wrn res 0 first; fast_loop ulong (Z.to_nat m) op srcs res0 0 m
    else Some (res, 0)) = Some (res', j) /\ done_to op src0 srcs n res' j) as (r1 & j & -> & HD).
  { destruct (negb (m =? 0) && _); [|by exists res, 0].
    destruct (rdn_lookup src0 0 m) as (a & Ea & La & Ma); [lia..|]. rewrite Ea. cbn [mbind option_bind].
    destruct (wrn res 0 a) as [r0|] eqn:E0; [|unfold wrn in E0; rewrite !(proj2 (Z.leb_le _ _)) in E0 by lia; done].
    destruct (wrn_lookup _ _ _ _ E0) as [L0 M0]. cbn [mbind option_bind].
    assert (Forall is_byte r0) as F0.
    { apply Forall_lookup. intros i x Hx. rewrite M0 in Hx. pose proof (rdn_bytes _ _ _ _ H0 Ea). case_bool_decide; by eapply Forall_lookup_1 in Hx. }
    eapply (fast_loop_spec op src0 srcs n m); try done; try lia.
    - intros ->. unfold srcs. by rewrite Hop.
    - split; [congruence|]. split; [done|]. split; [lia|]. intros i Hi; lia.
    - intros i Hi. rewrite M0, bool_decide_eq_true_2 by lia. rewrite Nat.sub_0_r. rewrite Ma by lia. done. }
  cbn [mbind option_bind].
  destruct (slow_loop_spec op src0 srcs n H0 HFs (Z.to_nat (M - j)) r1 j HD) as (r2 & -> & L2 & F2 & _ & M2).
  { destruct HD as (_ & _ & Hj & _). lia. }
  f_equal. apply list_eq. intros i. destruct (decide (i < n)%nat) as [Hi|Hi].
  - rewrite M2 by lia. rewrite list_lookup_fmap, lookup_seq_lt by done. done.
  - rewrite lookup_ge_None_2 by lia. symmetry. apply lookup_ge_None_2. rewrite length_fmap, length_seq. lia.
Qed.
End BitopSpec.

Lemma bitop_pointwise_witness :
  bitop_result 4 BITOP_XOR [Some [1; 2; 3]; None; Some [255]] = Some [254; 2; 3].
Proof.
  change (bitop_result 4 BITOP_XOR (Some [1; 2; 3] :: [None; Some [255]]) =
    Some (ref_byte BITOP_XOR [1; 2; 3] (map (default []) [None; Some [255]]) <$> seq 0 (Z.to_nat (longest [Some [1; 2; 3]; None; Some [255]])))).
  apply (bitop_pointwise 4 ltac:(lia) BITOP_XOR (Some [1; 2; 3]) [None; Some [255]]); [|done].
  repeat constructor; unfold is_byte; lia.
Defined.

(** ** The commands on the bits of a text *)
Definition bit_at (l : list Z) (i : Z) : bool := default false (bits_of l !! Z.to_nat i).

Lemma bits_of_lookup l : forall (k j : nat), (j < 8)%nat ->
  bits_of l !! (8 * k + j)%nat = (fun b => Z.testbit b (7 - Z.of_nat j)) <$> l !! k.
Proof.
  induction l as [|b l IH]; intros k j Hj.
  - by rewrite !lookup_nil.
  - change (bits_of (b :: l)) with (byte_bits b ++ bits_of l). destruct k as [|k].
    + rewrite lookup_app_l by (cbn; lia). replace (8 * 0 + j)%nat with j by lia. destruct j as [|[|[|[|[|[|[|[|]]]]]]]]; try lia; done.
    + change ((b :: l) !! S k) with (l !! k). rewrite <- IH by done. rewrite lookup_app_r by (cbn; lia).
      change (length (byte_bits b)) with 8%nat. f_equal. lia.
Qed.

Lemma land_7 i : Z.land i 7 = i mod 8.
Proof. exact (land_ones_wrap 3 i ltac:(lia)). Qed.

Lemma bit_at_byte l i : 0 <= i ->
  bit_at l i = default false ((fun b => Z.testbit b (7 - Z.land i 7)) <$> l !! Z.to_nat (Z.shiftr i 3)).
Proof.
  intros Hi. unfold bit_at. rewrite land_7, Z.shiftr_div_pow2 by lia.
  change (2 ^ 3) with 8. pose proof (Z.mod_pos_bound i 8 ltac:(lia)) as Hm.
  replace (7 - i mod 8) with (7 - Z.of_nat (Z.to_nat (i mod 8))) by lia. rewrite <- (bits_of_lookup l (Z.to_nat (i / 8)) (Z.to_nat (i mod 8))) by lia. do 2 f_equal.
  pose proof (Z.div_mod i 8 ltac:(lia)). pose proof (Z.div_pos i 8 Hi ltac:(lia)). lia.
Qed.

Section CommandsSpec.
Context (uninit : nat -> Z).

Lemma string_bytes_spec o l : has_text o l -> exists r, string_bytes uninit o = Some (l ++ 0 :: r, zlen l).
Proof.
  unfold has_text, string_bytes, text_of. destruct (o_ptr o) as [s|v].
  - intros (t & -> & _). by exists t.
  - intros [Hv ->]. set (b := realloc uninit 32 []). assert (zlen b = 32) as Hb by (apply realloc_length; lia).
    pose proof (ll2string_spec b v Hv) as E. rewrite Hb in E. rewrite E.
    pose proof (dec_length v Hv). rewrite (proj2 (Z.leb_gt _ _)) by lia. eauto.
Qed.

(** What a key holds: no key is an empty text. *)
Definition holds (found : option value) (l : list Z) : Prop :=
  match found with None => l = [] | Some (StringValue o) => has_text o l | Some OtherValue => False end.

(** A bit offset that the commands accept. *)
Lemma offset_spec a off : getLongLongFromObject a = Some (Some off) -> 0 <= off < 2 ^ 32 -> getBitOffsetFromArgument a = Some (inl off).
Proof.
  intros Ha Ho. unfold getBitOffsetFromArgument, getLongLongFromObjectOrReply. rewrite Ha. cbn [mbind option_bind].
  rewrite (proj2 (Z.ltb_ge _ _)) by lia. rewrite (proj2 (Z.leb_gt _ _)); [done|]. rewrite Z.shiftr_div_pow2 by lia.
  apply Z.div_lt_upper_bound; [lia|]. change (2 ^ 3) with 8. lia.
Qed.

Lemma land_bit b i : 0 <= i -> (Z.land b (Z.shiftl 1 i) =? 0) = negb (Z.testbit b i).
Proof. intros Hi. rewrite Z.shiftl_1_l, Z.land_comm, <- (negb_involutive (_ =? 0)). by rewrite land_pow2. Qed.

Lemma getbit_spec found l a off :
  holds found l -> getLongLongFromObject a = Some (Some off) -> 0 <= off < 2 ^ 32 ->
  getbitCommand uninit found a = Some (if bit_at l off then cone else czero).
Proof.
  intros Hf Ha Ho. unfold getbitCommand. rewrite (offset_spec a off) by done. cbn [mbind option_bind].
  destruct found as [[o|]|]; [|done|].
  2: { cbn in Hf. subst l. done. }
  destruct (string_bytes_spec o l Hf) as (r & ->). cbn [mbind option_bind]. rewrite bit_at_byte by lia.
  assert (0 <= Z.shiftr off 3) as Hs by (rewrite Z.shiftr_div_pow2 by lia; apply Z.div_pos; lia).
  assert (0 <= 7 - Z.land off 7) as Hb.
  { rewrite land_7. pose proof (Z.mod_pos_bound off 8 ltac:(lia)). lia. }
  destruct (Z.ltb_spec (Z.shiftr off 3) (zlen l)) as [Hlt|Hge].
  - destruct (lookup_lt_is_Some_2 l (Z.to_nat (Z.shiftr off 3))) as [b Hl]; [lia|]. rewrite Hl.
    assert (rd (l ++ 0 :: r) (Z.shiftr off 3) = Some b) as ->.
    { apply rd_Some. split; [done|]. rewrite lookup_app_l by lia. done. }
    cbn [mbind option_bind]. rewrite land_bit by done. cbn. unfold id. by destruct (Z.testbit b _).
  - cbn. rewrite lookup_ge_None_2 by lia. done.
Qed.

(** The object that SETBIT changes has the text as an sds. *)
Lemma unshared_spec o l : has_text o l -> exists o' s, dbUnshareStringValue uninit o = Some o' /\ o_ptr o' = ENC_RAW s /\ repr s l.
Proof.
  intros Ht. pose proof Ht as Hh. unfold dbUnshareStringValue. destruct (decoded_spec uninit o l Ht) as (d & s & Ed & Es & Hs).
  assert (exists o' s', createStringObject uninit (buf s) (sdslen s) = Some o' /\ o_ptr o' = ENC_RAW s' /\ repr s' l) as Hc.
  { destruct Hs as (t & -> & Ht'). unfold createStringObject. cbn [buf sdslen len].
    destruct (newlen_spec uninit l (0 :: t)) as (s' & -> & Hs'); [lia|]. cbn [mbind option_bind]. by exists (createObject (ENC_RAW s')), s'. }
  unfold has_text in Ht. destruct (o_ptr o) as [s0|v] eqn:Eo.
  - destruct (negb (o_refcount o =? 1)); [|by exists o, s0]. rewrite Ed. cbn [mbind option_bind]. by rewrite Es.
  - rewrite Ed. cbn [mbind option_bind]. by rewrite Es.
Qed.

(** The byte with one bit changed. *)
Definition put_bit (b k : Z) (v : bool) : Z := wrap 8 (Z.lor (Z.land b (Z.lnot (Z.shiftl 1 k))) (Z.shiftl (Z.land (Z.b2z v) 1) k)).

Lemma put_bit_spec b k v j : 0 <= k < 8 -> 0 <= j < 8 -> Z.testbit (put_bit b k v) j = if j =? k then v else Z.testbit b j.
Proof.
  intros Hk Hj. unfold put_bit, wrap. rewrite Z.mod_pow2_bits_low by lia.
  rewrite Z.lor_spec, Z.land_spec, Z.lnot_spec, Z.shiftl_1_l, Z.pow2_bits_eqb, Z.shiftl_spec by lia.
  replace (Z.land (Z.b2z v) 1) with (Z.b2z v) by (by destruct v). rewrite (Z.eqb_sym k). destruct (Z.eqb_spec j k) as [->|Hne]; cbn [negb].
  - rewrite Z.sub_diag, Z.b2z_bit0. by rewrite andb_false_r.
  - rewrite andb_true_r. destruct (Z.lt_ge_cases j k).
    + rewrite (Z.testbit_neg_r _ (j - k)) by lia. apply orb_false_r.
    + destruct v; cbn [Z.b2z]; [|rewrite Z.bits_0; apply orb_false_r].
      change 1 with (2 ^ 0). rewrite Z.pow2_bits_false by lia. apply orb_false_r.
Qed.

Lemma bit_at_insert l k b v i : 0 <= i -> l !! Z.to_nat (Z.shiftr k 3) = Some b -> 0 <= k ->
  bit_at (<[Z.to_nat (Z.shiftr k 3) := put_bit b (7 - Z.land k 7) v]> l) i = if i =? k then v else bit_at l i.
Proof.
  intros Hi Hb Hk. rewrite !bit_at_byte by done. rewrite !land_7, !Z.shiftr_div_pow2 in * by lia. change (2 ^ 3) with 8 in *.
  pose proof (Z.mod_pos_bound i 8 ltac:(lia)). pose proof (Z.mod_pos_bound k 8 ltac:(lia)).
  pose proof (Z.div_mod i 8 ltac:(lia)). pose proof (Z.div_mod k 8 ltac:(lia)).
  pose proof (Z.div_pos i 8 Hi ltac:(lia)). pose proof (Z.div_pos k 8 Hk ltac:(lia)).
  destruct (decide (i / 8 = k / 8)) as [Heq|Hne].
  - rewrite Heq, list_lookup_insert_eq by (by eapply lookup_lt_Some). rewrite Hb. cbn. unfold id. rewrite put_bit_spec by lia.
    destruct (Z.eqb_spec (7 - i mod 8) (7 - k mod 8)), (Z.eqb_spec i k); try done; lia.
  - rewrite list_lookup_insert_ne by lia. destruct (Z.eqb_spec i k); [congruence|done].
Qed.

Lemma bit_at_zeros l n i : bit_at (l ++ replicate n 0) i = bit_at l i.
Proof.
  unfold bit_at. rewrite bits_of_app. destruct (lt_dec (Z.to_nat i) (length (bits_of l))).
  - by rewrite lookup_app_l.
  - rewrite lookup_app_r, (lookup_ge_None_2 (bits_of l)) by lia. clear. revert i. generalize (length (bits_of l)). intros m i.
    generalize (Z.to_nat i - m)%nat. clear. induction n as [|n IH]; intros k; [done|].
    change (bits_of (replicate (S n) 0)) with (byte_bits 0 ++ bits_of (replicate n 0)).
    destruct k as [|[|[|[|[|[|[|[|k]]]]]]]]; try done. apply IH.
Qed.

(** The object that SETBIT writes to. *)
Lemma slot_spec found l : holds found l ->
  exists o s, match found with
    | None => s ← sdsnewlen uninit (Some []) 0; Some (Some (createObject (ENC_RAW s)))
    | Some OtherValue => Some None
    | Some (StringValue o) => o ← dbUnshareStringValue uninit o; Some (Some o)
    end = Some (Some o) /\ o_ptr o = ENC_RAW s /\ repr s l.
Proof.
  intros Hf. destruct found as [[o|]|]; [|done|].
  - destruct (unshared_spec o l Hf) as (o' & s & -> & H1 & H2). by exists o', s.
  - cbn in Hf. subst l. destruct (newlen_spec uninit [] []) as (s & Es & Hs); [cbn; lia|].
    assert (sdsnewlen uninit (Some []) 0 = Some s) as -> by exact Es.
    by exists (createObject (ENC_RAW s)), s.
Qed.

(** C36: SETBIT replies the old bit, stores the new one and changes no other bit
    of the text, which becomes long enough to hold it; a shared object or an
    integer is replaced by a copy; GETBIT reads the bit, and a clear bit behind
    the end of the text. *)
Theorem setbit_sets_one_bit ulong found l a off b v :
  0 < ulong -> holds found l -> Forall is_byte l -> zlen l <= 2 ^ 29 ->
  getLongLongFromObject a = Some (Some off) -> 0 <= off < 2 ^ 32 -> getLongLongFromObject b = Some (Some (Z.b2z v)) ->
  exists o' l', setbitCommand uninit ulong found a b = Some (if bit_at l off then cone else czero, Some o') /\
    has_text o' l' /\ Forall is_byte l' /\ zlen l' = Z.max (zlen l) (Z.shiftr off 3 + 1) /\
    (forall i, 0 <= i -> bit_at l' i = if i =? off then v else bit_at l i) /\
    (forall c i, getLongLongFromObject c = Some (Some i) -> 0 <= i < 2 ^ 32 ->
      getbitCommand uninit (Some (StringValue o')) c = Some (if if i =? off then v else bit_at l i then cone else czero)).
Proof.
  intros Hu Hf HF Hl Ha Ho Hb.
  enough (exists o' l', setbitCommand uninit ulong found a b = Some (if bit_at l off then cone else czero, Some o') /\
    has_text o' l' /\ Forall is_byte l' /\ zlen l' = Z.max (zlen l) (Z.shiftr off 3 + 1) /\
    (forall i, 0 <= i -> bit_at l' i = if i =? off then v else bit_at l i)) as (o' & l' & H1 & H2 & H3 & H4 & H5).
  { exists o', l'. split_and!; try done. intros c i Hc Hi. etrans; [exact (getbit_spec (Some (StringValue o')) l' c i H2 Hc Hi)|]. by rewrite H5 by lia. }
  unfold setbitCommand. rewrite (offset_spec a off) by done. cbn [mbind option_bind].
  unfold getLongFromObjectOrReply, getLongLongFromObjectOrReply. rewrite Hb. cbn [mbind option_bind].
  assert (2 ^ 0 < 2 ^ (8 * ulong - 1)) by (apply Z.pow_lt_mono_r; lia).
  rewrite (proj2 (Z.ltb_ge _ _)), (proj2 (Z.ltb_ge _ _)) by (destruct v; cbn [Z.b2z]; lia). cbn [orb].
  replace (negb (Z.land (Z.b2z v) (Z.lnot 1) =? 0)) with false by (by destruct v).
  destruct (slot_spec found l Hf) as (o & s & -> & Eo & Hs).
  cbn [mbind option_bind]. rewrite Eo. pose proof (Z.shiftr_nonneg off 3) as Hn. apply proj2 in Hn. specialize (Hn ltac:(lia)).
  assert (Z.shiftr off 3 < 2 ^ 29) as Hk.
  { rewrite Z.shiftr_div_pow2 by lia. apply Z.div_lt_upper_bound; [lia|]. change (2 ^ 3) with 8. lia. }
  set (k := Z.shiftr off 3) in *. rewrite swrap_small by (unfold in_s; lia).
  destruct (growzero_spec uninit s l (k + 1) Hs) as (s1 & -> & t & -> & Ht); [lia|]. cbn [mbind option_bind buf len free].
  set (l1 := l ++ replicate (Z.to_nat (k + 1) - length l) 0) in *.
  assert (zlen l1 = Z.max (zlen l) (k + 1)) as Hl1 by (unfold l1; rewrite length_app, length_replicate; lia).
  assert (Forall is_byte l1) as HF1 by (apply Forall_app; split; [done|]; apply Forall_replicate; done).
  destruct (lookup_lt_is_Some_2 l1 (Z.to_nat k)) as [x Hx]; [lia|].
  assert (rd (l1 ++ 0 :: t) k = Some x) as -> by (apply rd_Some; rewrite lookup_app_l by lia; done).
  cbn [mbind option_bind]. unfold wr. rewrite length_app. cbn [length].
  rewrite (proj2 (Z.leb_le _ _)), (proj2 (Z.ltb_lt _ _)) by lia. cbn [andb mbind option_bind]. rewrite insert_app_l by lia.
  assert (bit_at l off = Z.testbit x (7 - Z.land off 7)) as ->.
  { rewrite <- (bit_at_zeros l (Z.to_nat (k + 1) - length l)). fold l1. rewrite bit_at_byte by lia. fold k. by rewrite Hx. }
  fold (put_bit x (7 - Z.land off 7) v). rewrite land_bit by (rewrite land_7; pose proof (Z.mod_pos_bound off 8 ltac:(lia)); lia).
  eexists _, (<[Z.to_nat k := put_bit x (7 - Z.land off 7) v]> l1). split; [by destruct (Z.testbit x _)|]. split_and!.
  - exists t. rewrite length_insert. done.
  - apply Forall_insert; [done|]. apply (wrap_range 8). lia.
  - by rewrite length_insert.
  - intros i Hi. etrans; [exact (bit_at_insert l1 off x v i Hi Hx ltac:(lia))|]. unfold l1. by rewrite bit_at_zeros.
Qed.

(** An argument that is read as a long. *)
Definition reads (ulong : Z) (a : robj) (v : Z) : Prop := getLongLongFromObject a = Some (Some v) /\ in_s (8 * ulong) v.

Lemma reads_spec ulong a v msg : reads ulong a v -> getLongFromObjectOrReply ulong a msg = Some (inl v).
Proof.
  intros [Ha Hv]. unfold getLongFromObjectOrReply, getLongLongFromObjectOrReply. rewrite Ha. cbn [mbind option_bind]. unfold in_s in Hv.
  by rewrite (proj2 (Z.ltb_ge _ _)), (proj2 (Z.ltb_ge _ _)) by lia.
Qed.

(** The part of a text between two positions, both included. *)
Definition sub_text (l : list Z) (s e : Z) : list Z := take (Z.to_nat (e - s + 1)) (drop (Z.to_nat s) l).

Lemma sub_text_split l s e r : 0 <= s -> s <= e -> e < zlen l ->
  exists x y, l ++ r = x ++ sub_text l s e ++ y /\ zlen x = s /\ zlen (sub_text l s e) = e - s + 1.
Proof.
  intros Hs He Hl. exists (take (Z.to_nat s) l), (drop (Z.to_nat (e - s + 1)) (drop (Z.to_nat s) l) ++ r). unfold sub_text. split_and!.
  - rewrite !app_assoc. f_equal. rewrite <- app_assoc, take_drop. by rewrite take_drop.
  - rewrite length_take. lia.
  - rewrite length_take, length_drop. lia.
Qed.

Lemma sub_text_bytes l s e : Forall is_byte l -> Forall is_byte (sub_text l s e).
Proof. intros H. by apply Forall_take, Forall_drop. Qed.

(** The range that the arguments give, and whether its end is among them. *)
Inductive range_args (ulong n : Z) : list robj -> Z * Z -> bool -> Prop :=
  | whole : range_args ulong n [] (0, n - 1) false
  | from a s : reads ulong a s -> range_args ulong n [a] (clip_range n s (n - 1)) false
  | between a b s e : reads ulong a s -> reads ulong b e -> range_args ulong n [a; b] (clip_range n s e) true.

Lemma range_args_in ulong n args s e g : 0 <= n -> range_args ulong n args (s, e) g -> 0 <= s /\ e < n.
Proof.
  intros Hn H. remember (s, e) as p eqn:Hp. destruct H as [|a x _|a b x y _ _]; [injection Hp as <- <-; lia|..];
    injection Hp as <- <-; unfold clip_range;
    repeat match goal with |- context [if ?b then _ else _] => destruct b eqn:? end; lia.
Qed.

(** BITCOUNT counts the bits that are set in the part of the text that its
    arguments give, negative positions counting from the end. *)
Theorem bitcount_counts strict ulong address o l args s e g :
  has_text o l -> Forall is_byte l -> range_args ulong (zlen l) args (s, e) g -> length args <> 1%nat ->
  bitcountCommand uninit strict ulong address (Some (StringValue o)) args =
    Some (if e <? s then czero else LongLong (ones (bits_of (sub_text l s e)))).
Proof.
  intros Ht HF HR Hn. unfold bitcountCommand. destruct (string_bytes_spec o l Ht) as (r & ->). cbn [mbind option_bind].
  destruct (range_args_in _ (zlen l) _ _ _ _ ltac:(lia) HR) as [Hs He]. pose proof (text_bound o l Ht) as Hb.
  assert (match args with
      | [] => Some (inl (0, zlen l - 1))
      | [a; b] =>
          start ← getLongFromObjectOrReply ulong a None;
          match start with
          | inl start => end_ ← getLongFromObjectOrReply ulong b None;
              Some (match end_ with inl end_ => inl (clip_range (zlen l) start end_) | inr r => inr r end)
          | inr r => Some (inr r)
          end
      | _ => Some (inr syntaxerr)
      end = Some (inl (s, e))) as ->.
  { remember (s, e) as p eqn:Hp. destruct HR as [|a x _|a b x y Ha Hy]; [by rewrite Hp|done|].
    rewrite (reads_spec _ _ _ _ Ha). cbn [mbind option_bind]. by rewrite (reads_spec _ _ _ _ Hy). }
  cbn [mbind option_bind]. destruct (Z.ltb_spec e s) as [|Hle]; [done|].
  destruct (sub_text_split l s e (0 :: r) Hs Hle He) as (x & y & -> & Hx & Hz). rewrite <- Hz.
  pose proof (sub_text_bytes l s e HF) as HFt. set (t := sub_text l s e) in *. rewrite <- Hx at 1.
  rewrite redisPopcount_part; [done|done|lia].
Qed.

Lemma first_bit_bound v l i : first_bit v l = Some i -> 0 <= i < zlen l.
Proof.
  revert i. induction l as [|x l IH]; intros i; cbn [first_bit length]; [done|]. destruct (Bool.eqb x v); [intros [= <-]; lia|].
  destruct (first_bit v l) as [j|]; [|done]. cbn. intros [= <-]. specialize (IH j eq_refl). lia.
Qed.

(** BITPOS replies the first position with the bit in the part of the text
    that its arguments give; when there is none it replies -1, but for a clear
    bit without an end the position behind the text. *)
Theorem bitpos_finds strict k address o l a v args s e g :
  0 <= k -> has_text o l -> Forall is_byte l -> fits k (8 * zlen l + 8 * 2 ^ k) -> reads (2 ^ k) a (Z.b2z v) ->
  range_args (2 ^ k) (zlen l) args (s, e) g -> strict = false \/ aligned (2 ^ k) (address o) s ->
  bitposCommand uninit strict (2 ^ k) address (Some (StringValue o)) a args =
    Some (LongLong (if e <? s then -1 else
      match first_bit v (bits_of (sub_text l s e)) with
      | Some i => 8 * s + i
      | None => if v || g then -1 else 8 * s + 8 * (e - s + 1)
      end)).
Proof.
  intros Hk Ht HF Hfit Hv HR Hal. unfold bitposCommand. rewrite (reads_spec _ _ _ _ Hv). cbn [mbind option_bind].
  replace (negb (Z.b2z v =? 0) && negb (Z.b2z v =? 1)) with false by (by destruct v).
  destruct (string_bytes_spec o l Ht) as (r & ->). cbn [mbind option_bind].
  destruct (range_args_in _ (zlen l) _ _ _ _ ltac:(lia) HR) as [Hs He].
  match goal with |- context [?m ≫= _] => assert (m = Some (inl (s, e, g))) as -> end.
  { remember (s, e) as p eqn:Hp. destruct HR as [|b x Hx|b c x y Hx Hy].
    - done.
    - by rewrite (reads_spec _ _ _ _ Hx).
    - rewrite (reads_spec _ _ _ _ Hx). cbn [mbind option_bind]. by rewrite (reads_spec _ _ _ _ Hy). }
  cbn [mbind option_bind]. destruct (Z.ltb_spec e s) as [|Hle]; [done|].
  destruct (sub_text_split l s e (0 :: r) Hs Hle He) as (x & y & -> & Hx & Hz). rewrite <- Hz.
  set (t := sub_text l s e) in *. pose proof (ulong_pos k Hk) as Hu.
  rewrite <- Hx at 1. rewrite (redisBitpos_part strict k Hk (address o) x t y v);
    [|by apply sub_text_bytes|unfold fits in *; lia|by rewrite Hx]. cbn [mbind option_bind].
  assert (forall n, 0 <= n <= 8 * zlen l -> to_long (2 ^ k) n = n) as Hlong by (intros n Hn; apply (to_long_fits k Hk); unfold fits in *; lia).
  rewrite (Hlong (zlen t * 8)), (Hlong (s * 8)) by lia. pose proof (fun i => first_bit_bound v (bits_of t) i) as Hb. rewrite bits_of_length in Hb.
  destruct (first_bit v (bits_of t)) as [i|].
  - specialize (Hb i eq_refl). rewrite (proj2 (Z.eqb_neq i (zlen t * 8))), andb_false_r by lia.
    rewrite (proj2 (Z.eqb_neq i (-1))), Hlong by lia. do 2 f_equal. lia.
  - destruct v; cbn [Z.b2z orb]; [by rewrite andb_false_r|]. cbn [Z.eqb]. rewrite andb_true_r.
    replace (8 * zlen t =? zlen t * 8) with true by (symmetry; apply Z.eqb_eq; lia). rewrite andb_true_r.
    destruct g; [done|]. rewrite (proj2 (Z.eqb_neq _ (-1))), Hlong by lia. do 2 f_equal. lia.
Qed.
End CommandsSpec.

(** ** Examples: the integer 12, shared by a hundred users, as a string *)
Definition number (n : Z) : robj := Robj (ENC_INT n) 1.
Definition twelve : robj := Robj (ENC_INT 12) 100.

Lemma twelve_text : has_text twelve [49; 50].
Proof. split; [split; done|done]. Qed.

Lemma setbit_sets_one_bit_witness :
  exists o' l', setbitCommand (fun _ => 0) 8 (Some (StringValue twelve)) (number 17) (number 1) = Some (czero, Some o') /\
    has_text o' l' /\ zlen l' = 3 /\ bit_at l' 17 = true /\ bit_at l' 2 = true.
Proof.
  destruct (setbit_sets_one_bit (fun _ => 0) 8 (Some (StringValue twelve)) [49; 50] (number 17) 17 (number 1) true)
    as (o' & l' & H1 & H2 & _ & H4 & H5 & _).
  - lia.
  - apply twelve_text.
  - repeat constructor; unfold is_byte; lia.
  - cbn. lia.
  - done.
  - lia.
  - done.
  - exists o', l'. split; [exact H1|]. split; [done|]. split; [exact H4|]. split; [apply (H5 17); lia|exact (H5 2 ltac:(lia))].
Defined.

Lemma bitcount_counts_witness :
  bitcountCommand (fun _ => 0) true 8 (fun _ => 3) (Some (StringValue twelve)) [number (-1); number 5] = Some (LongLong 3).
Proof.
  apply (bitcount_counts (fun _ => 0) true 8 (fun _ => 3) twelve [49; 50] [number (-1); number 5] 1 1 true).
  - apply twelve_text.
  - repeat constructor; unfold is_byte; lia.
  - apply (between 8 2 (number (-1)) (number 5) (-1) 5); (split; [done|split; done]).
  - done.
Defined.

Lemma bitpos_finds_witness :
  bitposCommand (fun _ => 0) false 8 (fun _ => 3) (Some (StringValue twelve)) (number 1) [number 1] = Some (LongLong 10).
Proof.
  apply (bitpos_finds (fun _ => 0) false 3 (fun _ => 3) twelve [49; 50] (number 1) true [number 1] 1 1 false).
  - lia.
  - apply twelve_text.
  - repeat constructor; unfold is_byte; lia.
  - split; [cbn; lia|done].
  - split; [done|split; done].
  - apply (from 8 2 (number 1) 1). split; [done|split; done].
  - by left.
Defined.
End Bitops.
