(* ===== verification/Keyspace.v ===== *)
(** * Keys, their expiration and strings (src/redis-2.8/src/db.c, t_string.c)

    The databases of a server: keys with values and times at which they expire,
    the functions that every command looks keys up with, the commands on keys
    and those on strings. A master deletes a key that expired when it is next
    looked up and sends its slaves a DEL; a slave waits for it. The theorems say
    that this keeps a slave equal to its master, and where it does not.

    A dictionary is a finite map, as [Dict] shows that it behaves. A string is
    kept by its encoding and its text: numbers are read and objects encoded as
    [Object] does it. Counts of references, times of access and the append only
    file, which gets what the slaves get, are left out. *)
From stdpp Require Import base tactics list numbers option gmap fin_maps strings.
From Stdlib Require Import ZArith Lia.
From S2P Require Import Prelude Util Sds SdsText Object.
Import CInt CMem StateM.
Open Scope redis_scope.
Open Scope Z_scope.

Module Keyspace.

(** ** Values *)
Definition key := list Z.
Inductive unit_of_time := UNIT_SECONDS | UNIT_MILLISECONDS.
Inductive encoding := Raw (l : list Z) | Int (v : Z).
Inductive aggregate := REDIS_LIST | REDIS_SET | REDIS_ZSET | REDIS_HASH.

(** The object of an encoding, with the characters of its text. *)
Definition object (e : encoding) : Object.robj :=
  Object.createObject (match e with Raw l => Object.ENC_RAW (Sds.Sdshdr (zlen l) 0 (l ++ [0])) | Int v => Object.ENC_INT v end).
Definition text (e : encoding) : list Z := match e with Raw l => l | Int v => Util.dec v end.
Definition stringObjectLen (e : encoding) : Z := zlen (text e).

(** The number in an object, as [Object] reads it; reading never fails. *)
Definition getLongLongFromObject (e : encoding) : option Z := default None (Object.getLongLongFromObject (object e)).

Section Encodings.
Context (long_bits : Z).
Definition tryObjectEncoding (l : list Z) : encoding :=
  if 21 <? zlen l then Raw l
  else match Util.string2l long_bits l (zlen l) with Some (Some v) => Int v | _ => Raw l end.
Definition createStringObjectFromLongLong (v : Z) : encoding :=
  if (- 2 ^ (long_bits - 1) <=? v) && (v <=? 2 ^ (long_bits - 1) - 1) then Int v else Raw (Util.dec v).
End Encodings.

(** [sdsgrowzero] to the end of [v] at [offset], and [memcpy]. *)
Definition write_at (l : list Z) (offset : nat) (v : list Z) : list Z :=
  let grown := l ++ replicate (offset + length v - length l) 0 in
  take offset grown ++ v ++ drop (offset + length v) grown.

Section Keys.
(** The contents of lists, sets and hashes; the width of [long]; the clock, read
    by read; the keys that [dictGetRandomKey] returns. *)
Context {X : Type} (long_bits : Z).
Inductive value := Str (e : encoding) | Agg (t : aggregate) (x : X).
Context (mstime : nat -> Z) (random : nat -> gmap key value -> key).

Definition is_list (v : value) : bool := match v with Agg REDIS_LIST _ => true | _ => false end.

(** The commands, by their names, with their arguments. *)
Inductive command :=
  | SET (k : key) (v : list Z) (options : list (list Z))
  | SETNX (k : key) (v : list Z) | SETEX (k : key) (expire v : list Z) | PSETEX (k : key) (expire v : list Z)
  | GET (k : key) | GETSET (k : key) (v : list Z) | STRLEN (k : key) | APPEND (k : key) (v : list Z)
  | SETRANGE (k : key) (offset v : list Z) | GETRANGE (k : key) (start finish : list Z)
  | MGET (ks : list key) | MSET (args : list (list Z)) | MSETNX (args : list (list Z))
  | INCR (k : key) | DECR (k : key) | INCRBY (k : key) (n : list Z) | DECRBY (k : key) (n : list Z)
  | DEL (ks : list key) | EXISTS (k : key) | TYPE (k : key) | DBSIZE | FLUSHDB | FLUSHALL
  | RENAME (a b : key) | RENAMENX (a b : key) | MOVE (k : key) (dbid : list Z)
  | EXPIRE (k : key) (n : list Z) | EXPIREAT (k : key) (n : list Z)
  | PEXPIRE (k : key) (n : list Z) | PEXPIREAT (k : key) (n : list Z)
  | TTL (k : key) | PTTL (k : key) | PERSIST (k : key).

Inductive reply :=
  | ok | nullbulk | cone | czero | emptybulk | sameobjecterr | nokeyerr | outofrangeerr | wrongtypeerr | syntaxerr
  | Integer (n : Z) | Bulk (l : list Z) | MultiBulkLen (n : Z) | Status (s : string) | Err (s : string).

Record redisDb := Db { dict : gmap key value; expires : gmap key Z }.

(** What others see of a command: touched keys, notifications, lists that
    became ready, replies. *)
Inductive effect :=
  | Touch (d : nat) (k : key) | TouchFlush (dbid : Z) | Notify (event : string) (k : key) (d : nat) | Ready (d : nat) (k : key) | Reply (r : reply).

Record server := Server {
  dbs : list redisDb; dirty : Z; ticks : nat; stat_expiredkeys : Z; stat_keyspace_hits : Z; stat_keyspace_misses : Z;
  effects : list effect; stream : list (nat * command) }.

(** The role of the server and what stops expiration. *)
Record config := Config { masterhost : bool; loading : bool; lua_time_start : option Z }.
Context (cf : config).

Abbreviation M := (StateM.M server).

Definition get : M server := fun s => Some (s, s).
Definition set_dbs x : M unit := fun s => Some (tt, Server x (dirty s) (ticks s) (stat_expiredkeys s) (stat_keyspace_hits s) (stat_keyspace_misses s) (effects s) (stream s)).
Definition add_dirty n : M unit := fun s => Some (tt, Server (dbs s) (dirty s + n) (ticks s) (stat_expiredkeys s) (stat_keyspace_hits s) (stat_keyspace_misses s) (effects s) (stream s)).
Definition count_expired : M unit := fun s => Some (tt, Server (dbs s) (dirty s) (ticks s) (stat_expiredkeys s + 1) (stat_keyspace_hits s) (stat_keyspace_misses s) (effects s) (stream s)).
Definition count_lookup (hit : bool) : M unit := fun s => Some (tt, Server (dbs s) (dirty s) (ticks s) (stat_expiredkeys s)
  (stat_keyspace_hits s + Z.b2z hit) (stat_keyspace_misses s + Z.b2z (negb hit)) (effects s) (stream s)).
Definition emit (e : effect) : M unit := fun s => Some (tt, Server (dbs s) (dirty s) (ticks s) (stat_expiredkeys s) (stat_keyspace_hits s) (stat_keyspace_misses s) (effects s ++ [e]) (stream s)).
Definition propagate (d : nat) (c : command) : M unit := fun s => Some (tt, Server (dbs s) (dirty s) (ticks s) (stat_expiredkeys s) (stat_keyspace_hits s) (stat_keyspace_misses s) (effects s) (stream s ++ [(d, c)])).
Definition now : M Z := fun s => Some (mstime (ticks s),
  Server (dbs s) (dirty s) (S (ticks s)) (stat_expiredkeys s) (stat_keyspace_hits s) (stat_keyspace_misses s) (effects s) (stream s)).
Definition addReply (r : reply) : M unit := emit (Reply r).

Definition get_db (d : nat) : M redisDb := s ← get; lift (dbs s !! d).
Definition upd_db (d : nat) (f : redisDb -> redisDb) : M unit := s ← get; set_dbs (alter f d (dbs s)).
Definition dictFind (d : nat) (k : key) : M (option value) := b ← get_db d; mret (dict b !! k).
Definition assert_ (b : bool) : M unit := if b then mret tt else fail.
Definition found {A} (o : option A) : bool := match o with Some _ => true | None => false end.

(** ** Expiration *)
Definition getExpire (d : nat) (k : key) : M Z :=
  b ← get_db d;
  if bool_decide (size (expires b) = 0%nat) then mret (-1)
  else match expires b !! k with
       | None => mret (-1)
       | Some when => _ ← assert_ (found (dict b !! k)); mret when
       end.

Definition removeExpire (d : nat) (k : key) : M bool :=
  b ← get_db d;
  _ ← assert_ (found (dict b !! k));
  _ ← upd_db d (fun b => Db (dict b) (delete k (expires b)));
  mret (found (expires b !! k)).

Definition setExpire (d : nat) (k : key) (when : Z) : M unit :=
  b ← get_db d;
  _ ← assert_ (found (dict b !! k));
  upd_db d (fun b => Db (dict b) (<[k := when]> (expires b))).

(** The result of [dictDelete] on the keys. *)
Definition dbDelete (d : nat) (k : key) : M bool :=
  b ← get_db d;
  _ ← (if bool_decide (size (expires b) = 0%nat) then mret tt else upd_db d (fun b => Db (dict b) (delete k (expires b))));
  _ ← upd_db d (fun b => Db (delete k (dict b)) (expires b));
  mret (found (dict b !! k)).

Definition propagateExpire (d : nat) (k : key) : M unit := propagate d (DEL [k]).

Definition expireIfNeeded (d : nat) (k : key) : M bool :=
  when ← getExpire d k;
  if when <? 0 then mret false
  else if loading cf then mret false
  else
    t ← match lua_time_start cf with Some t => mret t | None => now end;
    if masterhost cf then mret (when <? t)
    else if t <=? when then mret false
    else
      _ ← count_expired;
      _ ← propagateExpire d k;
      _ ← emit (Notify "expired" k d);
      dbDelete d k.

(** ** Looking keys up and storing them *)
Definition lookupKey := dictFind.

Definition lookupKeyRead (d : nat) (k : key) : M (option value) :=
  _ ← expireIfNeeded d k;
  val ← lookupKey d k;
  _ ← count_lookup (found val);
  mret val.

Definition lookupKeyWrite (d : nat) (k : key) : M (option value) :=
  _ ← expireIfNeeded d k; lookupKey d k.

Definition lookupKeyReadOrReply (d : nat) (k : key) (r : reply) : M (option value) :=
  o ← lookupKeyRead d k; _ ← (if found o then mret tt else addReply r); mret o.
Definition lookupKeyWriteOrReply (d : nat) (k : key) (r : reply) : M (option value) :=
  o ← lookupKeyWrite d k; _ ← (if found o then mret tt else addReply r); mret o.

Definition dbAdd (d : nat) (k : key) (v : value) : M unit :=
  o ← dictFind d k;
  _ ← assert_ (negb (found o));
  _ ← upd_db d (fun b => Db (<[k := v]> (dict b)) (expires b));
  if is_list v then emit (Ready d k) else mret tt.

Definition dbOverwrite (d : nat) (k : key) (v : value) : M unit :=
  o ← dictFind d k;
  _ ← assert_ (found o);
  upd_db d (fun b => Db (<[k := v]> (dict b)) (expires b)).

Definition signalModifiedKey (d : nat) (k : key) : M unit := emit (Touch d k).
Definition notifyKeyspaceEvent (event : string) (k : key) (d : nat) : M unit := emit (Notify event k d).

Definition setKey (d : nat) (k : key) (v : value) : M unit :=
  o ← lookupKeyWrite d k;
  _ ← (if found o then dbOverwrite d k v else dbAdd d k v);
  _ ← removeExpire d k;
  signalModifiedKey d k.

Definition dbExists (d : nat) (k : key) : M bool := o ← dictFind d k; mret (found o).

(** [while(1)], [fuel] rounds of it. *)
Fixpoint dbRandomKey (fuel : nat) (d : nat) : M (option key) :=
  match fuel with
  | O => fail
  | S fuel =>
      b ← get_db d;
      if bool_decide (dict b = ∅) then mret None
      else
        let k := random fuel (dict b) in
        expired ← (if found (expires b !! k) then expireIfNeeded d k else mret false);
        if expired : bool then dbRandomKey fuel d else mret (Some k)
  end.

Definition emptyDb : M Z :=
  s ← get;
  _ ← set_dbs (map (fun _ => Db ∅ ∅) (dbs s));
  mret (foldr (fun b n => Z.of_nat (size (dict b)) + n) 0 (dbs s)).

(** ** The commands

    A handler returns what it rewrote the command to, if it did. *)
Definition done_ : M (option command) := mret None.
Definition reply_ (r : reply) : M (option command) := _ ← addReply r; done_.

Definition getLongLongFromObjectOrReply (arg : list Z) (k : Z -> M (option command)) : M (option command) :=
  match getLongLongFromObject (Raw arg) with
  | Some n => k n
  | None => reply_ (Err "value is not an integer or out of range")
  end.
Definition getLongFromObjectOrReply (arg : list Z) (k : Z -> M (option command)) : M (option command) :=
  getLongLongFromObjectOrReply arg (fun n =>
    if (n <? - 2 ^ (long_bits - 1)) || (2 ^ (long_bits - 1) - 1 <? n) then reply_ (Err "value is out of range") else k n).

Definition flushdbCommand (d : nat) : M (option command) :=
  b ← get_db d;
  _ ← add_dirty (Z.of_nat (size (dict b)));
  _ ← emit (TouchFlush (Z.of_nat d));
  _ ← upd_db d (fun _ => Db ∅ ∅);
  reply_ ok.

(** Without the saving of the empty data set, which keeps [dirty]. *)
Definition flushallCommand : M (option command) :=
  _ ← emit (TouchFlush (-1));
  n ← emptyDb;
  _ ← add_dirty n;
  _ ← addReply ok;
  _ ← add_dirty 1; done_.

Fixpoint del_loop (d : nat) (ks : list key) (deleted : Z) : M Z :=
  match ks with
  | [] => mret deleted
  | k :: ks =>
      _ ← expireIfNeeded d k;
      b ← dbDelete d k;
      if b : bool then
        _ ← signalModifiedKey d k;
        _ ← notifyKeyspaceEvent "del" k d;
        _ ← add_dirty 1;
        del_loop d ks (deleted + 1)
      else del_loop d ks deleted
  end.
Definition delCommand (d : nat) (ks : list key) : M (option command) :=
  n ← del_loop d ks 0; reply_ (Integer n).

Definition existsCommand (d : nat) (k : key) : M (option command) :=
  _ ← expireIfNeeded d k;
  b ← dbExists d k;
  reply_ (if b : bool then cone else czero).

Definition typeCommand (d : nat) (k : key) : M (option command) :=
  o ← lookupKeyRead d k;
  reply_ (Status (match o with
                  | None => "none" | Some (Str _) => "string" | Some (Agg REDIS_LIST _) => "list"
                  | Some (Agg REDIS_SET _) => "set" | Some (Agg REDIS_ZSET _) => "zset" | Some (Agg REDIS_HASH _) => "hash"
                  end)).

Definition dbsizeCommand (d : nat) : M (option command) :=
  b ← get_db d; reply_ (Integer (Z.of_nat (size (dict b)))).

Definition renameGenericCommand (d : nat) (a b : key) (nx : bool) : M (option command) :=
  if bool_decide (a = b) then reply_ sameobjecterr
  else
    o ← lookupKeyWriteOrReply d a nokeyerr;
    match o with
    | None => done_
    | Some o =>
        expire ← getExpire d a;
        dst ← lookupKeyWrite d b;
        if found dst && nx then reply_ czero
        else
          _ ← (if found dst then _ ← dbDelete d b; mret tt else mret tt);
          _ ← dbAdd d b o;
          _ ← (if negb (expire =? -1) then setExpire d b expire else mret tt);
          _ ← dbDelete d a;
          _ ← signalModifiedKey d a;
          _ ← signalModifiedKey d b;
          _ ← notifyKeyspaceEvent "rename_from" a d;
          _ ← notifyKeyspaceEvent "rename_to" b d;
          _ ← add_dirty 1;
          reply_ (if nx then cone else ok)
    end.

Definition selectDb (n : Z) (dbnum : nat) : option nat :=
  if (n <? 0) || (Z.of_nat dbnum <=? n) then None else Some (Z.to_nat n).

(** The database that MOVE names. *)
Definition move_target (dbid : list Z) (dbnum : nat) : option nat :=
  match getLongLongFromObject (Raw dbid) with
  | Some n => if (n <? - 2 ^ 31) || (2 ^ 31 - 1 <? n) then None else selectDb n dbnum
  | None => None
  end.

Definition moveCommand (src : nat) (k : key) (dbid : list Z) : M (option command) :=
  s ← get;
  match move_target dbid (length (dbs s)) with
  | None => reply_ outofrangeerr
  | Some dst =>
      if bool_decide (src = dst) then reply_ sameobjecterr
      else
        o ← lookupKeyWrite src k;
        match o with
        | None => reply_ czero
        | Some o =>
            there ← lookupKeyWrite dst k;
            if found there then reply_ czero
            else
              _ ← dbAdd dst k o;
              _ ← dbDelete src k;
              _ ← add_dirty 1;
              reply_ cone
        end
  end.

(** The product and the sum wrap around as [long long]. *)
Definition in_milliseconds (unit : unit_of_time) (n : Z) : Z :=
  match unit with UNIT_SECONDS => int64 (n * 1000) | UNIT_MILLISECONDS => n end.

Definition expireGenericCommand (d : nat) (k : key) (param : list Z) (basetime : Z) (unit : unit_of_time) : M (option command) :=
  getLongLongFromObjectOrReply param (fun n =>
    let when := int64 (in_milliseconds unit n + basetime) in
    o ← lookupKeyRead d k;
    if negb (found o) then reply_ czero
    else
      t ← now;
      if (when <=? t) && negb (loading cf) && negb (masterhost cf) then
        gone ← dbDelete d k;
        _ ← assert_ gone;
        _ ← add_dirty 1;
        _ ← signalModifiedKey d k;
        _ ← notifyKeyspaceEvent "del" k d;
        _ ← addReply cone; mret (Some (DEL [k]))
      else
        _ ← setExpire d k when;
        _ ← addReply cone;
        _ ← signalModifiedKey d k;
        _ ← notifyKeyspaceEvent "expire" k d;
        _ ← add_dirty 1; done_).

Definition ttlGenericCommand (d : nat) (k : key) (output_ms : bool) : M (option command) :=
  o ← lookupKeyRead d k;
  if negb (found o) then reply_ (Integer (-2))
  else
    expire ← getExpire d k;
    ttl ← (if expire =? -1 then mret (-1)
           else t ← now; let ttl := int64 (expire - t) in mret (if ttl <? 0 then 0 else ttl));
    reply_ (Integer (if ttl =? -1 then -1 else if output_ms then ttl else Z.quot (int64 (ttl + 500)) 1000)).

Definition persistCommand (d : nat) (k : key) : M (option command) :=
  o ← dictFind d k;
  if negb (found o) then reply_ czero
  else
    removed ← removeExpire d k;
    if removed : bool then _ ← addReply cone; _ ← add_dirty 1; done_
    else reply_ czero.

(** ** The commands on strings *)
Definition set_store (d : nat) (nx xx : bool) (k : key) (v : value) (expire : option (list Z * unit_of_time)) (milliseconds : Z)
    (ok_reply abort_reply : reply) : M (option command) :=
  there ← (if nx then o ← lookupKeyWrite d k; mret (found o) else mret false);
  missing ← (if negb there && xx then o ← lookupKeyWrite d k; mret (negb (found o)) else mret false);
  if there || missing then reply_ abort_reply
  else
    _ ← setKey d k v;
    _ ← add_dirty 1;
    _ ← match expire with
        | Some _ => t ← now; setExpire d k (int64 (t + milliseconds))
        | None => mret tt
        end;
    _ ← notifyKeyspaceEvent "set" k d;
    _ ← match expire with Some _ => notifyKeyspaceEvent "expire" k d | None => mret tt end;
    reply_ ok_reply.

Definition setGenericCommand (d : nat) (name : string) (nx xx : bool) (k : key) (v : value) (expire : option (list Z * unit_of_time))
    (ok_reply abort_reply : reply) : M (option command) :=
  match expire with
  | Some (arg, unit) =>
      getLongLongFromObjectOrReply arg (fun milliseconds =>
        if milliseconds <=? 0 then reply_ (Err (String.append "invalid expire time in " name))
        else set_store d nx xx k v expire (in_milliseconds unit milliseconds) ok_reply abort_reply)
  | None => set_store d nx xx k v expire 0 ok_reply abort_reply
  end.

(** The first character, or its capital, the second and the end. *)
Definition is_option (x y : Z) (a : list Z) : bool :=
  let at_ i := nth i a 0 in
  ((at_ 0%nat =? x) || (at_ 0%nat =? x - 32)) && ((at_ 1%nat =? y) || (at_ 1%nat =? y - 32)) && (at_ 2%nat =? 0).

(** The options of SET: NX, XX and the time to live, if they are well formed. *)
Fixpoint set_options (options : list (list Z)) (nx xx : bool) (expire : option (list Z * unit_of_time))
  : option (bool * bool * option (list Z * unit_of_time)) :=
  match options with
  | [] => Some (nx, xx, expire)
  | a :: rest =>
      if is_option 110 120 a then set_options rest true xx expire
      else if is_option 120 120 a then set_options rest nx true expire
      else match rest with
           | [] => None
           | next :: rest =>
               if is_option 101 120 a then set_options rest nx xx (Some (next, UNIT_SECONDS))
               else if is_option 112 120 a then set_options rest nx xx (Some (next, UNIT_MILLISECONDS))
               else None
           end
  end.

Definition encode (v : list Z) : value := Str (tryObjectEncoding long_bits v).

Definition setCommand (d : nat) (k : key) (v : list Z) (options : list (list Z)) : M (option command) :=
  match set_options options false false None with
  | Some (nx, xx, expire) => setGenericCommand d "set" nx xx k (encode v) expire ok nullbulk
  | None => reply_ syntaxerr
  end.
Definition setnxCommand d k v := setGenericCommand d "setnx" true false k (encode v) None cone czero.
Definition setexCommand d k expire v := setGenericCommand d "setex" false false k (encode v) (Some (expire, UNIT_SECONDS)) ok nullbulk.
Definition psetexCommand d k expire v := setGenericCommand d "psetex" false false k (encode v) (Some (expire, UNIT_MILLISECONDS)) ok nullbulk.

Definition getGenericCommand (d : nat) (k : key) : M bool :=
  o ← lookupKeyReadOrReply d k nullbulk;
  match o with
  | None => mret true
  | Some (Str e) => _ ← addReply (Bulk (text e)); mret true
  | Some _ => _ ← addReply wrongtypeerr; mret false
  end.

Definition getCommand (d : nat) (k : key) : M (option command) := _ ← getGenericCommand d k; done_.

Definition getsetCommand (d : nat) (k : key) (v : list Z) : M (option command) :=
  fine ← getGenericCommand d k;
  if negb fine then done_
  else
    _ ← setKey d k (encode v);
    _ ← notifyKeyspaceEvent "set" k d;
    _ ← add_dirty 1; done_.

Definition max_string : Z := 512 * 1024 * 1024.
Definition too_long (size : Z) : bool := max_string <? size.

(** The copy of a string that can be changed in place: a raw one that is not
    shared is not copied. *)
Definition dbUnshareStringValue (d : nat) (k : key) (e : encoding) : M (list Z) :=
  match e with
  | Raw l => mret l
  | Int v => _ ← dbOverwrite d k (Str (Raw (Util.dec v))); mret (Util.dec v)
  end.
(** The store to the string at a key, which the caller holds. *)
Definition set_text (d : nat) (k : key) (l : list Z) : M unit :=
  upd_db d (fun b => Db (<[k := Str (Raw l)]> (dict b)) (expires b)).

(** [offset+sdslen(value)] is a [size_t], which the check takes as a [long long]
    and [sdsgrowzero] as it is: a length past [max_string] that the check lets
    through cannot be allocated, which ends the process. *)
Definition setrange_write (d : nat) (k : key) (offset : Z) (v l : list Z) : M (option command) :=
  _ ← assert_ (negb (too_long (uint64 (offset + zlen v))));
  let l := write_at l (Z.to_nat offset) v in
  _ ← set_text d k l;
  _ ← signalModifiedKey d k;
  _ ← notifyKeyspaceEvent "setrange" k d;
  _ ← add_dirty 1;
  reply_ (Integer (zlen l)).

Definition setrangeCommand (d : nat) (k : key) (arg v : list Z) : M (option command) :=
  getLongFromObjectOrReply arg (fun offset =>
    if offset <? 0 then reply_ (Err "offset is out of range")
    else
      o ← lookupKeyWrite d k;
      match o with
      | None =>
          if zlen v =? 0 then reply_ czero
          else if too_long (int64 (offset + zlen v)) then reply_ (Err "string exceeds maximum allowed size (512MB)")
          else _ ← dbAdd d k (Str (Raw [])); setrange_write d k offset v []
      | Some (Str e) =>
          if zlen v =? 0 then reply_ (Integer (stringObjectLen e))
          else if too_long (int64 (offset + zlen v)) then reply_ (Err "string exceeds maximum allowed size (512MB)")
          else l ← dbUnshareStringValue d k e; setrange_write d k offset v l
      | Some _ => reply_ wrongtypeerr
      end).

(** [strlen] is a [size_t] and [end] is compared as an [unsigned long long]. *)
Definition getrangeCommand (d : nat) (k : key) (start_ end_ : list Z) : M (option command) :=
  getLongLongFromObjectOrReply start_ (fun start =>
  getLongLongFromObjectOrReply end_ (fun finish =>
    o ← lookupKeyReadOrReply d k emptybulk;
    match o with
    | None => done_
    | Some (Str e) =>
        let strlen := stringObjectLen e in
        let start := if start <? 0 then int64 (strlen + start) else start in
        let finish := if finish <? 0 then int64 (strlen + finish) else finish in
        let start := if start <? 0 then 0 else start in
        let finish := if finish <? 0 then 0 else finish in
        let finish := if strlen <=? uint64 finish then strlen - 1 else finish in
        if (finish <? start) || (strlen =? 0) then reply_ emptybulk
        else reply_ (Bulk (take (Z.to_nat (finish - start + 1)) (drop (Z.to_nat start) (text e))))
    | Some _ => reply_ wrongtypeerr
    end)).

Fixpoint mget_loop (d : nat) (ks : list key) : M (option command) :=
  match ks with
  | [] => done_
  | k :: ks =>
      o ← lookupKeyRead d k;
      _ ← addReply (match o with Some (Str e) => Bulk (text e) | _ => nullbulk end);
      mget_loop d ks
  end.
Definition mgetCommand (d : nat) (ks : list key) : M (option command) := _ ← addReply (MultiBulkLen (zlen ks)); mget_loop d ks.

(** The arguments of MSET, two by two, if their number is even. *)
Fixpoint pairs (args : list (list Z)) : option (list (key * list Z)) :=
  match args with
  | [] => Some []
  | k :: v :: args => (fun kvs => (k, v) :: kvs) <$> pairs args
  | _ => None
  end.

Fixpoint busykeys_loop (d : nat) (ks : list key) (busykeys : Z) : M Z :=
  match ks with
  | [] => mret busykeys
  | k :: ks => o ← lookupKeyWrite d k; busykeys_loop d ks (if found o then busykeys + 1 else busykeys)
  end.
Fixpoint mset_loop (d : nat) (kvs : list (key * list Z)) : M unit :=
  match kvs with
  | [] => mret tt
  | (k, v) :: kvs => _ ← setKey d k (encode v); _ ← notifyKeyspaceEvent "set" k d; mset_loop d kvs
  end.
Definition msetGenericCommand (d : nat) (args : list (list Z)) (nx : bool) : M (option command) :=
  match pairs args with
  | None => reply_ (Err "wrong number of arguments for MSET")
  | Some kvs =>
      busykeys ← (if nx then busykeys_loop d (map fst kvs) 0 else mret 0);
      if negb (busykeys =? 0) then reply_ czero
      else
        _ ← mset_loop d kvs;
        _ ← add_dirty (zlen args / 2);
        reply_ (if nx then cone else ok)
  end.

Definition would_overflow (incr oldvalue : Z) : bool :=
  ((incr <? 0) && (oldvalue <? 0) && (incr <? int64 (- 2 ^ 63 - oldvalue))) ||
  ((0 <? incr) && (0 <? oldvalue) && (int64 (2 ^ 63 - 1 - oldvalue) <? incr)).

Definition incrDecrCommand (d : nat) (k : key) (incr : Z) : M (option command) :=
  o ← lookupKeyWrite d k;
  match o with
  | Some (Agg _ _) => reply_ wrongtypeerr
  | _ =>
      match (match o with Some (Str e) => getLongLongFromObject e | _ => Some 0 end) with
      | None => reply_ (Err "value is not an integer or out of range")
      | Some oldvalue =>
          if would_overflow incr oldvalue then reply_ (Err "increment or decrement would overflow")
          else
            let v := int64 (oldvalue + incr) in
            let new := Str (createStringObjectFromLongLong long_bits v) in
            _ ← (if found o then dbOverwrite d k new else dbAdd d k new);
            _ ← signalModifiedKey d k;
            _ ← notifyKeyspaceEvent "incrby" k d;
            _ ← add_dirty 1;
            reply_ (Integer v)
      end
  end.
Definition incrbyCommand (d : nat) (k : key) (arg : list Z) := getLongLongFromObjectOrReply arg (incrDecrCommand d k).
(** The negation wraps around. *)
Definition decrbyCommand (d : nat) (k : key) (arg : list Z) :=
  getLongLongFromObjectOrReply arg (fun incr => incrDecrCommand d k (int64 (- incr))).

Definition appendCommand (d : nat) (k : key) (v : list Z) : M (option command) :=
  o ← lookupKeyWrite d k;
  let finish (totlen : Z) : M (option command) :=
    _ ← signalModifiedKey d k;
    _ ← notifyKeyspaceEvent "append" k d;
    _ ← add_dirty 1;
    reply_ (Integer totlen) in
  match o with
  | None => _ ← dbAdd d k (encode v); finish (stringObjectLen (tryObjectEncoding long_bits v))
  | Some (Str e) =>
      if too_long (stringObjectLen e + zlen v) then reply_ (Err "string exceeds maximum allowed size (512MB)")
      else
        l ← dbUnshareStringValue d k e;
        _ ← set_text d k (l ++ v);
        finish (zlen (l ++ v))
  | Some _ => reply_ wrongtypeerr
  end.

Definition strlenCommand (d : nat) (k : key) : M (option command) :=
  o ← lookupKeyReadOrReply d k czero;
  match o with
  | None => done_
  | Some (Str e) => reply_ (Integer (stringObjectLen e))
  | Some _ => reply_ wrongtypeerr
  end.

(** ** Running commands *)
Definition proc (d : nat) (c : command) : M (option command) :=
  match c with
  | SET k v options => setCommand d k v options
  | SETNX k v => setnxCommand d k v
  | SETEX k n v => setexCommand d k n v
  | PSETEX k n v => psetexCommand d k n v
  | GET k => getCommand d k
  | GETSET k v => getsetCommand d k v
  | STRLEN k => strlenCommand d k
  | APPEND k v => appendCommand d k v
  | SETRANGE k n v => setrangeCommand d k n v
  | GETRANGE k a b => getrangeCommand d k a b
  | MGET ks => mgetCommand d ks
  | MSET args => msetGenericCommand d args false
  | MSETNX args => msetGenericCommand d args true
  | INCR k => incrDecrCommand d k 1
  | DECR k => incrDecrCommand d k (-1)
  | INCRBY k n => incrbyCommand d k n
  | DECRBY k n => decrbyCommand d k n
  | DEL ks => delCommand d ks
  | EXISTS k => existsCommand d k
  | TYPE k => typeCommand d k
  | DBSIZE => dbsizeCommand d
  | FLUSHDB => flushdbCommand d
  | FLUSHALL => flushallCommand
  | RENAME a b => renameGenericCommand d a b false
  | RENAMENX a b => renameGenericCommand d a b true
  | MOVE k n => moveCommand d k n
  | EXPIRE k n => t ← now; expireGenericCommand d k n t UNIT_SECONDS
  | EXPIREAT k n => expireGenericCommand d k n 0 UNIT_SECONDS
  | PEXPIRE k n => t ← now; expireGenericCommand d k n t UNIT_MILLISECONDS
  | PEXPIREAT k n => expireGenericCommand d k n 0 UNIT_MILLISECONDS
  | TTL k => ttlGenericCommand d k false
  | PTTL k => ttlGenericCommand d k true
  | PERSIST k => persistCommand d k
  end.

(** The part of [call] that propagates: a command that changed something is
    sent as it was rewritten. *)
Definition call (d : nat) (c : command) : M unit :=
  s ← get;
  rewritten ← proc d c;
  s' ← get;
  if 0 <? dirty s' - dirty s then propagate d (default c rewritten) else mret tt.

(** A key and the time that the cycle of a master read, which may be past;
    [dictGetRandomKey] returned the key from [expires]. *)
Definition activeExpireCycleTryExpire (d : nat) (k : key) (time : Z) : M bool :=
  b ← get_db d;
  match expires b !! k with
  | Some t =>
      if t <? time then
        _ ← propagateExpire d k;
        _ ← dbDelete d k;
        _ ← notifyKeyspaceEvent "expired" k d;
        _ ← count_expired; mret true
      else mret false
  | None => mret false
  end.

Inductive event := Command (d : nat) (c : command) | Cycle (d : nat) (k : key) (time : Z).
Definition run_event (e : event) : M unit :=
  match e with
  | Command d c => call d c
  | Cycle d k time => if masterhost cf then mret tt else _ ← activeExpireCycleTryExpire d k time; mret tt
  end.
Fixpoint run (es : list event) : M unit :=
  match es with [] => mret tt | e :: es => _ ← run_event e; run es end.

(** ** Keys and values, without times *)
Definition dicts (s : server) : list (gmap key value) := map dict (dbs s).
Definition val (D : list (gmap key value)) (d : nat) (k : key) : option value := D !! d ≫= (fun m => m !! k).
Definition put (d : nat) (k : key) (v : value) (D : list (gmap key value)) := alter (<[k := v]>) d D.
Definition del (d : nat) (k : key) (D : list (gmap key value)) := alter (delete k) d D.
Definition dels (gs : list (nat * key)) (D : list (gmap key value)) := foldl (fun D g => del g.1 g.2 D) D gs.
Definition del_keys (d : nat) (ks : list key) (D : list (gmap key value)) := foldl (fun D k => del d k D) D ks.

(** What a command does to keys and values where time plays no part: [f] is the
    new value at a key, if it changes. *)
Definition update (d : nat) (k : key) (f : option value -> option value) (D : list (gmap key value)) :=
  match f (val D d k) with Some v => put d k v D | None => D end.

Definition valid_expire (e : option (list Z * unit_of_time)) : bool :=
  match e with
  | None => true
  | Some (arg, _) => match getLongLongFromObject (Raw arg) with Some n => 0 <? n | None => false end
  end.
Definition set_value (nx xx : bool) (v : value) (e : option (list Z * unit_of_time)) (o : option value) : option value :=
  if valid_expire e && negb (nx && found o) && negb (xx && negb (found o)) then Some v else None.

Definition long_argument (arg : list Z) : option Z :=
  match getLongLongFromObject (Raw arg) with
  | Some n => if (n <? - 2 ^ (long_bits - 1)) || (2 ^ (long_bits - 1) - 1 <? n) then None else Some n
  | None => None
  end.
Definition old_text (o : option value) : option (list Z) :=
  match o with None => Some [] | Some (Str e) => Some (text e) | Some _ => None end.
Definition setrange_value (arg v : list Z) (o : option value) : option value :=
  match long_argument arg, old_text o with
  | Some offset, Some l =>
      if (offset <? 0) || (zlen v =? 0) || too_long (int64 (offset + zlen v)) then None
      else Some (Str (Raw (write_at l (Z.to_nat offset) v)))
  | _, _ => None
  end.
Definition append_value (v : list Z) (o : option value) : option value :=
  match o with
  | None => Some (encode v)
  | Some (Str e) => if too_long (stringObjectLen e + zlen v) then None else Some (Str (Raw (text e ++ v)))
  | Some _ => None
  end.
Definition incr_value (incr : Z) (o : option value) : option value :=
  match (match o with None => Some 0 | Some (Str e) => getLongLongFromObject e | Some _ => None end) with
  | Some old => if would_overflow incr old then None else Some (Str (createStringObjectFromLongLong long_bits (int64 (old + incr))))
  | None => None
  end.
Definition incr_argument (f : Z -> Z) (arg : list Z) (o : option value) : option value :=
  match getLongLongFromObject (Raw arg) with Some n => incr_value (f n) o | None => None end.
Definition getset_value (v : value) (o : option value) : option value :=
  match o with Some (Agg _ _) => None | _ => Some v end.

Definition put_all (d : nat) (kvs : list (key * list Z)) (D : list (gmap key value)) :=
  foldl (fun D kv => put d kv.1 (encode kv.2) D) D kvs.
Definition apply_mset (d : nat) (args : list (list Z)) (nx : bool) (D : list (gmap key value)) :=
  match pairs args with
  | Some kvs => if nx && existsb (fun kv => found (val D d kv.1)) kvs then D else put_all d kvs D
  | None => D
  end.
Definition apply_rename d a b (nx : bool) D :=
  if bool_decide (a = b) then D
  else match val D d a with
       | None => D
       | Some v => if nx && found (val D d b) then D else del d a (put d b v D)
       end.
Definition apply_move d k dst D :=
  if bool_decide (d = dst) then D
  else match val D d k with
       | Some v => if found (val D dst k) then D else del d k (put dst k v D)
       | None => D
       end.
Definition apply (d : nat) (c : command) (D : list (gmap key value)) : list (gmap key value) :=
  match c with
  | SET k v options =>
      match set_options options false false None with
      | Some (nx, xx, e) => update d k (set_value nx xx (encode v) e) D
      | None => D
      end
  | SETNX k v => update d k (set_value true false (encode v) None) D
  | SETEX k n v => update d k (set_value false false (encode v) (Some (n, UNIT_SECONDS))) D
  | PSETEX k n v => update d k (set_value false false (encode v) (Some (n, UNIT_MILLISECONDS))) D
  | GETSET k v => update d k (getset_value (encode v)) D
  | APPEND k v => update d k (append_value v) D
  | SETRANGE k n v => update d k (setrange_value n v) D
  | MSET args => apply_mset d args false D
  | MSETNX args => apply_mset d args true D
  | INCR k => update d k (incr_value 1) D
  | DECR k => update d k (incr_value (-1)) D
  | INCRBY k n => update d k (incr_argument (fun n => n) n) D
  | DECRBY k n => update d k (incr_argument (fun n => int64 (- n)) n) D
  | DEL ks => del_keys d ks D
  | FLUSHDB => alter (fun _ => ∅) d D
  | FLUSHALL => map (fun _ => ∅) D
  | RENAME a b => apply_rename d a b false D
  | RENAMENX a b => apply_rename d a b true D
  | MOVE k n => match move_target n (length D) with Some dst => apply_move d k dst D | None => D end
  | _ => D
  end.
Definition apply_all (cs : list (nat * command)) (D : list (gmap key value)) : list (gmap key value) :=
  foldl (fun D c => apply c.1 c.2 D) D cs.

(** ** The state of a server *)
Definition wf (s : server) : Prop := Forall (fun b => dom (expires b) ⊆ dom (dict b)) (dbs s).

(** From [s] to [s'] the keys [gs] expired, [n] changes were counted and the
    keys and values became [D]. *)
Record outcome (s s' : server) (gs : list (nat * key)) (D : list (gmap key value)) (n : Z) : Prop := Outcome {
  oc_wf : wf s';
  oc_stream : stream s' = stream s ++ map (fun g => (g.1, DEL [g.2])) gs;
  oc_dicts : dicts s' = D;
  oc_dirty : dirty s' = dirty s + n;
  oc_length : length (dbs s') = length (dbs s);
  oc_valid : Forall (fun g => (g.1 < length (dbs s))%nat) gs;
  oc_slave : masterhost cf = true -> gs = [] }.

Lemma outcome_trans s s1 s2 gs1 gs2 D1 D2 n1 n2 :
  outcome s s1 gs1 D1 n1 -> outcome s1 s2 gs2 D2 n2 -> outcome s s2 (gs1 ++ gs2) D2 (n1 + n2).
Proof.
  intros [W1 S1 X1 N1 L1 V1 H1] [W2 S2 X2 N2 L2 V2 H2]. split; [done|..|].
  - by rewrite S2, S1, map_app, app_assoc.
  - done.
  - lia.
  - congruence.
  - apply Forall_app. split; [done|]. by rewrite <- L1.
  - intros H. by rewrite H1, H2.
Qed.

(** A step that only changes what is not seen of the keys. *)
Lemma outcome_silent s s' n : wf s -> dbs s' = dbs s -> stream s' = stream s -> dirty s' = dirty s + n -> outcome s s' [] (dicts s) n.
Proof. intros W E1 E2 E3. split; try done; unfold wf, dicts; by rewrite ?E1, ?E2, ?app_nil_r. Qed.

Lemma outcome_refl s : wf s -> outcome s s [] (dicts s) 0.
Proof. intros W. apply outcome_silent; [done..|lia]. Qed.

(** A step that changes one database. *)
Lemma outcome_db s d b f : wf s -> dbs s !! d = Some b -> dom (expires (f b)) ⊆ dom (dict (f b)) ->
  outcome s (Server (alter f d (dbs s)) (dirty s) (ticks s) (stat_expiredkeys s) (stat_keyspace_hits s) (stat_keyspace_misses s) (effects s) (stream s))
    [] (alter (fun _ => dict (f b)) d (dicts s)) 0.
Proof.
  intros W Hd Hs. split; cbn; try done.
  - unfold wf. cbn. apply Forall_alter; [done|]. intros b' Hb' _. rewrite Hd in Hb'. by injection Hb' as <-.
  - by rewrite app_nil_r.
  - unfold dicts. cbn. apply list_eq. intros i. rewrite list_lookup_fmap. destruct (decide (i = d)) as [->|Hn].
    + rewrite !list_lookup_alter_eq, list_lookup_fmap, Hd. done.
    + rewrite !list_lookup_alter_ne, list_lookup_fmap by done. done.
  - lia.
  - apply length_alter.
Qed.

Lemma dicts_lookup s d b : dbs s !! d = Some b -> dicts s !! d = Some (dict b).
Proof. intros H. unfold dicts. by rewrite list_lookup_fmap, H. Qed.
Lemma val_dict s d b k : dbs s !! d = Some b -> val (dicts s) d k = dict b !! k.
Proof. intros H. unfold val. by rewrite (dicts_lookup _ _ _ H). Qed.
Lemma db_exists s d : (d < length (dbs s))%nat -> exists b, dbs s !! d = Some b.
Proof. intros H. by apply lookup_lt_is_Some_2 in H. Qed.
Lemma wf_lookup s d b : wf s -> dbs s !! d = Some b -> dom (expires b) ⊆ dom (dict b).
Proof. intros W H. by eapply Forall_lookup_1 in W. Qed.
Lemma alter_const {A} (f : A -> A) d (l : list A) x : l !! d = Some x -> alter (fun _ => f x) d l = alter f d l.
Proof.
  intros H. apply list_eq. intros i. destruct (decide (i = d)) as [->|Hn].
  - by rewrite !list_lookup_alter_eq, H.
  - by rewrite !list_lookup_alter_ne.
Qed.

Lemma alter_alter {A} (f g : A -> A) d (l : list A) : alter f d (alter g d l) = alter (fun x => f (g x)) d l.
Proof.
  apply list_eq. intros i. destruct (decide (i = d)) as [->|Hn].
  - rewrite !list_lookup_alter_eq. by destruct (l !! d).
  - by rewrite !list_lookup_alter_ne.
Qed.

(** ** The operations *)
Ltac run_db H := unfold get_db, upd_db, get, set_dbs, lift, assert_, mbind, M_bind, mret, M_ret; cbn; rewrite H; cbn.

Lemma get_db_run {B} s d b (k : redisDb -> M B) : dbs s !! d = Some b -> (get_db d ≫= k) s = k b s.
Proof. intros H. by run_db H. Qed.
Lemma dictFind_run s d b k : dbs s !! d = Some b -> dictFind d k s = Some (val (dicts s) d k, s).
Proof. intros H. unfold dictFind. rewrite (get_db_run _ _ _ _ H). by rewrite (val_dict _ _ _ _ H). Qed.

Definition ends {A} (m : M A) (s : server) (P : A -> server -> Prop) : Prop := exists x s', m s = Some (x, s') /\ P x s'.

Lemma ends_bind {A B} (m : M A) (f : A -> M B) s P : ends m s (fun x s' => ends (f x) s' P) -> ends (m ≫= f) s P.
Proof. intros (x & s' & E1 & (y & s'' & E2 & H)). exists y, s''. by rewrite (bind_run _ _ _ _ _ E1). Qed.
Lemma ends_ret {A} (x : A) s (P : A -> server -> Prop) : P x s -> ends (mret x) s P.
Proof. intros H. by exists x, s. Qed.
Lemma ends_mono {A} (m : M A) s (P Q : A -> server -> Prop) : ends m s P -> (forall x s', P x s' -> Q x s') -> ends m s Q.
Proof. intros (x & s' & E1 & H) HQ. exists x, s'. auto. Qed.

Lemma getExpire_ends s d k : wf s -> (d < length (dbs s))%nat -> ends (getExpire d k) s (fun w s' => s' = s /\ (w <> -1 -> is_Some (val (dicts s) d k))).
Proof.
  intros W Hd. destruct (db_exists s d Hd) as [b Hb]. unfold getExpire, ends. rewrite (get_db_run _ _ _ _ Hb).
  case_bool_decide; [by eexists _, _|]. destruct (expires b !! k) as [w|] eqn:Hw; [|by eexists _, _].
  assert (is_Some (dict b !! k)) as [v Hv].
  { apply elem_of_dom. apply (wf_lookup s d b W Hb). apply elem_of_dom. by exists w. }
  rewrite Hv. cbn. eexists _, _. split; [done|]. split; [done|]. intros _. rewrite (val_dict _ _ _ _ Hb), Hv. done.
Qed.

Lemma dbDelete_ends s d k : wf s -> (d < length (dbs s))%nat ->
  ends (dbDelete d k) s (fun r s' => r = found (val (dicts s) d k) /\ outcome s s' [] (del d k (dicts s)) 0).
Proof.
  intros W Hd. destruct (db_exists s d Hd) as [b Hb]. pose proof (wf_lookup s d b W Hb) as Hsub.
  assert (ends (dbDelete d k) s (fun r s' => r = found (dict b !! k) /\
    s' = Server (alter (fun b => Db (delete k (dict b)) (delete k (expires b))) d (dbs s)) (dirty s) (ticks s) (stat_expiredkeys s) (stat_keyspace_hits s) (stat_keyspace_misses s) (effects s) (stream s))) as H.
  { unfold ends, dbDelete. rewrite (get_db_run _ _ _ _ Hb). case_bool_decide as He.
    - eexists _, _. split; [reflexivity|]. split; [done|]. cbn. f_equal. apply list_alter_ext; [|done].
      intros b' Hb'. rewrite Hb in Hb'. injection Hb' as <-. apply map_size_empty_inv in He. by rewrite He, delete_empty.
    - eexists _, _. split; [reflexivity|]. split; [done|]. cbn. f_equal. by rewrite alter_alter. }
  eapply ends_mono; [exact H|]. cbn. intros r s' [-> ->]. split; [by rewrite (val_dict _ _ _ _ Hb)|].
  unfold del. rewrite <- (alter_const (delete k) d (dicts s) (dict b)) by (by apply dicts_lookup).
  apply (outcome_db s d b (fun b => Db (delete k (dict b)) (delete k (expires b))) W Hb). cbn. rewrite !dom_delete_L. set_solver.
Qed.

(** What an operation does to a state that was reached from [s0]. *)
Section Reached.
Context (s0 : server).

Lemma acc s s' gs gs' D D' n n' : outcome s0 s gs D n -> outcome s s' gs' D' n' -> outcome s0 s' (gs ++ gs') D' (n + n').
Proof. apply outcome_trans. Qed.

Lemma acc_still s s' gs D D' n : outcome s0 s gs D n -> outcome s s' [] D' 0 -> outcome s0 s' gs D' n.
Proof. intros A H. pose proof (acc _ _ _ _ _ _ _ _ A H) as A'. by rewrite app_nil_r, Z.add_0_r in A'. Qed.

Lemma acc_silent s s' gs D n m : outcome s0 s gs D n -> dbs s' = dbs s -> stream s' = stream s -> dirty s' = dirty s + m ->
  outcome s0 s' gs D (n + m).
Proof.
  intros A E1 E2 E3. pose proof (oc_dicts _ _ _ _ _ A) as HD.
  pose proof (acc _ _ _ _ _ _ _ _ A (outcome_silent s s' m (oc_wf _ _ _ _ _ A) E1 E2 E3)) as A'. by rewrite app_nil_r, HD in A'.
Qed.

Lemma acc_emit s gs D n e : outcome s0 s gs D n -> ends (emit e) s (fun _ s' => outcome s0 s' gs D n).
Proof. intros A. eexists _, _. split; [reflexivity|]. rewrite <- (Z.add_0_r n). eapply acc_silent; [exact A|done|done|cbn; lia]. Qed.
Lemma acc_count s gs D n h : outcome s0 s gs D n -> ends (count_lookup h) s (fun _ s' => outcome s0 s' gs D n).
Proof. intros A. eexists _, _. split; [reflexivity|]. rewrite <- (Z.add_0_r n). eapply acc_silent; [exact A|done|done|cbn; lia]. Qed.
Lemma acc_expired s gs D n : outcome s0 s gs D n -> ends count_expired s (fun _ s' => outcome s0 s' gs D n).
Proof. intros A. eexists _, _. split; [reflexivity|]. rewrite <- (Z.add_0_r n). eapply acc_silent; [exact A|done|done|cbn; lia]. Qed.
Lemma acc_now s gs D n : outcome s0 s gs D n -> ends now s (fun _ s' => outcome s0 s' gs D n).
Proof. intros A. eexists _, _. split; [reflexivity|]. rewrite <- (Z.add_0_r n). eapply acc_silent; [exact A|done|done|cbn; lia]. Qed.
Lemma acc_dirty s gs D n m : outcome s0 s gs D n -> ends (add_dirty m) s (fun _ s' => outcome s0 s' gs D (n + m)).
Proof. intros A. eexists _, _. split; [reflexivity|]. eapply acc_silent; [exact A|done|done|done]. Qed.

Context (d : nat) (Hd : (d < length (dbs s0))%nat).

Lemma acc_db s gs D n : outcome s0 s gs D n -> exists b, dbs s !! d = Some b /\ forall k, dict b !! k = val D d k.
Proof.
  intros A. destruct (db_exists s d) as [b Hb]; [by rewrite (oc_length _ _ _ _ _ A)|]. exists b. split; [done|]. intros k.
  by rewrite <- (oc_dicts _ _ _ _ _ A), (val_dict _ _ _ _ Hb).
Qed.

Lemma acc_find s gs D n k : outcome s0 s gs D n -> ends (dictFind d k) s (fun v s' => v = val D d k /\ outcome s0 s' gs D n).
Proof.
  intros A. destruct (acc_db _ _ _ _ A) as (b & Hb & _). eexists _, _. split; [by eapply dictFind_run|]. by rewrite (oc_dicts _ _ _ _ _ A).
Qed.

Lemma acc_getExpire s gs D n k : outcome s0 s gs D n ->
  ends (getExpire d k) s (fun w s' => (w <> -1 -> is_Some (val D d k)) /\ outcome s0 s' gs D n).
Proof.
  intros A. eapply ends_mono; [apply getExpire_ends; [apply A|by rewrite (oc_length _ _ _ _ _ A)]|]. cbn. intros w s' [-> H].
  by rewrite (oc_dicts _ _ _ _ _ A) in H.
Qed.

Lemma acc_delete s gs D n k : outcome s0 s gs D n ->
  ends (dbDelete d k) s (fun r s' => r = found (val D d k) /\ outcome s0 s' gs (del d k D) n).
Proof.
  intros A. eapply ends_mono; [apply dbDelete_ends; [apply A|by rewrite (oc_length _ _ _ _ _ A)]|]. cbn. intros r s' [-> H].
  rewrite (oc_dicts _ _ _ _ _ A) in *. split; [done|]. by eapply acc_still.
Qed.

(** A change of the database that keeps its expirations among its keys. *)
Lemma acc_upd s gs D n f D' : outcome s0 s gs D n ->
  (forall b, dbs s !! d = Some b -> dom (expires b) ⊆ dom (dict b) ->
    dom (expires (f b)) ⊆ dom (dict (f b)) /\ alter (fun _ => dict (f b)) d D = D') ->
  ends (upd_db d f) s (fun _ s' => outcome s0 s' gs D' n).
Proof.
  intros A H. destruct (acc_db _ _ _ _ A) as (b & Hb & _). destruct (H b Hb) as [H1 <-]; [exact (wf_lookup s d b (oc_wf _ _ _ _ _ A) Hb)|].
  eexists _, _. split; [reflexivity|]. eapply acc_still; [exact A|]. rewrite <- (oc_dicts _ _ _ _ _ A).
  exact (outcome_db s d b f (oc_wf _ _ _ _ _ A) Hb H1).
Qed.

Lemma acc_store s gs D n k v : outcome s0 s gs D n ->
  ends (upd_db d (fun b => Db (<[k := v]> (dict b)) (expires b))) s (fun _ s' => outcome s0 s' gs (put d k v D) n).
Proof.
  intros A. eapply acc_upd; [exact A|]. cbn. intros b Hb Hs. split; [rewrite dom_insert_L; set_solver|].
  apply (alter_const (insert k v)). rewrite <- (oc_dicts _ _ _ _ _ A). by apply dicts_lookup.
Qed.

Lemma acc_times s gs D n f : outcome s0 s gs D n ->
  (forall b : redisDb, dom (expires b) ⊆ dom (dict b) -> (forall k, dict b !! k = val D d k) -> dom (f (expires b)) ⊆ dom (dict b)) ->
  ends (upd_db d (fun b => Db (dict b) (f (expires b)))) s (fun _ s' => outcome s0 s' gs D n).
Proof.
  intros A H. eapply acc_upd; [exact A|]. cbn. intros b Hb Hs. destruct (acc_db _ _ _ _ A) as (b' & Hb' & Hv).
  rewrite Hb in Hb'. injection Hb' as <-. split; [by apply H|].
  assert (D !! d = Some (dict b)) as HD by (rewrite <- (oc_dicts _ _ _ _ _ A); by apply dicts_lookup).
  rewrite (alter_const id d D (dict b) HD : alter (fun _ => dict b) d D = _). apply list_alter_id. done.
Qed.

Lemma acc_setExpire s gs D n k w : outcome s0 s gs D n -> is_Some (val D d k) ->
  ends (setExpire d k w) s (fun _ s' => outcome s0 s' gs D n).
Proof.
  intros A [v Hv]. destruct (acc_db _ _ _ _ A) as (b & Hb & Hk). unfold setExpire, ends. rewrite (get_db_run _ _ _ _ Hb), Hk, Hv. cbn.
  apply (acc_times s gs D n (insert k w) A). intros b' Hs Hk'. rewrite dom_insert_L.
  assert (k ∈ dom (dict b')) by (apply elem_of_dom; by rewrite Hk', Hv). set_solver.
Qed.

Lemma acc_removeExpire s gs D n k : outcome s0 s gs D n -> is_Some (val D d k) ->
  ends (removeExpire d k) s (fun _ s' => outcome s0 s' gs D n).
Proof.
  intros A [v Hv]. destruct (acc_db _ _ _ _ A) as (b & Hb & Hk).
  assert (ends (upd_db d (fun b => Db (dict b) (delete k (expires b)))) s (fun _ s' => outcome s0 s' gs D n)) as (x & s' & E1 & A').
  { apply (acc_times s gs D n (delete k) A). intros b' Hs _. rewrite dom_delete_L. set_solver. }
  unfold removeExpire, ends. rewrite (get_db_run _ _ _ _ Hb), Hk, Hv. cbn. exists (found (expires b !! k)), s'.
  split; [exact (bind_run _ _ _ _ _ E1)|done].
Qed.

Lemma acc_propagate s gs D n k : masterhost cf = false -> outcome s0 s gs D n ->
  ends (propagateExpire d k) s (fun _ s' => outcome s0 s' (gs ++ [(d, k)]) D n).
Proof.
  intros Hm [W S Y N L H1 H2]. eexists _, _. split; [reflexivity|]. split; try done.
  - cbn. by rewrite S, map_app, app_assoc.
  - apply Forall_app. split; [done|]. constructor; [done|constructor].
  - by rewrite Hm.
Qed.

(** A key that may have expired. *)
Lemma acc_expire s gs D n k : outcome s0 s gs D n ->
  ends (expireIfNeeded d k) s (fun _ s' => exists gs', Forall (eq (d, k)) gs' /\ outcome s0 s' (gs ++ gs') (dels gs' D) n).
Proof.
  intros A. assert (forall s', outcome s0 s' gs D n -> exists gs', Forall (eq (d, k)) gs' /\ outcome s0 s' (gs ++ gs') (dels gs' D) n) as Hno.
  { intros s' A'. exists []. by rewrite app_nil_r. }
  apply ends_bind. eapply ends_mono; [by apply acc_getExpire|]. cbn. intros w s1 [_ A1].
  destruct (w <? 0); [apply ends_ret; auto|]. destruct (loading cf); [apply ends_ret; auto|].
  apply ends_bind. eapply (ends_mono _ _ (fun _ s' => outcome s0 s' gs D n)).
  { destruct (lua_time_start cf); [by apply ends_ret|by apply acc_now]. }
  intros t s2 A2. destruct (masterhost cf) eqn:Hm; [apply ends_ret; auto|]. destruct (t <=? w); [apply ends_ret; auto|].
  apply ends_bind. eapply ends_mono; [by apply acc_expired|]. cbn. intros _ s3 A3.
  apply ends_bind. eapply ends_mono; [by apply acc_propagate|]. cbn. intros _ s4 A4.
  apply ends_bind. eapply ends_mono; [by apply acc_emit|]. cbn. intros _ s5 A5.
  eapply ends_mono; [by apply acc_delete|]. cbn. intros r s6 [_ A6]. exists [(d, k)]. split; [constructor; [done|constructor]|done].
Qed.

(** *** Looking up and storing keys *)
Definition D0 : list (gmap key value) := dicts s0.

(** Nothing but expirations has happened. *)
Definition fresh (s : server) (gs : list (nat * key)) (n : Z) : Prop := outcome s0 s gs (dels gs D0) n.

Lemma dels_app gs gs' D : dels (gs ++ gs') D = dels gs' (dels gs D).
Proof. apply foldl_app. Qed.

Lemma fresh_start : wf s0 -> fresh s0 [] 0.
Proof. apply outcome_refl. Qed.

Lemma acc_found s gs D n k : outcome s0 s gs D n -> ends (lookupKeyWrite d k) s (fun v s' =>
  exists gs', Forall (eq (d, k)) gs' /\ v = val (dels gs' D) d k /\ outcome s0 s' (gs ++ gs') (dels gs' D) n).
Proof.
  intros A. apply ends_bind. eapply ends_mono; [by apply acc_expire|]. cbn. intros _ s1 (gs' & Hg & A1).
  eapply ends_mono; [by apply acc_find|]. cbn. eauto.
Qed.

Lemma fresh_write s gs n k : fresh s gs n -> ends (lookupKeyWrite d k) s (fun v s' =>
  exists gs', Forall (eq (d, k)) gs' /\ v = val (dels (gs ++ gs') D0) d k /\ fresh s' (gs ++ gs') n).
Proof. intros A. eapply ends_mono; [by apply acc_found|]. cbn. intros v s'. unfold fresh. setoid_rewrite dels_app. done. Qed.

Lemma fresh_expire s gs n k : fresh s gs n -> ends (expireIfNeeded d k) s (fun _ s' =>
  exists gs', Forall (eq (d, k)) gs' /\ fresh s' (gs ++ gs') n).
Proof. intros A. eapply ends_mono; [by apply acc_expire|]. cbn. intros v s'. unfold fresh. setoid_rewrite dels_app. done. Qed.

Lemma fresh_read s gs n k : fresh s gs n -> ends (lookupKeyRead d k) s (fun v s' =>
  exists gs', Forall (eq (d, k)) gs' /\ v = val (dels (gs ++ gs') D0) d k /\ fresh s' (gs ++ gs') n).
Proof.
  intros A. apply ends_bind. eapply ends_mono; [by apply fresh_expire|]. cbn. intros _ s1 (gs' & Hg & A1). apply ends_bind.
  eapply ends_mono; [by apply acc_find|]. cbn. intros v s2 [Hv A2]. apply ends_bind. eapply ends_mono; [by apply acc_count|].
  cbn. intros _ s3 A3. apply ends_ret. eauto.
Qed.

Lemma fresh_or_reply (m : M (option value)) s gs n k r :
  let post := fun v s' => exists gs', Forall (eq (d, k)) gs' /\ v = val (dels (gs ++ gs') D0) d k /\ fresh s' (gs ++ gs') n in
  ends m s post -> ends (o ← m; _ ← (if found o then mret tt else addReply r); mret o) s post.
Proof.
  intros post H. apply ends_bind. eapply ends_mono; [exact H|]. unfold post. cbn. intros v s1 (gs' & Hg & Hv & A1). apply ends_bind.
  destruct (found v); [apply ends_ret, ends_ret; eauto|]. eapply ends_mono; [by apply acc_emit|]. cbn. intros _ s2 A2. apply ends_ret. eauto.
Qed.

Lemma fresh_readOrReply s gs n k r : fresh s gs n -> ends (lookupKeyReadOrReply d k r) s (fun v s' =>
  exists gs', Forall (eq (d, k)) gs' /\ v = val (dels (gs ++ gs') D0) d k /\ fresh s' (gs ++ gs') n).
Proof. intros A. apply fresh_or_reply. by apply fresh_read. Qed.
Lemma fresh_writeOrReply s gs n k r : fresh s gs n -> ends (lookupKeyWriteOrReply d k r) s (fun v s' =>
  exists gs', Forall (eq (d, k)) gs' /\ v = val (dels (gs ++ gs') D0) d k /\ fresh s' (gs ++ gs') n).
Proof. intros A. apply fresh_or_reply. by apply fresh_write. Qed.

Lemma acc_add s gs D n k v : outcome s0 s gs D n -> val D d k = None -> ends (dbAdd d k v) s (fun _ s' => outcome s0 s' gs (put d k v D) n).
Proof.
  intros A Hv. apply ends_bind. eapply ends_mono; [by apply acc_find|]. cbn. intros o s1 [-> A1]. rewrite Hv. cbn. apply ends_bind, ends_ret, ends_bind.
  eapply ends_mono; [by apply acc_store|]. cbn. intros _ s2 A2. destruct (is_list v); [by apply acc_emit|by apply ends_ret].
Qed.
Lemma acc_overwrite s gs D n k v : outcome s0 s gs D n -> found (val D d k) = true -> ends (dbOverwrite d k v) s (fun _ s' => outcome s0 s' gs (put d k v D) n).
Proof.
  intros A Hv. apply ends_bind. eapply ends_mono; [by apply acc_find|]. cbn. intros o s1 [-> A1]. rewrite Hv. cbn. apply ends_bind, ends_ret.
  by apply acc_store.
Qed.
Lemma acc_put s gs D n k v : outcome s0 s gs D n ->
  ends (if found (val D d k) then dbOverwrite d k v else dbAdd d k v) s (fun _ s' => outcome s0 s' gs (put d k v D) n).
Proof. intros A. destruct (val D d k) eqn:E; [apply acc_overwrite|apply acc_add]; rewrite ?E; done. Qed.

(** *** Values after changes *)
Lemma val_alter f d1 d2 k D : val (alter f d1 D) d2 k = if decide (d1 = d2) then D !! d2 ≫= (fun m => f m !! k) else val D d2 k.
Proof.
  unfold val. destruct (decide (d1 = d2)) as [->|Hn]; [|by rewrite list_lookup_alter_ne].
  rewrite list_lookup_alter_eq. by destruct (D !! d2).
Qed.
Lemma val_put d1 k1 v D d2 k2 : (d1 < length D)%nat -> val (put d1 k1 v D) d2 k2 = if decide ((d1, k1) = (d2, k2)) then Some v else val D d2 k2.
Proof.
  intros [m Hm]%lookup_lt_is_Some_2. unfold put. rewrite val_alter. destruct (decide (d1 = d2)) as [->|Hn].
  - rewrite Hm. cbn. unfold val. rewrite Hm. cbn. destruct (decide (k1 = k2)) as [->|Hk].
    + rewrite lookup_insert_eq. by rewrite decide_True.
    + rewrite lookup_insert_ne by done. rewrite decide_False by congruence. done.
  - rewrite decide_False by congruence. done.
Qed.
Lemma val_del d1 k1 D d2 k2 : val (del d1 k1 D) d2 k2 = if decide ((d1, k1) = (d2, k2)) then None else val D d2 k2.
Proof.
  unfold del. rewrite val_alter. destruct (decide (d1 = d2)) as [->|Hn]; [|rewrite decide_False by congruence; done].
  unfold val. destruct (D !! d2) as [m|]; cbn; [|by destruct (decide _)]. destruct (decide (k1 = k2)) as [->|Hk].
  - rewrite lookup_delete_eq. by rewrite decide_True.
  - rewrite lookup_delete_ne by done. rewrite decide_False by congruence. done.
Qed.
Lemma val_dels gs D d2 k2 : val (dels gs D) d2 k2 = if decide ((d2, k2) ∈ gs) then None else val D d2 k2.
Proof.
  revert D. induction gs as [|[d1 k1] gs IH]; intros D; [by rewrite decide_False by apply not_elem_of_nil|].
  change (dels ((d1, k1) :: gs) D) with (dels gs (del d1 k1 D)). rewrite IH, val_del.
  repeat case_decide; rewrite ?elem_of_cons in *; naive_solver.
Qed.
Lemma length_put d1 k1 v D : length (put d1 k1 v D) = length D. Proof. apply length_alter. Qed.
Lemma length_del d1 k1 D : length (del d1 k1 D) = length D. Proof. apply length_alter. Qed.
Lemma length_dels gs D : length (dels gs D) = length D.
Proof. revert D. induction gs as [|[d1 k1] gs IH]; intros D; [done|].
  change (dels ((d1, k1) :: gs) D) with (dels gs (del d1 k1 D)). by rewrite IH, length_del. Qed.
Lemma length_put_all d1 kvs D : length (put_all d1 kvs D) = length D.
Proof. revert D. induction kvs as [|[k1 v] kvs IH]; intros D; [done|]. cbn. unfold put_all in IH. by rewrite IH, length_put. Qed.

Lemma dicts_ext (D1 D2 : list (gmap key value)) : length D1 = length D2 -> (forall d k, val D1 d k = val D2 d k) -> D1 = D2.
Proof.
  intros Hl H. apply list_eq_same_length with (n := length D2); [done..|]. intros i m1 m2 Hi H1 H2. apply map_eq. intros k.
  specialize (H i k). unfold val in H. by rewrite H1, H2 in H.
Qed.

Lemma same_keys (gs : list (nat * key)) k : Forall (eq (d, k)) gs -> forall d2 k2, (d2, k2) ∈ gs -> (d2, k2) = (d, k).
Proof. intros H d2 k2 Hin. by rewrite Forall_forall in H; specialize (H _ Hin). Qed.

(** Looking a key up again gives the same value, or none. *)
Lemma val_again (gs gs' : list (nat * key)) D k : Forall (eq (d, k)) gs' ->
  val (dels (gs ++ gs') D) d k = val (dels gs D) d k \/ val (dels (gs ++ gs') D) d k = None.
Proof. intros H. rewrite dels_app, (val_dels gs'). case_decide; auto. Qed.
Lemma val_other (gs gs' : list (nat * key)) D k d2 k2 : Forall (eq (d, k)) gs' -> (d2, k2) <> (d, k) -> val (dels (gs ++ gs') D) d2 k2 = val (dels gs D) d2 k2.
Proof. intros H Hne. rewrite dels_app, (val_dels gs'). case_decide as Hin; [|done]. by apply (same_keys gs' k) in Hin. Qed.

Lemma acc_setKey s gs D n k v : outcome s0 s gs D n -> ends (setKey d k v) s (fun _ s' =>
  exists gs', Forall (eq (d, k)) gs' /\ outcome s0 s' (gs ++ gs') (put d k v (dels gs' D)) n).
Proof.
  intros A. apply ends_bind. eapply ends_mono; [by apply acc_found|]. cbn. intros o s1 (gs' & Hg & -> & A1). apply ends_bind.
  eapply ends_mono; [by apply acc_put|]. cbn. intros _ s2 A2. apply ends_bind. eapply ends_mono.
  { eapply acc_removeExpire; [exact A2|]. rewrite val_put; [by rewrite decide_True|].
    rewrite <- (length_map dict (dbs s0)) in Hd. rewrite <- (oc_dicts _ _ _ _ _ A1). unfold dicts. rewrite length_map.
    rewrite (oc_length _ _ _ _ _ A1). by rewrite length_map in Hd. }
  cbn. intros _ s3 A3. eapply ends_mono; [by apply acc_emit|]. cbn. eauto.
Qed.
Lemma fresh_setKey s gs n k v : fresh s gs n -> ends (setKey d k v) s (fun _ s' =>
  exists gs', Forall (eq (d, k)) gs' /\ outcome s0 s' (gs ++ gs') (put d k v (dels (gs ++ gs') D0)) n).
Proof. intros A. eapply ends_mono; [by apply acc_setKey|]. cbn. intros _ s'. by setoid_rewrite dels_app. Qed.
End Reached.

(** ** What every command does

    From [s0] a command lets some keys expire and does what [apply] says to
    what is left, counting it; or it changes nothing, which [apply] agrees with
    where nothing expired. *)
Section Applied.
Context (s0 : server) (W0 : wf s0) (d : nat) (Hd : (d < length (dbs s0))%nat).
Local Abbreviation D0 := (D0 s0).

Definition applied (c : command) (r : option command) (s' : server) : Prop :=
  exists gs n D, outcome s0 s' gs D n /\ (masterhost cf = true -> r = None) /\ (forall c', r = Some c' -> exists ks, c' = DEL ks) /\
    (n = 0 /\ D = dels gs D0 /\ (gs = [] -> apply d c D0 = D0) \/
     0 < n /\ D = apply d (default c r) (dels gs D0)).

Lemma still c s' gs : fresh s0 s' gs 0 -> (gs = [] -> apply d c D0 = D0) -> applied c None s'.
Proof. intros A H. exists gs, 0, (dels gs D0). split_and!; [done..|]. by left. Qed.
Lemma changed c s' gs D n : outcome s0 s' gs D n -> 0 < n -> D = apply d c (dels gs D0) -> applied c None s'.
Proof. intros A H ->. eexists gs, n, _. split; [exact A|]. split_and!; [done..|]. by right. Qed.

Lemma counted c s' gs n D : outcome s0 s' gs D n -> 0 <= n -> D = apply d c (dels gs D0) -> (n = 0 -> D = dels gs D0) -> applied c None s'.
Proof.
  intros A Hn HD Hz. destruct (Z.eq_dec n 0) as [->|Hne]; [|apply (changed c s' gs D n A); [lia|done]].
  apply (still c s' gs); [unfold fresh; by rewrite <- Hz|]. intros ->. change D0 with (dels [] D0) at 1. by rewrite <- HD, Hz.
Qed.

(** Commands that change one key at most. *)
Lemma still_update c s' gs k f : (forall D, apply d c D = update d k f D) -> fresh s0 s' gs 0 ->
  f (val (dels gs D0) d k) = None -> applied c None s'.
Proof. intros Hc A H. apply (still c s' gs A). intros ->. rewrite Hc. unfold update. cbn in H. by rewrite H. Qed.
Lemma changed_update c s' gs k f v : (forall D, apply d c D = update d k f D) -> outcome s0 s' gs (put d k v (dels gs D0)) 1 ->
  f (val (dels gs D0) d k) = Some v -> applied c None s'.
Proof. intros Hc A H. apply (changed c s' gs _ 1 A); [lia|]. rewrite Hc. unfold update. by rewrite H. Qed.

Ltac unbind := repeat lazymatch goal with |- ends (_ ≫= _) _ _ => apply ends_bind end.
Ltac use L := unfold reply_, done_, addReply, signalModifiedKey, notifyKeyspaceEvent; unbind; eapply ends_mono; [eapply L; eassumption|]; cbn beta.
Ltac quiet := repeat (unfold reply_, done_, addReply, signalModifiedKey, notifyKeyspaceEvent; unbind;
  first [use acc_emit; intros _ ? ?|use acc_dirty; intros _ ? ?|use acc_count; intros _ ? ?|use acc_now; intros ? ? ?|apply ends_ret; cbn beta]).
Ltac start := pose proof (fresh_start s0 W0) as A0.

Lemma get_applied k : ends (getCommand d k) s0 (applied (GET k)).
Proof.
  start. unfold getCommand, getGenericCommand. use fresh_readOrReply. intros v s1 (gs & _ & _ & A1).
  destruct v as [[e|t x]|]; quiet; by apply (still _ _ gs).
Qed.

Lemma strlen_applied k : ends (strlenCommand d k) s0 (applied (STRLEN k)).
Proof.
  start. unfold strlenCommand. use fresh_readOrReply. intros v s1 (gs & _ & _ & A1).
  destruct v as [[e|t x]|]; quiet; by apply (still _ _ gs).
Qed.

(** *** Commands that read *)
Lemma getrange_applied k a b : ends (getrangeCommand d k a b) s0 (applied (GETRANGE k a b)).
Proof.
  start. unfold getrangeCommand, getLongLongFromObjectOrReply.
  destruct (getLongLongFromObject (Raw a)); [|quiet; by apply (still _ _ [])].
  destruct (getLongLongFromObject (Raw b)); [|quiet; by apply (still _ _ [])].
  use fresh_readOrReply. intros v s1 (gs & _ & _ & A1). destruct v as [[e|t x]|]; [case_match|..]; quiet; by apply (still _ _ gs).
Qed.

Lemma mget_loop_applied ks s gs : fresh s0 s gs 0 -> ends (mget_loop d ks) s (fun r s' => r = None /\ exists gs, fresh s0 s' gs 0).
Proof.
  revert s gs. induction ks as [|k ks IH]; intros s gs A; cbn [mget_loop]; [apply ends_ret; eauto|].
  use fresh_read. intros v s1 (gs1 & _ & _ & A1). use acc_emit. intros _ s2 A2. by apply (IH s2 (gs ++ gs1)).
Qed.
Lemma mget_applied ks : ends (mgetCommand d ks) s0 (applied (MGET ks)).
Proof.
  start. unfold mgetCommand. use acc_emit. intros _ s1 A1. eapply ends_mono; [by apply (mget_loop_applied ks s1 [])|].
  cbn. intros r s' [-> (gs & A)]. by apply (still _ _ gs).
Qed.

Lemma exists_applied k : ends (existsCommand d k) s0 (applied (EXISTS k)).
Proof.
  start. unfold existsCommand, dbExists. use fresh_expire. intros _ s1 (gs & _ & A1). use acc_find. intros v s2 [_ A2].
  quiet; by apply (still _ _ gs).
Qed.
Lemma type_applied k : ends (typeCommand d k) s0 (applied (TYPE k)).
Proof. start. unfold typeCommand. use fresh_read. intros v s1 (gs & _ & _ & A1). quiet. by apply (still _ _ gs). Qed.
Lemma ttl_applied c k ms : (forall D, apply d c D = D) -> ends (ttlGenericCommand d k ms) s0 (applied c).
Proof.
  intros Hc. start. unfold ttlGenericCommand. use fresh_read. intros v s1 (gs & _ & _ & A1).
  destruct (found v); cbn [negb]; [|quiet; by apply (still _ _ gs)]. use acc_getExpire. intros w s2 [_ A2].
  unbind. case_match; quiet; by apply (still _ _ gs).
Qed.

Lemma acc_get_db s gs D n : outcome s0 s gs D n -> ends (get_db d) s (fun b s' => s' = s /\ D !! d = Some (dict b)).
Proof.
  intros A. destruct (acc_db s0 d Hd _ _ _ _ A) as (b & Hb & _). exists b, s. split.
  - unfold get_db, get, lift, mbind, M_bind, mret, M_ret. cbn. by rewrite Hb.
  - split; [done|]. rewrite <- (oc_dicts _ _ _ _ _ A). by apply dicts_lookup.
Qed.
Lemma dbsize_applied : ends (dbsizeCommand d) s0 (applied DBSIZE).
Proof. start. unfold dbsizeCommand. use acc_get_db. intros b s1 [-> _]. quiet. by apply (still _ _ []). Qed.

Lemma persist_applied k : ends (persistCommand d k) s0 (applied (PERSIST k)).
Proof.
  start. unfold persistCommand. use acc_find. intros v s1 [Hv A1]. destruct v as [v|]; cbn [found negb]; [|quiet; by apply (still _ _ [])].
  unbind. eapply ends_mono; [eapply acc_removeExpire; [exact Hd|exact A1|]; by rewrite <- Hv|]. cbn beta. intros b s2 A2.
  destruct b; quiet; [by eapply changed; [eassumption|lia|]|by apply (still _ _ [])].
Qed.

(** *** Commands that change strings *)
Lemma looked_up (b : bool) (f : bool -> bool) s gs k : fresh s0 s gs 0 ->
  ends (if b then o ← lookupKeyWrite d k; mret (f (found o)) else mret false) s (fun r s' =>
    exists gs', Forall (eq (d, k)) gs' /\ (b = false -> gs' = []) /\ r = b && f (found (val (dels (gs ++ gs') D0) d k)) /\ fresh s0 s' (gs ++ gs') 0).
Proof.
  intros A. destruct b; [|apply ends_ret; exists []; by rewrite app_nil_r].
  use fresh_write. intros o s1 (gs' & Hg & -> & A1). apply ends_ret. by exists gs'.
Qed.

(** What is true of a key that was looked up stays true, or the key is gone. *)
Lemma set_value_again nx xx v e gs gs' k : Forall (eq (d, k)) gs' -> (xx = true -> gs' = []) ->
  set_value nx xx v e (val (dels gs D0) d k) = Some v -> set_value nx xx v e (val (dels (gs ++ gs') D0) d k) = Some v.
Proof.
  intros Hg Hxx. destruct xx; [by rewrite (Hxx eq_refl), app_nil_r|].
  destruct (val_again d gs gs' D0 k Hg) as [-> | ->]; [done|]. unfold set_value. cbn. by destruct (valid_expire e), nx.
Qed.

Lemma set_store_applied c k nx xx v e ms r1 r2 : (forall D, apply d c D = update d k (set_value nx xx v e) D) ->
  (xx = true -> masterhost cf = true) -> valid_expire e = true -> ends (set_store d nx xx k v e ms r1 r2) s0 (applied c).
Proof.
  intros Hc Hxx He. start. unfold set_store. unbind. eapply ends_mono; [by apply (looked_up nx id)|]. cbn beta.
  intros there s1 (gs1 & _ & _ & Hthere & A1). unbind. eapply ends_mono; [by apply (looked_up (negb there && xx) negb)|]. cbn beta.
  intros missing s2 (gs2 & Hg2 & Hgs2 & Hmissing & A2). cbn [app] in *.
  assert (xx = true -> gs1 ++ gs2 = []) as Hgs by (intros H; by apply (oc_slave _ _ _ _ _ A2), Hxx).
  destruct (there || missing) eqn:Habort.
  - quiet. eapply still_update; [done|eassumption|]. unfold set_value. rewrite He. destruct there; cbn in *.
    + rewrite (Hgs2 eq_refl), app_nil_r, <- Hthere. done.
    + subst missing. by rewrite Habort, andb_false_r.
  - apply orb_false_iff in Habort as [-> ->]. cbn [negb andb] in Hmissing.
    assert (set_value nx xx v e (val (dels (gs1 ++ gs2) D0) d k) = Some v) as Hv.
    { apply set_value_again; [done|by intros [_ H]%Hgs%app_eq_nil|]. unfold set_value, id in *. rewrite He, <- Hthere. cbn [negb andb].
      destruct xx; [|done]. destruct (app_eq_nil _ _ (Hgs eq_refl)) as [-> ->]. cbn in *. by rewrite <- Hmissing. }
    use fresh_setKey. intros _ s3 (gs3 & Hg3 & A3). use acc_dirty. intros _ s4 A4.
    assert (ends (match e with Some _ => t ← now; setExpire d k (int64 (t + ms)) | None => mret tt end) s4
      (fun _ s' => outcome s0 s' ((gs1 ++ gs2) ++ gs3) (put d k v (dels ((gs1 ++ gs2) ++ gs3) D0)) (0 + 1))) as Hexpire.
    { destruct e; [|by apply ends_ret]. use acc_now. intros t s5 A5. eapply acc_setExpire; [exact Hd|exact A5|].
      rewrite val_put; [by rewrite decide_True|]. rewrite length_dels. unfold Keys.D0, dicts. by rewrite length_map. }
    unbind. eapply ends_mono; [exact Hexpire|]. cbn beta. intros _ s5 A5. destruct e; quiet; rename select (outcome s0 s5 _ _ _) into A;
      (eapply changed_update; [done|eassumption|]; apply set_value_again; [done|intros Hx; by apply (app_eq_nil (gs1 ++ gs2)), (oc_slave _ _ _ _ _ A), Hxx|done]).
Qed.
Lemma set_applied c name k nx xx v e r1 r2 : (forall D, apply d c D = update d k (set_value nx xx v e) D) -> (xx = true -> masterhost cf = true) ->
  ends (setGenericCommand d name nx xx k v e r1 r2) s0 (applied c).
Proof.
  intros Hc Hxx. unfold setGenericCommand, getLongLongFromObjectOrReply.
  destruct e as [[arg u]|] eqn:He; [|by apply set_store_applied].
  start.
  assert (forall s', valid_expire (Some (arg, u)) = false -> fresh s0 s' [] 0 -> applied c None s') as Hno.
  { intros s' Hv A. eapply still_update; [done|exact A|]. unfold set_value. by rewrite Hv. }
  destruct (getLongLongFromObject (Raw arg)) as [n|] eqn:Hn.
  - destruct (n <=? 0) eqn:Hle; [quiet; apply Hno; [|done]|apply set_store_applied; [done..|]]; unfold valid_expire; rewrite Hn; lia.
  - quiet. apply Hno; [|done]. unfold valid_expire. by rewrite Hn.
Qed.

Definition uses_xx (c : command) : bool :=
  match c with
  | SET _ _ options => match set_options options false false None with Some (_, xx, _) => xx | None => false end
  | _ => false
  end.

Lemma setCommand_applied k v options : (uses_xx (SET k v options) = true -> masterhost cf = true) ->
  ends (setCommand d k v options) s0 (applied (SET k v options)).
Proof.
  unfold uses_xx, setCommand. intros Hxx. destruct (set_options options false false None) as [[[nx xx] e]|] eqn:He.
  - apply set_applied; [|done]. intros D. cbn [apply]. by rewrite He.
  - start. quiet. apply (still _ _ []); [done|]. cbn [apply]. by rewrite He.
Qed.

Lemma getset_applied k v : ends (getsetCommand d k v) s0 (applied (GETSET k v)).
Proof.
  start. unfold getsetCommand, getGenericCommand. use fresh_readOrReply. intros o s1 (gs & _ & Ho & A1). cbn [app] in *.
  assert (forall s2, fresh s0 s2 gs 0 -> (forall t x, o <> Some (Agg t x)) ->
    ends (_ ← setKey d k (encode v); _ ← notifyKeyspaceEvent "set" k d; _ ← add_dirty 1; done_) s2 (applied (GETSET k v))) as Hset.
  { intros s2 A2 Hs. use fresh_setKey. intros _ s3 (gs' & Hg & A3). quiet. eapply changed_update; [done|eassumption|].
    destruct (val_again d gs gs' D0 k Hg) as [-> | ->]; [|done]. rewrite <- Ho. destruct o as [[e|t x]|]; [done| |done]. by destruct (Hs t x). }
  destruct o as [[e|t x]|]; cbn [negb].
  - use acc_emit. intros _ s2 A2. apply ends_ret. by apply Hset.
  - use acc_emit. intros _ s2 A2. apply ends_ret. quiet. eapply still_update; [done|eassumption|]. by rewrite <- Ho.
  - apply ends_ret. by apply Hset.
Qed.

Lemma put_put k v w D : put d k v (put d k w D) = put d k v D.
Proof. unfold put. rewrite alter_alter. apply list_alter_ext; [|done]. intros m _. apply insert_insert_eq. Qed.

(** A string becomes one that can be changed, and is changed. *)
Lemma acc_unshare s gs D n k e : outcome s0 s gs D n -> val D d k = Some (Str e) ->
  ends (dbUnshareStringValue d k e) s (fun l s' => l = text e /\ exists D', outcome s0 s' gs D' n /\ forall v, put d k v D' = put d k v D).
Proof.
  intros A Hv. destruct e as [l|i]; cbn; [apply ends_ret; eauto|]. unbind. eapply ends_mono.
  { eapply acc_overwrite; [exact Hd|exact A|by rewrite Hv]. }
  cbn beta. intros _ s1 A1. apply ends_ret. split; [done|]. eexists. split; [exact A1|]. intros v. apply put_put.
Qed.

Lemma append_applied k v : ends (appendCommand d k v) s0 (applied (APPEND k v)).
Proof.
  start. unfold appendCommand. use fresh_write. intros o s1 (gs & _ & Ho%eq_sym & A1). cbn [app] in *. destruct o as [[e|t x]|].
  - case_match eqn:Hl.
    + quiet. eapply still_update; [done|eassumption|]. rewrite Ho. cbn. by rewrite Hl.
    + unbind. eapply ends_mono; [by eapply acc_unshare|]. cbn beta. intros l s2 (-> & D' & A2 & HD'). unfold set_text. use acc_store.
      intros _ s3 A3. rewrite HD' in A3. quiet. eapply changed_update; [done|eassumption|]. rewrite Ho. cbn. by rewrite Hl.
  - quiet. eapply still_update; [done|eassumption|]. by rewrite Ho.
  - use acc_add. intros _ s2 A2. quiet. eapply changed_update; [done|eassumption|]. by rewrite Ho.
Qed.

(** SETRANGE does not ask for a string whose length overflows. *)
Definition in_range (c : command) : Prop :=
  match c with
  | SETRANGE _ arg v => match long_argument arg with Some offset => offset + zlen v < 2 ^ 63 | None => True end
  | _ => True
  end.

Lemma size_fits x : 0 <= x < 2 ^ 63 -> int64 x = x /\ uint64 x = x.
Proof. intros H. split; [apply swrap_small|apply wrap_small]; unfold in_s, in_u; change (2 ^ (64 - 1)) with (2 ^ 63); change (2 ^ 64) with (2 * 2 ^ 63); lia. Qed.

Lemma setrange_write_applied k arg v n s gs D l o : long_argument arg = Some n -> 0 <= n -> n + zlen v < 2 ^ 63 ->
  outcome s0 s gs D 0 -> (forall w, put d k w D = put d k w (dels gs D0)) -> val (dels gs D0) d k = o -> old_text o = Some l ->
  (zlen v =? 0) = false -> too_long (int64 (n + zlen v)) = false -> ends (setrange_write d k n v l) s (applied (SETRANGE k arg v)).
Proof.
  intros Ha Hn Hf A HD Ho Hl Hv Hs. destruct (size_fits (n + zlen v)) as [Hint Huint]; [lia|].
  unfold setrange_write, set_text. rewrite Huint, <- Hint, Hs. cbn [negb assert_]. unbind. apply ends_ret.
  use acc_store. intros _ s2 A2. rewrite HD in A2. quiet. eapply changed_update; [done|eassumption|].
  unfold setrange_value. rewrite Ho, Ha, Hl, Hv, Hs. cbn [orb]. by rewrite orb_false_r, (proj2 (Z.ltb_ge _ _) Hn).
Qed.

Lemma ends_long arg f s P : (forall n, long_argument arg = Some n -> ends (f n) s P) ->
  (long_argument arg = None -> forall e, ends (reply_ (Err e)) s P) -> ends (getLongFromObjectOrReply arg f) s P.
Proof.
  unfold getLongFromObjectOrReply, getLongLongFromObjectOrReply, long_argument. intros Hs Hn.
  destruct (getLongLongFromObject (Raw arg)) as [n|]; [|by apply Hn]. case_match; [by apply Hn|by apply Hs].
Qed.

Lemma setrange_applied k arg v : in_range (SETRANGE k arg v) -> ends (setrangeCommand d k arg v) s0 (applied (SETRANGE k arg v)).
Proof.
  unfold in_range. intros Hr. start. unfold setrangeCommand.
  assert (forall s' gs o, fresh s0 s' gs 0 -> o = val (dels gs D0) d k -> setrange_value arg v o = None -> applied (SETRANGE k arg v) None s') as Hno.
  { intros s' gs o A -> Hv. by eapply still_update. }
  unfold setrange_value in Hno. apply ends_long; [intros n Ha|intros Ha e]; rewrite Ha in *; [|quiet; by eapply (Hno _ [])].
  destruct (n <? 0) eqn:Hn; cbn [orb] in Hno; [quiet; eapply (Hno _ []); [eassumption|done|by case_match]|].
  use fresh_write. intros o s1 (gs & _ & Ho & A1). cbn [app] in *.
  destruct o as [[e|t x]|]; cbn [old_text] in Hno; [|quiet; by eapply Hno|].
  all: destruct (zlen v =? 0) eqn:Hv; cbn [orb] in Hno; [quiet; by eapply Hno|].
  all: destruct (too_long _) eqn:Hs; [quiet; by eapply Hno|]; clear Hno; symmetry in Ho.
  - unbind. eapply ends_mono; [by eapply acc_unshare|]. cbn beta. intros l s2 (-> & D' & A2 & HD').
    eapply setrange_write_applied; [done|lia|done|exact A2|done|exact Ho|done..].
  - use acc_add. intros _ s2 A2. eapply setrange_write_applied; [done|lia|done|exact A2| |exact Ho|done..].
    intros w. apply put_put.
Qed.

Lemma incr_applied c k incr : (forall D, apply d c D = update d k (incr_value incr) D) -> ends (incrDecrCommand d k incr) s0 (applied c).
Proof.
  intros Hc. start. unfold incrDecrCommand. use fresh_write. intros o s1 (gs & _ & -> & A1). cbn [app] in *.
  assert (forall s', fresh s0 s' gs 0 -> incr_value incr (val (dels gs D0) d k) = None -> applied c None s') as Hno by (intros s'; by apply still_update).
  unfold incr_value in Hno. destruct (val (dels gs D0) d k) as [[e|t x]|] eqn:Ho; [|quiet; by apply Hno|].
  - destruct (getLongLongFromObject e) as [old|] eqn:He; [|quiet; by apply Hno].
    destruct (would_overflow incr old) eqn:Hw; [quiet; by apply Hno|]. cbn zeta. unbind.
    eapply ends_mono; [eapply acc_overwrite; [exact Hd|exact A1|by rewrite Ho]|]. cbn beta. intros _ s2 A2.
    quiet. eapply changed_update; [done|eassumption|]. rewrite Ho. unfold incr_value. by rewrite He, Hw.
  - destruct (would_overflow incr 0) eqn:Hw; [quiet; by apply Hno|]. cbn zeta. unbind.
    eapply ends_mono; [by eapply acc_add|]. cbn beta. intros _ s2 A2.
    quiet. eapply changed_update; [done|eassumption|]. rewrite Ho. unfold incr_value. by rewrite Hw.
Qed.
Lemma incr_argument_applied c k f arg : (forall D, apply d c D = update d k (incr_argument f arg) D) ->
  ends (getLongLongFromObjectOrReply arg (fun n => incrDecrCommand d k (f n))) s0 (applied c).
Proof.
  intros Hc. start. unfold getLongLongFromObjectOrReply, incr_argument in *. destruct (getLongLongFromObject (Raw arg)); [by apply incr_applied|].
  quiet. by eapply still_update.
Qed.

(** *** MSET *)
Lemma pairs_length args kvs : pairs args = Some kvs -> zlen args = 2 * zlen kvs.
Proof.
  revert args. induction kvs as [|kv kvs IH]; intros [|k [|v args]] E; try done; cbn in E; destruct (pairs args) as [kvs'|] eqn:Hp; try done.
  injection E as <- ->. specialize (IH args Hp). cbn [length]. lia.
Qed.

(** What is stored last does not depend on what was there. *)
Lemma put_all_absorb kvs D1 D2 : length D1 = length D2 -> (d < length D1)%nat ->
  (forall d2 k2, (d2, k2) ∉ map (fun kv => (d, kv.1)) kvs -> val D1 d2 k2 = val D2 d2 k2) -> put_all d kvs D1 = put_all d kvs D2.
Proof.
  revert D1 D2. induction kvs as [|[k v] kvs IH]; intros D1 D2 Hl H1 H.
  - apply dicts_ext; [done|]. intros d2 k2. apply H. cbn. by apply not_elem_of_nil.
  - change (put_all d kvs (put d k (encode v) D1) = put_all d kvs (put d k (encode v) D2)).
    apply IH; rewrite ?length_put; [done..|]. intros d2 k2 Hn. rewrite !val_put by congruence. case_decide as Hk; [done|].
    apply H. cbn. rewrite elem_of_cons. intros [E|E]; [by apply Hk|done].
Qed.

Lemma mset_loop_spec kvs s gs D n : outcome s0 s gs D n -> ends (mset_loop d kvs) s (fun _ s' => exists gs',
  Forall (fun g => g ∈ map (fun kv => (d, kv.1)) kvs) gs' /\ outcome s0 s' (gs ++ gs') (put_all d kvs (dels gs' D)) n).
Proof.
  revert s gs D. induction kvs as [|[k v] kvs IH]; intros s gs D A; cbn [mset_loop].
  { apply ends_ret. exists []. by rewrite app_nil_r. }
  use acc_setKey. intros _ s1 (gs1 & Hg1 & A1). use acc_emit. intros _ s2 A2. eapply ends_mono; [by apply IH|]. cbn beta.
  intros _ s3 (gs2 & Hg2 & A3). exists (gs1 ++ gs2). assert (length D = length (dbs s0)) as HD.
  { rewrite <- (oc_dicts _ _ _ _ _ A). unfold dicts. rewrite length_map. apply A. }
  split.
  - apply Forall_app. rewrite !Forall_forall in *. split; intros g Hg; cbn; rewrite elem_of_cons; [left; by rewrite (Hg1 g Hg)|right; auto].
  - rewrite app_assoc. replace (put_all d ((k, v) :: kvs) (dels (gs1 ++ gs2) D)) with (put_all d kvs (dels gs2 (put d k (encode v) (dels gs1 D)))); [done|].
    change (put_all d ((k, v) :: kvs) (dels (gs1 ++ gs2) D)) with (put_all d kvs (put d k (encode v) (dels (gs1 ++ gs2) D))). rewrite dels_app.
    apply put_all_absorb; rewrite ?length_dels, ?length_put, ?length_dels; [done|lia|]. intros d2 k2 Hn.
    rewrite val_dels, !val_put, (val_dels gs2) by (rewrite ?length_dels; lia).
    assert ((d2, k2) ∉ gs2) as Hin by (intros Hin; rewrite Forall_forall in Hg2; by apply Hn, Hg2). by repeat case_decide.
Qed.

Lemma busykeys_spec ks s gs b : fresh s0 s gs 0 -> ends (busykeys_loop d ks b) s (fun b' s' => exists gs', fresh s0 s' (gs ++ gs') 0 /\
  b <= b' /\ (b' = b -> Forall (fun k => val (dels (gs ++ gs') D0) d k = None) ks) /\
  (gs ++ gs' = [] -> b <> b' -> existsb (fun k => found (val D0 d k)) ks = true)).
Proof.
  revert s gs b. induction ks as [|k ks IH]; intros s gs b A; cbn [busykeys_loop].
  { apply ends_ret. exists []. rewrite app_nil_r. split_and!; [done|lia|constructor|done]. }
  use fresh_write. intros o s1 (gs1 & Hg1 & -> & A1). set (o := val _ d k). set (b1 := if found o then b + 1 else b).
  eapply ends_mono; [exact (IH s1 (gs ++ gs1) b1 A1)|]. cbn beta. intros b' s2 (gs2 & A2 & Hle & Hnone & Hsome). exists (gs1 ++ gs2). rewrite app_assoc.
  split; [done|]. assert (b <= b1 /\ (b1 = b -> o = None)) as [Hb1 Ho] by (unfold b1; destruct o; cbn; split; lia || done).
  split; [lia|]. split.
  - intros E. constructor; [|apply Hnone; lia]. rewrite dels_app, val_dels. case_decide; [done|]. apply Ho. lia.
  - intros Hnil Hne. cbn. apply orb_true_iff. apply app_eq_nil in Hnil as [Hnil1 Hnil2].
    destruct (found o) eqn:Hf; [left; unfold o in Hf; by rewrite Hnil1 in Hf|right]. apply Hsome; [by rewrite Hnil1, Hnil2|]. unfold b1. lia.
Qed.

Lemma put_all_one args kvs : pairs args = Some kvs -> kvs = [] \/ 0 < zlen args / 2.
Proof.
  intros H%pairs_length. destruct kvs; [by left|right]. rewrite H, Z.mul_comm, Z.div_mul by lia. cbn [length]. lia.
Qed.

Lemma none_found ks gs gs' : Forall (fun k => val (dels gs D0) d k = None) ks ->
  existsb (fun k => found (val (dels (gs ++ gs') D0) d k)) ks = false.
Proof. induction 1 as [|k ks Hk _ IH]; [done|]. cbn. rewrite IH, dels_app, val_dels. case_decide; [done|]. by rewrite Hk. Qed.

Lemma mset_applied c args nx : (forall D, apply d c D = apply_mset d args nx D) -> ends (msetGenericCommand d args nx) s0 (applied c).
Proof.
  intros Hc. start. unfold msetGenericCommand. unfold apply_mset in Hc. destruct (pairs args) as [kvs|] eqn:Hp; [|quiet; by apply (still _ _ [])].
  assert (ends (if nx then busykeys_loop d (map fst kvs) 0 else mret 0) s0 (fun b s' => exists gs, fresh s0 s' gs 0 /\
    (b = 0 -> nx = true -> Forall (fun k => val (dels gs D0) d k = None) (map fst kvs)) /\
    (gs = [] -> 0 <> b -> nx && existsb (fun k => found (val D0 d k)) (map fst kvs) = true))) as Hbusy.
  { destruct nx; [|apply ends_ret; by exists []]. eapply ends_mono; [by apply busykeys_spec|]. cbn. intros b s' (gs & A & H1 & H2 & H3). eauto. }
  assert (forall D, existsb (fun kv => found (val D d kv.1)) kvs = existsb (fun k => found (val D d k)) (map fst kvs)) as Hmap.
  { intros D. clear -D. induction kvs; [done|]. cbn. by f_equal. }
  unbind. eapply ends_mono; [exact Hbusy|]. cbn beta. intros b s1 (gs1 & A1 & H0 & H1). destruct (b =? 0) eqn:Hb; cbn [negb].
  2: { quiet. eapply (still _ _ gs1); [eassumption|]. intros Hg. rewrite Hc, Hmap, H1; [done..|lia]. }
  unbind. eapply ends_mono; [by apply mset_loop_spec|]. cbn beta. intros _ s2 (gs2 & Hg2 & A2). rewrite <- dels_app in A2.
  assert (forall gs, nx && existsb (fun kv => found (val (dels (gs1 ++ gs) D0) d kv.1)) kvs = false) as Hnone.
  { intros gs. destruct nx; [|done]. rewrite Hmap. cbn [andb]. apply none_found. by apply H0; [lia|]. }
  quiet. match goal with A : outcome _ ?s _ _ _ |- applied _ _ ?s => rename A into A3 end.
  destruct (put_all_one _ _ Hp) as [-> |Hpos].
  - destruct gs2 as [|g gs2]; [|apply Forall_cons_1 in Hg2 as [Hg _]; by apply not_elem_of_nil in Hg]. assert (zlen args = 0) as Hz by (rewrite (pairs_length _ _ Hp); done). rewrite Hz in A3.
    eapply (still _ _ (gs1 ++ [])); [exact A3|]. intros _. rewrite Hc. by destruct nx.
  - eapply changed; [exact A3|lia|]. by rewrite Hc, Hnone.
Qed.

(** *** Commands on keys *)
Lemma del_absent k D : val D d k = None -> del d k D = D.
Proof. intros H. apply dicts_ext; [apply length_del|]. intros d2 k2. rewrite val_del. case_decide as E; [by injection E as <- <-|done]. Qed.
Lemma dels_del gs k D : dels gs (del d k D) = del d k (dels gs D).
Proof.
  apply dicts_ext; [by rewrite length_dels, !length_del, length_dels|]. intros d2 k2. rewrite val_dels, !val_del, val_dels. by repeat case_decide.
Qed.

Lemma del_loop_spec ks s gs D n m : outcome s0 s gs D n -> ends (del_loop d ks m) s (fun _ s' => exists gs' n',
  outcome s0 s' (gs ++ gs') (del_keys d ks (dels gs' D)) (n + n') /\ 0 <= n' /\ (n' = 0 -> del_keys d ks (dels gs' D) = dels gs' D)).
Proof.
  revert s gs D n m. induction ks as [|k ks IH]; intros s gs D n m A; cbn [del_loop].
  { apply ends_ret. exists [], 0. by rewrite app_nil_r, Z.add_0_r. }
  use acc_expire. intros _ s1 (gs1 & Hg1 & A1). use acc_delete. intros r s2 [-> A2].
  assert (forall gs2, del_keys d (k :: ks) (dels (gs1 ++ gs2) D) = del_keys d ks (dels gs2 (del d k (dels gs1 D)))) as E.
  { intros gs2. by rewrite dels_del, <- dels_app. }
  destruct (found (val (dels gs1 D) d k)) eqn:Hf.
  - use acc_emit. intros _ s3 A3. use acc_emit. intros _ s4 A4. use acc_dirty. intros _ s5 A5. eapply ends_mono; [by eapply IH|]. cbn beta.
    intros _ s6 (gs2 & n2 & A6 & Hle & _). exists (gs1 ++ gs2), (1 + n2). rewrite app_assoc, E, Z.add_assoc. split; [done|]. split; lia.
  - eapply ends_mono; [by eapply IH|]. cbn beta. intros _ s6 (gs2 & n2 & A6 & Hle & Hz). exists (gs1 ++ gs2), n2. rewrite app_assoc, E.
    split; [done|]. split; [done|]. intros Hn. rewrite (Hz Hn), del_absent, dels_app; [done|]. by destruct (val (dels gs1 D) d k).
Qed.
Lemma del_applied ks : ends (delCommand d ks) s0 (applied (DEL ks)).
Proof.
  start. unfold delCommand. unbind. eapply ends_mono; [by apply del_loop_spec|]. cbn beta. intros m s1 (gs & n & A & Hle & Hz). quiet.
  by eapply (counted _ _ gs n); [eassumption|..].
Qed.

Lemma flushdb_applied : ends (flushdbCommand d) s0 (applied FLUSHDB).
Proof.
  start. unfold flushdbCommand. use acc_get_db. intros b s1 [-> Hb]. use acc_dirty. intros _ s2 A2. use acc_emit. intros _ s3 A3. unbind.
  eapply ends_mono; [eapply (acc_upd s0 d Hd s3 _ _ _ _ (alter (fun _ => ∅) d (dels [] D0)) A3)|]; cbn beta; [done|].
  intros _ s4 A4. quiet. eapply counted; [eassumption|lia|done|]. intros Hz.
  assert (dict b = ∅) as He by (apply map_size_empty_inv; lia). rewrite <- He.
  etransitivity; [apply (alter_const id d _ _ Hb)|by apply list_alter_id].
Qed.

Lemma flushall_applied : ends flushallCommand s0 (applied FLUSHALL).
Proof.
  start. unfold flushallCommand, emptyDb. use acc_emit. intros _ s1 A1. unbind. eexists _, s1. split; [reflexivity|].
  set (n := foldr _ _ _). unbind. eexists _, _. split; [reflexivity|]. apply ends_ret. set (s2 := Server _ _ _ _ _ _ _ _).
  assert (outcome s0 s2 [] (map (fun _ => ∅) D0) 0) as A2.
  { destruct A1 as [W S Y N L H1 H2]. split; try done.
    - unfold wf, s2. cbn. apply Forall_forall. intros b (b' & -> & _)%list_elem_of_fmap. cbn. set_solver.
    - cbn. unfold s2, dicts in *. cbn. rewrite map_map. change (dels [] D0) with (map dict (dbs s0)) in Y. unfold Keys.D0, dicts. by rewrite <- Y, map_map.
    - unfold s2. cbn. by rewrite length_map. }
  assert (0 <= n) as Hn. { unfold n. clear. induction (dbs s1); cbn; lia. }
  quiet. eapply changed; [eassumption|lia|done].
Qed.

Lemma rename_applied c a b nx : (forall D, apply d c D = apply_rename d a b nx D) -> ends (renameGenericCommand d a b nx) s0 (applied c).
Proof.
  intros Hc. start. unfold renameGenericCommand. unfold apply_rename in Hc. case_bool_decide as Hab; [quiet; by apply (still _ _ [])|].
  use fresh_writeOrReply. intros o s1 (gs1 & Hg1 & Ho & A1). cbn [app] in *.
  destruct o as [o|]; [|quiet; eapply (still _ _ gs1); [eassumption|]; intros ->; change (dels [] D0) with D0 in Ho; by rewrite Hc, <- Ho].
  use acc_getExpire. intros expire s2 [_ A2]. use fresh_write. intros dst s3 (gs2 & Hg2 & Hdst & A3). set (gs := gs1 ++ gs2) in *.
  assert (val (dels gs D0) d a = Some o) as Ha.
  { rewrite Ho. apply (val_other d gs1 gs2 D0 b); [done|]. intros E. by injection E. }
  destruct (found dst && nx) eqn:Hnx.
  { quiet. eapply (still _ _ gs); [eassumption|]. intros Hgs. rewrite Hgs in *. cbn in Ha, Hdst. rewrite Hc, Ha, <- Hdst, andb_comm, Hnx. done. }
  assert (ends (if found dst then _ ← dbDelete d b; mret tt else mret tt) s3 (fun _ s' => outcome s0 s' gs (del d b (dels gs D0)) 0)) as Hdel.
  { destruct dst; cbn [found]; [use acc_delete; intros _ s4 [_ A4]; by apply ends_ret|]. apply ends_ret. by rewrite del_absent. }
  unbind. eapply ends_mono; [exact Hdel|]. cbn beta. intros _ s4 A4. unbind.
  eapply ends_mono; [eapply acc_add; [exact Hd|exact A4|]; rewrite val_del; by rewrite decide_True|]. cbn beta. intros _ s5 A5.
  assert (put d b o (del d b (dels gs D0)) = put d b o (dels gs D0)) as E.
  { unfold put, del. rewrite alter_alter. apply list_alter_ext; [|done]. intros m _. apply insert_delete_eq. }
  rewrite E in A5.
  assert (ends (if negb (expire =? -1) then setExpire d b expire else mret tt) s5 (fun _ s' => outcome s0 s' gs (put d b o (dels gs D0)) 0)) as Hex.
  { destruct (negb _); [|by apply ends_ret]. eapply acc_setExpire; [exact Hd|exact A5|]. rewrite val_put; [by rewrite decide_True|].
    rewrite length_dels. unfold Keys.D0, dicts. by rewrite length_map. }
  unbind. eapply ends_mono; [exact Hex|]. cbn beta. intros _ s6 A6. use acc_delete. intros _ s7 [_ A7]. quiet.
  eapply changed; [eassumption|lia|]. by rewrite Hc, Ha, <- Hdst, andb_comm, Hnx.
Qed.

Lemma move_target_lt n l dst : move_target n l = Some dst -> (dst < l)%nat.
Proof.
  unfold move_target, selectDb. intros H. repeat case_match; try discriminate H. injection H as <-.
  rename select ((_ || (Z.of_nat l <=? _)) = false) into E. apply orb_false_iff in E. lia.
Qed.

Lemma move_applied k n : ends (moveCommand d k n) s0 (applied (MOVE k n)).
Proof.
  start. unfold moveCommand. unbind. eexists _, s0. split; [reflexivity|].
  assert (forall D, length D = length (dbs s0) -> apply d (MOVE k n) D = match move_target n (length (dbs s0)) with Some dst => apply_move d k dst D | None => D end) as Hc.
  { intros D HD. cbn [apply]. by rewrite HD. }
  assert (forall gs, length (dels gs D0) = length (dbs s0)) as Hl by (intros gs; rewrite length_dels; unfold Keys.D0, dicts; by rewrite length_map).
  destruct (move_target n (length (dbs s0))) as [dst|] eqn:Ht; [|quiet; apply (still _ _ []); [done|]; intros _; by rewrite Hc by apply (Hl [])].
  pose proof (move_target_lt _ _ _ Ht) as Hdst. unfold apply_move in Hc.
  case_bool_decide as Hne; [quiet; apply (still _ _ []); [done|]; intros _; by rewrite Hc by apply (Hl [])|].
  use fresh_write. intros o s1 (gs1 & Hg1 & Ho & A1). cbn [app] in *.
  destruct o as [o|]; [|quiet; eapply (still _ _ gs1); [eassumption|]; intros ->; change (dels [] D0) with D0 in Ho; by rewrite Hc, <- Ho by apply (Hl [])].
  use fresh_write. intros there s2 (gs2 & Hg2 & Hthere & A2). set (gs := gs1 ++ gs2) in *.
  assert (val (dels gs D0) d k = Some o) as Ha.
  { rewrite Ho. apply (val_other dst gs1 gs2 D0 k); [done|]. intros E. by injection E. }
  destruct (found there) eqn:Hf.
  { quiet. eapply (still _ _ gs); [eassumption|]. intros Hgs. rewrite Hgs in *. cbn in Ha, Hthere. rewrite Hc by apply (Hl []). by rewrite Ha, <- Hthere, Hf. }
  assert (val (dels gs D0) dst k = None) as Hnone by (rewrite <- Hthere; by destruct there).
  use acc_add. intros _ s3 A3. use acc_delete. intros _ s4 [_ A4]. quiet. eapply changed; [eassumption|lia|].
  rewrite Hc by apply Hl. by rewrite Ha, Hnone.
Qed.

Lemma expire_applied c k n s basetime unit : (forall D, apply d c D = D) -> fresh s0 s [] 0 ->
  ends (expireGenericCommand d k n basetime unit) s (applied c).
Proof.
  intros Hc A. unfold expireGenericCommand, getLongLongFromObjectOrReply.
  destruct (getLongLongFromObject (Raw n)) as [when|]; [cbn zeta|quiet; by apply (still _ _ [])].
  use fresh_read. intros o s1 (gs & _ & Ho & A1). cbn [app] in *. destruct o as [o|]; cbn [found negb]; [|quiet; by apply (still _ _ gs)].
  use acc_now. intros t s2 A2. case_match eqn:Hdel.
  - use acc_delete. intros r s3 [-> A3]. rewrite <- Ho. cbn [found assert_]. unbind. apply ends_ret. quiet.
    eexists gs, _, _. split; [eassumption|]. split; [|split; [|right; split; [lia|done]]].
    2: { intros c' E. injection E as <-. by eexists. }
    intros Hm. rewrite Hm, andb_false_r in Hdel. discriminate.
  - unbind. eapply ends_mono; [eapply acc_setExpire; [exact Hd|exact A2|by rewrite <- Ho]|]. cbn beta. intros _ s3 A3. quiet.
    eapply changed; [eassumption|lia|by rewrite Hc].
Qed.

(** Every command. *)
Lemma proc_applied c : in_range c -> (uses_xx c = true -> masterhost cf = true) -> ends (proc d c) s0 (applied c).
Proof.
  intros Hr Hxx. start. destruct c; cbn [proc].
  - by apply setCommand_applied.
  - by apply set_applied.
  - by apply set_applied.
  - by apply set_applied.
  - apply get_applied.
  - apply getset_applied.
  - apply strlen_applied.
  - apply append_applied.
  - by apply setrange_applied.
  - apply getrange_applied.
  - apply mget_applied.
  - by apply mset_applied.
  - by apply mset_applied.
  - by apply incr_applied.
  - by apply incr_applied.
  - by apply (incr_argument_applied _ _ (fun n => n)).
  - by apply (incr_argument_applied _ _ (fun n => int64 (- n))).
  - apply del_applied.
  - apply exists_applied.
  - apply type_applied.
  - apply dbsize_applied.
  - apply flushdb_applied.
  - apply flushall_applied.
  - by apply rename_applied.
  - by apply rename_applied.
  - apply move_applied.
  - use acc_now. intros t s1 A1. by apply expire_applied.
  - by apply expire_applied.
  - use acc_now. intros t s1 A1. by apply expire_applied.
  - by apply expire_applied.
  - by apply ttl_applied.
  - by apply ttl_applied.
  - apply persist_applied.
Qed.
End Applied.

(** ** Masters and slaves *)
Definition entry_ok (s : server) (e : nat * command) : Prop := (e.1 < length (dbs s))%nat /\ in_range e.2.
Definition event_ok (s : server) (e : event) : Prop :=
  match e with
  | Command d c => (d < length (dbs s))%nat /\ in_range c /\ (uses_xx c = true -> masterhost cf = true)
  | Cycle d _ _ => (d < length (dbs s))%nat
  end.

(** From [s] to [s'] the stream grew by [out], and [out] accounts for every
    change of the keys. *)
Record follows (s s' : server) (out : list (nat * command)) : Prop := Follows {
  fl_wf : wf s';
  fl_length : length (dbs s') = length (dbs s);
  fl_stream : stream s' = stream s ++ out;
  fl_dicts : dicts s' = apply_all out (dicts s);
  fl_ok : Forall (entry_ok s) out }.

Lemma follows_trans s s1 s2 out1 out2 : follows s s1 out1 -> follows s1 s2 out2 -> follows s s2 (out1 ++ out2).
Proof.
  intros [W1 L1 S1 D1 O1] [W2 L2 S2 D2 O2]. split; [done|congruence|..].
  - by rewrite S2, S1, app_assoc.
  - unfold apply_all in *. by rewrite foldl_app, <- D1.
  - apply Forall_app. split; [done|]. unfold entry_ok in *. by rewrite <- L1.
Qed.

Lemma outcome_follows s s' gs n : outcome s s' gs (dels gs (dicts s)) n -> follows s s' (map (fun g => (g.1, DEL [g.2])) gs).
Proof.
  intros [W S Y N L H1 _]. split; try done.
  - rewrite Y. unfold apply_all, dels. clear. generalize (dicts s). induction gs as [|[d k] gs IH]; intros D; [done|apply IH].
  - apply Forall_map. eapply Forall_impl; [exact H1|]. done.
Qed.

Lemma follows_refl s : wf s -> follows s s [].
Proof. intros W. exact (outcome_follows s s [] 0 (outcome_refl s W)). Qed.

Lemma propagate_follows s s1 gs n d c : outcome s s1 gs (apply d c (dels gs (dicts s))) n -> (d < length (dbs s))%nat -> in_range c ->
  ends (propagate d c) s1 (fun _ s' => follows s s' (map (fun g => (g.1, DEL [g.2])) gs ++ [(d, c)]) /\ dicts s' = dicts s1).
Proof.
  intros [W S Y N L H1 _] Hd Hr. eexists _, _. split; [reflexivity|]. split; [|done]. split; cbn; try done.
  - by rewrite S, app_assoc.
  - change (dicts s1 = apply_all (map (fun g => (g.1, DEL [g.2])) gs ++ [(d, c)]) (dicts s)). rewrite Y. unfold apply_all. rewrite foldl_app. cbn. f_equal.
    clear. generalize (dicts s). induction gs as [|[d' k] gs IH]; intros D; [done|apply IH].
  - apply Forall_app. split; [apply Forall_map; eapply Forall_impl; [exact H1|done]|]. by constructor.
Qed.

Lemma call_follows s d c : wf s -> event_ok s (Command d c) ->
  ends (call d c) s (fun _ s' => exists out, follows s s' out /\ (masterhost cf = true -> dicts s' = apply d c (dicts s))).
Proof.
  intros W (Hd & Hr & Hxx). unfold call. apply ends_bind. eexists _, s. split; [reflexivity|]. apply ends_bind.
  eapply ends_mono; [by apply (proc_applied s W d Hd c)|]. cbn beta. intros r s1 (gs & n & D & A & Hslave & Hdel & Hcase).
  apply ends_bind. eexists _, s1. split; [reflexivity|]. pose proof (oc_dirty _ _ _ _ _ A) as Hn. pose proof (oc_dicts _ _ _ _ _ A) as HD.
  destruct Hcase as [(-> & -> & Hsame)|(Hpos & ->)].
  - replace (0 <? dirty s1 - dirty s) with false by (symmetry; lia). apply ends_ret.
    eexists. split; [by eapply outcome_follows|]. intros Hm. rewrite (oc_slave _ _ _ _ _ A Hm) in *. rewrite HD. symmetry. by apply Hsame.
  - replace (0 <? dirty s1 - dirty s) with true by (symmetry; lia).
    eapply ends_mono; [apply (propagate_follows s s1 gs n); [exact A|done|]|].
    { destruct r as [c'|]; [|done]. destruct (Hdel c' eq_refl) as [ks ->]. done. }
    cbn beta. intros _ s2 [F E]. eexists. split; [exact F|]. intros Hm. rewrite E, HD, (Hslave Hm), (oc_slave _ _ _ _ _ A Hm). done.
Qed.

Lemma cycle_follows s d k t : wf s -> (d < length (dbs s))%nat -> masterhost cf = false ->
  ends (activeExpireCycleTryExpire d k t) s (fun _ s' => exists out, follows s s' out).
Proof.
  intros W Hd Hm. pose proof (outcome_refl s W) as A0. unfold activeExpireCycleTryExpire.
  pose proof (follows_refl s W) as Hno.
  apply ends_bind. eapply ends_mono; [by eapply acc_get_db|]. cbn beta. intros b s1 [-> _].
  destruct (expires b !! k) as [w|]; [|apply ends_ret; by eexists]. destruct (w <? t); [|apply ends_ret; by eexists].
  apply ends_bind. eapply ends_mono; [by eapply acc_propagate|]. cbn beta. intros _ s2 A2.
  apply ends_bind. eapply ends_mono; [by eapply acc_delete|]. cbn beta. intros _ s3 [_ A3].
  apply ends_bind. eapply ends_mono; [by eapply acc_emit|]. cbn beta. intros _ s4 A4.
  apply ends_bind. eapply ends_mono; [by eapply acc_expired|]. cbn beta. intros _ s5 A5. apply ends_ret. eexists.
  exact (outcome_follows s s5 [(d, k)] 0 A5).
Qed.

Lemma event_ok_length s s' e : length (dbs s') = length (dbs s) -> event_ok s e -> event_ok s' e.
Proof. intros H. destruct e; cbn; by rewrite H. Qed.

Lemma event_follows s e : wf s -> event_ok s e -> ends (run_event e) s (fun _ s' => exists out, follows s s' out).
Proof.
  intros W He. destruct e as [d c|d k t]; cbn [run_event].
  - eapply ends_mono; [by apply call_follows|]. cbn beta. intros _ s' (out & F & _). by exists out.
  - destruct (masterhost cf) eqn:Hm; [apply ends_ret; exists []; by apply follows_refl|].
    apply ends_bind. eapply ends_mono; [by apply cycle_follows|]. cbn beta. intros _ s' F. by apply ends_ret.
Qed.

Lemma run_follows s es : wf s -> Forall (event_ok s) es -> ends (run es) s (fun _ s' => exists out, follows s s' out).
Proof.
  revert s. induction es as [|e es IH]; intros s W H; cbn [run].
  { apply ends_ret. exists []. by apply follows_refl. }
  apply Forall_cons_1 in H as [He H]. apply ends_bind. eapply ends_mono; [by apply event_follows|]. cbn beta. intros _ s1 (out1 & F1).
  eapply ends_mono; [apply IH; [apply F1|]|].
  { eapply Forall_impl; [exact H|]. intros e'. apply event_ok_length, F1. }
  cbn beta. intros _ s2 (out2 & F2). eexists. by eapply follows_trans.
Qed.

(** A slave that is fed a stream does what it says. *)
Lemma slave_run s out : wf s -> masterhost cf = true -> Forall (entry_ok s) out ->
  ends (run (map (fun e => Command e.1 e.2) out)) s (fun _ s' => wf s' /\ dicts s' = apply_all out (dicts s)).
Proof.
  intros W Hm. revert s W. induction out as [|[d c] out IH]; intros s W H; cbn [map run]; [by apply ends_ret|].
  apply Forall_cons_1 in H as [[Hd Hr] H]. apply ends_bind. eapply ends_mono; [by apply call_follows|]. cbn beta.
  intros _ s1 (out1 & F & E). eapply ends_mono; [apply IH; [apply F|]|].
  { eapply Forall_impl; [exact H|]. intros e [He1 He2]. split; [|done]. by rewrite (fl_length _ _ _ F). }
  cbn beta. intros _ s2 [W2 E2]. split; [done|]. rewrite E2, (E Hm). done.
Qed.

(** ** What a lookup sees of expired keys *)
Definition time_of (s : server) : Z := match lua_time_start cf with Some t => t | None => mstime (ticks s) end.
Definition expired (s : server) (b : redisDb) (k : key) : bool :=
  match expires b !! k with Some w => (0 <=? w) && (w <? time_of s) | None => false end.
Definition without (k : key) (b : redisDb) : redisDb := Db (delete k (dict b)) (delete k (expires b)).

(** [s'] is [s] where the keys are concerned, or without a key that expired. *)
Definition same (s s' : server) : Prop := dbs s' = dbs s /\ stream s' = stream s /\ dirty s' = dirty s /\ effects s' = effects s.
Definition removed (d : nat) (k : key) (s s' : server) : Prop := dbs s' = alter (without k) d (dbs s) /\ stream s' = stream s ++ [(d, DEL [k])] /\ dirty s' = dirty s.

Lemma getExpire_run s d b k : wf s -> dbs s !! d = Some b -> getExpire d k s = Some (default (-1) (expires b !! k), s).
Proof.
  intros W Hb. unfold getExpire. rewrite (get_db_run _ _ _ _ Hb). case_bool_decide as He.
  - apply map_size_empty_inv in He. by rewrite He, lookup_empty.
  - destruct (expires b !! k) as [w|] eqn:Hw; [|done].
    assert (is_Some (dict b !! k)) as [v Hv] by (apply elem_of_dom, (wf_lookup s d b W Hb), elem_of_dom; by exists w). by rewrite Hv.
Qed.

Lemma dbDelete_run s d b k : dbs s !! d = Some b -> exists s', dbDelete d k s = Some (found (dict b !! k), s') /\
  dbs s' = alter (without k) d (dbs s) /\ stream s' = stream s /\ dirty s' = dirty s.
Proof.
  intros Hb. unfold dbDelete. rewrite (get_db_run _ _ _ _ Hb). case_bool_decide as He; eexists; (split; [reflexivity|]); (split; [|done]); cbn.
  - apply list_alter_ext; [|done]. intros b' Hb'. rewrite Hb in Hb'. injection Hb' as <-. unfold without.
    apply map_size_empty_inv in He. by rewrite He, delete_empty.
  - by rewrite alter_alter.
Qed.

Lemma expire_cases s d b k : wf s -> dbs s !! d = Some b -> loading cf = false ->
  exists s', expireIfNeeded d k s = Some (expired s b k, s') /\
    (if expired s b k && negb (masterhost cf) then removed d k s s' else same s s').
Proof.
  intros W Hb Hl. unfold expireIfNeeded. rewrite (bind_run _ _ _ _ _ (getExpire_run s d b k W Hb)). unfold expired.
  destruct (expires b !! k) as [w|] eqn:Hw; [change (default (-1) (Some w)) with w|by exists s].
  destruct (w <? 0) eqn:Hneg; [rewrite (proj2 (Z.leb_gt 0 w)) by lia; by exists s|]. rewrite (proj2 (Z.leb_le 0 w)) by lia. rewrite Hl. cbn [andb].
  assert (exists s1, (match lua_time_start cf with Some t => mret t | None => now end : M Z) s = Some (time_of s, s1) /\ same s s1) as (s1 & E1 & Hs1).
  { unfold time_of. destruct (lua_time_start cf); eexists; by split_and!. }
  rewrite (bind_run _ _ _ _ _ E1). destruct (masterhost cf); [exists s1; by rewrite andb_false_r|]. rewrite andb_true_r.
  destruct (w <? time_of s) eqn:Ht; [rewrite (proj2 (Z.leb_gt _ _)) by lia|rewrite (proj2 (Z.leb_le _ _)) by lia; by exists s1].
  destruct Hs1 as (Hdbs & Hstream & Hdirty & _). cbn. unfold count_expired, propagateExpire, propagate, emit, mbind, M_bind. cbn.
  match goal with |- exists s', dbDelete d k ?s2 = _ /\ _ => destruct (dbDelete_run s2 d b k) as (s3 & E3 & H3 & H3' & H3'') end; [cbn; by rewrite Hdbs|].
  exists s3. rewrite E3. assert (is_Some (dict b !! k)) as [v Hv] by (apply elem_of_dom, (wf_lookup s d b W Hb), elem_of_dom; by exists w).
  rewrite Hv. split; [done|]. split_and!; [rewrite H3; cbn; by rewrite Hdbs|rewrite H3'; cbn; by rewrite Hstream|by rewrite H3''].
Qed.

Lemma removed_wf d k s s' : wf s -> removed d k s s' -> wf s'.
Proof.
  intros W [H _]. unfold wf. rewrite H. apply Forall_alter; [done|]. intros b Hb Hs. cbn. rewrite !dom_delete_L. set_solver.
Qed.

Lemma lookup_run s d b k : wf s -> dbs s !! d = Some b -> loading cf = false ->
  exists s', lookupKeyRead d k s = Some (if expired s b k && negb (masterhost cf) then None else dict b !! k, s') /\
    (if expired s b k && negb (masterhost cf) then removed d k s s' else same s s').
Proof.
  intros W Hb Hl. destruct (expire_cases s d b k W Hb Hl) as (s1 & E1 & H1). unfold lookupKeyRead, lookupKey. rewrite (bind_run _ _ _ _ _ E1).
  destruct (expired s b k && negb (masterhost cf)).
  - destruct H1 as (Hdbs & Hstream & Hdirty). assert (dbs s1 !! d = Some (without k b)) as Hb1 by (by rewrite Hdbs, list_lookup_alter_eq, Hb).
    rewrite (bind_run _ _ _ _ _ (dictFind_run s1 d _ k Hb1)), (val_dict s1 d _ k Hb1). cbn [without dict]. rewrite lookup_delete_eq.
    eexists. split; [reflexivity|]. by split.
  - destruct H1 as (Hdbs & Hstream & H1). assert (dbs s1 !! d = Some b) as Hb1 by (by rewrite Hdbs).
    rewrite (bind_run _ _ _ _ _ (dictFind_run s1 d _ k Hb1)), (val_dict s1 d _ k Hb1). eexists. split; [reflexivity|]. by split.
Qed.

(** [while(1)]: on a master every round but the last removes a key. *)
Lemma random_ends n s d b : (forall i m, m <> ∅ -> is_Some (m !! random i m)) -> masterhost cf = false -> loading cf = false ->
  wf s -> dbs s !! d = Some b -> (size (dict b) <= n)%nat -> exists r s', dbRandomKey (S n) d s = Some (r, s').
Proof.
  intros Hr Hm Hl. revert s b. induction n as [|n IH]; intros s b W Hb Hn; cbn [dbRandomKey]; rewrite (get_db_run _ _ _ _ Hb);
    (case_bool_decide as He; [by eexists _, s|]).
  { destruct He. apply map_size_empty_inv. lia. }
  cbn zeta. set (k := random _ _). destruct (Hr (S n) (dict b) He) as [v Hv]. fold k in Hv.
  assert (exists s' x, (if found (expires b !! k) then expireIfNeeded d k else mret false) s = Some (x, s') /\
    if x then removed d k s s' else True) as (s1 & x & E1 & H1).
  { destruct (found (expires b !! k)); [|by exists s, false]. destruct (expire_cases s d b k W Hb Hl) as (s1 & E1 & H1).
    rewrite Hm, andb_true_r in H1. exists s1, (expired s b k). split; [done|]. by destruct (expired s b k). }
  rewrite (bind_run _ _ _ _ _ E1). destruct x; [|by eexists _, s1]. apply (IH s1 (without k b)).
  - by eapply removed_wf.
  - destruct H1 as [-> _]. by rewrite list_lookup_alter_eq, Hb.
  - cbn. rewrite map_size_delete, Hv. cbn. lia.
Qed.

Lemma random_loops fuel s d b : (forall i m, m <> ∅ -> is_Some (m !! random i m)) -> masterhost cf = true -> loading cf = false ->
  wf s -> dbs s !! d = Some b -> dict b <> ∅ ->
  (forall k s', is_Some (dict b !! k) -> expired s' b k = true) -> dbRandomKey fuel d s = None.
Proof.
  intros Hr Hm Hl. revert s. induction fuel as [|fuel IH]; intros s W Hb He Hexp; [done|]. cbn [dbRandomKey]. rewrite (get_db_run _ _ _ _ Hb).
  rewrite bool_decide_eq_false_2 by done. cbn zeta. set (k := random _ _).
  pose proof (Hexp k s (Hr _ _ He)) as Hk. assert (found (expires b !! k) = true) as ->.
  { unfold expired in Hk. by destruct (expires b !! k). }
  destruct (expire_cases s d b k W Hb Hl) as (s1 & E1 & H1). rewrite (bind_run _ _ _ _ _ E1), Hk. rewrite Hm, andb_false_r in H1.
  destruct H1 as [Hdbs _]. apply IH; [unfold wf; by rewrite Hdbs|by rewrite Hdbs|done|done].
Qed.
End Keys.

(** ** Encodings and the objects of [Object] *)
Definition encoding_ok (e : encoding) : Prop := match e with Raw l => zlen l < 2 ^ 31 | Int v => in_s 64 v end.

Lemma object_text e : encoding_ok e -> Object.has_text (object e) (text e).
Proof.
  destruct e as [l|v]; cbn; [|done]. intros Hl. exists []. split; [done|]. cbn. lia.
Qed.

Lemma number_of_text e v : encoding_ok e -> in_s 64 v -> text e = Util.dec v -> getLongLongFromObject e = Some v.
Proof.
  intros He Hv Ht. unfold getLongLongFromObject. pose proof (object_text e He) as H. rewrite Ht in H. by rewrite (Object.getLongLong_dec _ v Hv H).
Qed.

Lemma encode_text long_bits l : 0 < long_bits <= 64 -> text (tryObjectEncoding long_bits l) = l.
Proof.
  intros Hb. unfold tryObjectEncoding. case_match; [done|]. destruct (Util.string2l_exact long_bits l Hb) as (r & -> & Hr).
  destruct r as [v|]; [|done]. by destruct (proj1 (Hr v) eq_refl) as [_ ->].
Qed.

(** The pure encoding is the one that [Object.tryObjectEncoding] finds. *)
Lemma encode_object long_bits uninit lru integers o l : 0 < long_bits <= 64 -> Object.has_text o l -> Object.o_refcount o = 1 ->
  Object.integers_ok integers -> exists r integers' o', Object.tryObjectEncoding uninit long_bits lru integers o = Some (r, integers') /\
    Object.result_object r integers' = Some o' /\ Object.has_text o' (text (tryObjectEncoding long_bits l)) /\
    (forall v, tryObjectEncoding long_bits l = Int v -> Object.o_ptr o' = Object.ENC_INT v).
Proof.
  intros Hb Ht Hr Hi. destruct (Object.try_encoding_spec uninit long_bits Hb lru integers o l Ht ltac:(lia) Hi) as (r & integers' & o' & E & Hi' & Ho & Ht' & Hv).
  exists r, integers', o'. rewrite (encode_text long_bits l Hb). split_and!; [done..|]. intros v Hl.
  assert (in_s long_bits v /\ l = Util.dec v) as [H1 H2]; [|by apply Hv].
  unfold tryObjectEncoding in Hl. case_match; [done|]. destruct (Util.string2l_exact long_bits l Hb) as (x & Hx & Hspec). rewrite Hx in Hl.
  destruct x as [x|]; [|done]. injection Hl as <-. by apply Hspec.
Qed.

(** Reading a number always has an answer. *)
Lemma skip_space_total n l i : 0 <= i <= zlen l -> zlen l < i + Z.of_nat n -> exists j, Object.skip_space n (l ++ [0]) i = Some j /\ 0 <= j <= zlen l.
Proof.
  revert i. induction n as [|n IH]; intros i Hi Hn; [lia|]. cbn [Object.skip_space].
  destruct (Z.eq_dec i (zlen l)) as [->|Hne]; [rewrite rd_app by done; cbn; exists (zlen l); split; [done|lia]|].
  destruct (rd_in (l ++ [0]) i) as [c ->]; [rewrite length_app; cbn; lia|]. cbn. case_match; [apply IH; lia|by exists i].
Qed.
Lemma read_digits_total n l i a : 0 <= i <= zlen l -> zlen l < i + Z.of_nat n -> exists v j, Object.read_digits n (l ++ [0]) i a = Some (v, j) /\ 0 <= j <= zlen l.
Proof.
  revert i a. induction n as [|n IH]; intros i a Hi Hn; [lia|]. cbn [Object.read_digits].
  destruct (Z.eq_dec i (zlen l)) as [->|Hne]; [rewrite rd_app by done; cbn; eexists _, (zlen l); split; [done|lia]|].
  destruct (rd_in (l ++ [0]) i) as [c ->]; [rewrite length_app; cbn; lia|]. cbn. case_match; [apply IH; lia|by eexists _, i].
Qed.
Lemma number_total e : Object.getLongLongFromObject (object e) <> None.
Proof.
  destruct e as [l|v]; [|done]. unfold Object.getLongLongFromObject, object. cbn [Object.o_ptr Object.createObject Sds.buf].
  assert (exists v j x, Object.strtoll (l ++ [0]) = Some (v, j, x) /\ 0 <= j <= zlen l) as (v & j & x & -> & Hj).
  { unfold Object.strtoll. destruct (skip_space_total (length (l ++ [0])) l 0) as (i & -> & Hi); [lia|rewrite length_app; cbn; lia|]. cbn [mbind option_bind].
    destruct (rd_in (l ++ [0]) i) as [c Hc]; [rewrite length_app; cbn; lia|]. rewrite Hc. cbn [mbind option_bind].
    set (q := if (c =? 45) || (c =? 43) then i + 1 else i). assert (0 <= q <= zlen l) as Hq.
    { unfold q. destruct (Z.eq_dec i (zlen l)) as [->|Hne]; [rewrite rd_app in Hc by done; injection Hc as <-; cbn; lia|]. case_match; lia. }
    destruct (read_digits_total (length (l ++ [0])) l q 0 Hq) as (w & e & -> & He); [rewrite length_app; cbn; lia|]. cbn [mbind option_bind].
    case_match; [exists 0, 0, false; split; [done|lia]|]. repeat case_match; eexists _, e, _; done. }
  cbn [mbind option_bind]. destruct (rd_in (l ++ [0]) 0) as [c ->]; [rewrite length_app; cbn; lia|]. cbn [mbind option_bind].
  destruct (rd_in (l ++ [0]) j) as [e ->]; [rewrite length_app; cbn; lia|]. done.
Qed.

(** ** Arithmetic of INCR *)
Definition fits (v : Z) : bool := (- 2 ^ 63 <=? v) && (v <? 2 ^ 63).

Lemma overflow_exact incr n : in_s 64 incr -> in_s 64 n -> would_overflow incr n = negb (fits (n + incr)).
Proof.
  unfold in_s, would_overflow, fits. change (2 ^ (64 - 1)) with (2 ^ 63). intros Hi Hn.
  assert (forall v, - 2 ^ 63 <= v < 2 ^ 63 -> CInt.swrap 64 v = v) as E by (intros v Hv; by apply swrap_small).
  destruct (n <? 0) eqn:Hneg.
  - rewrite (E (- 2 ^ 63 - n)) by lia. rewrite (proj2 (Z.ltb_ge 0 n)) by lia. rewrite andb_true_r, andb_false_r, orb_false_r. lia.
  - rewrite andb_false_r. destruct (0 <? n) eqn:Hpos; [rewrite (E (2 ^ 63 - 1 - n)) by lia|]; rewrite ?andb_true_r, ?andb_false_r; cbn [orb andb]; lia.
Qed.

Lemma strtoll_bounds b v e x : Object.strtoll b = Some (v, e, x) -> in_s 64 v.
Proof.
  unfold Object.strtoll, in_s. change (2 ^ (64 - 1)) with (2 ^ 63). destruct (Object.skip_space _ _ _) as [i|]; [|done]. cbn [mbind option_bind].
  destruct (rd b i) as [c|]; [|done]. cbn [mbind option_bind]. destruct (Object.read_digits _ _ _ _) as [[n j]|]; [|done]. cbn [mbind option_bind].
  set (w := if c =? 45 then - n else n). clearbody w. case_match; [by intros [= <- _ _]|].
  destruct (w <? - 2 ^ 63) eqn:H1; [by intros [= <- _ _]|]. destruct (2 ^ 63 <=? w) eqn:H2; intros [= <- _ _]; lia.
Qed.
Lemma number_bounds e n : (forall v, e = Int v -> in_s 64 v) -> getLongLongFromObject e = Some n -> in_s 64 n.
Proof.
  destruct e as [l|v]; [intros _|intros H [= <-]; by apply H]. unfold getLongLongFromObject, object, Object.getLongLongFromObject.
  cbn [Object.o_ptr Object.createObject Sds.buf]. destruct (Object.strtoll _) as [[[v e] x]|] eqn:E; [|done]. cbn [mbind option_bind].
  destruct (rd _ 0); [|done]. cbn [mbind option_bind]. destruct (rd _ e); [|done]. cbn. case_match; [done|]. intros [= <-]. by eapply strtoll_bounds.
Qed.

(** What a command sees under a key that may have expired, and what the
    databases are after it looked. *)
Definition gone {X} mstime cf (s : server (X := X)) (b : redisDb) (k : key) : bool := expired mstime cf s b k && negb (masterhost cf).
Definition seen {X} mstime cf (s : server (X := X)) (b : redisDb) (k : key) : option value :=
  if gone mstime cf s b k then None else dict b !! k.
Definition looked {X} mstime cf (s : server (X := X)) (d : nat) (b : redisDb) (k : key) : list (redisDb (X := X)) :=
  if gone mstime cf s b k then alter (without k) d (dbs s) else dbs s.
Definition store {X} (k : key) (v : value) (b : redisDb (X := X)) : redisDb := Db (<[k := v]> (dict b)) (expires b).

Lemma write_run {X} mstime cf (s : server (X := X)) d b k : wf s -> dbs s !! d = Some b -> loading cf = false ->
  exists s' b', lookupKeyWrite mstime cf d k s = Some (seen mstime cf s b k, s') /\ dbs s' = looked mstime cf s d b k /\ dirty s' = dirty s /\
    dbs s' !! d = Some b' /\ dict b' !! k = seen mstime cf s b k.
Proof.
  intros W Hb Hl. destruct (expire_cases mstime cf s d b k W Hb Hl) as (s1 & E1 & H1). unfold seen, looked, gone.
  assert (exists b', dbs s1 !! d = Some b' /\ dict b' !! k = (if expired mstime cf s b k && negb (masterhost cf) then None else dict b !! k)) as (b' & Hb' & Hk).
  { destruct (_ && _); destruct H1 as [-> _]; [|by exists b]. rewrite list_lookup_alter_eq, Hb. eexists. split; [done|]. apply lookup_delete_eq. }
  exists s1, b'. split; [|destruct (_ && _); [destruct H1 as (? & ? & ?)|destruct H1 as (? & ? & ? & _)]; done].
  unfold lookupKeyWrite, lookupKey. by rewrite (bind_run _ _ _ _ _ E1), (dictFind_run s1 d b' k Hb'), (val_dict s1 d b' k Hb'), Hk.
Qed.

Lemma store_value_run {X} (s : server (X := X)) d b k v : dbs s !! d = Some b -> is_list v = false ->
  exists s', (if found (dict b !! k) then dbOverwrite d k v else dbAdd d k v) s = Some (tt, s') /\
    dbs s' = alter (store k v) d (dbs s) /\ dirty s' = dirty s /\ effects s' = effects s.
Proof.
  intros Hb Hv. destruct (found (dict b !! k)) eqn:Hk; unfold dbOverwrite, dbAdd;
    rewrite (bind_run _ _ _ _ _ (dictFind_run s d b k Hb)), (val_dict s d b k Hb), Hk; [|rewrite Hv]; by eexists.
Qed.

(** The commands that add a number to the value of a key, and the number, if
    their argument is one. *)
Definition increment (c : command) : option (key * option Z) :=
  match c with
  | INCR k => Some (k, Some 1)
  | DECR k => Some (k, Some (-1))
  | INCRBY k arg => Some (k, getLongLongFromObject (Raw arg))
  | DECRBY k arg => Some (k, Z.opp <$> getLongLongFromObject (Raw arg))
  | _ => None
  end.

(** The number that a value stands for: a key that is not there counts as zero. *)
Definition number {X} (o : option (value (X := X))) : option Z :=
  match o with None => Some 0 | Some (Str e) => getLongLongFromObject e | Some (Agg _ _) => None end.

(** The databases and the count of changes stay; the last reply is [r]. *)
Definition refused {X} (s s' : server (X := X)) ds (r : reply) : Prop := dbs s' = ds /\ dirty s' = dirty s /\ last (effects s') = Some (Reply r).
Definition not_a_number : reply := Err "value is not an integer or out of range".

(** The sum is stored, under the expiry the key has, and answered. *)
Definition added {X} (s s' : server (X := X)) ds (d : nat) (k : key) (n : Z) : Prop :=
  (exists e, dbs s' = alter (store k (Str e)) d ds /\ text e = Util.dec n /\ getLongLongFromObject e = Some n) /\
  dirty s' = dirty s + 1 /\ exists es, effects s' = es ++ [Touch d k; Notify "incrby" k d; Reply (Integer n)].

Lemma new_number long_bits n : in_s 64 n -> let e := createStringObjectFromLongLong long_bits n in
  text e = Util.dec n /\ getLongLongFromObject e = Some n.
Proof.
  intros Hn e. assert (text e = Util.dec n) as Ht by (unfold e, createStringObjectFromLongLong; by case_match).
  split; [done|]. apply number_of_text; [|done..]. unfold e, createStringObjectFromLongLong. case_match; [done|]. cbn.
  pose proof (Util.dec_length n Hn). lia.
Qed.

Lemma incr_run {X} long_bits mstime cf (s : server (X := X)) d b k i :
  loading cf = false -> wf s -> dbs s !! d = Some b -> (forall v, dict b !! k = Some (Str (Int v)) -> in_s 64 v) -> in_s 64 i ->
  exists s', incrDecrCommand long_bits mstime cf d k i s = Some (None, s') /\
    let ds := looked mstime cf s d b k in
    match number (seen mstime cf s b k) with
    | Some n => if fits (n + i) then added s s' ds d k (n + i) else refused s s' ds (Err "increment or decrement would overflow")
    | None => refused s s' ds (match seen mstime cf s b k with Some (Agg _ _) => wrongtypeerr | _ => not_a_number end)
    end.
Proof.
  intros Hl W Hb Hint Hi. destruct (write_run mstime cf s d b k W Hb Hl) as (s1 & b1 & E1 & Hdbs & Hdirty & Hb1 & Hk1).
  assert (forall v, seen mstime cf s b k = Some (Str (Int v)) -> in_s 64 v) as Hint' by (unfold seen; case_match; [done|exact Hint]).
  assert (forall r, exists s', reply_ r s1 = Some (None, s') /\ refused s s' (looked mstime cf s d b k) r) as Hno.
  { intros r. eexists. split; [reflexivity|]. cbn. unfold refused. cbn. split_and!; [done..|apply last_snoc]. }
  unfold incrDecrCommand. rewrite (bind_run _ _ _ _ _ E1). cbv zeta. destruct (seen mstime cf s b k) as [[e|t x]|] eqn:Hseen; [|apply Hno|].
  all: cbn [number]; try (destruct (getLongLongFromObject e) as [n|] eqn:He; [|apply Hno]).
  2: set (n := 0).
  all: assert (in_s 64 n) as Hn by (first [by eapply number_bounds; [|exact He]; intros v ->; apply Hint'|unfold n, in_s; lia]).
  all: rewrite (overflow_exact i n Hi Hn); destruct (fits (n + i)) eqn:Hf; cbn [negb]; [|apply Hno].
  all: assert (in_s 64 (n + i)) as Hs by (unfold fits in Hf; unfold in_s; change (2 ^ (64 - 1)) with (2 ^ 63); lia).
  all: rewrite (swrap_small 64 (n + i) eq_refl Hs); rewrite <- Hk1.
  all: destruct (store_value_run s1 d b1 k (Str (createStringObjectFromLongLong long_bits (n + i))) Hb1 eq_refl) as (s2 & E2 & H2 & H3 & H4).
  all: rewrite (bind_run _ _ _ _ _ E2); eexists; (split; [reflexivity|]); unfold added; cbn.
  all: split; [|split; [by rewrite H3, Hdirty|exists (effects s2); by rewrite <- !app_assoc]].
  all: destruct (new_number long_bits (n + i) Hs) as [Ht Hg]; exists (createStringObjectFromLongLong long_bits (n + i)).
  all: by rewrite H2, Hdbs.
Qed.

(** C30: INCR, DECR, INCRBY and DECRBY, except DECRBY of -2^63: when the argument
    and the value of the key are numbers, a key that is absent or, on a
    master, has expired being 0, the sum is stored in decimal under the expiry of the key, counted as one
    change, signalled and answered, if it is a [long long], and refused
    otherwise; a value or an argument that is no number, and a key that holds no
    string, are refused, and nothing changes but the deletion of the expired key.
    The server is not loading. (DECRBY of -2^63: see [decrby_negates_minimum].) *)
Theorem incr_exact {X} long_bits mstime cf (s : server (X := X)) d b k c incr :
  loading cf = false -> wf s -> dbs s !! d = Some b -> increment c = Some (k, incr) ->
  (forall i, incr = Some i -> in_s 64 i) -> (forall v, dict b !! k = Some (Str (Int v)) -> in_s 64 v) ->
  exists s', proc long_bits mstime cf d c s = Some (None, s') /\
    let ds := looked mstime cf s d b k in
    match incr, number (seen mstime cf s b k) with
    | Some i, Some n => if fits (n + i) then added s s' ds d k (n + i) else refused s s' ds (Err "increment or decrement would overflow")
    | Some _, None => refused s s' ds (match seen mstime cf s b k with Some (Agg _ _) => wrongtypeerr | _ => not_a_number end)
    | None, _ => refused s s' (dbs s) not_a_number
    end.
Proof.
  intros Hl W Hb Hc Hi Hint.
  assert (forall i, in_s 64 i -> _) as Hrun by (intros i; exact (incr_run long_bits mstime cf s d b k i Hl W Hb Hint)).
  assert (exists s', reply_ not_a_number s = Some (None, s') /\ refused s s' (dbs s) not_a_number) as Hno.
  { eexists. split; [reflexivity|]. unfold refused. cbn. split_and!; [done..|apply last_snoc]. }
  destruct c; try done; cbn [increment] in Hc; injection Hc as -> <-; cbn [proc].
  - by apply Hrun, Hi.
  - by apply Hrun, Hi.
  - unfold incrbyCommand, getLongLongFromObjectOrReply. destruct (getLongLongFromObject (Raw n)) as [i|]; [|exact Hno]. by apply Hrun, Hi.
  - unfold decrbyCommand, getLongLongFromObjectOrReply. destruct (getLongLongFromObject (Raw n)) as [i|]; [|exact Hno].
    cbn [fmap option_fmap option_map] in *. rewrite (swrap_small 64 (- i) eq_refl (Hi _ eq_refl)). by apply Hrun, Hi.
Qed.

(** ** The theorems *)

(** C12: a master runs commands and its expiration cycle in any order, with any
    clock, and its slave, with any other clock, what the master sends: both
    reach the end, and their databases hold the same keys and values. The
    commands are all but SET with XX (see [set_xx_diverges]); SETRANGE asks for
    lengths that are [long long]s (see [setrange_overflow_aborts]). *)
Theorem replicas_converge {X} long_bits (clock1 clock2 : nat -> Z) (master slave : config) (events : list event) (m s : server (X := X)) :
  masterhost master = false -> masterhost slave = true -> wf m -> wf s -> dicts m = dicts s ->
  Forall (event_ok long_bits master m) events ->
  exists m' s' out, run long_bits clock1 master events m = Some (tt, m') /\ stream m' = stream m ++ out /\
    run long_bits clock2 slave (map (fun e => Command e.1 e.2) out) s = Some (tt, s') /\ dicts m' = dicts s'.
Proof.
  intros Hm Hs Wm Ws HD He.
  destruct (run_follows long_bits clock1 (fun _ _ => []) master m events Wm He) as ([] & m' & E1 & out & F).
  assert (Forall (entry_ok long_bits s) out) as Hok.
  { eapply Forall_impl; [exact (fl_ok _ _ _ _ F)|]. intros e [H1 H2]. split; [|done].
    by rewrite <- (length_map dict (dbs s)), <- (HD : map dict (dbs m) = map dict (dbs s)), length_map. }
  destruct (slave_run long_bits clock2 (fun _ _ => []) slave s out Ws Hs Hok) as ([] & s' & E2 & _ & E3).
  exists m', s', out. split_and!; [done|apply F|done|]. by rewrite E3, <- HD, (fl_dicts _ _ _ _ F).
Qed.

(** C13: looking a key up on a master never shows a value whose time has passed:
    the key is deleted and a DEL is sent. Anything else is shown and stays; a
    slave shows and keeps even what has expired. *)
Theorem lookup_hides_expired {X} mstime cf (s : server (X := X)) d b k :
  wf s -> dbs s !! d = Some b -> loading cf = false ->
  exists s', lookupKeyRead mstime cf d k s = Some (if expired mstime cf s b k && negb (masterhost cf) then None else dict b !! k, s') /\
    wf s' /\ if expired mstime cf s b k && negb (masterhost cf)
    then dbs s' = alter (without k) d (dbs s) /\ stream s' = stream s ++ [(d, DEL [k])]
    else dbs s' = dbs s /\ stream s' = stream s.
Proof.
  intros W Hb Hl. destruct (lookup_run mstime cf s d b k W Hb Hl) as (s' & E & H). exists s'. split; [done|].
  destruct (_ && _); [split; [by eapply removed_wf|by destruct H as (? & ? & _)]|]. destruct H as (H1 & H2 & _).
  split; [unfold wf; by rewrite H1|done].
Qed.

(** C31: [dbRandomKey] returns on a master, within as many rounds as there are
    keys and one more; on a slave whose keys have all expired it never does,
    since nothing is deleted there. *)
Theorem dbRandomKey_rounds {X} mstime random cf (s : server (X := X)) d b :
  (forall i m, m <> ∅ -> is_Some (m !! random i m)) -> loading cf = false -> wf s -> dbs s !! d = Some b ->
  (masterhost cf = false -> exists r s', dbRandomKey mstime random cf (S (size (dict b))) d s = Some (r, s')) /\
  (masterhost cf = true -> dict b <> ∅ -> (forall k s', is_Some (dict b !! k) -> expired mstime cf (X := X) s' b k = true) ->
    forall fuel, dbRandomKey mstime random cf fuel d s = None).
Proof.
  intros Hr Hl W Hb. split.
  - intros Hm. by eapply random_ends.
  - intros Hm He Hexp fuel. by eapply random_loops.
Qed.

(** ** Runs *)
Definition MASTER : config := Config false false None.
Definition SLAVE : config := Config true false None.
Definition bytes (s : string) : list Z := map (fun c => Z.of_N (Ascii.N_of_ascii c)) (String.list_ascii_of_string s).
Definition empty_server : server (X := Z) := Server [Db ∅ ∅; Db ∅ ∅] 0 0 0 0 0 [] [].
Definition one_key (k : key) (v : value) (when : Z) : server (X := Z) := Server [Db {[k := v]} {[k := when]}] 0 0 0 0 0 [] [].

Lemma empty_wf : wf empty_server.
Proof. repeat constructor; cbn; rewrite !dom_empty_L; done. Qed.
Lemma one_key_wf k v w : wf (one_key k v w).
Proof. repeat constructor. cbn. rewrite !dom_singleton_L. done. Qed.

Definition session : list event :=
  [Command 0 (SET (bytes "a") (bytes "10") [bytes "EX"; bytes "5"]); Command 0 (INCRBY (bytes "a") (bytes "-3"));
   Command 0 (MSET [bytes "b"; bytes "x"; bytes "c"; bytes "y"]); Command 0 (EXPIRE (bytes "b") (bytes "1"));
   Cycle 0 (bytes "b") 10000; Command 0 (RENAME (bytes "c") (bytes "d")); Command 0 (MOVE (bytes "d") (bytes "1"));
   Command 0 (APPEND (bytes "a") (bytes "0")); Command 0 (GET (bytes "a"))].

Lemma replicas_converge_witness : exists m' s' out,
  run 64 (fun n => Z.of_nat n * 100) MASTER session empty_server = Some (tt, m') /\ stream m' = [] ++ out /\
  run 64 (fun _ => 7) SLAVE (map (fun e => Command e.1 e.2) out) empty_server = Some (tt, s') /\ dicts m' = dicts s'.
Proof.
  apply (replicas_converge 64 (fun n => Z.of_nat n * 100) (fun _ => 7) MASTER SLAVE session empty_server empty_server);
    [reflexivity|reflexivity|exact empty_wf|exact empty_wf|reflexivity|].
  repeat constructor; intros H; exact H.
Defined.

Lemma lookup_hides_expired_witness : exists s', lookupKeyRead (fun _ => 11) MASTER 0 [1] (one_key [1] (Agg REDIS_SET 0) 10) = Some (None, s') /\
  wf s' /\ dbs s' = [Db ∅ ∅] /\ stream s' = [(0%nat, DEL [[1]])].
Proof.
  destruct (lookup_hides_expired (fun _ => 11) MASTER (one_key [1] (Agg REDIS_SET 0) 10) 0 _ [1] (one_key_wf _ _ _) eq_refl eq_refl) as (s' & E & W & H1 & H2).
  exists s'. split; [exact E|]. split; [exact W|]. split; [|exact H2]. rewrite H1. cbn. unfold without. cbn. rewrite !delete_singleton_eq. reflexivity.
Defined.

(** The first key of the dictionary. *)
Definition first_key (_ : nat) (m : gmap key (value (X := Z))) : key := match map_to_list m with (k, _) :: _ => k | [] => [] end.
Lemma first_key_in i m : m <> ∅ -> is_Some (m !! first_key i m).
Proof.
  intros Hm. unfold first_key. destruct (map_to_list m) as [|[k v] l] eqn:E; [by apply map_to_list_empty_iff in E|].
  exists v. apply elem_of_map_to_list. rewrite E. constructor.
Qed.

Lemma dbRandomKey_rounds_witness :
  (exists r s', dbRandomKey (fun _ => 11) first_key MASTER 2 0 (one_key [1] (Agg REDIS_SET 0) 10) = Some (r, s')) /\
  (forall fuel, dbRandomKey (fun _ => 11) first_key SLAVE fuel 0 (one_key [1] (Agg REDIS_SET 0) 10) = None).
Proof.
  split.
  - exact (proj1 (dbRandomKey_rounds (fun _ => 11) first_key MASTER (one_key [1] (Agg REDIS_SET 0) 10) 0 _ first_key_in eq_refl (one_key_wf _ _ _) eq_refl) eq_refl).
  - refine (proj2 (dbRandomKey_rounds (fun _ => 11) first_key SLAVE (one_key [1] (Agg REDIS_SET 0) 10) 0 _ first_key_in eq_refl (one_key_wf _ _ _) eq_refl) eq_refl _ _).
    + apply insert_non_empty.
    + intros k s' [v H]. cbn in H. apply lookup_singleton_Some in H as [<- _]. unfold expired. cbn. by rewrite lookup_singleton_eq.
Defined.

(** INCRBY 5 on a key that holds -3, and DECRBY 7 on one that has expired. *)
Lemma incr_exact_witness :
  let s1 := one_key [1] (Str (Raw (bytes "-3"))) 20 in let s2 := one_key [1] (Str (Raw (bytes "-3"))) 10 in
  (exists s', proc 64 (fun _ => 11) MASTER 0 (INCRBY [1] (bytes "5")) s1 = Some (None, s') /\ added s1 s' (dbs s1) 0 [1] 2) /\
  (exists s', proc 64 (fun _ => 11) MASTER 0 (DECRBY [1] (bytes "7")) s2 = Some (None, s') /\
    added s2 s' (alter (without [1]) 0%nat (dbs s2)) 0 [1] (-7)).
Proof.
  intros s1 s2. split.
  - destruct (incr_exact 64 (fun _ => 11) MASTER s1 0 (Db {[ [1] := Str (Raw (bytes "-3")) ]} {[ [1] := 20 ]}) [1] (INCRBY [1] (bytes "5")) (Some 5))
      as (s' & E & H); [reflexivity|exact (one_key_wf _ _ _)|reflexivity|vm_compute; reflexivity|by intros i [= <-]|intros v; cbn [dict]; by rewrite lookup_singleton_eq|].
    exists s'. split; [exact E|]. exact H.
  - destruct (incr_exact 64 (fun _ => 11) MASTER s2 0 (Db {[ [1] := Str (Raw (bytes "-3")) ]} {[ [1] := 10 ]}) [1] (DECRBY [1] (bytes "7")) (Some (-7)))
      as (s' & E & H); [reflexivity|exact (one_key_wf _ _ _)|reflexivity|vm_compute; reflexivity|by intros i [= <-]|intros v; cbn [dict]; by rewrite lookup_singleton_eq|].
    exists s'. split; [exact E|]. exact H.
Defined.

(** ** Where the code does something else *)
#[export] Instance unit_eq_dec : EqDecision unit_of_time.
Proof. solve_decision. Defined.
#[export] Instance command_eq_dec : EqDecision command.
Proof. solve_decision. Defined.

Definition ran {A} (m : StateM.M (server (X := Z)) A) (s : server (X := Z)) (f : A -> server (X := Z) -> bool) : bool :=
  match m s with Some (x, s') => f x s' | None => false end.
Lemma ran_ends {A} (m : StateM.M (server (X := Z)) A) s f : ran m s f = true -> exists x s', m s = Some (x, s') /\ f x s' = true.
Proof. unfold ran. destruct (m s) as [[x s']|]; [eauto|done]. Qed.

Definition is_text (l : list Z) (o : option (value (X := Z))) : bool := match o with Some (Str e) => bool_decide (text e = l) | _ => false end.

(** The key expires after SET has looked it up for XX and before [setKey] looks
    it up again. *)
Definition xx_clock (n : nat) : Z := match n with O => 5 | _ => 20 end.
Definition xx_server : server (X := Z) := one_key [1] (Str (Raw (bytes "old"))) 10.
Definition xx_command : command := SET [1] (bytes "new") [bytes "XX"].

(** C32: SET with XX on a key that expires between its two lookups stores the new
    value on the master, which sends DEL and then the SET; the slave deletes the
    key, finds that it does not exist, and stores nothing. *)
Theorem set_xx_diverges : exists m' s',
  run 64 xx_clock MASTER [Command 0 xx_command] xx_server = Some (tt, m') /\
  stream m' = [(0%nat, DEL [[1]]); (0%nat, xx_command)] /\
  run 64 (fun _ => 21) SLAVE (map (fun e => Command e.1 e.2) (stream m')) xx_server = Some (tt, s') /\
  is_text (bytes "new") (val (dicts m') 0 [1]) = true /\ found (val (dicts s') 0 [1]) = false.
Proof.
  destruct (ran_ends (run 64 xx_clock MASTER [Command 0 xx_command]) xx_server
    (fun _ m' => is_text (bytes "new") (val (dicts m') 0 [1]) && bool_decide (stream m' = [(0%nat, DEL [[1]]); (0%nat, xx_command)])))
    as ([] & m' & E & [H1 H2%bool_decide_eq_true]%andb_true_iff); [by vm_compute|].
  destruct (ran_ends (run 64 (fun _ => 21) SLAVE [Command 0 (DEL [[1]]); Command 0 xx_command]) xx_server
    (fun _ s' => negb (found (val (dicts s') 0 [1])))) as ([] & s' & E' & H'%negb_true_iff); [by vm_compute|].
  exists m', s'. rewrite H2. by split_and!.
Qed.

(** The offset of SETRANGE and the length of the value add up to 2^63, which the
    check takes for a negative number. *)
Example setrange_overflow_aborts :
  proc 64 (fun _ => 0) MASTER 0 (SETRANGE [1] (bytes "9223372036854775807") (bytes "x")) (one_key [1] (Str (Raw [])) (-1)) = None.
Proof.
  assert (match proc 64 (fun _ => 0) MASTER 0 (SETRANGE [1] (bytes "9223372036854775807") (bytes "x")) (one_key [1] (Str (Raw [])) (-1)) with
    Some _ => false | None => true end = true) as H by (by vm_compute). by destruct (proc _ _ _ _ _ _).
Qed.

(** DECRBY negates the most negative number to itself, and subtracts nothing:
    0 - (-2^63) is -2^63 and no error. *)
Example decrby_negates_minimum :
  ran (proc 64 (fun _ => 0) MASTER 0 (DECRBY [1] (bytes "-9223372036854775808"))) (one_key [1] (Str (Int 0)) (-1))
    (fun _ s' => is_text (bytes "-9223372036854775808") (val (dicts s') 0 [1])) = true.
Proof. by vm_compute. Qed.

(** PERSIST does not look whether the key has expired, and brings it back. *)
Example persist_revives :
  ran (proc 64 (fun _ => 20) MASTER 0 (PERSIST [1])) xx_server
    (fun _ s' => is_text (bytes "old") (val (dicts s') 0 [1]) &&
      match dbs s' !! 0%nat with Some b => bool_decide (size (expires b) = 0%nat) | None => false end) = true.
Proof. by vm_compute. Qed.

(** MOVE changes two databases and touches the key in neither. *)
Example move_touches_nothing :
  ran (_ ← proc 64 (fun _ => 0) MASTER 0 (SET [1] (bytes "x") []); proc 64 (fun _ => 0) MASTER 0 (MOVE [1] (bytes "1"))) empty_server
    (fun _ s' => found (val (dicts s') 1 [1]) && negb (found (val (dicts s') 0 [1])) &&
      bool_decide (length (List.filter (fun e => match e with Touch _ _ => true | _ => false end) (effects s')) = 1%nat)) = true.
Proof. by vm_compute. Qed.

(** What [session] sends. *)
Example session_stream :
  ran (run 64 (fun n => Z.of_nat n * 100) MASTER session) empty_server (fun _ s' => bool_decide (length (stream s') = 8%nat)) = true.
Proof. by vm_compute. Qed.

End Keyspace.
